(* ===== verification/_CoqProject ===== *)
-Q . S2P
Prelude.v
PtrList.v
Flags.v
BitMath.v
Clock.v
AddrRange.v
EventQ.v
EventQueue.v
Packet.v
Float32.v
AbstractMem.v
PacketQueue.v
MemTypes.v
Port.v
SimpleMem.v
AddrMapper.v
Tlb.v
Dma.v
Coproc.v
PimMemory.v
PimDriver.v
PimSystem.v
PimTask.v
PimApi.v
Offload.v
Bridge.v
RangeMap.v
XBar.v
XBarRanges.v
SnoopFilter.v
CoherentXBar.v
PimXBar.v
SortedList.v
FgList.v
FlatComb.v
PairHeap.v
FCQueue.v
LockFree.v
LockFreeStack.v
MSQueue.v
WordMem.v
PimList.v
HostList.v
Resident.v
ListApp.v
DramBank.v
DramAddr.v
DramQueue.v
DramSpec.v
DramOps.v
DramCtrl.v
DramInv.v
DramSafe.v
