(* ===== verification/Prelude.v ===== *)
(** * Verification of the PIM simulator

    The repository holds a processing-in-memory (PIM) study: a full-system
    simulator (gem5 with the extensions of the Smart Memory Cube, under
    [SMC_original/GEM5/gem5/src]), the software that runs on the simulated
    host and PIM processor ([SMC_original/SW]), and stand-alone benchmarks of
    concurrent data structures ([All_Summer2017]).  This development is about
    four parts of it: the memory system of the simulator, that is the code a
    simulated access runs through from the PIM processor to the bytes of a
    memory, the devices the study adds to it and the event queue that drives
    them; the software of the host, a kernel driver and a library that hand
    data and programs to the PIM device; the program that is resident on the PIM
    processor, with the linked list it offers to the host; and the data
    structures of the benchmarks.  Paths of the simulator are relative to its source directory,
    paths of the host software to [SMC_original/SW/HOST], paths of the
    benchmarks to [All_Summer2017].

    ** The program and its parts

    Components exchange packets through ports in three protocols: atomic (one
    call, with a latency), functional (no time passes) and timing (a request
    that may be refused and retried later, and a response in a later event).
    An access of the PIM processor goes through the PIM TLB, which remaps
    virtual addresses by slices and refills itself from a table in memory; over
    crossbars and bridges (the serial links of the cube) to a memory with a
    latency and a bandwidth.  The PIM memory is such a memory with registers:
    writes to them program the TLB, start the DMA engine, run the coprocessor
    or command the simulator.  The DMA engine moves data between the vector
    registers in the PIM memory and the host memory, through the same TLB.
    Everything that takes time is an event: the queue keeps the events in a
    list of lists, sorted by tick and priority, and the simulation loop takes
    them off one by one.

    On the host a task is a list of data sets; the library asks the driver to
    pin the pages they occupy, and the driver writes the table the TLB of the
    PIM reads (merging pages that are contiguous in memory into slices) and
    announces it in registers of the device.  The library also loads the
    program of the PIM, from a file a script writes, and starts it.  On the
    other side a resident program sleeps until it is woken, runs the loaded
    kernel and reports through a status register; the host polls it, and reads
    the answer from a scalar register.  The kernel that is modelled is a list
    whose nodes are blocks of the vector register.

    The benchmarks compare ways to share a structure between threads: a sorted
    list under a lock per node, structures that one thread at a time serves for
    all (flat combining), and structures updated by compare-and-set.

    ** The files

    - [Prelude]: record update, results of fallible code ([res]: an assertion,
      a panic, an exit, or undefined behaviour), machine integers as [Z] with
      explicit wrap-around, byte arrays, the contract of the event queue, and
      the shared lemmas and tactics.
    - [PtrList]: linked lists in a store of cells; [Flags]: [base/flags.hh].
    - [EventQ] (module [EQ]): events and the event queue of [sim/eventq.hh],
      [sim/eventq.cc] and [sim/eventq_impl.hh], and the loop of
      [sim/simulate.cc]; [EventQueue] (module [Queue]): its theorems.
      [Handler] is what the loop relies on in an event handler.
    - [BitMath]: [base/bitfield.hh], [base/intmath.hh].
    - [Clock]: [sim/clocked_object.hh], the cached clock of an object.
    - [AddrRange] (module [AR]): [base/addr_range.hh], ranges and interleaving.
    - [Packet]: [mem/packet.hh], [mem/packet.cc], [mem/request.hh], the command
      table, packets, sender states and the functional overlap of packets.
    - [Float32]: binary32 on 32-bit words, over the Standard Library's
      [SpecFloat].
    - [AbstractMem]: [mem/abstract_mem.cc], the bytes, the reservations of
      load-locked and store-conditional, and the atomic commands of the cube;
      [MemTypes]: its type soundness.
    - [Port]: the interfaces between components.  [MemDevice] is what a master
      port leads to, [MemDeviceLaws] what a client relies on when it reads
      memory, [MasterSide] the requester above a slave port.
    - [SimpleMem]: [mem/simple_mem.cc]; it implements [MemDeviceLaws].
    - [PacketQueue] (module [PQ]): [mem/packet_queue.cc], [mem/qport.hh], the
      responses a slave has yet to send.
    - [DramBank]: the ranks, banks and timing parameters of
      [mem/dram_ctrl.hh], and how its commands move them; [DramAddr]: the
      decoding of addresses; [DramQueue]: bursts, their queues, and the choice
      of the next one; [DramCtrl]: the rest of [mem/dram_ctrl.cc], its events
      and its interface.  [DramSpec] is a device of its own account: the
      commands it accepts, and when.  [DramOps] proves the commands of the
      controller against it, [DramInv] says what a running controller is (its
      events, its environment and its invariant), and [DramSafe] proves the
      handlers and the machine they make.
    - [AddrMapper]: [mem/addr_mapper.cc], static remapping; a mapped device
      implements [MemDeviceLaws] again.
    - [Tlb]: [mem/ethz_tlb.cc], proved against [MemDeviceLaws].
    - [Dma]: [dev/ethz_dma.cc], [dev/dma_device.cc], [base/chunk_generator.hh].
      [DmaWorld] is what the engine asks of the rest of the system, and
      [StatusRegister] what it relies on for its status register.
    - [Coproc]: the coprocessor commands of [mem/ethz_pim_memory.cc].
    - [PimMemory]: the registers and handlers of [mem/ethz_pim_memory.cc]; it
      implements [DmaWorld] and [StatusRegister].
    - [PimDriver]: [driver/pim.c]; the services of the kernel are the record
      [Kernel], kernel arrays may be uninitialised, short or freed.
    - [PimTask]: [api/pim_task.cc]; [PimApi]: [api/pim_api.cc] over the
      interface [ApiWorld], and [UTILS/dump_hex.py].
    - [PimSystem]: the driver, the registers and the TLB together; [Offload]:
      the library over the driver, which implements [ApiWorld].
    - [Bridge]: [mem/bridge.cc], queues, reserved places and serial links.
    - [RangeMap]: [base/addr_range_map.hh].
    - [XBar]: [mem/xbar.cc], [mem/noncoherent_xbar.cc],
      [mem/load_distributor.cc]; [XBarRanges]: the ranges a crossbar collects
      from its slaves and shows to its masters.
    - [SnoopFilter]: [mem/snoop_filter.cc]; [CoherentXBar]:
      [mem/coherent_xbar.cc], over the interface [XBarPeers] of all its ports;
      [PimXBar]: [mem/pim_xbar.cc], a crossbar with ideal accesses.
    - [SortedList] (module [LL]): [Linked_List_b/sorted/LinkedList.h], the
      sequential list; [FgList] (module [FG]): the list of
      [Linked_List_b/fine_grained/FGLockLinkedList.h] with hand-over-hand
      locking, as steps of its threads.
    - [FlatComb]: the combiner of [testProject/data_structures] and the stack
      of [FCStack.h] (module [FCStack]); [PairHeap] (module [PH]): the heap of
      [PairingHeap.h] and [FCPairingHeap.h]; [FCQueue] (module [FQ]): the queue
      of [FCQueue.h].  [Combinable] is what a structure promises the combiner.
    - [LockFree]: threads, atomic steps and linearizability, with
      [Linearizable] as the obligations of one thread; [LockFreeStack] (module
      [LFStack]): [LFStack.h]; [MSQueue] (module [MSQ]): [MSQueue.h] over the
      stamped references of [testProject/framework/cpp_framework.h].

    - [WordMem]: words and bytes of the memory of the PIM processor, as a class
      with its laws, and lists in it.  [PimList] (module [KL]):
      [SW/PIM/kernels/linked_list.c].  [HostList] (module [HL]):
      [app/linked_list/LinkedList.h], the list of the host.
    - [Resident]: [SW/PIM/resident], the resident program beside the host, a
      world of the library ([ApiWorld]) under any schedule; [ListApp]:
      [app/linked_list/main.cc], which compares the two lists.

    A class is a record with its fields, a method a definition of the same
    name that takes and returns the state; where a name is used by several
    classes it is qualified by its file.  A call to another component goes
    through an interface class, or is a function argument.  Where the callee
    may call back before it returns (a retry, a response), the argument is a
    function on the caller's state, and the invariants are proved for every
    such function that only does what the port protocol allows.

    ** The DRAM controller

    The controller is modelled with its six events.  A machine state is the
    time, the controller and the events that are due: those the controller has
    scheduled, each at its tick.  A step ([serve]) moves the time to the
    earliest one and runs its handler; between two steps the environment may
    send requests ([Request]) or ask for a drain ([Drain]).  A handler returns
    the new state and what it asked of the others; the commands it gives to the
    banks are recorded in the order of the source, and the device of
    [DramSpec] checks each of them on its own state: a row is opened only in a
    closed bank, read or written only if it is the row that is open, the
    intervals of the data sheet are kept, and no bank is open when its
    rank is refreshed.  The parameters are arbitrary, subject to what the
    constructor and the Python description establish and to what the scheduling
    needs ([sane]).

    ** What is shown

    - Invariants of the state machines, over every reachable state: the timing
      memory ([sm_reach_inv]), the bridge ([bridge_reach_inv]), a crossbar
      layer ([layer_reach_inv]) and the DMA engine ([dma_reach_inv]); with
      them that no wake-up is lost, that reserved places cover the responses,
      and that resources are accounted for.  The event queue stays sorted and
      time never goes back, whatever the handlers do ([simulation_in_time]).
    - Refinement: an access through the TLB reaches the address the table in
      memory assigns ([recvAtomic_refines_table]), which is the page the driver
      has pinned ([driver_tlb_translates]) for the data of the task the library
      offloads ([offload_task_table]), unless the driver merges pages and the
      last two are contiguous, where both run into the read behind the array of
      [create_slice_table_bounds]; off its registers the PIM memory is the timing memory ([plain_timing]); the two-level event list is
      one sorted list ([queue_refines]) and implements the contract the other
      components use ([schedule_contract]); the DRAM controller gives a device
      only commands it accepts ([dram_ctrl_refines]); the sequential list is a set
      ([list_refines_set]), the pairing heap a priority queue
      ([pairheap_refines]), and a pass of the combiner serves its requests in
      order ([fcstack_combines], [fcheap_combines], [fcqueue_combines]).
    - The list of the PIM processor is, on keys between its sentinels, a set of
      bounded size ([linked_list_kernel]): one key per block, and in a debug
      build, which reads through a null pointer when it takes the last block,
      one less.  The list of the host is a set ([add_ok], [remove_ok],
      [contains_ok]).  Within those bounds, and under any schedule in which the
      processor moves between two accesses of the host, the program that
      compares them finds no difference; it ends when the numbers drawn hold as
      many different keys as the list is to start with, and fills the list for
      ever otherwise ([list_app_agrees]).  When the processor does not move, a call
      can return the answer of the last one ([stale_answer]) or never return
      ([lost_wakeup]).
    - Concurrency, over every interleaving of any number of threads: the
      fine-grained list, the lock-free stack and the lock-free queue are
      linearizable and touch no node that is not there ([fg_linearizable],
      [fg_memory_safe], [lfstack_linearizable], [msqueue_linearizable]); the
      list does not deadlock ([fg_no_deadlock]), and a thread of the stack left
      alone finishes ([lfstack_obstruction_free]).  The constructor of the
      fine-grained list never initialises the mutex of the tail; its three theorems
      hold up to the first lock of that mutex, and beyond it where its memory is by
      chance that of an unlocked one.
    - Coherence: in every execution of the protocol the snoop filter knows who
      has a line ([snoop_filter_sound]), and a bus with a filter behaves as one
      that snoops every port ([atomic_filter_transparent]).
    - The DRAM controller never fails an assertion, in any state that sane
      requests and its own events lead to ([dram_ctrl_safe]), and answers each
      read exactly once and each write on arrival ([dram_ctrl_answers]).  Its
      write queue merges writes without losing a byte
      ([write_queue_merges]), its scheduler picks a burst of the queue by the
      rule of its policy, with a mask of the banks that can be prepared first
      ([choose_next]), addresses decode uniquely
      ([decode_roundtrip]), and responses leave in order, none before its time
      ([packet_queue_inv]).
    - Liveness of events: the ideal accesses of the PIM crossbar are answered
      in order, and no response waits without an event ([pim_ideal_fifo]); an
      ideal fetch returns the bytes of the memory ([ideal_fetch_data]).
    - Types: on well-typed memories and packets that do not wrap around, an
      access has no undefined behaviour, but for a float addition in a packet
      shorter than a float, and keeps them well typed ([access_type_sound]).
    - Termination: [serviceEvents_drains], and every theorem that states that
      an operation with a loop returns.
    - Functional behaviour: stores, reservations and atomic commands, refills
      and evictions, DMA commands and the tiling of transfers, the PageRank
      command of the coprocessor, functional overlaps, the ranges a crossbar
      shows and decodes by, with the stripes of an interleaved range and a default
      range ([xbar_startup], [shown_ranges_cover]), the pages of
      a task ([task_pages]).
    - Bounds: [create_slice_table_bounds].
    - Round trips: requests and responses across a mapper, whose response has
      its own address if the request was taken at once and the mapped one if it
      was refused before ([mapper_timing_roundtrip]), and across a bridge,
      insertion and search in range maps, bit fields, floats; the files of
      [dump_hex.py] and the loader of the library ([kernel_roundtrip]).
    - Equivalence of optimised code with a reference: the cached clock, the
      port cache, the range-map search, merged interleaved ranges.
    - Behaviour that departs from what the code says it does, as theorems:
      [insert_misses_overlap], [one_byte_stuck], [initiate_shifts_current],
      [mapper_retry_address], [functional_read_stale], [hmc_atomic_miss],
      [partial_overlap_sizes], [coprocessor_fabs], [isPrime_composites],
      [access_wraps_around], [fadd_behind_array], [one_rank_in_order],
      [debugVerify_spec], [destroy_leaks],
      [alias_forgets_holder], [drain_ignores_ideal],
      [fg_destroy_unlocks_free], [fg_tail_uninitialised], [fcstack_full_add],
      [fcqueue_empty_answer], [create_slice_table_bounds], [ioctl_size_wraps],
      [ioctl_ignores_failure], [release_frees_twice], [mmap_check_vacuous],
      [sentinel_keys], [last_block_debug], [stale_answer], [lost_wakeup],
      [list_app_too_big].

    ** Bounds and fuel

    Addresses and ticks are 64-bit and wrap; theorems that need it assume that
    no sum overflows.  The loops that are not structural take fuel: the chunk
    loop of a DMA transfer takes the number of bytes, and [dmaAction_tiles]
    shows that it always suffices; the loop that sends packets atomically
    takes the number of queued packets, one less on each turn.  A loop over a
    linked list takes the size of the store plus one, which a list without a
    cycle cannot exceed ([seg_length]); running out of fuel is the value
    [Diverged] of [fault], and the theorems show that it does not occur, or that
    it occurs with any fuel, where the code does not end ([lost_wakeup],
    [list_app_agrees]).  The
    loop that services events has no bound of its own, since handlers may
    schedule more; [serviceEvents_drains] gives one for handlers that do not.
    The loops of the driver take the number of pages plus one, and no result
    of its theorems is [Diverged].  The library polls the device without a
    bound; [wait_for_completion_returns] says when that ends, and with the
    resident program four turns are enough ([run_kernel_ok]).  The loops of the
    list on the PIM processor take two turns more than there are blocks, those
    of the host's list the count of the list.
    The times of the DRAM controller stay below 2^59, so that no sum of the
    code wraps around: [dram_ctrl_safe] holds of every event and request before
    that.  Its parameters are [sane]: at most 64 banks (the width of the
    masks of the scheduler), an activation that constrains others no longer than
    a row cycle, refreshes further apart than the controller plans ahead.
    Other loops are structural on the list or the counter they run over.

    ** What is not modelled

    Console and trace output, statistics that nothing reads, serialisation,
    the construction and connection of objects, and the deferred deletion of
    packets.  Of the event queue, the table of the main queues and the barriers
    of a parallel simulation.  The components use the queue through its
    contract: an event is scheduled at most once and not in the past, and a due
    event is taken off the queue before its handler runs.  The processors
    and caches of the simulator are behind the interfaces.  Of the DRAM
    controller, its power model, which only receives commands, and the timing
    checks that no build enables; its responses are recorded with their ticks,
    and the packet queue they go to is proved apart.
    Threads of the benchmarks share sequentially consistent memory: barriers
    and weaker orders are not modelled, nor are the delays between attempts,
    the slots of waiting threads behind the combiner, and the skip lists and
    other queues of the suite.  Of the host software, opening and mapping the
    device, the exit of the module and all messages.  Of the programs of the
    PIM processor and the applications that offload them, all but the resident
    program and the linked list. *)

From coqutil Require Import Tactics.RecordEta.
From stdpp Require Export base numbers list gmap strings sorting.
From Stdlib Require Export ZArith Lia Bool.

#[global] Open Scope Z_scope.

(** ** Record update: [r <| f := v |>]

    The instance for a field is built from the record's constructor, so that
    reading a field of an updated record reduces. *)
Class FieldUpd {R E : Type} (f : R -> E) := mk_field_upd { field_upd : (E -> E) -> R -> R }.
Arguments mk_field_upd {R E} f _.
Arguments field_upd {R E} f {_} _ _.

Ltac build_field_upd R f :=
  let e := eta R in
  lazymatch eval pattern f in e with
  | ?u _ =>
      let v := eval cbv beta in (fun g => u (fun r => g (f r))) in
      exact (mk_field_upd f v)
  end.

#[global] Hint Extern 1 (@FieldUpd ?R _ ?f) => build_field_upd R f : typeclass_instances.

Declare Scope record_scope.
#[global] Open Scope record_scope.
Notation "x <| f := v |>" := (field_upd f (fun _ => v) x)
  (at level 8, v at level 99, left associativity, format "x <| f  :=  v |>") : record_scope.

(** ** Results: how a C++ call can end

    [assert] and [panic] abort the simulator, [fatal] and [exit] end it, and
    [Undefined] marks an access the language gives no meaning to (a read past
    the end of an array, a use of a null pointer).  [Diverged] is no behaviour
    of the program: it marks a loop whose model ran out of fuel. *)
Inductive fault :=
| AssertFailed
| Panic
| Fatal
| Exit (code : Z)
| Undefined
| Diverged.

Inductive res (A : Type) :=
| Ok (a : A)
| Err (e : fault).
Arguments Ok {_} _.
Arguments Err {_} _.

#[global] Instance fault_eq_dec : EqDecision fault.
Proof. solve_decision. Defined.

#[global] Instance res_ret : MRet res := fun A a => Ok a.
#[global] Instance res_bind : MBind res := fun A B f m =>
  match m with Ok a => f a | Err e => Err e end.
#[global] Instance res_fmap : FMap res := fun A B f m =>
  match m with Ok a => Ok (f a) | Err e => Err e end.

Definition assert_ (b : bool) : res unit := if b then Ok tt else Err AssertFailed.
Definition panic {A} : res A := Err Panic.
Definition undefined {A} : res A := Err Undefined.

(** A possibly null pointer, or an index that may be out of range. *)
Definition deref {A} (o : option A) : res A :=
  match o with Some a => Ok a | None => Err Undefined end.

(** ** Machine integers: a w-bit value is a [Z] in [0, 2^w) *)
Definition wrap (w z : Z) : Z := z mod 2 ^ w.
Definition u8 : Z -> Z := wrap 8.
Definition u16 : Z -> Z := wrap 16.
Definition u32 : Z -> Z := wrap 32.
Definition u64 : Z -> Z := wrap 64.
Definition inw (w z : Z) : Prop := 0 <= z < 2 ^ w.

(** Two's complement reading of a w-bit value. *)
Definition sgn (w z : Z) : Z :=
  if wrap w z <? 2 ^ (w - 1) then wrap w z else wrap w z - 2 ^ w.
Definition s32 : Z -> Z := sgn 32.
Definition s64 : Z -> Z := sgn 64.

(** [(Addr)-1], [(Tick)-1] *)
Definition u64_max : Z := 2 ^ 64 - 1.

(** ** Byte arrays and little-endian words *)
Fixpoint le_val (bs : list Z) : Z :=
  match bs with
  | [] => 0
  | b :: bs' => b + 256 * le_val bs'
  end.

Fixpoint le_bytes (n : nat) (v : Z) : list Z :=
  match n with
  | O => []
  | S n' => v mod 256 :: le_bytes n' (v / 256)
  end.

Definition byte_ok (b : Z) : Prop := 0 <= b < 256.

(** The bytes [off, off+n) of an array; past its end the access is undefined. *)
Definition arr_read (m : list Z) (off n : Z) : res (list Z) :=
  if (0 <=? off) && (0 <=? n) && (off + n <=? Z.of_nat (length m))
  then Ok (take (Z.to_nat n) (drop (Z.to_nat off) m))
  else Err Undefined.

(** [memcpy(m + off, bs, |bs|)] *)
Definition arr_write (m : list Z) (off : Z) (bs : list Z) : res (list Z) :=
  if (0 <=? off) && (off + Z.of_nat (length bs) <=? Z.of_nat (length m))
  then Ok (take (Z.to_nat off) m ++ bs ++ drop (Z.to_nat off + length bs) m)
  else Err Undefined.

(** The [i]-th little-endian word of [w] bytes: [((uintW_t* )p)[i]]. *)
Definition arr_word (m : list Z) (w i : Z) : res Z :=
  bs ← arr_read m (w * i) w; Ok (le_val bs).

(** ** Events: the one thing a component asks of the event queue

    [schedule] requires that the event is not already on the queue and that
    its tick is not in the past (sim/eventq_impl.hh). *)
Definition schedule (ev : option Z) (now when : Z) : res (option Z) :=
  _ ← assert_ (now <=? when);
  _ ← assert_ (bool_decide (ev = None));
  Ok (Some when).

(** [reschedule] with [always = true]: allowed on a scheduled event as well. *)
Definition reschedule (ev : option Z) (now when : Z) : res (option Z) :=
  _ ← assert_ (now <=? when); Ok (Some when).

(** ** Tactics *)

(** Split a successful run into its successful steps. *)
Ltac res_step :=
  match goal with
  | H : Ok _ = Ok _ |- _ => injection H as H; subst
  | H : Err _ = Ok _ |- _ => discriminate H
  | H : Ok _ = Err _ |- _ => discriminate H
  | H : panic = Ok _ |- _ => discriminate H
  | H : undefined = Ok _ |- _ => discriminate H
  | H : assert_ ?b = Ok _ |- _ =>
      let E := fresh "Ha" in
      unfold assert_ in H; destruct b eqn:E; [|discriminate H]; clear H
  | H : mbind _ ?m = Ok _ |- _ =>
      let E := fresh "Hm" in
      destruct m eqn:E; cbn [mbind res_bind] in H; [|discriminate H]
  | H : context [let '(_, _) := ?p in _] |- _ =>
      first [ is_var p; destruct p | let E := fresh "Hp" in destruct p eqn:E ]
  | H : (_, _) = (_, _) |- _ => injection H as H; subst
  end.
Ltac res_inv := repeat res_step.

(** Booleans of guards into propositions. *)
Ltac bool_prop :=
  repeat match goal with
  | H : _ && _ = true |- _ => apply andb_prop in H; destruct H
  | H : negb _ = true |- _ => apply negb_true_iff in H
  | H : negb _ = false |- _ => apply negb_false_iff in H
  | H : (_ <=? _) = true |- _ => apply Z.leb_le in H
  | H : (_ <=? _) = false |- _ => apply Z.leb_gt in H
  | H : (_ <? _) = true |- _ => apply Z.ltb_lt in H
  | H : (_ <? _) = false |- _ => apply Z.ltb_ge in H
  | H : (_ =? _) = true |- _ => apply Z.eqb_eq in H
  | H : (_ =? _) = false |- _ => apply Z.eqb_neq in H
  | H : bool_decide _ = true |- _ => apply bool_decide_eq_true_1 in H
  | H : bool_decide _ = false |- _ => apply bool_decide_eq_false_1 in H
  end.

(** Case split on the guard of a conditional in the goal. *)
Ltac case_if :=
  match goal with
  | |- context [if ?b then _ else _] =>
      let E := fresh "Hif" in destruct b eqn:E
  end.
Ltac case_if_in H :=
  match type of H with
  | context [if ?b then _ else _] =>
      let E := fresh "Hif" in destruct b eqn:E
  end.

Create HintDb pim.
Create Rewrite HintDb pim.

(** ** Lemmas on machine integers *)
Lemma wrap_range w z : 0 <= w -> 0 <= wrap w z < 2 ^ w.
Proof. intros. apply Z.mod_pos_bound, Z.pow_pos_nonneg; lia. Qed.

Lemma wrap_id w z : inw w z -> wrap w z = z.
Proof. intros H. apply Z.mod_small, H. Qed.

Lemma wrap_wrap w z : wrap w (wrap w z) = wrap w z.
Proof. apply Zmod_mod. Qed.

Lemma wrap_add_l w a b : wrap w (wrap w a + b) = wrap w (a + b).
Proof. apply Zplus_mod_idemp_l. Qed.

Lemma wrap_add_r w a b : wrap w (a + wrap w b) = wrap w (a + b).
Proof. apply Zplus_mod_idemp_r. Qed.

Lemma wrap_sub_l w a b : wrap w (wrap w a - b) = wrap w (a - b).
Proof. apply Zminus_mod_idemp_l. Qed.

Lemma wrap_sub_r w a b : wrap w (a - wrap w b) = wrap w (a - b).
Proof. apply Zminus_mod_idemp_r. Qed.

Lemma wrap_mul_l w a b : 0 <= w -> wrap w (wrap w a * b) = wrap w (a * b).
Proof. intros. apply Z.mul_mod_idemp_l, Z.pow_nonzero; lia. Qed.

Lemma u64_small z : 0 <= z < 2 ^ 64 -> u64 z = z.
Proof. apply wrap_id. Qed.

Lemma u64_range z : 0 <= u64 z < 2 ^ 64.
Proof. apply wrap_range. lia. Qed.

(** An address computed as [off + base] from [addr - start] does not depend
    on intermediate wrap-around. *)
Lemma u64_rebase a s t : u64 (u64 (a - s) + t) = u64 (a - s + t).
Proof. apply wrap_add_l. Qed.

#[export] Hint Rewrite wrap_wrap wrap_add_l wrap_add_r wrap_sub_l wrap_sub_r : pim.
#[export] Hint Resolve u64_range wrap_range wrap_id u64_small : pim.

(** ** Lemmas on byte arrays *)
Lemma length_le_bytes n v : length (le_bytes n v) = n.
Proof. revert v. induction n; intros; cbn; [done|by rewrite IHn]. Qed.

Lemma le_val_bytes n v : le_val (le_bytes n v) = v mod 256 ^ Z.of_nat n.
Proof.
  revert v. induction n as [|n IH]; intros v.
  - cbn. by rewrite Z.mod_1_r.
  - cbn [le_bytes le_val]. rewrite IH, Nat2Z.inj_succ, Z.pow_succ_r by lia.
    rewrite Z.rem_mul_r; lia.
Qed.

Lemma le_bytes_ok n v : Forall byte_ok (le_bytes n v).
Proof.
  revert v. induction n; intros; cbn; constructor; eauto.
  apply Z.mod_pos_bound. lia.
Qed.

Lemma le_val_range bs : Forall byte_ok bs -> 0 <= le_val bs < 256 ^ Z.of_nat (length bs).
Proof.
  induction 1 as [|b bs Hb _ IH]; [cbn; lia|].
  cbn [le_val length]. rewrite Nat2Z.inj_succ, Z.pow_succ_r by lia.
  unfold byte_ok in Hb. nia.
Qed.

Lemma le_bytes_val bs : Forall byte_ok bs -> le_bytes (length bs) (le_val bs) = bs.
Proof.
  induction 1 as [|b bs Hb _ IH]; cbn; [done|]. unfold byte_ok in Hb.
  rewrite (Z.mul_comm 256), Z.mod_add, Z.div_add by lia.
  rewrite Z.mod_small, Z.div_small, Z.add_0_l by lia. by rewrite IH.
Qed.

Lemma arr_read_length m off n bs :
  arr_read m off n = Ok bs -> Z.of_nat (length bs) = n.
Proof.
  unfold arr_read. case_if; [|done]. intros [= <-]. bool_prop.
  rewrite length_take, length_drop. lia.
Qed.

Lemma arr_read_ok m off n :
  0 <= off -> 0 <= n -> off + n <= Z.of_nat (length m) ->
  arr_read m off n = Ok (take (Z.to_nat n) (drop (Z.to_nat off) m)).
Proof. intros. unfold arr_read. by rewrite !(proj2 (Z.leb_le _ _)) by lia. Qed.

Lemma arr_write_length m off bs m' :
  arr_write m off bs = Ok m' -> length m' = length m.
Proof.
  unfold arr_write. case_if; [|done]. intros [= <-]. bool_prop.
  rewrite !length_app, length_take, length_drop. lia.
Qed.

Lemma arr_write_defined m off bs :
  0 <= off -> off + Z.of_nat (length bs) <= Z.of_nat (length m) ->
  exists m', arr_write m off bs = Ok m'.
Proof.
  intros. unfold arr_write.
  rewrite !(proj2 (Z.leb_le _ _)) by lia. eauto.
Qed.

Lemma arr_read_write_same m off bs m' :
  arr_write m off bs = Ok m' -> arr_read m' off (Z.of_nat (length bs)) = Ok bs.
Proof.
  intros H. pose proof (arr_write_length _ _ _ _ H) as Hl.
  unfold arr_write in H. case_if_in H; [|done]. injection H as <-. bool_prop.
  rewrite arr_read_ok by lia. f_equal.
  rewrite drop_app_length' by (rewrite length_take; lia).
  by rewrite Nat2Z.id, take_app_length.
Qed.

Lemma arr_read_write_other m off bs m' off' n :
  arr_write m off bs = Ok m' ->
  off' + n <= off \/ off + Z.of_nat (length bs) <= off' ->
  arr_read m' off' n = arr_read m off' n.
Proof.
  intros H Hd. pose proof (arr_write_length _ _ _ _ H) as Hl.
  unfold arr_read. rewrite Hl. case_if; [|done]. f_equal. bool_prop.
  unfold arr_write in H. case_if_in H; [|done]. injection H as <-. bool_prop.
  apply list_eq. intros i.
  destruct (decide (i < Z.to_nat n)%nat) as [Hi|Hi].
  - rewrite !lookup_take_lt, !lookup_drop by lia.
    destruct Hd as [Hd|Hd].
    + rewrite lookup_app_l by (rewrite length_take; lia).
      by rewrite lookup_take_lt by lia.
    + rewrite lookup_app_r by (rewrite length_take; lia).
      rewrite length_take, lookup_app_r by lia.
      rewrite lookup_drop. f_equal. lia.
  - rewrite !lookup_take_ge by lia. done.
Qed.

Lemma lookup_arr_write m off bs m' i :
  arr_write m off bs = Ok m' ->
  m' !! i = if (off <=? Z.of_nat i) && (Z.of_nat i <? off + Z.of_nat (length bs))
            then bs !! Z.to_nat (Z.of_nat i - off) else m !! i.
Proof.
  unfold arr_write. case_if; [|done]. intros [= <-]. bool_prop.
  destruct (Z.leb_spec off (Z.of_nat i)), (Z.ltb_spec (Z.of_nat i) (off + Z.of_nat (length bs)));
    cbn [andb].
  - rewrite lookup_app_r, length_take by (rewrite length_take; lia).
    rewrite lookup_app_l by lia. f_equal. lia.
  - rewrite lookup_app_r, length_take by (rewrite length_take; lia).
    rewrite lookup_app_r, lookup_drop by lia. f_equal. lia.
  - rewrite lookup_app_l by (rewrite length_take; lia). by rewrite lookup_take_lt by lia.
  - lia.
Qed.

Lemma lookup_arr_read m off n bs i :
  arr_read m off n = Ok bs -> (i < length bs)%nat -> bs !! i = m !! (Z.to_nat off + i)%nat.
Proof.
  unfold arr_read. case_if; [|done]. intros [= <-] Hi. rewrite length_take in Hi.
  by rewrite lookup_take_lt, lookup_drop by lia.
Qed.

(** An array given by its parts. *)
Lemma arr_read_mid pre bs post :
  arr_read (pre ++ bs ++ post) (Z.of_nat (length pre)) (Z.of_nat (length bs)) = Ok bs.
Proof.
  rewrite arr_read_ok; [|lia|lia|rewrite !length_app; lia].
  by rewrite !Nat2Z.id, drop_app_length, take_app_length.
Qed.

Lemma arr_write_mid pre bs bs' post : length bs' = length bs ->
  arr_write (pre ++ bs ++ post) (Z.of_nat (length pre)) bs' = Ok (pre ++ bs' ++ post).
Proof.
  intros E. unfold arr_write. rewrite !(proj2 (Z.leb_le _ _)) by (rewrite ?length_app; lia).
  cbn [andb]. rewrite Nat2Z.id, take_app_length, E, <- length_app, (app_assoc pre bs).
  by rewrite drop_app_length.
Qed.

(** [memcpy(vd + o', d + o, n)] inside both arrays. *)
Lemma copy_bytes d o n vd o' :
  0 <= o -> 0 <= n -> o + n <= Z.of_nat (length d) ->
  0 <= o' -> o' + n <= Z.of_nat (length vd) ->
  exists bs vd', arr_read d o n = Ok bs /\ arr_write vd o' bs = Ok vd' /\
    length vd' = length vd /\
    forall i, vd' !! i = if (o' <=? Z.of_nat i) && (Z.of_nat i <? o' + n)
                         then d !! Z.to_nat (o + Z.of_nat i - o') else vd !! i.
Proof.
  intros H1 H2 H3 H4 H5. pose proof (arr_read_ok d o n H1 H2 H3) as Hr.
  pose proof (arr_read_length _ _ _ _ Hr) as Hl.
  destruct (arr_write_defined vd o' (take (Z.to_nat n) (drop (Z.to_nat o) d))) as [vd' Hw];
    [lia..|].
  eexists _, vd'. split; [exact Hr|]. split; [exact Hw|].
  split; [by apply arr_write_length in Hw|]. intros i.
  rewrite (lookup_arr_write _ _ _ _ i Hw), Hl.
  destruct (Z.leb_spec o' (Z.of_nat i)), (Z.ltb_spec (Z.of_nat i) (o' + n)); cbn [andb];
    try done.
  rewrite (lookup_arr_read _ _ _ _ _ Hr) by lia. f_equal. lia.
Qed.
