(* ===== verification/PtrList.v ===== *)
(** Singly linked lists in a store of cells.

    The list benchmarks and the event queue link cells through a [next]
    pointer.  [seg h p l q] says that following [next] from pointer [p] visits
    the cells [l] in order and ends at pointer [q]; a null pointer is [None].
    The lemmas say when a write keeps a segment, that a segment that ends at
    null has no cycle, and that it is no longer than the store, which is what
    the fuel of the loops rests on. *)
From S2P Require Import Prelude.

Abbreviation loc := positive.

(** [new]: an address that is not in use. *)
Definition new_loc {A} (h : gmap loc A) : loc := fresh (dom h : gset loc).

Lemma new_loc_fresh {A} (h : gmap loc A) : h !! new_loc h = None.
Proof. apply (not_elem_of_dom (D := gset loc)), (is_fresh (dom h : gset loc)). Qed.

Section seg.
Context {A : Type} (next : A -> option loc).
Implicit Types (h : gmap loc A) (l : list loc) (p q : option loc).

Fixpoint seg h p l q : Prop :=
  match l with
  | [] => p = q
  | a :: l' => p = Some a /\ exists c, h !! a = Some c /\ seg h (next c) l' q
  end.

Lemma seg_app h l1 l2 p q :
  seg h p (l1 ++ l2) q <-> exists m, seg h p l1 m /\ seg h m l2 q.
Proof.
  revert p. induction l1 as [|a l1 IH]; intros p; cbn.
  - split; [eauto|]. intros (m & -> & H). done.
  - split.
    + intros (-> & c & Hc & H). apply IH in H as (m & H1 & H2). eauto 8.
    + intros (m & (-> & c & Hc & H1) & H2). split; [done|].
      exists c. split; [done|]. apply IH. eauto.
Qed.

Lemma seg_ext h h' l p q :
  (forall a, a ∈ l -> next <$> h' !! a = next <$> h !! a) -> seg h p l q -> seg h' p l q.
Proof.
  revert p. induction l as [|a l IH]; intros p He; cbn; [done|].
  intros (-> & c & Hc & H). split; [done|].
  specialize (He a ltac:(left)) as Ha. rewrite Hc in Ha. cbn in Ha.
  apply fmap_Some in Ha as (c' & Hc' & Hn).
  exists c'. split; [done|]. rewrite <- Hn. apply IH; [|done].
  intros b Hb. apply He. by right.
Qed.

Lemma seg_insert_ne h l p q a c : a ∉ l -> seg h p l q -> seg (<[a:=c]> h) p l q.
Proof.
  intros Ha. apply seg_ext. intros b Hb. by rewrite lookup_insert_ne by set_solver.
Qed.

(** A write that keeps the pointer keeps the segment. *)
Lemma seg_insert_same h l p q a c c' :
  h !! a = Some c -> next c' = next c -> seg h p l q -> seg (<[a:=c']> h) p l q.
Proof.
  intros Ha Hn. apply seg_ext. intros b _.
  destruct (decide (b = a)) as [->|Hne]; [|by rewrite lookup_insert_ne].
  by rewrite lookup_insert_eq, Ha; cbn; rewrite Hn.
Qed.

Lemma seg_delete h l p q a : a ∉ l -> seg h p l q -> seg (delete a h) p l q.
Proof.
  intros Ha. apply seg_ext. intros b Hb. by rewrite lookup_delete_ne by set_solver.
Qed.

Lemma seg_dom h l p q a : seg h p l q -> a ∈ l -> is_Some (h !! a).
Proof.
  revert p. induction l as [|b l IH]; intros p H Hin; [by apply elem_of_nil in Hin|].
  destruct H as (_ & c & Hc & H). apply elem_of_cons in Hin as [->|Hin]; eauto.
Qed.

(** Two walks from the same pointer agree as long as both go on. *)
Lemma seg_det h l1 l2 p : seg h p l1 None -> seg h p l2 None -> l1 = l2.
Proof.
  revert l2 p. induction l1 as [|a l1 IH]; intros [|b l2] p H1 H2; cbn in *; try done.
  - subst. by destruct H2.
  - subst. by destruct H1.
  - destruct H1 as (-> & c & Hc & H1), H2 as ([= <-] & c' & Hc' & H2).
    rewrite Hc in Hc'. injection Hc' as <-. f_equal. eauto.
Qed.

Lemma seg_split_at h l p a : seg h p l None -> a ∈ l ->
  exists l1 l2, l = l1 ++ a :: l2 /\ seg h p l1 (Some a) /\ seg h (Some a) (a :: l2) None.
Proof.
  intros H Hin. apply list_elem_of_split in Hin as (l1 & l2 & ->).
  apply seg_app in H as (m & H1 & H2). pose proof H2 as (-> & _). eauto 6.
Qed.

(** A segment that ends at null has no cycle. *)
Lemma seg_NoDup h l p : seg h p l None -> NoDup l.
Proof.
  revert p. induction l as [|a l IH]; intros p H; [constructor|].
  pose proof H as (-> & c & Hc & H'). constructor; [|eauto].
  intros Hin. destruct (seg_split_at _ _ _ _ H' Hin) as (l1 & l2 & El & _ & H2).
  pose proof (seg_det _ _ _ _ H H2) as E. injection E as E. rewrite E in El.
  apply (f_equal length) in El. rewrite length_app in El. cbn in El. lia.
Qed.

Lemma NoDup_dom_length h l : NoDup l -> (forall a, a ∈ l -> is_Some (h !! a)) ->
  (length l <= size h)%nat.
Proof.
  intros Hnd Hd. rewrite <- size_dom, <- (size_list_to_set (C := gset loc) l Hnd).
  apply subseteq_size. intros a Ha. apply elem_of_list_to_set in Ha.
  apply elem_of_dom, Hd, Ha.
Qed.

Lemma seg_length h l p : seg h p l None -> (length l <= size h)%nat.
Proof.
  intros H. apply NoDup_dom_length; [by eapply seg_NoDup|]. intros a. by eapply seg_dom.
Qed.

(** Redirecting the last cell of a segment redirects the segment. *)
Lemma seg_relink h l a p q q' c c' :
  seg h p (l ++ [a]) q -> a ∉ l -> h !! a = Some c -> next c' = q' ->
  seg (<[a:=c']> h) p (l ++ [a]) q'.
Proof.
  intros H Ha Hc Hn. apply seg_app in H as (m & H1 & (-> & c0 & Hc0 & _)).
  apply seg_app. exists (Some a). split; [by apply seg_insert_ne|].
  split; [done|]. exists c'. split; [apply lookup_insert_eq|done].
Qed.

End seg.

(** [vals_of data h ns xs]: the cells [ns] hold the values [xs]. *)
Section vals.
Context {A B : Type} (data : A -> B).
Implicit Types (h : gmap loc A) (ns : list loc) (xs : list B).

Definition vals_of h ns xs : Prop := Forall2 (fun a x => data <$> h !! a = Some x) ns xs.

Lemma vals_ext h h' ns xs :
  (forall a, a ∈ ns -> data <$> h' !! a = data <$> h !! a) -> vals_of h ns xs -> vals_of h' ns xs.
Proof.
  unfold vals_of. intros He H. induction H as [|b x ns xs Hb _ IH]; constructor.
  - rewrite He by left. done.
  - apply IH. intros a Ha. apply He. by right.
Qed.

Lemma vals_insert_ne h ns xs a n : a ∉ ns -> vals_of h ns xs -> vals_of (<[a:=n]> h) ns xs.
Proof. intros Ha. apply vals_ext. intros b Hb. by rewrite lookup_insert_ne by (intros ->; done). Qed.

Lemma vals_insert_same h ns xs a n n' : h !! a = Some n -> data n' = data n ->
  vals_of h ns xs -> vals_of (<[a:=n']> h) ns xs.
Proof.
  intros Ha Hd. apply vals_ext. intros b _. destruct (decide (b = a)) as [->|].
  - by rewrite lookup_insert_eq, Ha; cbn; rewrite Hd.
  - by rewrite lookup_insert_ne.
Qed.

Lemma vals_delete h ns xs a : a ∉ ns -> vals_of h ns xs -> vals_of (delete a h) ns xs.
Proof. intros Ha. apply vals_ext. intros b Hb. by rewrite lookup_delete_ne by (intros ->; done). Qed.

End vals.

#[export] Hint Resolve seg_insert_ne seg_delete : pim.
