(* ===== verification/Flags.v ===== *)
(** [base/flags.hh]: a set of flags in an unsigned integer, with the laws of
    setting, clearing and testing that packets and events use. *)
From S2P Require Import Prelude.

(** ** base/flags.hh: a set of flags in an unsigned integer *)
Definition fl_isSet (f m : Z) : bool := negb (Z.land f m =? 0).
Definition fl_noneSet (f m : Z) : bool := Z.land f m =? 0.
Definition fl_allSet (f m : Z) : bool := Z.land f m =? m.
Definition fl_set (f m : Z) : Z := Z.lor f m.
Definition fl_clear (f m : Z) : Z := Z.ldiff f m.

(** [set(f, val)] and [update(flags, mask)] *)
Definition fl_set_val (f m : Z) (val : bool) : Z := Z.lor (Z.ldiff f m) (if val then m else 0).
Definition fl_update (f v mask : Z) : Z := Z.lor (Z.ldiff f mask) (Z.land v mask).

Lemma fl_isSet_set f m : 0 < m -> fl_isSet (fl_set f m) m = true.
Proof.
  intros. unfold fl_isSet, fl_set. rewrite Z.land_lor_distr_l, Z.land_diag.
  apply negb_true_iff, Z.eqb_neq. intros E. apply Z.lor_eq_0_iff in E. lia.
Qed.

Lemma fl_isSet_clear f m : fl_isSet (fl_clear f m) m = false.
Proof.
  unfold fl_isSet, fl_clear. apply negb_false_iff, Z.eqb_eq, Z.bits_inj'. intros i Hi.
  rewrite Z.land_spec, Z.ldiff_spec, Z.testbit_0_l.
  by destruct (Z.testbit f i), (Z.testbit m i).
Qed.

(** Nor does setting a flag disturb a disjoint one. *)
Lemma fl_isSet_set_other f s m : Z.land m s = 0 -> fl_isSet (fl_set f s) m = fl_isSet f m.
Proof.
  intros H. unfold fl_isSet, fl_set. do 2 f_equal. rewrite Z.land_lor_distr_l.
  by rewrite (Z.land_comm s m), H, Z.lor_0_r.
Qed.

(** The same for a multi-bit field read under a mask. *)
Lemma fl_land_set_other f s m : Z.land m s = 0 -> Z.land (fl_set f s) m = Z.land f m.
Proof.
  intros H. unfold fl_set. rewrite Z.land_lor_distr_l.
  by rewrite (Z.land_comm s m), H, Z.lor_0_r.
Qed.

Lemma fl_land_clear_other f c m : Z.land m c = 0 -> Z.land (fl_clear f c) m = Z.land f m.
Proof.
  intros H. unfold fl_clear. apply Z.bits_inj'. intros i Hi.
  assert (Z.testbit (Z.land m c) i = false) as Hb by (rewrite H; apply Z.testbit_0_l).
  rewrite Z.land_spec in Hb. rewrite !Z.land_spec, Z.ldiff_spec.
  destruct (Z.testbit f i), (Z.testbit m i), (Z.testbit c i); done.
Qed.

(** Flags other than the one cleared survive. *)
Lemma fl_isSet_clear_other f c m : Z.land m c = 0 -> fl_isSet (fl_clear f c) m = fl_isSet f m.
Proof. intros H. unfold fl_isSet. by rewrite fl_land_clear_other. Qed.

#[export] Hint Rewrite fl_isSet_clear fl_isSet_clear_other fl_isSet_set_other
  fl_land_set_other fl_land_clear_other using reflexivity : pim.
