(* ===== verification/BitMath.v ===== *)
(** * Bit fields and integer helpers

    Models [base/bitfield.hh] (masks, bit-field extraction and insertion, sign
    extension, most and least significant set bit) and [base/intmath.hh]
    (powers of two, logarithms, rounding, powers), at the 64-bit type the
    memory system uses them with.  The theorems relate each routine to the
    arithmetic it stands for. *)

From S2P Require Import Prelude.

(** ** base/bitfield.hh *)

Definition mask (nbits : Z) : Z :=
  if nbits =? 64 then u64 (-1) else u64 (u64 (Z.shiftl 1 nbits) - 1).

Definition bits (val first last : Z) : Z :=
  let nbits := first - last + 1 in
  Z.land (Z.shiftr val last) (mask nbits).

Definition bit1 (val bit : Z) : Z := bits val bit bit.

(** [~x] on a 64-bit value *)
Definition not64 (x : Z) : Z := u64 (Z.lnot x).

Definition mbits (val first last : Z) : Z :=
  Z.land val (Z.land (mask (first + 1)) (not64 (mask last))).

Definition mask2 (first last : Z) : Z := mbits (u64 (-1)) first last.

(** [sext<N>(val)]: the result is an [int64_t]. *)
Definition sext (N val : Z) : Z :=
  let sign_bit := bits val (N - 1) (N - 1) in
  s64 (if negb (sign_bit =? 0) then Z.lor val (not64 (mask N)) else val).

Definition insertBits (val first last bit_val : Z) : Z :=
  let bmask := u64 (Z.shiftl (mask (first - last + 1)) last) in
  Z.lor (Z.land (u64 (Z.shiftl bit_val last)) bmask) (Z.land val (not64 bmask)).

Definition insertBit1 (val bit bit_val : Z) : Z := insertBits val bit bit bit_val.

(** [replaceBits(val, ...)] assigns the result of [insertBits] to [val]. *)
Definition replaceBits (val first last bit_val : Z) : Z :=
  insertBits val first last bit_val.

Definition replaceBit1 (val bit bit_val : Z) : Z :=
  insertBits val bit bit bit_val.

Definition findMsbSet (val : Z) : Z :=
  let msb := 0 in
  if val =? 0 then 0 else
  let '(msb, val) := if negb (bits val 63 32 =? 0) then (msb + 32, Z.shiftr val 32) else (msb, val) in
  let '(msb, val) := if negb (bits val 31 16 =? 0) then (msb + 16, Z.shiftr val 16) else (msb, val) in
  let '(msb, val) := if negb (bits val 15 8 =? 0) then (msb + 8, Z.shiftr val 8) else (msb, val) in
  let '(msb, val) := if negb (bits val 7 4 =? 0) then (msb + 4, Z.shiftr val 4) else (msb, val) in
  let '(msb, val) := if negb (bits val 3 2 =? 0) then (msb + 2, Z.shiftr val 2) else (msb, val) in
  if negb (bits val 1 1 =? 0) then msb + 1 else msb.

Definition findLsbSet (val : Z) : Z :=
  let lsb := 0 in
  if val =? 0 then 64 else
  let '(lsb, val) := if bits val 31 0 =? 0 then (lsb + 32, Z.shiftr val 32) else (lsb, val) in
  let '(lsb, val) := if bits val 15 0 =? 0 then (lsb + 16, Z.shiftr val 16) else (lsb, val) in
  let '(lsb, val) := if bits val 7 0 =? 0 then (lsb + 8, Z.shiftr val 8) else (lsb, val) in
  let '(lsb, val) := if bits val 3 0 =? 0 then (lsb + 4, Z.shiftr val 4) else (lsb, val) in
  let '(lsb, val) := if bits val 1 0 =? 0 then (lsb + 2, Z.shiftr val 2) else (lsb, val) in
  if bits val 0 0 =? 0 then lsb + 1 else lsb.

Definition isPow2 (v : Z) : bool := Z.land v (u64 (v - 1)) =? 0.

(** ** base/intmath.hh *)

(** The trial-division loop; [fuel] bounds its iterations.  It returns [None]
    when the fuel runs out. *)
Fixpoint isPrime_loop (fuel : nat) (n i : Z) : option bool :=
  match fuel with
  | O => None
  | S fuel =>
      if i * i <=? n then
        if (n mod i =? 0) || (n mod (i + 2) =? 0) then Some false
        else isPrime_loop fuel n (i + 6)
      else Some true
  end.

Definition isPrime (n : Z) : option bool :=
  if (n =? 2) || (n =? 3) then Some true
  else isPrime_loop (S (Z.to_nat n)) n 5.

Definition leastSigBit (n : Z) : Z := Z.land n (not64 (u64 (n - 1))).

Definition isPowerOf2 (n : Z) : bool := negb (n =? 0) && (leastSigBit n =? n).

Fixpoint power_loop (k : nat) (n result : Z) : Z :=
  match k with
  | O => result
  | S k => power_loop k n (u64 (result * n))
  end.

(** [e - 1] rounds of the multiplication loop; the warnings only print. *)
Definition power (n e : Z) : Z :=
  if e =? 0 then 1 else power_loop (Z.to_nat (e - 1)) n n.

Definition log2_step (m k : Z) (s : Z * Z) : Z * Z :=
  let '(y, x) := s in
  if negb (Z.land x m =? 0) then (y + k, Z.shiftr x k) else (y, x).

Definition floorLog2_32 (x : Z) : res Z :=
  _ ← assert_ (0 <? x);
  let s := log2_step 0xffff0000 16 (0, x) in
  let s := log2_step 0x0000ff00 8 s in
  let s := log2_step 0x000000f0 4 s in
  let s := log2_step 0x0000000c 2 s in
  let s := log2_step 0x00000002 1 s in
  Ok (fst s).

Definition floorLog2 (x : Z) : res Z :=
  _ ← assert_ (0 <? x);
  let s := log2_step 0xffffffff00000000 32 (0, x) in
  let s := log2_step 0x00000000ffff0000 16 s in
  let s := log2_step 0x000000000000ff00 8 s in
  let s := log2_step 0x00000000000000f0 4 s in
  let s := log2_step 0x000000000000000c 2 s in
  let s := log2_step 0x0000000000000002 1 s in
  Ok (fst s).

Definition ceilLog2 (n : Z) : res Z :=
  if n =? 1 then Ok 0 else
  l ← floorLog2 (u64 (n - 1)); Ok (l + 1).

Definition floorPow2 (n : Z) : res Z :=
  l ← floorLog2 n; Ok (u64 (Z.shiftl 1 l)).

Definition ceilPow2 (n : Z) : res Z :=
  l ← ceilLog2 n; Ok (u64 (Z.shiftl 1 l)).

(** Division by zero is undefined. *)
Definition divCeil (a b : Z) : res Z :=
  if b =? 0 then Err Undefined else Ok (u64 (u64 (a + b) - 1) / b).

Definition roundUp (val align : Z) : Z :=
  let m := u64 (align - 1) in Z.land (u64 (val + m)) (not64 m).

Definition roundDown (val align : Z) : Z :=
  let m := u64 (align - 1) in Z.land val (not64 m).

(** Characters by their code. *)
Definition isHex (c : Z) : bool :=
  ((48 <=? c) && (c <=? 57)) || ((65 <=? c) && (c <=? 70)) || ((97 <=? c) && (c <=? 102)).
Definition isOct (c : Z) : bool := (48 <=? c) && (c <=? 55).
Definition isDec (c : Z) : bool := (48 <=? c) && (c <=? 57).
Definition hex2Int (c : Z) : Z :=
  if (48 <=? c) && (c <=? 57) then c - 48
  else if (65 <=? c) && (c <=? 70) then c - 65 + 10
  else if (97 <=? c) && (c <=? 102) then c - 97 + 10
  else 0.

(** ** Lemmas *)

Lemma mask_ones n : 0 <= n <= 64 -> mask n = Z.ones n.
Proof.
  intros H. unfold mask. case_if; bool_prop.
  - subst. reflexivity.
  - rewrite Z.shiftl_1_l, Z.ones_equiv.
    assert (2 ^ n < 2 ^ 64) by (apply Z.pow_lt_mono_r; lia).
    assert (0 < 2 ^ n) by (apply Z.pow_pos_nonneg; lia).
    rewrite !u64_small by (rewrite ?u64_small by lia; lia). lia.
Qed.

Lemma not64_spec x i : 0 <= i ->
  Z.testbit (not64 x) i = negb (Z.testbit x i) && (i <? 64).
Proof.
  intros. unfold not64, u64, wrap. rewrite Z.testbit_mod_pow2 by lia.
  rewrite Z.lnot_spec by lia. by rewrite andb_comm.
Qed.

Lemma u64_spec x i : 0 <= i -> Z.testbit (u64 x) i = Z.testbit x i && (i <? 64).
Proof.
  intros. unfold u64, wrap. rewrite Z.testbit_mod_pow2 by lia. by rewrite andb_comm.
Qed.

Lemma ones_spec n i : 0 <= n -> 0 <= i -> Z.testbit (Z.ones n) i = (i <? n).
Proof.
  intros. destruct (Z.ltb_spec i n).
  - apply Z.ones_spec_low; lia.
  - apply Z.ones_spec_high; lia.
Qed.

Lemma bits_spec val first last i :
  0 <= last <= first -> first < 64 -> 0 <= i ->
  Z.testbit (bits val first last) i
  = Z.testbit val (i + last) && (i <? first - last + 1).
Proof.
  intros. unfold bits. rewrite Z.land_spec, Z.shiftr_spec, mask_ones, ones_spec by lia.
  done.
Qed.

Lemma bits_arith val first last :
  0 <= last <= first -> first < 64 ->
  bits val first last = (val / 2 ^ last) mod 2 ^ (first - last + 1).
Proof.
  intros. unfold bits. rewrite mask_ones by lia.
  by rewrite Z.land_ones, Z.shiftr_div_pow2 by lia.
Qed.

(** A 64-bit value has no bits above 63. *)
Lemma testbit_above w v i : inw w v -> w <= i -> Z.testbit v i = false.
Proof.
  intros [H1 H2] Hi. destruct (decide (v = 0)) as [->|]; [apply Z.testbit_0_l|].
  apply Z.bits_above_log2; [lia|].
  assert (Z.log2 v < w); [|lia]. apply Z.log2_lt_pow2; lia.
Qed.

(** ** The logarithm routines

    One halving step: a value below [2^(2k)] either has its upper half set, and
    its logarithm is [k] more than the upper half's, or is below [2^k]. *)
Lemma log2_upper k x : 0 <= k -> 2 ^ k <= x ->
  Z.log2 x = k + Z.log2 (x / 2 ^ k) /\ 0 < x / 2 ^ k.
Proof.
  intros Hk Hx. assert (0 < 2 ^ k) by (apply Z.pow_pos_nonneg; lia).
  assert (0 < x / 2 ^ k) by (apply Z.div_str_pos; lia). split; [|done].
  rewrite <- Z.shiftr_div_pow2, Z.log2_shiftr by lia.
  assert (k <= Z.log2 x) by (apply Z.log2_le_pow2; lia). lia.
Qed.

Lemma land_upper k x : 0 <= k -> 0 <= x < 2 ^ (2 * k) ->
  (Z.land x (Z.shiftl (Z.ones k) k) =? 0) = (x <? 2 ^ k).
Proof.
  intros Hk Hx.
  assert (Z.land x (Z.shiftl (Z.ones k) k) = Z.shiftl (x / 2 ^ k) k) as ->.
  { rewrite <- Z.shiftr_div_pow2 by lia. apply Z.bits_inj'. intros i Hi.
    rewrite Z.land_spec, !Z.shiftl_spec by lia.
    destruct (Z.ltb_spec i k).
    - rewrite !(Z.testbit_neg_r _ (i - k)) by lia. apply andb_false_r.
    - rewrite ones_spec, Z.shiftr_spec by lia. replace (i - k + k) with i by lia.
      destruct (Z.ltb_spec (i - k) k); [apply andb_true_r|].
      rewrite andb_false_r. symmetry. apply (testbit_above (2 * k)); unfold inw; lia. }
  rewrite Z.shiftl_mul_pow2 by lia. assert (0 < 2 ^ k) by (apply Z.pow_pos_nonneg; lia).
  destruct (Z.ltb_spec x (2 ^ k)).
  - rewrite Z.div_small by lia. done.
  - apply Z.eqb_neq. assert (0 < x / 2 ^ k) by (apply Z.div_str_pos; lia). nia.
Qed.

Lemma div_half k x : 0 <= k -> 0 <= x < 2 ^ (2 * k) -> 0 <= x / 2 ^ k < 2 ^ k.
Proof.
  intros Hk Hx. assert (0 < 2 ^ k) by (apply Z.pow_pos_nonneg; lia).
  split; [apply Z.div_pos; lia|]. apply Z.div_lt_upper_bound; [lia|].
  rewrite <- Z.pow_add_r by lia. replace (k + k) with (2 * k) by lia. lia.
Qed.

(** The invariant of the chain of steps: [y + log2 x] is the answer. *)
Lemma log2_step_inv m k y x :
  0 <= k -> m = Z.shiftl (Z.ones k) k -> 0 < x < 2 ^ (2 * k) ->
  let s := log2_step m k (y, x) in
  fst s + Z.log2 (snd s) = y + Z.log2 x /\ 0 < snd s < 2 ^ k.
Proof.
  intros Hk -> Hx. cbn. rewrite land_upper by lia.
  destruct (Z.ltb_spec x (2 ^ k)); cbn; [lia|].
  rewrite Z.shiftr_div_pow2 by lia.
  destruct (log2_upper k x) as [E P]; [lia..|].
  pose proof (div_half k x). lia.
Qed.

Ltac log2_steps :=
  repeat match goal with
  | |- context [log2_step ?m ?k (?y, ?x)] =>
      let H := fresh "Hs" in
      pose proof (log2_step_inv m k y x) as H; cbv zeta in H;
      let s := fresh "s" in
      destruct (log2_step m k (y, x)) as [? ?] eqn:?; cbn [fst snd] in H;
      destruct H as [? ?]; [lia|reflexivity|lia|]
  end.

Lemma floorLog2_log2 x : 0 < x < 2 ^ 64 -> floorLog2 x = Ok (Z.log2 x).
Proof.
  intros Hx. unfold floorLog2, assert_. rewrite (proj2 (Z.ltb_lt 0 x)) by lia.
  cbn [mbind res_bind]. cbv zeta. log2_steps. cbn [fst]. f_equal.
  match goal with H : ?y + Z.log2 ?x = _ |- ?y = _ =>
    replace x with 1 in H by lia; change (Z.log2 1) with 0 in H end. lia.
Qed.

Lemma floorLog2_32_log2 x : 0 < x < 2 ^ 32 -> floorLog2_32 x = Ok (Z.log2 x).
Proof.
  intros Hx. unfold floorLog2_32, assert_. rewrite (proj2 (Z.ltb_lt 0 x)) by lia.
  cbn [mbind res_bind]. cbv zeta. log2_steps. cbn [fst]. f_equal.
  match goal with H : ?y + Z.log2 ?x = _ |- ?y = _ =>
    replace x with 1 in H by lia; change (Z.log2 1) with 0 in H end. lia.
Qed.

(** [bits(val, 2k-1, k)] is the same test as the masks of [floorLog2]. *)
Lemma bits_upper k x : 0 < k -> k <= 32 -> 0 <= x < 2 ^ (2 * k) ->
  (bits x (2 * k - 1) k =? 0) = (x <? 2 ^ k).
Proof.
  intros. rewrite bits_arith by lia. replace (2 * k - 1 - k + 1) with k by lia.
  pose proof (div_half k x). rewrite Z.mod_small by lia.
  destruct (Z.ltb_spec x (2 ^ k)).
  - by rewrite Z.div_small by lia.
  - apply Z.eqb_neq. destruct (log2_upper k x); lia.
Qed.

Lemma msb_step k y x : 0 < k -> k <= 32 -> 0 < x < 2 ^ (2 * k) ->
  let s := if negb (bits x (2 * k - 1) k =? 0) then (y + k, Z.shiftr x k) else (y, x) in
  fst s + Z.log2 (snd s) = y + Z.log2 x /\ 0 < snd s < 2 ^ k.
Proof.
  intros H1 H2 H3. cbv zeta. rewrite bits_upper by lia.
  destruct (Z.ltb_spec x (2 ^ k)); cbn; [lia|].
  rewrite Z.shiftr_div_pow2 by lia.
  destruct (log2_upper k x) as [E P]; [lia..|]. pose proof (div_half k x). lia.
Qed.

(** The least significant bit: the value is [2^lsb] times an odd number. *)
Definition lsb_at (v l : Z) : Prop := 0 <= l /\ exists q, Z.odd q = true /\ v = 2 ^ l * q.

Lemma lsb_at_unique v l l' : v <> 0 -> lsb_at v l -> lsb_at v l' -> l = l'.
Proof.
  assert (forall l l' q q', 0 <= l -> l < l' -> Z.odd q = true ->
            2 ^ l * q = 2 ^ l' * q' -> False) as Key.
  { intros l1 l2 q q' H1 H2 Hq E.
    replace l2 with (l1 + (1 + (l2 - l1 - 1))) in E by lia.
    rewrite !Z.pow_add_r, Z.pow_1_r in E by lia.
    assert (0 < 2 ^ l1) by (apply Z.pow_pos_nonneg; lia).
    assert (q = 2 * (2 ^ (l2 - l1 - 1) * q')) as -> by nia.
    rewrite Z.odd_mul in Hq. discriminate. }
  intros Hv (H1 & q & Hq & E) (H2 & q' & Hq' & E').
  destruct (Z.lt_trichotomy l l') as [?|[?|?]]; [|done|]; exfalso; subst v; eauto.
Qed.

(** What the chain of tests of [findLsbSet] keeps: the input is the remaining
    value shifted back, and the remaining value has a bit set below [k]. *)
Definition lsb_inv (val k : Z) (s : Z * Z) : Prop :=
  0 <= snd s /\ snd s mod 2 ^ k <> 0 /\ 0 <= fst s /\ val = 2 ^ fst s * snd s.

Lemma lsb_step val k y x : 0 < k -> k <= 32 -> lsb_inv val (2 * k) (y, x) ->
  lsb_inv val k (if bits x (k - 1) 0 =? 0 then (y + k, Z.shiftr x k) else (y, x)).
Proof.
  unfold lsb_inv. cbn [fst snd]. intros H0 H1 (Hx & Hm & Hy & He).
  assert (0 < 2 ^ k) by (apply Z.pow_pos_nonneg; lia).
  assert (2 ^ (2 * k) = 2 ^ k * 2 ^ k) as E by (rewrite <- Z.pow_add_r by lia; f_equal; lia).
  rewrite bits_arith by lia. rewrite Z.pow_0_r, Z.div_1_r.
  replace (k - 1 - 0 + 1) with k by lia.
  destruct (Z.eqb_spec (x mod 2 ^ k) 0) as [E0|E0]; cbn [fst snd].
  - rewrite Z.shiftr_div_pow2 by lia.
    assert (x = 2 ^ k * (x / 2 ^ k)) as Ex by (rewrite (Z.div_mod x (2 ^ k)) at 1; lia).
    assert (0 <= x / 2 ^ k) by (apply Z.div_pos; lia).
    rewrite E, Z.rem_mul_r, E0 in Hm by lia. repeat split; [lia|nia|lia|].
    rewrite Z.pow_add_r by lia. rewrite He, Ex at 1. ring.
  - repeat split; lia.
Qed.

(** ** Theorems *)

Theorem findMsbSet_log2 (val : Z) : 0 < val < 2 ^ 64 -> findMsbSet val = Z.log2 val.
Proof.
  intros Hv. unfold findMsbSet. rewrite (proj2 (Z.eqb_neq val 0)) by lia. cbv zeta.
  repeat match goal with
  | |- context [if negb (bits ?x ?a ?k =? 0) then (?y + ?k, Z.shiftr ?x ?k) else (?y, ?x)] =>
      let H := fresh "H" in
      pose proof (msb_step k y x ltac:(lia) ltac:(lia) ltac:(lia)) as H;
      change (2 * k - 1) with a in H; cbv zeta in H;
      destruct (if negb (bits x a k =? 0) then (y + k, Z.shiftr x k) else (y, x))
        as [? ?]; cbn [fst snd] in H; destruct H
  end.
  match goal with |- (if negb (bits ?x 1 1 =? 0) then _ else _) = _ =>
    pose proof (bits_upper 1 x ltac:(lia) ltac:(lia) ltac:(lia)) as Hb;
    change (2 * 1 - 1) with 1 in Hb; rewrite Hb; clear Hb;
    destruct (Z.ltb_spec x (2 ^ 1)); cbn [negb];
    [ assert (Z.log2 x = 0) by (apply Z.log2_null; lia)
    | assert (Z.log2 x = 1) by (apply Z.log2_unique; lia) ]; lia
  end.
Qed.


Theorem findLsbSet_spec (val : Z) : 0 < val < 2 ^ 64 -> lsb_at val (findLsbSet val).
Proof.
  intros Hv. unfold findLsbSet. rewrite (proj2 (Z.eqb_neq val 0)) by lia. cbv zeta.
  assert (lsb_inv val (2 * 32) (0, val)) as Hi
    by (unfold lsb_inv; cbn [fst snd]; rewrite Z.mod_small by lia; lia).
  repeat match goal with
  | H : lsb_inv val (2 * ?k) (?y, ?x)
    |- context [if bits ?x ?a 0 =? 0 then (?y + ?k, Z.shiftr ?x ?k) else (?y, ?x)] =>
      apply lsb_step in H; [|lia|lia]; change (k - 1) with a in H;
      destruct (if bits x a 0 =? 0 then (y + k, Z.shiftr x k) else (y, x)) as [? ?];
      try change (lsb_inv val k) with (lsb_inv val (2 * (k / 2))) in H;
      let h := eval vm_compute in (k / 2) in change (k / 2) with h in H
  end.
  match goal with H : lsb_inv val _ (?y, ?x) |- _ =>
    change (2 * 1) with (2 * 1) in H; apply lsb_step in H; [|lia|lia];
    change (1 - 1) with 0 in H; destruct (bits x 0 0 =? 0);
    destruct H as (H1 & H2 & H3 & H4); cbn [fst snd] in *
  end;
  (split; [lia|]); (eexists; split; [|exact H4]);
  rewrite <- Z.bit0_odd, Z.bit0_eqb; apply Z.eqb_eq; change (2 ^ 1) with 2 in H2;
  match goal with |- ?x mod 2 = 1 => pose proof (Z.mod_pos_bound x 2); lia end.
Qed.

(** Extracting a field that was just inserted gives its value, truncated. *)
Theorem bits_insertBits val first last b :
  0 <= last <= first -> first < 64 -> inw 64 val ->
  bits (insertBits val first last b) first last = b mod 2 ^ (first - last + 1).
Proof.
  intros H1 H2 Hv. apply Z.bits_inj'. intros i Hi.
  rewrite bits_spec, Z.testbit_mod_pow2 by lia. rewrite andb_comm.
  destruct (Z.ltb_spec i (first - last + 1)); [|done]. cbn [andb].
  unfold insertBits. rewrite Z.lor_spec, !Z.land_spec, not64_spec, !u64_spec by lia.
  rewrite !Z.shiftl_spec, mask_ones, ones_spec by lia.
  replace (i + last - last) with i by lia.
  rewrite (proj2 (Z.ltb_lt i _)), (proj2 (Z.ltb_lt (i + last) 64)) by lia.
  cbn. rewrite andb_false_r, orb_false_r. by rewrite !andb_true_r.
Qed.

(** ... and every other bit keeps its value. *)
Theorem insertBits_other val first last b i :
  0 <= last <= first -> first < 64 -> inw 64 val -> 0 <= i ->
  i < last \/ first < i ->
  Z.testbit (insertBits val first last b) i = Z.testbit val i.
Proof.
  intros H1 H2 Hv Hi Ho.
  unfold insertBits. rewrite Z.lor_spec, !Z.land_spec, not64_spec, !u64_spec by lia.
  rewrite !Z.shiftl_spec, mask_ones by lia.
  assert (Z.testbit (Z.ones (first - last + 1)) (i - last) = false) as ->.
  { destruct Ho; [apply Z.testbit_neg_r; lia|rewrite ones_spec by lia; apply Z.ltb_ge; lia]. }
  cbn. rewrite andb_false_r. cbn. destruct (Z.ltb_spec i 64); [apply andb_true_r|].
  rewrite (testbit_above 64 val i Hv) by lia. done.
Qed.

Lemma lor_not64_mask N val : 0 <= N <= 64 -> inw N val ->
  Z.lor val (not64 (mask N)) = val + (2 ^ 64 - 2 ^ N).
Proof.
  intros HN Hv.
  assert (0 < 2 ^ N) by (apply Z.pow_pos_nonneg; lia).
  assert (2 ^ N <= 2 ^ 64) by (apply Z.pow_le_mono_r; lia).
  assert (not64 (mask N) = 2 ^ 64 - 2 ^ N) as En.
  { rewrite mask_ones by lia. unfold not64, u64, wrap. rewrite Z.ones_equiv.
    pose proof (Z.add_lnot_diag (Z.pred (2 ^ N))).
    replace (Z.lnot (Z.pred (2 ^ N))) with (2 ^ 64 - 2 ^ N + (-1) * 2 ^ 64) by lia.
    rewrite Z.mod_add by lia. apply Z.mod_small. lia. }
  rewrite <- En, Z.add_nocarry_lxor, Z.lxor_lor; [done|..];
    apply Z.bits_inj'; intros i Hi;
    rewrite Z.land_spec, not64_spec, mask_ones, ones_spec, Z.testbit_0_l by lia;
    (destruct (Z.ltb_spec i N); [apply andb_false_r|]);
    by rewrite (testbit_above N val i Hv) by lia.
Qed.

(** Sign extension of an N-bit value is its two's complement reading. *)
Theorem sext_sgn N val : 0 < N <= 64 -> inw N val -> sext N val = sgn N val.
Proof.
  intros HN [V1 V2]. unfold sext. cbv zeta.
  assert (2 ^ N <= 2 ^ 64) by (apply Z.pow_le_mono_r; lia).
  assert (2 ^ N = 2 * 2 ^ (N - 1)) as E
    by (rewrite <- Z.pow_succ_r by lia; f_equal; lia).
  assert (0 < 2 ^ (N - 1)) by (apply Z.pow_pos_nonneg; lia).
  rewrite bits_arith by lia. replace (N - 1 - (N - 1) + 1) with 1 by lia.
  unfold sgn at 1. rewrite (wrap_id N val) by (split; lia).
  destruct (Z.ltb_spec val (2 ^ (N - 1))) as [Hlt|Hge].
  - rewrite Z.div_small by lia. cbn [negb Z.eqb]. rewrite Z.mod_0_l by lia. cbn.
    unfold s64, sgn. rewrite wrap_id by (unfold inw; lia).
    rewrite (proj2 (Z.ltb_lt _ _)); [done|]. 
    assert (2 ^ (N - 1) <= 2 ^ (64 - 1)) by (apply Z.pow_le_mono_r; lia). lia.
  - assert (val / 2 ^ (N - 1) = 1) as -> by (symmetry; apply Z.div_unique with (val - 2 ^ (N - 1)); lia).
    change (negb (1 mod 2 ^ 1 =? 0)) with true. cbv iota.
    assert (2 ^ (N - 1) <= 2 ^ (64 - 1)) by (apply Z.pow_le_mono_r; lia).
    rewrite lor_not64_mask by (unfold inw; lia).
    unfold s64, sgn. rewrite wrap_id by (unfold inw; lia).
    rewrite (proj2 (Z.ltb_ge _ _)) by lia. lia.
Qed.

Lemma testbit_div v l j : 0 <= l -> 0 <= j -> Z.testbit v (j + l) = Z.testbit (v / 2 ^ l) j.
Proof. intros. by rewrite <- Z.shiftr_div_pow2, Z.shiftr_spec by lia. Qed.

(** [n & ~(n - 1)] isolates the least significant set bit. *)
Lemma leastSigBit_lsb n l : 0 < n < 2 ^ 64 -> lsb_at n l -> leastSigBit n = 2 ^ l.
Proof.
  intros Hn (Hl & q & Hq & En). unfold leastSigBit. rewrite (u64_small (n - 1)) by lia.
  assert (0 < 2 ^ l) by (apply Z.pow_pos_nonneg; lia).
  apply Zodd_bool_iff in Hq. destruct (Zodd_ex q Hq) as [p Ep].
  assert (n / 2 ^ l = 2 * p + 1) as D1.
  { subst n. rewrite Z.mul_comm, Z.div_mul by lia. done. }
  assert ((n - 1) / 2 ^ l = 2 * p) as D2.
  { symmetry. apply Z.div_unique with (2 ^ l - 1); [lia|]. subst n q. ring. }
  apply Z.bits_inj'. intros i Hi. rewrite Z.land_spec, not64_spec by lia.
  destruct (Z.ltb_spec i l) as [Hil|Hil].
  - rewrite Z.pow2_bits_false by lia. subst n.
    rewrite Z.mul_comm, Z.mul_pow2_bits_low by lia. done.
  - replace i with (i - l + l) by lia. rewrite (testbit_div n l), (testbit_div (n - 1) l) by lia.
    replace (i - l + l) with i by lia. rewrite D1, D2. destruct (decide (i = l)) as [->|].
    + replace (l - l) with 0 by lia. rewrite Z.testbit_odd_0, Z.testbit_even_0.
      rewrite Z.pow2_bits_true by lia. cbn.
      apply Z.ltb_lt. destruct (Z.lt_ge_cases l 64); [done|].
      assert (2 ^ 64 <= 2 ^ l) by (apply Z.pow_le_mono_r; lia). assert (1 <= q) by nia. nia.
    + replace (i - l) with (Z.succ (i - l - 1)) by lia.
      rewrite Z.testbit_odd_succ, Z.testbit_even_succ by lia.
      rewrite Z.pow2_bits_false by lia. by destruct (Z.testbit p _).
Qed.

Lemma isPowerOf2_pow2 k : 0 <= k < 64 -> isPowerOf2 (2 ^ k) = true.
Proof.
  intros Hk. assert (0 < 2 ^ k) by (apply Z.pow_pos_nonneg; lia).
  assert (2 ^ k < 2 ^ 64) by (apply Z.pow_lt_mono_r; lia).
  unfold isPowerOf2. rewrite (leastSigBit_lsb _ k); [|lia|].
  - apply andb_true_intro. split; [apply negb_true_iff, Z.eqb_neq; lia|apply Z.eqb_refl].
  - split; [lia|]. exists 1. split; [done|lia].
Qed.

(** [isPowerOf2] recognises exactly the powers of two. *)
Theorem isPowerOf2_iff n : inw 64 n ->
  isPowerOf2 n = true <-> exists k, 0 <= k /\ n = 2 ^ k.
Proof.
  intros [H1 H2]. unfold isPowerOf2. split.
  - intros H. bool_prop. pose proof (findLsbSet_spec n ltac:(lia)) as Hs.
    exists (findLsbSet n). split; [apply Hs|].
    rewrite <- (leastSigBit_lsb n) by (done || lia). done.
  - intros (k & Hk & ->). apply isPowerOf2_pow2. split; [done|].
    destruct (Z.lt_ge_cases k 64); [done|].
    assert (2 ^ 64 <= 2 ^ k) by (apply Z.pow_le_mono_r; lia). lia.
Qed.

(** Clearing the low [k] bits is rounding down to a multiple of [2^k]. *)
Lemma land_not_ones k v : 0 <= k <= 64 -> inw 64 v ->
  Z.land v (not64 (Z.ones k)) = v - v mod 2 ^ k.
Proof.
  intros Hk Hv. assert (0 < 2 ^ k) by (apply Z.pow_pos_nonneg; lia).
  assert (v - v mod 2 ^ k = v / 2 ^ k * 2 ^ k) as ->
    by (pose proof (Z.div_mod v (2 ^ k)); lia).
  apply Z.bits_inj'. intros i Hi.
  rewrite Z.land_spec, not64_spec, ones_spec by lia.
  destruct (Z.ltb_spec i k).
  - rewrite Z.mul_pow2_bits_low by lia. cbn. apply andb_false_r.
  - rewrite Z.mul_pow2_bits by lia. rewrite <- testbit_div by lia.
    replace (i - k + k) with i by lia. cbn.
    destruct (Z.ltb_spec i 64); [apply andb_true_r|].
    by rewrite (testbit_above 64 v i Hv) by lia.
Qed.

Lemma align_mask k : 0 <= k < 64 -> u64 (2 ^ k - 1) = Z.ones k.
Proof.
  intros. rewrite Z.ones_equiv, Z.sub_1_r. apply u64_small.
  assert (0 < 2 ^ k) by (apply Z.pow_pos_nonneg; lia).
  assert (2 ^ k < 2 ^ 64) by (apply Z.pow_lt_mono_r; lia). lia.
Qed.

Theorem roundDown_spec val k : 0 <= k < 64 -> inw 64 val ->
  roundDown val (2 ^ k) = 2 ^ k * (val / 2 ^ k).
Proof.
  intros Hk Hv. unfold roundDown. cbv zeta. rewrite align_mask, land_not_ones by (lia || done).
  assert (0 < 2 ^ k) by (apply Z.pow_pos_nonneg; lia).
  pose proof (Z.div_mod val (2 ^ k)). lia.
Qed.

(** [roundUp] to a power of two is the least multiple not below the value,
    when that multiple still fits in 64 bits. *)
Theorem roundUp_spec val k : 0 <= k < 64 -> 0 <= val -> val + 2 ^ k - 1 < 2 ^ 64 ->
  (2 ^ k | roundUp val (2 ^ k)) /\ val <= roundUp val (2 ^ k) < val + 2 ^ k.
Proof.
  intros Hk H0 Hv. unfold roundUp. cbv zeta. rewrite align_mask by lia.
  assert (0 < 2 ^ k) by (apply Z.pow_pos_nonneg; lia).
  assert (Z.ones k = 2 ^ k - 1) as Eo by (rewrite Z.ones_equiv; lia).
  rewrite (u64_small (val + Z.ones k)) by lia.
  rewrite land_not_ones by (unfold inw; lia). rewrite Eo.
  pose proof (Z.mod_pos_bound (val + (2 ^ k - 1)) (2 ^ k) ltac:(lia)).
  split; [|lia].
  exists ((val + (2 ^ k - 1)) / 2 ^ k).
  pose proof (Z.div_mod (val + (2 ^ k - 1)) (2 ^ k)). lia.
Qed.

Lemma power_loop_spec k n r : power_loop k n (u64 r) = u64 (r * n ^ Z.of_nat k).
Proof.
  revert r. induction k as [|k IH]; intros r; cbn [power_loop].
  - change (Z.of_nat 0) with 0. by rewrite Z.pow_0_r, Z.mul_1_r.
  - assert (u64 (u64 r * n) = u64 (r * n)) as -> by (apply wrap_mul_l; lia).
    rewrite IH, Nat2Z.inj_succ, Z.pow_succ_r by lia.
    f_equal. ring.
Qed.

(** [power] computes the power modulo 2^64, whatever the overflow. *)
Theorem power_spec n e : 0 <= n < 2 ^ 32 -> 0 <= e -> power n e = n ^ e mod 2 ^ 64.
Proof.
  intros Hn He. unfold power. case_if; bool_prop.
  - subst. reflexivity.
  - rewrite <- (u64_small n) at 2 by lia. rewrite power_loop_spec.
    unfold u64, wrap. f_equal. rewrite Z2Nat.id by lia.
    rewrite <- Z.pow_succ_r by lia. f_equal. lia.
Qed.

(** [ceilLog2 n] is the least exponent whose power of two reaches [n]. *)
Theorem ceilLog2_spec n : 0 < n < 2 ^ 64 ->
  exists c, ceilLog2 n = Ok c /\ n <= 2 ^ c /\ (c = 0 \/ 2 ^ (c - 1) < n).
Proof.
  intros Hn. unfold ceilLog2. case_if; bool_prop.
  - exists 0. subst. repeat split; [cbn; lia|by left].
  - rewrite u64_small, floorLog2_log2 by lia. cbn.
    exists (Z.log2 (n - 1) + 1). split; [done|].
    pose proof (Z.log2_spec (n - 1) ltac:(lia)). rewrite <- Z.add_1_r in *.
    split; [lia|]. right. replace (Z.log2 (n - 1) + 1 - 1) with (Z.log2 (n - 1)) by lia. lia.
Qed.

(** ** Trial division

    The loop visits 5, 11, 17, ... and tests each with its neighbour two up. *)
Definition trial_ok (n i : Z) : Prop :=
  forall j, i <= j -> j mod 6 = 5 -> j * j <= n -> n mod j <> 0 /\ n mod (j + 2) <> 0.

Lemma isPrime_loop_spec fuel n i :
  5 <= i -> i mod 6 = 5 -> n - i < 6 * Z.of_nat fuel -> 0 < Z.of_nat fuel ->
  exists b, isPrime_loop fuel n i = Some b /\ (b = true <-> trial_ok n i).
Proof.
  revert i. induction fuel as [|fuel IH]; intros i Hi Hm Hf Hp; [lia|].
  cbn [isPrime_loop]. destruct (Z.leb_spec (i * i) n) as [Hle|Hgt].
  - destruct (n mod i =? 0) eqn:E1; cbn [orb]; [|destruct (n mod (i + 2) =? 0) eqn:E2];
      bool_prop.
    + exists false. split; [done|]. split; [done|]. intros Ht.
      destruct (Ht i) as [? _]; lia.
    + exists false. split; [done|]. split; [done|]. intros Ht.
      destruct (Ht i) as [_ ?]; lia.
    + destruct (IH (i + 6)) as (b & Eb & Hb); [lia| |nia|nia|].
      { rewrite <- (Z.mod_add i 1 6) in Hm by lia. by rewrite <- Hm. }
      exists b. split; [done|]. rewrite Hb. split; intros Ht j Hj Hj6 Hjj.
      * destruct (decide (j = i)) as [->|]; [done|].
        apply Ht; [|done..]. Z.div_mod_to_equations. lia.
      * apply Ht; [lia|done..].
  - exists true. split; [done|]. split; [|done]. intros _ j Hj _ Hjj. nia.
Qed.

Lemma small_divisor n : 1 < n -> ~ Znumtheory.prime n ->
  exists d, 1 < d /\ d * d <= n /\ (d | n).
Proof.
  intros Hn Hp. destruct (Znumtheory.not_prime_divide n Hn Hp) as (a & Ha & [b Eb]).
  assert (1 < b) by nia.
  destruct (Z.le_ge_cases a b); [exists a|exists b].
  - repeat split; [lia|nia|]. by exists b.
  - repeat split; [lia|nia|]. exists a. lia.
Qed.

(** A number not divisible by 2 or 3 passes the trial divisions exactly when
    it is prime. *)
Theorem isPrime_coprime6 n : 5 <= n -> n mod 2 <> 0 -> n mod 3 <> 0 ->
  exists b, isPrime n = Some b /\ (b = true <-> Znumtheory.prime n).
Proof.
  intros Hn H2 H3. unfold isPrime.
  rewrite (proj2 (Z.eqb_neq n 2)), (proj2 (Z.eqb_neq n 3)) by lia. cbn [orb].
  destruct (isPrime_loop_spec (S (Z.to_nat n)) n 5) as (b & -> & Hb); [lia|done|lia|lia|].
  exists b. split; [done|]. rewrite Hb. split.
  - intros Ht. destruct (Znumtheory.prime_dec n) as [|Hnp]; [done|exfalso].
    destruct (small_divisor n) as (d & Hd & Hdd & [q Hq]); [lia|done|].
    assert (n mod d = 0) by (subst n; apply Z.mod_mul; lia).
    assert (d mod 2 <> 0) as D2.
    { intros E. apply H2. rewrite Hq, Z.mul_mod, E, Z.mul_0_r by lia. done. }
    assert (d mod 3 <> 0) as D3.
    { intros E. apply H3. rewrite Hq, Z.mul_mod, E, Z.mul_0_r by lia. done. }
    assert (d mod 6 = 5 \/ d mod 6 = 1) as [D|D] by (Z.div_mod_to_equations; lia).
    + destruct (Ht d) as [? _]; [Z.div_mod_to_equations; lia|done|lia|done].
    + destruct (Ht (d - 2)) as [_ HH]; [Z.div_mod_to_equations; lia| |nia|].
      * Z.div_mod_to_equations. lia.
      * by replace (d - 2 + 2) with d in HH by lia.
  - intros Hp j Hj Hj6 Hjj. split; intros E.
    + apply Z.mod_divide in E; [|lia].
      destruct (Znumtheory.prime_divisors n Hp j E) as [?|[?|[?|?]]]; nia.
    + apply Z.mod_divide in E; [|lia].
      destruct (Znumtheory.prime_divisors n Hp (j + 2) E) as [?|[?|[?|?]]]; nia.
Qed.

Example isPrime_coprime6_witness :
  5 <= 25 /\ exists b, isPrime 25 = Some b /\ (b = true <-> Znumtheory.prime 25).
Proof. split; [lia|]. apply (isPrime_coprime6 25); vm_compute; discriminate. Defined.

(** The loop never tests the divisors 2 and 3, so small composites pass. *)
Theorem isPrime_composites :
  isPrime 4 = Some true /\ isPrime 6 = Some true /\ isPrime 9 = Some true
  /\ isPrime 15 = Some true.
Proof. repeat split; vm_compute; reflexivity. Qed.

(** ** Witnesses *)
Lemma isPowerOf2_iff_witness : isPowerOf2 4096 = true <-> exists k, 0 <= k /\ 4096 = 2 ^ k.
Proof. apply (isPowerOf2_iff 4096). unfold inw. lia. Defined.

Lemma bits_insertBits_witness : bits (insertBits 0xffff 11 4 0x25) 11 4 = 0x25.
Proof.
  rewrite (bits_insertBits 0xffff 11 4 0x25); [reflexivity|lia|lia|unfold inw; lia].
Defined.

Lemma ceilLog2_spec_witness : exists c, ceilLog2 100 = Ok c /\ 100 <= 2 ^ c /\ (c = 0 \/ 2 ^ (c - 1) < 100).
Proof. apply (ceilLog2_spec 100). lia. Defined.
