(* ===== verification/Clock.v ===== *)
(** * Clocked objects

    Models [sim/clocked_object.hh]: an object's view of its clock, kept as the
    tick and number of a recent clock edge, brought up to date on demand.  The
    clock domain of the object is its period. *)

From S2P Require Import Prelude.
From S2P Require Import BitMath.

Record ClockedObject := mkClock { tick : Z; cycle : Z; clk_period : Z }.

(** [update], at [curTick() = now] *)
Definition update (now : Z) (c : ClockedObject) : res ClockedObject :=
  if now <=? tick c then Ok c
  else
    let c := c <| tick := u64 (tick c + clk_period c) |> <| cycle := u64 (cycle c + 1) |> in
    if now <=? tick c then Ok c
    else
      e ← divCeil (u64 (now - tick c)) (clk_period c);
      Ok (c <| cycle := u64 (cycle c + e) |> <| tick := u64 (tick c + u64 (e * clk_period c)) |>).

Definition resetClock (now : Z) (c : ClockedObject) : res ClockedObject :=
  e ← divCeil now (clk_period c);
  Ok (c <| cycle := e |> <| tick := u64 (e * clk_period c) |>).

Definition clockEdge (now cycles : Z) (c : ClockedObject) : res (ClockedObject * Z) :=
  c ← update now c;
  Ok (c, u64 (tick c + u64 (clk_period c * cycles))).

Definition curCycle (now : Z) (c : ClockedObject) : res (ClockedObject * Z) :=
  c ← update now c; Ok (c, cycle c).

Definition nextCycle (now : Z) (c : ClockedObject) : res (ClockedObject * Z) := clockEdge now 1 c.

Definition ticksToCycles (t : Z) (c : ClockedObject) : res Z := divCeil t (clk_period c).

(** ** The reference: the first clock edge that is not in the past *)
Definition edge (p now : Z) : Z := (now + p - 1) / p * p.

Lemma edge_spec p now : 0 < p -> now <= edge p now < now + p /\ (p | edge p now).
Proof.
  intros Hp. unfold edge. pose proof (Z.div_mod (now + p - 1) p).
  pose proof (Z.mod_pos_bound (now + p - 1) p Hp). split; [lia|]. by exists ((now + p - 1) / p).
Qed.

Lemma edge_unique p now e : 0 < p -> now <= e < now + p -> (p | e) -> e = edge p now.
Proof.
  intros Hp He [q ->]. unfold edge. f_equal. apply Z.div_unique with (now + p - 1 - q * p); [left; lia|lia].
Qed.

(** The clock at time [now]: it shows an edge, with its number, that is at
    most the next one. *)
Record clock_at (now : Z) (c : ClockedObject) : Prop := {
  ck_period : 0 < clk_period c;
  ck_cycle : 0 <= cycle c;
  ck_tick : tick c = cycle c * clk_period c;
  ck_near : tick c < now + clk_period c
}.

Lemma clock_at_later now now' c : now <= now' -> clock_at now c -> clock_at now' c.
Proof. intros H [? ? ? ?]. split; lia. Qed.

Lemma divCeil_small a b : 0 < a -> 0 < b -> a + b < 2 ^ 64 ->
  exists e, divCeil a b = Ok e /\ 0 < e /\ a <= e * b < a + b.
Proof.
  intros Ha Hb Hs. unfold divCeil. rewrite (proj2 (Z.eqb_neq b 0)), !u64_small by (rewrite ?u64_small; lia).
  exists ((a + b - 1) / b). split; [done|].
  pose proof (Z.div_mod (a + b - 1) b). pose proof (Z.mod_pos_bound (a + b - 1) b Hb). nia.
Qed.

Lemma update_edge now c : clock_at now c -> 0 <= now -> now + 2 * clk_period c < 2 ^ 64 ->
  exists c', update now c = Ok c' /\ clock_at now c' /\ tick c' = edge (clk_period c) now /\
    clk_period c' = clk_period c.
Proof.
  intros [H1 H2 H3 H4] Hn Hs. unfold update. set (p := clk_period c) in *.
  destruct (Z.leb_spec now (tick c)) as [Hle|Hlt].
  { exists c. split_and!; try done. apply edge_unique; [done|lia|]. by exists (cycle c). }
  change (clk_period c <| tick := _ |> <| cycle := _ |>) with p.
  cbn [tick cycle field_upd]. rewrite (u64_small (tick c + p)), (u64_small (cycle c + 1)) by nia.
  destruct (Z.leb_spec now (tick c + p)) as [Hle|Hlt'].
  - eexists. split; [reflexivity|]. cbn [tick cycle clk_period field_upd].
    split_and!; [split; cbn [tick cycle clk_period field_upd]; fold p; nia| |done].
    apply edge_unique; [done|lia|]. exists (cycle c + 1). nia.
  - rewrite (u64_small (now - _)) by nia.
    destruct (divCeil_small (now - (tick c + p)) p) as (e & E & He1 & He2); [lia..|].
    fold p. rewrite E. cbn [mbind res_bind]. eexists. split; [reflexivity|].
    cbn [tick cycle clk_period field_upd]. fold p.
    rewrite (u64_small (e * p)), (u64_small (tick c + p + e * p)), (u64_small (cycle c + 1 + e)) by nia.
    split_and!; [split; cbn [tick cycle clk_period field_upd]; fold p; nia| |done].
    apply edge_unique; [done|lia|]. exists (cycle c + 1 + e). nia.
Qed.

(** The cached clock computes the same edge as the division it avoids: the
    first edge not in the past, plus the given number of cycles; and it stays
    up to date. *)
Theorem clockEdge_spec (now cycles : Z) (c : ClockedObject) :
  clock_at now c -> 0 <= now -> 0 <= cycles ->
  now + clk_period c * (cycles + 2) < 2 ^ 64 ->
  exists c', clockEdge now cycles c = Ok (c', edge (clk_period c) now + clk_period c * cycles) /\
    clock_at now c' /\ cycle c' * clk_period c = edge (clk_period c) now.
Proof.
  intros Hc Hn Hcy Hs. pose proof (ck_period _ _ Hc) as Hp.
  destruct (update_edge now c Hc Hn) as (c' & E & Hc' & Et & Ep); [nia|].
  pose proof (edge_spec (clk_period c) now Hp) as [He _].
  unfold clockEdge. rewrite E. cbn [mbind res_bind]. rewrite Et, Ep.
  rewrite (u64_small (clk_period c * cycles)) by nia. rewrite u64_small by nia.
  exists c'. split_and!; [done|done|]. rewrite <- Et, <- Ep. symmetry. apply Hc'.
Qed.

Lemma clockEdge_spec_witness :
  exists c', clockEdge 2500 3 (mkClock 1000 1 1000) = Ok (c', 6000) /\ cycle c' * 1000 = 3000.
Proof.
  destruct (clockEdge_spec 2500 3 (mkClock 1000 1 1000)) as (c' & H1 & _ & H2);
    [by split; cbn; lia|lia|lia|cbn; lia|].
  exists c'. split; [exact H1|exact H2].
Defined.
