(* ===== verification/AddrRange.v ===== *)
(** * Address ranges

    Models [base/addr_range.hh]: an inclusive range with optional bit
    interleaving, its predicates, the constructor that merges a complete set
    of interleaved ranges, and the convenience constructors.  The theorems say
    what set of addresses each operation stands for. *)

From S2P Require Import Prelude.
From S2P Require Import BitMath.

Module AR.

Record AddrRange := mkAddrRange {
  _start : Z;
  _end : Z;
  intlvHighBit : Z;
  intlvBits : Z;
  intlvMatch : Z
}.

#[global] Instance AddrRange_eq_dec : EqDecision AddrRange.
Proof. solve_decision. Defined.

(** [AddrRange()] *)
Definition AddrRange_default : AddrRange := mkAddrRange 1 0 0 0 0.

(** [AddrRange(_start, _end)] *)
Definition AddrRange2 (s e : Z) : AddrRange := mkAddrRange s e 0 0 0.

Definition interleaved (r : AddrRange) : bool := negb (intlvBits r =? 0).

Definition granularity (r : AddrRange) : Z :=
  u64 (Z.shiftl 1 (intlvHighBit r - intlvBits r + 1)).

Definition stripes (r : AddrRange) : Z := u32 (u64 (Z.shiftl 1 (intlvBits r))).

Definition size (r : AddrRange) : Z :=
  Z.shiftr (u64 (u64 (_end r - _start r) + 1)) (intlvBits r).

Definition valid (r : AddrRange) : bool := _start r <=? _end r.

Definition start (r : AddrRange) : Z := _start r.

Definition mergesWith (this r : AddrRange) : bool :=
  (_start r =? _start this) && (_end r =? _end this) &&
  (intlvHighBit r =? intlvHighBit this) && (intlvBits r =? intlvBits this).

Definition contains (r : AddrRange) (a : Z) : bool :=
  (_start r <=? a) && (a <=? _end r) &&
  (negb (interleaved r) ||
   (bits a (intlvHighBit r) (intlvHighBit r - intlvBits r + 1) =? intlvMatch r)).

Definition intersects (this r : AddrRange) : res bool :=
  if negb (interleaved this) then
    Ok ((_start this <=? _end r) && (_start r <=? _end this))
  else if size r =? 1 then Ok (contains this (start r))
  else if negb (interleaved r) then
    Ok ((_start this <=? _end r) && (_start r <=? _end this))
  else if mergesWith this r then Ok (intlvMatch this =? intlvMatch r)
  else panic.

Definition isSubset (this r : AddrRange) : res bool :=
  if interleaved this then panic
  else Ok ((_start r <=? _start this) && (_end this <=? _end r)).

(** [operator<] *)
Definition range_lt (this r : AddrRange) : bool :=
  if negb (_start this =? _start r) then _start this <? _start r
  else intlvMatch this <? intlvMatch r.

(** The loop of the merging constructor: [this] has the fields of the first
    range, and the ranges must come with matches 0, 1, 2, ... *)
Fixpoint merge_check (this : AddrRange) (ranges : list AddrRange) (mtch : Z) : res unit :=
  match ranges with
  | [] => Ok tt
  | r :: rs =>
      if negb (mergesWith this r) then Err Fatal
      else if negb (intlvMatch r =? mtch) then Err Fatal
      else merge_check this rs (u8 (mtch + 1))
  end.

(** [AddrRange(const std::vector<AddrRange>& ranges)] *)
Definition AddrRange_merge (ranges : list AddrRange) : res AddrRange :=
  match ranges with
  | [] => Ok AddrRange_default
  | f :: _ =>
      let this := mkAddrRange (_start f) (_end f) (intlvHighBit f) (intlvBits f) 0 in
      if negb (Z.of_nat (length ranges) =? u64 (Z.shiftl 1 (intlvBits f))) then Err Fatal
      else
        _ ← merge_check this ranges 0;
        Ok (this <| intlvHighBit := 0 |> <| intlvBits := 0 |>)
  end.

Definition RangeEx (s e : Z) : AddrRange := AddrRange2 s (u64 (e - 1)).
Definition RangeIn (s e : Z) : AddrRange := AddrRange2 s e.
Definition RangeSize (s sz : Z) : AddrRange := AddrRange2 s (u64 (u64 (s + sz) - 1)).

(** ** Well-formedness: the fields fit their C++ types and the interleaving
    bits lie inside the address. *)
Definition wf (r : AddrRange) : Prop :=
  inw 64 (_start r) /\ inw 64 (_end r) /\
  0 <= intlvBits r /\ intlvHighBit r < 64 /\
  (intlvBits r <> 0 -> 0 <= intlvHighBit r - intlvBits r + 1) /\
  inw 8 (intlvMatch r).

(** The addresses a range stands for. *)
Definition in_range (r : AddrRange) (a : Z) : Prop := contains r a = true.

Lemma contains_plain s e a : contains (AddrRange2 s e) a = (s <=? a) && (a <=? e).
Proof. unfold contains, AddrRange2, interleaved. cbn. by rewrite andb_true_r. Qed.

Lemma contains_bounds r a : contains r a = true -> _start r <= a <= _end r.
Proof. unfold contains. intros H. bool_prop. lia. Qed.

Lemma interleaved_false r : interleaved r = false <-> intlvBits r = 0.
Proof. unfold interleaved. rewrite negb_false_iff. apply Z.eqb_eq. Qed.

Lemma contains_not_interleaved r a :
  interleaved r = false -> contains r a = (_start r <=? a) && (a <=? _end r).
Proof. unfold contains. intros ->. cbn. by rewrite andb_true_r. Qed.

#[export] Hint Rewrite contains_plain : pim.

(** The size of a plain range is the number of its addresses. *)
Lemma size_plain s e : inw 64 s -> inw 64 e -> s <= e -> e - s < u64_max ->
  size (AddrRange2 s e) = e - s + 1.
Proof.
  unfold inw, u64_max. intros. unfold size, AddrRange2. cbn [_end _start intlvBits].
  rewrite Z.shiftr_0_r. rewrite (u64_small (e - s)) by lia. apply u64_small. lia.
Qed.

(** ** Theorems *)

(** Two plain ranges intersect exactly when they share an address. *)
Theorem intersects_plain (a b : AddrRange) :
  interleaved a = false -> interleaved b = false ->
  valid a = true -> valid b = true ->
  exists ans, intersects a b = Ok ans
    /\ (ans = true <-> exists x, in_range a x /\ in_range b x).
Proof.
  intros Ha Hb Va Vb. unfold intersects. rewrite Ha. cbn [negb].
  eexists; split; [reflexivity|]. unfold in_range, valid in *.
  rewrite andb_true_iff, !Z.leb_le. bool_prop. split.
  - intros [H1 H2]. exists (Z.max (_start a) (_start b)).
    rewrite !contains_not_interleaved by done.
    rewrite !andb_true_iff, !Z.leb_le. lia.
  - intros (x & Hx & Hy). apply contains_bounds in Hx, Hy. lia.
Qed.

(** A plain range is a subset exactly when each of its addresses is in the
    other range. *)
Theorem isSubset_plain (a b : AddrRange) :
  interleaved a = false -> interleaved b = false -> valid a = true ->
  exists ans, isSubset a b = Ok ans
    /\ (ans = true <-> forall x, in_range a x -> in_range b x).
Proof.
  intros Ha Hb Va. unfold isSubset. rewrite Ha. eexists; split; [reflexivity|].
  unfold in_range, valid in *. setoid_rewrite contains_not_interleaved; [|done..].
  setoid_rewrite andb_true_iff. rewrite !Z.leb_le. bool_prop. split.
  - intros [H1 H2] x [H3 H4]. bool_prop. rewrite !Z.leb_le. lia.
  - intros H. destruct (H (_start a)) as [H1 _]; [rewrite !Z.leb_le; lia|].
    destruct (H (_end a)) as [_ H2]; [rewrite !Z.leb_le; lia|]. bool_prop. lia.
Qed.

(** *** Interleaving *)

Lemma mergesWith_fields a b : mergesWith a b = true ->
  b = a <| intlvMatch := intlvMatch b |>.
Proof.
  unfold mergesWith. intros H. bool_prop. destruct a, b; cbn in *. by subst.
Qed.

Lemma contains_interleaved r a : interleaved r = true ->
  contains r a = (_start r <=? a) && (a <=? _end r) &&
    (bits a (intlvHighBit r) (intlvHighBit r - intlvBits r + 1) =? intlvMatch r).
Proof. unfold contains. intros ->. done. Qed.

(** Two stripes of the same interleaved range either coincide or are disjoint,
    and [intersects] tells which. *)
Theorem intersects_stripes (a b : AddrRange) :
  interleaved a = true -> mergesWith a b = true -> size b <> 1 ->
  exists ans, intersects a b = Ok ans
    /\ (ans = true -> forall x, in_range a x <-> in_range b x)
    /\ (ans = false -> forall x, in_range a x -> ~ in_range b x).
Proof.
  intros Ha Hm Hs. unfold intersects. rewrite Ha, (proj2 (Z.eqb_neq _ _) Hs), Hm.
  apply mergesWith_fields in Hm.
  assert (interleaved b = true) as Hb by (by rewrite Hm).
  rewrite Hb. cbn [negb]. eexists; split; [reflexivity|].
  unfold in_range. setoid_rewrite contains_interleaved; [|done..].
  rewrite Hm. cbn [_start _end intlvHighBit intlvBits intlvMatch field_upd].
  split; intros E x; bool_prop.
  - by rewrite E.
  - rewrite !andb_true_iff, !Z.eqb_eq. intros [_ H1] [_ H2]. congruence.
Qed.

Lemma merge_check_lookup this rs m :
  inw 8 m -> merge_check this rs m = Ok tt ->
  forall i r, rs !! i = Some r ->
    mergesWith this r = true /\ intlvMatch r = u8 (m + Z.of_nat i).
Proof.
  revert m. induction rs as [|r0 rs IH]; intros m Hm H i r Hi; [done|].
  cbn in H. do 2 (case_if_in H; [done|]). bool_prop.
  destruct i as [|i]; cbn in Hi.
  - injection Hi as <-. split; [done|]. rewrite Z.add_0_r. unfold u8. by rewrite (wrap_id 8 m Hm).
  - apply IH with (i := i) (r := r) in H; [|apply wrap_range; lia|done].
    destruct H as [-> ->]. split; [done|]. unfold u8. rewrite wrap_add_l. f_equal. lia.
Qed.

(** The stripe an address of the merged range falls in. *)
Definition stripe_of (f : AddrRange) (x : Z) : Z :=
  if intlvBits f =? 0 then 0
  else bits x (intlvHighBit f) (intlvHighBit f - intlvBits f + 1).

Lemma stripe_of_range f x : wf f -> 0 <= stripe_of f x < 2 ^ intlvBits f.
Proof.
  intros (W1 & W2 & W3 & W4 & W5 & W6). unfold stripe_of. case_if; bool_prop.
  - rewrite Hif. lia.
  - rewrite bits_arith by lia.
    replace (intlvHighBit f - (intlvHighBit f - intlvBits f + 1) + 1) with (intlvBits f) by lia.
    apply Z.mod_pos_bound, Z.pow_pos_nonneg; lia.
Qed.

Lemma stripe_contains f r i x :
  wf f -> mergesWith f r = true -> intlvMatch r = i -> 0 <= i < 2 ^ intlvBits f ->
  in_range r x <-> (_start f <= x <= _end f) /\ i = stripe_of f x.
Proof.
  intros W Hm Hi Hr. apply mergesWith_fields in Hm.
  unfold in_range, contains, interleaved, stripe_of. rewrite Hm.
  cbn [_start _end intlvHighBit intlvBits intlvMatch field_upd].
  rewrite !andb_true_iff, orb_true_iff, !Z.leb_le, Hi, negb_involutive.
  destruct (Z.eqb_spec (intlvBits f) 0) as [E0|E0].
  - rewrite E0 in *. change (2 ^ 0) with 1 in *. split; [lia|]. intros [? ?].
    split; [lia|by left].
  - rewrite Z.eqb_eq. split; intros [? H]; (split; [lia|]); [|right; symmetry; exact H].
    destruct H; [done|by symmetry].
Qed.

(** Of a complete set of stripes, an address of the merged range lies in the one
    its interleaving bits select, and in no other. *)
Lemma merge_stripes (rs : list AddrRange) (m : AddrRange) (x : Z) :
  rs <> [] -> Forall wf rs -> Forall (fun r => intlvBits r <= 8) rs ->
  AddrRange_merge rs = Ok m ->
  interleaved m = false /\
  exists s : nat, (s < length rs)%nat /\
    forall i r, rs !! i = Some r -> (in_range r x <-> in_range m x /\ i = s).
Proof.
  intros Hne Hwf Hb Hm. destruct rs as [|f rs]; [done|]. clear Hne.
  unfold AddrRange_merge in Hm. case_if_in Hm; [done|]. res_inv. bool_prop. destruct a.
  pose proof (merge_check_lookup _ _ _ (conj (Z.le_refl 0) eq_refl) Hm0) as Hall.
  apply Forall_inv in Hwf. apply Forall_inv in Hb.
  assert (2 ^ intlvBits f <= 2 ^ 8) by (apply Z.pow_le_mono_r; lia).
  pose proof (stripe_of_range f x Hwf) as Hs.
  rewrite Z.shiftl_1_l, u64_small in Hif by lia.
  split; [done|]. exists (Z.to_nat (stripe_of f x)). split; [lia|]. intros i r Hi.
  pose proof (lookup_lt_Some _ _ _ Hi) as Hlt.
  destruct (Hall i r Hi) as [Hmw Hmt]. unfold u8 in Hmt.
  rewrite Z.add_0_l, wrap_id in Hmt by (unfold inw; lia).
  rewrite (stripe_contains f r (Z.of_nat i) x Hwf Hmw Hmt) by lia.
  unfold in_range. rewrite contains_not_interleaved by done. cbn.
  rewrite andb_true_iff, !Z.leb_le. split; intros [H1 H2]; (split; [done|lia]).
Qed.

(** Merging a complete set of stripes yields the plain range they tile: every
    address of it lies in exactly one of the stripes. *)
Theorem merge_tiles (rs : list AddrRange) (m : AddrRange) (x : Z) :
  rs <> [] -> Forall wf rs -> Forall (fun r => intlvBits r <= 8) rs ->
  AddrRange_merge rs = Ok m ->
  (in_range m x <-> exists i, (exists r, rs !! i = Some r /\ in_range r x)
      /\ forall j r', rs !! j = Some r' -> in_range r' x -> j = i).
Proof.
  intros Hne Hwf Hb Hm. destruct (merge_stripes rs m x Hne Hwf Hb Hm) as (_ & s & Hs & Hin). split.
  - intros Hx. exists s. destruct (lookup_lt_is_Some_2 rs s Hs) as [r Hr]. split.
    + exists r. split; [done|]. apply (proj2 (Hin _ _ Hr)). by split.
    + intros j r' Hj Hr'. by apply (proj1 (Hin _ _ Hj)) in Hr' as [_ ?].
  - intros (i & (r & Hi & Hr) & _). by apply (proj1 (Hin _ _ Hi)) in Hr as [? _].
Qed.

(** An address is in the merged range exactly when it is in a stripe. *)
Lemma merge_covers (rs : list AddrRange) (m : AddrRange) (x : Z) :
  rs <> [] -> Forall wf rs -> Forall (fun r => intlvBits r <= 8) rs ->
  AddrRange_merge rs = Ok m -> interleaved m = false /\ (in_range m x <-> Exists (fun r => in_range r x) rs).
Proof.
  intros Hne Hwf Hb Hm. destruct (merge_stripes rs m x Hne Hwf Hb Hm) as (Hi & s & Hs & Hin).
  split; [done|]. rewrite Exists_exists. split.
  - intros Hx. destruct (lookup_lt_is_Some_2 rs s Hs) as [r Hr]. exists r.
    split; [by eapply list_elem_of_lookup_2|]. apply (proj2 (Hin _ _ Hr)). by split.
  - intros (r & [i Hr]%list_elem_of_lookup & Hx). by apply (proj1 (Hin _ _ Hr)) in Hx as [? _].
Qed.

(** Two stripes of 16 bytes in [0, 63]. *)
Definition ex_stripes : list AddrRange := [mkAddrRange 0 63 4 1 0; mkAddrRange 0 63 4 1 1].

Lemma merge_tiles_witness :
  in_range (AddrRange2 0 63) 20 <->
  exists i, (exists r, ex_stripes !! i = Some r /\ in_range r 20)
      /\ forall j r', ex_stripes !! j = Some r' -> in_range r' 20 -> j = i.
Proof.
  apply (merge_tiles ex_stripes (AddrRange2 0 63) 20).
  - done.
  - repeat constructor; cbn; lia.
  - repeat constructor; cbn; lia.
  - reflexivity.
Defined.

Lemma intersects_stripes_witness :
  exists ans, intersects (mkAddrRange 0 63 4 1 0) (mkAddrRange 0 63 4 1 1) = Ok ans
    /\ (ans = false -> forall x, in_range (mkAddrRange 0 63 4 1 0) x ->
          ~ in_range (mkAddrRange 0 63 4 1 1) x).
Proof.
  destruct (intersects_stripes (mkAddrRange 0 63 4 1 0) (mkAddrRange 0 63 4 1 1))
    as (ans & H1 & _ & H2); [done..|]. by exists ans.
Defined.

End AR.
