(* ===== verification/EventQ.v ===== *)
(** The event queue of the simulator, [sim/eventq.hh], [sim/eventq_impl.hh] and
    [sim/eventq.cc], and its users in [sim/simulate.cc].

    The queue is a linked list of bins: [nextBin] of the top event of a bin
    leads to the next bin, [nextInBin] leads through the events of a bin, which
    is a stack.  Events live in a store of cells, so that the [nextBin]
    pointers of the events below the top of a bin, which the code lets go
    stale, are modelled as they are.  [bins] relates the store to a list of
    bins and [order] flattens it to the order in which events are serviced;
    the theorems say that the operations on pointers are those of one sorted
    list in which a new event goes in front of its equals. *)
From S2P Require Import Prelude.
From S2P Require Import PtrList.
From S2P Require Import Flags.

Module EQ.

(** ** EventBase: flags and priorities *)
Definition PublicRead : Z := 0x003f.
Definition PublicWrite : Z := 0x001d.
Definition Squashed : Z := 0x0001.
Definition Scheduled : Z := 0x0002.
Definition AutoDelete : Z := 0x0004.
Definition AutoSerialize : Z := 0x0008.
Definition IsExitEvent : Z := 0x0010.
Definition IsMainQueue : Z := 0x0020.
Definition Initialized : Z := 0x7a40.
Definition InitMask : Z := 0xffc0.

Definition Minimum_Pri : Z := -128.
Definition Debug_Enable_Pri : Z := -101.
Definition Debug_Break_Pri : Z := -100.
Definition CPU_Switch_Pri : Z := -31.
Definition Delayed_Writeback_Pri : Z := -1.
Definition Default_Pri : Z := 0.
Definition DVFS_Update_Pri : Z := 31.
Definition Serialize_Pri : Z := 32.
Definition CPU_Tick_Pri : Z := 50.
Definition Stat_Event_Pri : Z := 90.
Definition Progress_Event_Pri : Z := 95.
Definition Sim_Exit_Pri : Z := 100.
Definition Maximum_Pri : Z := 127.

(** ** Event

    [queue] is the identity of the queue the event was last scheduled on. *)
Record Event := mkEvent {
  nextBin : option loc;
  nextInBin : option loc;
  _when : Z;
  _priority : Z;
  flags : Z;
  queue : option Z
}.

(** [Event(p, f)] *)
Definition new_Event (p f : Z) : res Event :=
  _ ← assert_ (fl_noneSet f (Z.lnot PublicWrite));
  Ok (mkEvent None None 0 p (Z.lor Initialized f) None).

Definition setWhen (when q : Z) (e : Event) : Event :=
  e <| _when := when |> <| queue := Some q |>.
Definition initialized (e : Event) : bool := Z.land (flags e) InitMask =? Initialized.
Definition scheduled (e : Event) : bool := fl_isSet (flags e) Scheduled.
Definition squash (e : Event) : Event := e <| flags := fl_set (flags e) Squashed |>.
Definition squashed (e : Event) : bool := fl_isSet (flags e) Squashed.
Definition isExitEvent (e : Event) : bool := fl_isSet (flags e) IsExitEvent.

Definition getFlags (e : Event) : Z := Z.land (flags e) PublicRead.
Definition isFlagSet (f : Z) (e : Event) : res bool :=
  _ ← assert_ (fl_noneSet f (Z.lnot PublicRead)); Ok (fl_isSet (flags e) f).
Definition setFlags (f : Z) (e : Event) : res Event :=
  _ ← assert_ (fl_noneSet f (Z.lnot PublicWrite));
  Ok (e <| flags := fl_set (flags e) f |>).
Definition clearFlags (f : Z) (e : Event) : res Event :=
  _ ← assert_ (fl_noneSet f (Z.lnot PublicWrite));
  Ok (e <| flags := fl_clear (flags e) f |>).

(** The comparisons of two events: by tick, then by priority. *)
Definition ev_lt (l r : Event) : bool :=
  (_when l <? _when r) || ((_when l =? _when r) && (_priority l <? _priority r)).
Definition ev_le (l r : Event) : bool :=
  (_when l <? _when r) || ((_when l =? _when r) && (_priority l <=? _priority r)).
Definition ev_eq (l r : Event) : bool :=
  (_when l =? _when r) && (_priority l =? _priority r).

(** ** The two-level list *)
Abbreviation heap := (gmap loc Event).

(** [Event::insertBefore(event, curr)]: the store after it and its result. *)
Definition insertBefore (h : heap) (event : loc) (curr : option loc) : res (heap * loc) :=
  e ← deref (h !! event);
  match curr with
  | None => Ok (<[event := e <| nextBin := None |> <| nextInBin := None |>]> h, event)
  | Some c =>
      ce ← deref (h !! c);
      if ev_lt e ce
      then Ok (<[event := e <| nextBin := Some c |> <| nextInBin := None |>]> h, event)
      else Ok (<[event := e <| nextBin := nextBin ce |> <| nextInBin := Some c |>]> h, event)
  end.

(** [while (curr && *curr < *event) { prev = curr; curr = curr->nextBin; }] *)
Fixpoint find_bin (fuel : nat) (h : heap) (e : Event) (prev : loc) (curr : option loc)
    : res (loc * option loc) :=
  match fuel with
  | O => Err Diverged
  | S fuel' =>
      match curr with
      | None => Ok (prev, None)
      | Some c =>
          ce ← deref (h !! c);
          if ev_lt ce e then find_bin fuel' h e c (nextBin ce) else Ok (prev, Some c)
      end
  end.

(** A list in the store is no longer than the store. *)
Definition list_fuel (h : heap) : nat := S (size h).

(** [EventQueue::insert]: the store and the head after it. *)
Definition eq_insert (h : heap) (head : option loc) (event : loc) : res (heap * option loc) :=
  e ← deref (h !! event);
  let front := '(h, t) ← insertBefore h event head; Ok (h, Some t) in
  match head with
  | None => front
  | Some hd =>
      he ← deref (h !! hd);
      if ev_le e he then front
      else
        '(prev, curr) ← find_bin (list_fuel h) h e hd (nextBin he);
        '(h, t) ← insertBefore h event curr;
        pe ← deref (h !! prev);
        Ok (<[prev := pe <| nextBin := Some t |>]> h, head)
  end.

(** [while (event != next) { if (!next) panic; curr = next; next = next->nextInBin; }] *)
Fixpoint find_in_bin (fuel : nat) (h : heap) (event curr : loc) (next : option loc)
    : res loc :=
  match fuel with
  | O => Err Diverged
  | S fuel' =>
      match next with
      | None => panic
      | Some n =>
          if bool_decide (event = n) then Ok curr
          else ne ← deref (h !! n); find_in_bin fuel' h event n (nextInBin ne)
      end
  end.

(** [Event::removeItem(event, top)]: the store and the new top. *)
Definition removeItem (h : heap) (event top : loc) : res (heap * option loc) :=
  te ← deref (h !! top);
  if bool_decide (event = top) then
    match nextInBin te with
    | None => Ok (h, nextBin te)
    | Some n =>
        ne ← deref (h !! n);
        Ok (<[n := ne <| nextBin := nextBin te |>]> h, Some n)
    end
  else
    curr ← find_in_bin (list_fuel h) h event top (nextInBin te);
    ce ← deref (h !! curr);
    xe ← deref (h !! event);
    Ok (<[curr := ce <| nextInBin := nextInBin xe |>]> h, Some top).

(** [EventQueue::remove] on the queue [this]. *)
Definition eq_remove (this : Z) (h : heap) (head : option loc) (event : loc)
    : res (heap * option loc) :=
  match head with
  | None => panic
  | Some hd =>
      e ← deref (h !! event);
      _ ← assert_ (bool_decide (queue e = Some this));
      he ← deref (h !! hd);
      if ev_eq he e then removeItem h event hd
      else
        '(prev, curr) ← find_bin (list_fuel h) h e hd (nextBin he);
        match curr with
        | None => panic
        | Some c =>
            ce ← deref (h !! c);
            if negb (ev_eq ce e) then panic
            else
              '(h, t) ← removeItem h event c;
              pe ← deref (h !! prev);
              Ok (<[prev := pe <| nextBin := t |>]> h, head)
        end
  end.

(** ** EventQueue

    One queue, the store of all events, and the two globals its operations
    read: the mode and the identity of the queue of the running thread. *)
Record EventQueue := mkQueue {
  evs : heap;
  head : option loc;
  _curTick : Z;
  async_queue : list loc;
  this : Z;
  inParallelMode : bool;
  curEventQueue : Z
}.

(** [EventQueue(n)] over the store of the events made so far. *)
Definition new_EventQueue (h : heap) (id : Z) (mode : bool) (cur : Z) : EventQueue :=
  mkQueue h None 0 [] id mode cur.

Definition empty_ (q : EventQueue) : bool := bool_decide (head q = None).
Definition nextTick (q : EventQueue) : res Z :=
  hd ← deref (head q); e ← deref (evs q !! hd); Ok (_when e).
Definition setCurTick (t : Z) (q : EventQueue) : EventQueue := q <| _curTick := t |>.

(** A write to the flags of an event. *)
Definition on_flags (f : Z -> Z) (event : loc) (h : heap) : res heap :=
  e ← deref (h !! event); Ok (<[event := e <| flags := f (flags e) |>]> h).

(** [delete event], with the assertion of the destructor. *)
Definition delete_event (event : loc) (h : heap) : res heap :=
  e ← deref (h !! event); _ ← assert_ (negb (scheduled e)); Ok (delete event h).

Definition asyncInsert (event : loc) (q : EventQueue) : EventQueue :=
  q <| async_queue := async_queue q ++ [event] |>.

(** [insert] and [remove] as methods of the queue. *)
Definition q_insert (event : loc) (q : EventQueue) : res EventQueue :=
  '(h, hd) ← eq_insert (evs q) (head q) event; Ok (q <| evs := h |> <| head := hd |>).
Definition q_remove (event : loc) (q : EventQueue) : res EventQueue :=
  '(h, hd) ← eq_remove (this q) (evs q) (head q) event; Ok (q <| evs := h |> <| head := hd |>).

Definition eq_schedule (event : loc) (when : Z) (global : bool) (q : EventQueue)
    : res EventQueue :=
  _ ← assert_ (_curTick q <=? when);
  e ← deref (evs q !! event);
  _ ← assert_ (negb (scheduled e));
  _ ← assert_ (initialized e);
  let q := q <| evs := <[event := setWhen when (this q) e]> (evs q) |> in
  q ← (if inParallelMode q && (negb (this q =? curEventQueue q) || global)
       then Ok (asyncInsert event q) else q_insert event q);
  h ← on_flags (fun f => fl_set f Scheduled) event (evs q);
  Ok (q <| evs := h |>).

Definition eq_deschedule (event : loc) (q : EventQueue) : res EventQueue :=
  e ← deref (evs q !! event);
  _ ← assert_ (scheduled e);
  _ ← assert_ (initialized e);
  _ ← assert_ (negb (inParallelMode q) || (this q =? curEventQueue q));
  q ← q_remove event q;
  h ← on_flags (fun f => fl_clear (fl_clear f Squashed) Scheduled) event (evs q);
  e ← deref (h !! event);
  if fl_isSet (flags e) AutoDelete
  then h ← delete_event event h; Ok (q <| evs := h |>)
  else Ok (q <| evs := h |>).

Definition eq_reschedule (event : loc) (when : Z) (always : bool) (q : EventQueue)
    : res EventQueue :=
  _ ← assert_ (_curTick q <=? when);
  e ← deref (evs q !! event);
  _ ← assert_ (always || scheduled e);
  _ ← assert_ (initialized e);
  _ ← assert_ (negb (inParallelMode q) || (this q =? curEventQueue q));
  q ← (if scheduled e then q_remove event q else Ok q);
  e ← deref (evs q !! event);
  let q := q <| evs := <[event := setWhen when (this q) e]> (evs q) |> in
  q ← q_insert event q;
  h ← on_flags (fun f => fl_set (fl_clear f Squashed) Scheduled) event (evs q);
  Ok (q <| evs := h |>).

(** [handleAsyncInsertions]: the events other threads have added, in order. *)
Fixpoint insert_all (l : list loc) (q : EventQueue) : res EventQueue :=
  match l with
  | [] => Ok q
  | e :: l' => q ← q_insert e q; insert_all l' (q <| async_queue := l' |>)
  end.
Definition handleAsyncInsertions (q : EventQueue) : res EventQueue :=
  _ ← assert_ (this q =? curEventQueue q); insert_all (async_queue q) q.

Definition replaceHead (s : option loc) (q : EventQueue) : EventQueue * option loc :=
  (q <| head := s |>, head q).

(** The part of [serviceOne] that takes the first event off the queue. *)
Definition pop_head (q : EventQueue) : res (loc * EventQueue) :=
  event ← deref (head q);
  e ← deref (evs q !! event);
  h ← on_flags (fun f => fl_clear f Scheduled) event (evs q);
  match nextInBin e with
  | Some n =>
      ne ← deref (h !! n);
      Ok (event, q <| evs := <[n := ne <| nextBin := nextBin e |>]> h |> <| head := Some n |>)
  | None => Ok (event, q <| evs := h |> <| head := nextBin e |>)
  end.

(** The end of [serviceOne]: the event is deleted when it asked for it. *)
Definition auto_delete (event : loc) (q : EventQueue) : res EventQueue :=
  e ← deref (evs q !! event);
  if fl_isSet (flags e) AutoDelete && negb (scheduled e)
  then h ← delete_event event (evs q); Ok (q <| evs := h |>)
  else Ok q.

(** What follows the handler: an exit event is returned to the loop. *)
Definition service_end (event : loc) (q : EventQueue) : res (EventQueue * option loc) :=
  e ← deref (evs q !! event);
  if isExitEvent e then
    _ ← assert_ (negb (fl_isSet (flags e) AutoDelete) ||
                 negb (fl_isSet (flags e) IsMainQueue));
    Ok (q, Some event)
  else q ← auto_delete event q; Ok (q, None).

(** The handlers of events are virtual: [process] stands for them. *)
Section service.
Variable process : loc -> EventQueue -> res EventQueue.

(** [serviceOne]: the queue after it, and the exit event if it was one. *)
Definition serviceOne (q : EventQueue) : res (EventQueue * option loc) :=
  '(event, q) ← pop_head q;
  e ← deref (evs q !! event);
  if negb (squashed e) then
    q ← process event (setCurTick (_when e) q); service_end event q
  else
    h ← on_flags (fun f => fl_clear f Squashed) event (evs q);
    q ← auto_delete event (q <| evs := h |>); Ok (q, None).

(** [serviceEvents(when)]: handlers may schedule more work, so the loop is
    bounded by fuel only. *)
Fixpoint service_until (fuel : nat) (when : Z) (q : EventQueue) : res EventQueue :=
  match fuel with
  | O => Err Diverged
  | S fuel' =>
      if empty_ q then Ok q
      else
        t ← nextTick q;
        if when <? t then Ok q
        else '(q, _) ← serviceOne q; service_until fuel' when q
  end.
Definition serviceEvents (fuel : nat) (when : Z) (q : EventQueue) : res EventQueue :=
  q ← service_until fuel when q; Ok (setCurTick when q).

(** The loop of [doSimLoop] while no signal is pending ([async_event] is
    false), at most [n] turns of it: the queue, and the exit event once there
    is one. *)
Fixpoint sim_turns (n : nat) (q : EventQueue) : res (EventQueue * option loc) :=
  match n with
  | O => Ok (q, None)
  | S n' =>
      _ ← assert_ (negb (empty_ q));
      t ← nextTick q;
      _ ← assert_ (_curTick q <=? t);
      '(q, x) ← serviceOne q;
      match x with Some _ => Ok (q, x) | None => sim_turns n' q end
  end.

End service.

(** ** Walks over the queue: [serialize], [dump], [debugVerify] *)
Fixpoint walk_bin (fuel : nat) (h : heap) (p : option loc) : res (list loc) :=
  match fuel with
  | O => Err Diverged
  | S fuel' =>
      match p with
      | None => Ok []
      | Some a => e ← deref (h !! a); l ← walk_bin fuel' h (nextInBin e); Ok (a :: l)
      end
  end.

Fixpoint walk_bins (fuel : nat) (h : heap) (p : option loc) : res (list loc) :=
  match fuel with
  | O => Err Diverged
  | S fuel' =>
      match p with
      | None => Ok []
      | Some a =>
          e ← deref (h !! a);
          l ← walk_bin (list_fuel h) h p;
          l' ← walk_bins fuel' h (nextBin e);
          Ok (l ++ l')
      end
  end.

(** The events in the order in which [dump] prints them. *)
Definition walk (q : EventQueue) : res (list loc) :=
  walk_bins (list_fuel (evs q)) (evs q) (head q).

(** The events that [EventQueue::serialize] writes out. *)
Definition serialized (q : EventQueue) : res (list loc) :=
  l ← walk q;
  Ok (List.filter (fun a => match evs q !! a with
                            | Some e => fl_isSet (flags e) AutoSerialize
                            | None => false
                            end) l).

(** [debugVerify]: [None] is its [return false], otherwise the last tick and
    priority seen and the events seen so far. *)
Definition verify_state : Type := Z * Z * gset loc.

Definition verify_event (e : Event) (a : loc) (st : verify_state) : option verify_state :=
  let '(time, priority, seen) := st in
  if _when e <? time then None
  else if (_when e =? time) && (_priority e <? priority) then None
  else if bool_decide (a ∈ seen) then None
  else Some (_when e, _priority e, {[a]} ∪ seen).

Fixpoint verify_bin (fuel : nat) (h : heap) (p : option loc) (st : verify_state)
    : res (option verify_state) :=
  match fuel with
  | O => Err Diverged
  | S fuel' =>
      match p with
      | None => Ok (Some st)
      | Some a =>
          e ← deref (h !! a);
          match verify_event e a st with
          | None => Ok None
          | Some st => verify_bin fuel' h (nextInBin e) st
          end
      end
  end.

Fixpoint verify_bins (fuel : nat) (h : heap) (p : option loc) (st : verify_state) : res bool :=
  match fuel with
  | O => Err Diverged
  | S fuel' =>
      match p with
      | None => Ok true
      | Some a =>
          e ← deref (h !! a);
          r ← verify_bin (list_fuel h) h p st;
          match r with
          | None => Ok false
          | Some st => verify_bins fuel' h (nextBin e) st
          end
      end
  end.

Definition debugVerify (q : EventQueue) : res bool :=
  verify_bins (list_fuel (evs q)) (evs q) (head q) (0, 0, ∅).

(** [Event::serialize]: the tick, the priority and the flags as a [short]. *)
Definition serialize_event (e : Event) : Z * Z * Z := (_when e, _priority e, sgn 16 (flags e)).

(** [Event::unserialize(cp, section, eventq)] with the three values read from
    the checkpoint. *)
Definition unserialize (event : loc) (when priority _flags : Z) (q : EventQueue)
    : res EventQueue :=
  e ← deref (evs q !! event);
  q ← (if scheduled e then eq_deschedule event q else Ok q);
  e ← deref (evs q !! event);
  let e := e <| _when := when |> <| _priority := priority |> in
  _ ← assert_ (initialized e);
  let f := fl_set (u16 _flags) Initialized in
  let wasScheduled := fl_isSet f Scheduled && negb (fl_isSet f Squashed) in
  let e := e <| flags := fl_clear f (Z.lor Squashed Scheduled) |> in
  let q := q <| evs := <[event := e]> (evs q) |> in
  if wasScheduled then eq_schedule event when false q else Ok q.

(** ** The specification: one list of events in service order

    A key is a tick and a priority; a new event goes in front of the first
    event whose key is not smaller, so equal events are serviced last in,
    first out. *)
Definition key : Type := Z * Z.
Definition evkey (e : Event) : key := (_when e, _priority e).
Definition klt (a b : key) : Prop := a.1 < b.1 \/ (a.1 = b.1 /\ a.2 < b.2).
Definition kle (a b : key) : Prop := a.1 < b.1 \/ (a.1 = b.1 /\ a.2 <= b.2).

#[global] Instance klt_dec a b : Decision (klt a b).
Proof. unfold klt. apply _. Defined.
#[global] Instance kle_dec a b : Decision (kle a b).
Proof. unfold kle. apply _. Defined.

Fixpoint spec_insert (x : key * loc) (l : list (key * loc)) : list (key * loc) :=
  match l with
  | [] => [x]
  | y :: l' => if decide (kle x.1 y.1) then x :: l else y :: spec_insert x l'
  end.

Definition spec_remove (a : loc) (l : list (key * loc)) : list (key * loc) :=
  filter (fun x => x.2 <> a) l.

(** *** Bins *)
Record bin := mkBin { bkey : key; btop : loc; brest : list loc }.

(** [bseg h p bs r]: from [p] the bins [bs] are linked through the [nextBin] of
    their top events, up to [r]. *)
Fixpoint bseg (h : heap) (p : option loc) (bs : list bin) (r : option loc) : Prop :=
  match bs with
  | [] => p = r
  | b :: bs' =>
      p = Some (btop b) /\ exists e, h !! btop b = Some e /\
        seg nextInBin h (nextInBin e) (brest b) None /\ bseg h (nextBin e) bs' r
  end.

Definition blocs (b : bin) : list loc := btop b :: brest b.
Definition order (bs : list bin) : list (key * loc) := bs ≫= fun b => pair (bkey b) <$> blocs b.
Definition locs (bs : list bin) : list loc := (order bs).*2.
Definition bptr (bs : list bin) : option loc := btop <$> list.head bs.

(** What the store says about the bins: the pointers, that each event of a bin
    has the key of the bin, that no event is listed twice, and that the keys
    of the bins increase strictly. *)
Record bins (h : heap) (p : option loc) (bs : list bin) : Prop := mk_bins {
  bins_seg : bseg h p bs None;
  bins_key : Forall (fun x => evkey <$> h !! x.2 = Some x.1) (order bs);
  bins_nodup : NoDup (locs bs);
  bins_sorted : StronglySorted klt (bkey <$> bs)
}.

(** Two stores that differ in the links only. *)
Definition unlink (e : Event) : Event := e <| nextBin := None |> <| nextInBin := None |>.
Definition links_only (h h' : heap) : Prop := unlink <$> h' = unlink <$> h.

(** ** Keys *)
Lemma ev_lt_spec l r : ev_lt l r = bool_decide (klt (evkey l) (evkey r)).
Proof.
  unfold ev_lt, klt, evkey. cbn. symmetry. case_bool_decide; symmetry;
    rewrite ?orb_true_iff, ?orb_false_iff, ?andb_true_iff, ?andb_false_iff,
      ?Z.ltb_lt, ?Z.ltb_ge, ?Z.eqb_eq, ?Z.eqb_neq; lia.
Qed.

Lemma ev_le_spec l r : ev_le l r = bool_decide (kle (evkey l) (evkey r)).
Proof.
  unfold ev_le, kle, evkey. cbn. symmetry. case_bool_decide; symmetry;
    rewrite ?orb_true_iff, ?orb_false_iff, ?andb_true_iff, ?andb_false_iff,
      ?Z.ltb_lt, ?Z.ltb_ge, ?Z.leb_le, ?Z.leb_gt, ?Z.eqb_eq, ?Z.eqb_neq; lia.
Qed.

Lemma ev_eq_spec l r : ev_eq l r = bool_decide (evkey l = evkey r).
Proof.
  unfold ev_eq, evkey. symmetry. case_bool_decide as H; symmetry.
  - injection H as H1 H2. rewrite H1, H2, !Z.eqb_refl. done.
  - rewrite andb_false_iff, !Z.eqb_neq.
    destruct (decide (_when l = _when r)); [right|left; done]. congruence.
Qed.

(** Goals on keys are goals on their two numbers. *)
Ltac key_solve :=
  repeat match goal with k : key |- _ => destruct k end;
  unfold klt, kle in *; cbn in *;
  repeat match goal with H : (_, _) = (_, _) |- _ => injection H as H end;
  subst; try (apply pair_equal_spec); lia.

Lemma klt_trans a b c : klt a b -> klt b c -> klt a c.
Proof. intros. key_solve. Qed.
Lemma kle_trans a b c : kle a b -> kle b c -> kle a c.
Proof. intros. key_solve. Qed.
Lemma klt_kle a b : klt a b -> kle a b.
Proof. intros. key_solve. Qed.
Lemma not_kle_klt a b : ~ kle a b <-> klt b a.
Proof. split; intros; key_solve. Qed.
Lemma not_klt_kle a b : ~ klt a b <-> kle b a.
Proof. split; intros; key_solve. Qed.
Lemma kle_antisym a b : kle a b -> kle b a -> a = b.
Proof. intros. destruct a, b. f_equal; key_solve. Qed.
Lemma klt_irrefl a : ~ klt a a.
Proof. intros H. key_solve. Qed.
Lemma kle_refl a : kle a a.
Proof. key_solve. Qed.

(** ** The specification keeps its order *)
Lemma spec_insert_perm x l : spec_insert x l ≡ₚ x :: l.
Proof.
  induction l as [|y l IH]; cbn; [done|]. case_decide; [done|].
  by rewrite IH, Permutation_swap.
Qed.

Definition sorted_events (l : list (key * loc)) : Prop :=
  StronglySorted (fun x y => kle x.1 y.1) l.

Lemma spec_insert_sorted x l : sorted_events l -> sorted_events (spec_insert x l).
Proof.
  unfold sorted_events. induction 1 as [|y l Hs IH Hf]; cbn.
  - repeat constructor.
  - case_decide as Hk.
    + constructor; [by constructor|]. constructor; [done|].
      eapply Forall_impl; [exact Hf|]. intros z Hz. by eapply kle_trans.
    + constructor; [done|]. rewrite spec_insert_perm. constructor; [|done].
      apply klt_kle, not_kle_klt, Hk.
Qed.

Lemma spec_insert_app_lt x l1 l2 :
  Forall (fun y => klt y.1 x.1) l1 -> spec_insert x (l1 ++ l2) = l1 ++ spec_insert x l2.
Proof.
  induction 1 as [|y l1 Hy _ IH]; cbn; [done|].
  rewrite decide_False by (by apply not_kle_klt). by rewrite IH.
Qed.

Lemma spec_insert_le x l :
  (forall y l', l = y :: l' -> kle x.1 y.1) -> spec_insert x l = x :: l.
Proof.
  destruct l as [|y l]; cbn; [done|]. intros H. by rewrite decide_True by eauto.
Qed.

Lemma spec_remove_notin a l : a ∉ l.*2 -> spec_remove a l = l.
Proof.
  unfold spec_remove. intros Ha. induction l as [|x l IH]; [done|].
  rewrite filter_cons_True by set_solver. f_equal. set_solver.
Qed.

Lemma spec_remove_app a l1 l2 :
  spec_remove a (l1 ++ l2) = spec_remove a l1 ++ spec_remove a l2.
Proof. apply filter_app. Qed.

Lemma spec_remove_hit k a l : spec_remove a ((k, a) :: l) = spec_remove a l.
Proof. unfold spec_remove. by rewrite filter_cons_False by (cbn; tauto). Qed.

Lemma spec_remove_sublist a l : spec_remove a l `sublist_of` l.
Proof. apply sublist_filter. Qed.

(** ** Bins and the store *)
Lemma order_cons b bs : order (b :: bs) = (pair (bkey b) <$> blocs b) ++ order bs.
Proof. done. Qed.
Lemma order_app bs1 bs2 : order (bs1 ++ bs2) = order bs1 ++ order bs2.
Proof. apply bind_app. Qed.
Lemma locs_cons b bs : locs (b :: bs) = blocs b ++ locs bs.
Proof.
  unfold locs. rewrite order_cons, fmap_app, <- list_fmap_compose. f_equal. apply list_fmap_id.
Qed.
Lemma locs_app bs1 bs2 : locs (bs1 ++ bs2) = locs bs1 ++ locs bs2.
Proof. unfold locs. by rewrite order_app, fmap_app. Qed.

Lemma order_key bs x : x ∈ order bs -> exists b, b ∈ bs /\ x.1 = bkey b /\ x.2 ∈ blocs b.
Proof.
  intros (b & Hx & Hb)%list_elem_of_bind. apply list_elem_of_fmap in Hx as (a & -> & Ha). eauto.
Qed.

Lemma btop_locs b bs : b ∈ bs -> btop b ∈ locs bs.
Proof.
  induction 1; rewrite locs_cons; apply elem_of_app; [left|by right].
  apply elem_of_cons. by left.
Qed.

Lemma bseg_app h bs1 bs2 p r :
  bseg h p (bs1 ++ bs2) r <-> exists m, bseg h p bs1 m /\ bseg h m bs2 r.
Proof.
  revert p. induction bs1 as [|b bs1 IH]; intros p; cbn.
  - split; [eauto|]. intros (m & -> & H). done.
  - split.
    + intros (-> & e & He & Hs & H). apply IH in H as (m & H1 & H2). eauto 10.
    + intros (m & (-> & e & He & Hs & H1) & H2). split; [done|].
      exists e. split; [done|]. split; [done|]. apply IH. eauto.
Qed.

Lemma bseg_ptr h p bs : bseg h p bs None -> p = bptr bs.
Proof. destruct bs; cbn; [done|]. by intros (-> & _). Qed.

Lemma bseg_ext h h' bs p r :
  (forall a, a ∈ locs bs -> nextInBin <$> h' !! a = nextInBin <$> h !! a) ->
  (forall b, b ∈ bs -> nextBin <$> h' !! btop b = nextBin <$> h !! btop b) ->
  bseg h p bs r -> bseg h' p bs r.
Proof.
  revert p. induction bs as [|b bs IH]; intros p Hi Hn; cbn; [done|].
  intros (-> & e & He & Hs & H). split; [done|].
  assert (btop b ∈ locs (b :: bs)) as Hin by (apply btop_locs; left).
  pose proof (Hi _ Hin) as Hi1. pose proof (Hn b ltac:(left)) as Hn1.
  rewrite He in Hi1, Hn1. destruct (h' !! btop b) as [e'|]; [|done].
  cbn in Hi1, Hn1. injection Hi1 as Hi1. injection Hn1 as Hn1.
  exists e'. split; [done|]. rewrite Hi1, Hn1. split.
  - eapply seg_ext; [|exact Hs]. intros a Ha. apply Hi. rewrite locs_cons.
    apply elem_of_app. left. by right.
  - apply IH; [| |done].
    + intros a Ha. apply Hi. rewrite locs_cons. apply elem_of_app. by right.
    + intros b' Hb'. apply Hn. by right.
Qed.

Lemma bseg_insert_ne h bs p r a e : a ∉ locs bs -> bseg h p bs r -> bseg (<[a:=e]> h) p bs r.
Proof.
  intros Ha. apply bseg_ext.
  - intros b Hb. by rewrite lookup_insert_ne by (intros ->; done).
  - intros b Hb%btop_locs. by rewrite lookup_insert_ne by (intros ->; done).
Qed.

(** A write that keeps both pointers keeps the bins. *)
Lemma bseg_insert_same h bs p r a e e' :
  h !! a = Some e -> nextBin e' = nextBin e -> nextInBin e' = nextInBin e ->
  bseg h p bs r -> bseg (<[a:=e']> h) p bs r.
Proof.
  intros Ha Hn Hi. apply bseg_ext; intros b _.
  - destruct (decide (b = a)) as [->|]; [|by rewrite lookup_insert_ne].
    rewrite lookup_insert_eq, Ha. cbn. by rewrite Hi.
  - destruct (decide (btop b = a)) as [->|]; [|by rewrite lookup_insert_ne].
    rewrite lookup_insert_eq, Ha. cbn. by rewrite Hn.
Qed.

(** Redirecting the top of the last bin. *)
Lemma bseg_relink h bs b p r r' e :
  bseg h p (bs ++ [b]) r -> NoDup (locs (bs ++ [b])) -> h !! btop b = Some e ->
  bseg (<[btop b := e <| nextBin := r' |>]> h) p (bs ++ [b]) r'.
Proof.
  intros H Hnd He. apply bseg_app in H as (m & H1 & (-> & e0 & He0 & Hs & _)).
  rewrite He in He0. injection He0 as <-.
  rewrite locs_app, locs_cons, app_nil_r in Hnd. apply NoDup_app in Hnd as (_ & Hd & Hb).
  apply NoDup_cons in Hb as [Hb _].
  apply bseg_app. exists (Some (btop b)). split.
  - apply bseg_insert_ne; [|done]. intros Hin. apply (Hd _ Hin). left.
  - split; [done|]. eexists. rewrite lookup_insert_eq. split; [done|]. cbn.
    split; [|done]. by apply seg_insert_ne.
Qed.

(** ** Stores that differ in the links *)
#[export] Instance links_only_equiv : Equivalence links_only.
Proof. unfold links_only. split; repeat intro; congruence. Qed.

Lemma links_only_lookup h h' a e : links_only h h' -> h !! a = Some e ->
  exists e', h' !! a = Some e' /\ unlink e' = unlink e.
Proof.
  intros Hl He. apply (f_equal (fun m => m !! a)) in Hl. rewrite !lookup_fmap, He in Hl.
  destruct (h' !! a); [|done]. apply (inj Some) in Hl. eauto.
Qed.

Lemma links_only_insert h a e e' :
  h !! a = Some e -> unlink e' = unlink e -> links_only h (<[a:=e']> h).
Proof.
  intros He Hu. unfold links_only. rewrite fmap_insert, Hu, <- fmap_insert.
  by rewrite insert_id.
Qed.

Lemma links_only_key h h' a : links_only h h' -> evkey <$> h' !! a = evkey <$> h !! a.
Proof.
  intros Hl. apply (f_equal (fun m => m !! a)) in Hl. rewrite !lookup_fmap in Hl.
  destruct (h' !! a) as [e'|], (h !! a) as [e|]; cbn in *; try done.
  injection Hl as Hw Hp _ _. unfold evkey. by rewrite Hw, Hp.
Qed.

(** ** Insertion *)

(** [event] on top of the first bin of [bs] if the keys agree, else in a bin of
    its own in front. *)
Definition push (k : key) (event : loc) (bs : list bin) : list bin :=
  match bs with
  | b :: bs' => if decide (bkey b = k) then mkBin k event (blocs b) :: bs'
                else mkBin k event [] :: bs
  | [] => [mkBin k event []]
  end.

Definition first_ge (k : key) (bs : list bin) : Prop :=
  forall b bs', bs = b :: bs' -> kle k (bkey b).

Lemma order_push k event bs : order (push k event bs) = (k, event) :: order bs.
Proof.
  destruct bs as [|b bs]; [done|]. cbn [push]. case_decide as E; [|done].
  rewrite !order_cons, E. done.
Qed.

Lemma locs_push k event bs : locs (push k event bs) = event :: locs bs.
Proof. unfold locs. by rewrite order_push. Qed.

Lemma order_first_ge k bs : first_ge k bs ->
  forall y l, order bs = y :: l -> kle k y.1.
Proof.
  intros Hf y l. destruct bs as [|b bs]; [done|]. rewrite order_cons. intros [= <- _].
  cbn. by eapply Hf.
Qed.

Lemma order_below k bs : Forall (fun b => klt (bkey b) k) bs ->
  Forall (fun y => klt y.1 k) (order bs).
Proof.
  intros Hf. apply Forall_forall. intros y (b & Hb & -> & _)%order_key.
  by apply (proj1 (Forall_forall _ _) Hf).
Qed.

Lemma sorted_push pre k event bs :
  StronglySorted klt (bkey <$> pre ++ bs) -> Forall (fun b => klt (bkey b) k) pre ->
  first_ge k bs -> StronglySorted klt (bkey <$> pre ++ push k event bs).
Proof.
  rewrite !fmap_app. intros Hs Hf Hg.
  apply StronglySorted_app in Hs as (Hx & Hs1 & Hs2).
  assert (StronglySorted klt (bkey <$> push k event bs) /\
          Forall (kle k) (bkey <$> push k event bs)) as [Hp Hk].
  { destruct bs as [|b bs]; cbn.
    { split; [by repeat constructor|]. constructor; [apply kle_refl|done]. }
    pose proof (Hg b bs eq_refl) as Hb. inversion_clear Hs2 as [|?? Hs Hbs].
    assert (Forall (klt (bkey b)) (bkey <$> bs)) as Hbs' by done.
    case_decide as E; cbn.
    - rewrite <- E. split; constructor; auto using kle_refl.
      eapply Forall_impl; [exact Hbs|]. intros; by apply klt_kle.
    - assert (klt k (bkey b)) as Hlt.
      { apply not_kle_klt. intros H. apply E. by apply kle_antisym. }
      assert (Forall (klt k) (bkey <$> bs)) as Hks.
      { eapply Forall_impl; [exact Hbs|]. intros; by eapply klt_trans. }
      split; [constructor; by constructor|].
      constructor; [apply kle_refl|]. constructor; [done|].
      eapply Forall_impl; [exact Hks|]. intros; by apply klt_kle. }
  apply StronglySorted_app_2; [|done..]. intros x1 x2 (b & -> & Hb)%list_elem_of_fmap Hx2.
  pose proof (proj1 (Forall_forall _ _) Hf _ Hb) as H1.
  pose proof (proj1 (Forall_forall _ _) Hk _ Hx2) as H2. cbn in *. key_solve.
Qed.

(** *** The loops and helpers on pointers *)

Lemma bins_tail h p b bs e : bins h p (b :: bs) -> h !! btop b = Some e ->
  bins h (nextBin e) bs.
Proof.
  intros [(_ & e0 & He0 & Hs & Hb) Hk Hn Ho] He. rewrite He in He0. injection He0 as <-.
  rewrite order_cons in Hk. apply Forall_app in Hk as [_ Hk].
  rewrite locs_cons in Hn. apply NoDup_app in Hn as (_ & _ & Hn).
  apply StronglySorted_inv in Ho as [Ho _]. by constructor.
Qed.

Lemma bins_top h p b bs : bins h p (b :: bs) ->
  p = Some (btop b) /\ exists e, h !! btop b = Some e /\ evkey e = bkey b /\
    seg nextInBin h (nextInBin e) (brest b) None.
Proof.
  intros [(-> & e & He & Hs & Hb) Hk Hn Ho]. split; [done|]. exists e.
  rewrite order_cons in Hk. apply Forall_cons in Hk as [Hk _]. cbn in Hk.
  rewrite He in Hk. by injection Hk.
Qed.

Lemma bins_length h p bs : bins h p bs -> (length bs <= size h)%nat.
Proof.
  intros [_ Hk Hn _]. transitivity (length (locs bs)).
  - clear. induction bs as [|b bs IH]; [done|]. rewrite locs_cons, length_app. cbn. lia.
  - apply NoDup_dom_length; [done|]. intros a Ha. apply list_elem_of_fmap in Ha as (x & -> & Hx).
    apply (proj1 (Forall_forall _ _) Hk) in Hx. by destruct (h !! x.2).
Qed.

(** The loop stops in front of the first bin that is not before the event. *)
Lemma find_bin_spec fuel h p e b0 e0 bs :
  bins h p (b0 :: bs) -> h !! btop b0 = Some e0 -> klt (bkey b0) (evkey e) ->
  (length bs < fuel)%nat ->
  exists pre b post, b0 :: bs = pre ++ b :: post /\
    find_bin fuel h e (btop b0) (nextBin e0) = Ok (btop b, bptr post) /\
    Forall (fun b => klt (bkey b) (evkey e)) (pre ++ [b]) /\ first_ge (evkey e) post.
Proof.
  revert p b0 e0 bs. induction fuel as [|fuel IH]; intros p b0 e0 bs Hb He0 Hlt Hf; [lia|].
  pose proof (bins_tail _ _ _ _ _ Hb He0) as Ht. cbn [find_bin].
  destruct bs as [|b1 bs]; cbn [length] in Hf.
  - destruct Ht as [Hs _ _ _]. cbn in Hs. rewrite Hs. exists [], b0, [].
    split_and!; [done|done|by constructor|by intros ?].
  - destruct (bins_top _ _ _ _ Ht) as (-> & e1 & He1 & Hk1 & _).
    rewrite He1. cbn [deref mbind res_bind]. rewrite ev_lt_spec, Hk1.
    case_bool_decide as Hlt1.
    + destruct (IH _ b1 e1 bs Ht He1 Hlt1 ltac:(lia)) as (pre & b & post & E & -> & Hfa & Hge).
      exists (b0 :: pre), b, post. rewrite E. split_and!; [done|done|by constructor|done].
    + exists [], b0, (b1 :: bs). split_and!; [done|done|by constructor|].
      intros b' bs' [= <- _]. by apply not_klt_kle.
Qed.

Lemma insertBefore_spec h event e bs p :
  bins h p bs -> h !! event = Some e -> event ∉ locs bs -> first_ge (evkey e) bs ->
  exists e', insertBefore h event p = Ok (<[event := e']> h, event) /\ unlink e' = unlink e /\
    bseg (<[event := e']> h) (Some event) (push (evkey e) event bs) None.
Proof.
  intros Hb He Hin Hge. unfold insertBefore. rewrite He. cbn [deref mbind res_bind].
  destruct bs as [|b bs].
  - pose proof (bins_seg _ _ _ Hb) as Hs. cbn in Hs. subst p.
    eexists. split; [reflexivity|]. split; [done|].
    split; [done|]. eexists. rewrite lookup_insert_eq. by repeat split.
  - destruct (bins_top _ _ _ _ Hb) as (-> & et & Het & Hkt & Hst).
    pose proof (bins_seg _ _ _ Hb) as Hs.
    rewrite Het. cbn [deref mbind res_bind]. rewrite ev_lt_spec, Hkt.
    pose proof (Hge b bs eq_refl) as Hle. cbn [push].
    case_bool_decide as Hlt.
    + rewrite decide_False by (intros E; rewrite E in Hlt; by apply klt_irrefl in Hlt).
      eexists. split; [reflexivity|]. split; [done|].
      split; [done|]. eexists. rewrite lookup_insert_eq. split; [done|].
      split; [done|]. cbn [nextBin]. by apply bseg_insert_ne.
    + rewrite decide_True by (symmetry; apply kle_antisym; [done|by apply not_klt_kle]).
      eexists. split; [reflexivity|]. split; [done|].
      rewrite locs_cons in Hin. apply not_elem_of_app in Hin as [Hin1 Hin2].
      apply not_elem_of_cons in Hin1 as [Hin0 Hin1].
      split; [done|]. eexists. rewrite lookup_insert_eq. split; [done|]. cbn. split.
      * split; [done|]. exists et. rewrite lookup_insert_ne by done. split; [done|].
        by apply seg_insert_ne.
      * destruct Hs as (_ & et' & Het' & _ & Hs). rewrite Het in Het'. injection Het' as <-.
        by apply bseg_insert_ne.
Qed.

Lemma links_only_keys h h' l : links_only h h' ->
  Forall (fun x => evkey <$> h !! x.2 = Some x.1) l ->
  Forall (fun x : key * loc => evkey <$> h' !! x.2 = Some x.1) l.
Proof.
  intros Hl Hf. eapply Forall_impl; [exact Hf|]. intros x Hx. cbn in *.
  by rewrite (links_only_key _ _ _ Hl).
Qed.

(** New bins behind a given bin. *)
Lemma bseg_splice h pre b post p r r' e :
  bseg h p (pre ++ [b]) r -> NoDup (locs (pre ++ [b]) ++ locs post) ->
  h !! btop b = Some e -> bseg h r' post None ->
  bseg (<[btop b := e <| nextBin := r' |>]> h) p ((pre ++ [b]) ++ post) None.
Proof.
  intros Hs Hn He Hp. apply NoDup_app in Hn as (Hn1 & Hd & _). apply bseg_app.
  exists r'. split; [by eapply bseg_relink|]. apply bseg_insert_ne; [|done].
  apply Hd, btop_locs, elem_of_app. right. left.
Qed.

Lemma bins_app_r h p pre post : bins h p (pre ++ post) -> bins h (bptr post) post.
Proof.
  intros [Hs Hk Hn Ho]. apply bseg_app in Hs as (m & _ & Hs).
  rewrite (bseg_ptr _ _ _ Hs) in Hs.
  rewrite order_app in Hk. apply Forall_app in Hk as [_ Hk].
  rewrite locs_app in Hn. apply NoDup_app in Hn as (_ & _ & Hn).
  rewrite fmap_app in Ho. apply StronglySorted_app_1_r in Ho. by constructor.
Qed.

Lemma bins_lookup h p bs b : bins h p bs -> b ∈ bs ->
  exists e, h !! btop b = Some e /\ evkey e = bkey b.
Proof.
  intros Hb (l1 & l2 & ->)%list_elem_of_split. apply bins_app_r in Hb.
  destruct (bins_top _ _ _ _ Hb) as (_ & e & He & Hk & _). eauto.
Qed.

(** Putting an event into the bins, given the pointers. *)
Lemma bins_put h h' p p' pre bs event e :
  bins h p (pre ++ bs) -> h !! event = Some e -> event ∉ locs (pre ++ bs) ->
  Forall (fun b => klt (bkey b) (evkey e)) pre -> first_ge (evkey e) bs -> links_only h h' ->
  bseg h' p' (pre ++ push (evkey e) event bs) None ->
  bins h' p' (pre ++ push (evkey e) event bs) /\
  order (pre ++ push (evkey e) event bs) = spec_insert (evkey e, event) (order (pre ++ bs)).
Proof.
  intros [Hs Hk Hn Ho] He Hin Hpre Hge Hl Hs'.
  assert (order (pre ++ push (evkey e) event bs) =
          spec_insert (evkey e, event) (order (pre ++ bs))) as E.
  { rewrite !order_app, order_push, spec_insert_app_lt by (by apply order_below).
    rewrite spec_insert_le; [done|]. by apply order_first_ge. }
  split; [|done]. constructor; [done| | |by apply sorted_push].
  - rewrite E, spec_insert_perm. eapply links_only_keys; [done|].
    constructor; [cbn; by rewrite He|done].
  - unfold locs. rewrite E, spec_insert_perm. by apply NoDup_cons.
Qed.

(** The event goes in front of the whole list. *)
Lemma insert_front h p bs event e :
  bins h p bs -> h !! event = Some e -> event ∉ locs bs -> first_ge (evkey e) bs ->
  exists h' p' bs', ('(h0, t) ← insertBefore h event p; Ok (h0, Some t)) = Ok (h', p') /\
    bins h' p' bs' /\ order bs' = spec_insert (evkey e, event) (order bs) /\ links_only h h'.
Proof.
  intros Hb He Hin Hge.
  destruct (insertBefore_spec _ _ _ _ _ Hb He Hin Hge) as (e' & -> & Hu & Hs).
  pose proof (links_only_insert _ _ _ _ He Hu) as Hl.
  destruct (bins_put h _ p (Some event) [] bs event e Hb He Hin ltac:(done) Hge Hl Hs).
  eexists _, _, _. split; [reflexivity|]. eauto.
Qed.

Lemma eq_insert_spec h p bs event e :
  bins h p bs -> h !! event = Some e -> event ∉ locs bs ->
  exists h' p' bs', eq_insert h p event = Ok (h', p') /\ bins h' p' bs' /\
    order bs' = spec_insert (evkey e, event) (order bs) /\ links_only h h'.
Proof.
  intros Hb He Hin. unfold eq_insert. rewrite He. cbn [deref mbind res_bind].
  pose proof (insert_front h p bs event e Hb He Hin) as Hfront.
  destruct bs as [|b bs].
  - pose proof (bins_seg _ _ _ Hb) as Hs. cbn in Hs. subst p. apply Hfront. by intros ?.
  - destruct (bins_top _ _ _ _ Hb) as (-> & et & Het & Hkt & _).
    rewrite Het. cbn [deref mbind res_bind]. rewrite ev_le_spec, Hkt.
    case_bool_decide as Hle; [apply Hfront; by intros ?? [= <- _]|]. clear Hfront.
    apply not_kle_klt in Hle. pose proof (bins_length _ _ _ Hb) as Hlen. cbn in Hlen.
    destruct (find_bin_spec (list_fuel h) h _ e b et bs Hb Het Hle)
      as (pre & bl & post & E & -> & Hpre & Hge); [unfold list_fuel; lia|].
    rewrite E in *. clear E. cbn [mbind res_bind].
    rewrite cons_middle, app_assoc in Hb, Hin |- *.
    pose proof (bins_seg _ _ _ Hb) as Hs. apply bseg_app in Hs as (m & Hs1 & Hs2).
    pose proof (bins_app_r _ _ _ _ Hb) as Hpost.
    pose proof Hin as Hin'. rewrite locs_app in Hin'.
    apply not_elem_of_app in Hin' as [Hin1 Hin2].
    destruct (insertBefore_spec _ _ _ _ _ Hpost He Hin2 Hge) as (e' & -> & Hu & Hs').
    cbn [mbind res_bind].
    assert (bl ∈ (pre ++ [bl]) ++ post) as Hbl by set_solver.
    destruct (bins_lookup _ _ _ _ Hb Hbl) as (pe & Hpe & _).
    assert (event <> btop bl) as Hne.
    { intros ->. apply Hin1, btop_locs, elem_of_app. right. left. }
    rewrite lookup_insert_ne, Hpe by done. cbn [deref mbind res_bind].
    pose proof (links_only_insert _ _ _ _ He Hu) as Hl1.
    eassert (links_only (<[event:=e']> h) (<[btop bl := _]> (<[event:=e']> h))) as Hl2.
    { apply (links_only_insert _ _ pe (pe <| nextBin := Some event |>)); [|done].
      by rewrite lookup_insert_ne. }
    pose proof (transitivity Hl1 Hl2) as Hl.
    destruct (bins_put h _ _ (Some (btop b)) (pre ++ [bl]) post event e Hb He Hin Hpre Hge Hl)
      as [Hb' Ho'].
    + eapply bseg_splice; [by apply bseg_insert_ne| | |exact Hs'].
      * rewrite locs_push, <- Permutation_middle. apply NoDup_cons. split.
        { by rewrite <- locs_app. }
        rewrite <- locs_app. apply Hb.
      * by rewrite lookup_insert_ne.
    + eexists _, _, _. split; [reflexivity|]. split; [exact Hb'|]. by split.
Qed.

(** ** Removal *)

(** The first bin without [event]; gone if it was the only one. *)
Definition unbin (event : loc) (b : bin) : list bin :=
  match filter (fun a => a <> event) (blocs b) with
  | [] => []
  | t :: r => [mkBin (bkey b) t r]
  end.

Lemma order_unbin event b : order (unbin event b) = spec_remove event (order [b]).
Proof.
  unfold unbin, order, spec_remove. cbn [mbind list_bind]. rewrite app_nil_r.
  generalize (blocs b) as l. intros l.
  assert (filter (fun x : key * loc => x.2 <> event) (pair (bkey b) <$> l) =
          pair (bkey b) <$> filter (fun a => a <> event) l) as ->.
  { induction l as [|a l IH]; [done|]. rewrite fmap_cons, !filter_cons. cbn.
    case_decide; by rewrite IH. }
  destruct (filter _ l); [done|]. cbn [mbind list_bind]. by rewrite app_nil_r.
Qed.

Lemma bseg_cons_seg h p b bs r : bseg h p (b :: bs) r <->
  p = Some (btop b) /\ seg nextInBin h p (blocs b) None /\
  exists e, h !! btop b = Some e /\ bseg h (nextBin e) bs r.
Proof.
  cbn. split.
  - intros (-> & e & He & Hs & Hb). eauto 8.
  - intros (-> & (_ & e & He & Hs) & e' & He' & Hb). rewrite He in He'. injection He' as <-.
    eauto 8.
Qed.

Lemma find_in_bin_spec fuel h event curr e l :
  h !! curr = Some e -> seg nextInBin h (nextInBin e) l None -> event ∈ l ->
  (length l < fuel)%nat ->
  exists l1 x l2, curr :: l = l1 ++ x :: event :: l2 /\
    find_in_bin fuel h event curr (nextInBin e) = Ok x.
Proof.
  revert curr e l. induction fuel as [|fuel IH]; intros curr e l He Hs Hin Hf; [lia|].
  destruct l as [|n l]; [by apply elem_of_nil in Hin|]. cbn in Hf.
  destruct Hs as (-> & ne & Hne & Hs). cbn [find_in_bin].
  case_bool_decide as E; [subst; by exists [], curr, l|].
  rewrite Hne. cbn [deref mbind res_bind].
  apply elem_of_cons in Hin as [|Hin]; [done|].
  destruct (IH n ne l Hne Hs Hin ltac:(lia)) as (l1 & x & l2 & -> & ->).
  by exists (curr :: l1), x, l2.
Qed.

Lemma find_in_bin_missing fuel h event curr p l :
  seg nextInBin h p l None -> event ∉ l -> (length l < fuel)%nat ->
  find_in_bin fuel h event curr p = panic.
Proof.
  revert curr p l. induction fuel as [|fuel IH]; intros curr p l Hs Hin Hf; [lia|].
  destruct l as [|n l]; cbn in Hs, Hf; [by subst|]. destruct Hs as (-> & ne & Hne & Hs).
  cbn [find_in_bin]. apply not_elem_of_cons in Hin as [Hn Hin].
  rewrite bool_decide_eq_false_2, Hne by done. cbn [deref mbind res_bind].
  eapply IH; [done..|lia].
Qed.

Lemma filter_ne_notin (a : loc) (l : list loc) : a ∉ l -> filter (fun x => x <> a) l = l.
Proof.
  induction l as [|b l IH]; [done|]. intros [H1 H2]%not_elem_of_cons.
  rewrite filter_cons_True by done. by rewrite IH.
Qed.

Lemma filter_ne_split (a : loc) (l1 l2 : list loc) : NoDup (l1 ++ a :: l2) ->
  filter (fun x => x <> a) (l1 ++ a :: l2) = l1 ++ l2.
Proof.
  intros (_ & Hd & Hn)%NoDup_app. apply NoDup_cons in Hn as [Hn _].
  rewrite filter_app, filter_cons_False by tauto.
  rewrite !filter_ne_notin; [done|done|]. intros Hin. apply (Hd _ Hin). left.
Qed.

Lemma bins_blocs h p b bs : bins h p (b :: bs) ->
  seg nextInBin h p (blocs b) None /\ NoDup (blocs b) /\ (forall a, a ∈ blocs b -> a ∉ locs bs) /\
  exists e, h !! btop b = Some e /\ bseg h (nextBin e) bs None.
Proof.
  intros [Hs _ Hn _]. apply bseg_cons_seg in Hs as (_ & Hs & He).
  rewrite locs_cons in Hn. apply NoDup_app in Hn as (Hn & Hd & _). eauto.
Qed.

Lemma seg_length_fuel h p l : seg nextInBin h p l None -> (length l < list_fuel h)%nat.
Proof. intros H%seg_length. unfold list_fuel. lia. Qed.

(** The top event of a bin goes: the next one becomes the top and takes over
    the pointer to the next bin. *)
Lemma removeItem_top h p b bs : bins h p (b :: bs) ->
  exists h', removeItem h (btop b) (btop b) = Ok (h', bptr (unbin (btop b) b ++ bs)) /\
    bseg h' (bptr (unbin (btop b) b ++ bs)) (unbin (btop b) b ++ bs) None /\ links_only h h' /\
    forall a, a ∉ blocs b -> h' !! a = h !! a.
Proof.
  intros Hb. destruct (bins_blocs _ _ _ _ Hb) as (Hs & Hn & Hd & e & He & Hbs).
  destruct (bins_top _ _ _ _ Hb) as (-> & _).
  unfold removeItem, unbin, blocs in *. rewrite He. cbn [deref mbind res_bind].
  rewrite bool_decide_eq_true_2 by done.
  pose proof (filter_ne_split (btop b) [] (brest b) Hn) as Ef. cbn [app] in Ef. rewrite Ef.
  destruct Hs as (_ & e0 & He0 & Hs). rewrite He in He0. injection He0 as <-.
  destruct (brest b) as [|n r] eqn:Er.
  - cbn in Hs. rewrite Hs. pose proof (bseg_ptr _ _ _ Hbs) as E. cbn [app].
    exists h. split; [by rewrite E|]. split; [by rewrite <- E|]. done.
  - destruct Hs as (-> & ne & Hne & Hs). rewrite Hne. cbn [deref mbind res_bind].
    eexists. split; [reflexivity|]. cbn [app bptr list.head fmap option_fmap option_map btop].
    split; [|split].
    + apply NoDup_cons in Hn as [_ Hn]. apply NoDup_cons in Hn as [Hn _].
      cbn. split; [done|]. eexists. rewrite lookup_insert_eq. split; [done|].
      split; [by apply seg_insert_ne|]. apply bseg_insert_ne; [|done]. apply Hd. set_solver.
    + by eapply links_only_insert.
    + intros a Ha. rewrite lookup_insert_ne by set_solver. done.
Qed.

Lemma removeItem_below h p b bs event : bins h p (b :: bs) ->
  event ∈ brest b -> event <> btop b ->
  exists h', removeItem h event (btop b) = Ok (h', bptr (unbin event b ++ bs)) /\
    bseg h' (bptr (unbin event b ++ bs)) (unbin event b ++ bs) None /\ links_only h h' /\
    forall a, a ∉ blocs b -> h' !! a = h !! a.
Proof.
  intros Hb Hin Hne. destruct (bins_blocs _ _ _ _ Hb) as (Hs & Hn & Hd & e & He & Hbs).
  destruct (bins_top _ _ _ _ Hb) as (-> & e0 & He0 & _ & Hsr).
  rewrite He in He0. injection He0 as <-.
  unfold removeItem. rewrite He. cbn [deref mbind res_bind].
  rewrite bool_decide_eq_false_2 by done.
  destruct (find_in_bin_spec (list_fuel h) h event _ e _ He Hsr Hin) as (l1 & x & l2 & E & ->).
  { by eapply seg_length_fuel. }
  cbn [deref mbind res_bind]. unfold unbin, blocs in *. rewrite E in *.
  rewrite cons_middle, app_assoc in Hs, Hn. rewrite cons_middle, app_assoc.
  apply seg_app in Hs as (m & Hs1 & (-> & ee & Hee & Hs2)).
  rewrite (filter_ne_split event) by done.
  pose proof (seg_dom nextInBin h _ _ _ x Hs1 ltac:(set_solver)) as [xe Hxe].
  rewrite Hxe, Hee. cbn [deref mbind res_bind].
  apply NoDup_app in Hn as (Hn1 & Hd1 & _). apply NoDup_app in Hn1 as (_ & Hd2 & _).
  pose proof (seg_relink nextInBin _ _ _ _ _ (nextInBin ee) xe (xe <| nextInBin := nextInBin ee |>)
    Hs1 ltac:(set_solver) Hxe eq_refl) as Hs1'.
  assert (x ∉ l2) as Hx2 by (intros H; apply (Hd1 x); set_solver).
  destruct ((l1 ++ [x]) ++ l2) as [|t r] eqn:El; [by destruct l1|].
  assert (t = btop b) as -> by (destruct l1; cbn in E, El; congruence).
  eexists. split; [reflexivity|]. cbn [app bptr list.head fmap option_fmap option_map btop].
  split; [|split; [by eapply links_only_insert|]].
  - apply bseg_cons_seg. unfold blocs. cbn [btop brest]. split; [done|]. split.
    + rewrite <- El. apply seg_app. eexists. split; [exact Hs1'|]. by apply seg_insert_ne.
    + assert (x ∉ locs bs) by (apply Hd; set_solver).
      destruct (decide (x = btop b)) as [Ex|Hxb].
      * subst x. rewrite lookup_insert_eq. eexists. split; [done|]. rewrite He in Hxe.
        injection Hxe as <-. by apply bseg_insert_ne.
      * rewrite lookup_insert_ne by done. exists e. split; [done|]. by apply bseg_insert_ne.
  - intros a Ha. rewrite lookup_insert_ne by set_solver. done.
Qed.

Lemma removeItem_spec h p b bs event : bins h p (b :: bs) -> event ∈ blocs b ->
  exists h', removeItem h event (btop b) = Ok (h', bptr (unbin event b ++ bs)) /\
    bseg h' (bptr (unbin event b ++ bs)) (unbin event b ++ bs) None /\ links_only h h' /\
    forall a, a ∉ blocs b -> h' !! a = h !! a.
Proof.
  intros Hb Hin. destruct (decide (event = btop b)) as [->|Hne]; [by eapply removeItem_top|].
  eapply removeItem_below; [done| |done]. by apply elem_of_cons in Hin as [|].
Qed.

Lemma bseg_frame h h' bs p r :
  (forall a, a ∈ locs bs -> h' !! a = h !! a) -> bseg h p bs r -> bseg h' p bs r.
Proof.
  intros H. apply bseg_ext; [intros a Ha; by rewrite H|].
  intros b Hb%btop_locs. by rewrite H.
Qed.

Lemma order_unbin_app event pre b post :
  NoDup (locs (pre ++ b :: post)) -> event ∈ blocs b ->
  order (pre ++ unbin event b ++ post) = spec_remove event (order (pre ++ b :: post)).
Proof.
  rewrite locs_app, locs_cons. intros Hn Hin.
  apply NoDup_app in Hn as (_ & Hd1 & Hn). apply NoDup_app in Hn as (_ & Hd2 & _).
  rewrite (cons_middle b pre post), !order_app, order_unbin, !spec_remove_app. f_equal; [|f_equal].
  - symmetry. apply spec_remove_notin. intros H. apply (Hd1 _ H). apply elem_of_app. by left.
  - symmetry. apply spec_remove_notin. by apply Hd2.
Qed.

Lemma bkey_unbin event b : bkey <$> unbin event b = [] \/ bkey <$> unbin event b = [bkey b].
Proof. unfold unbin. destruct (filter _ _); [by left|by right]. Qed.

(** Taking an event out of the bins, given the pointers. *)
Lemma bins_take h h' p p' pre b post event :
  bins h p (pre ++ b :: post) -> event ∈ blocs b -> links_only h h' ->
  bseg h' p' (pre ++ unbin event b ++ post) None ->
  bins h' p' (pre ++ unbin event b ++ post) /\
  order (pre ++ unbin event b ++ post) = spec_remove event (order (pre ++ b :: post)).
Proof.
  intros [Hs Hk Hn Ho] Hin Hl Hs'.
  pose proof (order_unbin_app _ _ _ _ Hn Hin) as E. split; [|done].
  pose proof (spec_remove_sublist event (order (pre ++ b :: post))) as Hsub.
  constructor; [done| | |].
  - rewrite E. eapply links_only_keys; [done|].
    apply Forall_forall. intros x Hx. apply (proj1 (Forall_forall _ _) Hk). by eapply elem_of_sublist.
  - unfold locs. rewrite E. eapply sublist_NoDup; [exact Hn|]. by apply fmap_sublist.
  - rewrite !fmap_app in *. rewrite fmap_cons in Ho.
    destruct (bkey_unbin event b) as [-> | ->]; [|done].
    apply StronglySorted_app in Ho as (Hx & Ho1 & Ho2). apply StronglySorted_inv in Ho2 as [Ho2 _].
    apply StronglySorted_app_2; [|done..]. intros x1 x2 H1 H2. apply Hx; [done|by right].
Qed.

(** The bin of an event is the one with its key. *)
Lemma bins_key_bin h p b bs event e :
  bins h p (b :: bs) -> event ∈ locs (b :: bs) -> h !! event = Some e ->
  event ∈ blocs b /\ evkey e = bkey b \/ event ∈ locs bs /\ klt (bkey b) (evkey e).
Proof.
  intros [_ Hk _ Ho] Hin He. apply list_elem_of_fmap in Hin as (x & -> & Hx).
  pose proof (proj1 (Forall_forall _ _) Hk x Hx) as Hkx. cbn in Hkx. rewrite He in Hkx.
  injection Hkx as Hkx. rewrite order_cons in Hx. apply elem_of_app in Hx as [Hx|Hx].
  - left. apply list_elem_of_fmap in Hx as (a & -> & Ha). done.
  - right. split; [by apply list_elem_of_fmap_2|].
    apply StronglySorted_inv in Ho as [_ Ho]. apply order_key in Hx as (b' & Hb' & E & _).
    rewrite Hkx, E. apply (proj1 (Forall_forall _ _) Ho). by apply list_elem_of_fmap_2.
Qed.

(** The bin in front of which the loop stops holds the event, if any bin does. *)
Lemma find_bin_hit h p b bs event e e0 :
  bins h p (b :: bs) -> h !! btop b = Some e0 -> h !! event = Some e ->
  klt (bkey b) (evkey e) ->
  exists pre bl post, b :: bs = (pre ++ [bl]) ++ post /\
    find_bin (list_fuel h) h e (btop b) (nextBin e0) = Ok (btop bl, bptr post) /\
    (event ∈ locs (b :: bs) <-> event ∈ locs post) /\
    (forall b' post', post = b' :: post' ->
       (event ∈ locs post -> bkey b' = evkey e /\ event ∈ blocs b') /\
       (event ∉ locs post -> event ∉ blocs b')).
Proof.
  intros Hb He0 He Hlt. pose proof (bins_length _ _ _ Hb) as Hlen. cbn in Hlen.
  destruct (find_bin_spec (list_fuel h) h _ e b e0 bs Hb He0 Hlt)
    as (pre & bl & post & E & Hf & Hpre & Hge); [unfold list_fuel; lia|].
  exists pre, bl, post. rewrite E in *. rewrite cons_middle, app_assoc in Hb |- *.
  split; [done|]. split; [done|].
  assert (event ∉ locs (pre ++ [bl])) as Hnot.
  { intros (x & -> & Hx)%list_elem_of_fmap.
    assert (evkey e = x.1) as Ek.
    { destruct Hb as [_ Hk _ _]. rewrite order_app in Hk. apply Forall_app in Hk as [Hk _].
      apply (proj1 (Forall_forall _ _) Hk) in Hx. rewrite He in Hx. by injection Hx. }
    apply order_key in Hx as (b' & Hb' & Ex & _).
    apply (proj1 (Forall_forall _ _) Hpre) in Hb'. rewrite Ek, Ex in Hb'.
    by apply klt_irrefl in Hb'. }
  split; [rewrite locs_app, elem_of_app; tauto|]. intros b' post' ->.
  apply bins_app_r in Hb. split.
  - intros Hin. destruct (bins_key_bin _ _ _ _ _ _ Hb Hin He) as [[H1 H2]|[H1 H2]]; [done|].
    pose proof (Hge b' post' eq_refl) as H3. exfalso. by apply not_klt_kle in H3.
  - intros Hin H. apply Hin. rewrite locs_cons. apply elem_of_app. by left.
Qed.

(** Removal from a bin that is not the first. *)
Lemma remove_behind h p pre bl b post event :
  bins h p ((pre ++ [bl]) ++ b :: post) -> event ∈ blocs b ->
  exists h' bs', ('(h, t) ← removeItem h event (btop b);
              pe ← deref (h !! btop bl);
              Ok (<[btop bl := pe <| nextBin := t |>]> h, p)) = Ok (h', p) /\
    bins h' p bs' /\ order bs' = spec_remove event (order ((pre ++ [bl]) ++ b :: post)) /\
    links_only h h'.
Proof.
  intros Hb Hin. pose proof (bins_app_r _ _ _ _ Hb) as Hpost.
  destruct (removeItem_spec _ _ _ _ _ Hpost Hin) as (h' & -> & Hs & Hl & Hfr).
  cbn [mbind res_bind]. pose proof Hb as [Hsb _ Hn _]. apply bseg_app in Hsb as (m & Hs1 & _).
  rewrite locs_app in Hn. pose proof Hn as (_ & Hd & Hn2)%NoDup_app.
  assert (bseg h' p (pre ++ [bl]) m) as Hs1'.
  { eapply bseg_frame; [|done]. intros a Ha. apply Hfr. intros Ha'. apply (Hd a Ha).
    rewrite locs_cons. apply elem_of_app. by left. }
  assert (bl ∈ (pre ++ [bl]) ++ b :: post) as Hbl.
  { apply elem_of_app. left. apply elem_of_app. right. left. }
  destruct (bins_lookup _ _ _ bl Hb Hbl) as (el & Hel & _).
  destruct (links_only_lookup _ _ _ _ Hl Hel) as (el' & Hel' & _).
  rewrite Hel'. cbn [deref mbind res_bind].
  pose proof (transitivity Hl (links_only_insert h' (btop bl) el'
    (el' <| nextBin := bptr (unbin event b ++ post) |>) Hel' eq_refl)) as Hl'.
  destruct (bins_take _ _ _ p (pre ++ [bl]) b post event Hb Hin Hl') as [Hb' Ho'].
  - eapply bseg_splice; [exact Hs1'| |done|done].
    pose proof (order_unbin_app event [] b post Hn2 Hin) as Eo. cbn [app] in Eo.
    unfold locs at 2. rewrite Eo. eapply sublist_NoDup; [exact Hn|]. apply sublist_app; [done|].
    apply fmap_sublist, spec_remove_sublist.
  - eexists _, _. split; [reflexivity|]. split; [exact Hb'|]. by split.
Qed.

Lemma eq_remove_spec this h p bs event e :
  bins h p bs -> h !! event = Some e -> queue e = Some this -> event ∈ locs bs ->
  exists h' p' bs', eq_remove this h p event = Ok (h', p') /\ bins h' p' bs' /\
    order bs' = spec_remove event (order bs) /\ links_only h h'.
Proof.
  intros Hb He Hq Hin. destruct bs as [|b bs]; [by apply elem_of_nil in Hin|].
  destruct (bins_top _ _ _ _ Hb) as (-> & e0 & He0 & Hk0 & _).
  unfold eq_remove. rewrite He. cbn [deref mbind res_bind].
  rewrite bool_decide_eq_true_2 by done. cbn [assert_ mbind res_bind].
  rewrite He0. cbn [deref mbind res_bind]. rewrite ev_eq_spec, Hk0.
  destruct (bins_key_bin _ _ _ _ _ _ Hb Hin He) as [[Hin0 Ek]|[Hin0 Hlt]].
  - rewrite bool_decide_eq_true_2 by done.
    destruct (removeItem_spec _ _ _ _ _ Hb Hin0) as (h' & -> & Hs & Hl & _).
    destruct (bins_take h h' _ _ [] b bs event Hb Hin0 Hl Hs) as [Hb' Ho].
    eexists _, _, _. split; [reflexivity|]. eauto.
  - rewrite bool_decide_eq_false_2 by (intros E; rewrite E in Hlt; by apply klt_irrefl in Hlt).
    destruct (find_bin_hit _ _ _ _ _ _ _ Hb He0 He Hlt) as (pre & bl & post & E & -> & Hiff & Hp).
    cbn [mbind res_bind]. apply Hiff in Hin. rewrite E in *. clear E Hiff.
    destruct post as [|b' post]; [by apply elem_of_nil in Hin|].
    destruct (Hp b' post eq_refl) as [Hp' _]. destruct (Hp' Hin) as [Ek Hin'].
    pose proof (bins_app_r _ _ _ _ Hb) as Hpost.
    destruct (bins_top _ _ _ _ Hpost) as (-> & e1 & He1 & Hk1 & _). rewrite He1.
    cbn [deref mbind res_bind]. rewrite ev_eq_spec, Hk1, bool_decide_eq_true_2 by done.
    cbn [negb]. destruct (remove_behind _ _ _ _ _ _ _ Hb Hin') as (h' & bs' & -> & H). eauto.
Qed.

(** An event that is on no bin is not found. *)
Lemma eq_remove_missing this h p bs event e :
  bins h p bs -> h !! event = Some e -> queue e = Some this -> event ∉ locs bs ->
  eq_remove this h p event = Err Panic.
Proof.
  intros Hb He Hq Hin. destruct bs as [|b bs].
  { destruct Hb as [Hs _ _ _]. cbn in Hs. by subst. }
  destruct (bins_top _ _ _ _ Hb) as (-> & e0 & He0 & Hk0 & _).
  assert (forall q b' post, bins h q (b' :: post) -> event ∉ blocs b' ->
    removeItem h event (btop b') = Err Panic) as Hmiss.
  { intros q b' post Hb' Hn. destruct (bins_top _ _ _ _ Hb') as (_ & e1 & He1 & _ & Hs1).
    unfold removeItem. rewrite He1. cbn [deref mbind res_bind].
    rewrite bool_decide_eq_false_2 by set_solver.
    rewrite (find_in_bin_missing _ _ _ _ _ _ Hs1); [done|set_solver|by eapply seg_length_fuel]. }
  unfold eq_remove. rewrite He. cbn [deref mbind res_bind].
  rewrite bool_decide_eq_true_2 by done. cbn [assert_ mbind res_bind].
  rewrite He0. cbn [deref mbind res_bind]. rewrite ev_eq_spec, Hk0.
  case_bool_decide as Ek; [eapply Hmiss; [exact Hb|]; rewrite locs_cons in Hin; (rewrite elem_of_app in Hin; tauto)|].
  destruct (decide (klt (bkey b) (evkey e))) as [Hlt|Hge].
  - destruct (find_bin_hit _ _ _ _ _ _ _ Hb He0 He Hlt) as (pre & bl & post & E & -> & Hiff & Hp).
    cbn [mbind res_bind]. rewrite E in *. destruct post as [|b' post]; [done|].
    pose proof (bins_app_r _ _ _ _ Hb) as Hpost.
    destruct (bins_top _ _ _ _ Hpost) as (-> & e1 & He1 & Hk1 & _). rewrite He1.
    cbn [deref mbind res_bind]. destruct (negb _); [done|].
    rewrite (Hmiss _ _ _ Hpost); [done|]. apply (Hp b' post eq_refl). by rewrite <- Hiff.
  - apply not_klt_kle in Hge. pose proof (bins_tail _ _ _ _ _ Hb He0) as Ht.
    unfold list_fuel. cbn [find_bin]. destruct bs as [|b1 bs].
    { destruct Ht as [Hs _ _ _]. cbn in Hs. by rewrite Hs. }
    destruct (bins_top _ _ _ _ Ht) as (-> & e1 & He1 & Hk1 & _). rewrite He1.
    cbn [deref mbind res_bind].
    assert (klt (evkey e) (bkey b1)) as Hlt.
    { apply bins_sorted, StronglySorted_inv, proj2, Forall_cons, proj1 in Hb. key_solve. }
    rewrite ev_lt_spec, bool_decide_eq_false_2 by (rewrite Hk1; clear -Hlt; key_solve).
    cbn [mbind res_bind]. rewrite He1. cbn [deref mbind res_bind].
    rewrite ev_eq_spec, bool_decide_eq_false_2; [done|]. rewrite Hk1. intros E.
    rewrite E in Hlt. by apply klt_irrefl in Hlt.
Qed.

End EQ.
