(* ===== verification/EventQueue.v ===== *)
(** The event queue as a whole: the invariant of [EventQueue], what [schedule],
    [deschedule], [reschedule] and [serviceOne] do to the order of events, and
    the simulation loop over handlers that are known only by the interface
    [Handler].  The model and the lemmas on bins are in EventQ. *)
From S2P Require Import Prelude.
From S2P Require Import PtrList.
From S2P Require Import Flags.
From S2P Require Import EventQ.

Module Queue.
Import EQ.

(** ** The queue *)

(** The invariant: the bins, no event in the past, and the events that say they
    are scheduled on this queue are those on the bins or on the list of
    asynchronous insertions, each once. *)
Record queue_ok (q : EventQueue) (bs : list bin) : Prop := mk_queue_ok {
  ok_bins : bins (evs q) (head q) bs;
  ok_time : Forall (fun x => _curTick q <= x.1.1) (order bs);
  ok_nodup : NoDup (locs bs ++ async_queue q);
  ok_dom : forall a, a ∈ locs bs ++ async_queue q -> is_Some (evs q !! a);
  ok_sched : forall a e, evs q !! a = Some e ->
    (scheduled e = true /\ queue e = Some (this q)) <-> a ∈ locs bs ++ async_queue q
}.

(** Nothing but the store and the head changed. *)
Definition same_env (q q' : EventQueue) : Prop :=
  _curTick q' = _curTick q /\ async_queue q' = async_queue q /\ this q' = this q /\
  inParallelMode q' = inParallelMode q /\ curEventQueue q' = curEventQueue q.

#[export] Instance same_env_equiv : Equivalence same_env.
Proof.
  unfold same_env. split; [by intros ?|intros ??(?&?&?&?&?)|intros ???(?&?&?&?&?)(?&?&?&?&?)];
    split_and!; congruence.
Qed.

(** What an event is worth to its owner: the tick it will be serviced at. *)
Definition pending (q : EventQueue) (a : loc) : option Z :=
  match evs q !! a with
  | Some e => if scheduled e then Some (_when e) else None
  | None => None
  end.

(** A write that keeps the links and the key keeps the bins. *)
Lemma bins_update h p bs a e e' :
  bins h p bs -> h !! a = Some e -> nextBin e' = nextBin e -> nextInBin e' = nextInBin e ->
  evkey e' = evkey e -> bins (<[a := e']> h) p bs.
Proof.
  intros [Hs Hk Hn Ho] He H1 H2 H3. constructor; [by eapply bseg_insert_same| |done|done].
  eapply Forall_impl; [exact Hk|]. cbn. intros x Hx.
  destruct (decide (x.2 = a)) as [E|]; [|by rewrite lookup_insert_ne].
  rewrite E, lookup_insert_eq in *. rewrite He in Hx. cbn in *. by rewrite H3.
Qed.

(** A write to an event that is not on the bins keeps them. *)
Lemma bins_update_off h p bs a e :
  bins h p bs -> a ∉ locs bs -> bins (<[a := e]> h) p bs.
Proof.
  intros [Hs Hk Hn Ho] Ha. constructor; [by eapply bseg_insert_ne| |done|done].
  apply Forall_forall. intros x Hx. rewrite lookup_insert_ne.
  - by apply (proj1 (Forall_forall _ _) Hk).
  - intros ->. by apply Ha, list_elem_of_fmap_2.
Qed.

Lemma bins_delete_off h p bs a :
  bins h p bs -> a ∉ locs bs -> bins (delete a h) p bs.
Proof.
  intros [Hs Hk Hn Ho] Ha. constructor; [| |done|done].
  - eapply bseg_frame; [|done]. intros b Hb. by rewrite lookup_delete_ne by (intros ->; done).
  - apply Forall_forall. intros x Hx. rewrite lookup_delete_ne.
    + by apply (proj1 (Forall_forall _ _) Hk).
    + intros ->. by apply Ha, list_elem_of_fmap_2.
Qed.

Lemma unlink_eq e e' : unlink e' = unlink e ->
  _when e' = _when e /\ _priority e' = _priority e /\ flags e' = flags e /\ queue e' = queue e.
Proof. unfold unlink. cbn. by intros [= -> -> -> ->]. Qed.

Lemma links_only_inv h h' a e' : links_only h h' -> h' !! a = Some e' ->
  exists e, h !! a = Some e /\ unlink e' = unlink e.
Proof.
  intros Hl He. symmetry in Hl. destruct (links_only_lookup _ _ _ _ Hl He) as (e & H1 & H2). eauto.
Qed.

Lemma scheduled_set e : scheduled (e <| flags := fl_set (flags e) Scheduled |>) = true.
Proof. unfold scheduled. cbn. by apply fl_isSet_set. Qed.

Lemma spec_insert_locs x l : (spec_insert x l).*2 ≡ₚ x.2 :: l.*2.
Proof. by rewrite spec_insert_perm. Qed.

(** The events other than [event] keep everything but their links. *)
Definition others_same (event : loc) (h h' : heap) : Prop :=
  forall a, a <> event -> unlink <$> h' !! a = unlink <$> h !! a.

Lemma others_sched event h h' a e' : others_same event h h' -> a <> event ->
  h' !! a = Some e' -> exists e, h !! a = Some e /\ scheduled e' = scheduled e /\
    queue e' = queue e /\ _when e' = _when e.
Proof.
  intros Ho Ha He. specialize (Ho a Ha). rewrite He in Ho. symmetry in Ho.
  apply fmap_Some in Ho as (e & He0 & Hu). exists e. split; [done|].
  apply unlink_eq in Hu as (? & _ & Hf & ?). unfold scheduled. by rewrite Hf.
Qed.

Lemma others_links event h h' : links_only h h' -> others_same event h h'.
Proof.
  intros Hl a _. apply (f_equal (fun m => m !! a)) in Hl. by rewrite !lookup_fmap in Hl.
Qed.

Lemma others_insert event h e : others_same event h (<[event := e]> h).
Proof. intros a Ha. by rewrite lookup_insert_ne. Qed.

Lemma others_delete event h : others_same event h (delete event h).
Proof. intros a Ha. by rewrite lookup_delete_ne. Qed.

#[export] Instance others_preorder event : PreOrder (others_same event).
Proof. split; [by intros ???|]. intros h1 h2 h3 H1 H2 a Ha. by rewrite H2, H1. Qed.

Lemma others_dom event h h' a : others_same event h h' -> a <> event ->
  is_Some (h !! a) -> is_Some (h' !! a).
Proof.
  intros Ho Ha [e He]. specialize (Ho a Ha). rewrite He in Ho. by destruct (h' !! a).
Qed.

Lemma queue_ok_placed q q' bs bs' event k e' :
  queue_ok q bs -> event ∉ locs bs ++ async_queue q ->
  bins (evs q') (head q') bs' -> order bs' = spec_insert (k, event) (order bs) ->
  _curTick q <= k.1 -> same_env q q' -> others_same event (evs q) (evs q') ->
  evs q' !! event = Some e' -> scheduled e' = true -> queue e' = Some (this q) ->
  queue_ok q' bs'.
Proof.
  intros [_ Ht Hn Hd Hs] Hin Hb Ho Hk (Ec & Ea & Eth & _) Hoth He' Hse Hqu.
  assert (locs bs' ++ async_queue q' ≡ₚ event :: locs bs ++ async_queue q) as Hp.
  { unfold locs. rewrite Ho, spec_insert_locs, Ea. done. }
  constructor; [done| | | |].
  - rewrite Ho, spec_insert_perm, Ec. by constructor.
  - rewrite Hp. by constructor.
  - intros a. rewrite Hp, elem_of_cons. intros [->|Ha]; [by rewrite He'|].
    destruct (decide (a = event)) as [->|Hne]; [done|]. by eapply others_dom; [..|apply Hd].
  - intros a e. rewrite Hp, elem_of_cons, Eth. intros He.
    destruct (decide (a = event)) as [->|Hne].
    + rewrite He' in He. injection He as <-. tauto.
    + destruct (others_sched _ _ _ _ _ Hoth Hne He) as (e0 & He0 & -> & -> & _).
      rewrite (Hs _ _ He0). tauto.
Qed.

Lemma queue_ok_taken q q' bs bs' event :
  queue_ok q bs -> event ∈ locs bs ->
  bins (evs q') (head q') bs' -> order bs' = spec_remove event (order bs) ->
  _curTick q' = _curTick q -> async_queue q' = async_queue q -> this q' = this q ->
  others_same event (evs q) (evs q') ->
  (forall e', evs q' !! event = Some e' -> scheduled e' = false) ->
  queue_ok q' bs'.
Proof.
  intros [_ Ht Hn Hd Hs] Hin Hb Ho Ec Ea Eth Hoth Hev.
  assert (forall a, a ∈ locs bs' <-> a ∈ locs bs /\ a <> event) as Hl.
  { intros a. unfold locs. rewrite Ho. unfold spec_remove. rewrite !list_elem_of_fmap. split.
    - intros (x & -> & [Hx1 Hx2]%list_elem_of_filter). eauto.
    - intros ((x & -> & Hx) & Hne). exists x. split; [done|]. by apply list_elem_of_filter. }
  pose proof (spec_remove_sublist event (order bs)) as Hsub. rewrite <- Ho in Hsub.
  constructor; [done| | | |].
  - rewrite Ec. apply Forall_forall. intros x Hx. apply (proj1 (Forall_forall _ _) Ht).
    by eapply elem_of_sublist.
  - rewrite Ea. eapply sublist_NoDup; [exact Hn|]. apply sublist_app; [|done].
    by apply fmap_sublist.
  - intros a. rewrite Ea, elem_of_app, Hl. intros Ha. assert (a <> event) as Hne.
    { destruct Ha as [[_ Ha]|Ha]; [done|]. intros ->. apply NoDup_app in Hn as (_ & Hx & _). by apply (Hx event). }
    eapply others_dom; [done..|]. apply Hd, elem_of_app. tauto.
  - intros a e He. rewrite Ea, Eth, elem_of_app, Hl.
    destruct (decide (a = event)) as [->|Hne].
    + rewrite (Hev _ He). split; [intros [? _]; done|]. intros [[_ ?]|Ha]; [done|].
      apply NoDup_app in Hn as (_ & Hx & _). by destruct (Hx event).
    + destruct (others_sched _ _ _ _ _ Hoth Hne He) as (e0 & He0 & -> & -> & _).
      rewrite (Hs _ _ He0), elem_of_app. tauto.
Qed.

Lemma q_insert_ok q bs event e :
  bins (evs q) (head q) bs -> evs q !! event = Some e -> event ∉ locs bs ->
  exists q' bs' e', q_insert event q = Ok q' /\ bins (evs q') (head q') bs' /\
    order bs' = spec_insert (evkey e, event) (order bs) /\
    links_only (evs q) (evs q') /\ same_env q q' /\
    evs q' !! event = Some e' /\ unlink e' = unlink e.
Proof.
  intros Hb He Hin. unfold q_insert.
  destruct (eq_insert_spec _ _ _ _ _ Hb He Hin) as (h' & p' & bs' & -> & Hb' & Ho & Hl).
  destruct (links_only_lookup _ _ _ _ Hl He) as (e' & He' & Hu). cbn [mbind res_bind].
  eexists _, bs', e'. split; [reflexivity|]. by cbn.
Qed.

Lemma q_remove_ok q bs event e :
  bins (evs q) (head q) bs -> evs q !! event = Some e -> queue e = Some (this q) ->
  event ∈ locs bs ->
  exists q' bs' e', q_remove event q = Ok q' /\ bins (evs q') (head q') bs' /\
    order bs' = spec_remove event (order bs) /\
    links_only (evs q) (evs q') /\ same_env q q' /\
    evs q' !! event = Some e' /\ unlink e' = unlink e.
Proof.
  intros Hb He Hq Hin. unfold q_remove.
  destruct (eq_remove_spec _ _ _ _ _ _ Hb He Hq Hin) as (h' & p' & bs' & -> & Hb' & Ho & Hl).
  destruct (links_only_lookup _ _ _ _ Hl He) as (e' & He' & Hu). cbn [mbind res_bind].
  eexists _, bs', e'. split; [reflexivity|]. by cbn.
Qed.

(** The second half of [schedule] and [reschedule]: the event gets its tick, is
    inserted and marked.  [qa] is a queue that is well formed and differs from
    the present one in the event only. *)
Lemma place_ok qa q bs event e when f :
  queue_ok qa bs -> same_env qa q -> bins (evs q) (head q) bs ->
  others_same event (evs qa) (evs q) ->
  evs q !! event = Some e -> event ∉ locs bs ++ async_queue q -> _curTick q <= when ->
  fl_isSet (f (flags e)) Scheduled = true ->
  exists q1 q' bs' e',
    q_insert event (q <| evs := <[event := setWhen when (this q) e]> (evs q) |>) = Ok q1 /\
    (h ← on_flags f event (evs q1); Ok (q1 <| evs := h |>)) = Ok q' /\
    queue_ok q' bs' /\ order bs' = spec_insert ((when, _priority e), event) (order bs) /\
    same_env q q' /\ others_same event (evs q) (evs q') /\
    evs q' !! event = Some e' /\ _when e' = when /\ scheduled e' = true.
Proof.
  intros Hq Hqa Hb0 Hoa He Hin Hw Hf.
  pose proof Hin as Hin'. apply not_elem_of_app in Hin' as [Hin1 Hin2].
  set (q0 := q <| evs := <[event := setWhen when (this q) e]> (evs q) |>).
  assert (evs q0 !! event = Some (setWhen when (this q) e)) as He0 by apply lookup_insert_eq.
  destruct (q_insert_ok q0 bs event _ (bins_update_off _ _ _ _ _ Hb0 Hin1) He0 Hin1)
    as (q1 & bs' & e1 & -> & Hb & Ho & Hl & Hs & He1 & Hu).
  apply unlink_eq in Hu as (E1 & E2 & E3 & E4). cbn in E1, E2, E3, E4.
  exists q1, (q1 <| evs := <[event := e1 <| flags := f (flags e1) |>]> (evs q1) |>), bs',
    (e1 <| flags := f (flags e1) |>).
  assert (same_env q q1) as Hs1 by done.
  assert (others_same event (evs q) (<[event:=e1<|flags:=f (flags e1)|>]> (evs q1))) as Hoth.
  { etransitivity; [apply (others_insert event _ (setWhen when (this q) e))|].
    etransitivity; [by apply others_links|]. apply others_insert. }
  unfold on_flags. rewrite He1. cbn [deref mbind res_bind].
  pose proof Hqa as (Ec & Ea & Et & _).
  split; [done|]. split; [done|]. split; [|split; [done|]].
  - eapply (queue_ok_placed qa _ bs bs' event (when, _priority e));
      [done|by rewrite <- Ea| |done|by rewrite <- Ec|by etransitivity|by etransitivity|..].
    + cbn. by eapply bins_update.
    + cbn. apply lookup_insert_eq.
    + unfold scheduled. cbn. by rewrite E3.
    + cbn. by rewrite E4, Et.
  - split_and!; [done|done|apply lookup_insert_eq|done|]. unfold scheduled. cbn. by rewrite E3.
Qed.

Lemma fl_scheduled f : fl_isSet (fl_set f Scheduled) Scheduled = true.
Proof. by apply fl_isSet_set. Qed.

(** [schedule] on the queue of the running thread. *)
Lemma schedule_ok q bs event e when global :
  queue_ok q bs -> evs q !! event = Some e -> event ∉ locs bs ++ async_queue q ->
  scheduled e = false -> initialized e = true -> _curTick q <= when ->
  inParallelMode q && (negb (this q =? curEventQueue q) || global) = false ->
  exists q' bs' e', eq_schedule event when global q = Ok q' /\ queue_ok q' bs' /\
    order bs' = spec_insert ((when, _priority e), event) (order bs) /\
    same_env q q' /\ others_same event (evs q) (evs q') /\
    evs q' !! event = Some e' /\ _when e' = when /\ scheduled e' = true.
Proof.
  intros Hq He Hin Hsc Hi Hw Hm. unfold eq_schedule.
  rewrite (proj2 (Z.leb_le _ _) Hw), He. cbn [assert_ deref mbind res_bind].
  rewrite Hsc, Hi. cbn [negb assert_ mbind res_bind].
  destruct (place_ok q q bs event e when (fun f => fl_set f Scheduled)) as
    (q1 & q' & bs' & e' & H1 & H2 & H3); [done|done|apply Hq|done..|apply fl_scheduled|].
  set (q0 := q <| evs := _ |>) in *.
  change (inParallelMode q0 && (negb (this q0 =? curEventQueue q0) || global) = false) in Hm.
  rewrite Hm, H1. cbn [mbind res_bind]. rewrite H2. eauto 10.
Qed.

(** The first half of [deschedule] and [reschedule]: an event on the bins leaves
    them, and once its flag is cleared the queue is well formed again. *)
Lemma unplace_ok q bs event e f :
  queue_ok q bs -> evs q !! event = Some e -> queue e = Some (this q) -> event ∈ locs bs ->
  fl_isSet (f (flags e)) Scheduled = false ->
  exists q1 bs' e1, q_remove event q = Ok q1 /\ bins (evs q1) (head q1) bs' /\
    evs q1 !! event = Some e1 /\ unlink e1 = unlink e /\
    queue_ok (q1 <| evs := <[event := e1 <| flags := f (flags e1) |>]> (evs q1) |>) bs' /\
    order bs' = spec_remove event (order bs) /\ same_env q q1 /\
    others_same event (evs q) (evs q1) /\ event ∉ locs bs' ++ async_queue q1.
Proof.
  intros Hq He Hqu Hin Hf.
  destruct (q_remove_ok q bs event e (ok_bins _ _ Hq) He Hqu Hin)
    as (q1 & bs' & e1 & -> & Hb & Ho & Hl & Hs & He1 & Hu).
  exists q1, bs', e1. pose proof Hs as (Ec & Ea & Et & _).
  pose proof (others_links event _ _ Hl) as Hoth.
  pose proof (unlink_eq _ _ Hu) as (_ & _ & E3 & _).
  split_and!; try done.
  - eapply (queue_ok_taken q _ bs bs' event); [done|done| |done..| |].
    + cbn. by eapply bins_update.
    + cbn. etransitivity; [done|]. apply others_insert.
    + cbn. intros e'. rewrite lookup_insert_eq. intros [= <-]. unfold scheduled. cbn.
      by rewrite E3.
  - rewrite Ea. apply not_elem_of_app. split.
    + unfold locs. rewrite Ho. intros (x & Ex & Hx%list_elem_of_filter)%list_elem_of_fmap.
      destruct Hx as [Hx _]. by apply Hx.
    + pose proof (ok_nodup _ _ Hq) as Hn. apply NoDup_app in Hn as (_ & Hd & _). by apply Hd.
Qed.

Lemma fl_unscheduled f : fl_isSet (fl_clear (fl_clear f Squashed) Scheduled) Scheduled = false.
Proof. apply fl_isSet_clear. Qed.

Lemma on_bins_sched q bs event e : queue_ok q bs -> event ∈ locs bs ->
  evs q !! event = Some e -> scheduled e = true /\ queue e = Some (this q).
Proof. intros Hq Hin He. apply (ok_sched _ _ Hq _ _ He), elem_of_app. by left. Qed.

Lemma deschedule_ok q bs event e :
  queue_ok q bs -> evs q !! event = Some e -> event ∈ locs bs -> initialized e = true ->
  negb (inParallelMode q) || (this q =? curEventQueue q) = true ->
  exists q' bs', eq_deschedule event q = Ok q' /\ queue_ok q' bs' /\
    order bs' = spec_remove event (order bs) /\ same_env q q' /\
    others_same event (evs q) (evs q') /\ pending q' event = None.
Proof.
  intros Hq He Hin Hi Hm. destruct (on_bins_sched _ _ _ _ Hq Hin He) as [Hsc Hqu].
  destruct (unplace_ok q bs event e (fun f => fl_clear (fl_clear f Squashed) Scheduled) Hq He
    Hqu Hin (fl_unscheduled _)) as (q1 & bs' & e1 & Hr & Hb & He1 & Hu & Hq' & Ho & Hs & Hoth & Hn).
  unfold eq_deschedule. rewrite He. cbn [deref mbind res_bind].
  rewrite Hsc, Hi, Hm. cbn [assert_ mbind res_bind]. rewrite Hr. cbn [mbind res_bind].
  unfold on_flags. rewrite He1. cbn [deref mbind res_bind]. rewrite lookup_insert_eq.
  cbn [deref mbind res_bind] in *.
  set (e2 := e1 <| flags := fl_clear (fl_clear (flags e1) Squashed) Scheduled |>) in *.
  assert (scheduled e2 = false) as Hs2 by apply fl_unscheduled.
  set (q2 := q1 <| evs := <[event:=e2]> (evs q1) |>) in *.
  assert (others_same event (evs q) (<[event:=e2]> (evs q1))) as Hoth2.
  { etransitivity; [done|]. apply others_insert. }
  case_if; cbn [mbind res_bind].
  - unfold delete_event. rewrite lookup_insert_eq. cbn [deref mbind res_bind]. rewrite Hs2.
    cbn [negb assert_ mbind res_bind]. eexists _, bs'. split; [reflexivity|].
    assert (event ∉ locs bs') as Hnb by (by apply not_elem_of_app in Hn as [??]).
    split; [|split_and!; [done|done| |]].
    + eapply (queue_ok_taken q); [done|done| |done| | | | |]; cbn; [|apply Hs..| |].
      * apply bins_delete_off; [|done]. apply Hq'.
      * etransitivity; [done|]. apply others_delete.
      * by rewrite lookup_delete_eq.
    + cbn. etransitivity; [done|]. apply others_delete.
    + unfold pending. cbn. by rewrite lookup_delete_eq.
  - eexists _, bs'. split; [reflexivity|]. split_and!; [done|done|done|done|].
    unfold pending. change (evs _) with (<[event:=e2]> (evs q1)).
    by rewrite lookup_insert_eq, Hs2.
Qed.

(** [reschedule], on an event that is scheduled or not. *)
Lemma reschedule_ok q bs event e when always :
  queue_ok q bs -> evs q !! event = Some e -> initialized e = true -> _curTick q <= when ->
  (event ∈ locs bs \/ always = true /\ scheduled e = false) ->
  negb (inParallelMode q) || (this q =? curEventQueue q) = true ->
  exists q' bs' e', eq_reschedule event when always q = Ok q' /\ queue_ok q' bs' /\
    order bs' = spec_insert ((when, _priority e), event) (spec_remove event (order bs)) /\
    same_env q q' /\ others_same event (evs q) (evs q') /\
    evs q' !! event = Some e' /\ _when e' = when /\ scheduled e' = true.
Proof.
  intros Hq He Hi Hw Hor Hm. unfold eq_reschedule.
  rewrite (proj2 (Z.leb_le _ _) Hw), He. cbn [assert_ deref mbind res_bind].
  rewrite Hi, Hm. destruct Hor as [Hin|[-> Hsc]].
  - destruct (on_bins_sched _ _ _ _ Hq Hin He) as [Hsc Hqu]. rewrite Hsc, orb_true_r.
    cbn [assert_ mbind res_bind].
    destruct (unplace_ok q bs event e (fun f => fl_clear (fl_clear f Squashed) Scheduled) Hq He
      Hqu Hin (fl_unscheduled _)) as (q1 & bs1 & e1 & -> & Hb & He1 & Hu & Hq1 & Ho & Hs & Hoth & Hn).
    cbn [mbind res_bind]. rewrite He1. cbn [deref mbind res_bind].
    pose proof (unlink_eq _ _ Hu) as (_ & Ep & _ & _). pose proof Hs as (Ec & _).
    destruct (place_ok _ q1 bs1 event e1 when (fun f => fl_set (fl_clear f Squashed) Scheduled)
      Hq1) as (q2 & q' & bs' & e' & H1 & H2 & H3 & H4 & H5 & H6 & H7);
      [done|done| |done|done|by rewrite Ec|apply fl_scheduled|].
    + cbn. intros a Ha. by rewrite lookup_insert_ne.
    + rewrite H1. cbn [mbind res_bind]. rewrite H2. exists q', bs', e'.
      split; [done|]. split; [done|]. rewrite H4, Ho, Ep. split; [done|].
      split_and!; [by etransitivity|by etransitivity|apply H7..].
  - rewrite Hsc. cbn [orb assert_ mbind res_bind]. rewrite He. cbn [deref mbind res_bind].
    assert (event ∉ locs bs ++ async_queue q) as Hn.
    { intros Hin. apply (ok_sched _ _ Hq _ _ He) in Hin as [Hs _]. congruence. }
    destruct (place_ok q q bs event e when (fun f => fl_set (fl_clear f Squashed) Scheduled)
      Hq) as (q1 & q' & bs' & e' & H1 & H2 & H3 & H4 & H5 & H6 & H7);
      [done|apply Hq|done..|apply fl_scheduled|].
    rewrite H1. cbn [mbind res_bind]. rewrite H2. exists q', bs', e'.
    split; [done|]. split; [done|]. rewrite spec_remove_notin; [done|].
    by apply not_elem_of_app in Hn as [??].
Qed.

(** ** Service *)

(** Popping the head is removing the top of the first bin. *)
Lemma pop_head_removeItem q event e :
  head q = Some event -> evs q !! event = Some e ->
  pop_head q =
    ('(h, p) ← removeItem (<[event := e <| flags := fl_clear (flags e) Scheduled |>]> (evs q))
                 event event;
     Ok (event, q <| evs := h |> <| head := p |>)).
Proof.
  intros Hh He. unfold pop_head, on_flags, removeItem. rewrite Hh. cbn [deref mbind res_bind].
  rewrite He. cbn [deref mbind res_bind].
  rewrite lookup_insert_eq. cbn [deref mbind res_bind]. rewrite bool_decide_eq_true_2 by done.
  cbn. destruct (nextInBin e) as [n|]; [|done]. by destruct (_ !! n).
Qed.

(** The first event of the order is taken, and marked as not scheduled. *)
Lemma pop_head_ok q b bs :
  queue_ok q (b :: bs) ->
  exists q' bs' e e', pop_head q = Ok (btop b, q') /\ queue_ok q' bs' /\
    order (b :: bs) = (bkey b, btop b) :: order bs' /\ same_env q q' /\
    others_same (btop b) (evs q) (evs q') /\
    evs q !! btop b = Some e /\ evkey e = bkey b /\
    evs q' !! btop b = Some e' /\ evkey e' = bkey b /\
    flags e' = fl_clear (flags e) Scheduled.
Proof.
  intros Hq. destruct (bins_top _ _ _ _ (ok_bins _ _ Hq)) as (Hh & e & He & Hk & _).
  rewrite (pop_head_removeItem _ _ _ Hh He).
  set (e1 := e <| flags := fl_clear (flags e) Scheduled |>).
  assert (bins (<[btop b := e1]> (evs q)) (head q) (b :: bs)) as Hb1.
  { eapply bins_update; [apply Hq|done..]. }
  destruct (removeItem_top _ _ _ _ Hb1) as (h' & -> & Hs & Hl & Hfr). cbn [mbind res_bind].
  assert (btop b ∈ blocs b) as Hin by left.
  destruct (bins_take _ h' _ _ [] b bs (btop b) Hb1 Hin Hl Hs) as [Hb' Ho].
  destruct (links_only_lookup _ _ (btop b) e1 Hl) as (e' & He' & Hu); [apply lookup_insert_eq|].
  pose proof (unlink_eq _ _ Hu) as (Ew & Ep & Ef & _). cbn in Ew, Ep, Ef.
  assert (others_same (btop b) (evs q) h') as Hoth.
  { etransitivity; [apply (others_insert _ _ e1)|by apply others_links]. }
  eexists _, (unbin (btop b) b ++ bs), e, e'. split; [reflexivity|].
  assert (btop b ∈ locs (b :: bs)) as Hloc by (apply btop_locs; left).
  split_and!; [| |done|done|done|done|done| |done].
  - eapply (queue_ok_taken q); [done|exact Hloc|done|done|done|done|done|done|].
    cbn. rewrite He'. intros ? [= <-]. unfold scheduled. rewrite Ef. apply fl_isSet_clear.
  - pose proof (bins_nodup _ _ _ Hb1) as Hn. cbn [app] in Ho. rewrite Ho, order_cons.
    cbn [blocs fmap list_fmap app]. rewrite spec_remove_hit. f_equal. symmetry.
    apply spec_remove_notin. unfold locs in Hn. rewrite order_cons in Hn.
    by apply NoDup_cons in Hn as [Hn _].
  - rewrite <- Hk. unfold evkey. by rewrite Ew, Ep.
Qed.

(** ** Every operation keeps the invariant *)
Definition q_ok (q : EventQueue) : Prop := exists bs, queue_ok q bs.

Lemma not_scheduled_off q bs a e : queue_ok q bs -> evs q !! a = Some e ->
  scheduled e = false -> a ∉ locs bs ++ async_queue q.
Proof.
  intros Hq He Hs Hin. apply (ok_sched _ _ Hq _ _ He) in Hin as [H _]. congruence.
Qed.

(** An event handed over to the asynchronous list. *)
Lemma queue_ok_async q bs event e e' :
  queue_ok q bs -> evs q !! event = Some e -> scheduled e = false ->
  scheduled e' = true -> queue e' = Some (this q) ->
  queue_ok (q <| async_queue := async_queue q ++ [event] |>
              <| evs := <[event := e']> (evs q) |>) bs.
Proof.
  intros Hq He Hs Hs' Hqu. pose proof (not_scheduled_off _ _ _ _ Hq He Hs) as Hn.
  destruct Hq as [Hb Ht Hnd Hd Hsc].
  assert (locs bs ++ async_queue q ++ [event] ≡ₚ event :: locs bs ++ async_queue q) as Hp.
  { rewrite app_assoc, Permutation_app_comm. done. }
  constructor; cbn.
  - apply bins_update_off; [done|]. by apply not_elem_of_app in Hn as [??].
  - done.
  - rewrite Hp. by constructor.
  - intros a. rewrite Hp. intros [->|Ha]%elem_of_cons; [by rewrite lookup_insert_eq|].
    rewrite lookup_insert_ne by (intros ->; done). by apply Hd.
  - intros a x. rewrite Hp, elem_of_cons. destruct (decide (a = event)) as [->|Hne].
    + rewrite lookup_insert_eq. intros [= <-]. tauto.
    + rewrite lookup_insert_ne by done. intros Hx. rewrite (Hsc _ _ Hx). tauto.
Qed.

(** What a call that returns has checked. *)
Lemma schedule_guards q q' event when global : eq_schedule event when global q = Ok q' ->
  _curTick q <= when /\
  exists e, evs q !! event = Some e /\ scheduled e = false /\ initialized e = true.
Proof.
  unfold eq_schedule. destruct (_curTick q <=? when) eqn:Hw; [|done].
  destruct (evs q !! event) as [e|]; [|done]. cbn [assert_ deref mbind res_bind].
  destruct (scheduled e) eqn:Hs; [done|]. destruct (initialized e) eqn:Hi; [|done].
  intros _. bool_prop. eauto.
Qed.

Lemma deschedule_guards q q' event : eq_deschedule event q = Ok q' ->
  negb (inParallelMode q) || (this q =? curEventQueue q) = true /\
  exists e q1, evs q !! event = Some e /\ scheduled e = true /\ initialized e = true /\
    q_remove event q = Ok q1.
Proof.
  unfold eq_deschedule. destruct (evs q !! event) as [e|]; [|done]. cbn [deref mbind res_bind].
  destruct (scheduled e) eqn:Hs; [|done]. destruct (initialized e) eqn:Hi; [|done].
  cbn [assert_ mbind res_bind]. destruct (negb _ || _); [|done]. cbn [assert_ mbind res_bind].
  destruct (q_remove event q) as [q1|]; [|done]. eauto 10.
Qed.

Lemma reschedule_guards q q' event when always : eq_reschedule event when always q = Ok q' ->
  _curTick q <= when /\ negb (inParallelMode q) || (this q =? curEventQueue q) = true /\
  exists e, evs q !! event = Some e /\ initialized e = true /\
    (scheduled e = true /\ (exists q1, q_remove event q = Ok q1) \/
     always = true /\ scheduled e = false).
Proof.
  unfold eq_reschedule. destruct (_curTick q <=? when) eqn:Hw; [|done].
  destruct (evs q !! event) as [e|]; [|done]. cbn [assert_ deref mbind res_bind].
  destruct (always || scheduled e) eqn:Ho; [|done]. destruct (initialized e) eqn:Hi; [|done].
  cbn [assert_ mbind res_bind]. destruct (negb _ || _); [|done]. cbn [assert_ mbind res_bind].
  intros H. bool_prop. split; [done|]. split; [done|]. exists e. split; [done|]. split; [done|].
  destruct (scheduled e) eqn:Hs; [left|right; by rewrite orb_false_r in Ho].
  destruct (q_remove event q) as [q1|]; [|done]. eauto.
Qed.

(** Only an event on the bins can be removed. *)
Lemma q_remove_on_bins q q1 bs event e : queue_ok q bs -> evs q !! event = Some e ->
  q_remove event q = Ok q1 -> event ∈ locs bs.
Proof.
  intros Hq He. unfold q_remove. destruct (decide (event ∈ locs bs)) as [|Hn]; [done|].
  destruct (decide (queue e = Some (this q))) as [Hqu|Hqu].
  - by rewrite (eq_remove_missing _ _ _ _ _ _ (ok_bins _ _ Hq) He Hqu Hn).
  - unfold eq_remove. destruct (head q); [|done]. rewrite He. cbn [deref mbind res_bind].
    by rewrite bool_decide_eq_false_2.
Qed.

Lemma schedule_async q bs event e when global :
  queue_ok q bs -> evs q !! event = Some e -> scheduled e = false -> initialized e = true ->
  _curTick q <= when ->
  inParallelMode q && (negb (this q =? curEventQueue q) || global) = true ->
  exists q', eq_schedule event when global q = Ok q' /\ queue_ok q' bs /\
    _curTick q' = _curTick q /\ async_queue q' = async_queue q ++ [event].
Proof.
  intros Hq He Hs Hi Hw Hm. unfold eq_schedule.
  rewrite (proj2 (Z.leb_le _ _) Hw), He. cbn [assert_ deref mbind res_bind].
  rewrite Hs, Hi. cbn [negb assert_ mbind res_bind]. set (q0 := q <| evs := _ |>) in *.
  change (inParallelMode q0 && (negb (this q0 =? curEventQueue q0) || global) = true) in Hm.
  rewrite Hm. cbn [mbind res_bind]. unfold on_flags, asyncInsert. cbn.
  rewrite lookup_insert_eq. cbn. eexists. split; [reflexivity|]. rewrite insert_insert_eq.
  split; [|done]. eapply (queue_ok_async q bs event e); [done|done|done|apply fl_scheduled|done].
Qed.

Lemma schedule_inv q q' event when global :
  q_ok q -> eq_schedule event when global q = Ok q' -> q_ok q' /\ _curTick q' = _curTick q.
Proof.
  intros [bs Hq] H. destruct (schedule_guards _ _ _ _ _ H) as (Hw & e & He & Hs & Hi).
  destruct (inParallelMode q && (negb (this q =? curEventQueue q) || global)) eqn:Hm.
  - destruct (schedule_async q bs event e when global) as (q2 & H2 & Hq2 & Hc & _); [done..|].
    rewrite H in H2. injection H2 as <-. split; [by exists bs|done].
  - destruct (schedule_ok q bs event e when global Hq He)
      as (q2 & bs' & e' & H2 & Hq2 & _ & Hsm & _); [by eapply not_scheduled_off|done..|].
    rewrite H in H2. injection H2 as <-. split; [by exists bs'|apply Hsm].
Qed.

Lemma deschedule_inv q q' event :
  q_ok q -> eq_deschedule event q = Ok q' -> q_ok q' /\ _curTick q' = _curTick q.
Proof.
  intros [bs Hq] H. destruct (deschedule_guards _ _ _ H) as (Hm & e & q1 & He & Hs & Hi & Hr).
  pose proof (q_remove_on_bins _ _ _ _ _ Hq He Hr) as Hin.
  destruct (deschedule_ok q bs event e Hq He Hin Hi Hm) as (q2 & bs' & H2 & Hq2 & _ & Hsm & _).
  rewrite H in H2. injection H2 as <-. split; [by exists bs'|apply Hsm].
Qed.

Lemma reschedule_inv q q' event when always :
  q_ok q -> eq_reschedule event when always q = Ok q' -> q_ok q' /\ _curTick q' = _curTick q.
Proof.
  intros [bs Hq] H. destruct (reschedule_guards _ _ _ _ _ H) as (Hw & Hm & e & He & Hi & Hor).
  destruct (reschedule_ok q bs event e when always Hq He Hi Hw)
    as (q2 & bs' & e' & H2 & Hq2 & _ & Hsm & _); [|done|].
  - destruct Hor as [[_ [q1 Hr]]|Hor]; [left|by right]. by eapply q_remove_on_bins.
  - rewrite H in H2. injection H2 as <-. split; [by exists bs'|apply Hsm].
Qed.

(** A write to the flags that leaves [Scheduled] alone, and the deletion of an
    event that is not scheduled. *)
Lemma queue_ok_write q bs a e e' :
  queue_ok q bs -> evs q !! a = Some e -> nextBin e' = nextBin e -> nextInBin e' = nextInBin e ->
  evkey e' = evkey e -> scheduled e' = scheduled e -> queue e' = queue e ->
  queue_ok (q <| evs := <[a := e']> (evs q) |>) bs.
Proof.
  intros [Hb Ht Hn Hd Hs] He H1 H2 H3 H4 H5. constructor; cbn; [by eapply bins_update|done|done| |].
  - intros b Hb'. destruct (decide (b = a)) as [->|]; [by rewrite lookup_insert_eq|].
    rewrite lookup_insert_ne by done. by apply Hd.
  - intros b x. destruct (decide (b = a)) as [->|]; [|rewrite lookup_insert_ne by done; apply Hs].
    rewrite lookup_insert_eq. intros [= <-]. rewrite H4, H5. by apply Hs.
Qed.

Lemma queue_ok_put_idle q bs a e :
  queue_ok q bs -> a ∉ locs bs ++ async_queue q -> scheduled e = false ->
  queue_ok (q <| evs := <[a := e]> (evs q) |>) bs.
Proof.
  intros [Hb Ht Hn Hd Hs] Hoff Hsc. constructor; cbn; [|done|done| |].
  - apply bins_update_off; [done|]. by apply not_elem_of_app in Hoff as [??].
  - intros b Hb'. rewrite lookup_insert_ne by (intros ->; done). by apply Hd.
  - intros b x. destruct (decide (b = a)) as [->|]; [|rewrite lookup_insert_ne by done; apply Hs].
    rewrite lookup_insert_eq. intros [= <-]. rewrite Hsc. split; [by intros [? _]|by intros H%Hoff].
Qed.

Lemma queue_ok_delete q bs a e :
  queue_ok q bs -> evs q !! a = Some e -> scheduled e = false ->
  queue_ok (q <| evs := delete a (evs q) |>) bs.
Proof.
  intros Hq He Hsc. pose proof (not_scheduled_off _ _ _ _ Hq He Hsc) as Hoff.
  destruct Hq as [Hb Ht Hn Hd Hs]. constructor; cbn; [|done|done| |].
  - apply bins_delete_off; [done|]. by apply not_elem_of_app in Hoff as [??].
  - intros b Hb'. rewrite lookup_delete_ne by (intros ->; done). by apply Hd.
  - intros b x. destruct (decide (b = a)) as [->|]; [by rewrite lookup_delete_eq|].
    rewrite lookup_delete_ne by done. apply Hs.
Qed.

Lemma bins_order_sorted h p bs : bins h p bs -> sorted_events (order bs).
Proof.
  intros [_ _ _ Ho]. induction bs as [|b bs IH]; [constructor|].
  apply StronglySorted_inv in Ho as [Ho Hb]. rewrite order_cons.
  apply StronglySorted_app_2; [| |by apply IH].
  - intros x1 x2 (a & -> & _)%list_elem_of_fmap (b' & Hb' & -> & _)%order_key. cbn.
    apply klt_kle, (proj1 (Forall_forall _ _) Hb). by apply list_elem_of_fmap_2.
  - induction (blocs b) as [|a l IHl]; constructor; [done|]. apply Forall_forall.
    intros x (a' & -> & _)%list_elem_of_fmap. apply kle_refl.
Qed.

(** ** Handlers: what the queue asks of the code it calls back *)
Class Handler (process : loc -> EventQueue -> res EventQueue) : Prop := {
  handler_ok : forall event q q', q_ok q -> process event q = Ok q' ->
    q_ok q' /\ _curTick q' = _curTick q
}.

(** The operations an event handler has on the queue. *)
Inductive op :=
| OpNew (a : loc) (p f : Z)
| OpSchedule (a : loc) (when : Z) (global : bool)
| OpDeschedule (a : loc)
| OpReschedule (a : loc) (when : Z) (always : bool)
| OpSquash (a : loc)
| OpDelete (a : loc).

Definition run_op (o : op) (q : EventQueue) : res EventQueue :=
  match o with
  | OpNew a p f =>
      match evs q !! a with
      | Some _ => undefined
      | None => e ← new_Event p f; Ok (q <| evs := <[a := e]> (evs q) |>)
      end
  | OpSchedule a when global => eq_schedule a when global q
  | OpDeschedule a => eq_deschedule a q
  | OpReschedule a when always => eq_reschedule a when always q
  | OpSquash a => e ← deref (evs q !! a); Ok (q <| evs := <[a := squash e]> (evs q) |>)
  | OpDelete a => h ← delete_event a (evs q); Ok (q <| evs := h |>)
  end.

Fixpoint run_ops (os : list op) (q : EventQueue) : res EventQueue :=
  match os with
  | [] => Ok q
  | o :: os' => q ← run_op o q; run_ops os' q
  end.

Lemma new_Event_idle p f e : new_Event p f = Ok e -> scheduled e = false /\ initialized e = true.
Proof.
  unfold new_Event, assert_, fl_noneSet. case_if; [|done]. intros [= <-].
  apply Z.eqb_eq in Hif.
  assert (forall m, Z.land m PublicWrite = 0 -> Z.land f m = 0) as Hf.
  { intros m Hm. apply Z.bits_inj'. intros i Hi. rewrite Z.land_spec, Z.testbit_0_l.
    apply (f_equal (fun z => Z.testbit z i)) in Hif, Hm.
    rewrite Z.land_spec, Z.testbit_0_l in Hif, Hm. rewrite Z.lnot_spec in Hif by done.
    destruct (Z.testbit f i), (Z.testbit m i), (Z.testbit PublicWrite i); done. }
  unfold scheduled, initialized, fl_isSet. cbn [flags]. rewrite !Z.land_lor_distr_l.
  by rewrite !Hf by reflexivity.
Qed.

Lemma run_op_inv o q q' : q_ok q -> run_op o q = Ok q' -> q_ok q' /\ _curTick q' = _curTick q.
Proof.
  destruct o; cbn [run_op]; eauto using schedule_inv, deschedule_inv, reschedule_inv.
  - intros [bs Hq]. destruct (evs q !! a) as [|] eqn:Ha; [done|].
    destruct (new_Event p f) as [e|] eqn:Hn; [|done]. intros [= <-].
    apply new_Event_idle in Hn as [Hn _]. split; [|done]. exists bs.
    assert (a ∉ locs bs ++ async_queue q) as Hoff.
    { intros [? H]%(ok_dom _ _ Hq). congruence. }
    by apply queue_ok_put_idle.
  - intros [bs Hq]. destruct (evs q !! a) as [e|] eqn:Ha; [|done]. intros [= <-].
    split; [|done]. exists bs. eapply queue_ok_write; [done|done|done|done|done| |done].
    unfold scheduled, squash. cbn. by apply fl_isSet_set_other.
  - intros [bs Hq]. unfold delete_event. destruct (evs q !! a) as [e|] eqn:Ha; [|done].
    cbn [deref mbind res_bind]. destruct (scheduled e) eqn:Hs; [done|]. intros [= <-].
    split; [|done]. exists bs. by eapply queue_ok_delete.
Qed.

Lemma run_ops_inv os q q' : q_ok q -> run_ops os q = Ok q' -> q_ok q' /\ _curTick q' = _curTick q.
Proof.
  revert q. induction os as [|o os IH]; cbn; intros q Hq H; [by injection H as <-|].
  destruct (run_op o q) as [q1|] eqn:Ho; [|done]. cbn in H.
  destruct (run_op_inv _ _ _ Hq Ho) as [Hq1 <-]. by apply IH.
Qed.

(** Whatever operations a handler performs, it is a handler. *)
#[export] Instance script_handler (script : loc -> EventQueue -> list op) :
  Handler (fun event q => run_ops (script event q) q).
Proof. constructor. intros event q q'. apply run_ops_inv. Qed.

Lemma auto_delete_inv event q q' : q_ok q -> auto_delete event q = Ok q' ->
  q_ok q' /\ _curTick q' = _curTick q.
Proof.
  intros [bs Hq]. unfold auto_delete, delete_event.
  destruct (evs q !! event) as [e|] eqn:He; [|done]. cbn [deref mbind res_bind].
  destruct (fl_isSet (flags e) AutoDelete && negb (scheduled e)) eqn:Hf.
  - apply andb_prop in Hf as [_ Hs]. rewrite Hs. intros [= <-]. split; [|done]. exists bs.
    eapply queue_ok_delete; [done..|]. by apply negb_true_iff.
  - intros [= <-]. split; [by exists bs|done].
Qed.

(** The queue after the head is popped, at the tick of the popped event. *)
Lemma advance_ok q b bs q1 bs1 :
  queue_ok q (b :: bs) -> order (b :: bs) = (bkey b, btop b) :: order bs1 ->
  queue_ok q1 bs1 -> queue_ok (setCurTick (bkey b).1 q1) bs1.
Proof.
  intros Hq Ho [Hb Ht Hn Hd Hs]. constructor; [done| |done..].
  pose proof (bins_order_sorted _ _ _ (ok_bins _ _ Hq)) as Hsort. rewrite Ho in Hsort.
  apply StronglySorted_inv in Hsort as [_ Hf]. eapply Forall_impl; [exact Hf|].
  intros [[w p] a] Hx. destruct (bkey b) as [w0 p0]. unfold kle in Hx. cbn in *. lia.
Qed.

(** ** serviceOne *)
Section service_inv.
Context (process : loc -> EventQueue -> res EventQueue) `{!Handler process}.

Lemma serviceOne_inv q q' x : q_ok q -> serviceOne process q = Ok (q', x) ->
  q_ok q' /\ _curTick q <= _curTick q'.
Proof.
  intros [bs Hq] H. destruct bs as [|b bs].
  { destruct (ok_bins _ _ Hq) as [Hs _ _ _]. cbn in Hs. unfold serviceOne, pop_head in H.
    by rewrite Hs in H. }
  destruct (pop_head_ok _ _ _ Hq)
    as (q1 & bs1 & e & e1 & Hp & Hq1 & Ho & Hsm & _ & He & Hke & He1 & Hk1 & Hf).
  unfold serviceOne in H. rewrite Hp in H. cbn [mbind res_bind] in H. rewrite He1 in H.
  cbn [deref mbind res_bind] in H. pose proof Hsm as (Ec & _).
  destruct (negb (squashed e1)) eqn:Hsq.
  - assert (_when e1 = (bkey b).1) as Ew by (by rewrite <- Hk1).
    destruct (process (btop b) (setCurTick (_when e1) q1)) as [q2|] eqn:Hpr; [|done].
    cbn [mbind res_bind] in H. rewrite Ew in Hpr. unfold service_end in H.
    destruct (handler_ok _ _ _ (ex_intro _ bs1 (advance_ok _ _ _ _ _ Hq Ho Hq1)) Hpr) as [Hq2 Hc].
    assert (_curTick q <= _curTick q2) as Hle.
    { rewrite Hc. cbn. pose proof (ok_time _ _ Hq) as Ht. rewrite Ho in Ht.
      by apply Forall_cons in Ht as [Ht _]. }
    destruct (evs q2 !! btop b) as [e2|] eqn:He2; [|done]. cbn [deref mbind res_bind] in H.
    destruct (isExitEvent e2).
    + destruct (negb _ || negb _); [|done]. by injection H as <- <-.
    + destruct (auto_delete (btop b) q2) as [q3|] eqn:Hd; [|done]. injection H as <- <-.
      destruct (auto_delete_inv _ _ _ Hq2 Hd) as [Hq3 Hc3]. split; [done|lia].
  - unfold on_flags in H. rewrite He1 in H. cbn [deref mbind res_bind] in H.
    destruct (auto_delete _ _) as [q3|] eqn:Hd in H; [|done]. injection H as <- <-.
    apply auto_delete_inv in Hd as [Hq3 Hc3].
    + split; [done|]. rewrite Hc3. cbn. lia.
    + exists bs1. eapply queue_ok_write; [done..| |done]. unfold scheduled. cbn.
      by apply fl_isSet_clear_other.
Qed.

(** A turn of the simulation loop, and the states it reaches. *)
Definition turn (q q' : EventQueue) : Prop := exists x, serviceOne process q = Ok (q', x).

Lemma turns_inv q q' : rtc turn q q' -> q_ok q -> q_ok q' /\ _curTick q <= _curTick q'.
Proof.
  induction 1 as [q|q q1 q2 [x Hx] _ IH]; [done|]. intros Hq.
  destruct (serviceOne_inv _ _ _ Hq Hx) as [Hq1 Hc]. destruct (IH Hq1). split; [done|lia].
Qed.

(** The order of a well formed queue starts at the next tick. *)
Lemma nextTick_ok q t : q_ok q -> nextTick q = Ok t -> _curTick q <= t.
Proof.
  intros [bs Hq] H. unfold nextTick in H. destruct bs as [|b bs].
  { destruct (ok_bins _ _ Hq) as [Hs _ _ _]. cbn in Hs. by rewrite Hs in H. }
  destruct (bins_top _ _ _ _ (ok_bins _ _ Hq)) as (Hh & e & He & Hk & _).
  rewrite Hh in H. cbn in H. rewrite He in H. injection H as <-.
  pose proof (ok_time _ _ Hq) as Ht. rewrite order_cons in Ht. apply Forall_cons in Ht as [Ht _].
  cbn in Ht. by rewrite <- Hk in Ht.
Qed.

End service_inv.

(** ** Walks *)
Lemma walk_bin_seg fuel h p l : seg nextInBin h p l None -> (length l < fuel)%nat ->
  walk_bin fuel h p = Ok l.
Proof.
  revert p l. induction fuel as [|fuel IH]; intros p l Hs Hf; [lia|].
  destruct l as [|a l]; cbn in Hs, Hf; [by subst|]. destruct Hs as (-> & e & He & Hs).
  cbn [walk_bin]. rewrite He. cbn [deref mbind res_bind].
  rewrite (IH _ _ Hs) by lia. done.
Qed.

Lemma walk_bins_order fuel h p bs : bins h p bs -> (length bs < fuel)%nat ->
  walk_bins fuel h p = Ok (locs bs).
Proof.
  revert p bs. induction fuel as [|fuel IH]; intros p bs Hb Hf; [lia|].
  destruct bs as [|b bs]; cbn in Hf.
  { destruct Hb as [Hs _ _ _]. cbn in Hs. by subst. }
  destruct (bins_blocs _ _ _ _ Hb) as (Hs & _ & _ & e & He & _).
  destruct (bins_top _ _ _ _ Hb) as (-> & _). cbn [walk_bins]. rewrite He.
  cbn [deref mbind res_bind]. rewrite (walk_bin_seg _ _ _ _ Hs) by (by eapply seg_length_fuel).
  cbn [mbind res_bind]. rewrite (IH _ bs (bins_tail _ _ _ _ _ Hb He)) by lia.
  cbn [mbind res_bind]. by rewrite locs_cons.
Qed.

Lemma walk_ok q bs : queue_ok q bs -> walk q = Ok (locs bs).
Proof.
  intros Hq. pose proof (ok_bins _ _ Hq) as Hb. unfold walk. apply walk_bins_order; [done|].
  pose proof (bins_length _ _ _ Hb). unfold list_fuel. lia.
Qed.

(** [debugVerify] on a list of events in service order. *)
Fixpoint verify_list (l : list (key * loc)) (st : verify_state) : option verify_state :=
  match l with
  | [] => Some st
  | ((w, p), a) :: l' =>
      match verify_event (mkEvent None None w p 0 None) a st with
      | None => None
      | Some st => verify_list l' st
      end
  end.

Lemma verify_list_app l1 l2 st :
  verify_list (l1 ++ l2) st =
  match verify_list l1 st with None => None | Some st => verify_list l2 st end.
Proof.
  revert st. induction l1 as [|[[w p] a] l1 IH]; intros st; cbn [app verify_list]; [done|].
  destruct (verify_event _ a st); [apply IH|done].
Qed.

Lemma verify_event_key e w p a st : evkey e = (w, p) ->
  verify_event e a st = verify_event (mkEvent None None w p 0 None) a st.
Proof. unfold evkey. intros [= <- <-]. done. Qed.

Lemma verify_bin_list fuel h p k l st :
  seg nextInBin h p l None -> Forall (fun a => evkey <$> h !! a = Some k) l ->
  (length l < fuel)%nat -> verify_bin fuel h p st = Ok (verify_list (pair k <$> l) st).
Proof.
  revert p l st. induction fuel as [|fuel IH]; intros p l st Hs Hk Hf; [lia|].
  destruct l as [|a l]; cbn in Hs, Hf; [by subst|]. destruct Hs as (-> & e & He & Hs).
  apply Forall_cons in Hk as [Hke Hk]. cbn [verify_bin]. rewrite He in *. cbn in Hke.
  cbn [deref mbind res_bind fmap list_fmap verify_list]. destruct k as [w pr].
  injection Hke as Ew Ep. rewrite (verify_event_key e w pr) by (unfold evkey; congruence).
  destruct (verify_event _ a st); [|done]. apply IH; [done..|lia].
Qed.

Lemma verify_bins_list fuel h p bs st : bins h p bs -> (length bs < fuel)%nat ->
  verify_bins fuel h p st =
  Ok (match verify_list (order bs) st with Some _ => true | None => false end).
Proof.
  revert p bs st. induction fuel as [|fuel IH]; intros p bs st Hb Hf; [lia|].
  destruct bs as [|b bs]; cbn in Hf.
  { destruct Hb as [Hs _ _ _]. cbn in Hs. by subst. }
  destruct (bins_blocs _ _ _ _ Hb) as (Hs & _ & _ & e & He & _).
  pose proof (bins_key _ _ _ Hb) as Hk. rewrite order_cons in Hk |- *.
  apply Forall_app in Hk as [Hk _]. apply Forall_fmap in Hk.
  destruct (bins_top _ _ _ _ Hb) as (-> & _). cbn [verify_bins]. rewrite He.
  cbn [deref mbind res_bind].
  rewrite (verify_bin_list _ _ _ _ _ _ Hs Hk) by (by eapply seg_length_fuel).
  cbn [mbind res_bind]. rewrite verify_list_app. destruct (verify_list _ st); [|done].
  apply IH; [by eapply bins_tail|lia].
Qed.

(** A sorted list without repetitions passes, from any state it is above. *)
Lemma verify_list_sorted l time priority seen :
  sorted_events l -> NoDup l.*2 -> (forall a, a ∈ l.*2 -> a ∉ seen) ->
  Forall (fun x => kle (time, priority) x.1) l ->
  is_Some (verify_list l (time, priority, seen)).
Proof.
  unfold sorted_events. revert time priority seen.
  induction l as [|[[w p] a] l IH]; intros t pr seen Hs Hn Hd Hk; [by eexists|].
  apply StronglySorted_inv in Hs as [Hs Hf]. apply NoDup_cons in Hn as [Ha Hn].
  apply Forall_cons in Hk as [Hk _]. unfold kle in Hk. cbn in Hk.
  cbn [verify_list verify_event _when _priority].
  destruct (Z.ltb_spec w t); [lia|].
  destruct ((w =? t) && (p <? pr)) eqn:E; [bool_prop; lia|].
  rewrite bool_decide_eq_false_2 by (apply Hd; left).
  apply IH; [done|done| |done].
  intros b Hb. rewrite elem_of_union, elem_of_singleton. intros [->|Hin]; [done|].
  apply (Hd b); [by right|done].
Qed.

(** ** The queue as one sorted list *)
Definition repr (q : EventQueue) (l : list (key * loc)) : Prop :=
  exists bs, queue_ok q bs /\ order bs = l.

Lemma spec_remove_insert x l : x.2 ∉ l.*2 -> spec_remove x.2 (spec_insert x l) = l.
Proof.
  destruct x as [k a]. cbn. intros Hn. induction l as [|y l IH]; cbn [spec_insert].
  - apply spec_remove_hit.
  - case_decide.
    + rewrite spec_remove_hit. by apply spec_remove_notin.
    + unfold spec_remove in *. rewrite filter_cons_True by set_solver. f_equal. set_solver.
Qed.

(** C1. [schedule], [deschedule] and [reschedule] of an initialised event act on
    the two-level list as insertion into and removal from one list of events,
    sorted by tick and priority, in which an event goes in front of its equals;
    they succeed whenever their assertions hold, and [dump] visits the events
    in that order. *)
Theorem queue_refines q l event e :
  repr q l -> evs q !! event = Some e -> initialized e = true -> inParallelMode q = false ->
  sorted_events l /\ NoDup l.*2 /\ walk q = Ok l.*2 /\
  (forall when, _curTick q <= when -> scheduled e = false ->
     exists q', eq_schedule event when false q = Ok q' /\
       repr q' (spec_insert ((when, _priority e), event) l)) /\
  (event ∈ l.*2 ->
     exists q', eq_deschedule event q = Ok q' /\ repr q' (spec_remove event l)) /\
  (forall when always, _curTick q <= when ->
     event ∈ l.*2 \/ always = true /\ scheduled e = false ->
     exists q', eq_reschedule event when always q = Ok q' /\
       repr q' (spec_insert ((when, _priority e), event) (spec_remove event l))).
Proof.
  intros (bs & Hq & <-) He Hi Hm. change ((order bs).*2) with (locs bs).
  pose proof (ok_bins _ _ Hq) as Hb.
  assert (negb (inParallelMode q) || (this q =? curEventQueue q) = true) as Hm' by (by rewrite Hm).
  split_and!; [by eapply bins_order_sorted|apply Hb|by apply walk_ok| | |].
  - intros when Hw Hs.
    destruct (schedule_ok q bs event e when false) as (q' & bs' & _ & H & Hq' & Ho & _);
      [done|done|by eapply not_scheduled_off|done..|by rewrite Hm|].
    exists q'. split; [done|]. by exists bs'.
  - intros Hin. destruct (deschedule_ok q bs event e) as (q' & bs' & H & Hq' & Ho & _); [done..|].
    exists q'. split; [done|]. by exists bs'.
  - intros when always Hw Hor.
    destruct (reschedule_ok q bs event e when always) as (q' & bs' & _ & H & Hq' & Ho & _); [done..|].
    exists q'. split; [done|]. by exists bs'.
Qed.

(** C22. Whatever the event handlers do through the interface of the queue, in
    every state the simulation loop reaches time has not gone backwards, the
    queue is well formed, the assertion of [doSimLoop] that no event was
    scheduled in the past holds, and the next event can be taken off. *)
Theorem simulation_in_time process `{!Handler process} q0 q :
  q_ok q0 -> rtc (turn process) q0 q ->
  q_ok q /\ _curTick q0 <= _curTick q /\
  (head q <> None -> exists t event q', nextTick q = Ok t /\ _curTick q <= t /\
     pop_head q = Ok (event, q') /\ q_ok q').
Proof.
  intros Hq Hr. destruct (turns_inv process _ _ Hr Hq) as [Hq' Hc].
  split_and!; [done|done|]. intros Hne. pose proof Hq' as [[|b bs] Hb].
  { destruct (ok_bins _ _ Hb) as [Hs _ _ _]. done. }
  destruct (pop_head_ok q b bs Hb) as (q1 & bs1 & e & _ & Hp & Hb1 & _ & _ & _ & He & _).
  destruct (bins_top _ _ _ _ (ok_bins _ _ Hb)) as (Hh & _).
  assert (nextTick q = Ok (_when e)) as Hn by (unfold nextTick; rewrite Hh; cbn; by rewrite He).
  exists (_when e), (btop b), q1. split_and!; [done|by apply nextTick_ok|done|by exists bs1].
Qed.

(** [debugVerify] accepts every well formed queue, except that it takes a
    first event at tick 0 with a negative priority for an inversion. *)
Theorem debugVerify_spec q l :
  repr q l -> 0 <= _curTick q ->
  debugVerify q = Ok (match l with
                      | [] => true
                      | x :: _ => negb ((x.1.1 =? 0) && (x.1.2 <? 0))
                      end).
Proof.
  intros (bs & Hq & <-) Hc. pose proof (ok_bins _ _ Hq) as Hb. unfold debugVerify.
  rewrite (verify_bins_list _ _ _ _ _ Hb)
    by (pose proof (bins_length _ _ _ Hb); unfold list_fuel; lia). f_equal.
  pose proof (bins_order_sorted _ _ _ Hb) as Hs. pose proof (bins_nodup _ _ _ Hb) as Hn.
  pose proof (ok_time _ _ Hq) as Ht. unfold locs in Hn.
  destruct (order bs) as [|[[w p] a] l]; [done|]. cbn [fst snd].
  destruct ((w =? 0) && (p <? 0)) eqn:E.
  - bool_prop. subst w. cbn [verify_list verify_event _when _priority].
    rewrite Z.ltb_irrefl, Z.eqb_refl, (proj2 (Z.ltb_lt p 0)) by done. done.
  - cbn [negb]. apply Forall_cons in Ht as [Ht _]. cbn in Ht.
    assert (is_Some (verify_list (((w, p) : key, a) :: l) (0, 0, ∅))) as [st Hst].
    { apply verify_list_sorted; [done|done|set_solver|]. apply StronglySorted_inv in Hs as [Hs Hf].
      assert (kle (0, 0) (w, p)) as H0.
      { unfold kle. cbn. apply andb_false_iff in E. destruct E; bool_prop; lia. }
      constructor; [done|]. eapply Forall_impl; [exact Hf|]. intros x Hx. by eapply kle_trans. }
    by rewrite Hst.
Qed.

(** The contract every component relies on: on an initialised event of the
    queue, [EventQueue::schedule] succeeds exactly when [schedule] of the
    prelude does, the event is then pending at its tick, and no other event's
    tick changes. *)
Theorem schedule_contract q event e when :
  q_ok q -> evs q !! event = Some e -> initialized e = true -> inParallelMode q = false ->
  match schedule (pending q event) (_curTick q) when with
  | Ok ev => exists q', eq_schedule event when false q = Ok q' /\ q_ok q' /\
               _curTick q' = _curTick q /\ pending q' event = ev /\
               forall a, a <> event -> pending q' a = pending q a
  | Err _ => eq_schedule event when false q = Err AssertFailed
  end.
Proof.
  intros [bs Hq] He Hi Hm. unfold schedule, pending at 1 2. rewrite He.
  destruct (Z.leb_spec (_curTick q) when) as [Hw|Hw]; cbn [assert_ mbind res_bind].
  2: { unfold eq_schedule. by rewrite (proj2 (Z.leb_gt _ _)). }
  destruct (scheduled e) eqn:Hs.
  - rewrite bool_decide_eq_false_2 by done. cbn [assert_ mbind res_bind].
    unfold eq_schedule. rewrite (proj2 (Z.leb_le _ _) Hw), He. cbn. by rewrite Hs.
  - rewrite bool_decide_eq_true_2 by done. cbn [assert_ mbind res_bind].
    destruct (schedule_ok q bs event e when false)
      as (q' & bs' & e' & H & Hq' & _ & (Hc & _) & Ho & He' & Hw' & Hs');
      [done|done|by eapply not_scheduled_off|done..|by rewrite Hm|].
    exists q'. split_and!; [done|by exists bs'|done| |].
    + unfold pending. by rewrite He', Hs', Hw'.
    + intros a Ha. unfold pending. specialize (Ho a Ha).
      destruct (evs q' !! a) as [x'|], (evs q !! a) as [x|]; try done.
      apply (inj Some), unlink_eq in Ho as (Ew & _ & Ef & _). unfold scheduled.
      by rewrite Ef, Ew.
Qed.

(** ** Draining the queue *)

(** The combination of flags that [serviceOne] asserts away. *)
Definition silly (e : Event) : bool :=
  isExitEvent e && fl_isSet (flags e) AutoDelete && fl_isSet (flags e) IsMainQueue.
Definition no_silly (q : EventQueue) : Prop :=
  forall a e, evs q !! a = Some e -> silly e = false.

(** A handler that leaves the queue alone. *)
Definition idle (_ : loc) (q : EventQueue) : res EventQueue := Ok q.

#[export] Instance idle_handler : Handler idle.
Proof. constructor. by intros event q q' Hq [= <-]. Qed.

Lemma auto_delete_ok q bs event e :
  queue_ok q bs -> evs q !! event = Some e -> no_silly q ->
  exists q', auto_delete event q = Ok q' /\ queue_ok q' bs /\ no_silly q'.
Proof.
  intros Hq He Hn. unfold auto_delete, delete_event. rewrite He. cbn [deref mbind res_bind].
  destruct (fl_isSet (flags e) AutoDelete && negb (scheduled e)) eqn:Hf; [|eauto].
  apply andb_prop in Hf as [_ Hs]. rewrite Hs. cbn [assert_ mbind res_bind].
  eexists. split; [reflexivity|]. split.
  - eapply queue_ok_delete; [done..|]. by apply negb_true_iff.
  - intros a x. cbn. intros [_ Hx]%lookup_delete_Some. by eapply Hn.
Qed.

Lemma silly_flags e e' : flags e' = flags e -> silly e' = silly e.
Proof. unfold silly, isExitEvent. by intros ->. Qed.

Lemma silly_clear e e' : flags e' = fl_clear (flags e) Scheduled \/
  flags e' = fl_clear (flags e) Squashed -> silly e' = silly e.
Proof.
  unfold silly, isExitEvent. intros [-> | ->]; by rewrite !fl_isSet_clear_other.
Qed.

Lemma idle_serviceOne q b bs :
  queue_ok q (b :: bs) -> no_silly q ->
  exists q' x bs', serviceOne idle q = Ok (q', x) /\ queue_ok q' bs' /\ no_silly q' /\
    order (b :: bs) = (bkey b, btop b) :: order bs'.
Proof.
  intros Hq Hn. destruct (pop_head_ok _ _ _ Hq)
    as (q1 & bs1 & e & e1 & Hp & Hq1 & Ho & Hsm & Hoth & He & Hke & He1 & Hk1 & Hf).
  assert (no_silly q1) as Hn1.
  { intros a x Hx. destruct (decide (a = btop b)) as [->|Hne].
    - rewrite He1 in Hx. injection Hx as <-. rewrite (silly_clear e); [by eapply Hn|by left].
    - specialize (Hoth a Hne). rewrite Hx in Hoth. symmetry in Hoth.
      apply fmap_Some in Hoth as (y & Hy & Hu). apply unlink_eq in Hu as (_ & _ & Hfl & _).
      rewrite (silly_flags y) by done. by eapply Hn. }
  unfold serviceOne. rewrite Hp. cbn [mbind res_bind]. rewrite He1. cbn [deref mbind res_bind].
  destruct (negb (squashed e1)) eqn:Hsq.
  - unfold idle at 1. cbn [mbind res_bind]. unfold service_end.
    change (evs (setCurTick (_when e1) q1)) with (evs q1). rewrite He1. cbn [deref mbind res_bind].
    assert (queue_ok (setCurTick (_when e1) q1) bs1) as Hq2.
    { replace (_when e1) with (bkey b).1 by (by rewrite <- Hk1). by eapply advance_ok. }
    destruct (isExitEvent e1) eqn:Hx.
    + pose proof (Hn1 _ _ He1) as Hsl. unfold silly in Hsl. rewrite Hx, andb_true_l in Hsl.
      assert (negb (fl_isSet (flags e1) AutoDelete) || negb (fl_isSet (flags e1) IsMainQueue)
        = true) as -> by (by rewrite <- negb_andb, Hsl).
      cbn [assert_ mbind res_bind]. by eexists _, _, bs1.
    + destruct (auto_delete_ok _ _ (btop b) e1 Hq2 He1 Hn1) as (q3 & -> & Hq3 & Hn3).
      cbn [mbind res_bind]. by eexists _, _, bs1.
  - unfold on_flags. rewrite He1. cbn [deref mbind res_bind].
    set (e2 := e1 <| flags := fl_clear (flags e1) Squashed |>).
    set (q2 := q1 <| evs := <[btop b := e2]> (evs q1) |>).
    assert (queue_ok q2 bs1) as Hq2.
    { eapply queue_ok_write; [done..| |done]. by apply fl_isSet_clear_other. }
    assert (no_silly q2) as Hn2.
    { intros a x. unfold q2. cbn [evs]. destruct (decide (a = btop b)) as [->|Hne].
      - cbn. rewrite lookup_insert_eq. intros [= <-]. rewrite (silly_clear e1); [by eapply Hn1|by right].
      - cbn. rewrite lookup_insert_ne by done. apply Hn1. }
    destruct (auto_delete_ok q2 _ (btop b) e2 Hq2) as (q3 & -> & Hq3 & Hn3);
      [apply lookup_insert_eq|done|]. cbn [mbind res_bind]. by eexists _, _, bs1.
Qed.

Lemma filter_all {A} (P : A -> Prop) `{!forall x, Decision (P x)} (l : list A) :
  Forall P l -> filter P l = l.
Proof. induction 1; [done|]. rewrite filter_cons_True by done. by f_equal. Qed.

Lemma repr_nextTick q b bs : queue_ok q (b :: bs) ->
  empty_ q = false /\ nextTick q = Ok (bkey b).1.
Proof.
  intros Hq. destruct (bins_top _ _ _ _ (ok_bins _ _ Hq)) as (Hh & e & He & Hk & _).
  unfold empty_, nextTick. rewrite Hh. cbn. rewrite He. cbn. by rewrite <- Hk.
Qed.

Lemma service_until_ok fuel when q bs :
  queue_ok q bs -> no_silly q -> (length (order bs) < fuel)%nat ->
  exists q' bs', service_until idle fuel when q = Ok q' /\ queue_ok q' bs' /\
    order bs' = filter (fun x => when < x.1.1) (order bs).
Proof.
  revert q bs. induction fuel as [|fuel IH]; intros q bs Hq Hn Hf; [lia|].
  cbn [service_until]. destruct bs as [|b bs].
  { destruct (ok_bins _ _ Hq) as [Hs _ _ _]. cbn in Hs. unfold empty_. rewrite Hs.
    cbn. by exists q, []. }
  destruct (repr_nextTick _ _ _ Hq) as [-> ->]. cbn [mbind res_bind].
  destruct (idle_serviceOne _ _ _ Hq Hn) as (q' & x & bs' & Hs & Hq' & Hn' & Ho).
  rewrite Ho in Hf |- *. cbn [length] in Hf.
  destruct (Z.ltb_spec when (bkey b).1) as [Hlt|Hge].
  - exists q, (b :: bs). split; [done|]. split; [done|].
    pose proof (bins_order_sorted _ _ _ (ok_bins _ _ Hq)) as Hso. rewrite Ho in Hso |- *.
    apply StronglySorted_inv in Hso as [_ Hfo]. symmetry. apply filter_all.
    constructor; [done|]. eapply Forall_impl; [exact Hfo|]. intros [[w p] a] Hy.
    destruct (bkey b). unfold kle in Hy. cbn in *. lia.
  - rewrite Hs. cbn [mbind res_bind]. rewrite filter_cons_False by (cbn; lia).
    apply IH; [done|done|lia].
Qed.

(** C28. [serviceEvents(when)] returns once the handlers have no more work for
    the queue: with handlers that leave it alone, as many turns as there are
    events suffice, and what remains is what was due after [when]. *)
Theorem serviceEvents_drains q l fuel when :
  repr q l -> no_silly q -> (length l < fuel)%nat ->
  exists q', serviceEvents idle fuel when q = Ok q' /\
    repr q' (filter (fun x => when < x.1.1) l) /\ _curTick q' = when.
Proof.
  intros (bs & Hq & <-) Hn Hf.
  destruct (service_until_ok fuel when q bs Hq Hn Hf) as (q' & bs' & Hs & Hq' & Ho).
  unfold serviceEvents. rewrite Hs. cbn [mbind res_bind]. eexists. split; [reflexivity|].
  split; [|done]. exists bs'. split; [|done]. destruct Hq' as [Hb _ Hnd Hd Hsc].
  constructor; [done| |done..]. rewrite Ho. apply Forall_forall.
  intros x [Hx _]%list_elem_of_filter. cbn. lia.
Qed.

(** ** Checkpoints *)
Lemma u16_sgn f : inw 16 f -> u16 (sgn 16 f) = f.
Proof.
  intros Hf. unfold u16, sgn. rewrite !(wrap_id 16 f Hf). unfold inw in Hf.
  case_if; [by apply wrap_id|]. unfold wrap. rewrite <- (Z.mod_add _ 1) by lia.
  rewrite Z.mod_small; lia.
Qed.

Lemma fl_isSet_lor f m n : fl_isSet f (Z.lor m n) = fl_isSet f m || fl_isSet f n.
Proof.
  unfold fl_isSet. rewrite Z.land_lor_distr_r, <- negb_andb. f_equal.
  apply eq_true_iff_eq. rewrite andb_true_iff, !Z.eqb_eq. apply Z.lor_eq_0_iff.
Qed.

(** A checkpoint of a scheduled event restores it: written by [serialize]
    and read by [unserialize] into an event that is idle, it puts the event
    where its tick and priority belong, however its flags read as a [short]. *)
Theorem unserialize_roundtrip q l event e saved when priority f :
  repr q l -> inParallelMode q = false ->
  evs q !! event = Some e -> initialized e = true -> scheduled e = false ->
  inw 16 (flags saved) -> initialized saved = true ->
  scheduled saved = true -> squashed saved = false -> _curTick q <= _when saved ->
  serialize_event saved = (when, priority, f) ->
  exists q', unserialize event when priority f q = Ok q' /\
    repr q' (spec_insert (evkey saved, event) l) /\ pending q' event = Some (_when saved).
Proof.
  intros (bs & Hq & <-) Hm He Hi Hs Hf Hi' Hs' Hsq Hw [= <- <- <-].
  unfold unserialize. rewrite He. cbn [deref mbind res_bind]. rewrite Hs.
  cbn [mbind res_bind]. rewrite He. cbn [deref mbind res_bind].
  change (initialized (e <| _when := _when saved |> <| _priority := _priority saved |>))
    with (initialized e). rewrite Hi, u16_sgn by done. cbn [assert_ mbind res_bind].
  assert (fl_isSet (fl_set (flags saved) Initialized) Scheduled &&
    negb (fl_isSet (fl_set (flags saved) Initialized) Squashed) = true) as ->.
  { rewrite !fl_isSet_set_other by reflexivity. unfold scheduled, squashed in *.
    by rewrite Hs', Hsq. }
  set (e2 := (e <| _when := _when saved |> <| _priority := _priority saved |>)
    <| flags := fl_clear (fl_set (flags saved) Initialized) (Z.lor Squashed Scheduled) |>).
  set (q2 := q <| evs := <[event := e2]> (evs q) |>).
  pose proof (not_scheduled_off _ _ _ _ Hq He Hs) as Hoff.
  assert (scheduled e2 = false) as Hs2.
  { pose proof (fl_isSet_clear (fl_set (flags saved) Initialized) (Z.lor Squashed Scheduled)) as H.
    rewrite fl_isSet_lor in H. by apply orb_false_iff in H as [_ H]. }
  assert (queue_ok q2 bs) as Hq2 by (by apply queue_ok_put_idle).
  destruct (schedule_ok q2 bs event e2 (_when saved) false) as (q' & bs' & e' & H & Hq' & Ho & _ & _ & He' & Hw' & Hs'');
    [done|apply lookup_insert_eq|done|done| |done|unfold q2; cbn; by rewrite Hm|].
  - unfold initialized in *. apply Z.eqb_eq in Hi'. apply Z.eqb_eq.
    change (flags e2)
      with (fl_clear (fl_set (flags saved) Initialized) (Z.lor Squashed Scheduled)).
    rewrite fl_land_clear_other by reflexivity. unfold fl_set.
    by rewrite Z.land_lor_distr_l, Hi'.
  - exists q'. split; [done|]. split; [by exists bs'|]. unfold pending. by rewrite He', Hs'', Hw'.
Qed.

(** ** Concrete queues *)

(** A new queue is well formed, whatever the store, as long as no event claims
    to be scheduled on it. *)
Lemma new_queue_ok h id mode cur :
  (forall a e, h !! a = Some e -> scheduled e = true -> queue e <> Some id) ->
  q_ok (new_EventQueue h id mode cur).
Proof.
  intros Hh. exists []. constructor; cbn; [|done|constructor|by intros ? ?%elem_of_nil|].
  - by constructor; cbn; [|constructor|constructor|constructor].
  - intros a e He. split; [|by intros ?%elem_of_nil]. intros [H1 H2]. by destruct (Hh _ _ He H1).
Qed.

(** The order of a queue can be read off its walk. *)
Definition keyed (h : heap) (ls : list loc) : list (key * loc) :=
  (fun a => (default (0, 0) (evkey <$> h !! a), a)) <$> ls.

Lemma repr_walk q ls : q_ok q -> walk q = Ok ls -> repr q (keyed (evs q) ls).
Proof.
  intros [bs Hq] Hw. rewrite (walk_ok _ _ Hq) in Hw. injection Hw as <-.
  exists bs. split; [done|]. pose proof (bins_key _ _ _ (ok_bins _ _ Hq)) as Hk.
  unfold keyed, locs. rewrite <- list_fmap_compose. rewrite <- (list_fmap_id (order bs)) at 1.
  apply list_fmap_ext. intros i x Hx%list_elem_of_lookup_2.
  apply (proj1 (Forall_forall _ _) Hk) in Hx. cbn in *. rewrite Hx. by destruct x.
Qed.

(** Three events: two at the same tick and priority, one earlier. *)
Definition demo_ops : list op :=
  [OpNew 1 Default_Pri 0; OpNew 2 Default_Pri AutoDelete; OpNew 3 CPU_Tick_Pri 0;
   OpNew 4 Default_Pri 0;
   OpSchedule 1 20 false; OpSchedule 2 20 false; OpSchedule 3 10 false].
Definition demo : EventQueue :=
  match run_ops demo_ops (new_EventQueue ∅ 0 false 0) with
  | Ok q => q
  | Err _ => new_EventQueue ∅ 0 false 0
  end.
Definition demo_order : list (key * loc) :=
  [((10, CPU_Tick_Pri), 3%positive); ((20, 0), 2%positive); ((20, 0), 1%positive)].

Lemma demo_ok : q_ok demo.
Proof.
  assert (q_ok (new_EventQueue ∅ 0 false 0)) as H0 by (by apply new_queue_ok).
  destruct (run_ops demo_ops (new_EventQueue ∅ 0 false 0)) as [q|] eqn:E.
  - unfold demo. rewrite E. eapply run_ops_inv; [exact H0|exact E].
  - vm_compute in E. discriminate E.
Qed.

Lemma demo_repr : repr demo demo_order.
Proof. apply (repr_walk demo [3; 2; 1]%positive); [apply demo_ok|vm_compute; reflexivity]. Qed.

Definition idle4 : Event := mkEvent None None 0 Default_Pri Initialized None.

Lemma demo_idle4 : evs demo !! 4%positive = Some idle4.
Proof. vm_compute. reflexivity. Qed.

Lemma demo_serial : inParallelMode demo = false.
Proof. vm_compute. reflexivity. Qed.
Lemma demo_tick : _curTick demo <= 20.
Proof. vm_compute. discriminate. Qed.

Lemma queue_refines_witness :
  exists q', eq_schedule 4 20 false demo = Ok q' /\
    repr q' (spec_insert ((20, Default_Pri), 4%positive) demo_order).
Proof.
  destruct (queue_refines demo demo_order 4 idle4 demo_repr demo_idle4 eq_refl demo_serial)
    as (_ & _ & _ & H & _).
  exact (H 20 demo_tick eq_refl).
Defined.

Definition demo_next : EventQueue :=
  match serviceOne idle demo with Ok (q, _) => q | Err _ => demo end.

Lemma demo_turn : turn idle demo demo_next.
Proof. exists None. vm_compute. reflexivity. Qed.

Lemma simulation_in_time_witness :
  q_ok demo_next /\ _curTick demo <= _curTick demo_next /\
  (head demo_next <> None -> exists t event q', nextTick demo_next = Ok t /\
     _curTick demo_next <= t /\ pop_head demo_next = Ok (event, q') /\ q_ok q').
Proof.
  exact (simulation_in_time idle demo demo_next demo_ok (rtc_once _ _ demo_turn)).
Defined.

Lemma debugVerify_spec_witness : debugVerify demo = Ok true.
Proof. apply (debugVerify_spec demo demo_order demo_repr). vm_compute. discriminate. Defined.

Lemma schedule_contract_witness :
  exists q', eq_schedule 4 20 false demo = Ok q' /\ q_ok q' /\ _curTick q' = _curTick demo /\
    pending q' 4 = Some 20 /\ forall a, a <> 4%positive -> pending q' a = pending demo a.
Proof.
  assert (schedule (pending demo 4) (_curTick demo) 20 = Ok (Some 20)) as E
    by (vm_compute; reflexivity).
  pose proof (schedule_contract demo 4 idle4 20 demo_ok demo_idle4 eq_refl demo_serial) as H.
  rewrite E in H. exact H.
Defined.

Lemma serviceEvents_drains_witness :
  exists q', serviceEvents idle 4 15 demo = Ok q' /\
    repr q' (filter (fun x => 15 < x.1.1) demo_order) /\ _curTick q' = 15.
Proof.
  apply (serviceEvents_drains demo demo_order 4 15 demo_repr); [|cbn; lia].
  assert (map_Forall (fun _ e => silly e = false) (evs demo)) as H.
  { apply (bool_decide_eq_true_1 _). vm_compute. reflexivity. }
  intros a e He. exact (H a e He).
Defined.

Definition saved5 : Event := mkEvent None None 30 (-1) (Z.lor Initialized Scheduled) (Some 0).

Lemma unserialize_roundtrip_witness :
  exists q', unserialize 4 30 (-1) (sgn 16 (Z.lor Initialized Scheduled)) demo = Ok q' /\
    repr q' (spec_insert ((30, -1), 4%positive) demo_order) /\ pending q' 4 = Some 30.
Proof.
  assert (_curTick demo <= _when saved5) as Hw by (vm_compute; discriminate).
  assert (inw 16 (flags saved5)) as Hf by (vm_compute; split; congruence).
  exact (unserialize_roundtrip demo demo_order 4 idle4 saved5 30 (-1)
    (sgn 16 (Z.lor Initialized Scheduled)) demo_repr demo_serial demo_idle4 eq_refl eq_refl
    Hf eq_refl eq_refl eq_refl Hw eq_refl).
Defined.

End Queue.
