(* ===== verification/Packet.v ===== *)
(** * Packets: commands, attributes, and the packet operations

    Models [mem/packet.hh] and [mem/packet.cc] with the parts of
    [mem/request.hh] and [base/flags.hh] the packet uses.  A packet is a
    record; its data pointer is [None] for null; the chain of sender states
    linked by [predecessor] is a list whose head is the current one.  Printing
    and tracing are left out. *)

From S2P Require Import Prelude.
From S2P Require Import Flags.

(** ** MemCmd *)
Inductive Command :=
| InvalidCmd | ReadReq | ReadResp | ReadRespWithInvalidate
| WriteReq | WriteResp | Writeback
| SoftPFReq | HardPFReq | SoftPFResp | HardPFResp
| WriteInvalidateReq | WriteInvalidateResp
| UpgradeReq | SCUpgradeReq | UpgradeResp | SCUpgradeFailReq | UpgradeFailResp
| ReadExReq | ReadExResp
| LoadLockedReq | StoreCondReq | StoreCondFailReq | StoreCondResp
| SwapReq | SwapResp | MessageReq | MessageResp
| InvalidDestError | BadAddressError | FunctionalReadError | FunctionalWriteError
| PrintReq | FlushReq | InvalidationReq.

#[global] Instance Command_eq_dec : EqDecision Command.
Proof. solve_decision. Defined.

Inductive Attribute :=
| IsRead | IsWrite | IsUpgrade | IsInvalidate | NeedsExclusive | IsRequest
| IsResponse | NeedsResponse | IsSWPrefetch | IsHWPrefetch | IsLlsc | HasData
| IsError | IsPrint | IsFlush.

(** The value of the enumerator. *)
Definition attr_index (a : Attribute) : Z :=
  match a with
  | IsRead => 0 | IsWrite => 1 | IsUpgrade => 2 | IsInvalidate => 3
  | NeedsExclusive => 4 | IsRequest => 5 | IsResponse => 6 | NeedsResponse => 7
  | IsSWPrefetch => 8 | IsHWPrefetch => 9 | IsLlsc => 10 | HasData => 11
  | IsError => 12 | IsPrint => 13 | IsFlush => 14
  end.

(** [SET1(a) | SET1(b) | ...] *)
Definition SETN (l : list Attribute) : Z :=
  fold_right (fun a acc => Z.lor (Z.shiftl 1 (attr_index a)) acc) 0 l.

Record CommandInfo := mkInfo {
  attributes : Z;
  response : Command;
  str : string
}.

(** The table [MemCmd::commandInfo], indexed by the command. *)
Definition commandInfo (c : Command) : CommandInfo :=
  match c with
  | InvalidCmd => mkInfo 0 InvalidCmd "InvalidCmd"
  | ReadReq => mkInfo (SETN [IsRead; IsRequest; NeedsResponse]) ReadResp "ReadReq"
  | ReadResp => mkInfo (SETN [IsRead; IsResponse; HasData]) InvalidCmd "ReadResp"
  | ReadRespWithInvalidate =>
      mkInfo (SETN [IsRead; IsResponse; HasData; IsInvalidate]) InvalidCmd "ReadRespWithInvalidate"
  | WriteReq =>
      mkInfo (SETN [IsWrite; NeedsExclusive; IsRequest; NeedsResponse; HasData]) WriteResp "WriteReq"
  | WriteResp => mkInfo (SETN [IsWrite; NeedsExclusive; IsResponse]) InvalidCmd "WriteResp"
  | Writeback => mkInfo (SETN [IsWrite; NeedsExclusive; IsRequest; HasData]) InvalidCmd "Writeback"
  | SoftPFReq => mkInfo (SETN [IsRead; IsRequest; IsSWPrefetch; NeedsResponse]) SoftPFResp "SoftPFReq"
  | HardPFReq => mkInfo (SETN [IsRead; IsRequest; IsHWPrefetch; NeedsResponse]) HardPFResp "HardPFReq"
  | SoftPFResp => mkInfo (SETN [IsRead; IsResponse; IsSWPrefetch; HasData]) InvalidCmd "SoftPFResp"
  | HardPFResp => mkInfo (SETN [IsRead; IsResponse; IsHWPrefetch; HasData]) InvalidCmd "HardPFResp"
  | WriteInvalidateReq =>
      mkInfo (SETN [IsWrite; NeedsExclusive; IsInvalidate; IsRequest; HasData; NeedsResponse])
             WriteInvalidateResp "WriteInvalidateReq"
  | WriteInvalidateResp =>
      mkInfo (SETN [IsWrite; NeedsExclusive; IsResponse]) InvalidCmd "WriteInvalidateResp"
  | UpgradeReq =>
      mkInfo (SETN [IsInvalidate; NeedsExclusive; IsUpgrade; IsRequest; NeedsResponse])
             UpgradeResp "UpgradeReq"
  | SCUpgradeReq =>
      mkInfo (SETN [IsInvalidate; NeedsExclusive; IsUpgrade; IsLlsc; IsRequest; NeedsResponse])
             UpgradeResp "SCUpgradeReq"
  | UpgradeResp => mkInfo (SETN [NeedsExclusive; IsUpgrade; IsResponse]) InvalidCmd "UpgradeResp"
  | SCUpgradeFailReq =>
      mkInfo (SETN [IsRead; NeedsExclusive; IsInvalidate; IsLlsc; IsRequest; NeedsResponse])
             UpgradeFailResp "SCUpgradeFailReq"
  | UpgradeFailResp =>
      mkInfo (SETN [IsRead; NeedsExclusive; IsResponse; HasData]) InvalidCmd "UpgradeFailResp"
  | ReadExReq =>
      mkInfo (SETN [IsRead; NeedsExclusive; IsInvalidate; IsRequest; NeedsResponse])
             ReadExResp "ReadExReq"
  | ReadExResp => mkInfo (SETN [IsRead; NeedsExclusive; IsResponse; HasData]) InvalidCmd "ReadExResp"
  | LoadLockedReq => mkInfo (SETN [IsRead; IsLlsc; IsRequest; NeedsResponse]) ReadResp "LoadLockedReq"
  | StoreCondReq =>
      mkInfo (SETN [IsWrite; NeedsExclusive; IsLlsc; IsRequest; NeedsResponse; HasData])
             StoreCondResp "StoreCondReq"
  | StoreCondFailReq =>
      mkInfo (SETN [IsWrite; NeedsExclusive; IsLlsc; IsRequest; NeedsResponse; HasData])
             StoreCondResp "StoreCondFailReq"
  | StoreCondResp => mkInfo (SETN [IsWrite; NeedsExclusive; IsLlsc; IsResponse]) InvalidCmd "StoreCondResp"
  | SwapReq =>
      mkInfo (SETN [IsRead; IsWrite; NeedsExclusive; IsRequest; HasData; NeedsResponse])
             SwapResp "SwapReq"
  | SwapResp =>
      mkInfo (SETN [IsRead; IsWrite; NeedsExclusive; IsResponse; HasData]) InvalidCmd "SwapResp"
  | MessageReq => mkInfo (SETN [IsWrite; IsRequest; NeedsResponse; HasData]) MessageResp "MessageReq"
  | MessageResp => mkInfo (SETN [IsWrite; IsResponse]) InvalidCmd "MessageResp"
  | InvalidDestError => mkInfo (SETN [IsResponse; IsError]) InvalidCmd "InvalidDestError"
  | BadAddressError => mkInfo (SETN [IsResponse; IsError]) InvalidCmd "BadAddressError"
  | FunctionalReadError => mkInfo (SETN [IsRead; IsResponse; IsError]) InvalidCmd "FunctionalReadError"
  | FunctionalWriteError => mkInfo (SETN [IsWrite; IsResponse; IsError]) InvalidCmd "FunctionalWriteError"
  | PrintReq => mkInfo (SETN [IsRequest; IsPrint]) InvalidCmd "PrintReq"
  | FlushReq => mkInfo (SETN [IsRequest; IsFlush; NeedsExclusive]) InvalidCmd "FlushReq"
  | InvalidationReq => mkInfo (SETN [NeedsExclusive; IsInvalidate; IsRequest]) InvalidCmd "InvalidationReq"
  end.

Definition testCmdAttrib (c : Command) (a : Attribute) : bool :=
  Z.testbit (attributes (commandInfo c)) (attr_index a).

Definition cmd_isRead c := testCmdAttrib c IsRead.
Definition cmd_isWrite c := testCmdAttrib c IsWrite.
Definition cmd_isUpgrade c := testCmdAttrib c IsUpgrade.
Definition cmd_isRequest c := testCmdAttrib c IsRequest.
Definition cmd_isResponse c := testCmdAttrib c IsResponse.
Definition cmd_needsExclusive c := testCmdAttrib c NeedsExclusive.
Definition cmd_needsResponse c := testCmdAttrib c NeedsResponse.
Definition cmd_isInvalidate c := testCmdAttrib c IsInvalidate.
Definition cmd_hasData c := testCmdAttrib c HasData.
Definition cmd_isReadWrite c := cmd_isRead c && cmd_isWrite c.
Definition cmd_isLLSC c := testCmdAttrib c IsLlsc.
Definition cmd_isPrefetch c := testCmdAttrib c IsSWPrefetch || testCmdAttrib c IsHWPrefetch.
Definition cmd_isError c := testCmdAttrib c IsError.
Definition cmd_isPrint c := testCmdAttrib c IsPrint.
Definition cmd_isFlush c := testCmdAttrib c IsFlush.
Definition responseCommand (c : Command) : Command := response (commandInfo c).

(** ** Request: the fields the memory system below the processor reads *)
Record Request := mkRequest {
  _paddr : Z;
  _size : Z;
  _masterId : Z;
  _flags : Z;
  privateFlags : Z;
  _extraData : Z;
  _contextId : Z
}.

Definition INST_FETCH : Z := 0x100.
Definition UNCACHEABLE : Z := 0x1000.
Definition LLSC : Z := 0x200000.
Definition MEM_SWAP : Z := 0x400000.
Definition MEM_SWAP_COND : Z := 0x800000.
Definition PREFETCH : Z := 0x1000000.
Definition SECURE : Z := 0x10000000.
Definition REQ_VALID_SIZE : Z := 0x1.
Definition REQ_VALID_PADDR : Z := 0x2.
Definition REQ_VALID_CONTEXT_ID : Z := 0x20.
Definition REQ_VALID_EXTRA_DATA : Z := 0x80.

(** [Request(paddr, size, flags, mid)], which calls [setPhys]. *)
Definition Request_new (paddr sz fl mid : Z) : res Request :=
  _ ← assert_ (0 <=? sz);
  Ok (mkRequest paddr sz mid fl (Z.lor REQ_VALID_PADDR REQ_VALID_SIZE) 0 0).

Definition hasPaddr (r : Request) : bool := fl_isSet (privateFlags r) REQ_VALID_PADDR.
Definition getPaddr (r : Request) : res Z := _ ← assert_ (hasPaddr r); Ok (_paddr r).
Definition hasSize (r : Request) : bool := fl_isSet (privateFlags r) REQ_VALID_SIZE.
Definition req_getSize (r : Request) : res Z := _ ← assert_ (hasSize r); Ok (_size r).
Definition getExtraData (r : Request) : res Z :=
  _ ← assert_ (fl_isSet (privateFlags r) REQ_VALID_EXTRA_DATA); Ok (_extraData r).
Definition setExtraData (v : Z) (r : Request) : Request :=
  r <| _extraData := v |> <| privateFlags := fl_set (privateFlags r) REQ_VALID_EXTRA_DATA |>.
Definition contextId (r : Request) : res Z :=
  _ ← assert_ (fl_isSet (privateFlags r) REQ_VALID_CONTEXT_ID); Ok (_contextId r).
Definition isInstFetch (r : Request) : bool := fl_isSet (_flags r) INST_FETCH.
Definition isUncacheable (r : Request) : bool := fl_isSet (_flags r) UNCACHEABLE.
Definition req_isPrefetch (r : Request) : bool := fl_isSet (_flags r) PREFETCH.
Definition req_isLLSC (r : Request) : bool := fl_isSet (_flags r) LLSC.
Definition isSwap (r : Request) : bool := fl_isSet (_flags r) (Z.lor MEM_SWAP MEM_SWAP_COND).
Definition isCondSwap (r : Request) : bool := fl_isSet (_flags r) MEM_SWAP_COND.
Definition req_isSecure (r : Request) : bool := fl_isSet (_flags r) SECURE.

(** ** Packet *)

(** The subclasses of [Packet::SenderState] the modelled components push, and
    one for states pushed by others. *)
Inductive SenderState :=
| AddrMapperSenderState (origAddr : Z)
| BridgeRequestState (origSrc : Z)
| PIMIFRequestState (origSrc : Z)
| OtherSenderState (id : Z).

#[global] Instance SenderState_eq_dec : EqDecision SenderState.
Proof. solve_decision. Defined.

Record Packet := mkPacket {
  IS_REMAPPED : bool;
  ATOMIC_HMC_COMMAND : Z;
  ATOMIC_HMC_OPERAND : Z;
  flags : Z;
  cmd : Command;
  req : Request;
  data : option (list Z);
  addr : Z;
  _isSecure : bool;
  psize : Z;
  src : Z;
  dest : Z;
  origCmd : Command;
  bytesValidStart : Z;
  bytesValidEnd : Z;
  firstWordDelay : Z;
  lastWordDelay : Z;
  senderState : list SenderState
}.

Definition InvalidPortID : Z := -1.

Definition COPY_FLAGS : Z := 0xF.
Definition SHARED : Z := 0x1.
Definition EXPRESS_SNOOP : Z := 0x2.
Definition SUPPLY_EXCLUSIVE : Z := 0x4.
Definition MEM_INHIBIT : Z := 0x8.
Definition VALID_ADDR : Z := 0x100.
Definition VALID_SIZE : Z := 0x200.
Definition STATIC_DATA : Z := 0x1000.
Definition DYNAMIC_DATA : Z := 0x2000.
Definition ARRAY_DATA : Z := 0x4000.

Definition isRead (p : Packet) := cmd_isRead (cmd p).
Definition isWrite (p : Packet) := cmd_isWrite (cmd p).
Definition isRequest (p : Packet) := cmd_isRequest (cmd p).
Definition isResponse (p : Packet) := cmd_isResponse (cmd p).
Definition needsResponse (p : Packet) := cmd_needsResponse (cmd p).
Definition needsExclusive (p : Packet) := cmd_needsExclusive (cmd p).
Definition isInvalidate (p : Packet) := cmd_isInvalidate (cmd p).
Definition hasData (p : Packet) := cmd_hasData (cmd p).
Definition isLLSC (p : Packet) := cmd_isLLSC (cmd p).
Definition isError (p : Packet) := cmd_isError (cmd p).
Definition isPrint (p : Packet) := cmd_isPrint (cmd p).

Definition assertMemInhibit (p : Packet) : Packet := p <| flags := fl_set (flags p) MEM_INHIBIT |>.
Definition memInhibitAsserted (p : Packet) : bool := fl_isSet (flags p) MEM_INHIBIT.
Definition assertShared (p : Packet) : Packet := p <| flags := fl_set (flags p) SHARED |>.
Definition sharedAsserted (p : Packet) : bool := fl_isSet (flags p) SHARED.
Definition isExpressSnoop (p : Packet) : bool := fl_isSet (flags p) EXPRESS_SNOOP.
Definition setExpressSnoop (p : Packet) : Packet := p <| flags := fl_set (flags p) EXPRESS_SNOOP |>.

Definition setBadAddress (p : Packet) : res Packet :=
  _ ← assert_ (isResponse p); Ok (p <| cmd := BadAddressError |>).
Definition copyError (p pkt : Packet) : res Packet :=
  _ ← assert_ (isError pkt); Ok (p <| cmd := cmd pkt |>).

Definition isSrcValid (p : Packet) : bool := negb (src p =? InvalidPortID).
Definition getSrc (p : Packet) : res Z := _ ← assert_ (isSrcValid p); Ok (src p).
Definition setSrc (i : Z) (p : Packet) : Packet := p <| src := i |>.
Definition isDestValid (p : Packet) : bool := negb (dest p =? InvalidPortID).
Definition getDest (p : Packet) : res Z := _ ← assert_ (isDestValid p); Ok (dest p).
Definition setDest (i : Z) (p : Packet) : Packet := p <| dest := i |>.
Definition clearDest (p : Packet) : Packet := p <| dest := InvalidPortID |>.

Definition getAddr (p : Packet) : res Z :=
  _ ← assert_ (fl_isSet (flags p) VALID_ADDR); Ok (addr p).
Definition setAddr (a : Z) (p : Packet) : res Packet :=
  _ ← assert_ (fl_isSet (flags p) VALID_ADDR); Ok (p <| addr := a |>).
Definition getSize (p : Packet) : res Z :=
  _ ← assert_ (fl_isSet (flags p) VALID_SIZE); Ok (psize p).
Definition getOffset (blkSize : Z) (p : Packet) : res Z :=
  a ← getAddr p; Ok (Z.land a (u64 (blkSize - 1))).
Definition isSecure (p : Packet) : res bool :=
  _ ← assert_ (fl_isSet (flags p) VALID_ADDR); Ok (_isSecure p).

Definition convertScToWrite (p : Packet) : res Packet :=
  _ ← assert_ (isLLSC p); _ ← assert_ (isWrite p); Ok (p <| cmd := WriteReq |>).
Definition convertLlToRead (p : Packet) : res Packet :=
  _ ← assert_ (isLLSC p); _ ← assert_ (isRead p); Ok (p <| cmd := ReadReq |>).

(** [Packet(req, cmd)].  The constructor leaves [origCmd] at its default. *)
Definition Packet_new (r : Request) (c : Command) : res Packet :=
  let p := mkPacket false 0 0 0 c r None 0 false 0 InvalidPortID InvalidPortID
                    InvalidCmd 0 0 0 0 [] in
  p ← (if hasPaddr r then
         a ← getPaddr r;
         Ok (p <| addr := a |> <| flags := fl_set (flags p) VALID_ADDR |>
               <| _isSecure := req_isSecure r |>)
       else Ok p);
  (if hasSize r then
     s ← req_getSize r;
     Ok (p <| psize := s |> <| flags := fl_set (flags p) VALID_SIZE |>)
   else Ok p).

(** [Packet(req, cmd, blkSize)] *)
Definition Packet_blk (r : Request) (c : Command) (blkSize : Z) : res Packet :=
  let p := mkPacket false 0 0 0 c r None 0 false 0 InvalidPortID InvalidPortID
                    InvalidCmd 0 0 0 0 [] in
  p ← (if hasPaddr r then
         a ← getPaddr r;
         Ok (p <| addr := Z.land a (u64 (Z.lnot (blkSize - 1))) |>
               <| flags := fl_set (flags p) VALID_ADDR |>
               <| _isSecure := req_isSecure r |>)
       else Ok p);
  Ok (p <| psize := blkSize |> <| flags := fl_set (flags p) VALID_SIZE |>).

(** [Packet(pkt, clearFlags)]: dynamic data is not shared with the copy. *)
Definition Packet_copy (pkt : Packet) (clearFlags : bool) : Packet :=
  let f := if clearFlags then 0 else Z.land (flags pkt) COPY_FLAGS in
  let f := fl_set f (Z.land (flags pkt) (Z.lor VALID_ADDR VALID_SIZE)) in
  let f := fl_set f (Z.land (flags pkt) STATIC_DATA) in
  mkPacket false 0 0 f (cmd pkt) (req pkt)
    (if fl_isSet (flags pkt) STATIC_DATA then data pkt else None)
    (addr pkt) (_isSecure pkt) (psize pkt) (src pkt) (dest pkt) InvalidCmd
    (bytesValidStart pkt) (bytesValidEnd pkt) (firstWordDelay pkt)
    (lastWordDelay pkt) (senderState pkt).

Definition refineCommand (p : Packet) : Packet :=
  if decide (cmd p = ReadReq) then
    if req_isLLSC (req p) then p <| cmd := LoadLockedReq |>
    else if req_isPrefetch (req p) then p <| cmd := SoftPFReq |>
    else p
  else if decide (cmd p = WriteReq) then
    if req_isLLSC (req p) then p <| cmd := StoreCondReq |>
    else if isSwap (req p) then p <| cmd := SwapReq |>
    else p
  else p.

Definition createRead (r : Request) : res Packet :=
  p ← Packet_new r ReadReq; Ok (refineCommand p).
Definition createWrite (r : Request) : res Packet :=
  p ← Packet_new r WriteReq; Ok (refineCommand p).

Definition deleteData (p : Packet) : Packet :=
  p <| flags := fl_clear (flags p) (Z.lor STATIC_DATA (Z.lor DYNAMIC_DATA ARRAY_DATA)) |>
    <| data := None |>.

Definition reinitFromRequest (p : Packet) : res Packet :=
  _ ← assert_ (hasPaddr (req p));
  a ← getPaddr (req p);
  s ← req_getSize (req p);
  Ok (deleteData
    (p <| addr := a |> <| _isSecure := req_isSecure (req p) |> <| psize := s |>
       <| src := InvalidPortID |> <| dest := InvalidPortID |>
       <| bytesValidStart := 0 |> <| bytesValidEnd := 0 |>
       <| firstWordDelay := 0 |> <| lastWordDelay := 0 |>
       <| flags := Z.lor VALID_ADDR VALID_SIZE |>)).

Definition makeResponse (p : Packet) : res Packet :=
  _ ← assert_ (needsResponse p);
  _ ← assert_ (isRequest p);
  Ok (p <| origCmd := cmd p |> <| cmd := responseCommand (cmd p) |>
        <| flags := fl_clear (flags p) EXPRESS_SNOOP |>
        <| dest := src p |> <| src := InvalidPortID |>).

Definition setFunctionalResponseStatus (success : bool) (p : Packet) : Packet :=
  if negb success then
    if isWrite p then p <| cmd := FunctionalWriteError |>
    else p <| cmd := FunctionalReadError |>
  else p.

Definition setSize (s : Z) (p : Packet) : res Packet :=
  _ ← assert_ (negb (fl_isSet (flags p) VALID_SIZE));
  Ok (p <| psize := s |> <| flags := fl_set (flags p) VALID_SIZE |>).

Definition data_flags : Z := Z.lor STATIC_DATA (Z.lor DYNAMIC_DATA ARRAY_DATA).

Definition dataStatic (d : list Z) (p : Packet) : res Packet :=
  _ ← assert_ (fl_noneSet (flags p) data_flags);
  Ok (p <| data := Some d |> <| flags := fl_set (flags p) STATIC_DATA |>).

Definition dataDynamicArray (d : list Z) (p : Packet) : res Packet :=
  _ ← assert_ (fl_noneSet (flags p) data_flags);
  Ok (p <| data := Some d |> <| flags := fl_set (flags p) (Z.lor DYNAMIC_DATA ARRAY_DATA) |>).

Definition dataDynamic (d : list Z) (p : Packet) : res Packet :=
  _ ← assert_ (fl_noneSet (flags p) data_flags);
  Ok (p <| data := Some d |> <| flags := fl_set (flags p) DYNAMIC_DATA |>).

(** [getPtr<uint8_t>()]: the bytes behind the pointer; null is undefined. *)
Definition getPtr (p : Packet) : res (list Z) :=
  _ ← assert_ (fl_isSet (flags p) (Z.lor STATIC_DATA DYNAMIC_DATA));
  deref (data p).

(** [getPtr<uintW_t>()[i]] for a word of [w] bytes. *)
Definition getPtr_word (w i : Z) (p : Packet) : res Z :=
  d ← getPtr p; arr_word d w i.

(** Overwrite a prefix of the packet's bytes. *)
Definition put_data (off : Z) (bs : list Z) (p : Packet) : res Packet :=
  d ← getPtr p; d' ← arr_write d off bs; Ok (p <| data := Some d' |>).

(** [setData(p)]: copies [getSize()] bytes. *)
Definition setData (d : list Z) (p : Packet) : res Packet :=
  s ← getSize p; bs ← arr_read d 0 s; put_data 0 bs p.

Definition setDataFromBlock (blk : list Z) (blkSize : Z) (p : Packet) : res Packet :=
  o ← getOffset blkSize p; setData (drop (Z.to_nat o) blk) p.

(** [writeData(p)]: the bytes written through [p], and the memory after. *)
Definition writeData (m : list Z) (p : Packet) : res (list Z) :=
  s ← getSize p; d ← getPtr p; bs ← arr_read d 0 s; arr_write m 0 bs.

Definition writeDataToBlock (blk : list Z) (blkSize : Z) (p : Packet) : res (list Z) :=
  o ← getOffset blkSize p;
  s ← getSize p; d ← getPtr p; bs ← arr_read d 0 s; arr_write blk o bs.

Definition allocate (p : Packet) : res Packet :=
  match data p with
  | Some _ =>
      _ ← assert_ (fl_isSet (flags p) (Z.lor STATIC_DATA DYNAMIC_DATA)); Ok p
  | None =>
      _ ← assert_ (fl_noneSet (flags p) (Z.lor STATIC_DATA DYNAMIC_DATA));
      s ← getSize p;
      Ok (p <| flags := fl_set (flags p) (Z.lor DYNAMIC_DATA ARRAY_DATA) |>
            <| data := Some (replicate (Z.to_nat s) 0) |>)
  end.

(** ** The stack of sender states *)
Definition pushSenderState (s : SenderState) (p : Packet) : Packet :=
  p <| senderState := s :: senderState p |>.

Definition popSenderState (p : Packet) : res (SenderState * Packet) :=
  match senderState p with
  | [] => Err AssertFailed
  | s :: ss => Ok (s, p <| senderState := ss |>)
  end.

(** [findNextSenderState<T>()], with the dynamic cast as a test. *)
Definition findNextSenderState (is_T : SenderState -> bool) (p : Packet) : option SenderState :=
  head (List.filter is_T (senderState p)).

(** ** checkFunctional

    A functional request against the bytes [vdata] of a value held at
    [vaddr].  A read may be satisfied from the value, possibly piecewise over
    several calls ([bytesValidStart], [bytesValidEnd] record the bytes found so
    far); a write updates the value.  The result is the packet, the value's
    bytes, and whether the request is complete. *)

(** How much of a partial overlap to copy: offsets into the packet and into
    the value, and the size. *)
Definition partial_overlap (func_start func_end val_start val_end vsize : Z)
  : res (Z * Z * Z) :=
  if (val_start <? func_start) && (val_end <=? func_end) then
    Ok (0, s32 (func_start - val_start), s32 (val_end - func_start))
  else if (func_start <=? val_start) && (func_end <? val_end) then
    Ok (s32 (val_start - func_start), 0, s32 (func_end - val_start))
  else if (func_start <=? val_start) && (val_end <=? func_end) then
    Ok (s32 (val_start - func_start), 0, vsize)
  else panic.

(** Merge the piece found with the pieces copied before; the first component
    is the packet after a first copy, when the piece extends both ends. *)
Definition merge_valid (p : Packet) (vdata : list Z) (func_offset val_offset overlap_size : Z)
  : res (Packet * Z * Z * Z) :=
  let bvs := bytesValidStart p in
  let bve := bytesValidEnd p in
  if (bvs =? 0) && (bve =? 0) then
    Ok (p <| bytesValidStart := u16 func_offset |>
          <| bytesValidEnd := u16 (func_offset + overlap_size) |>,
        func_offset, val_offset, overlap_size)
  else
    let a := func_offset - bvs in
    let b := (func_offset + overlap_size) - bve in
    let c := func_offset - bve in
    let d := (func_offset + overlap_size) - bvs in
    if (0 <=? a) && (b <=? 0) then
      Ok (p, func_offset, val_offset, 0)
    else if (a <? 0) && (0 <=? d) && (b <=? 0) then
      Ok (p <| bytesValidStart := u16 func_offset |>,
          func_offset, val_offset, bvs - func_offset)
    else if (0 <? b) && (c <=? 0) && (0 <=? a) then
      let overlap_size := (func_offset + overlap_size) - bve in
      Ok (p <| bytesValidEnd := u16 (bve + overlap_size) |>,
          bve, val_offset + (bve - func_offset), overlap_size)
    else if (a <? 0) && (0 <? b) then
      bs ← arr_read vdata val_offset (bvs - func_offset);
      p ← put_data func_offset bs p;
      let overlap_size' := (func_offset + overlap_size) - bve in
      Ok (p <| bytesValidStart := u16 func_offset |>
            <| bytesValidEnd := u16 (bve + overlap_size') |>,
          bve, val_offset + (bve - func_offset), overlap_size')
    else if ((0 <? c) && (0 <? b)) || ((a <? 0) && (d <? 0)) then panic
    else Ok (p, func_offset, val_offset, overlap_size).

Definition checkFunctional_bytes (p : Packet) (vaddr : Z) (is_secure : bool) (vsize : Z)
    (vdata : option (list Z)) : res (Packet * option (list Z) * bool) :=
  func_start ← getAddr p;
  psz ← getSize p;
  let func_end := u64 (u64 (func_start + psz) - 1) in
  let val_start := vaddr in
  let val_end := u64 (u64 (val_start + vsize) - 1) in
  if negb (Bool.eqb is_secure (_isSecure p)) || (val_end <? func_start) || (func_end <? val_start)
  then Ok (p, vdata, false)
  else if isPrint p then Ok (p, vdata, false)
  else match vdata with
  | None => Ok (p, vdata, false)
  | Some vd =>
      let offset := s32 (func_start - val_start) in
      if isRead p then
        if (val_start <=? func_start) && (func_end <=? val_end) then
          p ← allocate p;
          bs ← arr_read vd offset psz;
          p ← put_data 0 bs p;
          Ok (p, vdata, true)
        else
          '(fo, vo, os) ← partial_overlap func_start func_end val_start val_end vsize;
          '(p, fo, vo, os) ← merge_valid p vd fo vo os;
          _ ← assert_ (bytesValidEnd p <=? psz);
          bs ← arr_read vd vo os;
          p ← put_data fo bs p;
          Ok (p, vdata, (bytesValidStart p =? 0) && (bytesValidEnd p =? psz))
      else if isWrite p then
        d ← getPtr p;
        vd' ← (if 0 <=? offset then
                 bs ← arr_read d 0 (Z.min func_end val_end - func_start + 1);
                 arr_write vd offset bs
               else
                 bs ← arr_read d (- offset) (Z.min func_end val_end - val_start + 1);
                 arr_write vd 0 bs);
        Ok (p, Some vd', false)
      else panic
  end.

(** [checkFunctional(other)]: against an in-flight packet. *)
Definition checkFunctional (p other : Packet) : res (Packet * Packet * bool) :=
  vd ← (if hasData other then d ← getPtr other; Ok (Some d) else Ok None);
  a ← getAddr other;
  s ← isSecure other;
  sz ← getSize other;
  '(p, vd, b) ← checkFunctional_bytes p a s sz vd;
  Ok (p, match vd with Some d => other <| data := Some d |> | None => other end, b).

(** ** Lemmas *)

(** Well-formed packets: valid address and size, and as many bytes as the size
    when there is data. *)
Definition pkt_wf (p : Packet) : Prop :=
  fl_isSet (flags p) VALID_ADDR = true /\ fl_isSet (flags p) VALID_SIZE = true /\
  inw 64 (addr p) /\ 0 <= psize p < 2 ^ 31 /\
  (forall d, data p = Some d ->
     fl_isSet (flags p) (Z.lor STATIC_DATA DYNAMIC_DATA) = true /\
     Z.of_nat (length d) = psize p).

Lemma getAddr_ok p : pkt_wf p -> getAddr p = Ok (addr p).
Proof. intros (H & _). unfold getAddr. by rewrite H. Qed.

Lemma getSize_ok p : pkt_wf p -> getSize p = Ok (psize p).
Proof. intros (_ & H & _). unfold getSize. by rewrite H. Qed.

Lemma setAddr_ok p a : pkt_wf p -> setAddr a p = Ok (p <| addr := a |>).
Proof. intros (H & _). unfold setAddr. by rewrite H. Qed.

Lemma getPtr_ok p d : pkt_wf p -> data p = Some d -> getPtr p = Ok d.
Proof. intros (_ & _ & _ & _ & H) E. unfold getPtr. destruct (H d E) as [-> _]. by rewrite E. Qed.

Lemma pkt_wf_setAddr p a : inw 64 a -> pkt_wf p -> pkt_wf (p <| addr := a |>).
Proof. intros Ha (H1 & H2 & H3 & H4 & H5). unfold pkt_wf. cbn. auto. Qed.

Lemma setAddr_same p : p <| addr := addr p |> = p.
Proof. by destruct p. Qed.

#[export] Hint Resolve pkt_wf_setAddr : pim.

(** ** Theorems *)

(** Every command that needs a response is a request, and its response
    command is a response that needs no response itself, with the same
    direction of data flow. *)
Theorem responseCommand_ok (c : Command) :
  cmd_needsResponse c = true ->
  let r := responseCommand c in
  cmd_isRequest c = true /\ cmd_isResponse r = true /\ cmd_isRequest r = false /\
  cmd_needsResponse r = false /\ cmd_isRead r = cmd_isRead c /\ cmd_isWrite r = cmd_isWrite c.
Proof. destruct c; vm_compute; intros; try discriminate; repeat split. Qed.

(** [makeResponse] succeeds exactly on packets that need a response, and turns
    them into a response routed back to the source. *)
Theorem makeResponse_spec (p : Packet) :
  (needsResponse p = false -> makeResponse p = Err AssertFailed) /\
  (needsResponse p = true -> exists p', makeResponse p = Ok p' /\
     isResponse p' = true /\ needsResponse p' = false /\ dest p' = src p /\
     isSrcValid p' = false /\ isExpressSnoop p' = false /\
     addr p' = addr p /\ data p' = data p /\ senderState p' = senderState p).
Proof.
  unfold makeResponse. split; intros H; rewrite H; [done|].
  destruct (responseCommand_ok (cmd p) H) as (H1 & H2 & H3 & H4 & _).
  unfold isRequest. rewrite H1. cbn [assert_ mbind res_bind]. eexists. split; [reflexivity|].
  unfold isResponse, needsResponse, isSrcValid, isExpressSnoop.
  split_and!; try done. apply fl_isSet_clear.
Qed.

(** Popping the state just pushed restores the packet. *)
Theorem pop_push (s : SenderState) (p : Packet) :
  popSenderState (pushSenderState s p) = Ok (s, p).
Proof. by destruct p. Qed.

Lemma s32_small z : - 2 ^ 31 <= z < 2 ^ 31 -> s32 z = z.
Proof.
  intros H. unfold s32, sgn, wrap. change (32 - 1) with 31.
  destruct (Z.lt_ge_cases z 0).
  - replace (z mod 2 ^ 32) with (z + 2 ^ 32)
      by (rewrite <- (Z.mod_add z 1) by lia; rewrite Z.mod_small; lia).
    rewrite (proj2 (Z.ltb_ge _ _)); lia.
  - rewrite Z.mod_small by lia. rewrite (proj2 (Z.ltb_lt _ _)); lia.
Qed.

(** A value held at an address, not wrapping around the address space. *)
Definition value_at (vaddr : Z) (vd : list Z) : Prop :=
  0 <= vaddr /\ 0 < Z.of_nat (length vd) < 2 ^ 31 /\ vaddr + Z.of_nat (length vd) <= 2 ^ 64.

Lemma end_of_range a n : 0 <= a -> 0 < n -> a + n <= 2 ^ 64 -> u64 (u64 (a + n) - 1) = a + n - 1.
Proof.
  intros. unfold u64. rewrite wrap_sub_l. rewrite wrap_id by (unfold inw; lia). lia.
Qed.

(** A functional write updates exactly the bytes of the value it covers and
    leaves the packet alone. *)
Theorem checkFunctional_write (p : Packet) (d : list Z) (vaddr : Z) (vd : list Z) :
  pkt_wf p -> value_at vaddr vd -> data p = Some d -> isWrite p = true ->
  isRead p = false -> isPrint p = false ->
  0 < psize p -> addr p + psize p <= 2 ^ 64 ->
  Z.abs (addr p - vaddr) < 2 ^ 31 ->
  exists vd', checkFunctional_bytes p vaddr (_isSecure p) (Z.of_nat (length vd)) (Some vd)
              = Ok (p, Some vd', false) /\ length vd' = length vd /\
    forall i, (i < length vd)%nat ->
      vd' !! i = if (addr p <=? vaddr + Z.of_nat i) && (vaddr + Z.of_nat i <? addr p + psize p)
                 then d !! Z.to_nat (vaddr + Z.of_nat i - addr p) else vd !! i.
Proof.
  intros Hwf (V1 & V2 & V3) Hd Hw Hr Hpr Hs Hend Hdist.
  pose proof Hwf as (_ & _ & [A1 A2] & [S1 S2] & HD). destruct (HD d Hd) as [_ Hlen].
  unfold checkFunctional_bytes. rewrite getAddr_ok, getSize_ok by done. cbn [mbind res_bind].
  cbv zeta. rewrite !end_of_range by lia. rewrite s32_small by lia.
  rewrite eqb_reflx, Hpr, Hr, Hw. cbn [negb orb].
  destruct (Z.ltb_spec (vaddr + Z.of_nat (length vd) - 1) (addr p));
    [|destruct (Z.ltb_spec (addr p + psize p - 1) vaddr)]; cbn [orb].
  1, 2: exists vd; split_and!; [done..|]; intros i Hi;
    destruct (Z.leb_spec (addr p) (vaddr + Z.of_nat i)),
             (Z.ltb_spec (vaddr + Z.of_nat i) (addr p + psize p)); cbn [andb]; lia || done.
  rewrite (getPtr_ok p d Hwf Hd). cbn [mbind res_bind].
  destruct (Z.leb_spec 0 (addr p - vaddr));
    [ set (o := 0); set (o' := addr p - vaddr) | set (o := - (addr p - vaddr)); set (o' := 0) ];
    (match goal with |- context [arr_read d ?o ?n] =>
      destruct (copy_bytes d o n vd o') as (bs & vd' & -> & Hvd & Hl & Hi); [lia..|] end);
    cbn [mbind res_bind]; rewrite Hvd; cbn [mbind res_bind]; exists vd';
    (split_and!; [done..|]); intros i Hlt; rewrite Hi; subst o o';
    destruct (Z.leb_spec (addr p) (vaddr + Z.of_nat i)),
             (Z.ltb_spec (vaddr + Z.of_nat i) (addr p + psize p)); cbn [andb];
    match goal with |- context [(?a <=? ?b) && (?c <? ?e)] =>
      destruct (Z.leb_spec a b), (Z.ltb_spec c e); cbn [andb]; try lia; try done end;
    f_equal; lia.
Qed.

(** A functional read inside the value is satisfied at once, with the bytes of
    the value. *)
Theorem checkFunctional_read (p : Packet) (d : list Z) (vaddr : Z) (vd : list Z) :
  pkt_wf p -> value_at vaddr vd -> data p = Some d -> isRead p = true -> isPrint p = false ->
  0 < psize p -> vaddr <= addr p -> addr p + psize p <= vaddr + Z.of_nat (length vd) ->
  exists p', checkFunctional_bytes p vaddr (_isSecure p) (Z.of_nat (length vd)) (Some vd)
             = Ok (p', Some vd, true)
    /\ data p' = Some (take (Z.to_nat (psize p)) (drop (Z.to_nat (addr p - vaddr)) vd))
    /\ addr p' = addr p /\ cmd p' = cmd p.
Proof.
  intros Hwf (V1 & V2 & V3) Hd Hr Hpr Hs Hlo Hhi.
  pose proof Hwf as (_ & _ & [A1 A2] & [S1 S2] & HD). destruct (HD d Hd) as [Hfl Hlen].
  unfold checkFunctional_bytes. rewrite getAddr_ok, getSize_ok by done. cbn [mbind res_bind].
  cbv zeta. rewrite !end_of_range by lia. rewrite s32_small by lia.
  rewrite eqb_reflx, Hpr, Hr. cbn [negb orb].
  rewrite (proj2 (Z.ltb_ge _ _)), (proj2 (Z.ltb_ge _ _)) by lia. cbn [orb].
  rewrite !(proj2 (Z.leb_le _ _)) by lia. cbn [andb].
  unfold allocate. rewrite Hd, Hfl. cbn [assert_ mbind res_bind].
  rewrite arr_read_ok by lia. cbn [mbind res_bind].
  unfold put_data. rewrite (getPtr_ok p d Hwf Hd). cbn [mbind res_bind].
  unfold arr_write. rewrite length_take, length_drop.
  rewrite !(proj2 (Z.leb_le _ _)) by lia. cbn [andb mbind res_bind].
  eexists; split; [reflexivity|]. cbn [data addr cmd field_upd]. split; [|done].
  rewrite take_0, (drop_ge d) by lia. by rewrite app_nil_r.
Qed.

(** A value that covers only one end of a functional read contributes one byte
    less than the two have in common; a value inside the request contributes
    all of it. *)
Theorem partial_overlap_sizes (fs fe vs ve : Z) :
  0 <= fs <= fe -> 0 <= vs <= ve -> fs <= ve -> vs <= fe -> ~ (vs <= fs /\ fe <= ve) ->
  fe - fs < 2 ^ 31 -> ve - vs < 2 ^ 31 ->
  exists fo vo os, partial_overlap fs fe vs ve (ve - vs + 1) = Ok (fo, vo, os) /\
    let common := Z.min fe ve - Z.max fs vs + 1 in
    os = if (fs <=? vs) && (ve <=? fe) then common else common - 1.
Proof.
  intros. unfold partial_overlap.
  destruct (Z.ltb_spec vs fs), (Z.leb_spec ve fe), (Z.leb_spec fs vs), (Z.ltb_spec fe ve);
    cbn [andb]; try lia; do 3 eexists; (split; [reflexivity|]); cbv zeta;
    rewrite ?s32_small by lia; lia.
Qed.

(** ** Witnesses *)
Definition ex_packet (c : Command) (a : Z) (d : list Z) : Packet :=
  mkPacket false 0 0 (Z.lor (Z.lor VALID_ADDR VALID_SIZE) DYNAMIC_DATA) c
    (mkRequest a (Z.of_nat (length d)) 0 0 0 0 0)
    (Some d) a false (Z.of_nat (length d)) 0 InvalidPortID InvalidCmd 0 0 0 0 [].

Lemma ex_packet_wf c a d : inw 64 a -> Z.of_nat (length d) < 2 ^ 31 -> pkt_wf (ex_packet c a d).
Proof.
  intros Ha Hd. split; [reflexivity|]. split; [reflexivity|]. split; [done|].
  split; [cbn [psize ex_packet]; lia|]. by intros d' [= <-].
Qed.

Lemma checkFunctional_write_witness :
  exists vd', checkFunctional_bytes (ex_packet WriteReq 102 [1; 2; 3; 4]) 100 false 4
                (Some [7; 7; 7; 7])
              = Ok (ex_packet WriteReq 102 [1; 2; 3; 4], Some vd', false) /\ length vd' = 4%nat.
Proof.
  destruct (checkFunctional_write (ex_packet WriteReq 102 [1; 2; 3; 4]) [1; 2; 3; 4] 100
              [7; 7; 7; 7]) as (vd' & H1 & H2 & _).
  - apply ex_packet_wf; [unfold inw; lia|cbn; lia].
  - unfold value_at. cbn. lia.
  - reflexivity.
  - reflexivity.
  - reflexivity.
  - reflexivity.
  - cbn. lia.
  - cbn. lia.
  - cbn. lia.
  - exists vd'. split; [exact H1|exact H2].
Defined.

Lemma checkFunctional_read_witness :
  exists p', checkFunctional_bytes (ex_packet ReadReq 102 [0; 0]) 100 false 4 (Some [7; 8; 9; 10])
             = Ok (p', Some [7; 8; 9; 10], true) /\ data p' = Some [9; 10].
Proof.
  destruct (checkFunctional_read (ex_packet ReadReq 102 [0; 0]) [0; 0] 100 [7; 8; 9; 10])
    as (p' & H1 & H2 & _).
  - apply ex_packet_wf; [unfold inw; lia|cbn; lia].
  - unfold value_at. cbn. lia.
  - reflexivity.
  - reflexivity.
  - reflexivity.
  - cbn. lia.
  - cbn. lia.
  - cbn. lia.
  - exists p'. split; [exact H1|exact H2].
Defined.

Lemma partial_overlap_sizes_witness :
  exists fo vo os, partial_overlap 100 103 98 101 (101 - 98 + 1) = Ok (fo, vo, os) /\ os = 1.
Proof.
  destruct (partial_overlap_sizes 100 103 98 101) as (fo & vo & os & H1 & H2); [lia..|].
  exists fo, vo, os. split; [exact H1|exact H2].
Defined.
