(* ===== verification/Float32.v ===== *)
(** * IEEE single precision on 32-bit words

    The PIM coprocessor and the HMC atomic commands reinterpret memory words
    as [float] ([mem/abstract_mem.cc], [mem/ethz_pim_memory.cc]).  This file
    gives the reading of a 32-bit pattern as a binary32 number and back, and
    the C++ operators on it, with the Standard Library's [SpecFloat]
    arithmetic (round to nearest even).  A NaN result is stored with the
    default quiet pattern. *)

From S2P Require Import Prelude.
From Stdlib Require Import SpecFloat.

Definition f32_prec : Z := 24.
Definition f32_emax : Z := 128.
Definition f64_prec : Z := 53.
Definition f64_emax : Z := 1024.

(** [*(float* )p] for the word [b] at [p] *)
Definition f32_of_bits (b : Z) : spec_float :=
  let s := Z.testbit b 31 in
  let e := (b / 2 ^ 23) mod 2 ^ 8 in
  let m := b mod 2 ^ 23 in
  if e =? 255 then (if m =? 0 then S754_infinity s else S754_nan)
  else if e =? 0 then
    match m with Zpos p => S754_finite s p (-149) | _ => S754_zero s end
  else
    match 2 ^ 23 + m with Zpos p => S754_finite s p (e - 150) | _ => S754_nan end.

Definition sign_bit (s : bool) : Z := if s then 2 ^ 31 else 0.

(** The word stored by [*(float* )p = f] *)
Definition f32_to_bits (f : spec_float) : Z :=
  match f with
  | S754_zero s => sign_bit s
  | S754_infinity s => sign_bit s + 255 * 2 ^ 23
  | S754_nan => 0x7fc00000
  | S754_finite s m e =>
      if Zpos m <? 2 ^ 23 then sign_bit s + Zpos m
      else sign_bit s + (e + 150) * 2 ^ 23 + (Zpos m - 2 ^ 23)
  end.

(** Operators of [float]. *)
Definition f32_add : spec_float -> spec_float -> spec_float := SFadd f32_prec f32_emax.
Definition f32_sub : spec_float -> spec_float -> spec_float := SFsub f32_prec f32_emax.
Definition f32_mul : spec_float -> spec_float -> spec_float := SFmul f32_prec f32_emax.
Definition f32_div : spec_float -> spec_float -> spec_float := SFdiv f32_prec f32_emax.
Definition f32_neg : spec_float -> spec_float := SFopp.
Definition f32_lt (x y : spec_float) : bool := SFltb x y.
Definition f32_le (x y : spec_float) : bool := SFleb x y.

(** [(float)u] for an unsigned integer *)
Definition f32_of_uint (u : Z) : spec_float := binary_normalize f32_prec f32_emax u 0 false.

(** Conversions between [float] and [double] *)
Definition f32_round (f : spec_float) : spec_float :=
  match f with
  | S754_finite s m e =>
      binary_normalize f32_prec f32_emax (if s then Zneg m else Zpos m) e s
  | _ => f
  end.
Definition f64_of_f32 (f : spec_float) : spec_float :=
  match f with
  | S754_finite s m e =>
      binary_normalize f64_prec f64_emax (if s then Zneg m else Zpos m) e s
  | _ => f
  end.
Definition f64_of_int (z : Z) : spec_float := binary_normalize f64_prec f64_emax z 0 false.
Definition f64_mul : spec_float -> spec_float -> spec_float := SFmul f64_prec f64_emax.
Definition f64_div : spec_float -> spec_float -> spec_float := SFdiv f64_prec f64_emax.

(** [(uint32_t)f]: truncation; a value the type cannot represent is undefined. *)
Definition f32_to_u32 (f : spec_float) : res Z :=
  match f with
  | S754_zero _ => Ok 0
  | S754_finite s m e =>
      let v := Z.shiftl (Zpos m) e in
      if (negb s || (v =? 0)) && (v <? 2 ^ 32) then Ok v else Err Undefined
  | _ => Err Undefined
  end.

(** [(uint64_t)d] *)
Definition f64_to_u64 (f : spec_float) : res Z :=
  match f with
  | S754_zero _ => Ok 0
  | S754_finite s m e =>
      let v := Z.shiftl (Zpos m) e in
      if (negb s || (v =? 0)) && (v <? 2 ^ 64) then Ok v else Err Undefined
  | _ => Err Undefined
  end.

(** ** Lemmas *)
Lemma testbit31 b : inw 32 b -> Z.testbit b 31 = (2 ^ 31 <=? b).
Proof.
  unfold inw. intros Hb. destruct (Z.leb_spec (2 ^ 31) b).
  - apply Z.testbit_true; [lia|].
    replace (b / 2 ^ 31) with 1; [done|]. apply Z.div_unique with (b - 2 ^ 31); lia.
  - apply Z.testbit_false; [lia|]. by rewrite Z.div_small by lia.
Qed.

Lemma bits32_fields b : inw 32 b ->
  b = (if Z.testbit b 31 then 2 ^ 31 else 0) + (b / 2 ^ 23) mod 2 ^ 8 * 2 ^ 23 + b mod 2 ^ 23.
Proof.
  intros Hb. rewrite testbit31 by done. unfold inw in Hb.
  pose proof (Z.div_mod b (2 ^ 23)). 
  destruct (Z.leb_spec (2 ^ 31) b).
  - replace ((b / 2 ^ 23) mod 2 ^ 8) with (b / 2 ^ 23 - 2 ^ 8); [lia|].
    apply Z.mod_unique with 1; [|lia]. left. split.
    + assert (2 ^ 8 <= b / 2 ^ 23); [|lia]. apply Z.div_le_lower_bound; lia.
    + assert (b / 2 ^ 23 < 2 ^ 9); [|lia]. apply Z.div_lt_upper_bound; lia.
  - rewrite (Z.mod_small (b / 2 ^ 23)); [lia|]. split; [apply Z.div_pos; lia|].
    apply Z.div_lt_upper_bound; lia.
Qed.

Definition is_nan (f : spec_float) : bool := match f with S754_nan => true | _ => false end.

Lemma f32_to_of_bits b : inw 32 b -> is_nan (f32_of_bits b) = false ->
  f32_to_bits (f32_of_bits b) = b.
Proof.
  intros Hb Hn. pose proof (bits32_fields b Hb) as Eb. unfold f32_of_bits in *. cbv zeta in *.
  set (s := Z.testbit b 31) in *. set (e := (b / 2 ^ 23) mod 2 ^ 8) in *.
  pose proof (Z.mod_pos_bound (b / 2 ^ 23) (2 ^ 8) ltac:(lia)) as He. fold e in He.
  pose proof (Z.mod_pos_bound b (2 ^ 23) ltac:(lia)) as Hm.
  set (m := b mod 2 ^ 23) in *. clearbody s e m. change (if s then 2 ^ 31 else 0) with (sign_bit s) in Eb.
  destruct (Z.eqb_spec e 255) as [E1|E1]; [destruct (Z.eqb_spec m 0) as [E2|E2]|].
  - cbn [f32_to_bits]. lia.
  - discriminate.
  - destruct (Z.eqb_spec e 0) as [E0|E0].
    + destruct m as [|p|p]; cbn [f32_to_bits]; [lia| |lia].
      rewrite (proj2 (Z.ltb_lt _ _)) by lia. lia.
    + destruct (2 ^ 23 + m) as [|p|p] eqn:Ep; [lia| |lia]. cbn [f32_to_bits].
      rewrite (proj2 (Z.ltb_ge _ _)) by lia. lia.
Qed.

(** Reading a word as a float and storing it back keeps the word, NaNs apart. *)
Theorem f32_bits_roundtrip (b : Z) : inw 32 b -> is_nan (f32_of_bits b) = false ->
  f32_to_bits (f32_of_bits b) = b.
Proof. apply f32_to_of_bits. Qed.

(** [(f >= 0) ? f : -f] on the bit patterns *)
Lemma fabs_bits b : inw 32 b -> is_nan (f32_of_bits b) = false ->
  let f := f32_of_bits b in
  f32_to_bits (if f32_le (S754_zero false) f then f else f32_neg f) =
  if b =? 2 ^ 31 then b else b mod 2 ^ 31.
Proof.
  intros Hb Hn f. destruct (Z.eqb_spec b (2 ^ 31)) as [E0|E0]; [subst f b; reflexivity|].
  pose proof (f32_to_of_bits b Hb Hn) as E. pose proof (testbit31 b Hb) as T.
  assert (Hs : f = S754_zero (Z.testbit b 31) \/ f = S754_infinity (Z.testbit b 31) \/
    exists m e, f = S754_finite (Z.testbit b 31) m e).
  { clear E T. unfold f, f32_of_bits in *. cbv zeta in *. case_if; [case_if; [auto|done]|].
    case_if; [destruct (b mod 2 ^ 23)|destruct (2 ^ 23 + b mod 2 ^ 23)]; eauto; done. }
  fold f in E. clearbody f. rewrite T in Hs. unfold inw in Hb.
  assert (Hm : b mod 2 ^ 31 = if 2 ^ 31 <=? b then b - 2 ^ 31 else b).
  { destruct (Z.leb_spec (2 ^ 31) b); [|apply Z.mod_small; lia].
    symmetry. apply Z.mod_unique with 1; lia. }
  rewrite Hm. destruct Hs as [-> | [-> | (m & e & ->)]]; destruct (Z.leb_spec (2 ^ 31) b);
    cbn [f32_le SFleb SFcompare f32_neg SFopp negb f32_to_bits sign_bit] in *;
    repeat (case_if || case_if_in E); bool_prop; lia.
Qed.

Example f32_one : f32_to_bits (f32_of_uint 1) = 0x3f800000.
Proof. vm_compute. reflexivity. Qed.
Example f32_half_plus_quarter :
  f32_to_bits (f32_add (f32_of_bits 0x3f000000) (f32_of_bits 0x3e800000)) = 0x3f400000.
Proof. vm_compute. reflexivity. Qed.
Example f32_round_example :
  f32_to_bits (f32_round (f64_div (f64_mul (f64_of_int 15) (f64_of_int 1)) (f64_of_int 100)))
  = 0x3e19999a.
Proof. vm_compute. reflexivity. Qed.

Lemma f32_bits_roundtrip_witness : f32_to_bits (f32_of_bits 0x3f800001) = 0x3f800001.
Proof. apply (f32_bits_roundtrip 0x3f800001); [unfold inw; lia|reflexivity]. Defined.
