(* ===== verification/AbstractMem.v ===== *)
(** * The memory array

    Models [mem/abstract_mem.cc] and [mem/abstract_mem.hh]: the backing store,
    the load-locked/store-conditional reservations, the read, write and swap
    accesses, the HMC atomic commands the PIM device adds, the functional
    access and the statistics.  [pmemAddr] is [None] for a memory without a
    backing store.  Wake-ups of waiting processors are recorded in the order
    they happen.  Tracing is left out. *)

From S2P Require Import Prelude.
From S2P Require Import Flags.
From S2P Require Import BitMath.
From S2P Require Import AddrRange.
From S2P Require Import Packet.
From S2P Require Import Float32.

(** HMC commands (SW/PIM/resident/definitions.h) *)
Definition HMC_CMD_NOP : Z := 0.
Definition HMC_CMD_INC : Z := 49.
Definition HMC_CMD_FADD : Z := 50.
Definition HMC_CMD_MIN : Z := 51.

Record LockedAddr := mkLocked { la_addr : Z; la_contextId : Z }.

(** [LockedAddr::mask] *)
Definition la_mask (paddr : Z) : Z := Z.land paddr (not64 0xf).

Definition LockedAddr_new (r : Request) : res LockedAddr :=
  a ← getPaddr r; c ← contextId r; Ok (mkLocked (la_mask a) c).

Definition matchesContext (l : LockedAddr) (r : Request) : res bool :=
  c ← contextId r; Ok (la_contextId l =? c).

Record AbstractMemory := mkMem {
  range : AR.AddrRange;
  pmemAddr : option (list Z);
  lockedAddrList : list LockedAddr;
  wakeups : list Z;
  atomic_fadd_count : Z;
  atomic_min_count : Z;
  atomic_inc_count : Z;
  bytesRead : gmap Z Z;
  bytesInstRead : gmap Z Z;
  bytesWritten : gmap Z Z;
  numReads : gmap Z Z;
  numWrites : gmap Z Z;
  numOther : gmap Z Z
}.

(** [stat[id] += n] *)
Definition stat_add (id n : Z) (m : gmap Z Z) : gmap Z Z :=
  <[id := default 0 (m !! id) + n]> m.

(** Update the record of this context, if there is one. *)
Fixpoint update_lock (paddr : Z) (r : Request) (l : list LockedAddr)
  : res (option (list LockedAddr)) :=
  match l with
  | [] => Ok None
  | i :: l' =>
      b ← matchesContext i r;
      if b : bool then Ok (Some (mkLocked paddr (la_contextId i) :: l'))
      else
        o ← update_lock paddr r l';
        Ok (match o with Some l'' => Some (i :: l'') | None => None end)
  end.

Definition trackLoadLocked (pkt : Packet) (m : AbstractMemory) : res AbstractMemory :=
  let r := req pkt in
  a ← getPaddr r;
  let paddr := la_mask a in
  o ← update_lock paddr r (lockedAddrList m);
  match o with
  | Some l => Ok (m <| lockedAddrList := l |>)
  | None =>
      n ← LockedAddr_new r;
      Ok (m <| lockedAddrList := n :: lockedAddrList m |>)
  end.

(** Is there a reservation of this context on this address? *)
Fixpoint find_lock (paddr : Z) (r : Request) (l : list LockedAddr) : res bool :=
  match l with
  | [] => Ok false
  | i :: l' =>
      if la_addr i =? paddr then
        b ← matchesContext i r;
        if b : bool then Ok true else find_lock paddr r l'
      else find_lock paddr r l'
  end.

Definition checkLockedAddrList (pkt : Packet) (m : AbstractMemory)
  : res (AbstractMemory * Packet * bool) :=
  a ← getPaddr (req pkt);
  let paddr := la_mask a in
  '(pkt, allowStore) ←
    (if isLLSC pkt then
       b ← find_lock paddr (req pkt) (lockedAddrList m);
       Ok (pkt <| req := setExtraData (if b : bool then 1 else 0) (req pkt) |>, b)
     else Ok (pkt, true));
  if allowStore : bool then
    let gone := List.filter (fun i => la_addr i =? paddr) (lockedAddrList m) in
    let kept := List.filter (fun i => negb (la_addr i =? paddr)) (lockedAddrList m) in
    Ok (m <| lockedAddrList := kept |>
          <| wakeups := wakeups m ++ (la_contextId <$> gone) |>, pkt, true)
  else Ok (m, pkt, false).

Definition writeOK (pkt : Packet) (m : AbstractMemory) : res (AbstractMemory * Packet * bool) :=
  match lockedAddrList m with
  | [] =>
      let l := isLLSC pkt in
      let pkt := if l then pkt <| req := setExtraData 0 (req pkt) |> else pkt in
      Ok (m, pkt, negb l)
  | _ => checkLockedAddrList pkt m
  end.

(** [pmemAddr + a - range.start()] *)
Definition host_off (m : AbstractMemory) (a : Z) : Z := a - AR.start (range m).

(** The atomic read-modify-write at [off] in the store. *)
Definition hmc_command (pkt : Packet) (sz off : Z) (mem : list Z) (m : AbstractMemory)
  : res AbstractMemory :=
  let c := ATOMIC_HMC_COMMAND pkt in
  if c =? HMC_CMD_INC then
    let m := m <| atomic_inc_count := atomic_inc_count m + 1 |> in
    if sz =? 4 then
      bs ← arr_read mem off 4;
      mem' ← arr_write mem off (le_bytes 4 (u32 (le_val bs + 1)));
      Ok (m <| pmemAddr := Some mem' |>)
    else if sz =? 8 then
      bs ← arr_read mem off 8;
      mem' ← arr_write mem off (le_bytes 8 (u64 (le_val bs + 1)));
      Ok (m <| pmemAddr := Some mem' |>)
    else panic
  else if c =? HMC_CMD_FADD then
    let m := m <| atomic_fadd_count := atomic_fadd_count m + 1 |> in
    bs ← arr_read mem off 4;
    let f := f32_add (f32_of_bits (le_val bs)) (f32_of_bits (u32 (ATOMIC_HMC_OPERAND pkt))) in
    mem' ← arr_write mem off (le_bytes 4 (f32_to_bits f));
    Ok (m <| pmemAddr := Some mem' |>)
  else if c =? HMC_CMD_MIN then
    let m := m <| atomic_min_count := atomic_min_count m + 1 |> in
    if sz =? 4 then
      bs ← arr_read mem off 4;
      let mm := le_val bs in
      let n := u32 (ATOMIC_HMC_OPERAND pkt) in
      if n <? mm then
        mem' ← arr_write mem off (le_bytes 4 n);
        Ok (m <| pmemAddr := Some mem' |>)
      else Ok m
    else panic
  else panic.

(** The [SwapReq] branch of [access]. *)
Definition access_swap (pkt : Packet) (sz off : Z) (m : AbstractMemory)
  : res (AbstractMemory * Packet) :=
  match pmemAddr m with
  | None => panic
  | Some mem =>
      d ← getPtr pkt;
      overwrite_val ← arr_read d 0 sz;
      cur ← arr_read mem off sz;
      pkt ← put_data 0 cur pkt;
      overwrite_mem ←
        (if isCondSwap (req pkt) then
           if sz =? 8 then
             e ← getExtraData (req pkt);
             Ok (bool_decide (le_bytes 8 e = cur))
           else if sz =? 4 then
             e ← getExtraData (req pkt);
             Ok (bool_decide (le_bytes 4 (u32 e) = cur))
           else panic
         else Ok true);
      mem' ← (if overwrite_mem : bool then arr_write mem off overwrite_val else Ok mem);
      _ ← assert_ (negb (isInstFetch (req pkt)));
      Ok (m <| pmemAddr := Some mem' |>
            <| numOther := stat_add (_masterId (req pkt)) 1 (numOther m) |>, pkt)
  end.

(** The read branch. *)
Definition access_read (pkt : Packet) (sz off : Z) (m : AbstractMemory)
  : res (AbstractMemory * Packet) :=
  _ ← assert_ (negb (isWrite pkt));
  m ← (if isLLSC pkt then trackLoadLocked pkt m else Ok m);
  pkt ← match pmemAddr m with
        | Some mem => bs ← arr_read mem off sz; put_data 0 bs pkt
        | None => Ok pkt
        end;
  let id := _masterId (req pkt) in
  let m := m <| numReads := stat_add id 1 (numReads m) |>
             <| bytesRead := stat_add id sz (bytesRead m) |> in
  Ok (if isInstFetch (req pkt)
      then m <| bytesInstRead := stat_add id sz (bytesInstRead m) |> else m, pkt).

(** The write branch. *)
Definition access_write (pkt : Packet) (sz off : Z) (m : AbstractMemory)
  : res (AbstractMemory * Packet) :=
  '(m, pkt, ok) ← writeOK pkt m;
  if ok : bool then
    '(m, pkt) ←
      match pmemAddr m with
      | None => Ok (m, pkt)
      | Some mem =>
          if negb (ATOMIC_HMC_COMMAND pkt =? 0) then
            m ← hmc_command pkt sz off mem m;
            Ok (m, pkt <| ATOMIC_HMC_COMMAND := 0 |>)
          else
            d ← getPtr pkt;
            bs ← arr_read d 0 sz;
            mem' ← arr_write mem off bs;
            Ok (m <| pmemAddr := Some mem' |>, pkt)
      end;
    _ ← assert_ (negb (isInstFetch (req pkt)));
    let id := _masterId (req pkt) in
    Ok (m <| numWrites := stat_add id 1 (numWrites m) |>
          <| bytesWritten := stat_add id sz (bytesWritten m) |>, pkt)
  else Ok (m, pkt).

(** The assertion both accesses start with. *)
Definition in_memory (a sz : Z) (m : AbstractMemory) : res unit :=
  b ← AR.isSubset (AR.AddrRange2 a (u64 (u64 (a + sz) - 1))) (range m); assert_ b.

(** [AbstractMemory::access] *)
Definition access (pkt : Packet) (m : AbstractMemory) : res (AbstractMemory * Packet) :=
  a ← getAddr pkt;
  sz ← getSize pkt;
  _ ← in_memory a sz m;
  if memInhibitAsserted pkt then Ok (m, pkt)
  else
    let off := host_off m a in
    '(m, pkt) ←
      (if decide (cmd pkt = SwapReq) then access_swap pkt sz off m
       else if isRead pkt then access_read pkt sz off m
       else if isWrite pkt then access_write pkt sz off m
       else if isInvalidate pkt then Ok (m, pkt)
       else panic);
    if needsResponse pkt then pkt ← makeResponse pkt; Ok (m, pkt) else Ok (m, pkt).

(** [AbstractMemory::functionalAccess]; printing requests leave the state. *)
Definition functionalAccess (pkt : Packet) (m : AbstractMemory)
  : res (AbstractMemory * Packet) :=
  a ← getAddr pkt;
  sz ← getSize pkt;
  _ ← in_memory a sz m;
  let off := host_off m a in
  if isRead pkt then
    pkt ← match pmemAddr m with
          | Some mem => bs ← arr_read mem off sz; put_data 0 bs pkt
          | None => Ok pkt
          end;
    pkt ← makeResponse pkt; Ok (m, pkt)
  else if isWrite pkt then
    m ← match pmemAddr m with
        | Some mem =>
            d ← getPtr pkt; bs ← arr_read d 0 sz;
            mem' ← arr_write mem off bs; Ok (m <| pmemAddr := Some mem' |>)
        | None => Ok m
        end;
    pkt ← makeResponse pkt; Ok (m, pkt)
  else if isPrint pkt then Ok (m, pkt)
  else panic.

(** ** What the memory holds *)

(** The bytes at an address range. *)
Definition mem_bytes (m : AbstractMemory) (a n : Z) : res (list Z) :=
  match pmemAddr m with
  | Some mem => arr_read mem (host_off m a) n
  | None => Err Undefined
  end.

Definition mem_wf (m : AbstractMemory) : Prop :=
  AR.interleaved (range m) = false /\ 0 <= AR.start (range m) /\ AR._end (range m) < 2 ^ 64 /\
  match pmemAddr m with
  | Some mem => Z.of_nat (length mem) = AR._end (range m) - AR.start (range m) + 1
  | None => True
  end.

(** The access lies in the memory. *)
Definition covers (m : AbstractMemory) (a n : Z) : Prop :=
  0 < n /\ AR.start (range m) <= a /\ a + n <= AR._end (range m) + 1.

Lemma in_memory_ok m a n : mem_wf m -> covers m a n -> in_memory a n m = Ok tt.
Proof.
  intros (H1 & H2 & H3 & _) (C1 & C2 & C3). unfold in_memory, AR.isSubset, AR.start in *.
  change (AR.interleaved (AR.AddrRange2 _ _)) with false. cbn [AR._start AR._end AR.AddrRange2].
  rewrite end_of_range by lia. cbn [mbind res_bind].
  rewrite !(proj2 (Z.leb_le _ _)) by lia. done.
Qed.

Lemma mem_bytes_covers m mem a n : mem_wf m -> pmemAddr m = Some mem -> covers m a n ->
  exists bs, mem_bytes m a n = Ok bs /\ Z.of_nat (length bs) = n.
Proof.
  intros (_ & H2 & H3 & Hm) E (C1 & C2 & C3). rewrite E in Hm. unfold mem_bytes. rewrite E.
  unfold host_off. rewrite arr_read_ok by lia. eexists; split; [reflexivity|].
  rewrite length_take, length_drop. lia.
Qed.

(** Storing bytes at an address. *)
Lemma mem_store m mem a bs : mem_wf m -> pmemAddr m = Some mem ->
  covers m a (Z.of_nat (length bs)) ->
  exists mem', arr_write mem (host_off m a) bs = Ok mem' /\ length mem' = length mem /\
    arr_read mem' (host_off m a) (Z.of_nat (length bs)) = Ok bs /\
    forall a' n', a' + n' <= a \/ a + Z.of_nat (length bs) <= a' ->
      arr_read mem' (host_off m a') n' = mem_bytes m a' n'.
Proof.
  intros (_ & H2 & H3 & Hm) E (C1 & C2 & C3). rewrite E in Hm.
  destruct (arr_write_defined mem (host_off m a) bs) as [mem' W];
    [unfold host_off; lia..|].
  exists mem'. split; [done|]. split; [by eapply arr_write_length|].
  split; [by eapply arr_read_write_same|]. intros a' n' Hd.
  unfold mem_bytes. rewrite E. eapply arr_read_write_other; [done|]. unfold host_off. lia.
Qed.

(** A packet with a payload of its size. *)
Definition has_bytes (p : Packet) (d : list Z) : Prop := pkt_wf p /\ data p = Some d.

Lemma has_bytes_length p d : has_bytes p d -> Z.of_nat (length d) = psize p.
Proof. intros [(_ & _ & _ & _ & H) E]. by destruct (H d E). Qed.

Lemma put_all p d bs : has_bytes p d -> length bs = length d ->
  put_data 0 bs p = Ok (p <| data := Some bs |>) /\ has_bytes (p <| data := Some bs |>) bs.
Proof.
  intros Hb Hl. pose proof (has_bytes_length _ _ Hb) as Hs.
  destruct Hb as [Hwf Hd]. unfold put_data. rewrite (getPtr_ok p d Hwf Hd).
  cbn [mbind res_bind]. unfold arr_write. rewrite !(proj2 (Z.leb_le _ _)) by lia.
  cbn [andb mbind res_bind]. split.
  - rewrite take_0, drop_ge by lia. by rewrite app_nil_r.
  - destruct Hwf as (H1 & H2 & H3 & H4 & H5). split; [|done]. unfold pkt_wf. cbn.
    split_and!; try done; try (unfold inw in *; lia). intros d0 [= <-]. destruct (H5 d Hd). split; [done|lia].
Qed.

Lemma read_all p d : has_bytes p d -> arr_read d 0 (psize p) = Ok d.
Proof.
  intros H. pose proof (has_bytes_length _ _ H). rewrite arr_read_ok by lia.
  cbn [drop Z.to_nat]. by rewrite <- H0, Nat2Z.id, firstn_all.
Qed.

Lemma makeResponse_read p : cmd p = ReadReq -> exists p',
  makeResponse p = Ok p' /\ data p' = data p /\ addr p' = addr p /\ psize p' = psize p /\
  cmd p' = ReadResp /\ senderState p' = senderState p /\ dest p' = src p /\ flags p' = fl_clear (flags p) EXPRESS_SNOOP.
Proof.
  intros E. unfold makeResponse, needsResponse, isRequest. rewrite E.
  eexists. split; [reflexivity|]. done.
Qed.

(** The response to a read with the bytes [bs] in its buffer. *)
Lemma read_response p d bs : has_bytes p d -> cmd p = ReadReq -> length bs = length d ->
  exists p', (p1 ← put_data 0 bs p; makeResponse p1) = Ok p' /\
    getPtr p' = Ok bs /\ getSize p' = Ok (psize p) /\
    fl_isSet (flags p') VALID_ADDR = true /\ isRead p' = true /\ isResponse p' = true /\
    memInhibitAsserted p' = memInhibitAsserted p.
Proof.
  intros Hb Hc Hl. destruct (put_all p d bs Hb Hl) as [-> [Hwf _]]. cbn [mbind res_bind].
  destruct (makeResponse_read (p <| data := Some bs |>)) as (p' & E & E1 & E2 & E3 & E4 & E5 & E6 & E7);
    [exact Hc|].
  exists p'. split; [exact E|]. unfold getPtr, getSize, isRead, isResponse, memInhibitAsserted.
  rewrite E1, E3, E4, E7, !fl_isSet_clear_other by done.
  destruct Hwf as (H1 & H2 & _ & _ & H5). cbn [flags field_upd] in *. rewrite H1, H2.
  destruct (H5 bs eq_refl) as [-> _]. done.
Qed.

(** Reading through [functionalAccess]. *)
Lemma functionalAccess_read m p d bs :
  mem_wf m -> has_bytes p d -> cmd p = ReadReq -> covers m (addr p) (psize p) ->
  mem_bytes m (addr p) (psize p) = Ok bs ->
  exists p', functionalAccess p m = Ok (m, p') /\ getPtr p' = Ok bs /\ getSize p' = Ok (psize p) /\
    fl_isSet (flags p') VALID_ADDR = true.
Proof.
  intros Hm Hb Hc Hcov Hbs. pose proof Hb as [Hwf Hd].
  unfold functionalAccess. rewrite getAddr_ok, getSize_ok by done. cbn [mbind res_bind].
  rewrite in_memory_ok by done. cbn [mbind res_bind].
  assert (isRead p = true) as -> by (unfold isRead; by rewrite Hc).
  unfold mem_bytes in Hbs. destruct (pmemAddr m) as [mem|]; [|done].
  rewrite Hbs. cbn [mbind res_bind].
  apply arr_read_length in Hbs. pose proof (has_bytes_length _ _ Hb).
  destruct (read_response p d bs Hb Hc) as (p' & E & G1 & G2 & G0 & _); [lia|].
  destruct (put_data 0 bs p) as [p1|]; cbn [mbind res_bind] in *; [|done].
  rewrite E. cbn [mbind res_bind]. exists p'. done.
Qed.

(** Reading through [access]: the bytes come back, the store is unchanged. *)
Lemma access_read_ok m p d bs :
  mem_wf m -> has_bytes p d -> cmd p = ReadReq -> memInhibitAsserted p = false ->
  covers m (addr p) (psize p) -> mem_bytes m (addr p) (psize p) = Ok bs ->
  exists m' p', access p m = Ok (m', p') /\ getPtr p' = Ok bs /\ getSize p' = Ok (psize p) /\
    fl_isSet (flags p') VALID_ADDR = true /\
    isResponse p' = true /\ memInhibitAsserted p' = false /\
    pmemAddr m' = pmemAddr m /\ range m' = range m /\ lockedAddrList m' = lockedAddrList m.
Proof.
  intros Hm Hb Hc Hi Hcov Hbs. pose proof Hb as [Hwf Hd].
  unfold access. rewrite getAddr_ok, getSize_ok by done. cbn [mbind res_bind].
  rewrite in_memory_ok by done. cbn [mbind res_bind]. rewrite Hi.
  destruct (decide (cmd p = SwapReq)) as [E|_]; [congruence|].
  assert (isRead p = true) as -> by (unfold isRead; by rewrite Hc).
  unfold access_read.
  assert (isWrite p = false) as -> by (unfold isWrite; by rewrite Hc).
  assert (isLLSC p = false) as -> by (unfold isLLSC; by rewrite Hc).
  cbn [negb assert_ mbind res_bind]. unfold mem_bytes in Hbs.
  destruct (pmemAddr m) as [mem|] eqn:Em; [|done]. rewrite Hbs. cbn [mbind res_bind].
  pose proof (arr_read_length _ _ _ _ Hbs). pose proof (has_bytes_length _ _ Hb).
  destruct (read_response p d bs Hb Hc) as (p' & E & G1 & G2 & G0 & _ & G3 & G4); [lia|].
  destruct (put_all p d bs Hb) as [Ep _]; [lia|]. rewrite Ep in *. cbn [mbind res_bind] in *.
  assert (needsResponse p <| data := Some bs |> = true) as ->
    by (unfold needsResponse; cbn [cmd field_upd]; by rewrite Hc).
  rewrite E. cbn [mbind res_bind]. eexists _, p'. split; [reflexivity|].
  rewrite G4. split_and!; try done; by case_if.
Qed.

(** ** Reservations *)

(** The request names a context and a physical address. *)
Definition req_ok (r : Request) : Prop :=
  hasPaddr r = true /\ fl_isSet (privateFlags r) REQ_VALID_CONTEXT_ID = true.

Lemma contextId_ok r : req_ok r -> contextId r = Ok (_contextId r).
Proof. intros [_ H]. unfold contextId. by rewrite H. Qed.

Lemma getPaddr_ok r : req_ok r -> getPaddr r = Ok (_paddr r).
Proof. intros [H _]. unfold getPaddr. by rewrite H. Qed.

(** This context holds a reservation on the line. *)
Definition reserved (paddr ctx : Z) (l : list LockedAddr) : bool :=
  existsb (fun i => (la_addr i =? paddr) && (la_contextId i =? ctx)) l.

Lemma find_lock_spec paddr r l : req_ok r ->
  find_lock paddr r l = Ok (reserved paddr (_contextId r) l).
Proof.
  intros Hr. induction l as [|i l IH]; [done|]. cbn [find_lock reserved existsb].
  destruct (la_addr i =? paddr); cbn [andb orb]; [|exact IH].
  unfold matchesContext. rewrite contextId_ok by done. cbn [mbind res_bind].
  destruct (la_contextId i =? _contextId r); cbn [orb]; [done|exact IH].
Qed.

(** The reservations on other lines, which a store keeps. *)
Definition other_lines (paddr : Z) (l : list LockedAddr) : list LockedAddr :=
  List.filter (fun i => negb (la_addr i =? paddr)) l.

(** The packet of a store-conditional carries its outcome. *)
Definition sc_result (p : Packet) (ok : bool) : Packet :=
  if isLLSC p then p <| req := setExtraData (if ok then 1 else 0) (req p) |> else p.

Lemma writeOK_spec p m : req_ok (req p) ->
  let paddr := la_mask (_paddr (req p)) in
  let ok := negb (isLLSC p) || reserved paddr (_contextId (req p)) (lockedAddrList m) in
  exists m', writeOK p m = Ok (m', sc_result p ok, ok) /\
    pmemAddr m' = pmemAddr m /\ range m' = range m /\
    lockedAddrList m' = (if ok then other_lines paddr (lockedAddrList m) else lockedAddrList m).
Proof.
  intros Hr. cbv zeta. unfold writeOK. destruct (lockedAddrList m) as [|i l] eqn:E.
  - exists m. unfold sc_result. cbn [reserved existsb]. rewrite E, orb_false_r.
    destruct (isLLSC p); cbn; auto.
  - rewrite <- E. unfold checkLockedAddrList. rewrite getPaddr_ok by done. cbn [mbind res_bind].
    unfold sc_result. destruct (isLLSC p); cbn [mbind res_bind negb orb].
    + rewrite find_lock_spec by done. cbn [mbind res_bind].
      destruct (reserved _ _ (lockedAddrList m)); cbv iota; eexists; (split; [reflexivity|]); done.
    + eexists; (split; [reflexivity|]); done.
Qed.

(** Reservations are held by at most one entry per context. *)
Definition locks_wf (l : list LockedAddr) : Prop := NoDup (la_contextId <$> l).

Lemma update_lock_spec paddr r l o : req_ok r -> update_lock paddr r l = Ok o ->
  match o with
  | Some l' => la_contextId <$> l' = la_contextId <$> l /\
               reserved paddr (_contextId r) l' = true
  | None => _contextId r ∉ la_contextId <$> l
  end.
Proof.
  intros Hr. revert o. induction l as [|i l IH]; intros o; cbn [update_lock].
  - intros [= <-]. apply not_elem_of_nil.
  - unfold matchesContext at 1. rewrite contextId_ok by done. cbn [mbind res_bind].
    destruct (Z.eqb_spec (la_contextId i) (_contextId r)) as [E|E].
    + intros [= <-]. split; [done|]. cbn. by rewrite E, !Z.eqb_refl.
    + destruct (update_lock paddr r l) as [o'|] eqn:U; cbn [mbind res_bind]; [|done].
      specialize (IH o' eq_refl). intros [= <-]. destruct o' as [l'|].
      * destruct IH as [I1 I2]. split; [cbn; by rewrite I1|]. cbn [reserved existsb].
        apply orb_true_intro. by right.
      * cbn. rewrite elem_of_cons. intros [?|?]; [congruence|done].
Qed.

Lemma update_lock_defined paddr r l : req_ok r -> exists o, update_lock paddr r l = Ok o.
Proof.
  intros Hr. induction l as [|i l [o IH]]; cbn [update_lock]; [by eexists|].
  unfold matchesContext. rewrite contextId_ok by done. cbn [mbind res_bind].
  destruct (_ =? _); [by eexists|]. rewrite IH. cbn [mbind res_bind]. by eexists.
Qed.

(** ** Theorems *)

(** A load-locked leaves its context with a reservation on the line it read
    and keeps one entry per context. *)
Theorem trackLoadLocked_spec (p : Packet) (m : AbstractMemory) :
  req_ok (req p) -> locks_wf (lockedAddrList m) ->
  exists m', trackLoadLocked p m = Ok m' /\ locks_wf (lockedAddrList m') /\
    reserved (la_mask (_paddr (req p))) (_contextId (req p)) (lockedAddrList m') = true /\
    pmemAddr m' = pmemAddr m /\ range m' = range m.
Proof.
  intros Hr Hl. unfold trackLoadLocked. rewrite getPaddr_ok by done. cbn [mbind res_bind].
  destruct (update_lock_defined (la_mask (_paddr (req p))) (req p) (lockedAddrList m) Hr) as [o U].
  rewrite U. cbn [mbind res_bind]. apply update_lock_spec in U; [|done]. destruct o as [l'|].
  - destruct U as [U1 U2]. eexists. split; [reflexivity|]. unfold locks_wf in *.
    cbn [lockedAddrList pmemAddr range field_upd]. by rewrite U1.
  - unfold LockedAddr_new. rewrite getPaddr_ok, contextId_ok by done. cbn [mbind res_bind].
    eexists. split; [reflexivity|]. unfold locks_wf in *.
    cbn [lockedAddrList pmemAddr range field_upd]. split_and!; [|cbn; by rewrite !Z.eqb_refl|done..].
    cbn. by apply NoDup_cons.
Qed.

(** What a write request does to the memory: [bs] are the bytes it leaves at
    its address. *)
Definition writes (m m' : AbstractMemory) (a : Z) (bs : list Z) : Prop :=
  mem_wf m' /\ range m' = range m /\
    mem_bytes m' a (Z.of_nat (length bs)) = Ok bs /\
    forall a' n', a' + n' <= a \/ a + Z.of_nat (length bs) <= a' ->
    mem_bytes m' a' n' = mem_bytes m a' n'.

Lemma writes_store m mem a bs m' mem' : mem_wf m -> pmemAddr m = Some mem ->
  covers m a (Z.of_nat (length bs)) -> arr_write mem (host_off m a) bs = Ok mem' ->
  range m' = range m -> pmemAddr m' = Some mem' -> writes m m' a bs.
Proof.
  intros Hm E Hc Hw Er Ep. destruct (mem_store m mem a bs Hm E Hc) as (mem2 & W & L & R & F).
  rewrite Hw in W. injection W as <-. destruct Hm as (M1 & M2 & M3 & M4). rewrite E in M4.
  unfold writes, mem_wf, mem_bytes, host_off in *. rewrite Er, Ep, L. auto.
Qed.

(** The response of a write. *)
Lemma makeResponse_write p : cmd p = WriteReq \/ cmd p = StoreCondReq -> exists p',
  makeResponse p = Ok p' /\ isResponse p' = true /\ req p' = req p /\
    ATOMIC_HMC_COMMAND p' = ATOMIC_HMC_COMMAND p.
Proof.
  intros [E|E]; unfold makeResponse, needsResponse, isRequest; rewrite E;
    eexists; (split; [reflexivity|]); done.
Qed.

(** The request a plain or conditional store makes of the memory. *)
Record store_request (p : Packet) (d : list Z) (m : AbstractMemory) (mem : list Z) : Prop := {
  sr_wf : mem_wf m;
  sr_mem : pmemAddr m = Some mem;
  sr_bytes : has_bytes p d;
  sr_cmd : cmd p = WriteReq \/ cmd p = StoreCondReq;
  sr_covers : covers m (addr p) (psize p);
  sr_inhibit : memInhibitAsserted p = false;
  sr_req : req_ok (req p);
  sr_ifetch : isInstFetch (req p) = false
}.

(** The store is performed: always, but for a store-conditional without a
    reservation. *)
Definition store_succeeds (p : Packet) (m : AbstractMemory) : bool :=
  negb (isLLSC p) ||
  reserved (la_mask (_paddr (req p))) (_contextId (req p)) (lockedAddrList m).

(** A store request reaches the write branch. *)
Lemma access_store_branch p d m mem : store_request p d m mem ->
  access p m = ('(m, p) ← access_write p (psize p) (host_off m (addr p)) m;
                p ← makeResponse p; Ok (m, p)).
Proof.
  intros [Hm Hp Hb Hc Hcov Hi Hr Hf]. pose proof Hb as [Hwf Hd]. unfold access.
  rewrite getAddr_ok, getSize_ok by done. cbn [mbind res_bind].
  rewrite in_memory_ok by done. cbn [mbind res_bind]. rewrite Hi.
  destruct (decide (cmd p = SwapReq)) as [E|_]; [destruct Hc; congruence|].
  assert (isRead p = false) as -> by (unfold isRead; destruct Hc as [-> | ->]; reflexivity).
  assert (isWrite p = true) as -> by (unfold isWrite; destruct Hc as [-> | ->]; reflexivity).
  unfold access_write. destruct (writeOK_spec p m Hr) as (m1 & -> & _ & _ & _).
  cbn [mbind res_bind].
  assert (Hn : forall b q, cmd q = cmd p -> needsResponse (sc_result q b) = true).
  { intros b q E. unfold sc_result, needsResponse. destruct (isLLSC q); cbn [cmd field_upd];
      rewrite E; destruct Hc as [-> | ->]; reflexivity. }
  destruct (negb (isLLSC p) || _); cbv iota.
  - destruct (pmemAddr m1) as [mem1|].
    + destruct (negb _).
      * destruct (hmc_command _ _ _ _ _) as [m2|]; cbn [mbind res_bind]; [|done].
        destruct (assert_ _); cbn [mbind res_bind]; [|done].
        assert (needsResponse ((sc_result p true) <| ATOMIC_HMC_COMMAND := 0 |>) = true) as ->;
          [|done].
        exact (Hn true p eq_refl).
      * destruct (getPtr _) as [dd|]; cbn [mbind res_bind]; [|done].
        destruct (arr_read _ _ _) as [bs|]; cbn [mbind res_bind]; [|done].
        destruct (arr_write _ _ _) as [mem2|]; cbn [mbind res_bind]; [|done].
        destruct (assert_ _); cbn [mbind res_bind]; [|done]. by rewrite Hn.
    + cbn [mbind res_bind]. destruct (assert_ _); cbn [mbind res_bind]; [|done]. by rewrite Hn.
  - cbn [mbind res_bind]. by rewrite Hn.
Qed.

Lemma sc_result_fields p b : cmd (sc_result p b) = cmd p /\ data (sc_result p b) = data p /\
  flags (sc_result p b) = flags p /\ ATOMIC_HMC_COMMAND (sc_result p b) = ATOMIC_HMC_COMMAND p /\
  ATOMIC_HMC_OPERAND (sc_result p b) = ATOMIC_HMC_OPERAND p /\
  _flags (req (sc_result p b)) = _flags (req p).
Proof. unfold sc_result. by destruct (isLLSC p). Qed.

Lemma sc_result_getPtr p b d : has_bytes p d -> getPtr (sc_result p b) = Ok d.
Proof.
  intros [Hwf Hd]. rewrite <- (getPtr_ok p d Hwf Hd). unfold getPtr.
  by destruct (sc_result_fields p b) as (_ & -> & -> & _).
Qed.

Lemma sc_result_response p b : cmd p = WriteReq \/ cmd p = StoreCondReq ->
  exists p', makeResponse (sc_result p b) = Ok p' /\ isResponse p' = true /\
    ATOMIC_HMC_COMMAND p' = ATOMIC_HMC_COMMAND p /\
    (cmd p = StoreCondReq -> getExtraData (req p') = Ok (if b then 1 else 0)).
Proof.
  intros Hc. destruct (sc_result_fields p b) as (F1 & _ & _ & F4 & _).
  destruct (makeResponse_write (sc_result p b)) as (p' & E & R & Q & A); [by rewrite F1|].
  exists p'. split_and!; try done; [congruence|]. intros E'. rewrite Q. unfold sc_result.
  replace (isLLSC p) with true by (unfold isLLSC; by rewrite E'). cbn [req field_upd].
  unfold getExtraData, setExtraData. cbn [privateFlags _extraData field_upd].
  by rewrite fl_isSet_set.
Qed.

(** Stores.  A plain store always writes; a store-conditional writes exactly
    when its context still holds a reservation on the line, and its response
    says which.  A store that writes changes the bytes it covers to its data,
    no others, and ends every reservation on its line; one that does not write
    changes neither bytes nor reservations. *)
Theorem access_store (p : Packet) (d : list Z) (m : AbstractMemory) (mem : list Z) :
  store_request p d m mem -> ATOMIC_HMC_COMMAND p = 0 ->
  exists m' p', access p m = Ok (m', p') /\ isResponse p' = true /\
    (cmd p = StoreCondReq ->
       getExtraData (req p') = Ok (if store_succeeds p m then 1 else 0)) /\
    if store_succeeds p m
    then writes m m' (addr p) d /\
         lockedAddrList m' = other_lines (la_mask (_paddr (req p))) (lockedAddrList m)
    else pmemAddr m' = pmemAddr m /\ lockedAddrList m' = lockedAddrList m.
Proof.
  intros H Hz. rewrite (access_store_branch _ _ _ _ H). destruct H as [Hm Hp Hb Hc Hcov Hi Hr Hf].
  pose proof (has_bytes_length _ _ Hb) as Hl.
  unfold access_write. destruct (writeOK_spec p m Hr) as (m1 & -> & P1 & R1 & L1).
  cbn [mbind res_bind]. fold (store_succeeds p m) in *.
  destruct (sc_result_response p (store_succeeds p m) Hc) as (p' & E & Rp & _ & X).
  destruct (sc_result_fields p (store_succeeds p m)) as (_ & _ & _ & F4 & _ & F6).
  destruct (store_succeeds p m).
  - rewrite P1, Hp, F4, Hz. cbn [negb Z.eqb].
    rewrite (sc_result_getPtr _ _ _ Hb). cbn [mbind res_bind].
    rewrite (read_all _ _ Hb). cbn [mbind res_bind].
    rewrite <- Hl in Hcov.
    destruct (mem_store m mem (addr p) d Hm Hp Hcov) as (mem' & W & _).
    rewrite W. cbn [mbind res_bind].
    unfold isInstFetch. rewrite F6. fold (isInstFetch (req p)). rewrite Hf.
    cbn [negb assert_ mbind res_bind]. rewrite E. cbn [mbind res_bind].
    eexists _, p'. split; [reflexivity|]. split; [done|]. split; [done|]. split; [|exact L1].
    by eapply writes_store.
  - cbn [mbind res_bind]. rewrite E. cbn [mbind res_bind]. eexists _, p'.
    split; [reflexivity|]. rewrite P1. done.
Qed.

(** The word an atomic command leaves, as a function of the old one. *)
Definition hmc_word (c old operand : Z) : option Z :=
  if c =? HMC_CMD_INC then Some (u32 (old + 1))
  else if c =? HMC_CMD_FADD then
    Some (f32_to_bits (f32_add (f32_of_bits old) (f32_of_bits (u32 operand))))
  else if c =? HMC_CMD_MIN then Some (Z.min old (u32 operand))
  else None.

Lemma writes_nothing m mem m' a bs : mem_wf m -> pmemAddr m = Some mem ->
  mem_bytes m a (Z.of_nat (length bs)) = Ok bs ->
  range m' = range m -> pmemAddr m' = pmemAddr m -> writes m m' a bs.
Proof.
  intros Hm E Hb Er Ep. unfold writes, mem_wf, mem_bytes, host_off in *. by rewrite Er, Ep.
Qed.

(** The atomic commands on a 32-bit word. *)
Lemma hmc_command_word p m0 m mem a bs w :
  mem_wf m0 -> pmemAddr m0 = Some mem -> covers m0 a 4 ->
  mem_bytes m0 a 4 = Ok bs -> Forall byte_ok bs ->
  hmc_word (ATOMIC_HMC_COMMAND p) (le_val bs) (ATOMIC_HMC_OPERAND p) = Some w ->
  range m = range m0 -> pmemAddr m = Some mem ->
  exists m', hmc_command p 4 (host_off m0 a) mem m = Ok m' /\ writes m0 m' a (le_bytes 4 w) /\
    lockedAddrList m' = lockedAddrList m.
Proof.
  intros Hm Hp Hc Hb Hok Hw Er Ep. unfold hmc_command, hmc_word in *.
  unfold mem_bytes in Hb. rewrite Hp in Hb.
  pose proof (arr_read_length _ _ _ _ Hb) as Hlen.
  assert (W : forall v, exists mem', arr_write mem (host_off m0 a) (le_bytes 4 v) = Ok mem').
  { intros v. destruct (mem_store m0 mem a (le_bytes 4 v) Hm Hp) as (mem' & W & _);
      [by rewrite length_le_bytes|]. eauto. }
  assert (Hs : forall m' v mem', arr_write mem (host_off m0 a) (le_bytes 4 v) = Ok mem' ->
             range m' = range m0 -> pmemAddr m' = Some mem' -> writes m0 m' a (le_bytes 4 v)).
  { intros m' v mem' Ew R P. eapply (writes_store m0 mem); eauto. }
  repeat case_if_in Hw; [..|done]; injection Hw as <-.
  - change (4 =? 4) with true. cbv iota. rewrite Hb. cbn [mbind res_bind].
    destruct (W (u32 (le_val bs + 1))) as [mem' W']. rewrite W'. cbn [mbind res_bind].
    eexists. split; [reflexivity|]. split; [|done]. eapply Hs; eauto.
  - rewrite Hb. cbn [mbind res_bind].
    match goal with |- context [arr_write mem _ (le_bytes 4 ?v)] =>
      destruct (W v) as [mem' W']; rewrite W' end. cbn [mbind res_bind].
    eexists. split; [reflexivity|]. split; [|done]. eapply Hs; eauto.
  - change (4 =? 4) with true. cbv iota. rewrite Hb. cbn [mbind res_bind].
    destruct (Z.ltb_spec (u32 (ATOMIC_HMC_OPERAND p)) (le_val bs)) as [L|L].
    + destruct (W (u32 (ATOMIC_HMC_OPERAND p))) as [mem' W']. rewrite W'. cbn [mbind res_bind].
      eexists. split; [reflexivity|]. split; [|done]. rewrite Z.min_r by lia. eapply Hs; eauto.
    + eexists. split; [reflexivity|]. split; [|done]. rewrite Z.min_l by lia.
      replace 4%nat with (length bs) by lia. rewrite le_bytes_val by done.
      eapply writes_nothing; eauto; [unfold mem_bytes; by rewrite Hp, Hlen|].
      cbn [pmemAddr field_upd]. congruence.
Qed.

(** An HMC atomic command carried by a 4-byte write replaces the word at the
    address by the command's result (the successor, the IEEE sum with the
    operand, the minimum with the operand), whatever the payload is, and
    nothing else; the packet comes back as a response with the command
    cleared. *)
Theorem access_hmc (p : Packet) (d : list Z) (m : AbstractMemory) (mem bs : list Z) (w : Z) :
  store_request p d m mem -> cmd p = WriteReq -> psize p = 4 ->
  mem_bytes m (addr p) 4 = Ok bs -> Forall byte_ok bs ->
  hmc_word (ATOMIC_HMC_COMMAND p) (le_val bs) (ATOMIC_HMC_OPERAND p) = Some w ->
  exists m' p', access p m = Ok (m', p') /\ writes m m' (addr p) (le_bytes 4 w) /\
    isResponse p' = true /\ ATOMIC_HMC_COMMAND p' = 0.
Proof.
  intros H Hw Hsz Hbs Hok Hres. rewrite (access_store_branch _ _ _ _ H).
  destruct H as [Hm Hp Hb Hc Hcov Hi Hr Hf].
  unfold access_write. destruct (writeOK_spec p m Hr) as (m1 & -> & P1 & R1 & L1).
  cbn [mbind res_bind].
  assert (isLLSC p = false) as E by (unfold isLLSC; by rewrite Hw). unfold sc_result.
  rewrite E. cbn [negb orb]. rewrite P1, Hp. rewrite Hsz in *.
  assert ((ATOMIC_HMC_COMMAND p =? 0) = false) as ->.
  { apply Z.eqb_neq. intros Hz. rewrite Hz in Hres. done. }
  cbn [negb].
  destruct (hmc_command_word p m m1 mem (addr p) bs w) as (m2 & -> & Hm2 & _); try done;
    [by rewrite P1|].
  cbn [mbind res_bind]. change (req p <| ATOMIC_HMC_COMMAND := 0 |>) with (req p).
  rewrite Hf. cbn [negb assert_ mbind res_bind].
  destruct (makeResponse_write (p <| ATOMIC_HMC_COMMAND := 0 |>)) as (p' & E' & Rp & Q & A);
    [by left|].
  rewrite E'. cbn [mbind res_bind]. eexists _, p'. split; [reflexivity|]. split; [|done].
  exact Hm2.
Qed.

(** ** Witnesses *)
Definition ex_range : AR.AddrRange := AR.AddrRange2 64 95.
Definition ex_mem (l : list LockedAddr) : AbstractMemory :=
  mkMem ex_range (Some (replicate 32 7)) l [] 0 0 0 ∅ ∅ ∅ ∅ ∅ ∅.
Definition ex_req : Request :=
  mkRequest 68 4 1 0 (Z.lor (Z.lor REQ_VALID_PADDR REQ_VALID_SIZE) REQ_VALID_CONTEXT_ID) 0 3.
Definition ex_pkt (c : Command) : Packet :=
  mkPacket false 0 0 (Z.lor (Z.lor VALID_ADDR VALID_SIZE) DYNAMIC_DATA) c ex_req
    (Some [1; 2; 3; 4]) 68 false 4 5 InvalidPortID InvalidCmd 0 0 0 0 [].

Lemma ex_pkt_bytes c : has_bytes (ex_pkt c) [1; 2; 3; 4].
Proof.
  split; [|done]. unfold pkt_wf, inw. cbn [flags addr psize data ex_pkt]. split_and!; try done; try lia.
  by intros d [= <-].
Qed.

Lemma ex_store_request c l : c = WriteReq \/ c = StoreCondReq ->
  store_request (ex_pkt c) [1; 2; 3; 4] (ex_mem l) (replicate 32 7).
Proof.
  intros Hc. split; try done. apply ex_pkt_bytes.
Qed.

Lemma trackLoadLocked_spec_witness :
  exists m', trackLoadLocked (ex_pkt LoadLockedReq) (ex_mem []) = Ok m' /\
    reserved 64 3 (lockedAddrList m') = true.
Proof.
  destruct (trackLoadLocked_spec (ex_pkt LoadLockedReq) (ex_mem [])) as (m' & H1 & _ & H2 & _).
  - done.
  - apply NoDup_nil_2.
  - exists m'. split; [exact H1|exact H2].
Defined.

Lemma access_store_witness :
  exists m' p', access (ex_pkt StoreCondReq) (ex_mem [mkLocked 64 3]) = Ok (m', p') /\
    getExtraData (req p') = Ok 1 /\ mem_bytes m' 68 4 = Ok [1; 2; 3; 4] /\
    lockedAddrList m' = [].
Proof.
  destruct (access_store (ex_pkt StoreCondReq) [1; 2; 3; 4] (ex_mem [mkLocked 64 3])
              (replicate 32 7)) as (m' & p' & H1 & _ & H2 & H3).
  - apply ex_store_request. by right.
  - reflexivity.
  - exists m', p'. split; [exact H1|]. split; [exact (H2 eq_refl)|].
    destruct H3 as ((_ & _ & H3 & _) & H4). split; [exact H3|exact H4].
Defined.

Lemma access_hmc_witness :
  exists m' p', access ((ex_pkt WriteReq) <| ATOMIC_HMC_COMMAND := HMC_CMD_INC |>) (ex_mem [])
                = Ok (m', p') /\ mem_bytes m' 68 4 = Ok [8; 7; 7; 7].
Proof.
  destruct (access_hmc ((ex_pkt WriteReq) <| ATOMIC_HMC_COMMAND := HMC_CMD_INC |>) [1; 2; 3; 4]
              (ex_mem []) (replicate 32 7) [7; 7; 7; 7] 117901064) as (m' & p' & H1 & H2 & _).
  - destruct (ex_store_request WriteReq []); [by left|]. split; try done.
  - reflexivity.
  - reflexivity.
  - reflexivity.
  - repeat constructor; unfold byte_ok; lia.
  - reflexivity.
  - exists m', p'. split; [exact H1|]. exact (proj1 (proj2 (proj2 H2))).
Defined.
