(* ===== verification/PacketQueue.v ===== *)
(** * The packet queue of a port

    Models [mem/packet_queue.cc], [mem/packet_queue.hh] and the ports of
    [mem/qport.hh] that use it: packets that are ready at a given tick, sent in
    order by one event, and held back while the peer owes a retry.

    Sending runs the peer's code, which may queue further packets before it
    returns; the call is a function on the queue. *)

From S2P Require Import Prelude.
From S2P Require Import Packet.
From S2P Require Import AbstractMem.

Record Deferred := mkDeferredPacket { tick : Z; pkt : Packet; sendAsSnoop : bool }.

Record PacketQueue := mkPacketQueue {
  transmitList : list Deferred;
  sendEvent : option Z;
  drainManager : bool;
  drainSignals : Z;
  waitingOnRetry : bool
}.

Definition PacketQueue_new : PacketQueue := mkPacketQueue [] None false 0 false.

Definition MaxTick : Z := u64_max.

Definition deferredPacketReady (now : Z) (q : PacketQueue) : bool :=
  match transmitList q with [] => false | d :: _ => tick d <=? now end.
Definition deferredPacketReadyTime (q : PacketQueue) : Z :=
  match transmitList q with [] => MaxTick | d :: _ => tick d end.

(** The packets until one contains the answer; a packet may be updated. *)
Fixpoint check_list (p : Packet) (l : list Deferred) : res (Packet * list Deferred * bool) :=
  match l with
  | [] => Ok (p, [], false)
  | d :: l =>
      '(p, other, found) ← checkFunctional p (pkt d);
      let d := d <| pkt := other |> in
      if found : bool then Ok (p, d :: l, true)
      else '(p, l, found) ← check_list p l; Ok (p, d :: l, found)
  end.
Definition queue_checkFunctional (p : Packet) (q : PacketQueue) : res (PacketQueue * Packet * bool) :=
  '(p, l, found) ← check_list p (transmitList q); Ok (q <| transmitList := l |>, p, found).

Definition schedSendEvent (now when : Z) (q : PacketQueue) : res PacketQueue :=
  if waitingOnRetry q then _ ← assert_ (bool_decide (sendEvent q = None)); Ok q
  else
    match sendEvent q with
    | None => ev ← schedule None now when; Ok (q <| sendEvent := ev |>)
    | Some t => if when <? t then ev ← reschedule (Some t) now when; Ok (q <| sendEvent := ev |>) else Ok q
    end.

(** The insertion in the middle: behind every packet that is not later. *)
Fixpoint insert_sorted (d : Deferred) (l : list Deferred) : list Deferred :=
  match l with
  | [] => [d]
  | e :: l => if tick e <=? tick d then e :: insert_sorted d l else d :: e :: l
  end.

Definition schedSendTiming (now : Z) (p : Packet) (when : Z) (send_as_snoop : bool) (q : PacketQueue) : res PacketQueue :=
  let d := mkDeferredPacket when p send_as_snoop in
  _ ← assert_ (now <=? when);
  _ ← assert_ (negb (isExpressSnoop p));
  if (100 <? length (transmitList q))%nat then panic
  else
    match transmitList q, last (transmitList q) with
    | front :: rest, Some back =>
        if when <? tick front then schedSendEvent now when (q <| transmitList := d :: front :: rest |>)
        else if tick back <=? when then Ok (q <| transmitList := (front :: rest) ++ [d] |>)
        else Ok (q <| transmitList := front :: insert_sorted d rest |>)
    | _, _ => schedSendEvent now when (q <| transmitList := [d] |>)
    end.

Definition schedTimingResp (now : Z) (p : Packet) (when : Z) (q : PacketQueue) : res PacketQueue :=
  schedSendTiming now p when false q.

Section Send.

Context (sendTiming : Packet -> bool -> PacketQueue -> res (PacketQueue * bool)).

Definition trySendTiming (now : Z) (q : PacketQueue) : res PacketQueue :=
  _ ← assert_ (deferredPacketReady now q);
  match transmitList q with
  | [] => Err AssertFailed
  | dp :: _ =>
      '(q, sent) ← sendTiming (pkt dp) (sendAsSnoop dp) q;
      let q := q <| waitingOnRetry := negb sent |> in
      if negb (waitingOnRetry q) then Ok (q <| transmitList := tail (transmitList q) |>) else Ok q
  end.

Definition scheduleSend (now time : Z) (q : PacketQueue) : res PacketQueue :=
  let nextReady := Z.max (Z.min (deferredPacketReadyTime q) time) (u64 (now + 1)) in
  if negb (nextReady =? MaxTick) then
    match sendEvent q with
    | None => ev ← schedule None now nextReady; Ok (q <| sendEvent := ev |>)
    | Some t => if nextReady <? t then ev ← reschedule (Some t) now nextReady; Ok (q <| sendEvent := ev |>) else Ok q
    end
  else if drainManager q && bool_decide (transmitList q = []) && bool_decide (sendEvent q = None)
  then Ok (q <| drainSignals := drainSignals q + 1 |> <| drainManager := false |>)
  else Ok q.

Definition sendDeferredPacket (now : Z) (q : PacketQueue) : res PacketQueue :=
  q ← trySendTiming now q;
  if negb (waitingOnRetry q) then scheduleSend now MaxTick q else Ok q.

Definition processSendEvent (now : Z) (q : PacketQueue) : res PacketQueue :=
  _ ← assert_ (negb (waitingOnRetry q)); sendDeferredPacket now q.

Definition queue_retry (now : Z) (q : PacketQueue) : res PacketQueue :=
  _ ← assert_ (waitingOnRetry q); sendDeferredPacket now q.

End Send.

Definition queue_drain (q : PacketQueue) : PacketQueue * Z :=
  if bool_decide (transmitList q = []) then (q, 0) else (q <| drainManager := true |>, 1).

(** ** The order of the packets *)

Definition in_order (l : list Deferred) : Prop := StronglySorted (fun d e => tick d <= tick e) l.

Lemma insert_in_order d l : in_order l -> in_order (insert_sorted d l).
Proof.
  induction 1 as [|e l S IH F]; cbn [insert_sorted]; [repeat constructor|]. destruct (Z.leb_spec (tick e) (tick d)).
  - constructor; [done|]. clear IH. induction l as [|x l IH]; cbn [insert_sorted]; [by repeat constructor|].
    apply Forall_cons in F as [F1 F2]. case_match; constructor; try done.
    + apply IH; [by inversion S|done].
    + by constructor.
  - constructor; [by constructor|]. constructor; [lia|]. eapply Forall_impl; [exact F|]. cbn. lia.
Qed.

Lemma in_order_ticks l : in_order l <-> StronglySorted Z.le (tick <$> l).
Proof.
  unfold in_order. induction l as [|d l IH]; cbn; [split; constructor|]. split; intros [S F]%StronglySorted_inv; constructor.
  - by apply IH.
  - by apply (Forall_fmap tick (fun t => tick d <= t)).
  - by apply IH.
  - by apply (Forall_fmap tick (fun t => tick d <= t)) in F.
Qed.

Lemma insert_first d e l : tick d < tick e -> insert_sorted d (e :: l) = d :: e :: l.
Proof. intros H. cbn. by rewrite (proj2 (Z.leb_gt _ _)). Qed.

Lemma insert_last d l b : in_order l -> last l = Some b -> tick b <= tick d -> insert_sorted d l = l ++ [d].
Proof.
  induction 1 as [|e l S IH F]; [done|]. intros Hl Hb. cbn [insert_sorted app].
  assert (tick e <= tick d).
  { destruct l as [|x l]; [by injection Hl as ->|]. transitivity (tick b); [|done].
    apply (proj1 (Forall_forall _ _) F). apply last_Some_elem_of. exact Hl. }
  rewrite (proj2 (Z.leb_le _ _)) by done. f_equal. destruct l as [|x l]; [done|]. by apply IH.
Qed.

(** ** The invariant *)

Record pq_inv (now : Z) (q : PacketQueue) : Prop := {
  pq_sorted : in_order (transmitList q);
  pq_ticks : Forall (fun d => 0 <= tick d < MaxTick) (transmitList q);
  pq_retry : waitingOnRetry q = true -> sendEvent q = None /\ deferredPacketReady now q = true;
  pq_pending : transmitList q <> [] -> waitingOnRetry q = false -> sendEvent q <> None;
  pq_event : forall t, sendEvent q = Some t -> now <= t /\ transmitList q <> [] /\ deferredPacketReadyTime q <= t
}.

(** While a packet is being sent: the event is not scheduled, and the packet is
    still in front. *)
Record pq_sending (now : Z) (d : Deferred) (q : PacketQueue) : Prop := {
  ps_sorted : in_order (transmitList q);
  ps_ticks : Forall (fun d => 0 <= tick d < MaxTick) (transmitList q);
  ps_front : exists l, transmitList q = d :: l;
  ps_due : tick d <= now;
  ps_event : sendEvent q = None
}.

(** A packet is put behind those that are not later; nothing else changes but
    the event, which is moved to a packet that is now first. *)
Lemma sched_effect now p when snoop q q' : in_order (transmitList q) -> schedSendTiming now p when snoop q = Ok q' ->
  now <= when /\ transmitList q' = insert_sorted (mkDeferredPacket when p snoop) (transmitList q) /\
  waitingOnRetry q' = waitingOnRetry q /\
  ((exists front rest, transmitList q = front :: rest /\ tick front <= when) /\ sendEvent q' = sendEvent q \/
   (forall front rest, transmitList q = front :: rest -> when < tick front) /\
     (waitingOnRetry q = true /\ sendEvent q = None /\ sendEvent q' = None \/
      waitingOnRetry q = false /\ sendEvent q' = Some match sendEvent q with Some t => Z.min t when | None => when end)).
Proof.
  intros S H. unfold schedSendTiming in H. res_inv. bool_prop. case_if_in H; [done|].
  assert (forall l, in_order l -> schedSendEvent now when (q <| transmitList := l |>) = Ok q' ->
    transmitList q' = l /\ waitingOnRetry q' = waitingOnRetry q /\
     (waitingOnRetry q = true /\ sendEvent q = None /\ sendEvent q' = None \/
      waitingOnRetry q = false /\ sendEvent q' = Some match sendEvent q with Some t => Z.min t when | None => when end)) as E.
  { intros l _ E. unfold schedSendEvent in E. cbn [waitingOnRetry sendEvent field_upd] in E. destruct (waitingOnRetry q) eqn:Ew.
    - res_inv. bool_prop. cbn. by split_and!; auto.
    - destruct (sendEvent q) as [t|] eqn:Ee.
      + case_if_in E; unfold reschedule in E; res_inv; bool_prop; cbn; rewrite ?Ew, ?Ee; split_and!; try done; right;
          (split; [done|f_equal; lia]).
      + unfold schedule in E. res_inv. cbn. rewrite ?Ew. split_and!; try done. by right. }
  destruct (transmitList q) as [|front rest] eqn:El; [|destruct (last (front :: rest)) as [back|] eqn:Eb].
  - apply E in H as (-> & Hw & H); [|repeat constructor]. split_and!; try done. right. split; [done|exact H].
  - case_if_in H; [|case_if_in H]; bool_prop.
    + apply E in H as (-> & Hw & H); [|constructor; [exact S|]].
      * rewrite insert_first by done. split_and!; try done. right. split; [|exact H]. by intros ? ? [= <- <-].
      * apply StronglySorted_inv in S as [_ F]. constructor; [cbn; lia|]. eapply Forall_impl; [exact F|]. cbn. lia.
    + res_inv. cbn. split_and!; try done.
      * symmetry. exact (insert_last (mkDeferredPacket when p snoop) (front :: rest) back S Eb Hif1).
      * left. split; [by exists front, rest|done].
    + res_inv. cbn. rewrite (proj2 (Z.leb_le _ _)) by done. split_and!; try done. left. split; [by exists front, rest|done].
  - by destruct (last_is_Some (front :: rest)) as [_ [x Hx]]; [|congruence].
Qed.

Lemma insert_Forall (Q : Deferred -> Prop) d l : Q d -> Forall Q l -> Forall Q (insert_sorted d l).
Proof. intros Hd. induction 1; cbn [insert_sorted]; [by constructor|]. case_match; repeat (constructor; try done). Qed.

Lemma insert_nonempty d l : insert_sorted d l <> [].
Proof. destruct l; [done|]. cbn. by case_match. Qed.

Lemma sched_inv now p when snoop q q' : when < MaxTick -> 0 <= now -> pq_inv now q ->
  schedSendTiming now p when snoop q = Ok q' -> pq_inv now q'.
Proof.
  intros Hmax H0 [I1 I2 I3 I4 I5] H. apply sched_effect in H as (Hw & El & Er & H); [|done].
  assert (Forall (fun d => 0 <= tick d < MaxTick) (insert_sorted (mkDeferredPacket when p snoop) (transmitList q))) as Ht
    by (apply insert_Forall; [cbn; lia|done]).
  destruct H as [[(front & rest & Eq & Hf) Ee]|[Hf H]].
  - assert (insert_sorted (mkDeferredPacket when p snoop) (transmitList q) = front :: insert_sorted (mkDeferredPacket when p snoop) rest) as Ei
      by (rewrite Eq; cbn; by rewrite (proj2 (Z.leb_le _ _))).
    split; rewrite ?El, ?Er, ?Ee; try done; [by apply insert_in_order| | |].
    + intros Hr. apply I3 in Hr as [? Hd]. split; [done|]. unfold deferredPacketReady in *. by rewrite El, Ei, Eq in *.
    + intros _. apply I4. by rewrite Eq.
    + intros t Et. destruct (I5 t Et) as (? & _ & Hr). split; [done|]. split; [apply insert_nonempty|].
      unfold deferredPacketReadyTime in *. by rewrite El, Ei, Eq in *.
  - destruct H as [(Hr & Hn & _)|[Hr Ee]].
    { destruct (I3 Hr) as [_ Hd]. unfold deferredPacketReady in Hd. destruct (transmitList q) as [|front rest]; [done|].
      specialize (Hf front rest eq_refl). apply Z.leb_le in Hd. lia. }
    assert (exists rest, insert_sorted (mkDeferredPacket when p snoop) (transmitList q) = mkDeferredPacket when p snoop :: rest) as [rest Ei].
    { destruct (transmitList q) as [|front rest] eqn:Eq; [by eexists|]. rewrite insert_first by (cbn; by eapply Hf). by eexists. }
    split; rewrite ?El, ?Er, ?Ee; try done; [by apply insert_in_order|congruence|].
    intros t [= <-]. split; [|split; [by apply insert_nonempty|]].
    + destruct (sendEvent q) as [t|]; [|done]. destruct (I5 t eq_refl). lia.
    + unfold deferredPacketReadyTime. rewrite El, Ei. cbn. destruct (sendEvent q) as [t|] eqn:Et; [|done].
      destruct (I5 t eq_refl) as (_ & Hne & Hle). unfold deferredPacketReadyTime in Hle.
      destruct (transmitList q) as [|front r] eqn:Eq; [done|]. specialize (Hf front r eq_refl). lia.
Qed.

(** What the peer may do to the queue before it returns. *)
Inductive reenters (now : Z) : PacketQueue -> PacketQueue -> Prop :=
| re_refl q : reenters now q q
| re_sched q q1 q2 p when snoop : when < MaxTick -> schedSendTiming now p when snoop q = Ok q1 ->
    reenters now q1 q2 -> reenters now q q2.

Definition send_peer (now : Z) (f : Packet -> bool -> PacketQueue -> res (PacketQueue * bool)) : Prop :=
  forall p b q q' acc, f p b q = Ok (q', acc) -> reenters now q q'.

Lemma pq_reenters_sending now d q q' : 0 <= now -> reenters now q q' -> pq_sending now d q -> pq_sending now d q'.
Proof.
  intros H0. induction 1 as [|q q1 q2 p when snoop Hm H _ IH]; [done|]. intros [S1 S2 (l & S3) S4 S5]. apply IH.
  apply sched_effect in H as (Hw & El & _ & H); [|done]. destruct H as [[_ Ee]|[Hf _]].
  - split; rewrite ?El, ?Ee; try done; [by apply insert_in_order|apply insert_Forall; [cbn; lia|done]|].
    rewrite S3. cbn. rewrite (proj2 (Z.leb_le _ _)) by lia. by eexists.
  - specialize (Hf _ _ S3). lia.
Qed.

(** The packet in front is offered, and leaves if and only if it was taken; then
    the event is moved to the packet behind it. *)
Lemma send_ok now f d l q q1 acc : 0 <= now < MaxTick - 1 -> send_peer now f -> pq_sending now d q -> transmitList q = d :: l ->
  f (pkt d) (sendAsSnoop d) q = Ok (q1, acc) ->
  exists q' l1, sendDeferredPacket f now q = Ok q' /\ transmitList q1 = d :: l1 /\
    transmitList q' = (if acc then l1 else d :: l1) /\ pq_inv now q' /\ waitingOnRetry q' = negb acc.
Proof.
  intros Hnow Hf S El E. pose proof (pq_reenters_sending now d q q1 (proj1 Hnow) (Hf _ _ _ _ _ E) S) as [S1 S2 (l1 & S3) S4 S5].
  unfold sendDeferredPacket, trySendTiming, deferredPacketReady. rewrite El, (proj2 (Z.leb_le _ _)) by apply S.
  cbn [assert_ mbind res_bind]. rewrite E. destruct q1 as [tl ev dm ds w]. cbn in S1, S2, S3, S5. subst tl ev.
  pose proof (proj1 (StronglySorted_inv S1)) as S1'. pose proof (proj2 (StronglySorted_inv S1)) as Sf.
  pose proof (proj1 (Forall_cons _ _ _) S2) as [_ S2'].
  destruct acc; cbn [negb mbind res_bind waitingOnRetry transmitList field_upd tail].
  - unfold scheduleSend, deferredPacketReadyTime. cbn [transmitList sendEvent drainManager field_upd].
    rewrite u64_small by (unfold MaxTick, u64_max in Hnow; lia). destruct l1 as [|e l1].
    + rewrite Z.min_id, Z.max_l by lia. rewrite Z.eqb_refl. cbn [negb].
      destruct dm; cbn [andb]; (eexists _, []; split; [done|]; split_and!; try done; split; done).
    + apply Forall_cons in S2' as [He S2']. rewrite Z.min_l by lia.
      rewrite (proj2 (Z.eqb_neq _ _)) by lia. cbn [negb]. unfold schedule. rewrite (proj2 (Z.leb_le _ _)) by lia.
      eexists _, (e :: l1). split; [done|]. split_and!; try done. split; try done; [by constructor|].
      intros t [= <-]. unfold deferredPacketReadyTime. cbn. split_and!; [lia|done|lia].
  - eexists _, l1. split; [done|]. split_and!; try done. split; try done.
    intros _. split; [done|]. apply Z.leb_le. done.
Qed.

(** ** Reachable states *)

(** A step at a moment: a packet is queued, the event is due, the peer retries,
    a functional access, a drain; or time passes, but not over the event. *)
Inductive pq_step : Z * PacketQueue -> Z * PacketQueue -> Prop :=
| step_sched now q q' p when snoop : when < MaxTick -> schedSendTiming now p when snoop q = Ok q' -> pq_step (now, q) (now, q')
| step_event now q q' f : sendEvent q = Some now -> send_peer now f ->
    processSendEvent f now (q <| sendEvent := None |>) = Ok q' -> pq_step (now, q) (now, q')
| step_retry now q q' f : waitingOnRetry q = true -> send_peer now f -> queue_retry f now q = Ok q' -> pq_step (now, q) (now, q')
| step_functional now q q' p p' found : queue_checkFunctional p q = Ok (q', p', found) -> pq_step (now, q) (now, q')
| step_drain now q : pq_step (now, q) (now, fst (queue_drain q))
| step_time now now' q : now <= now' < MaxTick - 1 -> (forall t, sendEvent q = Some t -> now' <= t) -> pq_step (now, q) (now', q).

Lemma sending_event now q : pq_inv now q -> sendEvent q = Some now ->
  exists d, waitingOnRetry q = false /\ pq_sending now d (q <| sendEvent := None |>).
Proof.
  intros [I1 I2 I3 I4 I5] E. destruct (I5 now E) as (_ & Hne & Hr). destruct (waitingOnRetry q) eqn:Ew; [by destruct (I3 eq_refl); congruence|].
  unfold deferredPacketReadyTime in Hr. destruct (transmitList q) as [|d l] eqn:El; [done|].
  exists d. split; [done|]. split; cbn; rewrite ?El; eauto.
Qed.

Lemma sending_retry now q : pq_inv now q -> waitingOnRetry q = true -> exists d, pq_sending now d q.
Proof.
  intros [I1 I2 I3 I4 I5] E. destruct (I3 E) as [Ee Hd]. unfold deferredPacketReady in Hd.
  destruct (transmitList q) as [|d l] eqn:El; [done|]. exists d. split; rewrite ?El; eauto. by apply Z.leb_le.
Qed.

Lemma send_inv now f d q q' : 0 <= now < MaxTick - 1 -> send_peer now f -> pq_sending now d q ->
  sendDeferredPacket f now q = Ok q' -> pq_inv now q'.
Proof.
  intros Hnow Hf S H. pose proof (ps_front _ _ _ S) as [l El].
  destruct (f (pkt d) (sendAsSnoop d) q) as [[q1 acc]|e] eqn:E.
  - destruct (send_ok now f d l q q1 acc Hnow Hf S El E) as (q2 & l1 & E2 & _ & _ & I & _). rewrite E2 in H. by injection H as <-.
  - unfold sendDeferredPacket, trySendTiming, deferredPacketReady in H. rewrite El, (proj2 (Z.leb_le _ _)) in H by apply S.
    cbn [assert_ mbind res_bind] in H. by rewrite E in H.
Qed.

Lemma check_list_ticks p : forall l p' l' found, check_list p l = Ok (p', l', found) -> tick <$> l' = tick <$> l.
Proof.
  intros l. revert p. induction l as [|d l IH]; intros p p' l' found; cbn [check_list]; [by intros [= <- <- <-]|].
  intros H. res_inv. case_if_in H; res_inv; [done|]. cbn. f_equal. eauto.
Qed.

Lemma ticks_same now q l : tick <$> l = tick <$> transmitList q -> pq_inv now q -> pq_inv now (q <| transmitList := l |>).
Proof.
  intros E [I1 I2 I3 I4 I5].
  assert (forall l l', tick <$> l = tick <$> l' -> (l = [] <-> l' = []) /\
    match l with [] => MaxTick | d :: _ => tick d end = match l' with [] => MaxTick | d :: _ => tick d end) as Hh.
  { intros [|d x] [|d' x'] Hx; try done. by injection Hx as -> _. }
  destruct (Hh _ _ E) as [Hn Ht]. clear Hh.
  split; cbn [transmitList sendEvent waitingOnRetry field_upd].
  - apply in_order_ticks. rewrite E. by apply in_order_ticks.
  - apply (proj1 (Forall_fmap tick (fun t => 0 <= t < MaxTick) l)). rewrite E. by apply Forall_fmap.
  - intros Hw. destruct (I3 Hw) as [? Hd]. split; [done|]. unfold deferredPacketReady in *. cbn [transmitList field_upd].
    destruct l as [|x l], (transmitList q) as [|y r]; try done. by rewrite Ht.
  - intros Hl. apply I4. tauto.
  - intros t Et. destruct (I5 t Et) as (? & ? & Hr). split_and!; [done|tauto|]. unfold deferredPacketReadyTime in *. cbn. by rewrite Ht.
Qed.

Lemma pq_step_inv s s' : pq_step s s' -> 0 <= fst s < MaxTick - 1 -> pq_inv (fst s) (snd s) ->
  0 <= fst s' < MaxTick - 1 /\ pq_inv (fst s') (snd s').
Proof.
  intros H Hn I. destruct H as [now q q' p when snoop Hm H|now q q' f He Hf H|now q q' f Hw Hf H|now q q' p p' found H|now q|now now' q Hn' Ht];
    cbn [fst snd] in *.
  - split; [done|]. eapply sched_inv; try done. lia.
  - split; [done|]. destruct (sending_event now q I He) as (d & Hw & S). unfold processSendEvent in H.
    change (waitingOnRetry (q <| sendEvent := None |>)) with (waitingOnRetry q) in H. rewrite Hw in H.
    cbn [negb assert_ mbind res_bind] in H. by apply (send_inv now f d _ q' Hn Hf S).
  - split; [done|]. destruct (sending_retry now q I Hw) as (d & S). unfold queue_retry in H. rewrite Hw in H.
    cbn [assert_ mbind res_bind] in H. by apply (send_inv now f d q q' Hn Hf S).
  - split; [done|]. unfold queue_checkFunctional in H. res_inv. apply ticks_same; [by eapply check_list_ticks|done].
  - split; [done|]. unfold queue_drain. by case_bool_decide; [|destruct I; split].
  - split; [lia|]. destruct I as [I1 I2 I3 I4 I5]. split; try done.
    + intros Hw. destruct (I3 Hw) as [? Hd]. split; [done|]. unfold deferredPacketReady in *. destruct (transmitList q); [done|].
      apply Z.leb_le. apply Z.leb_le in Hd. lia.
    + intros t Et. destruct (I5 t Et) as (? & ? & ?). split_and!; try done. by apply Ht.
Qed.

(** ** Theorems *)

(** C32. In every reachable state of a packet queue, under re-entrant calls, refusals
    and retries, the packets are in the order of their ticks; while one waits,
    either the event is pending, at or after the tick of the first, or the first
    was due and refused, and the peer owes a retry. *)
Theorem packet_queue_inv (now0 now : Z) (q : PacketQueue) : 0 <= now0 < MaxTick - 1 ->
  rtc pq_step (now0, PacketQueue_new) (now, q) -> pq_inv now q.
Proof.
  intros Hn H. assert (0 <= fst (now0, PacketQueue_new) < MaxTick - 1 /\ pq_inv (fst (now0, PacketQueue_new)) (snd (now0, PacketQueue_new))) as I.
  { split; [done|]. split; try done; constructor. }
  revert I. enough (forall s s', rtc pq_step s s' -> 0 <= fst s < MaxTick - 1 /\ pq_inv (fst s) (snd s) ->
    0 <= fst s' < MaxTick - 1 /\ pq_inv (fst s') (snd s')) as E by (intros I; apply (E _ _ H I)).
  clear. intros s s'. induction 1 as [|s s1 s2 Hs _ IH]; [done|]. intros [Hn I]. apply IH. by eapply pq_step_inv.
Qed.

(** When the event is due its handler fails no assertion: the packet in front is
    offered, and leaves the queue if and only if it was taken. *)
Lemma packet_queue_sends now f q : 0 <= now < MaxTick - 1 -> pq_inv now q -> sendEvent q = Some now -> send_peer now f ->
  exists d l, transmitList q = d :: l /\ tick d <= now /\
    forall q1 acc, f (pkt d) (sendAsSnoop d) (q <| sendEvent := None |>) = Ok (q1, acc) ->
      exists q' l1, processSendEvent f now (q <| sendEvent := None |>) = Ok q' /\ transmitList q1 = d :: l1 /\
        transmitList q' = if acc then l1 else d :: l1.
Proof.
  intros Hn I E Hf. destruct (sending_event now q I E) as (d & Hw & S). destruct (ps_front _ _ _ S) as [l El].
  exists d, l. split; [exact El|]. split; [apply S|]. intros q1 acc Ef.
  destruct (send_ok now f d l _ q1 acc Hn Hf S El Ef) as (q' & l1 & E' & E1 & E2 & _).
  exists q', l1. unfold processSendEvent.
  change (waitingOnRetry (q <| sendEvent := None |>)) with (waitingOnRetry q). by rewrite Hw.
Qed.

(** ** Witness: two packets, the second due first, which the peer refuses once *)
Definition ex_queue (front : list Deferred) (ev : option Z) (retry : bool) : PacketQueue :=
  mkPacketQueue (front ++ [mkDeferredPacket 20 (ex_pkt ReadResp) false]) ev false 0 retry.
Definition ex_early : Deferred := mkDeferredPacket 10 (ex_pkt WriteResp) false.

Lemma packet_queue_inv_witness : pq_inv 10 (ex_queue [] (Some 20) false).
Proof.
  apply (packet_queue_inv 5 10); [done|].
  apply rtc_l with (5, ex_queue [] (Some 20) false); [by apply (step_sched 5 _ _ (ex_pkt ReadResp) 20 false)|].
  apply rtc_l with (5, ex_queue [ex_early] (Some 10) false); [by apply (step_sched 5 _ _ (ex_pkt WriteResp) 10 false)|].
  apply rtc_l with (10, ex_queue [ex_early] (Some 10) false); [by apply step_time; [|intros t [= <-]]|].
  apply rtc_l with (10, ex_queue [ex_early] None true).
  { apply (step_event 10 _ _ (fun _ _ q => Ok (q, false))); [done| |done]. intros p b q q' acc [= -> _]. constructor. }
  apply rtc_once. apply (step_retry 10 _ _ (fun _ _ q => Ok (q, true))); [done| |done].
  intros p b q q' acc [= -> _]. constructor.
Defined.
