(* ===== verification/MemTypes.v ===== *)
(** Type soundness of the memory array.

    A memory is well typed when its array holds bytes and is as long as its
    range, and each context has at most one reservation; a packet when its
    bytes are bytes and as many as its size.  [safe Q r] says that a call ends
    with a value in [Q] or stops in an assertion or a panic of the code, and
    never in undefined behaviour.  [access] and [functionalAccess] are safe on
    well-typed memories and packets and keep them well typed, whatever the command,
    with two exceptions the code does not check for: packets that wrap around the
    address space, and float additions in packets shorter than a float. *)
From S2P Require Import Prelude.
From S2P Require Import Flags.
From S2P Require Import AddrRange.
From S2P Require Import Packet.
From S2P Require Import Float32.
From S2P Require Import AbstractMem.

(** ** Safe calls *)
Definition safe {A} (Q : A -> Prop) (r : res A) : Prop :=
  match r with
  | Ok a => Q a
  | Err Undefined | Err Diverged => False
  | Err _ => True
  end.

Lemma safe_bind {A B} (P : A -> Prop) (Q : B -> Prop) (r : res A) (f : A -> res B) :
  safe P r -> (forall a, P a -> safe Q (f a)) -> safe Q (r ≫= f).
Proof. destruct r as [a|[]]; cbn; auto. Qed.

Lemma safe_mono {A} (P Q : A -> Prop) (r : res A) : (forall a, P a -> Q a) -> safe P r -> safe Q r.
Proof. destruct r as [a|[]]; cbn; auto. Qed.

Lemma safe_assert b : safe (fun _ => b = true) (assert_ b).
Proof. by destruct b. Qed.

Lemma safe_panic {A} (Q : A -> Prop) : safe Q panic.
Proof. done. Qed.

#[local] Hint Resolve safe_assert safe_panic : core.

(** A step that only asserts. *)
Lemma safe_guard {B} b (Q : B -> Prop) (f : unit -> res B) :
  (b = true -> safe Q (f tt)) -> safe Q (assert_ b ≫= f).
Proof. destruct b; cbn; auto. Qed.

(** *** Arrays of bytes *)
Lemma safe_read m off n : Forall byte_ok m -> 0 <= off -> 0 <= n ->
  off + n <= Z.of_nat (length m) ->
  safe (fun bs => Forall byte_ok bs /\ Z.of_nat (length bs) = n) (arr_read m off n).
Proof.
  intros Hm Ho Hn Hl. rewrite arr_read_ok by lia. cbn [safe]. split.
  - by apply Forall_take, Forall_drop.
  - rewrite length_take, length_drop. lia.
Qed.

Lemma safe_write m off bs : Forall byte_ok m -> Forall byte_ok bs -> 0 <= off ->
  off + Z.of_nat (length bs) <= Z.of_nat (length m) ->
  safe (fun m' => Forall byte_ok m' /\ length m' = length m) (arr_write m off bs).
Proof.
  intros Hm Hb Ho Hl. destruct (arr_write_defined m off bs Ho Hl) as [m' E]. rewrite E.
  split; [|by eapply arr_write_length].
  unfold arr_write in E. case_if_in E; [|done]. injection E as <-.
  apply Forall_app. split; [by apply Forall_take|].
  apply Forall_app. split; [done|by apply Forall_drop].
Qed.

(** ** Typing *)
Record mem_typed (m : AbstractMemory) : Prop := mk_mem_typed {
  mt_wf : mem_wf m;
  mt_bytes : forall mem, pmemAddr m = Some mem -> Forall byte_ok mem;
  mt_locks : locks_wf (lockedAddrList m)
}.

(** A packet without bytes does not claim to have some. *)
Record pkt_typed (p : Packet) : Prop := mk_pkt_typed {
  pt_wf : pkt_wf p;
  pt_bytes : match data p with
             | Some d => Forall byte_ok d
             | None => fl_isSet (flags p) (Z.lor STATIC_DATA DYNAMIC_DATA) = false
             end
}.

Definition same_shape (p p' : Packet) : Prop :=
  pkt_typed p' /\ addr p' = addr p /\ psize p' = psize p.

Definition typed_result (m : AbstractMemory) (p : Packet) (r : AbstractMemory * Packet) : Prop :=
  mem_typed r.1 /\ range r.1 = range m /\ same_shape p r.2.

(** *** Packets *)
Lemma safe_getPtr p : pkt_typed p ->
  safe (fun d => data p = Some d /\ Forall byte_ok d /\ Z.of_nat (length d) = psize p) (getPtr p).
Proof.
  intros [Hwf Hb]. unfold getPtr. apply safe_guard. intros Hf.
  destruct (data p) as [d|] eqn:Ed; [|congruence]. cbn. split_and!; [done..|].
  destruct Hwf as (_ & _ & _ & _ & H). by destruct (H d Ed).
Qed.

Lemma same_shape_refl p : pkt_typed p -> same_shape p p.
Proof. by split. Qed.

Lemma safe_put p bs : pkt_typed p -> Forall byte_ok bs -> Z.of_nat (length bs) = psize p ->
  safe (same_shape p) (put_data 0 bs p).
Proof.
  intros Hp Hb Hl. unfold put_data. eapply safe_bind; [by apply safe_getPtr|].
  intros d (Hd & Hdb & Hdl). eapply safe_bind; [apply (safe_write d 0 bs Hdb Hb); lia|].
  intros d' [Hb' Hl']. destruct Hp as [(H1 & H2 & H3 & H4 & H5) H6].
  unfold same_shape. cbn [safe addr psize field_upd]. split; [|done]. split; cbn; [|done].
  destruct (H5 d Hd) as [Hf _]. unfold pkt_wf. cbn. split_and!; try done; try lia.
  intros d0 [= <-]. split; [done|lia].
Qed.

Lemma safe_makeResponse p0 p : same_shape p0 p -> safe (same_shape p0) (makeResponse p).
Proof.
  intros ([(H1 & H2 & H3 & H4 & H5) H6] & Ha & Hs). unfold makeResponse.
  do 2 (apply safe_guard; intros _). unfold same_shape. cbn. split; [|done].
  split; cbn.
  - unfold pkt_wf. cbn. rewrite !fl_isSet_clear_other by done. done.
  - rewrite fl_isSet_clear_other by done. done.
Qed.

(** Changing the request or the pending command keeps the shape. *)
Lemma same_shape_req p r : pkt_typed p -> same_shape p (p <| req := r |>).
Proof. intros [Hwf Hb]. unfold same_shape. cbn. by split. Qed.

Lemma same_shape_hmc p c : pkt_typed p -> same_shape p (p <| ATOMIC_HMC_COMMAND := c |>).
Proof. intros [Hwf Hb]. unfold same_shape. cbn. by split. Qed.

Lemma same_shape_trans p q r : same_shape p q -> same_shape q r -> same_shape p r.
Proof. intros (H1 & H2 & H3) (H4 & H5 & H6). split; [done|]. split; congruence. Qed.

(** *** The place of an access *)
Definition placed (m : AbstractMemory) (a sz : Z) : Prop :=
  0 <= host_off m a /\ 0 <= sz /\ host_off m a + sz <= AR._end (range m) - AR.start (range m) + 1.

Lemma safe_in_memory m a sz : mem_wf m -> 0 <= a -> 0 <= sz -> a + sz <= 2 ^ 64 ->
  safe (fun _ => placed m a sz) (in_memory a sz m).
Proof.
  intros (H1 & H2 & H3 & _) Ha Hsz Hw. unfold in_memory, AR.isSubset.
  change (AR.interleaved (AR.AddrRange2 _ _)) with false. cbn [AR._start AR._end AR.AddrRange2 mbind res_bind].
  eapply safe_mono; [|apply safe_assert]. cbn. intros _ Hb. bool_prop.
  unfold placed, host_off, AR.start in *. split; [lia|]. split; [done|].
  destruct (decide (0 < sz)) as [Hs|Hs]; [rewrite end_of_range in * by lia; lia|].
  pose proof (u64_range (u64 (a + sz) - 1)) as Hu.
  destruct (decide (0 < a)) as [Ha'|Ha']; [|lia].
  replace (a + sz) with ((a - 1) + 1) in * by lia. rewrite end_of_range in * by lia. lia.
Qed.

Section access.
Context (m : AbstractMemory) (p : Packet) (a : Z).
Hypothesis Hm : mem_typed m.
Hypothesis Hp : pkt_typed p.
Hypothesis Hplace : placed m a (psize p).

Lemma array_bounds mem : pmemAddr m = Some mem ->
  Forall byte_ok mem /\ host_off m a + psize p <= Z.of_nat (length mem).
Proof.
  intros E. destruct Hm as [(_ & _ & _ & Hl) Hb _]. rewrite E in Hl. split; [by apply Hb|].
  destruct Hplace as (_ & _ & ?). lia.
Qed.

Lemma safe_mem_read mem n : pmemAddr m = Some mem -> 0 <= n <= psize p ->
  safe (fun bs => Forall byte_ok bs /\ Z.of_nat (length bs) = n) (arr_read mem (host_off m a) n).
Proof.
  intros E Hn. destruct (array_bounds mem E). destruct Hplace as (? & ? & _).
  apply safe_read; [done|lia..].
Qed.

(** Storing at most as many bytes as the packet has keeps the memory typed. *)
Lemma safe_mem_write mem bs m1 : pmemAddr m = Some mem -> Forall byte_ok bs ->
  Z.of_nat (length bs) <= psize p -> range m1 = range m -> locks_wf (lockedAddrList m1) ->
  safe (fun mem' => mem_typed (m1 <| pmemAddr := Some mem' |>)) (arr_write mem (host_off m a) bs).
Proof.
  intros E Hb Hl Hr Hlk. destruct (array_bounds mem E) as [Hbm Hlm]. destruct Hplace as (? & ? & _).
  eapply safe_mono; [|apply (safe_write mem (host_off m a) bs Hbm Hb); lia].
  intros mem' [Hb' Hl']. destruct Hm as [(W1 & W2 & W3 & W4) _ _]. rewrite E in W4.
  split; cbn; [|by intros ? [= <-]|done]. unfold mem_wf. cbn. rewrite Hr, Hl'. done.
Qed.

End access.

(** *** Reservations *)
Lemma safe_contextId r : safe (fun c => c = _contextId r) (contextId r).
Proof. unfold contextId. by apply safe_guard. Qed.

Lemma safe_matches i r : safe (fun b => b = (la_contextId i =? _contextId r)) (matchesContext i r).
Proof.
  unfold matchesContext. eapply safe_bind; [apply safe_contextId|]. intros c ->. done.
Qed.

Lemma safe_getPaddr r : safe (fun _ => True) (getPaddr r).
Proof. unfold getPaddr. by apply safe_guard. Qed.

Lemma safe_update_lock paddr r l :
  safe (fun o => match o with
    | Some l' => la_contextId <$> l' = la_contextId <$> l
    | None => _contextId r ∉ la_contextId <$> l
    end) (update_lock paddr r l).
Proof.
  induction l as [|i l IH]; cbn [update_lock]; [apply not_elem_of_nil|].
  eapply safe_bind; [apply safe_matches|]. intros b ->.
  destruct (Z.eqb_spec (la_contextId i) (_contextId r)) as [E|E]; [done|].
  eapply safe_bind; [exact IH|]. intros [l'|] H; cbn; [by rewrite H|].
  rewrite elem_of_cons. intros [?|?]; [congruence|done].
Qed.

Lemma safe_find_lock paddr r l : safe (fun _ => True) (find_lock paddr r l).
Proof.
  induction l as [|i l IH]; cbn [find_lock]; [done|]. case_if; [|done].
  eapply safe_bind; [apply safe_matches|]. intros [] _; done.
Qed.

(** Only the reservations and the wake-ups differ. *)
Definition same_array (m m' : AbstractMemory) : Prop :=
  mem_typed m' /\ range m' = range m /\ pmemAddr m' = pmemAddr m.

Lemma same_array_locks m m' : mem_typed m -> range m' = range m -> pmemAddr m' = pmemAddr m ->
  locks_wf (lockedAddrList m') -> same_array m m'.
Proof.
  intros [H1 H2 _] Hr Hq Hl. split; [|done]. split; [|by rewrite Hq|done].
  unfold mem_wf. by rewrite Hr, Hq.
Qed.

Lemma safe_trackLoadLocked p m : mem_typed m -> safe (same_array m) (trackLoadLocked p m).
Proof.
  intros Hm. unfold trackLoadLocked. eapply safe_bind; [apply safe_getPaddr|]. intros a _.
  eapply safe_bind; [apply safe_update_lock|]. pose proof (mt_locks _ Hm) as Hl.
  unfold locks_wf in *. intros [l|] H; cbn [safe].
  - apply same_array_locks; try done. unfold locks_wf. cbn. by rewrite H.
  - unfold LockedAddr_new. eapply (safe_bind (fun n => la_contextId n = _contextId (req p))).
    { eapply safe_bind; [apply safe_getPaddr|]. intros a' _.
      eapply safe_bind; [apply safe_contextId|]. by intros c ->. }
    intros n Hn. apply same_array_locks; try done. unfold locks_wf. cbn. rewrite Hn.
    by apply NoDup_cons.
Qed.

Lemma locks_filter f l : locks_wf l -> locks_wf (List.filter f l).
Proof.
  unfold locks_wf. induction l as [|i l IH]; cbn; [done|]. intros [Hi Hl]%NoDup_cons.
  destruct (f i); [|auto]. cbn. apply NoDup_cons. split; [|auto].
  intros Hin. apply Hi. apply list_elem_of_fmap in Hin as (j & -> & Hj).
  apply list_elem_of_fmap. exists j. split; [done|]. apply list_elem_of_In.
  apply list_elem_of_In in Hj. by apply List.filter_In in Hj as [? _].
Qed.

Definition same_command (p p' : Packet) : Prop :=
  same_shape p p' /\ ATOMIC_HMC_COMMAND p' = ATOMIC_HMC_COMMAND p.

Lemma safe_checkLocked p m : mem_typed m -> pkt_typed p ->
  safe (fun r => same_array m r.1.1 /\ same_command p r.1.2) (checkLockedAddrList p m).
Proof.
  intros Hm Hp. unfold checkLockedAddrList. eapply safe_bind; [apply safe_getPaddr|]. intros a _.
  eapply (safe_bind (fun r => same_command p r.1)).
  { case_if; [|by split; [apply same_shape_refl|]].
    eapply safe_bind; [apply safe_find_lock|]. intros b _.
    by split; [apply same_shape_req|]. }
  intros [p' []] Hp'; cbn in *; (split; [|done]); apply same_array_locks; try done.
  - cbn. apply locks_filter, Hm.
  - apply Hm.
Qed.

Lemma safe_writeOK p m : mem_typed m -> pkt_typed p ->
  safe (fun r => same_array m r.1.1 /\ same_command p r.1.2) (writeOK p m).
Proof.
  intros Hm Hp. unfold writeOK. destruct (lockedAddrList m); [|by apply safe_checkLocked].
  cbn [safe fst snd]. split; [by apply same_array_locks; try done; apply Hm|].
  destruct (isLLSC p); (split; [|done]); [by apply same_shape_req|by apply same_shape_refl].
Qed.

(** *** The branches of an access *)
Lemma typed_same m m' : mem_typed m -> range m' = range m -> pmemAddr m' = pmemAddr m ->
  lockedAddrList m' = lockedAddrList m -> mem_typed m'.
Proof. intros Hm Hr Hq Hl. apply (same_array_locks m m'); try done. rewrite Hl. apply Hm. Qed.

(** The float an addition goes to lies in the packet; the assertion on its size is
    commented out in the code. *)
Definition hmc_fits (p : Packet) : Prop :=
  ATOMIC_HMC_COMMAND p = HMC_CMD_FADD -> 4 <= psize p.

Section branches.
Context (m : AbstractMemory) (p : Packet) (a : Z).
Hypothesis Hm : mem_typed m.
Hypothesis Hp : pkt_typed p.
Hypothesis Hplace : placed m a (psize p).

Lemma safe_hmc mem : hmc_fits p -> pmemAddr m = Some mem ->
  safe (fun m' => mem_typed m' /\ range m' = range m)
    (hmc_command p (psize p) (host_off m a) mem m).
Proof.
  intros Hfit E. unfold hmc_command.
  assert (forall n (k : list Z -> list Z) m1, Z.of_nat n <= psize p ->
    range m1 = range m -> lockedAddrList m1 = lockedAddrList m ->
    (forall bs, Forall byte_ok (k bs) /\ length (k bs) = n) ->
    safe (fun m' => mem_typed m' /\ range m' = range m)
      (bs ← arr_read mem (host_off m a) (Z.of_nat n);
       mem' ← arr_write mem (host_off m a) (k bs);
       Ok (m1 <| pmemAddr := Some mem' |>))) as Hrmw.
  { intros n k m1 Hn Hr Hl Hk.
    eapply safe_bind; [apply (safe_mem_read m p a Hm Hplace); [done|lia]|]. intros bs _.
    destruct (Hk bs) as [Hk1 Hk2].
    eapply safe_bind; [apply (safe_mem_write m p a Hm Hplace mem (k bs) m1); try done|].
    - lia.
    - rewrite Hl. apply Hm.
    - cbn. auto. }
  assert (forall n v, Forall byte_ok (le_bytes n v) /\ length (le_bytes n v) = n) as Hle.
  { intros n v. split; [apply le_bytes_ok|apply length_le_bytes]. }
  case_if; [case_if; [|case_if]|case_if; [|case_if; [case_if|]]]; bool_prop; try done.
  - apply (Hrmw 4%nat (fun bs => le_bytes 4 (u32 (le_val bs + 1)))); done || lia.
  - apply (Hrmw 8%nat (fun bs => le_bytes 8 (u64 (le_val bs + 1)))); done || lia.
  - specialize (Hfit ltac:(done)).
    apply (Hrmw 4%nat (fun bs => le_bytes 4 (f32_to_bits (f32_add (f32_of_bits (le_val bs)) _))));
      done || lia.
  - eapply safe_bind; [apply (safe_mem_read m p a Hm Hplace); [done|lia]|]. intros bs _. cbv zeta.
    case_if; [|cbn; split; [by eapply typed_same|done]].
    eapply safe_bind; [apply (safe_mem_write m p a Hm Hplace mem _ m); try done|].
    + apply le_bytes_ok.
    + rewrite length_le_bytes. lia.
    + apply Hm.
    + intros mem' Hm'. cbn. split; [by eapply (typed_same _ _ Hm')|done].
Qed.

Lemma safe_access_read :
  safe (typed_result m p) (access_read p (psize p) (host_off m a) m).
Proof.
  unfold access_read. apply safe_guard. intros _.
  eapply (safe_bind (same_array m)).
  { case_if; [by apply safe_trackLoadLocked|]. apply same_array_locks; try done. apply Hm. }
  intros m1 (Hm1 & Hr1 & Hq1). eapply (safe_bind (same_shape p)).
  { rewrite Hq1. destruct (pmemAddr m) as [mem|] eqn:E; [|by apply same_shape_refl].
    eapply safe_bind; [apply (safe_mem_read m p a Hm Hplace); [done|destruct Hplace; lia]|].
    intros bs [Hb Hl]. by apply safe_put. }
  intros p' Hp'. cbn. unfold typed_result. cbn.
  destruct (isInstFetch (req p')); (split; [by eapply typed_same|]); done.
Qed.

Lemma safe_access_swap :
  safe (typed_result m p) (access_swap p (psize p) (host_off m a) m).
Proof.
  unfold access_swap. destruct (pmemAddr m) as [mem|] eqn:E; [|done].
  eapply safe_bind; [by apply safe_getPtr|]. intros d (Hd & Hdb & Hdl).
  eapply safe_bind; [apply (safe_read d 0 (psize p) Hdb); lia|]. intros ov [Hob Hol].
  eapply safe_bind; [apply (safe_mem_read m p a Hm Hplace); [done|destruct Hplace; lia]|].
  intros cur [Hcb Hcl]. eapply safe_bind; [by apply safe_put|]. intros p' Hp'.
  eapply (safe_bind (fun _ => True)).
  { case_if; [|done]. assert (safe (fun _ => True) (getExtraData (req p'))) as He.
    { unfold getExtraData. by apply safe_guard. }
    repeat case_if; try done; (eapply safe_bind; [exact He|]; done). }
  intros ow _. eapply (safe_bind (fun mem' => mem_typed (m <| pmemAddr := Some mem' |>))).
  { case_if; [apply (safe_mem_write m p a Hm Hplace); try done; [lia|apply Hm]|].
    cbn. by eapply typed_same. }
  intros mem' Hm'. apply safe_guard. intros _. cbn. unfold typed_result. cbn.
  split; [by eapply typed_same|]. done.
Qed.

(** The write of the packet's bytes. *)
Lemma safe_store mem m1 : pmemAddr m = Some mem -> range m1 = range m ->
  lockedAddrList m1 = lockedAddrList m ->
  safe (fun m' => mem_typed m' /\ range m' = range m)
    (d ← getPtr p; bs ← arr_read d 0 (psize p);
     mem' ← arr_write mem (host_off m a) bs; Ok (m1 <| pmemAddr := Some mem' |>)).
Proof.
  intros E Hr Hl. eapply safe_bind; [by apply safe_getPtr|]. intros d (Hd & Hdb & Hdl).
  eapply safe_bind; [apply (safe_read d 0 (psize p) Hdb); lia|]. intros bs [Hb Hbl].
  eapply safe_bind; [apply (safe_mem_write m p a Hm Hplace mem bs m1); try done|].
  - lia.
  - rewrite Hl. apply Hm.
  - cbn. auto.
Qed.

End branches.

Lemma safe_access_write m p a : mem_typed m -> pkt_typed p -> placed m a (psize p) ->
  hmc_fits p -> safe (typed_result m p) (access_write p (psize p) (host_off m a) m).
Proof.
  intros Hm Hp Hplace Hfit. unfold access_write.
  eapply safe_bind; [by apply safe_writeOK|].
  intros [[m1 p1] ok] [(Hm1 & Hr1 & Hq1) [Hp1 Hc1]]. cbn in Hm1, Hr1, Hq1, Hp1, Hc1.
  destruct ok; [|by split]. pose proof Hp1 as (Ht1 & _ & Es).
  assert (host_off m a = host_off m1 a) as Eo by (unfold host_off; by rewrite Hr1).
  assert (placed m1 a (psize p1)) as Hplace1 by (unfold placed, host_off in *; by rewrite Hr1, Es).
  rewrite Eo, <- Es. eapply (safe_bind (typed_result m p)).
  { destruct (pmemAddr m1) as [mem|] eqn:E; [|by split].
    case_if.
    - eapply safe_bind; [by apply safe_hmc; try done; unfold hmc_fits; rewrite Hc1, Es|].
      intros m2 [Hm2 Hr2]. cbn. split; [done|]. split; [cbn; congruence|].
      eapply same_shape_trans; [exact Hp1|by apply same_shape_hmc].
    - pose proof (safe_store m1 p1 a Hm1 Ht1 Hplace1 mem m1 E eq_refl eq_refl) as Hs.
      revert Hs. destruct (getPtr p1) as [d|[]]; cbn [mbind res_bind]; try done.
      destruct (arr_read d 0 (psize p1)) as [bs|[]]; cbn [mbind res_bind]; try done.
      destruct (arr_write mem _ bs) as [mem'|[]]; cbn [mbind res_bind]; try done.
      intros [Hm2 Hr2]. cbn. split; [done|]. split; [cbn in *; congruence|done]. }
  intros [m2 p2] (Hm2 & Hr2 & Hp2). apply safe_guard. intros _. cbn.
  split; [by eapply (typed_same _ _ Hm2)|done].
Qed.

(** An answer, when the command needs one. *)
Lemma safe_answer m p r :
  typed_result m p r ->
  safe (typed_result m p) (if needsResponse r.2 then p' ← makeResponse r.2; Ok (r.1, p') else Ok r).
Proof.
  intros (Hm & Hr & Hp). case_if; [|done].
  eapply safe_bind; [by apply safe_makeResponse|]. intros p' Hp'. done.
Qed.

Lemma access_sound m p : mem_typed m -> pkt_typed p -> addr p + psize p <= 2 ^ 64 -> hmc_fits p ->
  safe (typed_result m p) (access p m).
Proof.
  intros Hm Hp He Hfit. pose proof (pt_wf _ Hp) as Hwf. unfold access.
  rewrite getAddr_ok, getSize_ok by done. cbn [mbind res_bind].
  destruct Hwf as (_ & _ & Ha & Hs & _). unfold inw in Ha.
  eapply safe_bind; [apply safe_in_memory; [apply Hm|lia..]|]. intros [] Hplace.
  case_if; [by split; [|split; [|apply same_shape_refl]]|].
  eapply (safe_bind (typed_result m p)); [|intros [m1 p1]; apply safe_answer].
  repeat case_if; [by apply safe_access_swap|by apply safe_access_read
    |by apply safe_access_write|by split; [|split; [|apply same_shape_refl]]|done].
Qed.

Lemma functionalAccess_sound m p : mem_typed m -> pkt_typed p -> addr p + psize p <= 2 ^ 64 ->
  safe (typed_result m p) (functionalAccess p m).
Proof.
  intros Hm Hp He. pose proof (pt_wf _ Hp) as Hwf. unfold functionalAccess.
  rewrite getAddr_ok, getSize_ok by done. cbn [mbind res_bind].
  destruct Hwf as (_ & _ & Ha & Hs & _). unfold inw in Ha.
  eapply safe_bind; [apply safe_in_memory; [apply Hm|lia..]|]. intros [] Hplace.
  case_if; [|case_if; [|case_if; [|done]]].
  - eapply (safe_bind (same_shape p)).
    { destruct (pmemAddr m) as [mem|] eqn:E; [|by apply same_shape_refl].
      eapply safe_bind; [by apply (safe_mem_read m p (addr p) Hm Hplace); [|lia]|].
      intros bs [Hb Hl]. by apply safe_put. }
    intros p1 Hp1. eapply safe_bind; [by apply safe_makeResponse|]. by intros p2 Hp2.
  - eapply (safe_bind (fun m' => mem_typed m' /\ range m' = range m)).
    { destruct (pmemAddr m) as [mem|] eqn:E; [|done]. by apply safe_store. }
    intros m1 [Hm1 Hr1].
    eapply safe_bind; [by apply (safe_makeResponse p), same_shape_refl|]. by intros p2 Hp2.
  - split; [done|]. split; [done|]. by apply same_shape_refl.
Qed.

(** *** Progress *)
Lemma put_ok p d bs : has_bytes p d -> length bs = length d ->
  put_data 0 bs p = Ok (p <| data := Some bs |>).
Proof. intros Hb Hl. by destruct (put_all p d bs Hb Hl). Qed.

Lemma read_for p d m mem : mem_wf m -> has_bytes p d -> pmemAddr m = Some mem ->
  covers m (addr p) (psize p) ->
  exists bs, arr_read mem (host_off m (addr p)) (psize p) = Ok bs /\ length bs = length d.
Proof.
  intros Hm Hb E Hc. destruct (mem_bytes_covers m mem (addr p) (psize p) Hm E Hc) as (bs & Hr & Hl).
  unfold mem_bytes in Hr. rewrite E in Hr. exists bs. split; [done|].
  pose proof (has_bytes_length _ _ Hb). lia.
Qed.

Lemma response_exists p : cmd p = ReadReq \/ cmd p = WriteReq -> exists p', makeResponse p = Ok p'.
Proof.
  intros [E|E]; unfold makeResponse, needsResponse, isRequest; rewrite E; eexists; reflexivity.
Qed.

Lemma access_read_progress m p d : mem_wf m -> has_bytes p d -> covers m (addr p) (psize p) ->
  cmd p = ReadReq -> memInhibitAsserted p = false -> exists r, access p m = Ok r.
Proof.
  intros Hm Hb Hc E Hi. pose proof Hb as [Hwf Hd]. unfold access.
  rewrite getAddr_ok, getSize_ok by done. cbn [mbind res_bind]. rewrite in_memory_ok by done.
  cbn [mbind res_bind]. rewrite Hi, E. cbn [decide].
  destruct (decide (ReadReq = SwapReq)); [done|].
  assert (isRead p = true /\ isWrite p = false /\ isLLSC p = false) as (-> & Hw & Hl).
  { unfold isRead, isWrite, isLLSC. by rewrite E. }
  unfold access_read. rewrite Hw, Hl. cbn [negb assert_ mbind res_bind].
  destruct (pmemAddr m) as [mem|] eqn:Em; cbn [mbind res_bind].
  - destruct (read_for p d m mem Hm Hb Em Hc) as (bs & -> & Hbl). cbn [mbind res_bind].
    rewrite (put_ok p d bs Hb Hbl). cbn [mbind res_bind].
    destruct (response_exists (p <| data := Some bs |>)) as [p' ->]; [by left|].
    case_if; eexists; reflexivity.
  - destruct (response_exists p) as [p' ->]; [by left|]. case_if; eexists; reflexivity.
Qed.

Lemma functional_progress m p d : mem_wf m -> has_bytes p d -> covers m (addr p) (psize p) ->
  cmd p = ReadReq \/ cmd p = WriteReq -> exists r, functionalAccess p m = Ok r.
Proof.
  intros Hm Hb Hc E. pose proof Hb as [Hwf Hd]. unfold functionalAccess.
  rewrite getAddr_ok, getSize_ok by done. cbn [mbind res_bind]. rewrite in_memory_ok by done.
  cbn [mbind res_bind]. destruct E as [E|E].
  - assert (isRead p = true) as -> by (unfold isRead; by rewrite E).
    destruct (pmemAddr m) as [mem|] eqn:Em; cbn [mbind res_bind].
    + destruct (read_for p d m mem Hm Hb Em Hc) as (bs & -> & Hbl). cbn [mbind res_bind].
      rewrite (put_ok p d bs Hb Hbl). cbn [mbind res_bind].
      destruct (response_exists (p <| data := Some bs |>)) as [p' ->]; [by left|].
      eexists. reflexivity.
    + destruct (response_exists p) as [p' ->]; [by left|]. eexists. reflexivity.
  - assert (isRead p = false /\ isWrite p = true) as (-> & ->)
      by (unfold isRead, isWrite; by rewrite E).
    destruct (response_exists p) as [p' Hp']; [by right|].
    destruct (pmemAddr m) as [mem|] eqn:Em; cbn [mbind res_bind]; rewrite ?Hp';
      [|eexists; reflexivity].
    rewrite (getPtr_ok p d Hwf Hd). cbn [mbind res_bind]. rewrite (read_all p d Hb).
    cbn [mbind res_bind]. rewrite <- (has_bytes_length p d Hb) in Hc.
    destruct (mem_store m mem (addr p) d Hm Em Hc) as (mem' & -> & _).
    cbn [mbind res_bind]. eexists. reflexivity.
Qed.


Lemma ex_mem_typed : mem_typed (ex_mem [mkLocked 64 3]).
Proof.
  split; [exact (sr_wf _ _ _ _ (ex_store_request WriteReq [mkLocked 64 3] (or_introl eq_refl)))| |].
  - intros mem [= <-]. repeat constructor; unfold byte_ok; lia.
  - unfold locks_wf. cbn. repeat constructor. apply not_elem_of_nil.
Qed.


(** The bound on the end of the packet is needed: the range test of an access
    is on the wrapped end, so a packet that wraps around passes it. *)
Example access_wraps_around :
  access ((ex_pkt ReadReq) <| addr := 2 ^ 64 - 2 |>)
    ((ex_mem []) <| range := AR.AddrRange2 0 31 |>) = Err Undefined.
Proof. vm_compute. reflexivity. Qed.

(** So is that on the size of a float addition: in the last two bytes of the memory
    it writes behind the array. *)
Example fadd_behind_array :
  access ((ex_packet WriteReq 94 [1; 2]) <| ATOMIC_HMC_COMMAND := HMC_CMD_FADD |>) (ex_mem []) = Err Undefined.
Proof. vm_compute. reflexivity. Qed.
