(* ===== verification/Port.v ===== *)
(** * What a component may ask of the memory system below it

    A master port ([mem/port.hh]) forwards a packet to the slave port it is
    bound to, in one of three protocols.  [MemDevice] is that interface: the
    state of everything below the port, and the three calls.  A packet is
    passed by pointer, so each call returns the packet as the callee leaves
    it; the timing call also returns whether the packet was accepted.

    [MemDeviceLaws] is what a component that looks something up in memory
    relies on: a well-formed read request inside the device's contents comes
    back with those bytes, and leaves the contents alone.  The memory
    discharges it ([SimpleMem]); the clients ([Tlb]) are proved against it. *)

From S2P Require Import Prelude.
From S2P Require Import Flags.
From S2P Require Import Packet.
From S2P Require Import AbstractMem.

Class MemDevice (S : Type) := {
  sendFunctional : Packet -> S -> res (S * Packet);
  sendAtomic : Z -> Packet -> S -> res (S * Packet * Z);
  sendTimingReq : Z -> Packet -> S -> res (S * Packet * bool)
}.

Arguments sendFunctional {S _} pkt s.
Arguments sendAtomic {S _} now pkt s.
Arguments sendTimingReq {S _} now pkt s.

(** A read request for [n] bytes at [a] that carries a buffer of its size. *)
Record read_request (p : Packet) (d : list Z) : Prop := {
  rr_bytes : has_bytes p d;
  rr_cmd : cmd p = ReadReq;
  rr_inhibit : memInhibitAsserted p = false
}.

(** The packet came back with the bytes [bs] in its buffer. *)
Record read_reply (p p' : Packet) (bs : list Z) : Prop := {
  rp_ptr : getPtr p' = Ok bs;
  rp_size : getSize p' = Ok (psize p);
  rp_valid : fl_isSet (flags p') VALID_ADDR = true
}.

Class MemDeviceLaws (S : Type) `{MemDevice S} := {
  dev_ok : S -> Prop;
  contents : S -> Z -> Z -> res (list Z);
  contents_length s a n bs : contents s a n = Ok bs -> Z.of_nat (length bs) = n;
  functional_read s p d bs :
    dev_ok s -> read_request p d -> contents s (addr p) (psize p) = Ok bs ->
    exists s' p', sendFunctional p s = Ok (s', p') /\ read_reply p p' bs /\ dev_ok s' /\
      forall a n, contents s' a n = contents s a n;
  atomic_read now s p d bs :
    dev_ok s -> read_request p d -> contents s (addr p) (psize p) = Ok bs ->
    exists s' p' t, sendAtomic now p s = Ok (s', p', t) /\ read_reply p p' bs /\ dev_ok s' /\
      forall a n, contents s' a n = contents s a n
}.

(** The other side of a slave port: the requester above, reached with
    responses, retries and snoops. *)
Class MasterSide (U : Type) := {
  sendTimingResp : Packet -> U -> res (U * Packet * bool);
  sendRetry : U -> res U;
  sendFunctionalSnoop : Packet -> U -> res (U * Packet);
  sendAtomicSnoop : Packet -> U -> res (U * Packet * Z);
  sendTimingSnoopReq : Packet -> U -> res U
}.

(** ** Scripted peers, for examples

    A device that accepts or refuses timing requests as a script says and
    records what it accepted, and a requester that does the same with
    responses. *)
Record Script := mkScript { script : list bool; taken : list Packet }.

Definition script_take (p : Packet) (s : Script) : res (Script * Packet * bool) :=
  match script s with
  | [] => Err Undefined
  | true :: bs => Ok (mkScript bs (taken s ++ [p]), p, true)
  | false :: bs => Ok (mkScript bs (taken s), p, false)
  end.

Definition Script_device : MemDevice Script := {|
  sendFunctional p s := Ok (s, p);
  sendAtomic _ p s := Ok (s, p, 0);
  sendTimingReq _ p s := script_take p s
|}.

Definition Script_master : MasterSide Script := {|
  sendTimingResp p s := script_take p s;
  sendRetry s := Ok s;
  sendFunctionalSnoop p s := Ok (s, p);
  sendAtomicSnoop p s := Ok (s, p, 0);
  sendTimingSnoopReq _ s := Ok s
|}.
