(* ===== verification/SimpleMem.v ===== *)
(** * The single-port memory with latency and bandwidth

    Models [mem/simple_mem.cc] and [mem/simple_mem.hh]: the atomic and
    functional accesses, the timing requests regulated by the bandwidth, the
    queue of deferred responses, the release and dequeue events, retries and
    draining.  [pendingDelete], which only defers freeing, is left out.

    A call up through the port runs the peer's code, which may call back into
    the memory before it returns.  So [dequeue] and [release] take the call as
    a function on the memory's state. *)

From S2P Require Import Prelude.
From S2P Require Import AddrRange.
From S2P Require Import Packet.
From S2P Require Import Float32.
From S2P Require Import AbstractMem.
From S2P Require Import Port.
From Stdlib Require Import SpecFloat.

Record DeferredPacket := mkDeferred { dp_tick : Z; dp_pkt : Packet }.

Record SimpleMemory := mkSimple {
  sm_mem : AbstractMemory;
  latency : Z;
  latency_var : Z;
  bandwidth : spec_float;
  packetQueue : list DeferredPacket;
  isBusy : bool;
  retryReq : bool;
  retryResp : bool;
  releaseEvent : option Z;
  dequeueEvent : option Z;
  drainManager : bool;
  drainSignals : Z;
  draws : Z
}.

Section Memory.

(** [random_mt.random(min, max)]: the [n]-th draw of the generator. *)
Context (random_mt : Z -> Z -> Z -> Z).

Definition getLatency (m : SimpleMemory) : SimpleMemory * Z :=
  if latency_var m =? 0 then (m, latency m)
  else (m <| draws := draws m + 1 |>,
        u64 (latency m + random_mt (draws m) 0 (latency_var m))).

Definition recvAtomic (pkt : Packet) (m : SimpleMemory) : res (SimpleMemory * Packet * Z) :=
  '(am, pkt) ← access pkt (sm_mem m);
  let m := m <| sm_mem := am |> in
  if memInhibitAsserted pkt then Ok (m, pkt, 0)
  else let '(m, l) := getLatency m in Ok (m, pkt, l).

(** The functional request against the queued packets, until it is satisfied. *)
Fixpoint check_queue (pkt : Packet) (q : list DeferredPacket)
  : res (Packet * list DeferredPacket) :=
  match q with
  | [] => Ok (pkt, [])
  | d :: q' =>
      '(pkt, other, done) ← checkFunctional pkt (dp_pkt d);
      let d := mkDeferred (dp_tick d) other in
      if done : bool then Ok (pkt, d :: q')
      else '(pkt, q') ← check_queue pkt q'; Ok (pkt, d :: q')
  end.

Definition recvFunctional (pkt : Packet) (m : SimpleMemory) : res (SimpleMemory * Packet) :=
  '(am, pkt) ← functionalAccess pkt (sm_mem m);
  '(pkt, q) ← check_queue pkt (packetQueue m);
  Ok (m <| sm_mem := am |> <| packetQueue := q |>, pkt).

(** Occupy the memory for as long as the bandwidth asks. *)
Definition regulate (now : Z) (pkt : Packet) (m : SimpleMemory) : res SimpleMemory :=
  if isRead pkt || isWrite pkt then
    sz ← getSize pkt;
    duration ← f64_to_u64 (f64_mul (f64_of_int sz) (bandwidth m));
    if negb (duration =? 0) then
      ev ← schedule (releaseEvent m) now (u64 (now + duration));
      Ok (m <| releaseEvent := ev |> <| isBusy := true |>)
    else Ok m
  else Ok m.

Definition recvTimingReq (now : Z) (pkt : Packet) (m : SimpleMemory)
  : res (SimpleMemory * Packet * bool) :=
  if memInhibitAsserted pkt then Ok (m, pkt, true)
  else if retryReq m then Ok (m, pkt, false)
  else if isBusy m then Ok (m <| retryReq := true |>, pkt, false)
  else
    let pkt := pkt <| firstWordDelay := 0 |> <| lastWordDelay := 0 |> in
    m ← regulate now pkt m;
    let needs := needsResponse pkt in
    '(m, pkt, _) ← recvAtomic pkt m;
    if needs then
      _ ← assert_ (isResponse pkt);
      let '(m, l) := getLatency m in
      let t := u64 (now + l) in
      let m := m <| packetQueue := packetQueue m ++ [mkDeferred t pkt] |> in
      if negb (retryResp m) && bool_decide (dequeueEvent m = None) then
        ev ← schedule (dequeueEvent m) now t;
        Ok (m <| dequeueEvent := ev |>, pkt, true)
      else Ok (m, pkt, true)
    else Ok (m, pkt, true).

(** The release event. *)
Definition release (sendRetry : SimpleMemory -> res SimpleMemory) (m : SimpleMemory)
  : res SimpleMemory :=
  _ ← assert_ (isBusy m);
  let m := m <| isBusy := false |> in
  if retryReq m then sendRetry (m <| retryReq := false |>) else Ok m.

(** The dequeue event. *)
Definition dequeue (now : Z) (sendTimingResp : Packet -> SimpleMemory -> res (SimpleMemory * bool))
    (m : SimpleMemory) : res SimpleMemory :=
  match packetQueue m with
  | [] => Err AssertFailed
  | d :: _ =>
      '(m, accepted) ← sendTimingResp (dp_pkt d) m;
      let m := m <| retryResp := negb accepted |> in
      if negb (retryResp m) then
        let q := tail (packetQueue m) in
        let m := m <| packetQueue := q |> in
        match q with
        | d' :: _ =>
            ev ← reschedule (dequeueEvent m) now (Z.max (dp_tick d') now);
            Ok (m <| dequeueEvent := ev |>)
        | [] =>
            if drainManager m
            then Ok (m <| drainSignals := drainSignals m + 1 |> <| drainManager := false |>)
            else Ok m
        end
      else Ok m
  end.

Definition recvRetry (now : Z) (sendTimingResp : Packet -> SimpleMemory -> res (SimpleMemory * bool))
    (m : SimpleMemory) : res SimpleMemory :=
  _ ← assert_ (retryResp m);
  dequeue now sendTimingResp m.

(** [drain]: the number of objects that will signal later. *)
Definition drain (m : SimpleMemory) : SimpleMemory * Z :=
  match packetQueue m with
  | [] => (m, 0)
  | _ => (m <| drainManager := true |>, 1)
  end.

(** ** The port protocol as a step relation *)

(** Nothing but timing requests reaches the memory while a peer runs. *)
Inductive reenters (now : Z) : SimpleMemory -> SimpleMemory -> Prop :=
| reenters_refl m : reenters now m m
| reenters_req m p p' b m1 m2 :
    recvTimingReq now p m = Ok (m1, p', b) -> reenters now m1 m2 -> reenters now m m2.

Definition resp_peer (now : Z) (f : Packet -> SimpleMemory -> res (SimpleMemory * bool)) : Prop :=
  forall p m m' b, f p m = Ok (m', b) -> reenters now m m'.

Definition retry_peer (now : Z) (f : SimpleMemory -> res SimpleMemory) : Prop :=
  forall m m', f m = Ok m' -> reenters now m m'.

(** A due event is taken off the queue before its handler runs. *)
Inductive sm_step (now : Z) : SimpleMemory -> SimpleMemory -> Prop :=
| step_request p p' b m m' : recvTimingReq now p m = Ok (m', p', b) -> sm_step now m m'
| step_functional p p' m m' : recvFunctional p m = Ok (m', p') -> sm_step now m m'
| step_release f m m' : releaseEvent m = Some now -> retry_peer now f ->
    release f (m <| releaseEvent := None |>) = Ok m' -> sm_step now m m'
| step_dequeue f m m' : dequeueEvent m = Some now -> resp_peer now f ->
    dequeue now f (m <| dequeueEvent := None |>) = Ok m' -> sm_step now m m'
| step_retry f m m' : retryResp m = true -> resp_peer now f ->
    recvRetry now f m = Ok m' -> sm_step now m m'
| step_drain m : sm_step now m (fst (drain m)).

Inductive sm_reach : SimpleMemory -> SimpleMemory -> Prop :=
| sm_reach_refl m : sm_reach m m
| sm_reach_step now m1 m2 m3 : sm_reach m1 m2 -> sm_step now m2 m3 -> sm_reach m1 m3.

(** ** The invariant *)

(** Busy exactly while the release event is pending; a refused request is
    remembered only while busy; an event is pending for a non-empty queue
    unless the peer owes a retry, and never for an empty one. *)
Record sm_inv (m : SimpleMemory) : Prop := {
  inv_busy : isBusy m = true <-> releaseEvent m <> None;
  inv_retryReq : retryReq m = true -> isBusy m = true;
  inv_empty : packetQueue m = [] -> retryResp m = false /\ dequeueEvent m = None;
  inv_pending : packetQueue m <> [] -> retryResp m = true \/ dequeueEvent m <> None;
  inv_both : retryResp m = true -> dequeueEvent m <> None -> (2 <= length (packetQueue m))%nat
}.

(** The weaker invariant while a response is being sent: the head of the queue
    is on its way, so an event is pending only for a packet behind it. *)
Record sending_inv (m : SimpleMemory) : Prop := {
  snd_busy : isBusy m = true <-> releaseEvent m <> None;
  snd_retryReq : retryReq m = true -> isBusy m = true;
  snd_queue : packetQueue m <> [];
  snd_event : dequeueEvent m <> None -> (2 <= length (packetQueue m))%nat
}.

(** ** Lemmas *)

(** The part of the state the protocol is about. *)
Definition ctl (m : SimpleMemory) :=
  (packetQueue m, isBusy m, retryReq m, retryResp m, releaseEvent m, dequeueEvent m).

Lemma getLatency_ctl m : ctl (fst (getLatency m)) = ctl m /\ sm_mem (fst (getLatency m)) = sm_mem m.
Proof. unfold getLatency. by case_if. Qed.

Lemma recvAtomic_ctl p m m' p' t : recvAtomic p m = Ok (m', p', t) -> ctl m' = ctl m.
Proof.
  unfold recvAtomic. intros H. res_inv. case_if_in H; res_inv; [done|].
  match goal with E : getLatency ?x = _ |- _ => pose proof (getLatency_ctl x) as [G _];
    rewrite E in G; exact G end.
Qed.

Lemma regulate_ctl now p m m' : regulate now p m = Ok m' ->
  (m' = m \/ (releaseEvent m = None /\ exists t,
     m' = m <| releaseEvent := Some t |> <| isBusy := true |>)).
Proof.
  unfold regulate. intros H. case_if_in H; [|res_inv; by left]. res_inv.
  case_if_in H; [|res_inv; by left]. res_inv. unfold schedule in Hm1. res_inv. bool_prop.
  right. eauto.
Qed.

(** What an accepted or refused timing request does to the protocol state. *)
Inductive req_effect (m : SimpleMemory) : SimpleMemory -> bool -> Prop :=
| eff_inhibited : req_effect m m true
| eff_refused : retryReq m = true -> req_effect m m false
| eff_busy : isBusy m = true -> req_effect m (m <| retryReq := true |>) false
| eff_accepted m' q b rel ev :
    isBusy m = false -> retryReq m = false ->
    ctl m' = (packetQueue m ++ q, b, false, retryResp m, rel, ev) ->
    (b = false /\ rel = releaseEvent m \/ releaseEvent m = None /\ b = true /\ rel <> None) ->
    (q = [] /\ ev = dequeueEvent m \/
     (exists x, q = [x]) /\
     ev = dequeueEvent m /\ (retryResp m = true \/ dequeueEvent m <> None) \/
     (exists x, q = [x]) /\ retryResp m = false /\ dequeueEvent m = None /\ ev <> None) ->
    req_effect m m' true.

Lemma recvTimingReq_effect now p m m' p' b :
  recvTimingReq now p m = Ok (m', p', b) -> req_effect m m' b.
Proof.
  unfold recvTimingReq. intros H. case_if_in H; [res_inv; constructor|].
  case_if_in H; [res_inv; by constructor|]. case_if_in H; [res_inv; by constructor|].
  cbv zeta in H. res_inv. apply regulate_ctl in Hm.
  match goal with E : recvAtomic _ ?x = Ok _ |- _ => rename x into m0; apply recvAtomic_ctl in E end.
  assert (R : exists b1 rel, ctl m0 = (packetQueue m, b1, false, retryResp m, rel, dequeueEvent m) /\
    (b1 = false /\ rel = releaseEvent m \/ releaseEvent m = None /\ b1 = true /\ rel <> None)).
  { destruct Hm as [-> | (E & t & ->)]; do 2 eexists; (split; [unfold ctl; cbn; by rewrite ?Hif0, ?Hif1|]); auto. }
  destruct R as (b1 & rel & R1 & R2). rewrite R1 in Hm0.
  case_if_in H.
  - res_inv. match goal with GL : getLatency ?x = (?y, _) |- _ =>
      pose proof (getLatency_ctl x) as [G _]; rewrite GL in G; rename y into m2 end.
    cbn [fst] in G. rewrite Hm0 in G. unfold ctl in G.
    injection G as G1 G2 G3 G4 G5 G6.
    change (retryResp m2<|packetQueue := _|>) with (retryResp m2) in H.
    change (dequeueEvent m2<|packetQueue := _|>) with (dequeueEvent m2) in H.
    rewrite G4, G6 in H.
    case_if_in H; res_inv; bool_prop.
    + unfold schedule in *. res_inv.
      eapply (eff_accepted _ _ [_] _ _ (Some _)); eauto.
      * unfold ctl. cbn [packetQueue isBusy retryReq retryResp releaseEvent dequeueEvent field_upd].
        rewrite G1, G3, G4. reflexivity.
      * right; right. split; [eauto|]. done.
    + eapply (eff_accepted _ _ [_]); eauto.
      * unfold ctl. cbn [packetQueue isBusy retryReq retryResp releaseEvent dequeueEvent field_upd].
        rewrite G1, G3, G4, G6. reflexivity.
      * right; left. split; [eauto|]. split; [done|].
        destruct (retryResp m); [by left|right]. by destruct (dequeueEvent m).
  - res_inv. eapply (eff_accepted _ _ []); eauto. by rewrite app_nil_r.
Qed.

Ltac ctl_inv :=
  match goal with H : ctl _ = (_, _, _, _, _, _) |- _ =>
    unfold ctl in H;
    let H1 := fresh "Hq" in let H2 := fresh "Hb" in let H3 := fresh "Hrq" in
    let H4 := fresh "Hrr" in let H5 := fresh "Hrel" in let H6 := fresh "Hev" in
    injection H as H1 H2 H3 H4 H5 H6 end.

Lemma req_effect_inv m m' b : req_effect m m' b -> sm_inv m -> sm_inv m'.
Proof.
  intros E I. destruct E as [| |E|m' q b rel ev Hnb Hnr C Hr Hq]; [done..| |].
  - destruct I. split; try done.
  - ctl_inv. destruct I as [I1 I2 I3 I4 I5].
    assert (Hrel0 : releaseEvent m = None).
    { destruct (releaseEvent m); [|done]. assert (isBusy m = true) by (by apply I1). congruence. }
    split.
    + rewrite Hb, Hrel. destruct Hr as [[-> ->]|(_ & -> & ?)]; [by rewrite Hrel0|done].
    + by rewrite Hrq.
    + rewrite Hq0, Hrr, Hev. intros [Eq Eq']%app_eq_nil.
      destruct Hq as [[-> ->]|[((x & ->) & _)|((x & ->) & _)]]; [by apply I3|done..].
    + rewrite Hq0, Hrr, Hev. intros Hne.
      destruct Hq as [[-> ->]|[(_ & -> & ?)|(_ & _ & _ & ?)]]; [|done|by right].
      apply I4. by rewrite app_nil_r in Hne.
    + rewrite Hq0, Hrr, Hev. intros Hr1 Hev1. rewrite length_app.
      destruct Hq as [[-> ->]|[((x & ->) & -> & _)|((x & ->) & Hf & _)]];
        [specialize (I5 Hr1 Hev1); lia|specialize (I5 Hr1 Hev1); lia|congruence].
Qed.

Lemma req_effect_sending m m' b : req_effect m m' b -> sending_inv m -> sending_inv m'.
Proof.
  intros E I. destruct E as [| |E|m' q b rel ev Hnb Hnr C Hr Hq]; [done..| |].
  - destruct I. split; try done.
  - ctl_inv. destruct I as [I1 I2 I3 I4].
    assert (Hrel0 : releaseEvent m = None).
    { destruct (releaseEvent m); [|done]. assert (isBusy m = true) by (by apply I1). congruence. }
    split.
    + rewrite Hb, Hrel. destruct Hr as [[-> ->]|(_ & -> & ?)]; [by rewrite Hrel0|done].
    + by rewrite Hrq.
    + rewrite Hq0. by intros [? _]%app_eq_nil.
    + rewrite Hq0, Hev, length_app. intros Hev1.
      assert (1 <= length (packetQueue m))%nat by (destruct (packetQueue m); [done|cbn; lia]).
      destruct Hq as [[-> ->]|[((x & ->) & -> & _)|((x & ->) & Hf & _)]];
        [specialize (I4 Hev1); lia|cbn; lia|cbn; lia].
Qed.

Lemma req_effect_queue m m' b : req_effect m m' b -> exists q, packetQueue m' = packetQueue m ++ q.
Proof.
  intros [| | |m'' q]; [by exists []; rewrite app_nil_r..|]. ctl_inv. by exists q.
Qed.

Lemma reenters_inv now m m' : reenters now m m' -> sm_inv m -> sm_inv m'.
Proof.
  induction 1; [done|]. intros. apply IHreenters.
  eauto using req_effect_inv, recvTimingReq_effect.
Qed.

Lemma reenters_sending now m m' : reenters now m m' -> sending_inv m ->
  sending_inv m' /\ exists q, packetQueue m' = packetQueue m ++ q.
Proof.
  induction 1 as [|m p p' b m1 m2 H _ IH]; [intros; split; [done|by exists []; rewrite app_nil_r]|].
  intros I. apply recvTimingReq_effect in H. destruct IH as [I2 [q Q]];
    [by eapply req_effect_sending|]. split; [done|].
  destruct (req_effect_queue _ _ _ H) as [q' Q']. exists (q' ++ q).
  by rewrite Q, Q', app_assoc.
Qed.

Lemma dequeue_inv now f m m' : resp_peer now f -> sending_inv m ->
  dequeue now f m = Ok m' -> sm_inv m'.
Proof.
  intros Hf I. unfold dequeue. destruct (packetQueue m) as [|d q] eqn:Q; [done|].
  destruct (f (dp_pkt d) m) as [[m1 acc]|] eqn:F; cbn [mbind res_bind]; [|done].
  destruct (reenters_sending now m m1) as [[I1 I2 I3 I4] [q' Q']]; [eauto|done|].
  rewrite Q in Q'. cbn [app] in Q'. cbn [retryResp packetQueue dequeueEvent drainManager field_upd].
  rewrite Q'. cbn [tail]. rewrite Q' in I4. destruct acc; cbn [negb].
  - destruct (q ++ q') as [|d' q2] eqn:Eq.
    + assert (dequeueEvent m1 = None).
      { destruct (dequeueEvent m1); [|done]. cbn in I4. specialize (I4 ltac:(done)). lia. }
      destruct (drainManager m1); intros [= <-]; split; try done.
    + unfold reschedule. destruct (assert_ _); cbn [mbind res_bind]; [|done].
      intros [= <-]. split; try done. right. done.
  - intros [= <-]. split; cbn; rewrite ?Q'; try done. by left.
Qed.

Lemma check_queue_length p q p' q' : check_queue p q = Ok (p', q') -> length q' = length q.
Proof.
  revert p p' q'. induction q as [|d q IH]; intros p p' q'; cbn [check_queue];
    [by intros [= <- <-]|].
  intros H. res_inv. case_if_in H; res_inv; [done|]. cbn. f_equal. eauto.
Qed.

Lemma sm_inv_same m m' : isBusy m' = isBusy m -> releaseEvent m' = releaseEvent m ->
  retryReq m' = retryReq m -> retryResp m' = retryResp m -> dequeueEvent m' = dequeueEvent m ->
  length (packetQueue m') = length (packetQueue m) -> sm_inv m -> sm_inv m'.
Proof.
  intros E1 E2 E3 E4 E5 E6 [I1 I2 I3 I4 I5].
  split; rewrite ?E1, ?E2, ?E3, ?E4, ?E5, ?E6; try done.
  - intros Q. apply I3. rewrite Q in E6. by destruct (packetQueue m).
  - intros Q. apply I4. intros Q'. rewrite Q' in E6. by destruct (packetQueue m').
Qed.

Lemma sm_inv_sending m : sm_inv m -> packetQueue m <> [] ->
  sending_inv (m <| dequeueEvent := None |>) /\ (retryResp m = true -> sending_inv m).
Proof. intros [I1 I2 I3 I4 I5] Q. split; [|intros R]; split; try done. auto. Qed.

Lemma sm_step_inv now m m' : sm_step now m m' -> sm_inv m -> sm_inv m'.
Proof.
  intros H I. destruct H as [p p' b m m' H|p p' m m' H|f m m' Hev Hf H|f m m' Hev Hf H|f m m' Hev Hf H|m].
  - eauto using req_effect_inv, recvTimingReq_effect.
  - unfold recvFunctional in H. res_inv. eapply sm_inv_same, I; try done.
    by eapply check_queue_length.
  - unfold release in H. res_inv. cbn [retryReq field_upd] in H. destruct I as [I1 I2 I3 I4 I5].
    case_if_in H; res_inv.
    + eapply reenters_inv; [eauto|]. split; try done.
    + split; cbn; done.
  - eapply dequeue_inv; eauto. refine (proj1 (sm_inv_sending m I _)).
    intros Q. destruct (inv_empty m I Q). congruence.
  - unfold recvRetry in H. res_inv. eapply dequeue_inv; eauto.
    refine (proj2 (sm_inv_sending m I _) Ha).
    intros Q. destruct (inv_empty m I Q). congruence.
  - unfold drain. destruct (packetQueue m) eqn:Q; [done|]. eapply sm_inv_same, I; done.
Qed.

(** ** Theorems *)

(** C19. From a memory at rest, whatever requests, retries, events and re-entrant
    calls come: the memory is busy exactly while its release event is
    pending, remembers a refused request only while busy, and as long as a
    response is queued either a dequeue event is pending or the peer owes a
    retry, so no response is ever left behind. *)
Theorem sm_reach_inv (m0 m : SimpleMemory) : sm_inv m0 -> sm_reach m0 m -> sm_inv m.
Proof. intros I. induction 1; eauto using sm_step_inv. Qed.

(** The dequeue event and the retry never fail by themselves: when the peer
    takes the call, exactly the oldest queued response was offered, it leaves
    the queue if and only if it was accepted, and the responses behind it keep
    their order. *)
Theorem dequeue_spec (now : Z) f (m m1 : SimpleMemory) (d : DeferredPacket) q (acc : bool) :
  sending_inv m -> resp_peer now f -> packetQueue m = d :: q ->
  f (dp_pkt d) m = Ok (m1, acc) ->
  exists m' q', dequeue now f m = Ok m' /\ sm_mem m' = sm_mem m1 /\
    packetQueue m1 = d :: q ++ q' /\
    packetQueue m' = (if acc then q ++ q' else d :: q ++ q') /\ retryResp m' = negb acc /\
    (acc = true -> forall d', head (q ++ q') = Some d' -> dequeueEvent m' = Some (Z.max (dp_tick d') now)).
Proof.
  intros I Hf Q F. destruct (reenters_sending now m m1) as [_ [q' Q']]; [eauto|done|].
  unfold dequeue. rewrite Q, F. cbn [mbind res_bind].
  cbn [retryResp packetQueue dequeueEvent drainManager field_upd].
  rewrite Q in Q'. rewrite Q'. cbn [tail]. destruct acc; cbn [negb app tail].
  - destruct (q ++ q') as [|d' q2] eqn:Eq.
    + destruct (drainManager m1); eexists _, q'; rewrite Eq; done.
    + unfold reschedule. rewrite (proj2 (Z.leb_le _ _)) by lia. cbn [assert_ mbind res_bind].
      eexists _, q'; rewrite Eq. split_and!; try done. intros _ d2 [= <-]. done.
  - eexists _, q'. done.
Qed.

(** ** The memory as a device below a port *)
#[global] Instance SimpleMemory_device : MemDevice SimpleMemory := {
  sendFunctional := recvFunctional;
  sendAtomic := fun _ => recvAtomic;
  sendTimingReq := recvTimingReq
}.

(** The bytes at an address range that lies in the memory. *)
Definition sm_contents (m : SimpleMemory) (a n : Z) : res (list Z) :=
  if (0 <? n) && (AR.start (range (sm_mem m)) <=? a) &&
     (a + n <=? AR._end (range (sm_mem m)) + 1)
  then mem_bytes (sm_mem m) a n else Err Undefined.

Lemma sm_contents_covers m a n bs : sm_contents m a n = Ok bs ->
  covers (sm_mem m) a n /\ mem_bytes (sm_mem m) a n = Ok bs.
Proof. unfold sm_contents, covers. case_if; [|done]. bool_prop. auto. Qed.

Lemma sm_contents_same m m' : pmemAddr (sm_mem m') = pmemAddr (sm_mem m) ->
  range (sm_mem m') = range (sm_mem m) -> forall a n, sm_contents m' a n = sm_contents m a n.
Proof. intros E1 E2 a n. unfold sm_contents, mem_bytes, host_off. by rewrite E1, E2. Qed.

Lemma mem_wf_same m m' : pmemAddr m' = pmemAddr m -> range m' = range m -> mem_wf m -> mem_wf m'.
Proof. intros E1 E2. unfold mem_wf. by rewrite E1, E2. Qed.

(** A memory with no response in flight is a device in the sense of [Port]. *)
#[global] Program Instance SimpleMemory_laws : MemDeviceLaws SimpleMemory := {
  dev_ok m := mem_wf (sm_mem m) /\ packetQueue m = [];
  contents := sm_contents
}.
Next Obligation.
  intros m a n bs [_ H]%sm_contents_covers. unfold mem_bytes in H.
  destruct (pmemAddr _); [|done]. by eapply arr_read_length.
Qed.
Next Obligation.
  intros m p d bs [Hm Q] [Hb Hc _] [Hcov Hbs]%sm_contents_covers.
  destruct (functionalAccess_read _ _ _ _ Hm Hb Hc Hcov Hbs) as (p' & E & G1 & G2 & G0).
  cbn [sendFunctional SimpleMemory_device]. unfold recvFunctional. rewrite E, Q.
  cbn [mbind res_bind check_queue]. eexists _, p'. split; [reflexivity|]. split_and!; done.
Qed.
Next Obligation.
  intros now m p d bs [Hm Q] [Hb Hc Hi] [Hcov Hbs]%sm_contents_covers.
  destruct (access_read_ok _ _ _ _ Hm Hb Hc Hi Hcov Hbs) as (am & p' & E & G1 & G2 & G0 & _ & _ & E1 & E2 & _).
  cbn [sendAtomic SimpleMemory_device]. unfold recvAtomic. rewrite E. cbn [mbind res_bind].
  assert (H : forall m', ctl m' = ctl m -> sm_mem m' = am ->
    (mem_wf (sm_mem m') /\ packetQueue m' = []) /\ forall a n, sm_contents m' a n = sm_contents m a n).
  { intros m' C Em. injection C as C1 _ _ _ _ _. rewrite C1, Q, Em.
    split; [split; [by eapply mem_wf_same|done]|]. apply sm_contents_same; by rewrite Em. }
  destruct (memInhibitAsserted p').
  - eexists _, p', 0. split; [reflexivity|]. split; [done|]. by apply H.
  - pose proof (getLatency_ctl (m <| sm_mem := am |>)) as [C Em].
    destruct (getLatency _) as [m' l]. eexists _, p', l. split; [reflexivity|]. split; [done|].
    by apply H.
Qed.

Lemma recvAtomic_read m p d bs : mem_wf (sm_mem m) -> read_request p d ->
  sm_contents m (addr p) (psize p) = Ok bs -> latency_var m = 0 ->
  exists am p', recvAtomic p m = Ok (m <| sm_mem := am |>, p', latency m) /\
    getPtr p' = Ok bs /\ isResponse p' = true.
Proof.
  intros Hm [Hb Hc Hi] [Hcov Hbs]%sm_contents_covers Hl.
  destruct (access_read_ok _ _ _ _ Hm Hb Hc Hi Hcov Hbs) as (am & p' & E & G1 & _ & _ & G3 & G4 & _).
  exists am, p'. unfold recvAtomic. rewrite E. cbn [mbind res_bind]. rewrite G4.
  unfold getLatency. cbn [latency_var latency field_upd]. by rewrite Hl.
Qed.

(** The bandwidth limit, for a memory that is not busy. *)
Lemma regulate_idle now p d m dur : read_request p d -> releaseEvent m = None -> isBusy m = false ->
  f64_to_u64 (f64_mul (f64_of_int (psize p)) (bandwidth m)) = Ok dur ->
  0 <= now -> 0 <= dur -> now + dur < 2 ^ 64 ->
  regulate now p m = Ok (m <| releaseEvent := if dur =? 0 then None else Some (now + dur) |>
                           <| isBusy := negb (dur =? 0) |>).
Proof.
  intros [Hb Hc _] Hrel Hbusy Hdur N1 N2 N3. unfold regulate.
  replace (isRead p || isWrite p) with true by (unfold isRead; by rewrite Hc).
  rewrite (getSize_ok p) by apply Hb. cbn [mbind res_bind]. rewrite Hdur. cbn [mbind res_bind].
  destruct (Z.eqb_spec dur 0); cbn [negb].
  - destruct m; cbn in *; by subst.
  - unfold schedule. rewrite Hrel, u64_small by lia.
    by rewrite (proj2 (Z.leb_le _ _)) by lia.
Qed.

Lemma sm_inv_idle m : sm_inv m -> isBusy m = false -> retryReq m = false /\ releaseEvent m = None.
Proof.
  intros [I1 I2 _ _ _] Hb. split.
  - destruct (retryReq m); [|done]. by rewrite I2 in Hb.
  - destruct (releaseEvent m); [|done]. assert (isBusy m = true) by (by apply I1). congruence.
Qed.

(** The memory is free and its timers do not overflow: the request for a read
    inside it is accepted at once, the bytes are queued for the requester
    behind the responses already there, and the memory is busy for the time
    the bandwidth asks. *)
Theorem timing_read_accepted (now : Z) (m : SimpleMemory) (p : Packet) (d bs : list Z) (dur : Z) :
  sm_inv m -> mem_wf (sm_mem m) -> read_request p d ->
  sm_contents m (addr p) (psize p) = Ok bs ->
  isBusy m = false ->
  f64_to_u64 (f64_mul (f64_of_int (psize p)) (bandwidth m)) = Ok dur ->
  0 <= now -> 0 <= dur -> now + dur < 2 ^ 64 ->
  latency_var m = 0 -> 0 <= latency m -> now + latency m < 2 ^ 64 ->
  exists m' p', recvTimingReq now p m = Ok (m', p', true) /\
    getPtr p' = Ok bs /\ isResponse p' = true /\
    packetQueue m' = packetQueue m ++ [mkDeferred (now + latency m) p'] /\
    isBusy m' = negb (dur =? 0) /\ releaseEvent m' = (if dur =? 0 then None else Some (now + dur)).
Proof.
  intros I Hm Hr Hc Hbusy Hdur N1 N2 N3 L1 L2 L3.
  destruct (sm_inv_idle m I Hbusy) as [Hrq Hrel].
  unfold recvTimingReq. rewrite (rr_inhibit _ _ Hr), Hrq, Hbusy. cbv zeta.
  set (p1 := p <| firstWordDelay := 0 |> <| lastWordDelay := 0 |>).
  assert (Hr1 : read_request p1 d) by (destruct Hr; split; done).
  rewrite (regulate_idle now p1 d m dur) by done. cbn [mbind res_bind].
  set (m1 := m <| releaseEvent := _ |> <| isBusy := _ |>).
  destruct (recvAtomic_read m1 p1 d bs) as (am & p' & -> & G1 & G2); try done.
  cbn [mbind res_bind].
  assert (needsResponse p1 = true) as ->.
  { unfold needsResponse. change (cmd p1) with (cmd p). by rewrite (rr_cmd _ _ Hr). }
  rewrite G2. cbn [assert_ mbind res_bind]. unfold getLatency.
  change (latency_var m1 <| sm_mem := am |>) with (latency_var m). rewrite L1. cbn [Z.eqb].
  change (latency m1 <| sm_mem := am |>) with (latency m). rewrite u64_small by lia.
  match goal with |- context [if ?b then _ else _] => destruct b eqn:Hs end.
  - bool_prop. rewrite H0. unfold schedule. rewrite (proj2 (Z.leb_le _ _)) by lia.
    cbn [assert_ mbind res_bind]. rewrite bool_decide_true by done. cbn [assert_ mbind res_bind].
    eexists _, p'. split; [reflexivity|]. done.
  - eexists _, p'. split; [reflexivity|]. done.
Qed.

End Memory.

(** ** Witnesses and an example *)

(** A memory at rest with 32 bytes from address 64, no jitter and unlimited
    bandwidth. *)
Definition ex_sm : SimpleMemory :=
  mkSimple (ex_mem []) 30 0 (S754_zero false) [] false false false None None false 0 0.
Definition ex_random : Z -> Z -> Z -> Z := fun _ lo _ => lo.

Lemma ex_sm_inv : sm_inv ex_sm.
Proof. by split. Qed.

Lemma ex_read_request : read_request (ex_pkt ReadReq) [1; 2; 3; 4].
Proof. split; [apply ex_pkt_bytes|done..]. Qed.

(** The state after one accepted read. *)
Definition ex_sm1 : SimpleMemory :=
  match recvTimingReq ex_random 5 (ex_pkt ReadReq) ex_sm with Ok (m, _, _) => m | Err _ => ex_sm end.

Lemma ex_sm1_step : sm_step ex_random 5 ex_sm ex_sm1.
Proof.
  unfold ex_sm1. destruct (recvTimingReq ex_random 5 (ex_pkt ReadReq) ex_sm) as [[[m p] b]|] eqn:E.
  - by eapply step_request.
  - vm_compute in E. discriminate.
Qed.

Lemma sm_reach_inv_witness : sm_inv ex_sm1 /\ length (packetQueue ex_sm1) = 1%nat.
Proof.
  split; [|reflexivity]. apply (sm_reach_inv ex_random ex_sm ex_sm1).
  - exact ex_sm_inv.
  - exact (sm_reach_step _ _ _ _ _ (sm_reach_refl _ _) ex_sm1_step).
Defined.

(** A memory about to send the only response it holds. *)
Definition ex_sm2 : SimpleMemory :=
  ex_sm <| packetQueue := [mkDeferred 35 (ex_pkt ReadResp)] |>.

Lemma dequeue_spec_witness :
  exists m', dequeue 35 (fun _ m => Ok (m, true)) ex_sm2 = Ok m' /\ packetQueue m' = [].
Proof.
  destruct (dequeue_spec ex_random 35 (fun _ m => Ok (m, true)) ex_sm2 ex_sm2
              (mkDeferred 35 (ex_pkt ReadResp)) [] true) as (m' & q' & H1 & _ & H2 & H3 & _).
  - by split.
  - intros p m m' b [= -> _]. apply reenters_refl.
  - reflexivity.
  - reflexivity.
  - exists m'. split; [exact H1|]. injection H2 as <-. exact H3.
Defined.

Lemma timing_read_accepted_witness :
  exists m' p', recvTimingReq ex_random 5 (ex_pkt ReadReq) ex_sm = Ok (m', p', true) /\
    getPtr p' = Ok [7; 7; 7; 7] /\ isBusy m' = false.
Proof.
  destruct (timing_read_accepted ex_random 5 ex_sm (ex_pkt ReadReq) [1; 2; 3; 4] [7; 7; 7; 7] 0)
    as (m' & p' & H1 & H2 & _ & _ & H3 & _); try done.
  - exact ex_read_request.
  - by exists m', p'.
Defined.

(** A functional read consults the queued responses after the array, and lets
    them overwrite what it read: a read accepted before a write, still in the
    queue, hides the write from functional reads. *)
Theorem functional_read_stale :
  exists m1 m2 m3 p1 p2 p3,
    recvTimingReq ex_random 5 (ex_pkt ReadReq) ex_sm = Ok (m1, p1, true) /\
    recvTimingReq ex_random 6 (ex_pkt WriteReq) m1 = Ok (m2, p2, true) /\
    mem_bytes (sm_mem m2) 68 4 = Ok [1; 2; 3; 4] /\
    recvFunctional (ex_pkt ReadReq) m2 = Ok (m3, p3) /\ data p3 = Some [7; 7; 7; 7].
Proof.
  do 6 eexists. split; [vm_compute; reflexivity|]. split; [vm_compute; reflexivity|].
  split; [vm_compute; reflexivity|]. split; [vm_compute; reflexivity|]. reflexivity.
Qed.
