(* ===== verification/AddrMapper.v ===== *)
(** * The address mapper

    Models [mem/addr_mapper.cc] and [mem/addr_mapper.hh]: the forwarding of
    the three protocols with the packet's address replaced on the way down and
    restored on the way up, and [RangeAddrMapper], which maps a list of ranges
    to another.  [find_rule] is the loop over the rules that the mapper and
    the PIM TLB, derived from it, share. *)

From S2P Require Import Prelude.
From S2P Require Import Flags.
From S2P Require Import AddrRange.
From S2P Require Import Packet.
From S2P Require Import AbstractMem.
From S2P Require Import Port.

(** The index of the first rule whose range contains the address. *)
Fixpoint find_rule (ranges : list AR.AddrRange) (a : Z) : option nat :=
  match ranges with
  | [] => None
  | r :: rs => if AR.contains r a then Some 0%nat else S <$> find_rule rs a
  end.

(** [offset + remappedRanges[i].start()] *)
Definition apply_rule (orig remp : list AR.AddrRange) (i : nat) (a : Z) : res Z :=
  r ← deref (orig !! i);
  r' ← deref (remp !! i);
  let offset := u64 (a - AR.start r) in
  Ok (u64 (offset + AR.start r')).

Record RangeAddrMapper := mkMapper {
  originalRanges : list AR.AddrRange;
  remappedRanges : list AR.AddrRange
}.

(** The checks of the constructor. *)
Definition RangeAddrMapper_new (orig remp : list AR.AddrRange) : res RangeAddrMapper :=
  if negb (length orig =? length remp)%nat then Err Fatal
  else if forallb (fun x => AR.size (fst x) =? AR.size (snd x)) (zip orig remp)
       then Ok (mkMapper orig remp) else Err Fatal.

Definition remapAddr (m : RangeAddrMapper) (a : Z) : res Z :=
  match find_rule (originalRanges m) a with
  | Some i => apply_rule (originalRanges m) (remappedRanges m) i a
  | None => Ok a
  end.

Definition getAddrRanges (m : RangeAddrMapper) : list AR.AddrRange := originalRanges m.

Section Mapper.

Context {S U : Type} {DS : MemDevice S} {MU : MasterSide U}.
Context (m : RangeAddrMapper).

Definition recvFunctional (pkt : Packet) (s : S) : res (S * Packet) :=
  orig_addr ← getAddr pkt;
  a ← remapAddr m orig_addr;
  pkt ← setAddr a pkt;
  '(s, pkt) ← sendFunctional pkt s;
  pkt ← setAddr orig_addr pkt;
  Ok (s, pkt).

Definition recvFunctionalSnoop (pkt : Packet) (u : U) : res (U * Packet) :=
  orig_addr ← getAddr pkt;
  a ← remapAddr m orig_addr;
  pkt ← setAddr a pkt;
  '(u, pkt) ← sendFunctionalSnoop pkt u;
  pkt ← setAddr orig_addr pkt;
  Ok (u, pkt).

Definition recvAtomic (now : Z) (pkt : Packet) (s : S) : res (S * Packet * Z) :=
  orig_addr ← getAddr pkt;
  a ← remapAddr m orig_addr;
  pkt ← setAddr a pkt;
  '(s, pkt, ret_tick) ← sendAtomic now pkt s;
  pkt ← setAddr orig_addr pkt;
  Ok (s, pkt, ret_tick).

Definition recvAtomicSnoop (pkt : Packet) (u : U) : res (U * Packet * Z) :=
  orig_addr ← getAddr pkt;
  a ← remapAddr m orig_addr;
  pkt ← setAddr a pkt;
  '(u, pkt, ret_tick) ← sendAtomicSnoop pkt u;
  pkt ← setAddr orig_addr pkt;
  Ok (u, pkt, ret_tick).

Definition recvTimingReq (now : Z) (pkt : Packet) (s : S) : res (S * Packet * bool) :=
  orig_addr ← getAddr pkt;
  let needs := needsResponse pkt in
  let inhibited := memInhibitAsserted pkt in
  let pkt := if needs && negb inhibited
             then pushSenderState (AddrMapperSenderState orig_addr) pkt else pkt in
  pkt ← (if negb (IS_REMAPPED pkt) then
           a ← remapAddr m orig_addr;
           pkt ← setAddr a pkt;
           Ok (pkt <| IS_REMAPPED := true |>)
         else Ok pkt);
  '(s, pkt, successful) ← sendTimingReq now pkt s;
  pkt ← (if negb successful && needs
         then '(_, pkt) ← popSenderState pkt; Ok pkt else Ok pkt);
  Ok (s, pkt, successful).

(** Responses on the way up. *)
Definition recvTimingResp (pkt : Packet) (u : U) : res (U * Packet * bool) :=
  match senderState pkt with
  | AddrMapperSenderState origAddr :: predecessor =>
      let receivedState := senderState pkt in
      remapped_addr ← getAddr pkt;
      let pkt := pkt <| senderState := predecessor |> in
      pkt ← setAddr origAddr pkt;
      '(u, pkt, successful) ← sendTimingResp pkt u;
      if successful : bool then Ok (u, pkt, true)
      else
        let pkt := pkt <| senderState := receivedState |> in
        pkt ← setAddr remapped_addr pkt;
        Ok (u, pkt, false)
  | _ => panic
  end.

Definition recvTimingSnoopReq (pkt : Packet) (u : U) : res U := sendTimingSnoopReq pkt u.

Definition recvRetryMaster (u : U) : res U := sendRetry u.

End Mapper.

(** ** Rules *)
Lemma find_rule_some ranges a i : find_rule ranges a = Some i ->
  exists r, ranges !! i = Some r /\ AR.contains r a = true /\
    forall j r', (j < i)%nat -> ranges !! j = Some r' -> AR.contains r' a = false.
Proof.
  revert i. induction ranges as [|r rs IH]; intros i; cbn [find_rule]; [done|].
  destruct (AR.contains r a) eqn:E.
  - intros [= <-]. exists r. split_and!; [done..|]. intros j r' Hj. lia.
  - destruct (find_rule rs a) as [k|] eqn:F; cbn; [|done]. intros [= <-].
    destruct (IH k eq_refl) as (r0 & H1 & H2 & H3). exists r0. split_and!; [done..|].
    intros [|j] r' Hj L; cbn in L; [by injection L as <-|]. apply (H3 j); [lia|done].
Qed.

Lemma find_rule_none ranges a : find_rule ranges a = None <->
  forall r, r ∈ ranges -> AR.contains r a = false.
Proof.
  induction ranges as [|r rs IH]; cbn [find_rule].
  - split; [|done]. intros _ r Hr. by apply not_elem_of_nil in Hr.
  - split.
    + intros Hf r' Hr. apply elem_of_cons in Hr as [E|Hr];
        [rewrite E; by destruct (AR.contains r a)|].
      destruct (AR.contains r a); [done|]. apply IH; [|done].
      by destruct (find_rule rs a).
    + intros Hr. rewrite (Hr r) by constructor. rewrite (proj2 IH); [done|].
      intros r' Hr'. apply Hr. by constructor.
Qed.

Lemma find_rule_app ranges a r : find_rule ranges a = None -> AR.contains r a = true ->
  find_rule (ranges ++ [r]) a = Some (length ranges).
Proof.
  intros Hn Hr. induction ranges as [|r' rs IH]; cbn [find_rule app length]; [by rewrite Hr|].
  cbn [find_rule] in Hn. destruct (AR.contains r' a); [done|].
  rewrite IH; [done|]. by destruct (find_rule rs a).
Qed.

(** Plain rules of the same size, inside the address space. *)
Definition rule_ok (r r' : AR.AddrRange) : Prop :=
  AR.interleaved r = false /\ AR.interleaved r' = false /\
  0 <= AR._start r /\ 0 <= AR._start r' /\ AR._end r < 2 ^ 64 /\ AR._end r' < 2 ^ 64 /\
  AR._end r - AR._start r = AR._end r' - AR._start r'.

Definition mapper_ok (m : RangeAddrMapper) : Prop :=
  Forall2 rule_ok (originalRanges m) (remappedRanges m).

(** The address a rule maps to, as a number. *)
Lemma apply_rule_ok orig remp i r r' a : orig !! i = Some r -> remp !! i = Some r' ->
  rule_ok r r' -> AR.contains r a = true ->
  apply_rule orig remp i a = Ok (AR._start r' + (a - AR._start r)) /\
  AR.contains r' (AR._start r' + (a - AR._start r)) = true.
Proof.
  intros L1 L2 (I1 & I2 & R1 & R2 & R3 & R4 & R5) C.
  rewrite AR.contains_not_interleaved in C by done. bool_prop.
  unfold apply_rule, AR.start. rewrite L1, L2. cbn [deref mbind res_bind]. split.
  - rewrite u64_rebase, u64_small by lia. f_equal. lia.
  - rewrite AR.contains_not_interleaved by done. apply andb_true_intro.
    rewrite !Z.leb_le. lia.
Qed.

Lemma remapAddr_cases m a : mapper_ok m ->
  (find_rule (originalRanges m) a = None /\ remapAddr m a = Ok a) \/
  exists i r r', originalRanges m !! i = Some r /\ remappedRanges m !! i = Some r' /\
    rule_ok r r' /\ AR.contains r a = true /\ find_rule (originalRanges m) a = Some i /\
    remapAddr m a = Ok (AR._start r' + (a - AR._start r)) /\
    AR.contains r' (AR._start r' + (a - AR._start r)) = true.
Proof.
  intros Hm. unfold remapAddr. destruct (find_rule (originalRanges m) a) as [i|] eqn:F; [right|by left].
  destruct (find_rule_some _ _ _ F) as (r & L & C & _).
  destruct (Forall2_lookup_l _ _ _ _ _ Hm L) as (r' & L' & Hok).
  destruct (apply_rule_ok _ _ _ _ _ _ L L' Hok C) as [E C']. exists i, r, r'. done.
Qed.

Lemma remapAddr_range m a : mapper_ok m -> inw 64 a -> exists b, remapAddr m a = Ok b /\ inw 64 b.
Proof.
  intros Hm Ha. destruct (remapAddr_cases m a Hm) as [[_ E]|(i & r & r' & _ & _ & Hok & C & _ & E & C')].
  - by exists a.
  - eexists; split; [exact E|]. apply AR.contains_bounds in C'.
    destruct Hok as (_ & _ & ? & ? & ? & ? & _). unfold inw. lia.
Qed.

(** ** Theorems *)

(** No two ranges of a list share an address. *)
Definition disjoint_ranges (rs : list AR.AddrRange) : Prop :=
  forall i j r r' x, rs !! i = Some r -> rs !! j = Some r' ->
    AR.contains r x = true -> AR.contains r' x = true -> i = j.

(** A mapper whose target ranges do not overlap does not alias: distinct
    addresses covered by its rules go to distinct addresses. *)
Theorem remapAddr_injective (m : RangeAddrMapper) (a b : Z) :
  mapper_ok m -> disjoint_ranges (remappedRanges m) ->
  find_rule (originalRanges m) a <> None -> find_rule (originalRanges m) b <> None ->
  remapAddr m a = remapAddr m b -> a = b.
Proof.
  intros Hm Hd Ha Hb E.
  destruct (remapAddr_cases m a Hm) as [[? _]|(i & r & r' & L1 & L2 & _ & _ & _ & E1 & C1)]; [done|].
  destruct (remapAddr_cases m b Hm) as [[? _]|(j & t & t' & K1 & K2 & _ & _ & _ & E2 & C2)]; [done|].
  rewrite E1, E2 in E. injection E as E. rewrite <- E in C2.
  assert (i = j) as -> by (eapply Hd; eauto). simplify_eq. lia.
Qed.

Section Device.

Context {S : Type} `{MemDeviceLaws S}.

(** A mapper in front of a device is a device. *)
Record Mapped := mkMapped { mapper : RangeAddrMapper; below : S }.

#[global] Instance Mapped_device : MemDevice Mapped := {
  sendFunctional pkt x :=
    '(s, pkt) ← recvFunctional (mapper x) pkt (below x); Ok (mkMapped (mapper x) s, pkt);
  sendAtomic now pkt x :=
    '(s, pkt, t) ← recvAtomic (mapper x) now pkt (below x); Ok (mkMapped (mapper x) s, pkt, t);
  sendTimingReq now pkt x :=
    '(s, pkt, b) ← recvTimingReq (mapper x) now pkt (below x); Ok (mkMapped (mapper x) s, pkt, b)
}.

Definition mapped_contents (x : Mapped) (a n : Z) : res (list Z) :=
  b ← remapAddr (mapper x) a; contents (below x) b n.

Lemma read_request_setAddr p d b : inw 64 b -> read_request p d -> read_request (p <| addr := b |>) d.
Proof. intros Hb [[H1 H2] H3 H4]. split; [split; [by apply pkt_wf_setAddr|done]|done..]. Qed.

Lemma read_reply_setAddr p p' bs a b : read_reply (p <| addr := b |>) p' bs ->
  exists p'', setAddr a p' = Ok p'' /\ read_reply p p'' bs.
Proof.
  intros [R1 R2 R3]. unfold setAddr. rewrite R3. eexists; split; [reflexivity|]. split; done.
Qed.

(** The laws of the device below carry over, at the mapped addresses. *)
#[global] Program Instance Mapped_laws : MemDeviceLaws Mapped := {
  dev_ok x := mapper_ok (mapper x) /\ dev_ok (below x);
  contents := mapped_contents
}.
Next Obligation.
  intros x a n bs Hc. unfold mapped_contents in Hc. res_inv. by eapply contents_length.
Qed.
Next Obligation.
  intros x p d bs [Hm Hs] Hr Hc. unfold mapped_contents in Hc. res_inv.
  destruct (remapAddr_range (mapper x) (addr p)) as (b & Eb & Hb); [done|apply Hr|].
  rewrite Eb in Hm0. injection Hm0 as <-.
  cbn [sendFunctional Mapped_device]. unfold recvFunctional.
  rewrite (getAddr_ok p) by apply Hr. cbn [mbind res_bind]. rewrite Eb. cbn [mbind res_bind].
  rewrite (setAddr_ok p) by apply Hr. cbn [mbind res_bind].
  destruct (functional_read (below x) (p <| addr := b |>) d bs) as (s' & p' & -> & R & Hs' & Hc');
    [done|by apply read_request_setAddr|done|]. cbn [mbind res_bind].
  destruct (read_reply_setAddr _ _ _ (addr p) _ R) as (p'' & -> & R''). cbn [mbind res_bind].
  eexists _, p''. split; [reflexivity|]. split; [done|]. split; [done|].
  intros a n. unfold mapped_contents. cbn [mapper below].
  destruct (remapAddr (mapper x) a); [apply Hc'|done].
Qed.
Next Obligation.
  intros now x p d bs [Hm Hs] Hr Hc. unfold mapped_contents in Hc. res_inv.
  destruct (remapAddr_range (mapper x) (addr p)) as (b & Eb & Hb); [done|apply Hr|].
  rewrite Eb in Hm0. injection Hm0 as <-.
  cbn [sendAtomic Mapped_device]. unfold recvAtomic.
  rewrite (getAddr_ok p) by apply Hr. cbn [mbind res_bind]. rewrite Eb. cbn [mbind res_bind].
  rewrite (setAddr_ok p) by apply Hr. cbn [mbind res_bind].
  destruct (atomic_read now (below x) (p <| addr := b |>) d bs) as (s' & p' & t & -> & R & Hs' & Hc');
    [done|by apply read_request_setAddr|done|]. cbn [mbind res_bind].
  destruct (read_reply_setAddr _ _ _ (addr p) _ R) as (p'' & -> & R''). cbn [mbind res_bind].
  eexists _, p'', t. split; [reflexivity|]. split; [done|]. split; [done|].
  intros a n. unfold mapped_contents. cbn [mapper below].
  destruct (remapAddr (mapper x) a); [apply Hc'|done].
Qed.

End Device.

Arguments Mapped : clear implicits.

Section Timing.

Context {S U : Type} {DS : MemDevice S} {MU : MasterSide U}.

(** The packet the mapper hands down for a request that needs a response: with the
    address [b] it is mapped to, and [a] on top of its sender states. *)
Definition handed (a b : Z) (p : Packet) : Packet :=
  (pushSenderState (AddrMapperSenderState a) p) <| addr := b |> <| IS_REMAPPED := true |>.
Definition mapped_packet (b : Z) (p : Packet) : Packet := handed (addr p) b p.

(** What a refused request looks like to the requester. *)
Definition returned (b : Z) (p : Packet) : Packet := p <| addr := b |> <| IS_REMAPPED := true |>.

Lemma recvTimingReq_send m now p b s : pkt_wf p -> needsResponse p = true ->
  memInhibitAsserted p = false -> IS_REMAPPED p = false -> remapAddr m (addr p) = Ok b ->
  recvTimingReq m now p s =
    ('(s, q, ok) ← sendTimingReq now (mapped_packet b p) s;
     q ← (if negb ok then '(_, q) ← popSenderState q; Ok q else Ok q); Ok (s, q, ok)).
Proof.
  intros Hwf Hn Hi Hr Hb. unfold recvTimingReq. rewrite getAddr_ok by done. cbn [mbind res_bind].
  rewrite Hn, Hi. cbn [negb andb].
  change (IS_REMAPPED (pushSenderState _ p)) with (IS_REMAPPED p). rewrite Hr. cbn [negb].
  rewrite Hb. cbn [mbind res_bind]. rewrite setAddr_ok by done. cbn [mbind res_bind].
  destruct (sendTimingReq _ _ _) as [[[s' q] ok]|]; cbn [mbind res_bind]; [|done].
  by rewrite andb_true_r.
Qed.

(** A request that comes again is remembered only by its [IS_REMAPPED] flag: the
    address it comes with is the mapped one. *)
Lemma recvTimingReq_again m now p b s : pkt_wf p -> needsResponse p = true -> memInhibitAsserted p = false ->
  recvTimingReq m now (returned b p) s =
    ('(s, q, ok) ← sendTimingReq now (handed b b p) s;
     q ← (if negb ok then '(_, q) ← popSenderState q; Ok q else Ok q); Ok (s, q, ok)).
Proof.
  intros Hwf Hn Hi. unfold recvTimingReq, getAddr. change (flags (returned b p)) with (flags p).
  destruct Hwf as (-> & _). cbn [assert_ mbind res_bind].
  change (needsResponse (returned b p)) with (needsResponse p). rewrite Hn.
  change (memInhibitAsserted (returned b p)) with (memInhibitAsserted p). rewrite Hi. cbn [negb andb].
  change (pushSenderState (AddrMapperSenderState (addr (returned b p))) (returned b p)) with (handed b b p).
  change (IS_REMAPPED (handed b b p)) with true. cbn [negb mbind res_bind].
  destruct (sendTimingReq _ _ _) as [[[s' q] ok]|]; cbn [mbind res_bind]; [|done].
  by rewrite andb_true_r.
Qed.

Lemma pop_handed a b p : popSenderState (handed a b p) = Ok (AddrMapperSenderState a, returned b p).
Proof. by destruct p. Qed.

(** A response that the requester takes or refuses. *)
Lemma recvTimingResp_up (q : Packet) (u u' : U) a ss q' ok : let up := q <| senderState := ss |> <| addr := a |> in
  senderState q = AddrMapperSenderState a :: ss -> fl_isSet (flags q) VALID_ADDR = true ->
  sendTimingResp up u = Ok (u', if ok : bool then q' else up, ok) ->
  recvTimingResp q u = Ok (u', if ok then q' else q, ok).
Proof.
  intros up Hs Hv Hu. unfold recvTimingResp, getAddr, setAddr. rewrite Hs, Hv.
  cbn [assert_ mbind res_bind]. change (flags q <| senderState := ss |>) with (flags q).
  rewrite Hv. cbn [assert_ mbind res_bind]. fold up. rewrite Hu. cbn [mbind res_bind]. destruct ok; [done|].
  change (flags up <| senderState := _ |>) with (flags q). rewrite Hv. cbn [assert_ mbind res_bind].
  subst up. destruct q. cbn in Hs. by subst.
Qed.

(** The requester offers a packet, each time as it came back, until it is taken. *)
Fixpoint offer (m : RangeAddrMapper) (nows : list Z) (p : Packet) (s : S) : res (S * Packet * bool) :=
  match nows with
  | [] => Ok (s, p, false)
  | now :: nows =>
      '(s, p, ok) ← recvTimingReq m now p s;
      if ok : bool then Ok (s, p, true) else offer m nows p s
  end.

(** The address on top of the sender states, when the request was refused at [nows]
    before. *)
Definition saved (b : Z) (p : Packet) (nows : list Z) : Z := match nows with [] => addr p | _ => b end.

(** The device below refuses what it is handed at each of [nows], and leaves the packet
    as it is; [a] is the address on top the first time. *)
Fixpoint refused (b : Z) (p : Packet) (a : Z) (nows : list Z) (s s' : S) : Prop :=
  match nows with
  | [] => s' = s
  | now :: nows => exists s1, sendTimingReq now (handed a b p) s = Ok (s1, handed a b p, false) /\ refused b p b nows s1 s'
  end.

Lemma offer_again m p b nows now s s1 s' p1 : pkt_wf p -> needsResponse p = true -> memInhibitAsserted p = false ->
  refused b p b nows s s1 -> sendTimingReq now (handed b b p) s1 = Ok (s', p1, true) ->
  offer m (nows ++ [now]) (returned b p) s = Ok (s', p1, true).
Proof.
  intros Hwf Hn Hi. revert s. induction nows as [|t nows IH]; intros s Hr Hs; cbn [app offer].
  - cbn in Hr. subst s1. rewrite (recvTimingReq_again m now p b s) by done. by rewrite Hs.
  - destruct Hr as (s2 & E & Hr). rewrite (recvTimingReq_again m t p b s) by done. rewrite E.
    cbn [mbind res_bind negb]. rewrite pop_handed. cbn [mbind res_bind]. by apply IH.
Qed.

(** C36. A timing request that needs a response and that no mapper has touched is
    mapped to an address [b].
    However often it is refused below before it is taken, it travels with that
    address and, on top of its sender-state stack, an address to come back with:
    its own if it was taken at once, but [b] if it had been refused before.
    The response goes up with that address and with the stack as it was, and is
    left as it came when the requester refuses it. *)
Theorem mapper_timing_roundtrip (m : RangeAddrMapper) (p : Packet) :
  mapper_ok m -> pkt_wf p -> needsResponse p = true -> memInhibitAsserted p = false -> IS_REMAPPED p = false ->
  exists b, remapAddr m (addr p) = Ok b /\ forall (nows : list Z) (now : Z) (s s1 s' : S) (p1 : Packet),
    refused b p (addr p) nows s s1 ->
    let a := saved b p nows in
    sendTimingReq now (handed a b p) s1 = Ok (s', p1, true) ->
    offer m (nows ++ [now]) p s = Ok (s', p1, true) /\
    forall (q q' : Packet) (u u' : U) (ok : bool),
      senderState q = senderState (handed a b p) -> fl_isSet (flags q) VALID_ADDR = true ->
      let up := q <| senderState := senderState p |> <| addr := a |> in
      sendTimingResp up u = Ok (u', if ok then q' else up, ok) ->
      recvTimingResp q u = Ok (u', if ok then q' else q, ok).
Proof.
  intros Hm Hwf Hn Hi Hf. destruct (remapAddr_range m (addr p)) as (b & Eb & _); [done|apply Hwf|].
  exists b. split; [done|]. intros nows now s s1 s' p1 Hr a Hs. split.
  - subst a. destruct nows as [|t nows]; cbn [app offer saved] in *.
    + cbn in Hr. subst s1. rewrite (recvTimingReq_send m now p b s) by done. unfold mapped_packet. by rewrite Hs.
    + destruct Hr as (s2 & E & Hr). rewrite (recvTimingReq_send m t p b s) by done. unfold mapped_packet.
      rewrite E. cbn [mbind res_bind negb]. rewrite pop_handed. cbn [mbind res_bind]. by eapply offer_again.
  - intros q q' u u' ok Hq Hv up Hu. by apply (recvTimingResp_up q u u' a (senderState p)).
Qed.

(** A refused request that is sent again and accepted: the address on the
    sender-state stack is the mapped one, so the response goes up with it instead of
    the address the requester used. *)
Theorem mapper_retry_address (m : RangeAddrMapper) (now now' b : Z) (p : Packet) (s s1 s2 : S)
    (q : Packet) :
  pkt_wf p -> needsResponse p = true -> memInhibitAsserted p = false -> IS_REMAPPED p = false ->
  remapAddr m (addr p) = Ok b ->
  sendTimingReq now (mapped_packet b p) s = Ok (s1, mapped_packet b p, false) ->
  sendTimingReq now' (handed b b p) s1 = Ok (s2, q, true) ->
  recvTimingReq m now p s = Ok (s1, returned b p, false) /\
  recvTimingReq m now' (returned b p) s1 = Ok (s2, q, true).
Proof.
  intros Hwf Hn Hi Hr Hb Hs1 Hs2. split.
  - rewrite (recvTimingReq_send m now p b s) by done. rewrite Hs1. cbn [mbind res_bind negb].
    unfold mapped_packet. by rewrite pop_handed.
  - rewrite (recvTimingReq_again m now' p b s1) by done. by rewrite Hs2.
Qed.

End Timing.

(** ** Witnesses *)
Definition ex_mapper : RangeAddrMapper :=
  mkMapper [AR.AddrRange2 64 95; AR.AddrRange2 128 159] [AR.AddrRange2 1064 1095; AR.AddrRange2 0 31].

Lemma ex_mapper_ok : mapper_ok ex_mapper.
Proof. unfold mapper_ok, ex_mapper, rule_ok. repeat constructor; cbn; lia. Qed.

Lemma remapAddr_injective_witness : remapAddr ex_mapper 70 = Ok 1070 /\ 70 = 70.
Proof.
  split; [reflexivity|]. apply (remapAddr_injective ex_mapper 70 70).
  - exact ex_mapper_ok.
  - intros [|[|i]] [|[|j]] r r' x L1 L2 C1 C2; cbn in L1, L2; try done; simplify_eq;
      rewrite AR.contains_plain in C1, C2; bool_prop; lia.
  - done.
  - done.
  - reflexivity.
Defined.

Definition ex_up (a : Z) : Packet := handed a 1068 (ex_pkt ReadResp).

(** Taken at once, the response comes back with address 68; refused once before, with
    the address below. *)
Lemma mapper_timing_roundtrip_witness :
  (exists s p1, offer (DS := Script_device) ex_mapper [5] (ex_pkt ReadReq) (mkScript [true] []) = Ok (s, p1, true)) /\
  recvTimingResp (MU := Script_master) (ex_up 68) (mkScript [true] [])
    = Ok (mkScript [] [(ex_up 68) <| senderState := [] |> <| addr := 68 |>], (ex_up 68) <| senderState := [] |> <| addr := 68 |>, true) /\
  (exists s p1, offer (DS := Script_device) ex_mapper [5; 6] (ex_pkt ReadReq) (mkScript [false; true] []) = Ok (s, p1, true)) /\
  recvTimingResp (MU := Script_master) (ex_up 1068) (mkScript [true] [])
    = Ok (mkScript [] [(ex_up 1068) <| senderState := [] |>], (ex_up 1068) <| senderState := [] |>, true).
Proof.
  destruct (mapper_timing_roundtrip (DS := Script_device) (MU := Script_master) ex_mapper (ex_pkt ReadReq)
    ex_mapper_ok (proj1 (ex_pkt_bytes ReadReq)) eq_refl eq_refl eq_refl) as (b & Eb & H).
  vm_compute in Eb. injection Eb as <-.
  destruct (H [] 5 (mkScript [true] []) (mkScript [true] []) _ _ eq_refl eq_refl) as [H1 H2].
  destruct (H [5] 6 (mkScript [false; true] []) (mkScript [true] []) _ _ (ex_intro _ _ (conj eq_refl eq_refl)) eq_refl) as [H3 H4].
  split; [eexists _, _; exact H1|]. split; [apply (H2 (ex_up 68) _ (mkScript [true] []) _ true); reflexivity|].
  split; [eexists _, _; exact H3|]. apply (H4 (ex_up 1068) _ (mkScript [true] []) _ true); reflexivity.
Defined.

Lemma mapper_retry_address_witness :
  exists q, recvTimingReq (DS := Script_device) ex_mapper 6
     ((ex_pkt ReadReq) <| addr := 1068 |> <| IS_REMAPPED := true |>) (mkScript [true] [])
   = Ok (mkScript [] [q], q, true) /\ senderState q = [AddrMapperSenderState 1068].
Proof.
  eexists. split.
  - refine (proj2 (mapper_retry_address (DS := Script_device) ex_mapper 5 6 1068 (ex_pkt ReadReq)
             (mkScript [false; true] []) (mkScript [true] []) _ _ _ _ _ _ _ _ _)).
    + exact (proj1 (ex_pkt_bytes ReadReq)).
    + reflexivity.
    + reflexivity.
    + reflexivity.
    + reflexivity.
    + reflexivity.
    + reflexivity.
  - reflexivity.
Defined.
