(* ===== verification/Tlb.v ===== *)
(** * The TLB of the PIM processor

    Models [mem/ethz_tlb.cc] and [mem/ethz_tlb.hh], derived from the range
    mapper: rule 0 is static (the PIM's own memory), the others are slices of
    the host process cached from the slice table in main memory, replaced in
    least-recently-used order.  A miss is refilled with a three-word table
    entry (virtual start, physical start, size) read below, in the protocol of
    the access.  Three registers turn a write into an HMC atomic command on
    the address written.  Console output and the address dump are left out;
    [dma] only identifies the DMA engine that shares the port. *)

From S2P Require Import Prelude.
From S2P Require Import AddrRange.
From S2P Require Import Packet.
From S2P Require Import AbstractMem.
From S2P Require Import Port.
From S2P Require Import SimpleMem.
From S2P Require Import AddrMapper.

Record TLB := mkTLB {
  rules : RangeAddrMapper;
  lastUsed : list Z;
  pending_refills : list Z;
  PIM_SLICETABLE_PTR : Z;
  PIM_SLICECOUNT : Z;
  PIM_SLICEVSTART : Z;
  OS_PAGE_SHIFT : Z;
  TLB_SIZE : Z;
  IDEAL_REFILL : bool;
  PIM_DTLB_IDEAL_REFILL_REG : Z;
  HMC_ATOMIC_INCR : Z;
  HMC_ATOMIC_IMIN : Z;
  HMC_ATOMIC_FADD : Z;
  HMC_OPERAND : Z;
  hmc_operand : Z;
  tlb_masterId : Z;
  pim_arch : Z;
  TLBAccess : Z;
  TLBDynamicAccess : Z;
  TLBMiss : Z;
  tlb_dequeueEvent : option Z;
  tlb_packetQueue : list Packet
}.

Definition orig (t : TLB) : list AR.AddrRange := originalRanges (rules t).
Definition remp (t : TLB) : list AR.AddrRange := remappedRanges (rules t).

(** [(Addr)-1], the value for a miss. *)
Definition TLB_MISS : Z := u64_max.

(** The constructor: one entry of [lastUsed], for the static rule. *)
Definition TLB_new (m : RangeAddrMapper) (shift sz : Z) (ideal : bool)
    (refill incr imin fadd oper mid arch : Z) : TLB :=
  mkTLB m [u64_max] [] 0 0 0 shift sz ideal refill incr imin fadd oper 0 mid arch 0 0 0 None [].

Definition remap_check (t : TLB) (a : Z) : res Z :=
  match find_rule (orig t) a with
  | Some i => apply_rule (orig t) (remp t) i a
  | None => Ok TLB_MISS
  end.

Definition slice_vend (t : TLB) (a : Z) : res Z :=
  match find_rule (orig t) a with
  | Some i => r ← deref (orig t !! i); Ok (u64 (u64 (AR.start r + AR.size r) - 1))
  | None => panic
  end.

Definition slice_vstart (t : TLB) (a : Z) : res Z :=
  match find_rule (orig t) a with
  | Some i => r ← deref (orig t !! i); Ok (AR.start r)
  | None => panic
  end.

Definition remap (now : Z) (t : TLB) (a : Z) : res (TLB * Z) :=
  let t := t <| TLBAccess := TLBAccess t + 1 |> in
  match find_rule (orig t) a with
  | Some i =>
      t ← (if (0 <? i)%nat then
             _ ← deref (lastUsed t !! i);
             Ok (t <| lastUsed := <[i := now]> (lastUsed t) |>
                   <| TLBDynamicAccess := TLBDynamicAccess t + 1 |>)
           else Ok t);
      b ← apply_rule (orig t) (remp t) i a;
      Ok (t, b)
  | None =>
      if negb (PIM_SLICETABLE_PTR t =? 0)
      then Ok (t <| TLBMiss := TLBMiss t + 1 |>, TLB_MISS)
      else panic
  end.

(** ** Replacement *)

(** The loop that looks for the least recently used dynamic rule. *)
Fixpoint lru_loop (l : list Z) (i : nat) (min : Z) (min_index : nat) : nat :=
  match l with
  | [] => min_index
  | x :: l' => if x <? min then lru_loop l' (S i) x i else lru_loop l' (S i) min min_index
  end.

Definition lru_index (l : list Z) : res nat :=
  min ← deref (l !! 1%nat);
  Ok (lru_loop (drop 1 l) 1 min 1).

(** [v.erase(v.begin() + i)] *)
Definition vec_erase {A} (i : nat) (l : list A) : res (list A) :=
  if (i <? length l)%nat then Ok (delete i l) else undefined.

Definition evict (t : TLB) : res TLB :=
  i ← lru_index (lastUsed t);
  lu ← vec_erase i (lastUsed t);
  o ← vec_erase i (orig t);
  r ← vec_erase i (remp t);
  Ok (t <| lastUsed := lu |> <| rules := mkMapper o r |>).

Definition updateTLB (now vaddr paddr size : Z) (t : TLB) : res TLB :=
  t ← (if u64 (TLB_SIZE t) <=? Z.of_nat (length (orig t)) then evict t else Ok t);
  Ok (t <| rules := mkMapper (orig t ++ [AR.AddrRange2 vaddr (u64 (u64 (vaddr + size) - 1))])
                             (remp t ++ [AR.AddrRange2 paddr (u64 (u64 (paddr + size) - 1))]) |>
        <| lastUsed := lastUsed t ++ [now] |>).

(** ** Refills *)
Definition pending_refill (t : TLB) (a : Z) : bool := bool_decide (a ∈ pending_refills t).

(** [std::find] and [erase]: the first occurrence. *)
Fixpoint erase_first (a : Z) (l : list Z) : option (list Z) :=
  match l with
  | [] => None
  | x :: l' => if x =? a then Some l' else (fun l'' => x :: l'') <$> erase_first a l'
  end.

Definition remove_pending_refill (a : Z) (t : TLB) : TLB * bool :=
  match erase_first a (pending_refills t) with
  | Some l => (t <| pending_refills := l |>, true)
  | None => (t, false)
  end.

(** [3*pim_arch/8]: the bytes of a table entry. *)
Definition entry_length (t : TLB) : Z := 3 * pim_arch t / 8.

(** Where the entry of an address is. *)
Definition entry_addr (t : TLB) (a : Z) : res Z :=
  _ ← assert_ (PIM_SLICEVSTART t <=? a);
  let index := u64 (Z.shiftr (a - PIM_SLICEVSTART t) (OS_PAGE_SHIFT t) * entry_length t) in
  Ok (u64 (PIM_SLICETABLE_PTR t + index)).

(** The read request for an entry. *)
Definition refill_packet (t : TLB) (ea : Z) : res Packet :=
  r ← Request_new ea (entry_length t) 0 (tlb_masterId t);
  pkt ← Packet_new r ReadReq;
  dataDynamicArray (replicate (Z.to_nat (entry_length t)) 0) (setSrc 0 pkt).

(** [getPtr<uint32_t>()[i]] or [getPtr<uint64_t>()[i]], by architecture. *)
Definition arch_word (t : TLB) (i : Z) (pkt : Packet) : res Z :=
  if pim_arch t =? 32 then getPtr_word 4 i pkt else getPtr_word 8 i pkt.

(** The entry that came back becomes a rule. *)
Definition install_entry (now : Z) (pkt : Packet) (t : TLB) : res TLB :=
  vaddr ← arch_word t 0 pkt;
  paddr ← arch_word t 1 pkt;
  size ← arch_word t 2 pkt;
  updateTLB now vaddr paddr size t.

Section Operations.

Context {S U : Type} {DS : MemDevice S} {MU : MasterSide U}.

Definition refillTLB_timing (now a : Z) (t : TLB) (s : S) : res (TLB * S * bool) :=
  ea ← entry_addr t a;
  if pending_refill t ea then Ok (t, s, true)
  else
    let t := t <| pending_refills := pending_refills t ++ [ea] |> in
    pkt ← refill_packet t ea;
    '(s, _, successful) ← sendTimingReq now pkt s;
    if negb successful
    then Ok (t <| pending_refills := removelast (pending_refills t) |>, s, false)
    else Ok (t, s, true).

Definition refillTLB_atomic (now a : Z) (t : TLB) (s : S) : res (TLB * S) :=
  ea ← entry_addr t a;
  if pending_refill t ea then panic
  else
    pkt ← refill_packet t ea;
    '(s, pkt, _) ← sendAtomic now pkt s;
    sz ← getSize pkt;
    _ ← assert_ (sz =? entry_length t);
    t ← install_entry now pkt t;
    Ok (t, s).

Definition refillTLB_functional (now a : Z) (t : TLB) (s : S) : res (TLB * S) :=
  ea ← entry_addr t a;
  if pending_refill t ea then panic
  else
    pkt ← refill_packet t ea;
    '(s, pkt) ← sendFunctional pkt s;
    sz ← getSize pkt;
    _ ← assert_ (sz =? entry_length t);
    t ← install_entry now pkt t;
    Ok (t, s).

(** ** Requests *)
Definition recvFunctional (now : Z) (pkt : Packet) (t : TLB) (s : S) : res (TLB * S * Packet) :=
  orig_addr ← getAddr pkt;
  if negb (PIM_DTLB_IDEAL_REFILL_REG t =? 0) && (orig_addr =? PIM_DTLB_IDEAL_REFILL_REG t) then panic
  else
    '(t, a) ← remap now t orig_addr;
    if a =? TLB_MISS then panic
    else
      pkt ← setAddr a pkt;
      '(s, pkt) ← sendFunctional pkt s;
      pkt ← setAddr orig_addr pkt;
      Ok (t, s, pkt).

(** One atomic-command register: the target address, and the packet marked
    with the command; address 0 is ignored. *)
Definition hmc_register (cmd_ : Z) (operand : bool) (t : TLB) (pkt : Packet)
  : res (Packet * option Z) :=
  sz ← getSize pkt;
  _ ← assert_ (sz =? pim_arch t / 8);
  a ← arch_word t 0 pkt;
  _ ← assert_ (negb (a =? TLB_MISS));
  if a =? 0 then Ok (pkt, None)
  else
    let pkt := pkt <| ATOMIC_HMC_COMMAND := cmd_ |> in
    Ok (if operand then pkt <| ATOMIC_HMC_OPERAND := hmc_operand t |> else pkt, Some a).

(** The address an atomic command is for, 0 for any other packet. *)
Definition check_hmc_command (t : TLB) (pkt : Packet) : res (TLB * Packet * Z) :=
  orig_addr ← getAddr pkt;
  if orig_addr =? 0 then Ok (t, pkt, 0)
  else
    '(pkt, r) ←
      (if (orig_addr =? HMC_ATOMIC_INCR t) && isWrite pkt then hmc_register HMC_CMD_INC false t pkt
       else if (orig_addr =? HMC_ATOMIC_FADD t) && isWrite pkt then hmc_register HMC_CMD_FADD true t pkt
       else if (orig_addr =? HMC_ATOMIC_IMIN t) && isWrite pkt then hmc_register HMC_CMD_MIN true t pkt
       else Ok (pkt, Some 0));
    match r with
    | None => Ok (t, pkt, 0)
    | Some a =>
        t ← (if (orig_addr =? HMC_OPERAND t) && isWrite pkt then
               v ← getPtr_word 4 0 pkt; Ok (t <| hmc_operand := v |>)
             else Ok t);
        Ok (t, pkt, a)
    end.

(** A write to the refill register. *)
Definition ideal_refill (now a : Z) (t : TLB) (s : S) : res (TLB * S) :=
  if a =? 0 then Ok (t, s)
  else
    r ← remap_check t a;
    if r =? TLB_MISS then refillTLB_functional now a t s else Ok (t, s).

Definition recvAtomic (now : Z) (pkt : Packet) (t : TLB) (s : S) : res (TLB * S * Packet * Z) :=
  orig_addr ← getAddr pkt;
  if negb (PIM_DTLB_IDEAL_REFILL_REG t =? 0) && (orig_addr =? PIM_DTLB_IDEAL_REFILL_REG t) then
    sz ← getSize pkt;
    _ ← assert_ (sz =? pim_arch t / 8);
    _ ← assert_ (isWrite pkt);
    a ← arch_word t 0 pkt;
    '(t, s) ← ideal_refill now a t s;
    Ok (t, s, pkt, 1)
  else
    '(t, pkt, c) ← check_hmc_command t pkt;
    '(t, a) ← remap now t (if c =? 0 then orig_addr else c);
    '(t, s, a) ←
      (if a =? TLB_MISS then
         '(t, s) ← refillTLB_atomic now orig_addr t s;
         '(t, a) ← remap now t orig_addr;
         if a =? TLB_MISS then panic else Ok (t, s, a)
       else Ok (t, s, a));
    pkt ← setAddr a pkt;
    '(s, pkt, ret_tick) ← sendAtomic now pkt s;
    pkt ← setAddr orig_addr pkt;
    Ok (t, s, pkt, ret_tick).

(** The write to the refill register in the timing protocol. *)
Definition recvTimingReq_refill (now : Z) (pkt : Packet) (t : TLB) (s : S)
  : res (TLB * S * Packet * bool) :=
  let pkt := pkt <| firstWordDelay := 0 |> <| lastWordDelay := 0 |> in
  _ ← assert_ (isWrite pkt);
  sz ← getSize pkt;
  _ ← assert_ (sz =? pim_arch t / 8);
  pkt ← (if needsResponse pkt then makeResponse pkt else panic);
  let t := t <| tlb_packetQueue := tlb_packetQueue t ++ [pkt] |> in
  ev ← schedule (tlb_dequeueEvent t) now (u64 (now + 1));
  let t := t <| tlb_dequeueEvent := ev |> in
  a ← arch_word t 0 pkt;
  '(t, s) ← ideal_refill now a t s;
  Ok (t, s, pkt, true).

(** Translation of a request that is not yet remapped: the packet to send, or
    nothing when a refill has to come first. *)
Definition translate_timing (now : Z) (pkt : Packet) (t : TLB) (s : S)
  : res (TLB * S * Packet * Z * bool) :=
  orig_addr ← getAddr pkt;
  '(t, pkt, c) ← check_hmc_command t pkt;
  let orig_addr := if negb (c =? 0) then c else orig_addr in
  '(t, a) ← remap now t orig_addr;
  if a =? TLB_MISS then
    if IDEAL_REFILL t then
      '(t, s) ← refillTLB_functional now orig_addr t s;
      '(t, a) ← remap now t orig_addr;
      _ ← assert_ (negb (a =? TLB_MISS));
      pkt ← setAddr a pkt;
      Ok (t, s, pkt <| IS_REMAPPED := true |>, orig_addr, true)
    else
      '(t, s, _) ← refillTLB_timing now orig_addr t s;
      Ok (t, s, pkt, orig_addr, false)
  else
    pkt ← setAddr a pkt;
    Ok (t, s, pkt <| IS_REMAPPED := true |>, orig_addr, true).

Definition recvTimingReq (now : Z) (pkt : Packet) (t : TLB) (s : S)
  : res (TLB * S * Packet * bool) :=
  orig_addr ← getAddr pkt;
  if negb (PIM_DTLB_IDEAL_REFILL_REG t =? 0) && (orig_addr =? PIM_DTLB_IDEAL_REFILL_REG t)
  then recvTimingReq_refill now pkt t s
  else
    let needs := needsResponse pkt in
    let inhibited := memInhibitAsserted pkt in
    '(t, s, pkt, orig_addr, go) ←
      (if negb (IS_REMAPPED pkt) then translate_timing now pkt t s
       else Ok (t, s, pkt, orig_addr, true));
    if negb go then Ok (t, s, pkt, false)
    else
      let pkt := if needs && negb inhibited
                 then pushSenderState (AddrMapperSenderState orig_addr) pkt else pkt in
      '(s, pkt, successful) ← sendTimingReq now pkt s;
      pkt ← (if negb successful && needs
             then '(_, pkt) ← popSenderState pkt; Ok pkt else Ok pkt);
      Ok (t, s, pkt, successful).

(** ** Responses *)
Definition recvTimingResp (now : Z) (pkt : Packet) (t : TLB) (u : U) : res (TLB * U * Packet * bool) :=
  match senderState pkt with
  | AddrMapperSenderState _ :: _ =>
      '(u, pkt, b) ← AddrMapper.recvTimingResp pkt u; Ok (t, u, pkt, b)
  | _ =>
      sz ← getSize pkt;
      _ ← assert_ (sz =? entry_length t);
      a ← getAddr pkt;
      let '(t, success) := remove_pending_refill a t in
      if negb success then panic
      else
        t ← install_entry now pkt t;
        u ← sendRetry u;
        Ok (t, u, pkt, true)
  end.

(** The dequeue event: the response to a refill-register write. *)
Definition tlb_dequeue (t : TLB) (u : U) : res (TLB * U) :=
  match tlb_packetQueue t with
  | [] => Err AssertFailed
  | pkt :: q =>
      '(u, _, accepted) ← sendTimingResp pkt u;
      if accepted : bool then
        let t := t <| tlb_packetQueue := q |> in
        _ ← assert_ (bool_decide (q = []));
        Ok (t, u)
      else panic
  end.

End Operations.

(** ** The rules: well-formedness and replacement *)

(** Rules come in pairs, each with its time of use, and there are at most
    [TLB_SIZE] of them, the first of which is the static one. *)
Record tlb_wf (t : TLB) : Prop := {
  wf_rules : mapper_ok (rules t);
  wf_used : length (lastUsed t) = length (orig t);
  wf_static : (1 <= length (orig t))%nat;
  wf_bound : Z.of_nat (length (orig t)) <= TLB_SIZE t;
  wf_size : 2 <= TLB_SIZE t < 2 ^ 31;
  wf_shift : 0 <= OS_PAGE_SHIFT t
}.

Lemma wf_remp t : tlb_wf t -> length (remp t) = length (orig t).
Proof. intros [H _ _ _ _]. symmetry. by eapply Forall2_length. Qed.

(** The loop returns an index of the least element it has seen. *)
Lemma lru_loop_spec l pre min mi :
  pre !! mi = Some min -> (1 <= mi)%nat -> (1 <= length pre)%nat ->
  (forall j y, (1 <= j)%nat -> pre !! j = Some y -> min <= y) ->
  exists k x, lru_loop l (length pre) min mi = k /\ (1 <= k)%nat /\ (pre ++ l) !! k = Some x /\
    forall j y, (1 <= j)%nat -> (pre ++ l) !! j = Some y -> x <= y.
Proof.
  revert pre min mi. induction l as [|x l IH]; intros pre min mi Hm H1 Hp Hmin; cbn [lru_loop].
  - exists mi, min. rewrite app_nil_r. done.
  - replace (pre ++ x :: l) with ((pre ++ [x]) ++ l) by (by rewrite <- app_assoc).
    assert (Hl : S (length pre) = length (pre ++ [x])) by (rewrite length_app; cbn; lia).
    rewrite Hl. destruct (Z.ltb_spec x min).
    + apply IH; [by rewrite lookup_app_r, Nat.sub_diag by lia|lia|lia|].
      intros j y Hj L. destruct (decide (j < length pre)%nat).
      * rewrite lookup_app_l in L by lia. specialize (Hmin j y Hj L). lia.
      * rewrite lookup_app_r in L by lia. apply list_lookup_singleton_Some in L as [_ ->]. lia.
    + apply IH; [by apply lookup_app_l_Some|lia|lia|].
      intros j y Hj L. destruct (decide (j < length pre)%nat).
      * rewrite lookup_app_l in L by lia. eauto.
      * rewrite lookup_app_r in L by lia. apply list_lookup_singleton_Some in L as [_ <-]. lia.
Qed.

Lemma lru_index_spec l : (2 <= length l)%nat ->
  exists i x, lru_index l = Ok i /\ (1 <= i)%nat /\ l !! i = Some x /\
    forall j y, (1 <= j)%nat -> l !! j = Some y -> x <= y.
Proof.
  intros Hl. destruct l as [|a [|b l]]; cbn in Hl; try lia.
  unfold lru_index. cbn [lookup list_lookup deref mbind res_bind drop lru_loop].
  rewrite Z.ltb_irrefl.
  destruct (lru_loop_spec l [a; b] b 1) as (k & x & E & H1 & H2 & H3); [done|lia|cbn; lia| |].
  { intros [|[|j]] y Hj L; cbn in L; try done; [lia|]. injection L as <-. lia. }
  exists k, x. cbn [length app] in *. by rewrite E.
Qed.

(** Removing rule [i] of a well-formed TLB. *)
Definition drop_rule (i : nat) (t : TLB) : TLB :=
  t <| lastUsed := delete i (lastUsed t) |> <| rules := mkMapper (delete i (orig t)) (delete i (remp t)) |>.

(** A rule that no dynamic rule was used before. *)
Definition least_used (t : TLB) (i : nat) : Prop :=
  (1 <= i < length (orig t))%nat /\
  forall x j y, lastUsed t !! i = Some x -> (1 <= j)%nat -> lastUsed t !! j = Some y -> x <= y.

Lemma evict_spec t : tlb_wf t -> (2 <= length (orig t))%nat ->
  exists i, evict t = Ok (drop_rule i t) /\ least_used t i.
Proof.
  intros Hwf Hl. pose proof (wf_remp t Hwf) as Hr. destruct Hwf as [H1 H2 H3 H4 H5].
  destruct (lru_index_spec (lastUsed t)) as (i & x & E & I1 & I2 & I3); [lia|].
  exists i. unfold evict. rewrite E. cbn [mbind res_bind].
  pose proof (lookup_lt_Some _ _ _ I2) as Hlt. unfold vec_erase.
  rewrite !(proj2 (Nat.ltb_lt _ _)) by lia. cbn [mbind res_bind]. split; [done|]. split; [lia|].
  intros x' j y L Hj L'. rewrite I2 in L. injection L as <-. eauto.
Qed.

Lemma length_delete_lt {A} (l : list A) i : (i < length l)%nat -> length (delete i l) = pred (length l).
Proof. intros H. apply lookup_lt_is_Some_2 in H. by apply length_delete in H as ->; lia. Qed.

(** A slice that does not wrap around the address space. *)
Definition slice_ok (v p sz : Z) : Prop :=
  0 < sz /\ 0 <= v /\ v + sz <= 2 ^ 64 /\ 0 <= p /\ p + sz < 2 ^ 64.

Definition add_rule (now v p sz : Z) (t : TLB) : TLB :=
  t <| rules := mkMapper (orig t ++ [AR.AddrRange2 v (v + sz - 1)])
                         (remp t ++ [AR.AddrRange2 p (p + sz - 1)]) |>
    <| lastUsed := lastUsed t ++ [now] |>.

(** The TLB a rule is added to: [t] itself, or [t] without its least used
    dynamic rule when [t] is full. *)
Inductive make_room (t : TLB) : TLB -> Prop :=
| room_free : Z.of_nat (length (orig t)) < TLB_SIZE t -> make_room t t
| room_evict i : Z.of_nat (length (orig t)) = TLB_SIZE t -> least_used t i ->
    make_room t (drop_rule i t).

Lemma make_room_wf t t0 : tlb_wf t -> make_room t t0 ->
  tlb_wf t0 /\ Z.of_nat (length (orig t0)) < TLB_SIZE t0.
Proof.
  intros Hwf [Hlt|i Hlt [Hi _]]; [done|]. pose proof (wf_remp t Hwf) as Hr.
  destruct Hwf as [H1 H2 H3 H4 H5 H6].
  assert (Hd : length (orig (drop_rule i t)) = pred (length (orig t)))
    by (apply length_delete_lt; lia).
  split; [split|].
  - by apply Forall2_delete.
  - rewrite Hd. change (lastUsed (drop_rule i t)) with (delete i (lastUsed t)).
    rewrite length_delete_lt by lia. lia.
  - rewrite Hd. lia.
  - rewrite Hd. change (TLB_SIZE (drop_rule i t)) with (TLB_SIZE t). lia.
  - done.
  - done.
  - rewrite Hd. change (TLB_SIZE (drop_rule i t)) with (TLB_SIZE t). lia.
Qed.

Lemma add_rule_wf now v p sz t : tlb_wf t -> Z.of_nat (length (orig t)) < TLB_SIZE t ->
  slice_ok v p sz -> tlb_wf (add_rule now v p sz t).
Proof.
  intros [H1 H2 H3 H4 H5 H6] Hlt (S1 & S2 & S3 & S4 & S5).
  split; cbn [rules orig remp originalRanges remappedRanges lastUsed TLB_SIZE add_rule field_upd].
  - apply Forall2_app; [done|]. constructor; [|constructor]. unfold rule_ok. cbn. lia.
  - unfold orig. cbn [originalRanges rules add_rule field_upd].
    rewrite !length_app. fold (orig t). cbn. lia.
  - unfold orig. cbn [originalRanges rules add_rule field_upd]. rewrite length_app. cbn. lia.
  - unfold orig. cbn [originalRanges rules add_rule field_upd].
    rewrite length_app. fold (orig t). cbn. lia.
  - done.
  - done.
Qed.

Lemma updateTLB_ok now v p sz t : tlb_wf t -> slice_ok v p sz ->
  exists t0, make_room t t0 /\ updateTLB now v p sz t = Ok (add_rule now v p sz t0) /\
    tlb_wf (add_rule now v p sz t0).
Proof.
  intros Hwf Hs. unfold updateTLB.
  assert (Hend : forall x, 0 <= x -> x + sz <= 2 ^ 64 -> u64 (u64 (x + sz) - 1) = x + sz - 1).
  { intros. destruct Hs. by apply end_of_range. }
  destruct Hs as (S1 & S2 & S3 & S4 & S5). rewrite !Hend by lia.
  pose proof Hwf as [H1 H2 H3 H4 H5]. rewrite u64_small by lia.
  destruct (Z.leb_spec (TLB_SIZE t) (Z.of_nat (length (orig t)))).
  - destruct (evict_spec t Hwf) as (i & E & Hi); [lia|]. exists (drop_rule i t).
    assert (Hr : make_room t (drop_rule i t)) by (apply room_evict; [lia|done]).
    destruct (make_room_wf _ _ Hwf Hr) as [W1 W2].
    split_and!; [done| |by apply add_rule_wf]. rewrite E. done.
  - exists t. split_and!; [by apply room_free|done|by apply add_rule_wf].
Qed.

(** A translation by rule [i]. *)
Lemma remap_check_ok t a i r r' : tlb_wf t -> find_rule (orig t) a = Some i ->
  orig t !! i = Some r -> remp t !! i = Some r' ->
  remap_check t a = Ok (AR._start r' + (a - AR._start r)) /\
  AR._start r <= a <= AR._end r /\ rule_ok r r'.
Proof.
  intros Hwf F L L'. unfold remap_check. rewrite F.
  destruct (find_rule_some _ _ _ F) as (r0 & L0 & C & _). rewrite L in L0. injection L0 as <-.
  pose proof (Forall2_lookup_lr _ _ _ _ _ _ (wf_rules t Hwf) L L') as Hok.
  destruct (apply_rule_ok _ _ _ _ _ _ L L' Hok C) as [-> _]. split; [done|]. split; [|done].
  by apply AR.contains_bounds.
Qed.

(** [remap] translates like [remap_check] and only touches the statistics and
    the time of use. *)
Lemma remap_hit now t a i : tlb_wf t -> find_rule (orig t) a = Some i ->
  exists t' b, remap now t a = Ok (t', b) /\ remap_check t a = Ok b /\ tlb_wf t' /\
    rules t' = rules t /\ pending_refills t' = pending_refills t /\
    PIM_SLICETABLE_PTR t' = PIM_SLICETABLE_PTR t /\ (forall x, entry_addr t' x = entry_addr t x) /\
    entry_length t' = entry_length t /\ pim_arch t' = pim_arch t /\
    tlb_masterId t' = tlb_masterId t.
Proof.
  intros Hwf F. pose proof Hwf as [H1 H2 H3 H4 H5].
  destruct (find_rule_some _ _ _ F) as (r & L & _).
  pose proof (lookup_lt_Some _ _ _ L) as Hlt.
  destruct (lookup_lt_is_Some_2 (remp t) i) as [r' L']; [rewrite wf_remp; done|].
  destruct (lookup_lt_is_Some_2 (lastUsed t) i) as [lu Lu]; [lia|].
  destruct (remap_check_ok t a i r r' Hwf F L L') as [E _]. unfold remap.
  change (orig t <| TLBAccess := TLBAccess t + 1 |>) with (orig t). rewrite F.
  unfold remap_check in E. rewrite F in E.
  destruct (Nat.ltb_spec 0 i).
  - change (lastUsed t <| TLBAccess := TLBAccess t + 1 |>) with (lastUsed t).
    rewrite Lu. cbn [deref mbind res_bind]. unfold orig, remp in E |- *.
    cbn [rules field_upd]. rewrite E. cbn [mbind res_bind].
    eexists _, _. split; [reflexivity|]. unfold remap_check, orig, remp in *. rewrite F.
    split; [done|]. split; [|done]. split; try done.
    cbn [lastUsed field_upd]. by rewrite length_insert.
  - unfold orig, remp in E |- *. cbn [mbind res_bind rules field_upd]. rewrite E. cbn [mbind res_bind].
    eexists _, _. split; [reflexivity|]. unfold remap_check, orig, remp in *. rewrite F.
    split; [done|]. split; [|done]. split; done.
Qed.

(** ** The slice table, and what a TLB over it should answer *)

Definition word_bytes (t : TLB) : Z := if pim_arch t =? 32 then 4 else 8.

Section Table.

Context {S : Type} {DS : MemDevice S} {LS : MemDeviceLaws S}.

(** The table has one entry of three words per page, from the first page of
    the slices on. *)
Definition entry_place (t : TLB) (a : Z) : res Z :=
  if a <? PIM_SLICEVSTART t then Err AssertFailed
  else Ok ((PIM_SLICETABLE_PTR t +
            3 * (pim_arch t) / 8 * ((a - PIM_SLICEVSTART t) / 2 ^ OS_PAGE_SHIFT t)) mod 2 ^ 64).

Lemma entry_addr_place t a : 0 <= OS_PAGE_SHIFT t -> entry_addr t a = entry_place t a.
Proof.
  intros Hs. unfold entry_addr, entry_place, entry_length, u64.
  destruct (Z.leb_spec (PIM_SLICEVSTART t) a) as [H|H].
  - rewrite (proj2 (Z.ltb_ge _ _)) by lia. cbn [assert_ mbind res_bind].
    rewrite wrap_add_r, Z.shiftr_div_pow2 by lia. by rewrite (Z.mul_comm (_ / 2 ^ _)).
  - by rewrite (proj2 (Z.ltb_lt _ _)).
Qed.

(** The table entry of an address, as it stands in memory. *)
Definition table_entry (t : TLB) (s : S) (a : Z) : res (Z * Z * Z) :=
  ea ← entry_place t a;
  bs ← contents s ea (entry_length t);
  v ← arr_word bs (word_bytes t) 0;
  p ← arr_word bs (word_bytes t) 1;
  sz ← arr_word bs (word_bytes t) 2;
  Ok (v, p, sz).

(** Abstract translation: look the address up in the table. *)
Definition translation (t : TLB) (s : S) (a : Z) : option Z :=
  match table_entry t s a with
  | Ok (v, p, sz) => if (v <=? a) && (a <? v + sz) then Some (p + (a - v)) else None
  | Err _ => None
  end.

(** What an access to [a] needs of the table: when the entry of [a] covers it,
    that is a proper slice, and every page of the slice has the same entry. *)
Definition table_ok (a : Z) (t : TLB) (s : S) : Prop :=
  forall v p sz, table_entry t s a = Ok (v, p, sz) -> v <= a < v + sz ->
    slice_ok v p sz /\ forall a', v <= a' < v + sz -> table_entry t s a' = Ok (v, p, sz).

(** Every dynamic rule says what the table says. *)
Definition coherent (t : TLB) (s : S) : Prop :=
  forall i r r' a, (1 <= i)%nat -> orig t !! i = Some r -> remp t !! i = Some r' ->
    AR.contains r a = true -> translation t s a = Some (AR._start r' + (a - AR._start r)).

(** The part of the TLB the table's place depends on. *)
Definition same_table (t t' : TLB) : Prop :=
  PIM_SLICETABLE_PTR t' = PIM_SLICETABLE_PTR t /\ PIM_SLICEVSTART t' = PIM_SLICEVSTART t /\
  OS_PAGE_SHIFT t' = OS_PAGE_SHIFT t /\ pim_arch t' = pim_arch t.

Lemma same_table_entry t t' s s' a : same_table t t' ->
  (forall x n, contents s' x n = contents s x n) -> table_entry t' s' a = table_entry t s a.
Proof.
  intros (E1 & E2 & E3 & E4) Hc. unfold table_entry, entry_place, entry_length, word_bytes.
  rewrite E1, E2, E3, E4. destruct (a <? _); cbn [mbind res_bind]; [done|]. by rewrite Hc.
Qed.

Lemma same_table_translation t t' s s' a : same_table t t' ->
  (forall x n, contents s' x n = contents s x n) -> translation t' s' a = translation t s a.
Proof. intros H1 H2. unfold translation. by rewrite (same_table_entry t t' s s'). Qed.

Lemma coherent_same t t' s s' : same_table t t' -> rules t' = rules t ->
  (forall x n, contents s' x n = contents s x n) -> coherent t s -> coherent t' s'.
Proof.
  intros H1 H2 H3 Hc i r r' a Hi L L' C. unfold orig, remp in *. rewrite H2 in *.
  rewrite (same_table_translation t t' s s') by done. by eapply (Hc i).
Qed.

(** An entry of the table is added to a coherent TLB. *)
Lemma coherent_add t s now v p sz a : coherent t s -> table_ok a t s -> tlb_wf t ->
  table_entry t s a = Ok (v, p, sz) -> v <= a < v + sz -> coherent (add_rule now v p sz t) s.
Proof.
  intros Hc Ht Hwf He Ha i r r' x Hi L L' C.
  rewrite (same_table_translation t (add_rule now v p sz t) s s) by done.
  unfold orig, remp in L, L'. cbn [rules originalRanges remappedRanges add_rule field_upd] in L, L'.
  destruct (Ht v p sz He Ha) as [_ Hall].
  destruct (decide (i < length (orig t))%nat) as [Hlt|Hge].
  - rewrite lookup_app_l in L by done. rewrite lookup_app_l in L' by (rewrite wf_remp; done).
    by eapply (Hc i).
  - rewrite lookup_app_r in L by lia. rewrite lookup_app_r in L' by (rewrite wf_remp; [lia|done]).
    apply list_lookup_singleton_Some in L as [_ <-].
    apply list_lookup_singleton_Some in L' as [_ <-].
    rewrite AR.contains_plain in C. bool_prop. unfold translation. rewrite Hall by lia.
    rewrite (proj2 (Z.leb_le _ _)), (proj2 (Z.ltb_lt _ _)) by lia. done.
Qed.

Lemma coherent_drop t s i : coherent t s -> tlb_wf t -> least_used t i -> coherent (drop_rule i t) s.
Proof.
  intros Hc Hwf [Hi _] j r r' x Hj L L' C.
  rewrite (same_table_translation t (drop_rule i t) s s) by done.
  change (orig (drop_rule i t)) with (delete i (orig t)) in L.
  change (remp (drop_rule i t)) with (delete i (remp t)) in L'.
  destruct (decide (j < i)%nat).
  - rewrite list_lookup_delete_lt in L, L' by done. by eapply (Hc j).
  - rewrite list_lookup_delete_ge in L, L' by lia. eapply (Hc (Datatypes.S j)); eauto.
Qed.

Lemma table_ok_same a t t' s s' : same_table t t' -> (forall x n, contents s' x n = contents s x n) ->
  table_ok a t s -> table_ok a t' s'.
Proof.
  intros Hst Hc Ht v p sz He Hin. rewrite (same_table_entry t t' s s') in He by done.
  destruct (Ht v p sz He Hin) as [H1 H2]. split; [done|]. intros a' Ha'.
  rewrite (same_table_entry t t' s s') by done. by apply H2.
Qed.

Lemma find_rule_delete rs i a : find_rule rs a = None -> find_rule (delete i rs) a = None.
Proof.
  rewrite !find_rule_none. intros Hf r Hr. apply Hf. apply list_elem_of_lookup in Hr as [j Hr].
  destruct (decide (j < i)%nat); [rewrite list_lookup_delete_lt in Hr by done|
    rewrite list_lookup_delete_ge in Hr by lia]; eapply list_elem_of_lookup_2; eauto.
Qed.

(** What refills leave alone. *)
Definition same_static (t t' : TLB) : Prop :=
  same_table t t' /\ pending_refills t' = pending_refills t /\ tlb_masterId t' = tlb_masterId t /\
  orig t' !! 0%nat = orig t !! 0%nat /\ remp t' !! 0%nat = remp t !! 0%nat.

Lemma make_room_coherent t t0 s : coherent t s -> tlb_wf t -> make_room t t0 ->
  coherent t0 s /\ same_static t t0 /\
  forall a, find_rule (orig t) a = None -> find_rule (orig t0) a = None.
Proof.
  intros Hc Hwf [Hlt|i Hlt Hi]; [done|]. split; [by apply coherent_drop|]. split.
  - destruct Hi as [[Hi _] _]. split_and!; try done;
      [change (orig (drop_rule i t)) with (delete i (orig t))
      |change (remp (drop_rule i t)) with (delete i (remp t))];
      by rewrite list_lookup_delete_lt by lia.
  - intros a Hf. by apply find_rule_delete.
Qed.

Lemma install_entry_words now t s pkt a ea bs v p sz :
  0 <= OS_PAGE_SHIFT t -> pim_arch t = 32 \/ pim_arch t = 64 ->
  entry_addr t a = Ok ea -> contents s ea (entry_length t) = Ok bs -> getPtr pkt = Ok bs ->
  table_entry t s a = Ok (v, p, sz) -> install_entry now pkt t = updateTLB now v p sz t.
Proof.
  intros Hsh Ha Hea Hbs Hp He.
  assert (Hw : forall i, arch_word t i pkt = arr_word bs (word_bytes t) i).
  { intros i. unfold arch_word, getPtr_word, word_bytes. rewrite Hp. by destruct Ha as [-> | ->]. }
  unfold install_entry. rewrite !Hw. unfold table_entry in He.
  rewrite <- entry_addr_place, Hea in He by done.
  cbn [mbind res_bind] in He. rewrite Hbs in He. cbn [mbind res_bind] in He.
  by res_inv.
Qed.

(** A table entry is cached: the TLB stays coherent and answers for it. *)
Lemma updateTLB_coherent now t s a v p sz : tlb_wf t -> coherent t s -> table_ok a t s ->
  find_rule (orig t) a = None -> table_entry t s a = Ok (v, p, sz) -> v <= a < v + sz ->
  exists t', updateTLB now v p sz t = Ok t' /\ tlb_wf t' /\ coherent t' s /\ same_static t t' /\
    exists i, find_rule (orig t') a = Some i /\ (1 <= i)%nat.
Proof.
  intros Hwf Hc Ht Hf He Hin. destruct (Ht v p sz He Hin) as [Hs _].
  destruct (updateTLB_ok now v p sz t Hwf Hs) as (t0 & Hroom & E & Hwf').
  destruct (make_room_coherent t t0 s Hc Hwf Hroom) as (Hc0 & Hst & Hn).
  destruct (make_room_wf _ _ Hwf Hroom) as [W0 _]. pose proof (wf_static t0 W0) as W1.
  exists (add_rule now v p sz t0). destruct Hst as (Hst & E1 & E2 & E3 & E4).
  split; [done|]. split; [done|].
  split; [|split; [split; [exact Hst|split; [exact E1|split; [exact E2|split]]]|]].
  - eapply (coherent_add t0 s now v p sz a); try done; [by eapply table_ok_same|].
    by rewrite (same_table_entry t t0 s s).
  - change (orig (add_rule now v p sz t0)) with (orig t0 ++ [AR.AddrRange2 v (v + sz - 1)]).
    rewrite lookup_app_l by lia. done.
  - change (remp (add_rule now v p sz t0)) with (remp t0 ++ [AR.AddrRange2 p (p + sz - 1)]).
    rewrite lookup_app_l by (rewrite wf_remp; [lia|done]). done.
  - exists (length (orig t0)). split; [|done].
    change (orig (add_rule now v p sz t0)) with (orig t0 ++ [AR.AddrRange2 v (v + sz - 1)]).
    apply find_rule_app; [by apply Hn|]. rewrite AR.contains_plain.
    apply andb_true_intro. rewrite !Z.leb_le. lia.
Qed.

(** The request for an entry. *)
Lemma refill_packet_ok t ea : pim_arch t = 32 \/ pim_arch t = 64 -> inw 64 ea ->
  exists pkt, refill_packet t ea = Ok pkt /\
    read_request pkt (replicate (Z.to_nat (entry_length t)) 0) /\
    addr pkt = ea /\ psize pkt = entry_length t.
Proof.
  intros Ha He. assert (HL : 0 <= entry_length t < 2 ^ 31).
  { unfold entry_length. destruct Ha as [-> | ->]; [change (3 * 32 / 8) with 12|change (3 * 64 / 8) with 24]; lia. }
  unfold refill_packet, Request_new. rewrite (proj2 (Z.leb_le _ _)) by lia.
  generalize dependent (entry_length t). intros L HL. cbn [assert_ mbind res_bind].
  eexists. split; [reflexivity|]. split; [|done].
  split; [split; [|reflexivity]|reflexivity..].
  split; [reflexivity|]. split; [reflexivity|]. split; [exact He|]. split; [exact HL|].
  intros d [= <-]. split; [reflexivity|]. rewrite length_replicate.
  transitivity L; [lia|reflexivity].
Qed.

Lemma entry_addr_range t a ea : entry_addr t a = Ok ea -> inw 64 ea.
Proof. unfold entry_addr. intros H. res_inv. apply u64_range. Qed.

(** The outcome of refilling for [a]. *)
Definition refilled (a : Z) (t : TLB) (s : S) (t' : TLB) (s' : S) : Prop :=
  tlb_wf t' /\ coherent t' s' /\ same_static t t' /\ dev_ok s' /\
  (forall x n, contents s' x n = contents s x n) /\
  exists i, find_rule (orig t') a = Some i /\ (1 <= i)%nat.

(** The state a refill for [a] starts from. *)
Record can_refill (a : Z) (t : TLB) (s : S) : Prop := {
  cr_wf : tlb_wf t;
  cr_coherent : coherent t s;
  cr_table : table_ok a t s;
  cr_dev : dev_ok s;
  cr_arch : pim_arch t = 32 \/ pim_arch t = 64;
  cr_pending : pending_refills t = []
}.

Lemma translation_entry t s a b : tlb_wf t -> translation t s a = Some b ->
  exists ea bs v p sz, entry_addr t a = Ok ea /\ contents s ea (entry_length t) = Ok bs /\
    table_entry t s a = Ok (v, p, sz) /\ v <= a < v + sz /\ b = p + (a - v).
Proof.
  intros Hwf. unfold translation. destruct (table_entry t s a) as [[[v p] sz]|] eqn:E; [|done].
  case_if; [|done]. intros [= <-]. bool_prop. pose proof E as E'. unfold table_entry in E'.
  rewrite <- entry_addr_place in E' by apply (wf_shift t Hwf).
  destruct (entry_addr t a) as [ea|] eqn:Hea; cbn [mbind res_bind] in E'; [|done].
  destruct (contents s ea (entry_length t)) as [bs|] eqn:Hbs; cbn [mbind res_bind] in E'; [|done].
  exists ea, bs, v, p, sz. split_and!; try done.
Qed.

(** The reply to an entry request, from either protocol. *)
Lemma refill_reply now a t s s' pkt pkt' ea bs v p sz :
  can_refill a t s -> find_rule (orig t) a = None ->
  entry_addr t a = Ok ea -> contents s ea (entry_length t) = Ok bs ->
  table_entry t s a = Ok (v, p, sz) -> v <= a < v + sz ->
  psize pkt = entry_length t -> read_reply pkt pkt' bs -> dev_ok s' ->
  (forall x n, contents s' x n = contents s x n) ->
  exists t', (sz ← getSize pkt'; _ ← assert_ (sz =? entry_length t);
              t ← install_entry now pkt' t; Ok (t, s')) = Ok (t', s') /\ refilled a t s t' s'.
Proof.
  intros [Hwf Hc Ht _ Ha _] Hf Hea Hbs He Hin Hsz [R1 R2 _] Hd Hs'.
  destruct (updateTLB_coherent now t s a v p sz Hwf Hc Ht Hf He Hin) as (t' & U & W & C & St & Hi).
  rewrite R2, Hsz. cbn [mbind res_bind]. rewrite Z.eqb_refl. cbn [assert_ mbind res_bind].
  rewrite (install_entry_words now t s pkt' a ea bs v p sz) by (done || apply Hwf). rewrite U.
  cbn [mbind res_bind]. exists t'. split; [done|]. split_and!; try done.
  by eapply coherent_same, C.
Qed.

Lemma refillTLB_atomic_ok now a t s b : can_refill a t s -> find_rule (orig t) a = None ->
  translation t s a = Some b ->
  exists t' s', refillTLB_atomic now a t s = Ok (t', s') /\ refilled a t s t' s'.
Proof.
  intros Hcr Hf Htr.
  destruct (translation_entry _ _ _ _ (cr_wf a t s Hcr) Htr) as (ea & bs & v & p & sz & Hea & Hbs & He & Hin & _).
  unfold refillTLB_atomic, pending_refill. rewrite Hea, (cr_pending a t s Hcr). cbn [mbind res_bind].
  rewrite bool_decide_false by apply not_elem_of_nil.
  destruct (refill_packet_ok t ea (cr_arch a t s Hcr) (entry_addr_range t a ea Hea))
    as (pkt & -> & Hr & Ea & Es). cbn [mbind res_bind].
  destruct (atomic_read now s pkt _ bs (cr_dev a t s Hcr) Hr) as (s' & pkt' & tk & -> & R & Hd & Hs');
    [by rewrite Ea, Es|]. cbn [mbind res_bind].
  destruct (refill_reply now a t s s' pkt pkt' ea bs v p sz) as (t' & E & Hre); try done.
  exists t', s'. split; [exact E|done].
Qed.

Lemma refillTLB_functional_ok now a t s b : can_refill a t s -> find_rule (orig t) a = None ->
  translation t s a = Some b ->
  exists t' s', refillTLB_functional now a t s = Ok (t', s') /\ refilled a t s t' s'.
Proof.
  intros Hcr Hf Htr.
  destruct (translation_entry _ _ _ _ (cr_wf a t s Hcr) Htr) as (ea & bs & v & p & sz & Hea & Hbs & He & Hin & _).
  unfold refillTLB_functional, pending_refill. rewrite Hea, (cr_pending a t s Hcr). cbn [mbind res_bind].
  rewrite bool_decide_false by apply not_elem_of_nil.
  destruct (refill_packet_ok t ea (cr_arch a t s Hcr) (entry_addr_range t a ea Hea))
    as (pkt & -> & Hr & Ea & Es). cbn [mbind res_bind].
  destruct (functional_read s pkt _ bs (cr_dev a t s Hcr) Hr) as (s' & pkt' & -> & R & Hd & Hs');
    [by rewrite Ea, Es|]. cbn [mbind res_bind].
  destruct (refill_reply now a t s s' pkt pkt' ea bs v p sz) as (t' & E & Hre); try done.
  exists t', s'. split; [exact E|done].
Qed.

(** A hit in a dynamic rule of a coherent TLB is the table's answer. *)
Lemma hit_translation now t s a i : tlb_wf t -> coherent t s -> table_ok a t s ->
  find_rule (orig t) a = Some i -> (1 <= i)%nat ->
  exists t' b, remap now t a = Ok (t', b) /\ translation t s a = Some b /\ b <> TLB_MISS /\
    tlb_wf t' /\ coherent t' s /\ same_static t t'.
Proof.
  intros Hwf Hc Ht F Hi. destruct (remap_hit now t a i Hwf F) as
    (t' & b & E & Ec & W & Er & Ep & E1 & _ & _ & E4 & E5).
  destruct (find_rule_some _ _ _ F) as (r & L & C & _).
  destruct (lookup_lt_is_Some_2 (remp t) i) as [r' L'];
    [rewrite wf_remp by done; by eapply lookup_lt_Some|].
  destruct (remap_check_ok t a i r r' Hwf F L L') as (Ec' & _ & _). rewrite Ec in Ec'.
  injection Ec' as Eb. pose proof (Hc i r r' a Hi L L' C) as Htr. rewrite <- Eb in Htr.
  assert (Hst : same_table t t').
  { revert E. unfold remap. destruct (find_rule _ a); [|by case_if].
    intros H. res_inv. by case_if_in Hm; res_inv. }
  exists t', b. split_and!; try done.
  - destruct (translation_entry _ _ _ _ Hwf Htr) as (ea & bs & v & p & sz & _ & _ & He & Hin & ->).
    destruct (Ht v p sz He Hin) as [(S1 & S2 & S3 & S4 & S5) _]. unfold TLB_MISS, u64_max. lia.
  - by eapply coherent_same, Hc.
  - split; [exact Hst|]. split_and!; try done; unfold orig, remp; by rewrite Er.
Qed.

(** An access to memory, not to one of the TLB's registers. *)
Definition plain_access (t : TLB) (pkt : Packet) : Prop :=
  addr pkt <> PIM_DTLB_IDEAL_REFILL_REG t /\
  (isWrite pkt = true -> addr pkt <> HMC_ATOMIC_INCR t /\ addr pkt <> HMC_ATOMIC_FADD t /\
     addr pkt <> HMC_ATOMIC_IMIN t /\ addr pkt <> HMC_OPERAND t).

Lemma plain_check t pkt : pkt_wf pkt -> plain_access t pkt ->
  check_hmc_command t pkt = Ok (t, pkt, 0).
Proof.
  intros Hwf [_ Hp]. unfold check_hmc_command. rewrite getAddr_ok by done. cbn [mbind res_bind].
  destruct (addr pkt =? 0); [done|]. destruct (isWrite pkt) eqn:Hw.
  - destruct (Hp eq_refl) as (H1 & H2 & H3 & H4). rewrite !(proj2 (Z.eqb_neq _ _)) by done.
    done.
  - rewrite !andb_false_r. cbn [mbind res_bind]. by rewrite Hw, andb_false_r.
Qed.

(** A miss is counted and reported. *)
Lemma remap_miss now t a : find_rule (orig t) a = None -> PIM_SLICETABLE_PTR t <> 0 ->
  remap now t a = Ok (t <| TLBAccess := TLBAccess t + 1 |> <| TLBMiss := TLBMiss t + 1 |>, TLB_MISS).
Proof.
  intros F Hp. unfold remap. change (orig t <| TLBAccess := TLBAccess t + 1 |>) with (orig t).
  rewrite F. change (PIM_SLICETABLE_PTR t <| TLBAccess := TLBAccess t + 1 |>) with (PIM_SLICETABLE_PTR t).
  by rewrite (proj2 (Z.eqb_neq _ _)).
Qed.

(** Translation by lookup, refill on a miss, and lookup again, as [recvAtomic]
    does it. *)
Lemma lookup_refill now a t s b : can_refill a t s -> PIM_SLICETABLE_PTR t <> 0 ->
  find_rule (orig t) a <> Some 0%nat -> translation t s a = Some b ->
  exists t' s', ('(t, x) ← remap now t a;
                 if x =? TLB_MISS then
                   '(t, s) ← refillTLB_atomic now a t s;
                   '(t, x) ← remap now t a;
                   if x =? TLB_MISS then panic else Ok (t, s, x)
                 else Ok (t, s, x)) = Ok (t', s', b) /\
    tlb_wf t' /\ coherent t' s' /\ same_static t t' /\ dev_ok s' /\
    forall x n, contents s' x n = contents s x n.
Proof.
  intros Hcr Hptr H0 Htr. pose proof Hcr as [Hwf Hc Ht Hd Ha Hp].
  destruct (find_rule (orig t) a) as [i|] eqn:F.
  - destruct (hit_translation now t s a i) as (t' & b' & E & Etr & Hb & W & C & St); try done;
      [destruct i; [done|lia]|].
    rewrite E. cbn [mbind res_bind]. rewrite (proj2 (Z.eqb_neq _ _)) by done.
    rewrite Htr in Etr. injection Etr as ->. exists t', s. done.
  - rewrite remap_miss by done. cbn [mbind res_bind]. rewrite Z.eqb_refl.
    set (t1 := t <| TLBAccess := _ |> <| TLBMiss := _ |>).
    assert (W1 : tlb_wf t1) by (destruct Hwf; split; done).
    assert (Hcr1 : can_refill a t1 s) by (split; done).
    destruct (refillTLB_atomic_ok now a t1 s b Hcr1 F Htr) as (t2 & s2 & -> & W2 & C2 & St2 & D2 & S2 & i & F2 & Hi).
    cbn [mbind res_bind].
    assert (T2 : table_ok a t2 s2) by (eapply (table_ok_same a t1 t2 s s2); [apply St2|done|exact Ht]).
    destruct (hit_translation now t2 s2 a i) as (t3 & b' & E & Etr & Hb & W & C & St); try done.
    rewrite E. cbn [mbind res_bind]. rewrite (proj2 (Z.eqb_neq _ _)) by done.
    rewrite (same_table_translation t1 t2 s s2) in Etr by (try apply St2; done).
    change (translation t1 s a) with (translation t s a) in Etr. rewrite Htr in Etr. injection Etr as ->.
    exists t3, s2. split; [done|]. split; [done|]. split; [done|]. split; [|done].
    destruct St2 as ((A1 & A2 & A3 & A4) & A5 & A6 & A7 & A8).
    destruct St as ((B1 & B2 & B3 & B4) & B5 & B6 & B7 & B8).
    repeat split; etransitivity; eauto.
Qed.

(** An access that is not to a register is translated and sent on. *)
Lemma recvAtomic_lookup now pkt t s t' s1 b : pkt_wf pkt -> plain_access t pkt ->
  ('(t, x) ← remap now t (addr pkt);
   if x =? TLB_MISS then
     '(t, s) ← refillTLB_atomic now (addr pkt) t s;
     '(t, x) ← remap now t (addr pkt);
     if x =? TLB_MISS then panic else Ok (t, s, x)
   else Ok (t, s, x)) = Ok (t', s1, b) ->
  recvAtomic now pkt t s =
    ('(s2, q, tick) ← sendAtomic now (pkt <| addr := b |>) s1;
     q ← setAddr (addr pkt) q; Ok (t', s2, q, tick)).
Proof.
  intros Hwf Hpl E. unfold recvAtomic. rewrite getAddr_ok by done. cbn [mbind res_bind].
  rewrite (proj2 (Z.eqb_neq (addr pkt) _)) by apply Hpl. rewrite andb_false_r.
  rewrite plain_check by done. cbn [mbind res_bind Z.eqb].
  destruct (remap now t (addr pkt)) as [[t2 x]|]; cbn [mbind res_bind] in *; [|done].
  rewrite E. cbn [mbind res_bind]. rewrite setAddr_ok by done. done.
Qed.

(** C4. The TLB refines the slice table.  Whether an address hits or misses, an
    atomic access to it reaches memory at the address the table gives, the
    TLB stays well formed and coherent with the table, the static rule stays
    in place, and the packet comes back with its own address. *)
Theorem recvAtomic_refines_table (now : Z) (pkt : Packet) (t : TLB) (s : S) (b : Z) :
  can_refill (addr pkt) t s -> pkt_wf pkt -> plain_access t pkt -> PIM_SLICETABLE_PTR t <> 0 ->
  find_rule (orig t) (addr pkt) <> Some 0%nat -> translation t s (addr pkt) = Some b ->
  exists t' s1,
    recvAtomic now pkt t s =
      ('(s2, q, tick) ← sendAtomic now (pkt <| addr := b |>) s1;
       q ← setAddr (addr pkt) q; Ok (t', s2, q, tick)) /\
    tlb_wf t' /\ coherent t' s1 /\ same_static t t' /\ dev_ok s1 /\
    forall x n, contents s1 x n = contents s x n.
Proof.
  intros Hcr Hwf Hpl Hptr H0 Htr.
  destruct (lookup_refill now (addr pkt) t s b Hcr Hptr H0 Htr) as (t' & s1 & E & Hrest).
  exists t', s1. split; [|exact Hrest]. by apply recvAtomic_lookup.
Qed.

(** The timing counterpart: the response to a refill request ends the pending
    refill, installs the entry, asks the processor to try again, and the TLB
    then answers for the address. *)
Theorem recvTimingResp_refills {U} {MU : MasterSide U} (now a : Z) (t : TLB) (s : S) (u u' : U)
    (pkt : Packet) (ea : Z) (bs : list Z) (b : Z) l :
  tlb_wf t -> coherent t s -> table_ok a t s -> pim_arch t = 32 \/ pim_arch t = 64 ->
  find_rule (orig t) a = None -> translation t s a = Some b ->
  entry_addr t a = Ok ea -> contents s ea (entry_length t) = Ok bs ->
  senderState pkt = [] -> getAddr pkt = Ok ea -> getSize pkt = Ok (entry_length t) ->
  getPtr pkt = Ok bs -> erase_first ea (pending_refills t) = Some l -> sendRetry u = Ok u' ->
  exists t', recvTimingResp now pkt t u = Ok (t', u', pkt, true) /\ tlb_wf t' /\ coherent t' s /\
    pending_refills t' = l /\ remap_check t' a = Ok b.
Proof.
  intros Hwf Hc Ht Ha Hf Htr Hea Hbs Hss Hga Hgs Hp Hl Hu.
  destruct (translation_entry _ _ _ _ Hwf Htr) as (ea' & bs' & v & p & sz & _ & _ & He & Hin & _).
  set (t1 := t <| pending_refills := l |>).
  assert (W1 : tlb_wf t1) by (destruct Hwf; split; done).
  destruct (updateTLB_coherent now t1 s a v p sz) as (t' & U' & W & C & St & i & F & Hi); try done.
  exists t'. unfold recvTimingResp. rewrite Hss, Hgs. cbn [mbind res_bind].
  rewrite Z.eqb_refl. cbn [assert_ mbind res_bind]. rewrite Hga. cbn [mbind res_bind].
  unfold remove_pending_refill. rewrite Hl. cbn [negb]. fold t1.
  rewrite (install_entry_words now t1 s pkt a ea bs v p sz) by (done || apply Hwf). rewrite U', Hu.
  destruct (hit_translation now t' s a i W C) as (t2 & b' & E & Etr & _); [|done..|].
  { eapply (table_ok_same a t1 t'); [apply St|done|exact Ht]. }
  split_and!; try done; [apply St|].
  destruct (remap_hit now t' a i W F) as (t3 & b3 & E3 & Ec & _). rewrite E in E3.
  injection E3 as <- <-. rewrite (same_table_translation t1 t' s s) in Etr by (try apply St; done).
  change (translation t1 s a) with (translation t s a) in Etr. rewrite Htr in Etr.
  by injection Etr as ->.
Qed.

End Table.

(** Replacement.  Caching a slice keeps the TLB within its size and its static
    rule in place; a full TLB gives up one dynamic rule, and none was used
    less recently. *)
Theorem updateTLB_lru (now v p sz : Z) (t : TLB) : tlb_wf t -> slice_ok v p sz ->
  exists t', updateTLB now v p sz t = Ok t' /\ tlb_wf t' /\
    orig t' !! 0%nat = orig t !! 0%nat /\ remp t' !! 0%nat = remp t !! 0%nat /\
    last (orig t') = Some (AR.AddrRange2 v (v + sz - 1)) /\
    last (remp t') = Some (AR.AddrRange2 p (p + sz - 1)) /\ last (lastUsed t') = Some now /\
    (if Z.of_nat (length (orig t)) <? TLB_SIZE t
     then removelast (orig t') = orig t
     else exists i, least_used t i /\ removelast (orig t') = delete i (orig t) /\
            removelast (remp t') = delete i (remp t)).
Proof.
  intros Hwf Hs. destruct (updateTLB_ok now v p sz t Hwf Hs) as (t0 & Hr & E & W).
  destruct (make_room_wf _ _ Hwf Hr) as [W0 _]. pose proof (wf_static _ W0) as L0.
  exists (add_rule now v p sz t0). split; [done|]. split; [done|].
  change (orig (add_rule now v p sz t0)) with (orig t0 ++ [AR.AddrRange2 v (v + sz - 1)]).
  change (remp (add_rule now v p sz t0)) with (remp t0 ++ [AR.AddrRange2 p (p + sz - 1)]).
  change (lastUsed (add_rule now v p sz t0)) with (lastUsed t0 ++ [now]).
  rewrite !last_snoc, !removelast_last, !lookup_app_l by (rewrite ?wf_remp by done; lia).
  destruct Hr as [Hlt|i Hlt Hi].
  - rewrite (proj2 (Z.ltb_lt _ _)) by lia. done.
  - rewrite (proj2 (Z.ltb_ge _ _)) by lia. destruct Hi as [[Hi1 Hi2] Hi3].
    change (orig (drop_rule i t)) with (delete i (orig t)).
    change (remp (drop_rule i t)) with (delete i (remp t)).
    rewrite !list_lookup_delete_lt by lia. split_and!; try done. exists i. done.
Qed.

Section Requests.

Context {S U : Type} {DS : MemDevice S} {MU : MasterSide U}.

(** At most one refill is in flight per table entry, and a refill that could
    not be sent leaves nothing pending. *)
Theorem refillTLB_timing_once (now a ea : Z) (t t' : TLB) (s s' : S) (ok : bool) :
  NoDup (pending_refills t) -> entry_addr t a = Ok ea ->
  refillTLB_timing now a t s = Ok (t', s', ok) ->
  NoDup (pending_refills t') /\ (ok = true -> ea ∈ pending_refills t') /\
  (ok = false -> t' = t) /\ (ea ∈ pending_refills t -> s' = s /\ t' = t).
Proof.
  intros Hn Hea. unfold refillTLB_timing, pending_refill. rewrite Hea. cbn [mbind res_bind].
  destruct (bool_decide_reflect (ea ∈ pending_refills t)) as [Hin|Hin].
  - intros [= <- <- <-]. done.
  - intros Hr. res_inv. case_if_in Hr; res_inv.
    + cbn [pending_refills field_upd]. rewrite removelast_last.
      split; [done|]. split; [done|]. split; [|done]. intros _. by destruct t.
    + cbn [pending_refills field_upd]. split_and!; try done.
      * apply NoDup_app. split_and!; [done| |apply NoDup_singleton].
        intros x Hx ->%list_elem_of_singleton. done.
      * intros _. apply elem_of_app. right. by apply list_elem_of_singleton.
Qed.

(** A functional access that misses is not refilled: it stops the simulator. *)
Theorem recvFunctional_cases (now : Z) (pkt : Packet) (t : TLB) (s : S) :
  tlb_wf t -> pkt_wf pkt -> addr pkt <> PIM_DTLB_IDEAL_REFILL_REG t ->
  (forall i b, find_rule (orig t) (addr pkt) = Some i -> remap_check t (addr pkt) = Ok b ->
     b <> TLB_MISS ->
     exists t', rules t' = rules t /\ recvFunctional now pkt t s =
       ('(s', q) ← sendFunctional (pkt <| addr := b |>) s; q ← setAddr (addr pkt) q; Ok (t', s', q))) /\
  (find_rule (orig t) (addr pkt) = None -> recvFunctional now pkt t s = Err Panic).
Proof.
  intros Hwf Hpwf Hreg. unfold recvFunctional. rewrite getAddr_ok by done. cbn [mbind res_bind].
  rewrite (proj2 (Z.eqb_neq (addr pkt) _)) by done. rewrite andb_false_r. split.
  - intros i b F Ec Hb. destruct (remap_hit now t (addr pkt) i Hwf F) as (t' & b' & E & Ec' & _ & Er & _).
    rewrite Ec in Ec'. injection Ec' as <-. exists t'. split; [done|].
    rewrite E. cbn [mbind res_bind]. rewrite (proj2 (Z.eqb_neq _ _)) by done.
    rewrite setAddr_ok by done. done.
  - intros F. destruct (Z.eqb_spec (PIM_SLICETABLE_PTR t) 0) as [Hz|Hz].
    + unfold remap. change (orig t <| TLBAccess := TLBAccess t + 1 |>) with (orig t). rewrite F.
      change (PIM_SLICETABLE_PTR t <| TLBAccess := TLBAccess t + 1 |>) with (PIM_SLICETABLE_PTR t).
      by rewrite Hz.
    + rewrite remap_miss by done. done.
Qed.

(** An atomic HMC increment whose target is not cached is refilled for the
    address of the command register instead of the target; with the register
    below the slices that is an assertion failure. *)
Theorem hmc_atomic_miss (now c : Z) (pkt : Packet) (t : TLB) (s : S) :
  pkt_wf pkt -> isWrite pkt = true -> addr pkt = HMC_ATOMIC_INCR t -> addr pkt <> 0 ->
  addr pkt <> PIM_DTLB_IDEAL_REFILL_REG t -> addr pkt <> HMC_OPERAND t ->
  psize pkt = pim_arch t / 8 -> arch_word t 0 pkt = Ok c -> c <> 0 -> c <> TLB_MISS ->
  find_rule (orig t) c = None -> PIM_SLICETABLE_PTR t <> 0 -> addr pkt < PIM_SLICEVSTART t ->
  recvAtomic now pkt t s = Err AssertFailed.
Proof.
  intros Hwf Hw Ha H0 Hreg Hop Hsz Hc Hc0 Hcm F Hptr Hlow. unfold recvAtomic.
  rewrite getAddr_ok by done. cbn [mbind res_bind].
  rewrite (proj2 (Z.eqb_neq (addr pkt) (PIM_DTLB_IDEAL_REFILL_REG t))) by done. rewrite andb_false_r.
  unfold check_hmc_command. rewrite getAddr_ok by done. cbn [mbind res_bind].
  rewrite (proj2 (Z.eqb_neq (addr pkt) 0)) by done.
  rewrite <- Ha, Z.eqb_refl, Hw. cbn [andb].
  unfold hmc_register. rewrite getSize_ok by done. cbn [mbind res_bind].
  rewrite Hsz, Z.eqb_refl. cbn [assert_ mbind res_bind]. rewrite Hc. cbn [mbind res_bind].
  rewrite (proj2 (Z.eqb_neq c TLB_MISS)) by done. cbn [negb assert_ mbind res_bind].
  rewrite (proj2 (Z.eqb_neq c 0)) by done. cbn [mbind res_bind].
  rewrite (proj2 (Z.eqb_neq (addr pkt) (HMC_OPERAND t))) by done. cbn [andb mbind res_bind].
  rewrite (proj2 (Z.eqb_neq c 0)) by done. rewrite remap_miss by done. cbn [mbind res_bind].
  rewrite Z.eqb_refl. unfold refillTLB_atomic, entry_addr.
  change (PIM_SLICEVSTART t <| TLBAccess := _ |> <| TLBMiss := _ |>) with (PIM_SLICEVSTART t).
  by rewrite (proj2 (Z.leb_gt _ _)).
Qed.

End Requests.

(** ** Witnesses

    A memory whose slice table at address 64 has one entry, for the slice of
    16 bytes at virtual address 4096, physical address 96. *)
Definition ex_table : list Z := le_bytes 4 4096 ++ le_bytes 4 96 ++ le_bytes 4 16.
Definition ex_main : SimpleMemory :=
  ex_sm <| sm_mem := (ex_mem []) <| range := AR.AddrRange2 64 127 |>
                                 <| pmemAddr := Some (ex_table ++ replicate 52 0) |> |>.
Definition ex_tlb : TLB :=
  (TLB_new (mkMapper [AR.AddrRange2 0 15] [AR.AddrRange2 1024 1039]) 4 2 false 8 4 5 6 7 0 32)
    <| PIM_SLICETABLE_PTR := 64 |> <| PIM_SLICEVSTART := 4096 |>.
Definition ex_access : Packet := (ex_pkt ReadReq) <| addr := 4100 |>.

#[local] Instance ex_dev : MemDevice SimpleMemory := SimpleMemory_device ex_random.
#[local] Instance ex_laws : MemDeviceLaws SimpleMemory := SimpleMemory_laws ex_random.

Definition ex_words (ea : Z) : res (Z * Z * Z) :=
  bs ← sm_contents ex_main ea 12;
  v ← arr_word bs 4 0; p ← arr_word bs 4 1; sz ← arr_word bs 4 2; Ok (v, p, sz).

(** Every other place in the memory reads as an empty slice. *)
Lemma ex_words_inv ea v p sz : ex_words ea = Ok (v, p, sz) -> sz = 0 \/ ea = 64 /\ v = 4096 /\ p = 96 /\ sz = 16.
Proof.
  intros E. assert (Hr : 64 <= ea <= 116).
  { unfold ex_words in E. destruct (sm_contents ex_main ea 12) eqn:Ec; [|done].
    apply sm_contents_covers in Ec as [(_ & C1 & C2) _]. cbn in C1, C2. lia. }
  assert (H : forallb (fun k => match ex_words (64 + Z.of_nat k) with
              | Ok (v, p, sz) => (sz =? 0) || ((Z.of_nat k =? 0) && (v =? 4096) && (p =? 96) && (sz =? 16))
              | Err _ => true end) (seq 0 53) = true) by (vm_compute; reflexivity).
  rewrite forallb_forall in H. specialize (H (Z.to_nat (ea - 64))).
  rewrite Z2Nat.id in H by lia. replace (64 + (ea - 64)) with ea in H by lia. rewrite E in H.
  assert (Hin : In (Z.to_nat (ea - 64)) (seq 0 53)) by (apply in_seq; lia).
  specialize (H Hin). apply orb_prop in H as [H|H]; bool_prop; [by left|right]. lia.
Qed.

Lemma ex_entry a : table_entry ex_tlb ex_main a = (ea ← entry_addr ex_tlb a; ex_words ea).
Proof. by rewrite entry_addr_place. Qed.

Lemma ex_entry_in a : 4096 <= a < 4112 -> table_entry ex_tlb ex_main a = Ok (4096, 96, 16).
Proof.
  intros Ha. rewrite ex_entry. unfold entry_addr.
  change (PIM_SLICEVSTART ex_tlb) with 4096. rewrite (proj2 (Z.leb_le _ _)) by lia.
  cbn [assert_ mbind res_bind]. change (OS_PAGE_SHIFT ex_tlb) with 4.
  rewrite Z.shiftr_div_pow2, Z.div_small by lia. vm_compute. reflexivity.
Qed.

Lemma ex_table_ok a : table_ok a ex_tlb ex_main.
Proof.
  intros v p sz He Hin. pose proof He as He'. rewrite ex_entry in He'. res_inv.
  apply ex_words_inv in He' as [-> | (-> & -> & -> & ->)]; [lia|].
  split; [unfold slice_ok; lia|]. intros a' Ha'. apply ex_entry_in. lia.
Qed.

Lemma ex_tlb_wf : tlb_wf ex_tlb.
Proof. split; try done. repeat constructor; unfold rule_ok; cbn; lia. Qed.

Lemma ex_coherent : coherent ex_tlb ex_main.
Proof. intros [|[|i]] r r' a Hi L; cbn in L; [lia|done..]. Qed.

Lemma ex_can_refill : can_refill 4100 ex_tlb ex_main.
Proof.
  split; [apply ex_tlb_wf|apply ex_coherent|apply ex_table_ok|done| |done]. by left.
Qed.

Lemma ex_access_wf : pkt_wf ex_access.
Proof. apply pkt_wf_setAddr; [unfold inw; lia|apply (ex_pkt_bytes ReadReq)]. Qed.

Lemma recvAtomic_refines_table_witness :
  exists t' s1, recvAtomic 9 ex_access ex_tlb ex_main =
      ('(s2, q, tick) ← sendAtomic 9 (ex_access <| addr := 100 |>) s1;
       q ← setAddr 4100 q; Ok (t', s2, q, tick)) /\ tlb_wf t'.
Proof.
  destruct (recvAtomic_refines_table 9 ex_access ex_tlb ex_main 100) as (t' & s1 & E & W & _).
  - exact ex_can_refill.
  - exact ex_access_wf.
  - by split.
  - done.
  - done.
  - vm_compute. reflexivity.
  - exists t', s1. split; [exact E|exact W].
Defined.

(** The response to the refill request for address 4100. *)
Definition ex_refill_resp : Packet :=
  mkPacket false 0 0 (Z.lor (Z.lor VALID_ADDR VALID_SIZE) (Z.lor DYNAMIC_DATA ARRAY_DATA)) ReadResp
    ex_req (Some ex_table) 64 false 12 InvalidPortID 0 ReadReq 0 0 0 0 [].

Lemma recvTimingResp_refills_witness :
  exists t', recvTimingResp (MU := Script_master) 9 ex_refill_resp (ex_tlb <| pending_refills := [64] |>)
               (mkScript [] []) = Ok (t', mkScript [] [], ex_refill_resp, true) /\
    remap_check t' 4100 = Ok 100.
Proof.
  destruct (recvTimingResp_refills (MU := Script_master) 9 4100 (ex_tlb <| pending_refills := [64] |>)
     ex_main (mkScript [] []) (mkScript [] []) ex_refill_resp 64 ex_table 100 [])
    as (t' & E & _ & _ & _ & R).
  - destruct ex_tlb_wf; split; assumption.
  - exact ex_coherent.
  - apply ex_table_ok.
  - by left.
  - reflexivity.
  - vm_compute. reflexivity.
  - reflexivity.
  - vm_compute. reflexivity.
  - reflexivity.
  - reflexivity.
  - reflexivity.
  - reflexivity.
  - reflexivity.
  - reflexivity.
  - exists t'. split; [exact E|exact R].
Defined.

(** A full TLB with one dynamic rule. *)
Definition ex_full : TLB :=
  ex_tlb <| rules := mkMapper [AR.AddrRange2 0 15; AR.AddrRange2 4096 4111]
                              [AR.AddrRange2 1024 1039; AR.AddrRange2 96 111] |>
         <| lastUsed := [u64_max; 3] |>.

Lemma updateTLB_lru_witness :
  exists t', updateTLB 9 4112 32 16 ex_full = Ok t' /\ tlb_wf t' /\
    last (orig t') = Some (AR.AddrRange2 4112 4127).
Proof.
  destruct (updateTLB_lru 9 4112 32 16 ex_full) as (t' & E & W & _ & _ & L & _).
  - split; [repeat constructor; unfold rule_ok; cbn; lia|reflexivity|cbn; lia..].
  - unfold slice_ok. lia.
  - exists t'. split; [exact E|]. split; [exact W|exact L].
Defined.

Lemma refillTLB_timing_once_witness :
  exists t' s', refillTLB_timing (DS := Script_device) 9 4100 ex_tlb (mkScript [true] []) = Ok (t', s', true) /\
    NoDup (pending_refills t').
Proof.
  eexists _, _. split; [vm_compute; reflexivity|].
  refine (proj1 (refillTLB_timing_once (DS := Script_device) 9 4100 64 ex_tlb _ (mkScript [true] []) _ true _ _ _)).
  - apply NoDup_nil_2.
  - vm_compute. reflexivity.
  - vm_compute. reflexivity.
Defined.

Lemma recvFunctional_cases_witness :
  recvFunctional (DS := Script_device) 9 ex_access ex_tlb (mkScript [] []) = Err Panic.
Proof.
  apply (recvFunctional_cases (DS := Script_device) 9 ex_access ex_tlb (mkScript [] [])).
  - exact ex_tlb_wf.
  - exact ex_access_wf.
  - done.
  - reflexivity.
Defined.

(** A write of the address 4100 to the increment register at 4. *)
Definition ex_incr : Packet :=
  (ex_pkt WriteReq) <| addr := 4 |> <| data := Some (le_bytes 4 4100) |>.

Lemma hmc_atomic_miss_witness :
  recvAtomic (DS := Script_device) 9 ex_incr ex_tlb (mkScript [] []) = Err AssertFailed.
Proof.
  apply (hmc_atomic_miss (DS := Script_device) 9 4100); try reflexivity; try done.
  split; [reflexivity|]. split; [reflexivity|]. split; [unfold inw; cbn; lia|].
  split; [cbn; lia|]. by intros d [= <-].
Defined.
