(* ===== verification/Dma.v ===== *)
(** * The DMA engine of the PIM device

    Models [base/chunk_generator.hh], the port of [dev/dma_device.cc] and
    [dev/dma_device.hh], and the engine of [dev/ethz_dma.cc] and
    [dev/ethz_dma.hh]: requests between a vector register and the host's
    virtual memory, split at slice boundaries by the TLB and at cache lines by
    the port, issued by a three-state machine and accounted for as responses
    come back.

    Requests and the sender states that the packets of one transfer share are
    heap objects: they carry an identity, and a use after deletion is
    [Undefined].  A packet's data pointer stays an address in the vector
    registers.  [handleResp] of the code passes a field of the sender state it
    has just deleted to [handle_packet], which ignores it: that read is left
    out, and so are the assertion of the port on the inhibit flag of responses,
    serialisation and printing. *)

From S2P Require Import Prelude.
From S2P Require Import BitMath.
From S2P Require Import Clock.
From S2P Require Import AddrRange.
From S2P Require Import Packet.
From S2P Require Import AbstractMem.
From S2P Require Import Port.
From S2P Require Import AddrMapper.
From S2P Require Import Tlb.

(** ** Chunks of an address range *)
Record ChunkGenerator := mkChunk {
  curAddr : Z;
  nextAddr : Z;
  curSize : Z;
  sizeLeft : Z;
  startAddr : Z;
  chunkSize : Z
}.

Definition ChunkGenerator_new (start total chunk : Z) : res ChunkGenerator :=
  _ ← assert_ ((chunk =? 0) || isPowerOf2 chunk);
  let nextA :=
    if chunk =? 0 then u64 (start + total)
    else
      let n := roundUp start chunk in
      if start =? n then u64 (n + chunk) else n in
  let left_in_chunk := u32 (u64 (nextA - start)) in
  let cur := Z.min total left_in_chunk in
  Ok (mkChunk start nextA cur (u32 (total - cur)) start chunk).

Definition gen_complete (g : ChunkGenerator) : Z := u32 (u64 (curAddr g - startAddr g)).
Definition gen_done (g : ChunkGenerator) : bool := curSize g =? 0.

Definition gen_next (g : ChunkGenerator) : ChunkGenerator :=
  if sizeLeft g =? 0 then g <| curSize := 0 |>
  else
    let c := Z.min (sizeLeft g) (chunkSize g) in
    g <| curAddr := nextAddr g |> <| curSize := c |>
      <| sizeLeft := u32 (sizeLeft g - c) |> <| nextAddr := u64 (nextAddr g + c) |>.

(** The loop [for (gen; !gen.done(); gen.next())]: address, size and offset
    of each chunk.  [None] when the fuel does not suffice. *)
Fixpoint gen_loop (fuel : nat) (g : ChunkGenerator) : option (list (Z * Z * Z)) :=
  if gen_done g then Some []
  else match fuel with
       | O => None
       | Datatypes.S f => (fun l => (curAddr g, curSize g, gen_complete g) :: l) <$> gen_loop f (gen_next g)
       end.

(** ** The port *)
Record DmaReqState := mkReqState {
  completionEvent : option nat;
  totBytes : Z;
  numBytes : Z;
  rs_delay : Z
}.

Record DmaPacket := mkDmaPacket {
  dk_cmd : Command;
  dk_addr : Z;
  dk_size : Z;
  dk_ptr : Z;
  dk_state : Z
}.

Inductive MemoryMode := AtomicMode | TimingMode | OtherMode.

(** ** A request *)
Record DMARequest := mkDMARequest {
  rq_id : Z;
  vreg_ptr : Z;
  mem_vstart : Z;
  mem_vend : Z;
  dma_resource : Z;
  RW : bool;
  mem_pstart : list Z;
  mem_pend : list Z;
  bytes_expected : Z;
  bytes_completed : Z;
  issued : bool
}.

Definition DMARequest_new (id vreg start num_bytes : Z) (dir : bool) (dma_res : Z) : DMARequest :=
  mkDMARequest id vreg start (u64 (u64 (start + num_bytes) - 1)) dma_res dir [] [] num_bytes 0 false.

Definition nextSubRequest (vaddr : Z) (r : DMARequest) : res (DMARequest * bool) :=
  _ ← assert_ (mem_vstart r <=? vaddr);
  if mem_vend r <=? vaddr then Ok (r, false)
  else
    let diff := vaddr - mem_vstart r in
    Ok (r <| mem_vstart := u64 (mem_vstart r + diff) |> <| vreg_ptr := vreg_ptr r + diff |>, true).

(** ** The engine, with its port *)
Inductive DmaState := DMA_STATE_IDLE | DMA_STATE_TLBREFILL | DMA_STATE_TRANSFER.

Record DMA := mkDMA {
  requests : list DMARequest;
  current_index : Z;
  isTimingMode : bool;
  clk_per_ps : Z;
  current_state : DmaState;
  next_state_scheduled : bool;
  nextStateEvent : option Z;
  dma_resources : Z;
  PIM_DMA_STATUS_ADDR : Z;
  dmaDoneEventAll : list (option Z);
  dmaDoneEventFree : list nat;
  (* DmaPort *)
  transmitList : list DmaPacket;
  sendEvent : option Z;
  sys_mode : MemoryMode;
  cacheLineSize : Z;
  clockPeriod : Z;
  pendingCount : Z;
  port_drainManager : bool;
  port_drainSignals : Z;
  inRetry : bool;
  reqStates : gmap Z DmaReqState;
  next_id : Z
}.

Definition maxOutstandingDma : nat := 16.

(** [clockEdge(Cycles(1))]: one period after the next clock edge, as [Clock]
    shows the clocked object computes it. *)
Definition clockEdge1 (now : Z) (d : DMA) : Z :=
  u64 (edge (clockPeriod d) now + clockPeriod d).

(** What the engine asks of the rest of the system: the link of its port, the
    PIM memory that holds the status register, and the processor. *)
Class DmaWorld (S : Type) := {
  dma_sendAtomic : DmaPacket -> S -> res (S * Z);
  dma_sendTimingReq : Z -> DmaPacket -> S -> res (S * bool);
  write_mem_1byte : Z -> Z -> S -> res S;
  postInterrupt : S -> S;
  clearInterrupt : S -> S;
  cpu_suspended : S -> bool
}.

(** Requests as heap objects. *)
Definition find_request (id : Z) (l : list DMARequest) : res DMARequest :=
  deref (find (fun r => rq_id r =? id) l).

Definition upd_request (id : Z) (f : DMARequest -> DMARequest) (l : list DMARequest)
  : list DMARequest :=
  (fun r => if rq_id r =? id then f r else r) <$> l.

Section Engine.

Context {S : Type} {WS : DmaWorld S} {DS : MemDevice S}.

Definition update_status_register (d : DMA) (s : S) : res S :=
  write_mem_1byte (PIM_DMA_STATUS_ADDR d) (dma_resources d) s.

(** The ranges a response may belong to: request and sub-range index. *)
Definition matches (a : Z) (l : list DMARequest) : list (nat * Z) :=
  concat (imap (fun i r =>
    (fun _ => (i, rq_id r)) <$>
      List.filter (fun pe => (fst pe <=? a) && (a <=? snd pe)) (zip (mem_pstart r) (mem_pend r))) l).

(** [handle_packet]: account for a completed sub-transfer. *)
Definition handle_packet (pkt_addr pkt_size : Z) (d : DMA) (s : S) : res (DMA * S) :=
  match matches pkt_addr (requests d) with
  | [] => Err AssertFailed
  | [(i, id)] =>
      curr ← find_request id (requests d);
      let completed := u64 (bytes_completed curr + pkt_size) in
      let curr := curr <| bytes_completed := completed |> in
      let d := d <| requests := upd_request id (fun _ => curr) (requests d) |> in
      _ ← assert_ (completed <=? bytes_expected curr);
      if completed =? bytes_expected curr then
        let s := if cpu_suspended s then postInterrupt s else s in
        _ ← assert_ (negb (Z.land (dma_resources d) (dma_resource curr) =? 0));
        let d := d <| dma_resources := Z.ldiff (dma_resources d) (dma_resource curr) |> in
        s ← update_status_register d s;
        _ ← assert_ (Z.land (dma_resources d) (dma_resource curr) =? 0);
        Ok (d <| requests := delete i (requests d) |>, s)
      else Ok (d, s)
  | _ => panic
  end.

(** [handleResp]: a response packet, with the latency of an atomic one. *)
Definition handleResp (now : Z) (pkt : DmaPacket) (dly : Z) (d : DMA) (s : S) : res (DMA * S) :=
  _ ← assert_ (cmd_isResponse (dk_cmd pkt));
  st ← deref (reqStates d !! dk_state pkt);
  _ ← assert_ (negb (pendingCount d =? 0));
  let st := st <| numBytes := u64 (numBytes st + dk_size pkt) |> in
  let d := d <| pendingCount := pendingCount d - 1 |>
             <| reqStates := <[dk_state pkt := st]> (reqStates d) |> in
  _ ← assert_ (numBytes st <=? totBytes st);
  d ← (if totBytes st =? numBytes st then
         let d := d <| reqStates := base.delete (dk_state pkt) (reqStates d) |> in
         match completionEvent st with
         | Some e =>
             ev ← deref (dmaDoneEventAll d !! e);
             ev ← schedule ev now (u64 (now + (dly + rs_delay st)));
             Ok (d <| dmaDoneEventAll := <[e := ev]> (dmaDoneEventAll d) |>)
         | None => Ok d
         end
       else Ok d);
  '(d, s) ← handle_packet (dk_addr pkt) (dk_size pkt) d s;
  Ok (if (pendingCount d =? 0) && port_drainManager d
      then d <| port_drainSignals := port_drainSignals d + 1 |> <| port_drainManager := false |>
      else d, s).

Definition recvTimingResp (now : Z) (pkt : DmaPacket) (d : DMA) (s : S) : res (DMA * S) :=
  handleResp now pkt 0 d s.

Definition trySendTimingReq (now : Z) (d : DMA) (s : S) : res (DMA * S) :=
  match transmitList d with
  | [] => undefined
  | pkt :: rest =>
      '(s, ok) ← dma_sendTimingReq now pkt s;
      let d := d <| inRetry := negb ok |> in
      if negb (inRetry d) then
        let d := d <| transmitList := rest |> in
        match rest with
        | [] => Ok (d, s)
        | _ =>
            ev ← schedule (sendEvent d) now (clockEdge1 now d);
            Ok (d <| sendEvent := ev |>, s)
        end
      else Ok (d, s)
  end.

(** Everything there is to send, in zero time. *)
Fixpoint sendDma_atomic (now : Z) (fuel : nat) (d : DMA) (s : S) : res (DMA * S) :=
  match transmitList d with
  | [] => Ok (d, s)
  | pkt :: rest =>
      match fuel with
      | O => undefined
      | Datatypes.S f =>
          let d := d <| transmitList := rest |> in
          '(s, lat) ← dma_sendAtomic pkt s;
          let pkt := pkt <| dk_cmd := responseCommand (dk_cmd pkt) |> in
          '(d, s) ← handleResp now pkt lat d s;
          sendDma_atomic now f d s
      end
  end.

Definition sendDma (now : Z) (d : DMA) (s : S) : res (DMA * S) :=
  match transmitList d with
  | [] => Err AssertFailed
  | _ =>
      match sys_mode d with
      | TimingMode =>
          if inRetry d || bool_decide (sendEvent d <> None) then Ok (d, s)
          else trySendTimingReq now d s
      | AtomicMode => sendDma_atomic now (length (transmitList d)) d s
      | OtherMode => panic
      end
  end.

Definition recvRetry (now : Z) (d : DMA) (s : S) : res (DMA * S) :=
  _ ← assert_ (negb (bool_decide (transmitList d = [])));
  trySendTimingReq now d s.

Definition queueDma (pkt : DmaPacket) (d : DMA) : DMA :=
  d <| transmitList := transmitList d ++ [pkt] |> <| pendingCount := u32 (pendingCount d + 1) |>.

Definition port_drain (d : DMA) : DMA * Z :=
  if pendingCount d =? 0 then (d, 0) else (d <| port_drainManager := true |>, 1).

(** [dmaAction]: one sender state, one packet per chunk. *)
Definition dmaAction (now : Z) (c : Command) (a sz : Z) (event : option nat) (dataptr dly : Z)
    (d : DMA) (s : S) : res (DMA * S) :=
  let id := next_id d in
  let d := d <| reqStates := <[id := mkReqState event (u64 sz) 0 dly]> (reqStates d) |>
             <| next_id := id + 1 |> in
  g ← ChunkGenerator_new a (u32 sz) (cacheLineSize d);
  chunks ← deref (gen_loop (Z.to_nat (u32 sz)) g);
  let d := foldl (fun d '(ca, cs, off) => queueDma (mkDmaPacket c ca cs (dataptr + off) id) d) d chunks in
  sendDma now d s.

(** The index of the first request not yet issued. *)
Fixpoint first_unissued (l : list DMARequest) (i : Z) : Z :=
  match l with
  | [] => -1
  | r :: l' => if negb (issued r) then i else first_unissued l' (i + 1)
  end.

(** [DMA_STATE_TLBREFILL] *)
Definition state_refill (now : Z) (curr : DMARequest) (d : DMA) (t : TLB) (s : S)
  : res (DMA * TLB * S) :=
  let d := d <| requests := upd_request (rq_id curr) (fun r => r <| issued := true |>) (requests d) |> in
  if mem_vstart curr <? mem_vend curr then
    p ← remap_check t (mem_vstart curr);
    '(t, s) ←
      (if p =? TLB_MISS then
         if isTimingMode d then refillTLB_functional now (mem_vstart curr) t s
         else refillTLB_atomic now (mem_vstart curr) t s
       else Ok (t, s));
    Ok (d <| current_state := DMA_STATE_TRANSFER |>, t, s)
  else Ok (d <| current_state := DMA_STATE_IDLE |>, t, s).

(** [DMA_STATE_TRANSFER] *)
Definition state_transfer (now : Z) (curr : DMARequest) (d : DMA) (t : TLB) (s : S)
  : res (DMA * S) :=
  let id := rq_id curr in
  pstart ← remap_check t (mem_vstart curr);
  ve ← slice_vend t (mem_vstart curr);
  let vend := if mem_vend curr <? ve then mem_vend curr else ve in
  pend ← remap_check t vend;
  _ ← assert_ (u64 (pend - pstart) =? u64 (vend - mem_vstart curr));
  event ← deref (last (dmaDoneEventFree d));
  let d := d <| dmaDoneEventFree := removelast (dmaDoneEventFree d) |> in
  ev ← deref (dmaDoneEventAll d !! event);
  _ ← assert_ (bool_decide (ev = None));
  let d := d <| requests := upd_request id (fun r => r <| mem_pstart := mem_pstart r ++ [pstart] |>
                                                   <| mem_pend := mem_pend r ++ [pend] |>) (requests d) |> in
  '(d, s) ← dmaAction now (if RW curr then ReadReq else WriteReq) pstart
              (s32 (u64 (u64 (pend - pstart) + 1))) (Some event) (vreg_ptr curr) 0 d s;
  curr ← find_request id (requests d);
  '(curr, more) ← nextSubRequest (u64 (vend + 1)) curr;
  let d := d <| requests := upd_request id (fun _ => curr) (requests d) |> in
  Ok (d <| current_state := if more : bool then DMA_STATE_TLBREFILL else DMA_STATE_IDLE |>, s).

Definition nextState (now : Z) (d : DMA) (t : TLB) (s : S) : res (DMA * TLB * S) :=
  let is_empty := bool_decide (requests d = []) in
  let d := if is_empty then d <| current_state := DMA_STATE_IDLE |> <| current_index := -1 |> else d in
  curr ← (if negb (current_index d =? -1) then
            r ← deref (requests d !! Z.to_nat (current_index d)); Ok (Some r)
          else Ok None);
  '(d, t, s) ←
    match current_state d with
    | DMA_STATE_IDLE =>
        if is_empty then Ok (d, t, s)
        else
          let d := d <| current_index := first_unissued (requests d) 0 |> in
          Ok (if negb (current_index d =? -1)
              then d <| current_state := DMA_STATE_TLBREFILL |> else d, t, s)
    | DMA_STATE_TLBREFILL =>
        match curr with
        | None => Err AssertFailed
        | Some curr => state_refill now curr d t s
        end
    | DMA_STATE_TRANSFER =>
        curr ← deref curr;
        '(d, s) ← state_transfer now curr d t s; Ok (d, t, s)
    end;
  if negb is_empty then
    ev ← schedule (nextStateEvent d) now (u64 (now + clk_per_ps d));
    Ok (d <| next_state_scheduled := true |> <| nextStateEvent := ev |>, t, s)
  else Ok (d <| next_state_scheduled := false |>, t, postInterrupt s).

Definition wait_on_resource (r : Z) (s : S) : res S :=
  if r =? 255 then Ok (clearInterrupt s) else panic.

(** [initiate_read] and [initiate_write] *)
Definition initiate (dir : bool) (now vreg vaddr num_bytes resource : Z) (d : DMA) (t : TLB) (s : S)
  : res (DMA * TLB * S) :=
  _ ← assert_ (negb (resource =? 0));
  if negb (Z.land (dma_resources d) resource =? 0) then panic
  else
    let d := d <| dma_resources := Z.lor (dma_resources d) resource |> in
    s ← update_status_register d s;
    let d := d <| requests := DMARequest_new (next_id d) vreg vaddr num_bytes dir resource :: requests d |>
               <| next_id := next_id d + 1 |> in
    if next_state_scheduled d then Ok (d, t, s)
    else nextState now (d <| next_state_scheduled := true |>) t s.

Definition initiate_read := initiate true.
Definition initiate_write := initiate false.

(** The completion event of a sub-transfer. *)
Definition dmaDoneEvent_process (e : nat) (d : DMA) : DMA :=
  d <| dmaDoneEventAll := <[e := None]> (dmaDoneEventAll d) |>
    <| dmaDoneEventFree := dmaDoneEventFree d ++ [e] |>.

End Engine.

(** ** Chunks tile the range *)

(** [cs] are consecutive, non-empty chunks of the [n] bytes from [a], none of
    them across a multiple of [line]; each carries its offset from [base]. *)
Fixpoint tiles (line base a n : Z) (cs : list (Z * Z * Z)) : Prop :=
  match cs with
  | [] => n = 0
  | (ca, cz, off) :: cs' =>
      ca = a /\ 0 < cz <= n /\ off = a - base /\ (line = 0 \/ a / line = (a + cz - 1) / line) /\
      tiles line base (a + cz) (n - cz) cs'
  end.

(** The generator in mid-range: [n] bytes from [curAddr] are still to come,
    and the chunk after this one starts on a line. *)
Record gen_inv (line n : Z) (g : ChunkGenerator) : Prop := {
  gi_line : chunkSize g = line;
  gi_addr : 0 <= startAddr g <= curAddr g;
  gi_near : curAddr g + n - startAddr g < 2 ^ 31;
  gi_cur : 0 < curSize g;
  gi_left : 0 <= sizeLeft g;
  gi_total : curSize g + sizeLeft g = n;
  gi_end : curAddr g + n + line < 2 ^ 64;
  gi_same : line = 0 \/ curAddr g / line = (curAddr g + curSize g - 1) / line;
  gi_next : sizeLeft g <> 0 ->
    0 < line /\ nextAddr g = curAddr g + curSize g /\ (line | nextAddr g)
}.

Lemma same_line line a c : 0 < line -> (line | a) -> 0 < c <= line -> a / line = (a + c - 1) / line.
Proof.
  intros Hl [q ->] Hc. rewrite Z.div_mul by lia.
  rewrite <- Z.add_sub_assoc, (Z.add_comm (q * line)), Z.div_add, Z.div_small by lia. lia.
Qed.

Lemma gen_next_inv line n g : gen_inv line n g -> sizeLeft g <> 0 ->
  gen_inv line (n - curSize g) (gen_next g) /\ curAddr (gen_next g) = curAddr g + curSize g /\
  startAddr (gen_next g) = startAddr g.
Proof.
  intros [H1 H2 H3 H4 H5 H6 H7 H8 H9] Hn. destruct (H9 Hn) as (N1 & N2 & N3).
  unfold gen_next. rewrite (proj2 (Z.eqb_neq _ _)) by done. cbv zeta. rewrite H1.
  assert (E : u32 (sizeLeft g - Z.min (sizeLeft g) line) = sizeLeft g - Z.min (sizeLeft g) line)
    by (apply wrap_id; unfold inw; lia).
  assert (E' : u64 (nextAddr g + Z.min (sizeLeft g) line) = nextAddr g + Z.min (sizeLeft g) line)
    by (apply u64_small; lia).
  rewrite E, E'. split; [|cbn; lia].
  split; cbn [curAddr nextAddr curSize sizeLeft startAddr chunkSize field_upd]; try lia.
  - right. apply same_line; [done|done|lia].
  - intros Hl. assert (Z.min (sizeLeft g) line = line) as -> by lia.
    split; [done|]. split; [done|]. apply Z.divide_add_r; [done|apply Z.divide_refl].
Qed.

Lemma gen_loop_tiles fuel line n g : gen_inv line n g -> n <= Z.of_nat fuel ->
  exists cs, gen_loop fuel g = Some cs /\ tiles line (startAddr g) (curAddr g) n cs.
Proof.
  revert n g. induction fuel as [|fuel IH]; intros n g Hg Hf; pose proof Hg as [H1 H2 H3 H4 H5 H6 H7 H8 H9];
    [lia|].
  cbn [gen_loop]. unfold gen_done. rewrite (proj2 (Z.eqb_neq _ _)) by lia.
  assert (Ec : gen_complete g = curAddr g - startAddr g).
  { unfold gen_complete. rewrite u64_small by lia. apply wrap_id. unfold inw. lia. }
  destruct (Z.eqb_spec (sizeLeft g) 0) as [Hz|Hz].
  - assert (En : gen_next g = g <| curSize := 0 |>) by (unfold gen_next; by rewrite Hz).
    rewrite En. destruct fuel; cbn; rewrite Ec; eexists; (split; [reflexivity|]); cbn;
      split_and!; try done; lia.
  - destruct (gen_next_inv line n g Hg Hz) as (Hg' & Ea & Es).
    destruct (IH _ _ Hg') as (cs & -> & Ht); [lia|]. cbn [fmap option_fmap option_map].
    eexists; split; [reflexivity|]. cbn [tiles]. rewrite Ec. rewrite Ea, Es in Ht.
    split_and!; try done; lia.
Qed.

Lemma ChunkGenerator_new_inv start total line k : (line = 0 \/ line = 2 ^ k /\ 0 <= k < 31) ->
  0 <= start -> 0 < total < 2 ^ 31 -> start + total + line < 2 ^ 64 ->
  exists g, ChunkGenerator_new start total line = Ok g /\ gen_inv line total g /\
    curAddr g = start /\ startAddr g = start.
Proof.
  intros Hl Hs Ht He. unfold ChunkGenerator_new.
  assert (Hp : 0 < line -> line = 2 ^ k /\ 0 <= k < 31) by (destruct Hl; lia).
  assert (line < 2 ^ 31) by (destruct Hl as [-> | [-> Hk]]; [lia|apply Z.pow_lt_mono_r; lia]).
  destruct (Z.eqb_spec line 0) as [->|Hz]; cbn [orb assert_ mbind res_bind].
  - rewrite u64_small, u64_small by lia. unfold u32. rewrite (wrap_id 32) by (unfold inw; lia).
    rewrite Z.min_l by lia. rewrite wrap_id by (unfold inw; lia). eexists; split; [reflexivity|].
    split; [|done]. split; cbn; try lia.
  - destruct Hl as [|[E Hk]]; [done|]. assert (0 < line) by (rewrite E; apply Z.pow_pos_nonneg; lia).
    assert (isPowerOf2 line = true) as -> by (rewrite E; apply isPowerOf2_pow2; lia). cbn [assert_ mbind res_bind].
    assert (Hr : (line | roundUp start line) /\ start <= roundUp start line < start + line)
      by (rewrite E; apply roundUp_spec; lia).
    set (nxt := if start =? roundUp start line then u64 (roundUp start line + line) else roundUp start line).
    assert (Hn : (line | nxt) /\ start < nxt <= start + line).
    { unfold nxt. destruct (Z.eqb_spec start (roundUp start line)).
      - rewrite u64_small by lia. split; [apply Z.divide_add_r; [apply Hr|apply Z.divide_refl]|lia].
      - split; [apply Hr|lia]. }
    clearbody nxt. destruct Hn as [[q Hq] Hn].
    rewrite u64_small by lia. unfold u32. rewrite (wrap_id 32) by (unfold inw; lia).
    rewrite wrap_id by (unfold inw; lia). eexists; split; [reflexivity|]. split; [|done].
    split; cbn [curAddr nextAddr curSize sizeLeft startAddr chunkSize]; try lia.
    + right. transitivity (q - 1); [symmetry|].
      * apply Z.div_unique with (start - (q - 1) * line); [left; nia|nia].
      * apply Z.div_unique with (start + Z.min total (nxt - start) - 1 - (q - 1) * line);
          [left; nia|nia].
    + intros Hl'. split; [done|]. split; [lia|]. by exists q.
Qed.

(** ** Resources *)

(** What the accounting of resources depends on. *)
Definition keys (l : list DMARequest) : list (Z * Z) := (fun r => (rq_id r, dma_resource r)) <$> l.
Definition union_of (l : list (Z * Z)) : Z := fold_right (fun k acc => Z.lor (snd k) acc) 0 l.

(** Requests have distinct identities, allocated before [next_id]; their
    resources do not overlap, and together are the busy ones. *)
Record dma_inv (d : DMA) : Prop := {
  di_ids : NoDup (fst <$> keys (requests d));
  di_fresh : Forall (fun k => fst k < next_id d) (keys (requests d));
  di_disjoint : forall i j a b, i <> j -> keys (requests d) !! i = Some a ->
    keys (requests d) !! j = Some b -> Z.land (snd a) (snd b) = 0;
  di_union : dma_resources d = union_of (keys (requests d))
}.

Lemma keys_upd id f l : (forall r, rq_id (f r) = rq_id r /\ dma_resource (f r) = dma_resource r) ->
  keys (upd_request id f l) = keys l.
Proof.
  intros Hf. unfold keys, upd_request. rewrite <- list_fmap_compose. apply list_fmap_ext.
  intros i r _. cbn. case_if; [|done]. by destruct (Hf r) as [-> ->].
Qed.

Lemma keys_upd_const id c l : NoDup (fst <$> keys l) ->
  (forall r, r ∈ l -> rq_id r = id -> rq_id c = id /\ dma_resource c = dma_resource r) ->
  keys (upd_request id (fun _ => c) l) = keys l.
Proof.
  intros _ Hf. unfold keys, upd_request. rewrite <- list_fmap_compose. apply list_fmap_ext.
  intros i r Hr. cbn. destruct (Z.eqb_spec (rq_id r) id) as [E|E]; [|done].
  destruct (Hf r) as [-> ->]; [by eapply list_elem_of_lookup_2|done|]. by rewrite E.
Qed.

(** The invariant reads only the keys, the busy resources and the allocator. *)
Lemma dma_inv_same d d' : keys (requests d') = keys (requests d) -> dma_resources d' = dma_resources d ->
  next_id d <= next_id d' -> dma_inv d -> dma_inv d'.
Proof.
  intros E1 E2 E3 [I1 I2 I3 I4]. split; rewrite ?E1, ?E2; try done.
  eapply Forall_impl; [exact I2|]. cbn. lia.
Qed.

Lemma land_union a l : (forall k, k ∈ l -> Z.land a (snd k) = 0) -> Z.land a (union_of l) = 0.
Proof.
  induction l as [|k l IH]; intros H; cbn [union_of fold_right]; [apply Z.land_0_r|].
  rewrite Z.land_lor_distr_r. fold (union_of l). rewrite (H k), IH; [done| |constructor].
  intros k' Hk'. apply H. by constructor.
Qed.

Lemma ldiff_lor_disjoint a b : Z.land a b = 0 -> Z.ldiff (Z.lor a b) a = b.
Proof.
  intros H. apply Z.bits_inj'. intros i Hi.
  assert (Z.testbit (Z.land a b) i = false) as Hb by (rewrite H; apply Z.testbit_0_l).
  rewrite Z.land_spec in Hb. rewrite Z.ldiff_spec, Z.lor_spec.
  by destruct (Z.testbit a i), (Z.testbit b i).
Qed.

(** Taking one of disjoint resources out of the union. *)
Lemma union_delete l i k : (forall i j a b, i <> j -> l !! i = Some a -> l !! j = Some b -> Z.land (snd a) (snd b) = 0) ->
  l !! i = Some k -> Z.ldiff (union_of l) (snd k) = union_of (delete i l).
Proof.
  revert i. induction l as [|k' l IH]; intros i Hd Hi; [done|].
  assert (Hd' : forall i j a b, i <> j -> l !! i = Some a -> l !! j = Some b -> Z.land (snd a) (snd b) = 0).
  { intros i' j' a b Hij Ha Hb. by apply (Hd (Datatypes.S i') (Datatypes.S j')); [lia|..]. }
  assert (Hk : forall q, q ∈ l -> Z.land (snd k') (snd q) = 0).
  { intros q [j Hj]%list_elem_of_lookup. by apply (Hd 0%nat (Datatypes.S j)). }
  destruct i as [|i]; cbn in Hi.
  - injection Hi as <-. cbn [union_of fold_right delete list_delete]. fold (union_of l).
    apply ldiff_lor_disjoint. by apply land_union.
  - change (delete (Datatypes.S i) (k' :: l)) with (k' :: delete i l).
    cbn [union_of fold_right]. fold (union_of l) (union_of (delete i l)).
    rewrite <- (IH i Hd' Hi). 
    assert (Hz : Z.land (snd k') (snd k) = 0) by (by apply Hk; eapply list_elem_of_lookup_2).
    apply Z.bits_inj'. intros b Hb.
    assert (Z.testbit (Z.land (snd k') (snd k)) b = false) as Hbb by (rewrite Hz; apply Z.testbit_0_l).
    rewrite Z.land_spec in Hbb. rewrite Z.ldiff_spec, !Z.lor_spec, Z.ldiff_spec.
    by destruct (Z.testbit (snd k') b), (Z.testbit (union_of l) b), (Z.testbit (snd k) b).
Qed.

Lemma keys_delete i l : keys (delete i l) = delete i (keys l).
Proof. unfold keys. revert i. induction l; intros [|i]; cbn; try done. by rewrite IHl. Qed.

Lemma dma_inv_delete d i r : dma_inv d -> requests d !! i = Some r ->
  dma_inv (d <| dma_resources := Z.ldiff (dma_resources d) (dma_resource r) |>
             <| requests := delete i (requests d) |>).
Proof.
  intros [I1 I2 I3 I4] Hi.
  assert (Hk : keys (requests d) !! i = Some (rq_id r, dma_resource r))
    by (unfold keys; by rewrite list_lookup_fmap, Hi).
  split; cbn [requests next_id dma_resources field_upd]; rewrite keys_delete.
  - rewrite list_fmap_delete. by eapply sublist_NoDup, sublist_delete.
  - apply Forall_forall. intros k Hin. rewrite Forall_forall in I2. apply I2.
    by eapply list_elem_of_delete_inv.
  - intros i' j' a b Hij Ha Hb.
    assert (G : forall x y, delete i (keys (requests d)) !! x = Some y ->
      exists x', keys (requests d) !! x' = Some y /\ x' = if decide (x < i)%nat then x else Datatypes.S x).
    { intros x y Hx. destruct (decide (x < i)%nat).
      - rewrite list_lookup_delete_lt in Hx by done. eauto.
      - rewrite list_lookup_delete_ge in Hx by lia. eauto. }
    destruct (G _ _ Ha) as (a' & Ha' & Ea), (G _ _ Hb) as (b' & Hb' & Eb).
    apply (I3 a' b'); try done. repeat case_decide; lia.
  - rewrite I4. by apply (union_delete _ _ (rq_id r, dma_resource r)).
Qed.

Lemma union_disjoint rs l k : Z.land (union_of l) rs = 0 -> k ∈ l -> Z.land rs (snd k) = 0.
Proof.
  induction l as [|k' l IH]; intros H Hk; [by apply not_elem_of_nil in Hk|].
  cbn [union_of fold_right] in H. rewrite Z.land_lor_distr_l in H.
  apply Z.lor_eq_0_iff in H as [H1 H2].
  apply elem_of_cons in Hk as [->|Hk]; [by rewrite Z.land_comm|by apply IH].
Qed.

(** A new request for free resources. *)
Lemma dma_inv_cons d vreg va n dir rs : dma_inv d -> Z.land (dma_resources d) rs = 0 ->
  dma_inv (d <| dma_resources := Z.lor (dma_resources d) rs |>
             <| requests := DMARequest_new (next_id d) vreg va n dir rs :: requests d |>
             <| next_id := next_id d + 1 |>).
Proof.
  intros [I1 I2 I3 I4] Hz. rewrite I4 in Hz.
  assert (Hnew : forall j b, keys (requests d) !! j = Some b -> Z.land rs (snd b) = 0).
  { intros j b Hj. eapply union_disjoint; [exact Hz|]. by eapply list_elem_of_lookup_2. }
  split; cbn [requests next_id dma_resources field_upd]; cbn [keys fmap list_fmap].
  - cbn. apply NoDup_cons. split; [|done]. intros Hin.
    apply list_elem_of_fmap in Hin as (x & E & Hx).
    rewrite Forall_forall in I2. specialize (I2 x Hx). lia.
  - constructor; [cbn; lia|]. eapply Forall_impl; [exact I2|]. cbn. lia.
  - intros [|i] [|j] x y Hij Hx Hy; cbn in Hx, Hy; [lia| | |].
    + injection Hx as <-. by eapply Hnew.
    + injection Hy as <-. rewrite Z.land_comm. by eapply Hnew.
    + apply (I3 i j); [lia|done|done].
  - cbn [union_of fold_right snd]. fold (union_of (keys (requests d))). rewrite I4. apply Z.lor_comm.
Qed.

Lemma matches_lookup a l i id : (i, id) ∈ matches a l -> exists r, l !! i = Some r /\ rq_id r = id.
Proof.
  unfold matches. rewrite list_elem_of_In, in_concat. intros (xs & Hxs & Hin).
  apply list_elem_of_In in Hxs. apply elem_of_lookup_imap in Hxs as (j & r & -> & Hj).
  apply list_elem_of_In in Hin. apply list_elem_of_fmap in Hin as (y & E & _).
  injection E as -> ->. eauto.
Qed.

Lemma find_request_lookup l i r : NoDup (fst <$> keys l) -> l !! i = Some r ->
  find_request (rq_id r) l = Ok r.
Proof.
  unfold find_request, keys. revert i. induction l as [|x l IH]; intros i Hn Hi; [done|].
  cbn in Hn. apply NoDup_cons in Hn as [Hx Hn]. cbn [find].
  destruct i as [|i]; cbn in Hi.
  - injection Hi as <-. by rewrite Z.eqb_refl.
  - destruct (Z.eqb_spec (rq_id x) (rq_id r)) as [E|E]; [|by eapply IH].
    exfalso. apply Hx. rewrite E, <- list_fmap_compose.
    apply list_elem_of_fmap. exists r. split; [done|]. by eapply list_elem_of_lookup_2.
Qed.

Lemma find_request_in id l r : find_request id l = Ok r -> r ∈ l /\ rq_id r = id.
Proof.
  unfold find_request. destruct (find _ l) as [x|] eqn:F; cbn [deref]; [|done].
  intros [= ->]. apply find_some in F as [F1 F2]. split; [by apply list_elem_of_In|]. by bool_prop.
Qed.

(** Identities determine requests. *)
Lemma same_id_same l r r' : NoDup (fst <$> keys l) -> r ∈ l -> r' ∈ l -> rq_id r = rq_id r' -> r = r'.
Proof.
  intros Hn [i Hi]%list_elem_of_lookup [j Hj]%list_elem_of_lookup E.
  pose proof (find_request_lookup l i r Hn Hi) as F1. pose proof (find_request_lookup l j r' Hn Hj) as F2.
  rewrite E in F1. congruence.
Qed.

Section Preservation.

Context {S : Type} {WS : DmaWorld S} {DS : MemDevice S}.

(** The invariant, and an allocator that only grows. *)
Definition keeps (d d' : DMA) : Prop := dma_inv d -> dma_inv d' /\ next_id d <= next_id d'.

Lemma keeps_trans d1 d2 d3 : keeps d1 d2 -> keeps d2 d3 -> keeps d1 d3.
Proof. intros H1 H2 I. destruct (H1 I) as [I2 E]. destruct (H2 I2). split; [done|lia]. Qed.

Lemma keeps_same d d' : keys (requests d') = keys (requests d) -> dma_resources d' = dma_resources d ->
  next_id d <= next_id d' -> keeps d d'.
Proof. intros E1 E2 E3 I. split; [by eapply dma_inv_same|done]. Qed.

Lemma handle_packet_keeps a sz d s d' s' : handle_packet a sz d s = Ok (d', s') -> keeps d d'.
Proof.
  intros H I. unfold handle_packet in H.
  destruct (matches a (requests d)) as [|[i id] [|]] eqn:M; [done| |done].
  destruct (matches_lookup a (requests d) i id) as (r & Hi & Hid); [rewrite M; by constructor|].
  rewrite <- Hid, (find_request_lookup _ _ _ (di_ids d I) Hi) in H. cbn [mbind res_bind] in H.
  set (c := r <| bytes_completed := u64 (bytes_completed r + sz) |>) in *.
  set (d1 := d <| requests := upd_request (rq_id r) (fun _ => c) (requests d) |>) in *.
  assert (K : keys (requests d1) = keys (requests d)).
  { apply keys_upd_const; [apply I|]. intros r' Hr' E.
    rewrite (same_id_same (requests d) r' r); [done|apply I|done|by eapply list_elem_of_lookup_2|done]. }
  assert (I1 : dma_inv d1) by (eapply dma_inv_same, I; [done|done|done]).
  assert (L1 : requests d1 !! i = Some c).
  { unfold d1, upd_request. cbn [requests field_upd]. rewrite list_lookup_fmap, Hi. cbn.
    by rewrite Z.eqb_refl. }
  res_inv. case_if_in H; [|by res_inv]. res_inv.
  split; [|done]. exact (dma_inv_delete d1 i c I1 L1).
Qed.

Lemma handleResp_keeps now pkt dly d s d' s' : handleResp now pkt dly d s = Ok (d', s') -> keeps d d'.
Proof.
  unfold handleResp. intros H. res_inv.
  match goal with H : handle_packet _ _ ?x _ = Ok (?y, _) |- _ =>
    apply handle_packet_keeps in H; apply (keeps_trans d x); [|apply (keeps_trans x y); [exact H|]] end.
  - match goal with H : (if totBytes _ =? _ then _ else _) = Ok _ |- _ =>
      case_if_in H; [destruct (completionEvent _)|]; res_inv; by apply keeps_same end.
  - case_if; by apply keeps_same.
Qed.

Lemma trySend_keeps now d s d' s' : trySendTimingReq now d s = Ok (d', s') -> keeps d d'.
Proof.
  unfold trySendTimingReq. destruct (transmitList d) as [|p rest]; [done|]. intros H. res_inv.
  case_if_in H; [|res_inv; by apply keeps_same].
  destruct rest; res_inv; by apply keeps_same.
Qed.

Lemma sendDma_atomic_keeps now fuel d s d' s' : sendDma_atomic now fuel d s = Ok (d', s') -> keeps d d'.
Proof.
  revert d s. induction fuel as [|fuel IH]; intros d s H; cbn [sendDma_atomic] in H;
    destruct (transmitList d) as [|p rest]; res_inv; try (by apply keeps_same).
  eapply keeps_trans; [|eapply keeps_trans; [by eapply handleResp_keeps|by eapply IH]].
  by apply keeps_same.
Qed.

Lemma sendDma_keeps now d s d' s' : sendDma now d s = Ok (d', s') -> keeps d d'.
Proof.
  unfold sendDma. destruct (transmitList d); [done|]. destruct (sys_mode d); [| |done].
  - apply sendDma_atomic_keeps.
  - case_if; [intros [= <- <-]; by apply keeps_same|apply trySend_keeps].
Qed.

Lemma queue_fields c id dataptr chunks d :
  let d' := foldl (fun d '(ca, cs, off) => queueDma (mkDmaPacket c ca cs (dataptr + off) id) d) d chunks in
  requests d' = requests d /\ dma_resources d' = dma_resources d /\ next_id d' = next_id d /\
  reqStates d' = reqStates d /\ current_index d' = current_index d /\
  transmitList d' = transmitList d ++
    ((fun '(ca, cs, off) => mkDmaPacket c ca cs (dataptr + off) id) <$> chunks) /\
  u32 (pendingCount d') = u32 (pendingCount d + Z.of_nat (length chunks)).
Proof.
  revert d. induction chunks as [|[[ca cs] off] l IH]; intros d; cbn [foldl].
  - cbn. rewrite app_nil_r, Z.add_0_r. done.
  - destruct (IH (queueDma (mkDmaPacket c ca cs (dataptr + off) id) d)) as (E1 & E2 & E3 & E4 & E5 & E6 & E7).
    cbn zeta in *. rewrite E1, E2, E3, E4, E5, E6, E7. split_and!; try done.
    + cbn. by rewrite <- app_assoc.
    + unfold queueDma. cbn [pendingCount field_upd]. unfold u32. rewrite wrap_add_l. f_equal.
      cbn [length]. lia.
Qed.

Lemma dmaAction_keeps now c a sz ev ptr dly d s d' s' :
  dmaAction now c a sz ev ptr dly d s = Ok (d', s') -> keeps d d'.
Proof.
  unfold dmaAction. intros H. res_inv. eapply keeps_trans; [|by eapply sendDma_keeps].
  match goal with |- keeps d (foldl _ ?d0 ?l) =>
    destruct (queue_fields c (next_id d) ptr l d0) as (E1 & E2 & E3 & _) end.
  apply keeps_same; [by rewrite E1|by rewrite E2|]. rewrite E3. cbn. lia.
Qed.

Lemma nextSubRequest_key v r r' b : nextSubRequest v r = Ok (r', b) ->
  rq_id r' = rq_id r /\ dma_resource r' = dma_resource r.
Proof. unfold nextSubRequest. intros H. res_inv. case_if_in H; by res_inv. Qed.

Lemma state_transfer_keeps now curr d t s d' s' :
  state_transfer now curr d t s = Ok (d', s') -> keeps d d'.
Proof.
  unfold state_transfer. intros H. res_inv.
  match goal with H : dmaAction _ _ _ _ _ _ _ ?x _ = Ok (?y, _) |- _ =>
    apply dmaAction_keeps in H; apply (keeps_trans d x); [|apply (keeps_trans x y); [exact H|]] end.
  - apply keeps_same; [|done|done]. cbn [requests field_upd]. by rewrite keys_upd.
  - intros I. split; [|done]. eapply dma_inv_same, I; [|done|done].
    cbn [requests field_upd]. apply keys_upd_const; [apply I|]. intros r Hr E.
    match goal with F : find_request _ _ = Ok _, N : nextSubRequest _ _ = Ok _ |- _ =>
      apply find_request_in in F as [F1 F2]; apply nextSubRequest_key in N as [-> ->] end.
    split; [done|]. f_equal. eapply same_id_same; [apply I|done|done|congruence].
Qed.

Lemma state_refill_keeps now curr d t s d' t' s' :
  state_refill now curr d t s = Ok (d', t', s') -> keeps d d'.
Proof.
  unfold state_refill. intros H. case_if_in H; res_inv;
    (apply keeps_same; [cbn [requests field_upd]; by rewrite keys_upd|done|done]).
Qed.

Lemma nextState_keeps now d t s d' t' s' : nextState now d t s = Ok (d', t', s') -> keeps d d'.
Proof.
  unfold nextState. intros H. res_inv.
  match goal with H : match current_state ?x with _ => _ end = Ok (?y, _, _) |- _ =>
    assert (K : keeps d y); [apply (keeps_trans d x); [by case_if; apply keeps_same|]; clear Hm|] end.
  { destruct (current_state _).
    - case_if_in Hm0; res_inv; [by apply keeps_same|]. case_if; by apply keeps_same.
    - destruct a; [|done]. by apply state_refill_keeps in Hm0.
    - res_inv. by eapply state_transfer_keeps. }
  eapply keeps_trans; [exact K|]. case_if_in H; res_inv; by apply keeps_same.
Qed.

Lemma initiate_keeps dir now vreg va n rs d t s d' t' s' :
  initiate dir now vreg va n rs d t s = Ok (d', t', s') -> keeps d d'.
Proof.
  unfold initiate. intros H. res_inv. case_if_in H; [done|]. bool_prop. res_inv.
  match type of H with context [next_state_scheduled ?x] =>
    apply (keeps_trans d x); [intros I; split; [exact (dma_inv_cons d vreg va n dir rs I Hif)|cbn; lia]|] end.
  case_if_in H; [res_inv; by apply keeps_same|].
  eapply keeps_trans; [|by eapply nextState_keeps]. by apply keeps_same.
Qed.

(** ** The engine as a transition system

    A due event is taken off the queue before its handler runs.  [env] is what
    the rest of the system may do in between. *)
Inductive dma_step (env : S -> S -> Prop) (now : Z) : DMA * TLB * S -> DMA * TLB * S -> Prop :=
| dma_initiate dir vreg va n rs d t s x :
    initiate dir now vreg va n rs d t s = Ok x -> dma_step env now (d, t, s) x
| dma_nextState d t s x : nextStateEvent d = Some now ->
    nextState now (d <| nextStateEvent := None |>) t s = Ok x -> dma_step env now (d, t, s) x
| dma_response pkt d t s d' s' : recvTimingResp now pkt d s = Ok (d', s') ->
    dma_step env now (d, t, s) (d', t, s')
| dma_send d t s d' s' : sendEvent d = Some now ->
    sendDma now (d <| sendEvent := None |>) s = Ok (d', s') -> dma_step env now (d, t, s) (d', t, s')
| dma_retry d t s d' s' : recvRetry now d s = Ok (d', s') -> dma_step env now (d, t, s) (d', t, s')
| dma_done e d t s : dmaDoneEventAll d !! e = Some (Some now) ->
    dma_step env now (d, t, s) (dmaDoneEvent_process e d, t, s)
| dma_drain d t s : dma_step env now (d, t, s) (fst (port_drain d), t, s)
| dma_elsewhere d t s t' s' : env s s' -> dma_step env now (d, t, s) (d, t', s').

Inductive dma_reach (env : S -> S -> Prop) : DMA * TLB * S -> DMA * TLB * S -> Prop :=
| dma_reach_refl x : dma_reach env x x
| dma_reach_step now x y z : dma_reach env x y -> dma_step env now y z -> dma_reach env x z.

Lemma dma_step_keeps env now x y : dma_step env now x y -> keeps (fst (fst x)) (fst (fst y)).
Proof.
  intros H. destruct H as [dir vreg va n rs d t s [[d' t'] s'] H|d t s [[d' t'] s'] _ H|pkt d t s d' s' H
    |d t s d' s' _ H|d t s d' s' H|e d t s _|d t s|]; cbn [fst].
  - by eapply initiate_keeps.
  - eapply keeps_trans; [|by eapply nextState_keeps]. by apply keeps_same.
  - by eapply handleResp_keeps.
  - eapply keeps_trans; [|by eapply sendDma_keeps]. by apply keeps_same.
  - unfold recvRetry in H. res_inv. by eapply trySend_keeps.
  - by apply keeps_same.
  - unfold port_drain. case_if; by apply keeps_same.
  - by apply keeps_same.
Qed.

(** C21. In every reachable state the busy resources are exactly those of the
    pending requests, and no two pending requests share a resource. *)
Theorem dma_reach_inv (env : S -> S -> Prop) (x y : DMA * TLB * S) :
  dma_inv (fst (fst x)) -> dma_reach env x y -> dma_inv (fst (fst y)).
Proof.
  intros I H. induction H as [|now x y z _ IH Hs]; [done|].
  exact (proj1 (dma_step_keeps env now y z Hs (IH I))).
Qed.

(** ** The status register

    What the engine relies on for its status register at address [A]: its own
    write sets it, and neither its transfers nor the refills of the TLB reach
    it. *)
Class StatusRegister (A : Z) := {
  status : S -> option Z;
  status_write v s s' : write_mem_1byte A v s = Ok s' -> status s' = Some v;
  status_sendAtomic p s s' l : dma_sendAtomic p s = Ok (s', l) -> status s' = status s;
  status_sendTimingReq now p s s' b : dma_sendTimingReq now p s = Ok (s', b) -> status s' = status s;
  status_refill p s s' p' : sendFunctional p s = Ok (s', p') -> status s' = status s;
  status_refill_atomic now p s s' p' l : sendAtomic now p s = Ok (s', p', l) -> status s' = status s;
  status_postInterrupt s : status (postInterrupt s) = status s
}.

Section Status.

Context (A : Z) `{!StatusRegister A}.

Definition mirrors (d : DMA) (s : S) : Prop :=
  PIM_DMA_STATUS_ADDR d = A /\ status s = Some (dma_resources d).

Lemma handle_packet_mirrors a sz d s d' s' : handle_packet a sz d s = Ok (d', s') ->
  mirrors d s -> mirrors d' s'.
Proof.
  intros H I. unfold handle_packet in H. destruct (matches a (requests d)) as [|[i id] [|]]; [done| |done].
  res_inv. case_if_in H; [|by res_inv]. res_inv. split; [apply I|].
  unfold update_status_register in *.
  match goal with W : write_mem_1byte ?a _ _ = Ok s' |- _ =>
    change a with (PIM_DMA_STATUS_ADDR d) in W; rewrite (proj1 I) in W; by apply status_write in W end.
Qed.

Lemma handleResp_mirrors now pkt dly d s d' s' : handleResp now pkt dly d s = Ok (d', s') ->
  mirrors d s -> mirrors d' s'.
Proof.
  unfold handleResp. intros H I. res_inv.
  match goal with H : handle_packet _ _ ?x _ = Ok (?y, _) |- _ => assert (mirrors y s'); [
    eapply handle_packet_mirrors; [exact H|]|by case_if] end.
  match goal with H : (if totBytes _ =? _ then _ else _) = Ok _ |- _ =>
      case_if_in H; [destruct (completionEvent _)|]; res_inv; exact I end.
Qed.

Lemma trySend_mirrors now d s d' s' : trySendTimingReq now d s = Ok (d', s') ->
  mirrors d s -> mirrors d' s'.
Proof.
  unfold trySendTimingReq. destruct (transmitList d) as [|p rest]; [done|]. intros H I. res_inv.
  assert (mirrors d s0).
  { split; [apply I|]. erewrite status_sendTimingReq by done. apply I. }
  case_if_in H; [|by res_inv]. destruct rest; by res_inv.
Qed.

Lemma sendDma_mirrors now d s d' s' : sendDma now d s = Ok (d', s') -> mirrors d s -> mirrors d' s'.
Proof.
  unfold sendDma. destruct (transmitList d) as [|q l]; [done|]. destruct (sys_mode d); [| |done].
  - generalize (length (q :: l)). clear q l. intros fuel. revert d s.
    induction fuel as [|fuel IH]; intros d s H I; cbn [sendDma_atomic] in H;
      destruct (transmitList d) as [|p rest]; res_inv; try done.
    eapply IH; [done|]. eapply handleResp_mirrors; [done|].
    split; [apply I|]. erewrite status_sendAtomic by done. apply I.
  - case_if; [by intros [= <- <-]|apply trySend_mirrors].
Qed.

Lemma queue_mirrors c id ptr chunks d s : mirrors d s ->
  mirrors (foldl (fun d '(ca, cs, off) => queueDma (mkDmaPacket c ca cs (ptr + off) id) d) d chunks) s.
Proof. revert d. induction chunks as [|[[ca cs] off] l IH]; intros d I; [done|]. by apply IH. Qed.

Lemma state_transfer_mirrors now curr d t s d' s' :
  state_transfer now curr d t s = Ok (d', s') -> mirrors d s -> mirrors d' s'.
Proof.
  unfold state_transfer, dmaAction. intros H I. res_inv.
  match goal with H : sendDma _ _ _ = Ok (?y, _) |- _ => assert (mirrors y s'); [
    eapply sendDma_mirrors; [exact H|]; by apply queue_mirrors|done] end.
Qed.

Lemma refill_mirrors (b : bool) now a t s t' s' d :
  (if b then refillTLB_functional now a t s else refillTLB_atomic now a t s) = Ok (t', s') ->
  mirrors d s -> mirrors d s'.
Proof.
  intros H I. split; [apply I|]. transitivity (status s); [|apply I].
  destruct b; unfold refillTLB_functional, refillTLB_atomic in H; res_inv;
    (case_if_in H; [done|]); res_inv; [by eapply status_refill|by eapply status_refill_atomic].
Qed.

Lemma state_refill_mirrors now curr d t s d' t' s' :
  state_refill now curr d t s = Ok (d', t', s') -> mirrors d s -> mirrors d' s'.
Proof.
  unfold state_refill. intros H I. case_if_in H; [|by res_inv]. res_inv. case_if_in Hm0; [|by res_inv].
  by apply (refill_mirrors _ _ _ _ _ _ _ d) in Hm0.
Qed.

Lemma nextState_mirrors now d t s d' t' s' : nextState now d t s = Ok (d', t', s') ->
  mirrors d s -> mirrors d' s'.
Proof.
  unfold nextState. intros H I. res_inv.
  match goal with H : match current_state ?x with _ => _ end = Ok (?y, _, ?z) |- _ =>
    assert (J : mirrors x s) by (by case_if); set (dd := x) in *; clearbody dd; assert (K : mirrors y z) end.
  { destruct (current_state _).
    - case_if_in Hm0; res_inv; [done|]. by case_if.
    - destruct a; [|done]. by eapply state_refill_mirrors.
    - res_inv. by eapply state_transfer_mirrors. }
  case_if_in H; res_inv; [done|]. split; [apply K|]. rewrite status_postInterrupt. apply K.
Qed.

Lemma initiate_mirrors dir now vreg va n rs d t s d' t' s' :
  initiate dir now vreg va n rs d t s = Ok (d', t', s') -> mirrors d s -> mirrors d' s'.
Proof.
  unfold initiate, update_status_register. intros H I. res_inv. case_if_in H; [done|]. res_inv.
  match goal with W : write_mem_1byte ?a _ _ = Ok ?s1 |- _ =>
    change a with (PIM_DMA_STATUS_ADDR d) in W; rewrite (proj1 I) in W; apply status_write in W;
    match type of H with context [next_state_scheduled ?x] =>
      assert (J : mirrors x s1) by (split; [apply I|exact W]); set (dd := x) in *; clearbody dd end end.
  case_if_in H; [by res_inv|]. by eapply nextState_mirrors.
Qed.

Lemma reach_mirrors (env : S -> S -> Prop) (x y : DMA * TLB * S) :
  (forall s s', env s s' -> status s' = status s) ->
  mirrors (fst (fst x)) (snd x) -> dma_reach env x y -> mirrors (fst (fst y)) (snd y).
Proof.
  intros He I H. induction H as [|now x y z _ IH Hs]; [done|]. specialize (IH I). clear I.
  destruct Hs as [dir vreg va n rs d t s [[d' t'] s'] H|d t s [[d' t'] s'] _ H|pkt d t s d' s' H
    |d t s d' s' _ H|d t s d' s' H|e d t s _|d t s|d t s t' s' H]; cbn [fst snd] in *.
  - by eapply initiate_mirrors.
  - by eapply nextState_mirrors.
  - by eapply handleResp_mirrors.
  - by eapply sendDma_mirrors.
  - unfold recvRetry in H. res_inv. by eapply trySend_mirrors.
  - done.
  - unfold port_drain. by case_if.
  - split; [apply IH|]. rewrite (He _ _ H). apply IH.
Qed.

End Status.

(** C37. A transfer becomes packets that tile its physical range without crossing
    cache lines, each with the vector-register address of its bytes, queued
    behind the packets already waiting, and counted as pending. *)
Theorem dmaAction_tiles (now : Z) (c : Command) (a sz : Z) (ev : option nat) (ptr dly k : Z)
    (d : DMA) (s : S) :
  cacheLineSize d = 0 \/ cacheLineSize d = 2 ^ k /\ 0 <= k < 31 ->
  0 <= a -> 0 < sz < 2 ^ 31 -> a + sz + cacheLineSize d < 2 ^ 64 ->
  exists cs d', dmaAction now c a sz ev ptr dly d s = sendDma now d' s /\
    tiles (cacheLineSize d) a a sz cs /\
    transmitList d' = transmitList d ++
      ((fun '(ca, cz, off) => mkDmaPacket c ca cz (ptr + off) (next_id d)) <$> cs) /\
    reqStates d' !! next_id d = Some (mkReqState ev sz 0 dly) /\
    u32 (pendingCount d') = u32 (pendingCount d + Z.of_nat (length cs)).
Proof.
  intros Hl Ha Hs He. unfold dmaAction.
  assert (E32 : u32 sz = sz) by (apply wrap_id; unfold inw; lia).
  rewrite E32, (u64_small sz) by lia.
  match goal with |- context [ChunkGenerator_new a sz (cacheLineSize ?x)] =>
    change (cacheLineSize x) with (cacheLineSize d); set (d1 := x) end.
  destruct (ChunkGenerator_new_inv a sz (cacheLineSize d) k Hl Ha Hs He) as (g & -> & Hg & E1 & E2).
  cbn [mbind res_bind].
  destruct (gen_loop_tiles (Z.to_nat sz) (cacheLineSize d) sz g Hg) as (cs & -> & Ht); [lia|].
  rewrite E1, E2 in Ht. cbn [deref mbind res_bind].
  destruct (queue_fields c (next_id d) ptr cs d1) as (_ & _ & _ & F4 & _ & F6 & F7).
  eexists cs, _. split; [reflexivity|]. rewrite F4, F6, F7. split; [done|]. split; [done|].
  split; [|done]. unfold d1. cbn [reqStates field_upd]. by rewrite lookup_insert_eq.
Qed.

End Preservation.

(** ** Where transfers go wrong *)
Section Defects.

Context {S : Type} {WS : DmaWorld S} {DS : MemDevice S}.

(** [n] firings of the engine's event, one period apart. *)
Fixpoint run_events (n : nat) (now : Z) (d : DMA) (t : TLB) (s : S) : res (DMA * TLB * S) :=
  match n with
  | O => Ok (d, t, s)
  | Datatypes.S n' =>
      '(d, t, s) ← nextState now (d <| nextStateEvent := None |>) t s;
      run_events n' (now + clk_per_ps d) d t s
  end.

(** A request for a single byte is the only one, and nothing was sent for it. *)
Record stuck (d : DMA) (r : DMARequest) : Prop := {
  st_only : requests d = [r];
  st_byte : mem_vstart r = mem_vend r;
  st_state : current_state d = DMA_STATE_IDLE /\ (current_index d = -1 \/ current_index d = 0) \/
             current_state d = DMA_STATE_TLBREFILL /\ current_index d = 0
}.

Lemma stuck_step now d t s r : stuck d r -> nextStateEvent d = None -> 0 <= now -> 0 <= clk_per_ps d ->
  now + clk_per_ps d < 2 ^ 64 ->
  exists d' r', nextState now d t s = Ok (d', t, s) /\ stuck d' r' /\
    bytes_completed r' = bytes_completed r /\ dma_resource r' = dma_resource r /\
    transmitList d' = transmitList d /\ dma_resources d' = dma_resources d /\
    clk_per_ps d' = clk_per_ps d.
Proof.
  intros [H1 H2 H3] Hev N1 N2 N3. unfold nextState, state_refill.
  assert (Hsch : schedule None now (u64 (now + clk_per_ps d)) = Ok (Some (now + clk_per_ps d))).
  { unfold schedule. rewrite u64_small by lia. by rewrite (proj2 (Z.leb_le _ _)) by lia. }
  destruct d. cbn [requests nextStateEvent clk_per_ps current_state current_index] in *. subst.
  rewrite bool_decide_false by done.
  assert (Hfin : forall cs ci r', mem_vstart r' = mem_vend r' ->
    cs = DMA_STATE_IDLE /\ (ci = -1 \/ ci = 0) \/ cs = DMA_STATE_TLBREFILL /\ ci = 0 ->
    stuck (mkDMA [r'] ci isTimingMode0 clk_per_ps0 cs true (Some (now + clk_per_ps0)) dma_resources0
      PIM_DMA_STATUS_ADDR0 dmaDoneEventAll0 dmaDoneEventFree0 transmitList0 sendEvent0 sys_mode0
      cacheLineSize0 clockPeriod0 pendingCount0 port_drainManager0 port_drainSignals0 inRetry0
      reqStates0 next_id0) r') by (intros; split; done).
  destruct H3 as [[-> Hi]|[-> ->]].
  - assert (Hc : exists c, (if negb (current_index0 =? -1) then
       r0 ← deref ([r] !! Z.to_nat current_index0); Ok (Some r0) else Ok None) = Ok c)
      by (destruct Hi as [-> | ->]; eauto). destruct Hc as [c Hc].
    cbn [negb current_index requests current_state]. rewrite Hc. cbn [mbind res_bind].
    destruct (issued r) eqn:Eis; cbn [field_upd requests first_unissued]; rewrite Eis;
      cbn -[schedule u64]; rewrite Hsch; cbn [mbind res_bind];
      eexists _, r; (split; [reflexivity|]); (split; [apply Hfin; [done|auto]|done]).
  - assert (Hlt : (mem_vstart r <? mem_vend r) = false) by (rewrite H2; apply Z.ltb_irrefl).
    cbn [negb current_index requests current_state Z.eqb ].
    change ([r] !! Z.to_nat 0) with (Some r). cbn [deref mbind res_bind]. rewrite Hlt. cbn -[schedule u64]. rewrite Hsch. cbn [mbind res_bind]. eexists _, (r <| issued := true |>). split; [reflexivity|].
    rewrite Z.eqb_refl. split; [|done]. apply Hfin; [done|]. auto.
Qed.

Lemma stuck_run n now d t s r : stuck d r -> 0 <= now -> 0 <= clk_per_ps d ->
  now + Z.of_nat n * clk_per_ps d < 2 ^ 64 ->
  exists d' r', run_events n now d t s = Ok (d', t, s) /\ requests d' = [r'] /\
    bytes_completed r' = bytes_completed r /\ dma_resource r' = dma_resource r /\
    transmitList d' = transmitList d /\ dma_resources d' = dma_resources d.
Proof.
  revert now d r. induction n as [|n IH]; intros now d r Hst N1 N2 N3; cbn [run_events].
  - exists d, r. destruct Hst. done.
  - assert (Hst1 : stuck (d <| nextStateEvent := None |>) r) by (destruct Hst; split; done).
    destruct (stuck_step now (d <| nextStateEvent := None |>) t s r Hst1) as
      (d1 & r1 & -> & Hs1 & E1 & E2 & E3 & E4 & E5); [done|lia|cbn; lia|cbn; nia|].
    cbn [mbind res_bind]. cbn in E3, E4, E5.
    destruct (IH (now + clk_per_ps d1) d1 r1 Hs1) as (d' & r' & -> & F1 & F2 & F3 & F4 & F5); try nia.
    exists d', r'. split_and!; try done; congruence.
Qed.

(** A one-byte transfer is never carried out.  The engine takes the request,
    marks it issued, and from then on however often its event fires the
    request stays pending with no byte transferred, no packet is sent, and
    the resource stays busy. *)
Theorem one_byte_stuck (dir : bool) (n : nat) (now vreg va rs : Z) (d : DMA) (t : TLB) (s s1 : S) :
  requests d = [] -> current_state d = DMA_STATE_IDLE -> current_index d = -1 ->
  next_state_scheduled d = false -> nextStateEvent d = None -> transmitList d = [] ->
  0 <= va < 2 ^ 64 -> rs <> 0 -> Z.land (dma_resources d) rs = 0 ->
  write_mem_1byte (PIM_DMA_STATUS_ADDR d) (Z.lor (dma_resources d) rs) s = Ok s1 ->
  0 <= now -> 0 <= clk_per_ps d -> now + Z.of_nat (n + 1) * clk_per_ps d < 2 ^ 64 ->
  exists d1 d' r',
    initiate dir now vreg va 1 rs d t s = Ok (d1, t, s1) /\
    run_events n (now + clk_per_ps d) d1 t s1 = Ok (d', t, s1) /\
    requests d' = [r'] /\ bytes_completed r' = 0 /\
    dma_resource r' = rs /\ transmitList d' = [] /\ dma_resources d' = Z.lor (dma_resources d) rs.
Proof.
  intros Hr Hs Hi Hn Hev Htl Hva Hrs Hz Hw N1 N2 N3. unfold initiate, update_status_register.
  rewrite (proj2 (Z.eqb_neq rs 0)) by done. cbn [negb assert_ mbind res_bind].
  rewrite Hz. cbn [Z.eqb negb].
  change (PIM_DMA_STATUS_ADDR d <| dma_resources := _ |>) with (PIM_DMA_STATUS_ADDR d).
  change (dma_resources d <| dma_resources := ?v |>) with v. rewrite Hw. cbn [mbind res_bind].
  match goal with |- context [next_state_scheduled ?x] =>
    change (next_state_scheduled x) with (next_state_scheduled d); rewrite Hn; set (d0 := x) end.
  set (r := DMARequest_new (next_id d) vreg va 1 dir rs).
  assert (Hst : stuck (d0 <| next_state_scheduled := true |>) r).
  { split.
    - change (requests d0 <| next_state_scheduled := true |>) with (r :: requests d). by rewrite Hr.
    - cbn [mem_vstart mem_vend r DMARequest_new]. unfold u64. rewrite wrap_sub_l, wrap_id; [lia|unfold inw; lia].
    - left. split; [exact Hs|]. left. exact Hi. }
  destruct (stuck_step now _ t s1 r Hst) as (d1 & r1 & E & Hs1 & E1 & E2 & E3 & E4 & E5);
    [exact Hev|done|exact N2|change (clk_per_ps d0 <| next_state_scheduled := true |>) with (clk_per_ps d); nia|].
  change (clk_per_ps d0 <| next_state_scheduled := true |>) with (clk_per_ps d) in E5.
  destruct (stuck_run n (now + clk_per_ps d) d1 t s1 r1 Hs1) as (d' & r' & F & F1 & F2 & F3 & F4 & F5); try nia.
  exists d1, d', r'. split_and!; try done; [by rewrite F2, E1|by rewrite F3, E2|rewrite F4, E3; exact Htl|by rewrite F5, E4].
Qed.

(** A request that arrives while another is being served is put in front of
    it, but the index of the request being served is not moved: the next step
    of a transfer works on the newcomer. *)
Theorem initiate_shifts_current (dir : bool) (now vreg va n rs : Z) (d : DMA) (t : TLB) (s s1 : S)
    (a : DMARequest) rest :
  requests d = a :: rest -> current_index d = 0 -> current_state d = DMA_STATE_TRANSFER ->
  next_state_scheduled d = true -> rs <> 0 -> Z.land (dma_resources d) rs = 0 ->
  write_mem_1byte (PIM_DMA_STATUS_ADDR d) (Z.lor (dma_resources d) rs) s = Ok s1 ->
  let b := DMARequest_new (next_id d) vreg va n dir rs in
  exists d', initiate dir now vreg va n rs d t s = Ok (d', t, s1) /\
    requests d' = b :: a :: rest /\ current_state d' = DMA_STATE_TRANSFER /\
    forall now' t', nextState now' d' t' s1 =
      ('(d, s) ← state_transfer now' b d' t' s1;
       ev ← schedule (nextStateEvent d) now' (u64 (now' + clk_per_ps d));
       Ok (d <| next_state_scheduled := true |> <| nextStateEvent := ev |>, t', s)).
Proof.
  intros Hr Hi Hst Hn Hrs Hz Hw b. unfold initiate, update_status_register.
  rewrite (proj2 (Z.eqb_neq rs 0)) by done. cbn [negb assert_ mbind res_bind].
  rewrite Hz. cbn [Z.eqb negb].
  change (PIM_DMA_STATUS_ADDR d <| dma_resources := _ |>) with (PIM_DMA_STATUS_ADDR d).
  change (dma_resources d <| dma_resources := ?v |>) with v. rewrite Hw. cbn [mbind res_bind].
  match goal with |- context [next_state_scheduled ?x] =>
    change (next_state_scheduled x) with (next_state_scheduled d); rewrite Hn; set (d' := x) end.
  assert (Hr' : requests d' = b :: a :: rest).
  { change (requests d') with (b :: requests d). by rewrite Hr. }
  assert (Hi' : current_index d' = 0) by exact Hi.
  assert (Hst' : current_state d' = DMA_STATE_TRANSFER) by exact Hst.
  clearbody d'. exists d'. split_and!; try done. intros now' t'. unfold nextState.
  rewrite (bool_decide_false (requests d' = [])) by (by rewrite Hr').
  rewrite Hi', Hr', Hst'. cbn [negb Z.eqb].
  change ((b :: a :: rest) !! Z.to_nat 0) with (Some b). cbn [deref mbind res_bind].
  destruct (state_transfer now' b d' t' s1) as [[d2 s2]|]; done.
Qed.

End Defects.

(** ** Examples and witnesses

    A world that accepts everything: its state is the status register. *)
#[local] Instance ex_world : DmaWorld Z := {
  dma_sendAtomic _ s := Ok (s, 0);
  dma_sendTimingReq _ _ s := Ok (s, true);
  write_mem_1byte _ v _ := Ok v;
  postInterrupt s := s;
  clearInterrupt s := s;
  cpu_suspended _ := false
}.
#[local] Instance ex_device : MemDevice Z := {
  sendFunctional p s := Ok (s, p);
  sendAtomic _ p s := Ok (s, p, 0);
  sendTimingReq _ p s := Ok (s, p, true)
}.

Definition ex_dma (mode : MemoryMode) : DMA :=
  mkDMA [] (-1) true 1000 DMA_STATE_IDLE false None 0 0x40 (replicate maxOutstandingDma None)
    (seq 0 maxOutstandingDma) [] None mode 64 1000 0 false 0 false ∅ 1.

Lemma ex_dma_inv mode : dma_inv (ex_dma mode).
Proof. split; [apply NoDup_nil_2|constructor|done|done]. Qed.

(** In atomic mode the responses of a transfer are handled before the call
    that sends it returns.  The last one deletes the request, which the state
    machine then goes on to use. *)
Theorem atomic_use_after_free :
  exists d, initiate_read 0 0 4096 8 1 (ex_dma AtomicMode) ex_full 0 = Ok (d, ex_full, 1) /\
    run_events 1 1000 d ex_full 1 <> Err Undefined /\
    run_events 2 1000 d ex_full 1 = Err Undefined.
Proof. eexists. split; [vm_compute; reflexivity|]. split; vm_compute; done. Qed.

(** The same transfer in timing mode is sent as one packet and stays alive
    until its response. *)
Example timing_transfer :
  exists d d' pkt, initiate_read 0 0 4096 8 1 (ex_dma TimingMode) ex_full 0 = Ok (d, ex_full, 1) /\
    run_events 2 1000 d ex_full 1 = Ok (d', ex_full, 1) /\
    pkt = mkDmaPacket ReadResp 96 8 0 2 /\
    exists d'', recvTimingResp 5000 pkt d' 1 = Ok (d'', 0) /\ requests d'' = [].
Proof.
  do 3 eexists. split; [vm_compute; reflexivity|]. split; [vm_compute; reflexivity|].
  split; [reflexivity|]. eexists. split; vm_compute; reflexivity.
Qed.

Lemma dmaAction_tiles_witness :
  exists cs d', dmaAction 0 ReadReq 96 100 (Some 3%nat) 8 0 (ex_dma TimingMode) 0 = sendDma 0 d' 0 /\
    tiles 64 96 96 100 cs.
Proof.
  destruct (dmaAction_tiles 0 ReadReq 96 100 (Some 3%nat) 8 0 6 (ex_dma TimingMode) 0)
    as (cs & d' & H1 & H2 & _).
  - right. split; [reflexivity|lia].
  - lia.
  - lia.
  - cbn. lia.
  - exists cs, d'. split; [exact H1|exact H2].
Defined.

Lemma one_byte_stuck_witness :
  exists d1 d' r', initiate true 0 0 4096 1 1 (ex_dma TimingMode) ex_full 0 = Ok (d1, ex_full, 1) /\
    run_events 100 1000 d1 ex_full 1 = Ok (d', ex_full, 1) /\ requests d' = [r'] /\
    transmitList d' = [].
Proof.
  destruct (one_byte_stuck true 100 0 0 4096 1 (ex_dma TimingMode) ex_full 0 1)
    as (d1 & d' & r' & H1 & H2 & H3 & _ & _ & H4 & _); try reflexivity; try (cbn; lia); try done.
  exists d1, d', r'. split; [exact H1|]. split; [exact H2|]. split; [exact H3|exact H4].
Defined.

(** An engine in the middle of serving its only request. *)
Definition ex_serving : DMA :=
  (ex_dma TimingMode) <| requests := [DMARequest_new 0 0 4096 8 true 1] |> <| current_index := 0 |>
    <| current_state := DMA_STATE_TRANSFER |> <| next_state_scheduled := true |>
    <| dma_resources := 1 |>.

Lemma initiate_shifts_current_witness :
  exists d', initiate true 7 64 4100 4 2 ex_serving ex_full 1 = Ok (d', ex_full, 3) /\
    requests d' = [DMARequest_new 1 64 4100 4 true 2; DMARequest_new 0 0 4096 8 true 1].
Proof.
  destruct (initiate_shifts_current true 7 64 4100 4 2 ex_serving ex_full 1 3
              (DMARequest_new 0 0 4096 8 true 1) []) as (d' & H1 & H2 & _); try reflexivity; try done.
  exists d'. split; [exact H1|exact H2].
Defined.

Lemma ex_serving_inv : dma_inv ex_serving.
Proof.
  split; cbn.
  - apply NoDup_singleton.
  - repeat constructor.
  - intros [|i] [|j] a b Hij Ha Hb; done.
  - done.
Qed.

Lemma dma_reach_inv_witness :
  exists d', initiate true 7 64 4100 4 2 ex_serving ex_full 1 = Ok (d', ex_full, 3) /\ dma_inv d'.
Proof.
  eexists. split; [reflexivity|].
  refine (dma_reach_inv (fun _ _ => True) (ex_serving, ex_full, 1) (_, ex_full, 3) ex_serving_inv _).
  eapply dma_reach_step; [apply dma_reach_refl|].
  apply (dma_initiate _ 7 true 64 4100 4 2). reflexivity.
Defined.
