(* ===== verification/Coproc.v ===== *)
(** * The coprocessor of the PIM device

    Models the scalar registers and the coprocessor commands of
    [mem/ethz_pim_memory.cc] ([run_coprocessor_32b], [run_coprocessor_64b]),
    the construction parameters of [mem/ethz_pim_memory.hh] and the node
    structure of [mem/ethz_sgraph_definitions.hh].

    The commands read and write the backing store of the PIM memory directly,
    so they are functions on its bytes; an access outside is [Undefined].
    Console output is left out. *)

From S2P Require Import Prelude.
From S2P Require Import Float32.
From Stdlib Require Import SpecFloat.

(** ** Parameters of the device *)
Record PimParams := mkPimParams {
  PIM_ADDRESS_BASE : Z;
  PIM_DEBUG_ADDR : Z;
  PIM_ERROR_ADDR : Z;
  PIM_INTR_ADDR : Z;
  PIM_SLICETABLE_ADDR : Z;
  PIM_SLICECOUNT_ADDR : Z;
  PIM_SLICEVSTART_ADDR : Z;
  PIM_M5_ADDR : Z;
  PIM_M5_D1_ADDR : Z;
  PIM_M5_D2_ADDR : Z;
  PIM_VREG_ADDR : Z;
  PIM_VREG_SIZE : Z;
  PIM_SREG_ADDR : Z;
  PIM_DTLB_IDEAL_REFILL_ADDR : Z;
  PIM_DMA_MEM_ADDR_ADDR : Z;
  PIM_DMA_SPM_ADDR_ADDR : Z;
  PIM_DMA_NUMBYTES_ADDR : Z;
  PIM_DMA_COMMAND_ADDR : Z;
  PIM_DMA_CLI_ADDR : Z;
  PIM_COPROCESSOR_CMD_ADDR : Z;
  HMC_ATOMIC_INCR_ADDR : Z;
  pp_arch : Z
}.

(** ** Commands *)
Definition CMD_NOP : Z := 0.
Definition CMD_TO_FLOAT : Z := 1.
Definition CMD_FDIV : Z := 2.
Definition CMD_FMUL : Z := 3.
Definition CMD_FCMP : Z := 4.
Definition CMD_FACC : Z := 5.
Definition CMD_FSUB : Z := 6.
Definition CMD_FABS : Z := 7.
Definition CMD_FPRINT : Z := 8.
Definition CMD_TO_FIXED : Z := 9.
Definition CMD_CUSTOM_PR1 : Z := 10.

(** ** A PageRank node; [float] fields as their 32-bit patterns *)
Record node_pr_32 := mkNode {
  page_rank : Z;
  next_rank : Z;
  ID : Z;
  out_degree : Z;
  successors : Z
}.

Definition sizeof_node_pr_32 : Z := 20.

(** ** Typed accesses to the backing store *)
Definition rd_u32 (mem : list Z) (p : Z) : res Z :=
  bs ← arr_read mem p 4; Ok (le_val bs).
Definition wr_u32 (mem : list Z) (p v : Z) : res (list Z) := arr_write mem p (le_bytes 4 v).
Definition rd_f32 (mem : list Z) (p : Z) : res spec_float :=
  u ← rd_u32 mem p; Ok (f32_of_bits u).
Definition wr_f32 (mem : list Z) (p : Z) (f : spec_float) : res (list Z) :=
  wr_u32 mem p (f32_to_bits f).

(** The constants [0.15] and [1000000.0], of type [double]. *)
Definition c_0_15 : spec_float := S754_finite false 5404319552844595 (-55).
Definition c_1e6 : spec_float := f64_of_int 1000000.
Definition f32_zero : spec_float := S754_zero false.

(** [f = x - y; if (f < 0) f = -f;] *)
Definition abs_diff (x y : spec_float) : spec_float :=
  let f := f32_sub x y in if f32_lt f f32_zero then f32_neg f else f.

(** [0.15 / (float)NODES], stored in a [float] *)
Definition base_rank (NODES : Z) : spec_float :=
  f32_round (f64_div c_0_15 (f64_of_f32 (f32_of_uint NODES))).

Section Commands.

Context (P : PimParams) (start : Z).

(** [S0] to [S3]: the place of a scalar register in the backing store. *)
Definition sreg (i : Z) : Z := PIM_SREG_ADDR P + i * (pp_arch P / 8) - start.

(** A command on two registers that stores a float in a third. *)
Definition binary_op (op : spec_float -> spec_float -> spec_float) (dst : Z) (mem : list Z)
  : res (list Z) :=
  op0 ← rd_f32 mem (sreg 0);
  op1 ← rd_f32 mem (sreg 1);
  wr_f32 mem (sreg dst) (op op0 op1).

(** The loop of [CMD_CUSTOM_PR1], [k] iterations from index [rr]. *)
Fixpoint pr1_loop (k : nat) (nodes NODES rr : Z) (diff : spec_float) (mem : list Z)
  : res (list Z * spec_float) :=
  match k with
  | O => Ok (mem, diff)
  | Datatypes.S k =>
      let p := nodes + rr * sizeof_node_pr_32 in
      nr ← rd_f32 mem (p + 4);
      pr ← rd_f32 mem p;
      let diff := f32_add diff (abs_diff nr pr) in
      w ← rd_u32 mem (p + 4);
      mem ← wr_u32 mem p w;
      mem ← wr_f32 mem (p + 4) (base_rank NODES);
      pr1_loop k nodes NODES (rr + 1) diff mem
  end.

Definition custom_pr1 (mem : list Z) : res (list Z) :=
  s0 ← rd_u32 mem (sreg 0);
  let a := u64 (s0 + PIM_ADDRESS_BASE P) in
  count ← rd_u32 mem (sreg 1);
  NODES ← rd_u32 mem (sreg 2);
  _ ← assert_ (PIM_VREG_ADDR P <=? a);
  _ ← assert_ (a <? u64 (PIM_VREG_ADDR P + PIM_VREG_SIZE P));
  '(mem, diff) ← pr1_loop (Z.to_nat count) (a - start) NODES 0 f32_zero mem;
  wr_f32 mem (sreg 3) diff.

Definition run_coprocessor_32b (c : Z) (mem : list Z) : res (list Z) :=
  if c =? CMD_NOP then Ok mem
  else if c =? CMD_TO_FLOAT then
    u ← rd_u32 mem (sreg 0); wr_f32 mem (sreg 1) (f32_of_uint u)
  else if c =? CMD_TO_FIXED then
    f ← rd_f32 mem (sreg 0);
    u ← f32_to_u32 (f32_round (f64_mul (f64_of_f32 f) c_1e6));
    wr_u32 mem (sreg 1) u
  else if c =? CMD_FDIV then binary_op f32_div 2 mem
  else if c =? CMD_FMUL then binary_op f32_mul 2 mem
  else if c =? CMD_FCMP then
    binary_op (fun x y => if f32_lt y x then f32_of_uint 1 else f32_zero) 2 mem
  else if c =? CMD_FSUB then binary_op f32_sub 2 mem
  else if c =? CMD_FACC then binary_op f32_add 1 mem
  else if c =? CMD_FABS then
    op0 ← rd_f32 mem (sreg 0);
    wr_f32 mem (sreg 1) (if f32_le f32_zero op0 then op0 else f32_neg op0)
  else if c =? CMD_FPRINT then _ ← rd_f32 mem (sreg 0); Ok mem
  else if c =? CMD_CUSTOM_PR1 then custom_pr1 mem
  else panic.

Definition run_coprocessor_64b (c : Z) (mem : list Z) : res (list Z) :=
  if c =? CMD_NOP then Ok mem else panic.

(** ** PageRank *)

Definition node_bytes (n : node_pr_32) : list Z :=
  le_bytes 4 (page_rank n) ++ le_bytes 4 (next_rank n) ++ le_bytes 4 (ID n) ++
  le_bytes 4 (out_degree n) ++ le_bytes 4 (successors n).

Definition node_ok (n : node_pr_32) : Prop := inw 32 (page_rank n) /\ inw 32 (next_rank n).

(** What one round of the algorithm does to a node, and to the difference. *)
Definition pr_update (NODES : Z) (n : node_pr_32) : node_pr_32 :=
  n <| page_rank := next_rank n |> <| next_rank := f32_to_bits (base_rank NODES) |>.

Definition pr_diff (d : spec_float) (n : node_pr_32) : spec_float :=
  f32_add d (abs_diff (f32_of_bits (next_rank n)) (f32_of_bits (page_rank n))).

Lemma length_node_bytes n : length (node_bytes n) = 20%nat.
Proof. unfold node_bytes. by rewrite !length_app, !length_le_bytes. Qed.

Lemma length_nodes l : length (concat (node_bytes <$> l)) = (20 * length l)%nat.
Proof.
  induction l as [|x l IH]; [done|].
  change (concat (node_bytes <$> x :: l)) with (node_bytes x ++ concat (node_bytes <$> l)).
  rewrite length_app, length_node_bytes, IH. cbn [length]. lia.
Qed.

Lemma rd_u32_mid pre v post p : inw 32 v -> p = Z.of_nat (length pre) ->
  rd_u32 (pre ++ le_bytes 4 v ++ post) p = Ok v.
Proof.
  intros Hv ->. unfold rd_u32.
  pose proof (arr_read_mid pre (le_bytes 4 v) post) as E. rewrite length_le_bytes in E.
  change (Z.of_nat 4) with 4 in E. rewrite E. cbn [mbind res_bind].
  rewrite le_val_bytes. f_equal. apply Z.mod_small, Hv.
Qed.

Lemma wr_u32_mid pre v v' post p : p = Z.of_nat (length pre) ->
  wr_u32 (pre ++ le_bytes 4 v ++ post) p v' = Ok (pre ++ le_bytes 4 v' ++ post).
Proof. intros ->. apply arr_write_mid. by rewrite !length_le_bytes. Qed.

Lemma rd_f32_mid pre v post p : inw 32 v -> p = Z.of_nat (length pre) ->
  rd_f32 (pre ++ le_bytes 4 v ++ post) p = Ok (f32_of_bits v).
Proof. intros Hv Hp. unfold rd_f32. by rewrite rd_u32_mid. Qed.

Lemma pr1_loop_spec ns : forall nodes NODES rr diff pre post,
  Forall node_ok ns -> Z.of_nat (length pre) = nodes + rr * sizeof_node_pr_32 ->
  pr1_loop (length ns) nodes NODES rr diff (pre ++ concat (node_bytes <$> ns) ++ post) =
  Ok (pre ++ concat (node_bytes <$> (pr_update NODES <$> ns)) ++ post, foldl pr_diff diff ns).
Proof.
  induction ns as [|n ns IH]; intros nodes NODES rr diff pre post Hok Hp; [done|].
  inversion Hok as [|? ? [H1 H2] Hok']; subst. cbn [length pr1_loop]. cbv zeta. rewrite <- Hp.
  cbn [fmap list_fmap concat].
  set (rest := le_bytes 4 (ID n) ++ le_bytes 4 (out_degree n) ++ le_bytes 4 (successors n) ++
               concat (node_bytes <$> ns) ++ post).
  assert (E : pre ++ (node_bytes n ++ concat (node_bytes <$> ns)) ++ post =
    pre ++ le_bytes 4 (page_rank n) ++ le_bytes 4 (next_rank n) ++ rest).
  { unfold node_bytes, rest. by rewrite <- !app_assoc. }
  rewrite E.
  assert (Hl : forall v, Z.of_nat (length pre) + 4 = Z.of_nat (length (pre ++ le_bytes 4 v)))
    by (intros v; rewrite length_app, length_le_bytes; lia).
  set (p4 := Z.of_nat (length pre) + 4) in *.
  rewrite (app_assoc pre), (rd_f32_mid _ _ _ p4) by auto. cbn [mbind res_bind].
  rewrite <- (app_assoc pre), rd_f32_mid by auto. cbn [mbind res_bind].
  rewrite (app_assoc pre), (rd_u32_mid _ _ _ p4) by auto. cbn [mbind res_bind].
  rewrite <- (app_assoc pre), wr_u32_mid by auto. cbn [mbind res_bind].
  rewrite (app_assoc pre). unfold wr_f32. rewrite (wr_u32_mid _ _ _ _ p4) by auto. cbn [mbind res_bind].
  rewrite <- (app_assoc pre).
  assert (E' : pre ++ le_bytes 4 (next_rank n) ++ le_bytes 4 (f32_to_bits (base_rank NODES)) ++ rest =
    (pre ++ node_bytes (pr_update NODES n)) ++ concat (node_bytes <$> ns) ++ post).
  { unfold node_bytes, rest, pr_update. cbn. by rewrite <- !app_assoc. }
  rewrite E', IH; [|done|].
  - cbn [foldl]. by rewrite <- !app_assoc.
  - rewrite length_app, length_node_bytes. unfold sizeof_node_pr_32 in *. lia.
Qed.

(** The PageRank command works on the array of nodes that register 0 points
    to.  It replaces every node by its update (the next rank becomes the rank,
    and the base rank the next one), stores the sum of the absolute changes,
    added in order, in register 3, and changes no other byte. *)
Theorem custom_pr1_spec (pre post : list Z) (ns : list node_pr_32) (s0 NODES : Z) :
  let mem := pre ++ concat (node_bytes <$> ns) ++ post in
  rd_u32 mem (sreg 0) = Ok s0 -> rd_u32 mem (sreg 1) = Ok (Z.of_nat (length ns)) ->
  rd_u32 mem (sreg 2) = Ok NODES -> Forall node_ok ns ->
  let a := u64 (s0 + PIM_ADDRESS_BASE P) in
  PIM_VREG_ADDR P <= a < PIM_VREG_ADDR P + PIM_VREG_SIZE P ->
  0 <= PIM_VREG_ADDR P + PIM_VREG_SIZE P < 2 ^ 64 ->
  a - start = Z.of_nat (length pre) ->
  0 <= sreg 3 -> sreg 3 + 4 <= Z.of_nat (length mem) ->
  exists mem', run_coprocessor_32b CMD_CUSTOM_PR1 mem = Ok mem' /\
    arr_write (pre ++ concat (node_bytes <$> (pr_update NODES <$> ns)) ++ post) (sreg 3)
      (le_bytes 4 (f32_to_bits (foldl pr_diff f32_zero ns))) = Ok mem'.
Proof.
  intros mem R0 R1 R2 Hok a Ha Hv Hp S1 S2.
  change (run_coprocessor_32b CMD_CUSTOM_PR1 mem) with (custom_pr1 mem). unfold custom_pr1.
  rewrite R0. cbn [mbind res_bind]. cbv zeta. fold a. rewrite R1, R2. cbn [mbind res_bind].
  rewrite (u64_small (PIM_VREG_ADDR P + PIM_VREG_SIZE P)) by done.
  rewrite (proj2 (Z.leb_le _ _)), (proj2 (Z.ltb_lt a _)) by lia. cbn [assert_ mbind res_bind].
  rewrite Nat2Z.id, Hp. unfold mem. rewrite pr1_loop_spec by (done || lia). cbn [mbind res_bind].
  unfold wr_f32, wr_u32.
  destruct (arr_write_defined (pre ++ concat (node_bytes <$> (pr_update NODES <$> ns)) ++ post) (sreg 3)
    (le_bytes 4 (f32_to_bits (foldl pr_diff f32_zero ns)))) as [mem' E]; [done| |eauto].
  rewrite length_le_bytes. unfold mem in S2. rewrite !length_app in S2 |- *.
  rewrite !length_nodes in *. rewrite length_fmap. lia.
Qed.

(** ** Scalar commands *)

Lemma wr_u32_frame mem p v mem' o n : wr_u32 mem p v = Ok mem' ->
  o + n <= p \/ p + 4 <= o -> arr_read mem' o n = arr_read mem o n.
Proof.
  intros H Hd. apply (arr_read_write_other _ _ _ _ _ _ H). by rewrite length_le_bytes.
Qed.

(** Which register a scalar command writes. *)
Definition dst_reg (c : Z) : option Z :=
  if existsb (Z.eqb c) [CMD_FDIV; CMD_FMUL; CMD_FCMP; CMD_FSUB] then Some 2
  else if existsb (Z.eqb c) [CMD_TO_FLOAT; CMD_TO_FIXED; CMD_FACC; CMD_FABS] then Some 1
  else None.

Ltac split_command H :=
  repeat (match type of H with (if ?c =? ?k then _ else _) = _ =>
    let E := fresh "E" in destruct (Z.eqb_spec c k) as [E|E]; [subst c|] end).

(** A scalar command changes at most the four bytes of its result register;
    an unknown command panics. *)
Theorem coprocessor_frame (c : Z) (mem mem' : list Z) (o n : Z) :
  c <> CMD_CUSTOM_PR1 -> run_coprocessor_32b c mem = Ok mem' ->
  match dst_reg c with
  | Some r => o + n <= sreg r \/ sreg r + 4 <= o -> arr_read mem' o n = arr_read mem o n
  | None => mem' = mem /\ (c = CMD_NOP \/ c = CMD_FPRINT)
  end.
Proof.
  intros Hc H. unfold run_coprocessor_32b, binary_op, wr_f32 in H. split_command H; try done; res_inv;
    cbn; (by auto) || (intros Hd; by eapply wr_u32_frame).
Qed.

(** [CMD_FABS] clears the sign bit of every number but minus zero, which it
    leaves negative. *)
Theorem coprocessor_fabs (mem : list Z) (b : Z) :
  rd_u32 mem (sreg 0) = Ok b -> inw 32 b -> is_nan (f32_of_bits b) = false ->
  run_coprocessor_32b CMD_FABS mem = wr_u32 mem (sreg 1) (if b =? 2 ^ 31 then b else b mod 2 ^ 31).
Proof.
  intros R Hb Hn. change (run_coprocessor_32b CMD_FABS mem) with
    (op0 ← rd_f32 mem (sreg 0);
     wr_f32 mem (sreg 1) (if f32_le f32_zero op0 then op0 else f32_neg op0)).
  unfold rd_f32. rewrite R. cbn [mbind res_bind]. unfold wr_f32. f_equal.
  by apply fabs_bits.
Qed.

End Commands.

(** ** Examples and witnesses

    A 32-bit device whose registers and vector file lie in the first 256 bytes
    from address 4096. *)
Definition ex_params : PimParams :=
  mkPimParams 4096 4224 4225 4226 4228 4232 4236 4240 4244 4248 4128 64 4096 4252 4256 4260 4264
    4268 4269 4270 4272 32.

Definition ex_nodes : list node_pr_32 :=
  [mkNode 0x3f000000 0x3e800000 0 1 0; mkNode 0x3e800000 0x3f400000 1 1 0].
Definition ex_regs : list Z :=
  le_bytes 4 32 ++ le_bytes 4 2 ++ le_bytes 4 4 ++ replicate 20 0.

Lemma custom_pr1_spec_witness :
  exists mem', run_coprocessor_32b ex_params 4096 CMD_CUSTOM_PR1
                 (ex_regs ++ concat (node_bytes <$> ex_nodes) ++ replicate 8 0) = Ok mem' /\
    rd_u32 mem' 12 = Ok 0x3f400000 /\ rd_u32 mem' 32 = Ok 0x3e800000 /\ rd_u32 mem' 52 = Ok 0x3f400000.
Proof.
  destruct (custom_pr1_spec ex_params 4096 ex_regs (replicate 8 0) ex_nodes 32 4)
    as (mem' & H1 & H2).
  1-3: vm_compute; reflexivity.
  - repeat constructor; vm_compute; congruence.
  - vm_compute. split; congruence.
  - vm_compute. split; congruence.
  - reflexivity.
  - vm_compute. congruence.
  - vm_compute. congruence.
  - exists mem'. split; [exact H1|]. vm_compute in H2. injection H2 as <-. vm_compute. auto.
Defined.

Lemma coprocessor_frame_witness :
  exists mem', run_coprocessor_32b ex_params 4096 CMD_FDIV (ex_regs ++ replicate 8 9) = Ok mem' /\
    arr_read mem' 0 8 = arr_read (ex_regs ++ replicate 8 9) 0 8.
Proof.
  eexists. split; [vm_compute; reflexivity|].
  apply (coprocessor_frame ex_params 4096 CMD_FDIV _ _ 0 8); [done|vm_compute; reflexivity|].
  vm_compute. left. congruence.
Defined.

Lemma coprocessor_fabs_witness :
  run_coprocessor_32b ex_params 4096 CMD_FABS (le_bytes 4 0x80000000 ++ replicate 28 0) =
  wr_u32 (le_bytes 4 0x80000000 ++ replicate 28 0) 4 0x80000000.
Proof.
  apply (coprocessor_fabs ex_params 4096 _ 0x80000000);
    [vm_compute; reflexivity|unfold inw; lia|reflexivity].
Defined.
