(* ===== verification/PimMemory.v ===== *)
(** * The PIM memory and its registers

    Models [mem/ethz_pim_memory.cc] and [mem/ethz_pim_memory.hh]: a timing
    memory some of whose addresses are registers.  A write to a register
    programs the TLB, the DMA engine, the coprocessor or the simulator, and is
    then performed on the memory like any other write.

    The class derives from [SimpleMemory] and overrides [recvAtomic], which
    the timing handler of the base class calls; [recvTimingReq] below is that
    handler with the override in place.  The DMA engine keeps its status
    register in this memory, so here the world of the engine ([DmaWorld]) is
    the PIM memory together with the rest of the system.

    Console output and the dump of the statistics are left out. *)

From S2P Require Import Prelude.
From S2P Require Import AddrRange.
From S2P Require Import Packet.
From S2P Require Import Float32.
From S2P Require Import AbstractMem.
From S2P Require Import Port.
From S2P Require Import SimpleMem.
From S2P Require Import Tlb.
From S2P Require Import Dma.
From S2P Require Import Coproc.

(** ** State *)
Record PIMMemory := mkPimMem {
  pm_mem : SimpleMemory;
  pm_params : PimParams;
  _dma_num_bytes : Z;
  _dma_mem_addr : Z;
  _dma_spm_addr : Z;
  prev_time_stamp : Z;
  prev_time_stamp_id : Z;
  stats_time_stamp_id : Z;
  enable_packet_log : bool;
  system_caches : list nat;
  pim_timing_mode : bool
}.

(** The rest of the system: the link of the DMA port (which may lead back to
    this memory), the processor, and the caches of the host. *)
Class PimWorld (H : Type) := {
  link_sendAtomic : DmaPacket -> PIMMemory * H -> res (PIMMemory * H * Z);
  link_sendTimingReq : Z -> DmaPacket -> PIMMemory * H -> res (PIMMemory * H * bool);
  cpu_postInterrupt : H -> H;
  cpu_clearInterrupt : H -> H;
  cpu_is_suspended : H -> bool;
  ethz_flush_range : nat -> Z -> Z -> H -> res H
}.

(** [pmemAddr], as an array *)
Definition pim_bytes (m : PIMMemory) : res (list Z) := deref (pmemAddr (sm_mem (pm_mem m))).
Definition pim_start (m : PIMMemory) : Z := AR.start (range (sm_mem (pm_mem m))).
Definition pim_off (m : PIMMemory) (a : Z) : Z := host_off (sm_mem (pm_mem m)) a.
Definition set_bytes (bs : list Z) (m : PIMMemory) : PIMMemory :=
  m <| pm_mem := (pm_mem m) <| sm_mem := (sm_mem (pm_mem m)) <| pmemAddr := Some bs |> |> |>.

Definition read_mem_1word (a : Z) (m : PIMMemory) : res Z :=
  mem ← pim_bytes m;
  bs ← arr_read mem (pim_off m a) (if pp_arch (pm_params m) =? 32 then 4 else 8);
  Ok (le_val bs).

Definition pim_write_1byte (a v : Z) (m : PIMMemory) : res PIMMemory :=
  mem ← pim_bytes m;
  mem ← arr_write mem (pim_off m a) [v];
  Ok (set_bytes mem m).

#[global] Instance pim_dma_world (H : Type) `{PimWorld H} : DmaWorld (PIMMemory * H) := {
  dma_sendAtomic := link_sendAtomic;
  dma_sendTimingReq := link_sendTimingReq;
  write_mem_1byte a v s := m ← pim_write_1byte a v (fst s); Ok (m, snd s);
  postInterrupt s := (fst s, cpu_postInterrupt (snd s));
  clearInterrupt s := (fst s, cpu_clearInterrupt (snd s));
  cpu_suspended s := cpu_is_suspended (snd s)
}.

(** ** Registers *)
Definition PIM_ERROR_NONE : Z := 0.
Definition PIM_DMA_READ : Z := 0.
Definition PIM_DMA_WRITE : Z := 128.
Definition PIM_TIME_STAMP : Z := 48.
Definition PIM_TIME_STAMP_MAX : Z := 57.
Definition PIM_DISABLE_PACKET_LOG : Z := 68.
Definition PIM_HOST_CACHE_FLUSH_HACK : Z := 70.
Definition PIM_M5_IGNORE : Z := 73.
Definition PIM_ENABLE_PACKET_LOG : Z := 76.
Definition PIM_EXIT_GEM5 : Z := 88.

(** The whole device: the memory, its TLB, its DMA engine and the world. *)
Record PimSystem (H : Type) := mkPimSystem {
  pim : PIMMemory;
  dtlb : TLB;
  dma : DMA;
  host : H
}.
Arguments mkPimSystem {H} _ _ _ _.
Arguments pim {H} _.
Arguments dtlb {H} _.
Arguments dma {H} _.
Arguments host {H} _.

Section Device.

Context {H : Type} {WH : PimWorld H} {DS : MemDevice (PIMMemory * H)}.
Context (random_mt : Z -> Z -> Z -> Z).

Definition set_pim (m : PIMMemory) (y : PimSystem H) : PimSystem H :=
  mkPimSystem m (dtlb y) (dma y) (host y).
Definition set_dtlb (t : TLB) (y : PimSystem H) : PimSystem H :=
  mkPimSystem (pim y) t (dma y) (host y).
Definition set_host (h : H) (y : PimSystem H) : PimSystem H :=
  mkPimSystem (pim y) (dtlb y) (dma y) h.

(** The value of a one-byte register write. *)
Definition byte_value (pkt : Packet) : res Z :=
  sz ← getSize pkt;
  _ ← assert_ (sz =? 1);
  getPtr_word 1 0 pkt.

(** The value of a word-sized register write. *)
Definition word_value (arch : Z) (pkt : Packet) : res Z :=
  sz ← getSize pkt;
  _ ← assert_ (sz =? arch / 8);
  if arch =? 32 then getPtr_word 4 0 pkt else getPtr_word 8 0 pkt.

(** [PIM_DMA_COMMAND_ADDR] *)
Definition dma_command (now c : Z) (y : PimSystem H) : res (PimSystem H) :=
  if c =? 0 then Ok y
  else
    let m := pim y in let P := pm_params m in
    _ ← assert_ (negb (_dma_num_bytes m =? 0));
    _ ← assert_ (negb (_dma_mem_addr m =? 0));
    _ ← assert_ (pim_timing_mode m);
    let spm := u64 (_dma_spm_addr m + PIM_ADDRESS_BASE P) in
    let m := m <| _dma_spm_addr := spm |> in
    if (spm <? PIM_VREG_ADDR P) ||
       (u64 (PIM_VREG_ADDR P + PIM_VREG_SIZE P) <? u64 (spm + _dma_num_bytes m)) then panic
    else
      let vreg_ptr := pim_off m spm in
      let start dir := '(d, t, s) ← initiate dir now vreg_ptr (_dma_mem_addr m) (_dma_num_bytes m)
                                      (Z.land c 127) (dma y) (dtlb y) (m, host y);
                       Ok (mkPimSystem (fst s) t d (snd s)) in
      if Z.land c 128 =? PIM_DMA_READ then start true
      else if Z.land c 128 =? PIM_DMA_WRITE then start false
      else panic.

(** [ask_host_to_flush_the_caches] *)
Definition ask_host_to_flush_the_caches (y : PimSystem H) : res (PimSystem H) :=
  let m := pim y in
  s ← read_mem_1word (PIM_M5_D1_ADDR (pm_params m)) m;
  e ← read_mem_1word (PIM_M5_D2_ADDR (pm_params m)) m;
  h ← foldl (fun (r : res H) c => h ← r; ethz_flush_range c s e h) (Ok (host y)) (system_caches m);
  Ok (set_host h y).

(** [PIM_M5_ADDR]: commands to the simulator *)
Definition m5_command (now c : Z) (y : PimSystem H) : res (PimSystem H) :=
  let m := pim y in
  if (PIM_TIME_STAMP <=? c) && (c <=? PIM_TIME_STAMP_MAX) then
    Ok (set_pim (m <| stats_time_stamp_id := c |> <| prev_time_stamp := now |> <| prev_time_stamp_id := c |>) y)
  else if c =? PIM_ENABLE_PACKET_LOG then Ok (set_pim (m <| enable_packet_log := true |>) y)
  else if c =? PIM_DISABLE_PACKET_LOG then Ok (set_pim (m <| enable_packet_log := false |>) y)
  else if c =? PIM_EXIT_GEM5 then Err (Exit 0)
  else if c =? PIM_HOST_CACHE_FLUSH_HACK then ask_host_to_flush_the_caches y
  else if c =? PIM_M5_IGNORE then Ok y
  else panic.

Definition run_coprocessor (c : Z) (m : PIMMemory) : res PIMMemory :=
  mem ← pim_bytes m;
  mem ← (if pp_arch (pm_params m) =? 32
         then run_coprocessor_32b (pm_params m) (pim_start m) c mem
         else run_coprocessor_64b c mem);
  Ok (set_bytes mem m).

(** The first chain of register tests in [recvAtomic]. *)
Definition write_register (now : Z) (pkt : Packet) (a : Z) (y : PimSystem H) : res (PimSystem H) :=
  let m := pim y in let P := pm_params m in
  if a =? PIM_DEBUG_ADDR P then _ ← byte_value pkt; Ok y
  else if a =? PIM_ERROR_ADDR P then
    c ← byte_value pkt; if negb (c =? PIM_ERROR_NONE) then Err (Exit 1) else Ok y
  else if a =? PIM_INTR_ADDR P then
    c ← byte_value pkt;
    Ok (if c =? 0 then y else set_host (cpu_clearInterrupt (cpu_postInterrupt (host y))) y)
  else if a =? PIM_SLICETABLE_ADDR P then
    v ← word_value (pp_arch P) pkt; Ok (set_dtlb ((dtlb y) <| PIM_SLICETABLE_PTR := v |>) y)
  else if a =? PIM_SLICECOUNT_ADDR P then
    v ← word_value (pp_arch P) pkt; Ok (set_dtlb ((dtlb y) <| PIM_SLICECOUNT := v |>) y)
  else if a =? PIM_SLICEVSTART_ADDR P then
    v ← word_value (pp_arch P) pkt; Ok (set_dtlb ((dtlb y) <| PIM_SLICEVSTART := v |>) y)
  else if a =? PIM_DMA_NUMBYTES_ADDR P then
    v ← word_value (pp_arch P) pkt; Ok (set_pim (m <| _dma_num_bytes := v |>) y)
  else if a =? PIM_DMA_MEM_ADDR_ADDR P then
    v ← word_value (pp_arch P) pkt; Ok (set_pim (m <| _dma_mem_addr := v |>) y)
  else if a =? PIM_DMA_SPM_ADDR_ADDR P then
    v ← word_value (pp_arch P) pkt; Ok (set_pim (m <| _dma_spm_addr := v |>) y)
  else if a =? PIM_COPROCESSOR_CMD_ADDR P then
    c ← byte_value pkt; m ← run_coprocessor c m; Ok (set_pim m y)
  else if a =? PIM_DMA_COMMAND_ADDR P then c ← byte_value pkt; dma_command now c y
  else if a =? PIM_DMA_CLI_ADDR P then
    c ← byte_value pkt;
    if c =? 0 then Ok y
    else s ← wait_on_resource c (m, host y); Ok (mkPimSystem (fst s) (dtlb y) (dma y) (snd s))
  else if a =? HMC_ATOMIC_INCR_ADDR P then
    v ← word_value (pp_arch P) pkt; _ ← assert_ (v =? 0); Ok y
  else Ok y.

(** The second chain. *)
Definition write_debug_register (now : Z) (pkt : Packet) (a : Z) (y : PimSystem H)
  : res (PimSystem H) :=
  let P := pm_params (pim y) in
  if a =? PIM_DTLB_IDEAL_REFILL_ADDR P then panic
  else if a =? PIM_M5_ADDR P then c ← byte_value pkt; m5_command now c y
  else Ok y.

Definition recvAtomic (now : Z) (pkt : Packet) (y : PimSystem H) : res (PimSystem H * Packet * Z) :=
  y ← (if isWrite pkt then
         a ← getAddr pkt;
         y ← write_register now pkt a y;
         write_debug_register now pkt a y
       else Ok y);
  '(m, pkt, l) ← SimpleMem.recvAtomic random_mt pkt (pm_mem (pim y));
  Ok (set_pim ((pim y) <| pm_mem := m |>) y, pkt, l).

Definition recvFunctional (pkt : Packet) (m : PIMMemory) : res (PIMMemory * Packet) :=
  '(sm, pkt) ← SimpleMem.recvFunctional pkt (pm_mem m);
  Ok (m <| pm_mem := sm |>, pkt).

(** [SimpleMemory::recvTimingReq] on this class. *)
Definition recvTimingReq (now : Z) (pkt : Packet) (y : PimSystem H)
  : res (PimSystem H * Packet * bool) :=
  let with_mem (f : SimpleMemory -> SimpleMemory) (y : PimSystem H) :=
    set_pim ((pim y) <| pm_mem := f (pm_mem (pim y)) |>) y in
  if memInhibitAsserted pkt then Ok (y, pkt, true)
  else if retryReq (pm_mem (pim y)) then Ok (y, pkt, false)
  else if isBusy (pm_mem (pim y)) then Ok (with_mem (fun m => m <| retryReq := true |>) y, pkt, false)
  else
    let pkt := pkt <| firstWordDelay := 0 |> <| lastWordDelay := 0 |> in
    m ← regulate now pkt (pm_mem (pim y));
    let y := with_mem (fun _ => m) y in
    let needs := needsResponse pkt in
    '(y, pkt, _) ← recvAtomic now pkt y;
    if needs then
      _ ← assert_ (isResponse pkt);
      let '(m, l) := getLatency random_mt (pm_mem (pim y)) in
      let t := u64 (now + l) in
      let m := m <| packetQueue := packetQueue m ++ [mkDeferred t pkt] |> in
      if negb (retryResp m) && bool_decide (dequeueEvent m = None) then
        ev ← schedule (dequeueEvent m) now t;
        Ok (with_mem (fun _ => m <| dequeueEvent := ev |>) y, pkt, true)
      else Ok (with_mem (fun _ => m) y, pkt, true)
    else Ok (y, pkt, true).

(** ** Addresses that are not registers *)
Definition registers (P : PimParams) : list Z :=
  [PIM_DEBUG_ADDR P; PIM_ERROR_ADDR P; PIM_INTR_ADDR P; PIM_SLICETABLE_ADDR P; PIM_SLICECOUNT_ADDR P;
   PIM_SLICEVSTART_ADDR P; PIM_DMA_NUMBYTES_ADDR P; PIM_DMA_MEM_ADDR_ADDR P; PIM_DMA_SPM_ADDR_ADDR P;
   PIM_COPROCESSOR_CMD_ADDR P; PIM_DMA_COMMAND_ADDR P; PIM_DMA_CLI_ADDR P; HMC_ATOMIC_INCR_ADDR P;
   PIM_DTLB_IDEAL_REFILL_ADDR P; PIM_M5_ADDR P].

(** The result of the base class, put back into the device. *)
Definition lift_mem (y : PimSystem H) (m : SimpleMemory) : PimSystem H :=
  set_pim ((pim y) <| pm_mem := m |>) y.

Lemma plain_registers now pkt a y : a ∉ registers (pm_params (pim y)) ->
  write_register now pkt a y = Ok y /\ write_debug_register now pkt a y = Ok y.
Proof.
  unfold registers. rewrite !not_elem_of_cons. intros Hn. destruct_and! Hn.
  unfold write_register, write_debug_register. cbv zeta.
  repeat match goal with E : a <> ?x |- _ => rewrite (proj2 (Z.eqb_neq a x) E); clear E end. done.
Qed.

Lemma plain_atomic now pkt a y : getAddr pkt = Ok a ->
  isWrite pkt = false \/ a ∉ registers (pm_params (pim y)) ->
  recvAtomic now pkt y =
  ('(m, pkt, l) ← SimpleMem.recvAtomic random_mt pkt (pm_mem (pim y)); Ok (lift_mem y m, pkt, l)).
Proof.
  intros Ha Hr. unfold recvAtomic. destruct (isWrite pkt); [|done]. destruct Hr as [Hr|Hr]; [done|].
  rewrite Ha. cbn [mbind res_bind]. destruct (plain_registers now pkt a y Hr) as [-> E].
  cbn [mbind res_bind]. by rewrite E.
Qed.

(** Off its registers, and for every read, the PIM memory is the timing
    memory it derives from: same answer, same packet, same new state. *)
Theorem plain_timing (now a : Z) (pkt : Packet) (y : PimSystem H) :
  getAddr pkt = Ok a -> isWrite pkt = false \/ a ∉ registers (pm_params (pim y)) ->
  recvTimingReq now pkt y =
  ('(m, pkt, b) ← SimpleMem.recvTimingReq random_mt now pkt (pm_mem (pim y));
   Ok (lift_mem y m, pkt, b)).
Proof.
  intros Ha Hr. unfold recvTimingReq, SimpleMem.recvTimingReq. destruct y as [[m P ? ? ? ? ? ? ? ? ?] t d h].
  cbn [pim pm_mem dtlb dma host set_pim lift_mem field_upd] in *.
  case_if; [done|]. case_if; [done|]. case_if; [done|]. cbv zeta.
  destruct (regulate _ _ m) as [m1|]; [|done]. cbn [mbind res_bind].
  rewrite (plain_atomic _ _ a) by done.
  cbn [pim pm_mem dtlb dma host set_pim lift_mem field_upd].
  destruct (SimpleMem.recvAtomic _ _ m1) as [[[m2 pkt2] l2]|]; [|done]. cbn [mbind res_bind].
  case_if; [|done]. destruct (isResponse pkt2); [|done]. cbn [assert_ mbind res_bind].
  cbn [pim pm_mem dtlb dma host set_pim lift_mem field_upd].
  destruct (getLatency _ m2) as [m3 l3]. case_if; [|done].
  destruct (schedule _ _ _); done.
Qed.

(** ** Transfers *)

(** An engine with nothing to do. *)
Record dma_idle (d : DMA) : Prop := {
  idle_requests : requests d = [];
  idle_state : current_state d = DMA_STATE_IDLE;
  idle_index : current_index d = -1;
  idle_scheduled : next_state_scheduled d = false;
  idle_event : nextStateEvent d = None;
  idle_resources : dma_resources d = 0
}.

(** A command the device can carry out: the registers are programmed, and the
    translated scratchpad range lies in the vector registers. *)
Record command_ok (c a : Z) (y : PimSystem H) : Prop := {
  cmd_resource : Z.land c 127 <> 0;
  cmd_bytes : 0 < _dma_num_bytes (pim y);
  cmd_addr : _dma_mem_addr (pim y) <> 0;
  cmd_timing : pim_timing_mode (pim y) = true;
  cmd_spm : a = _dma_spm_addr (pim y) + PIM_ADDRESS_BASE (pm_params (pim y));
  cmd_vreg : 0 <= PIM_VREG_ADDR (pm_params (pim y)) <= a;
  cmd_vend : a + _dma_num_bytes (pim y) <=
    PIM_VREG_ADDR (pm_params (pim y)) + PIM_VREG_SIZE (pm_params (pim y)) < 2 ^ 64
}.

(** What the idle engine does with a new request: one free resource is taken,
    and the state machine is started. *)
Lemma initiate_idle dir now vreg va n rs d t s s1 :
  dma_idle d -> rs <> 0 -> write_mem_1byte (PIM_DMA_STATUS_ADDR d) rs s = Ok s1 ->
  0 <= now -> 0 <= clk_per_ps d -> now + clk_per_ps d < 2 ^ 64 ->
  exists d', initiate dir now vreg va n rs d t s = Ok (d', t, s1) /\
    requests d' = [DMARequest_new (next_id d) vreg va n dir rs] /\
    current_state d' = DMA_STATE_TLBREFILL /\ current_index d' = 0 /\
    nextStateEvent d' = Some (now + clk_per_ps d) /\ dma_resources d' = rs.
Proof.
  intros [I1 I2 I3 I4 I5 I6] Hrs Hw N1 N2 N3. unfold initiate, update_status_register.
  rewrite (proj2 (Z.eqb_neq rs 0)) by done. cbn [negb assert_ mbind res_bind].
  rewrite I6. cbn [Z.land Z.eqb negb].
  change (PIM_DMA_STATUS_ADDR d <| dma_resources := _ |>) with (PIM_DMA_STATUS_ADDR d).
  change (dma_resources d <| dma_resources := ?v |>) with v. rewrite Z.lor_0_l, Hw. cbn [mbind res_bind].
  match goal with |- context [next_state_scheduled ?x] =>
    change (next_state_scheduled x) with (next_state_scheduled d); rewrite I4; set (d0 := x) end.
  assert (R : requests d0 = [DMARequest_new (next_id d) vreg va n dir rs])
    by (change (requests d0) with (DMARequest_new (next_id d) vreg va n dir rs :: requests d); by rewrite I1).
  set (d1 := d0 <| next_state_scheduled := true |>). unfold nextState.
  change (requests d1) with (requests d0). rewrite R.
  rewrite bool_decide_false by done.
  change (current_index d1) with (current_index d). rewrite I3. cbn [Z.eqb negb].
  change (current_state d1) with (current_state d). rewrite I2.
  change (requests d1) with (requests d0). rewrite R.
  cbn [first_unissued DMARequest_new issued negb mbind res_bind].
  match goal with |- context [current_index ?x <| current_index := 0 |>] =>
    change (current_index x <| current_index := 0 |>) with 0 end. cbn [Z.eqb negb].
  match goal with |- context [schedule (nextStateEvent ?x) _ _] => set (d2 := x) end.
  change (nextStateEvent d2) with (nextStateEvent d). change (clk_per_ps d2) with (clk_per_ps d).
  rewrite I5, u64_small by lia. unfold schedule. rewrite (proj2 (Z.leb_le _ _)) by lia.
  cbn [assert_ mbind res_bind]. rewrite bool_decide_true by done. cbn [assert_ mbind res_bind].
  eexists. split; [reflexivity|]. split_and!; done.
Qed.

Lemma land_128 c : 0 <= c < 256 -> Z.land c 128 = if Z.testbit c 7 then 128 else 0.
Proof.
  intros Hc. change 128 with (2 ^ 7). apply Z.bits_inj'. intros i Hi. rewrite Z.land_spec.
  destruct (Z.eq_dec i 7) as [->|Hn].
  - by destruct (Z.testbit c 7) eqn:E.
  - rewrite Z.pow2_bits_false, andb_false_r by lia.
    destruct (Z.testbit c 7); [by rewrite Z.pow2_bits_false by lia|by rewrite Z.testbit_0_l].
Qed.

(** A command with its guards discharged. *)
Lemma dma_command_initiate now c a y : 0 <= c < 256 -> command_ok c a y ->
  dma_command now c y =
  ('(d, t, s) ← initiate (negb (Z.testbit c 7)) now (pim_off (pim y) a) (_dma_mem_addr (pim y))
                  (_dma_num_bytes (pim y)) (Z.land c 127) (dma y) (dtlb y)
                  ((pim y) <| _dma_spm_addr := a |>, host y);
   Ok (mkPimSystem (fst s) t d (snd s))).
Proof.
  intros Hc [C1 C2 C3 C4 C5 C6 C7]. unfold dma_command.
  rewrite (proj2 (Z.eqb_neq c 0)) by (intros ->; done). cbv zeta.
  rewrite (proj2 (Z.eqb_neq (_dma_num_bytes _) 0)) by lia. cbn [negb assert_ mbind res_bind].
  rewrite (proj2 (Z.eqb_neq (_dma_mem_addr _) 0)) by done. cbn [negb assert_ mbind res_bind].
  rewrite C4. cbn [assert_ mbind res_bind]. rewrite <- C5.
  rewrite (u64_small a) by lia.
  change (_dma_num_bytes (pim y) <| _dma_spm_addr := _ |>) with (_dma_num_bytes (pim y)).
  rewrite (u64_small (a + _)), (u64_small (PIM_VREG_ADDR _ + _)) by lia.
  rewrite (proj2 (Z.ltb_ge a _)), (proj2 (Z.ltb_ge (PIM_VREG_ADDR _ + _) _)) by lia. cbn [orb].
  rewrite land_128 by done. by destruct (Z.testbit c 7).
Qed.

(** The command on an idle device. *)
Lemma dma_command_idle now c a mem y :
  0 <= c < 256 -> command_ok c a y -> dma_idle (dma y) -> pim_bytes (pim y) = Ok mem ->
  let off := pim_off (pim y) (PIM_DMA_STATUS_ADDR (dma y)) in
  0 <= off < Z.of_nat (length mem) ->
  0 <= now -> 0 <= clk_per_ps (dma y) -> now + clk_per_ps (dma y) < 2 ^ 64 ->
  exists y' mem', dma_command now c y = Ok y' /\
    requests (dma y') = [DMARequest_new (next_id (dma y)) (pim_off (pim y) a) (_dma_mem_addr (pim y))
                           (_dma_num_bytes (pim y)) (negb (Z.testbit c 7)) (Z.land c 127)] /\
    current_state (dma y') = DMA_STATE_TLBREFILL /\ current_index (dma y') = 0 /\
    nextStateEvent (dma y') = Some (now + clk_per_ps (dma y)) /\
    arr_write mem off [Z.land c 127] = Ok mem' /\
    pim y' = set_bytes mem' ((pim y) <| _dma_spm_addr := a |>).
Proof.
  intros Hc Hok Hi Hm off Hoff N1 N2 N3. rewrite (dma_command_initiate now c a y Hc Hok).
  destruct (arr_write_defined mem off [Z.land c 127]) as [mem' Hw]; [lia|cbn; lia|].
  destruct (initiate_idle (negb (Z.testbit c 7)) now (pim_off (pim y) a) (_dma_mem_addr (pim y))
    (_dma_num_bytes (pim y)) (Z.land c 127) (dma y) (dtlb y)
    ((pim y) <| _dma_spm_addr := a |>, host y)
    (set_bytes mem' ((pim y) <| _dma_spm_addr := a |>), host y) Hi (cmd_resource _ _ _ Hok))
    as (d' & -> & R1 & R2 & R3 & R4 & R5); [|done..|].
  { cbn [write_mem_1byte pim_dma_world fst snd]. unfold pim_write_1byte.
    change (pim_bytes (pim y) <| _dma_spm_addr := a |>) with (pim_bytes (pim y)). rewrite Hm.
    change (pim_off (pim y) <| _dma_spm_addr := a |> _) with off. cbn [mbind res_bind].
    by rewrite Hw. }
  cbn [mbind res_bind fst snd]. exists (mkPimSystem (set_bytes mem' ((pim y) <| _dma_spm_addr := a |>)) (dtlb y) d' (host y)), mem'.
  cbn [pim dma]. split_and!; done.
Qed.

(** A command for a range that ends behind the vector registers. *)
Lemma dma_command_outside now c y : c <> 0 ->
  let m := pim y in let P := pm_params m in
  0 < _dma_num_bytes m -> _dma_mem_addr m <> 0 -> pim_timing_mode m = true ->
  0 <= _dma_spm_addr m + PIM_ADDRESS_BASE P ->
  0 <= PIM_VREG_ADDR P + PIM_VREG_SIZE P <
    _dma_spm_addr m + PIM_ADDRESS_BASE P + _dma_num_bytes m ->
  _dma_spm_addr m + PIM_ADDRESS_BASE P + _dma_num_bytes m < 2 ^ 64 ->
  dma_command now c y = Err Panic.
Proof.
  intros Hc m P C1 C2 C3 C4 C5 C6. unfold dma_command.
  rewrite (proj2 (Z.eqb_neq c 0)) by done. cbv zeta. fold m P.
  rewrite (proj2 (Z.eqb_neq (_dma_num_bytes m) 0)) by lia. cbn [negb assert_ mbind res_bind].
  rewrite (proj2 (Z.eqb_neq (_dma_mem_addr m) 0)), C3 by done. cbn [negb assert_ mbind res_bind].
  rewrite (u64_small (_dma_spm_addr m + _)) by lia.
  change (_dma_num_bytes m <| _dma_spm_addr := _ |>) with (_dma_num_bytes m).
  rewrite (u64_small (_ + _dma_num_bytes m)), (u64_small (PIM_VREG_ADDR _ + _)) by lia.
  rewrite (proj2 (Z.ltb_lt (PIM_VREG_ADDR P + _) _)) by lia. by rewrite orb_true_r.
Qed.

(** A one-byte write to the DMA command register of an idle device starts the
    transfer it describes: a request from host address to vector register (or
    back, when bit 7 is set), on the resources of the low seven bits, which
    the status register then shows; the rest of the memory is unchanged. *)
Theorem dma_command_starts (now c a : Z) (mem : list Z) (y : PimSystem H) :
  0 <= c < 256 -> command_ok c a y -> dma_idle (dma y) -> pim_bytes (pim y) = Ok mem ->
  let off := pim_off (pim y) (PIM_DMA_STATUS_ADDR (dma y)) in
  0 <= off < Z.of_nat (length mem) ->
  0 <= now -> 0 <= clk_per_ps (dma y) -> now + clk_per_ps (dma y) < 2 ^ 64 ->
  exists y' mem', dma_command now c y = Ok y' /\
    requests (dma y') = [DMARequest_new (next_id (dma y)) (pim_off (pim y) a) (_dma_mem_addr (pim y))
                           (_dma_num_bytes (pim y)) (negb (Z.testbit c 7)) (Z.land c 127)] /\
    current_state (dma y') = DMA_STATE_TLBREFILL /\ current_index (dma y') = 0 /\
    nextStateEvent (dma y') = Some (now + clk_per_ps (dma y)) /\
    arr_write mem off [Z.land c 127] = Ok mem' /\
    pim y' = set_bytes mem' ((pim y) <| _dma_spm_addr := a |>).
Proof. apply dma_command_idle. Qed.

(** A command translates the scratchpad address register in place.  So a
    second command for the same buffer, without writing that register again,
    translates it twice and panics whenever the base address is at least the
    size of the vector registers. *)
Theorem dma_command_twice (now c a : Z) (mem : list Z) (y : PimSystem H) :
  0 <= c < 256 -> command_ok c a y -> dma_idle (dma y) -> pim_bytes (pim y) = Ok mem ->
  0 <= pim_off (pim y) (PIM_DMA_STATUS_ADDR (dma y)) < Z.of_nat (length mem) ->
  0 <= now -> 0 <= clk_per_ps (dma y) -> now + clk_per_ps (dma y) < 2 ^ 64 ->
  PIM_VREG_SIZE (pm_params (pim y)) <= PIM_ADDRESS_BASE (pm_params (pim y)) ->
  a + PIM_ADDRESS_BASE (pm_params (pim y)) + _dma_num_bytes (pim y) < 2 ^ 64 ->
  exists y', dma_command now c y = Ok y' /\
    forall now' c', c' <> 0 -> dma_command now' c' y' = Err Panic.
Proof.
  intros Hc Hok Hi Hm Hoff N1 N2 N3 Hb He.
  destruct (dma_command_idle now c a mem y Hc Hok Hi Hm Hoff N1 N2 N3)
    as (y' & mem' & E & _ & _ & _ & _ & _ & Ey).
  exists y'. split; [exact E|]. intros now' c' Hc'. apply (dma_command_outside now' c' y' Hc').
  all: rewrite Ey; destruct Hok as [C1 C2 C3 C4 C5 C6 C7];
    cbn [set_bytes pm_params _dma_num_bytes _dma_mem_addr _dma_spm_addr pim_timing_mode field_upd];
    done || lia.
Qed.

End Device.

(** ** The status register of the DMA engine lives in this memory *)
Section StatusInstance.

Context {H : Type} {WH : PimWorld H} {DS : MemDevice (PIMMemory * H)} (A : Z).

Definition pim_status (s : PIMMemory * H) : option Z :=
  match pim_bytes (fst s) with
  | Ok mem => match arr_read mem (pim_off (fst s) A) 1 with Ok [v] => Some v | _ => None end
  | Err _ => None
  end.

(** Transfers and refills go to the host's memory or to the vector registers,
    not to the status register. *)
Class PimFrame := {
  frame_sendAtomic p s s' l : link_sendAtomic p s = Ok (s', l) -> pim_status s' = pim_status s;
  frame_sendTimingReq now p s s' b :
    link_sendTimingReq now p s = Ok (s', b) -> pim_status s' = pim_status s;
  frame_functional p s s' p' : sendFunctional p s = Ok (s', p') -> pim_status s' = pim_status s;
  frame_atomic now p s s' p' l : sendAtomic now p s = Ok (s', p', l) -> pim_status s' = pim_status s
}.

#[export] Instance pim_status_register `{!PimFrame} : StatusRegister (S := PIMMemory * H) A.
Proof.
  refine {| status := pim_status |}.
  - intros v [m h] s' Hw. cbn [write_mem_1byte pim_dma_world fst snd] in Hw.
    unfold pim_write_1byte in Hw. res_inv. unfold pim_status. cbn [fst].
    change (pim_bytes (set_bytes ?b _)) with (Ok b). change (pim_off (set_bytes _ m) A) with (pim_off m A).
    match goal with W : arr_write _ _ _ = Ok _ |- _ => apply arr_read_write_same in W;
      change (Z.of_nat (length [v])) with 1 in W; cbv beta iota; by rewrite W end.
  - exact frame_sendAtomic.
  - exact frame_sendTimingReq.
  - exact frame_functional.
  - exact frame_atomic.
  - done.
Defined.

(** In every state the device reaches, the status register in the PIM memory
    holds exactly the busy DMA resources. *)
Theorem pim_status_mirrors `{!PimFrame} (env : PIMMemory * H -> PIMMemory * H -> Prop)
    (x y : DMA * TLB * (PIMMemory * H)) :
  (forall s s', env s s' -> pim_status s' = pim_status s) ->
  PIM_DMA_STATUS_ADDR (fst (fst x)) = A -> pim_status (snd x) = Some (dma_resources (fst (fst x))) ->
  dma_reach env x y -> pim_status (snd y) = Some (dma_resources (fst (fst y))).
Proof.
  intros He Ha Hs Hr. exact (proj2 (reach_mirrors A env x y He (conj Ha Hs) Hr)).
Qed.

End StatusInstance.

(** ** Examples and witnesses

    A device whose link accepts everything and leaves the memory alone. *)
#[local] Instance ex_pim_world : PimWorld unit := {
  link_sendAtomic _ s := Ok (s, 0);
  link_sendTimingReq _ _ s := Ok (s, true);
  cpu_postInterrupt h := h;
  cpu_clearInterrupt h := h;
  cpu_is_suspended _ := false;
  ethz_flush_range _ _ _ h := Ok h
}.
#[local] Instance ex_pim_device : MemDevice (PIMMemory * unit) := {
  sendFunctional p s := Ok (s, p);
  sendAtomic _ p s := Ok (s, p, 0);
  sendTimingReq _ p s := Ok (s, p, true)
}.
#[local] Instance ex_pim_frame : PimFrame (H := unit) 4271.
Proof. split; cbn; congruence. Qed.

Definition ex_pim : PIMMemory :=
  mkPimMem (ex_sm <| sm_mem := mkMem (AR.AddrRange2 4096 4351) (Some (replicate 256 0)) [] [] 0 0 0 ∅ ∅ ∅ ∅ ∅ ∅ |>)
    ex_params 16 0x8000 40 0 63 0 false [] true.
Definition ex_system : PimSystem unit :=
  mkPimSystem ex_pim ex_full ((ex_dma TimingMode) <| PIM_DMA_STATUS_ADDR := 4271 |>) tt.

Lemma ex_system_idle : dma_idle (dma ex_system).
Proof. by split. Qed.
Lemma ex_system_ok : command_ok 1 4136 ex_system.
Proof. split; try done; vm_compute; split; congruence. Qed.

Lemma dma_command_starts_witness :
  exists y', dma_command 1000 1 ex_system = Ok y' /\ current_state (dma y') = DMA_STATE_TLBREFILL.
Proof.
  destruct (dma_command_starts 1000 1 4136 (replicate 256 0) ex_system) as (y' & mem' & H1 & _ & H2 & _).
  - lia.
  - exact ex_system_ok.
  - exact ex_system_idle.
  - reflexivity.
  - vm_compute. split; congruence.
  - lia.
  - vm_compute. congruence.
  - vm_compute. congruence.
  - exists y'. split; [exact H1|exact H2].
Defined.

Lemma dma_command_twice_witness :
  exists y', dma_command 1000 1 ex_system = Ok y' /\ dma_command 9000 2 y' = Err Panic.
Proof.
  destruct (dma_command_twice 1000 1 4136 (replicate 256 0) ex_system) as (y' & H1 & H2).
  - lia.
  - exact ex_system_ok.
  - exact ex_system_idle.
  - reflexivity.
  - vm_compute. split; congruence.
  - lia.
  - vm_compute. congruence.
  - vm_compute. congruence.
  - vm_compute. congruence.
  - vm_compute. congruence.
  - exists y'. split; [exact H1|by apply H2].
Defined.

Lemma plain_timing_witness :
  recvTimingReq ex_random 0 ((ex_pkt ReadReq) <| addr := 4100 |>) ex_system =
  ('(m, pkt, b) ← SimpleMem.recvTimingReq ex_random 0 ((ex_pkt ReadReq) <| addr := 4100 |>) (pm_mem ex_pim);
   Ok (lift_mem ex_system m, pkt, b)).
Proof.
  apply (plain_timing ex_random 0 4100 ((ex_pkt ReadReq) <| addr := 4100 |>) ex_system).
  - reflexivity.
  - left. reflexivity.
Defined.

Lemma pim_status_mirrors_witness :
  exists d' s', initiate true 1000 40 0x8000 16 1 (dma ex_system) ex_full (ex_pim, tt) = Ok (d', ex_full, s') /\
    pim_status 4271 s' = Some (dma_resources d').
Proof.
  assert (exists s1, write_mem_1byte 4271 1 (ex_pim, tt) = Ok s1) as [s1 Hw]
    by (eexists; vm_compute; reflexivity).
  destruct (initiate_idle true 1000 40 0x8000 16 1 (dma ex_system) ex_full (ex_pim, tt) s1)
    as (d' & E & _); [exact ex_system_idle|lia|exact Hw|lia|vm_compute; congruence..|].
  exists d', s1. split; [exact E|].
  refine (pim_status_mirrors (H := unit) 4271 (fun _ _ => False)
    (dma ex_system, ex_full, (ex_pim, tt)) (d', ex_full, s1) _ _ _ _).
  - done.
  - reflexivity.
  - vm_compute. reflexivity.
  - eapply dma_reach_step; [apply dma_reach_refl|].
    apply (dma_initiate _ 1000 true 40 0x8000 16 1). exact E.
Defined.
