(* ===== verification/PimDriver.v ===== *)
(** * The driver of the PIM device

    Models [SW/HOST/driver/pim.c] with [pim.h] and [defs.h].  The driver pins
    the pages of a user process, builds the slice table the TLB of the PIM
    reads, and passes it on through memory-mapped registers.

    The services of the kernel are the record [Kernel]; a kernel array is a
    pointer that is null, live (with elements that may be uninitialised) or
    freed, and reads out of bounds, of uninitialised elements or through a dead
    pointer are undefined.  The accesses to the device are a log.  Messages are
    left out: [ASSERT] only prints, so it changes nothing; [ASSERT_RET] returns
    in a debug build and is absent otherwise. *)

From S2P Require Import Prelude.

(** The constants of [_params.h]. *)
Record Params := mkParams {
  dp_arch : Z;
  PAGE_SHIFT : Z;
  PHY_BASE : Z;
  PHY_SIZE : Z;
  PIM_SLICETABLE : Z;
  PIM_SLICECOUNT : Z;
  PIM_SLICEVSTART : Z;
  PIM_M5_REG : Z;
  PIM_M5_D1_REG : Z;
  PIM_M5_D2_REG : Z;
  DEBUG_DRIVER : bool;
  PIM_MERGE_SLICES : bool
}.

Record Slice := mkSlice { sl_vaddr : Z; sl_paddr : Z; sl_size : Z }.

Inductive Errno := ENOTTY | EFAULT | ENOMEM | EINVAL | EAGAIN | EPERM.
Inductive cret := Ret (v : Z) | Fail (e : Errno).

Inductive kptr := KNull | KArr (l : list (option Z)) | KFreed.

Inductive Mmio := WriteByte (off v : Z) | WriteWord (off v : Z) | ReadByte (off : Z) | ReadWord (off : Z).

(** The kernel: macros that take a command apart, memory, and the pages of the
    current process.  [get_user_pages] gives its result and the pages it has
    stored; [get_free_pages] the physical address of the block and how many
    slices it holds. *)
Record Kernel := mkKernel {
  IOC_TYPE : Z -> Z;
  IOC_NR : Z -> Z;
  IOC_READ_dir : Z -> bool;
  IOC_WRITE_dir : Z -> bool;
  IOC_SIZE : Z -> Z;
  PIM_IOCTL_HELLO : Z;
  PIM_IOCTL_ALLOCATE_DATA : Z;
  PIM_IOCTL_RELEASE_ALL_DATA : Z;
  PIM_IOCTL_REPORT_STATS : Z;
  access_ok : bool -> Z -> Z -> bool;
  copy_from_user : Z -> Z -> option (list Z);
  kmalloc : Z -> bool;
  get_user_pages : Z -> Z -> Z * list Z;
  page_to_phys : Z -> Z;
  get_free_pages : Z -> option (Z * nat);
  mmio_read : Z -> Z;
  remap_pfn_range : Z -> Z -> Z -> bool
}.

(** The static variables; [pages_] are the fields of [pages]. *)
Record Driver := mkDriver {
  pages_list : kptr;
  pages_count : Z;
  pages_physical_addr : kptr;
  slicetable : option (list (option Slice));
  slicetable_paddr : Z;
  max_user_va : Z;
  pim_init_count : Z;
  pim_ioctl_allocate : Z;
  stat_numslices : Z;
  mmio : list Mmio;
  released : list Z
}.

Section Driver.

Context (P : Params) (K : Kernel).

Definition PAGE_SIZE : Z := 2 ^ PAGE_SHIFT P.
Definition ulong (z : Z) : Z := wrap (dp_arch P) z.
Definition sizeof_ulong : Z := dp_arch P / 8.
Definition sizeof_Slice : Z := 3 * sizeof_ulong.

(** [PAGE_ORDER] of [defs.h]. *)
Definition PAGE_ORDER (x : Z) : Z :=
  if x <=? 0x1000 then 0 else if x <=? 0x2000 then 1 else if x <=? 0x4000 then 2
  else if x <=? 0x8000 then 3 else if x <=? 0x10000 then 4 else if x <=? 0x20000 then 5
  else if x <=? 0x40000 then 6 else 11.

(** ** Kernel arrays *)
Definition kread (p : kptr) (i : Z) : res Z :=
  match p with
  | KArr l => if i <? 0 then undefined else x ← deref (l !! Z.to_nat i); deref x
  | _ => undefined
  end.

Definition kwrite (p : kptr) (i v : Z) : res kptr :=
  match p with
  | KArr l =>
      if (0 <=? i) && (i <? Z.of_nat (length l)) then Ok (KArr (<[Z.to_nat i := Some v]> l)) else undefined
  | _ => undefined
  end.

(** [kmalloc] of [n] elements of [sz] bytes. *)
Definition kmalloc_array (n sz : Z) : kptr :=
  if kmalloc K (ulong (n * sz)) then KArr (replicate (Z.to_nat (ulong (n * sz) / sz)) None) else KNull.

Definition kfree (p : kptr) : res kptr :=
  match p with KNull => Ok KNull | KArr _ => Ok KFreed | KFreed => undefined end.

Definition store_pages (pgs : list Z) (p : kptr) : res kptr :=
  match p with
  | KArr l => if (length pgs <=? length l)%nat then Ok (KArr ((Some <$> pgs) ++ drop (length pgs) l)) else undefined
  | _ => undefined
  end.

(** ** The registers of the device *)
Definition pim_write_byte (offset data : Z) (d : Driver) : Driver :=
  d <| mmio := mmio d ++ [WriteByte offset data] |>.
Definition pim_read_byte (offset : Z) (d : Driver) : Driver * Z :=
  (d <| mmio := mmio d ++ [ReadByte offset] |>, mmio_read K offset).
Definition pim_write_ulong_t (offset data : Z) (d : Driver) : Driver :=
  d <| mmio := mmio d ++ [WriteWord offset data] |>.
Definition pim_read_ulong_t (offset : Z) (d : Driver) : Driver * Z :=
  (d <| mmio := mmio d ++ [ReadWord offset] |>, mmio_read K offset).

(** ** Pinning the pages *)
Definition pim_get_user_pages (addr_start n_pages : Z) (d : Driver) : res (Driver * cret) :=
  let d := if DEBUG_DRIVER P
           then d <| max_user_va := ulong (addr_start + n_pages * PAGE_SIZE - 1) |> else d in
  let d := d <| pages_list := kmalloc_array n_pages sizeof_ulong |> in
  match pages_list d with
  | KNull => Ok (d, Fail ENOMEM)
  | _ =>
      let '(result, pgs) := get_user_pages K addr_start n_pages in
      l ← store_pages pgs (pages_list d);
      let d := d <| pages_list := l |> in
      if negb (result =? n_pages) then Ok (d, Fail ENOMEM)
      else Ok (d <| pages_count := u32 n_pages |>, Ret 0)
  end.

(** ** The slice table *)

(** The loop that asks for the physical address of every page. *)
Fixpoint get_phys (n : nat) (i : Z) (list_ phys : kptr) : res kptr :=
  match n with
  | O => Ok phys
  | S n =>
      pg ← kread list_ i;
      phys ← kwrite phys i (ulong (page_to_phys K pg));
      get_phys n (i + 1) list_ phys
  end.

(** The loop that counts the contiguous pages from page [i] on. *)
Fixpoint count_run (fuel : nat) (phys : kptr) (i c : Z) : res Z :=
  match fuel with
  | O => Err Diverged
  | S fuel =>
      x ← kread phys (u32 (i + c - 1));
      y ← kread phys (u32 (i + c));
      if ulong (x + PAGE_SIZE) =? y then count_run fuel phys i (u32 (c + 1)) else Ok c
  end.

(** [slicetable[i] = s] *)
Definition table_write (tbl : list (option Slice)) (i : Z) (s : Slice) : res (list (option Slice)) :=
  if (0 <=? i) && (i <? Z.of_nat (length tbl)) then Ok (<[Z.to_nat i := Some s]> tbl) else undefined.

(** The loop over [j] that gives [c] entries the same slice. *)
Fixpoint fill_slices (n : nat) (j i c vaddr_start : Z) (phys : kptr) (tbl : list (option Slice))
  : res (list (option Slice)) :=
  match n with
  | O => Ok tbl
  | S n =>
      pa ← kread phys i;
      tbl ← table_write tbl (u32 (i + j))
              (mkSlice (ulong (vaddr_start + PAGE_SIZE * i)) pa (ulong (PAGE_SIZE * c)));
      fill_slices n (j + 1) i c vaddr_start phys tbl
  end.

(** The loop that merges contiguous pages into slices. *)
Fixpoint merge_slices (fuel : nat) (i count vaddr_start : Z) (phys : kptr) (tbl : list (option Slice)) (ns : Z)
  : res (list (option Slice) * Z) :=
  match fuel with
  | O => Err Diverged
  | S fuel' =>
      if i <? count then
        c ← (if PIM_MERGE_SLICES P && (i <? u32 (count - 1)) then count_run (S (Z.to_nat count)) phys i 1
             else Ok 1);
        tbl ← fill_slices (Z.to_nat c) 0 i c vaddr_start phys tbl;
        merge_slices fuel' (u32 (i + c)) count vaddr_start phys tbl (u32 (ns + 1))
      else Ok (tbl, ns)
  end.

(** The count of merges, for a message of debug builds. *)
Fixpoint count_merges (fuel : nat) (i count : Z) (phys : kptr) : res unit :=
  match fuel with
  | O => Err Diverged
  | S fuel =>
      if i <? u32 (count - 1) then
        _ ← kread phys i; _ ← kread phys (i + 1); count_merges fuel (i + 1) count phys
      else Ok tt
  end.

(** One range of the cache is flushed. *)
Definition flush_range (first last : Z) (d : Driver) : Driver :=
  let d := pim_write_ulong_t (PIM_M5_D1_REG P) first d in
  let d := pim_write_ulong_t (PIM_M5_D2_REG P) last d in
  let '(d, _) := pim_read_ulong_t (PIM_M5_D1_REG P) d in
  let '(d, _) := pim_read_ulong_t (PIM_M5_D2_REG P) d in
  pim_write_byte (PIM_M5_REG P) 70 d.

Fixpoint flush_pages (n : nat) (i : Z) (d : Driver) : res Driver :=
  match n with
  | O => Ok d
  | S n =>
      pa ← kread (pages_physical_addr d) i;
      flush_pages n (i + 1) (flush_range pa (ulong (pa + PAGE_SIZE - 1)) d)
  end.

Definition pim_cache_flush (d : Driver) : res Driver :=
  d ← flush_pages (Z.to_nat (pages_count d)) 0 d;
  Ok (flush_range (slicetable_paddr d)
        (ulong (slicetable_paddr d + pages_count d * sizeof_Slice - 1)) d).

(** The PIM is told where the table is; debug builds read the registers back. *)
Definition announce_table (tbl : list (option Slice)) (d : Driver) : res Driver :=
  let d := pim_write_ulong_t (PIM_SLICETABLE P) (slicetable_paddr d) d in
  let d := pim_write_ulong_t (PIM_SLICECOUNT P) (pages_count d) d in
  s0 ← deref (tbl !! 0%nat);
  s0 ← deref s0;
  let d := pim_write_ulong_t (PIM_SLICEVSTART P) (sl_vaddr s0) d in
  if DEBUG_DRIVER P then
    let '(d, _) := pim_read_ulong_t (PIM_SLICETABLE P) d in
    let '(d, _) := pim_read_ulong_t (PIM_SLICECOUNT P) d in
    let '(d, _) := pim_read_ulong_t (PIM_SLICEVSTART P) d in
    Ok d
  else Ok d.

Definition pim_create_slice_table (vaddr_start : Z) (d : Driver) : res (Driver * cret) :=
  let d := d <| pages_physical_addr := kmalloc_array (pages_count d) sizeof_ulong |> in
  if DEBUG_DRIVER P && (match pages_physical_addr d with KNull => true | _ => false end)
  then Ok (d, Fail ENOMEM)
  else
    phys ← get_phys (Z.to_nat (pages_count d)) 0 (pages_list d) (pages_physical_addr d);
    let d := d <| pages_physical_addr := phys |> in
    let order := PAGE_ORDER (ulong (pages_count d * sizeof_Slice)) in
    match get_free_pages K order with
    | None =>
        let d := d <| slicetable := None |> in
        if DEBUG_DRIVER P then Ok (d, Fail ENOMEM) else undefined
    | Some (pa, cap) =>
        let d := d <| slicetable_paddr := pa |> in
        '(tbl, ns) ← merge_slices (S (Z.to_nat (pages_count d))) 0 (pages_count d) vaddr_start phys
                       (replicate cap None) 0;
        let d := d <| slicetable := Some tbl |> <| stat_numslices := ns |> in
        _ ← (if DEBUG_DRIVER P then count_merges (S (Z.to_nat (pages_count d))) 0 (pages_count d) phys
             else Ok tt);
        d ← announce_table tbl d;
        d ← pim_cache_flush d;
        Ok (d, Ret 0)
    end.

(** ** The file operations *)
Definition PIM_IOCTL_MAGIC : Z := 112.
Definition PIM_IOCTL_MAX_ARGS : Z := 8.

(** Copying [bytes] bytes of the user's words over the local array. *)
Definition copy_args (arg bytes : Z) (l : list (option Z)) : res (option (list (option Z))) :=
  match copy_from_user K arg bytes with
  | None => Ok None
  | Some ws => if (length ws <=? length l)%nat then Ok (Some ((Some <$> ws) ++ drop (length ws) l)) else undefined
  end.

(** The loop that pins every range; what [pim_get_user_pages] returns is
    ignored. *)
Fixpoint pin_ranges (fuel : nat) (i num_ranges : Z) (args : kptr) (d : Driver) : res Driver :=
  match fuel with
  | O => Err Diverged
  | S fuel =>
      if i <? num_ranges then
        a ← kread args (2 * i + 1);
        n ← kread args (2 * i + 2);
        '(d, _) ← pim_get_user_pages a n d;
        pin_ranges fuel (i + 1) num_ranges args d
      else Ok d
  end.

Definition ioctl_allocate (arg : Z) (d : Driver) : res (Driver * cret) :=
  let d := d <| pim_ioctl_allocate := pim_ioctl_allocate d + 1 |> in
  a0 ← copy_args arg sizeof_ulong (replicate (Z.to_nat PIM_IOCTL_MAX_ARGS) None);
  match a0 with
  | None => Ok (d, Fail EFAULT)
  | Some args =>
      ioctl_arg_size ← kread (KArr args) 0;
      if PIM_IOCTL_MAX_ARGS <? ulong (ioctl_arg_size + 1) then Ok (d, Fail EFAULT)
      else
        a1 ← copy_args arg (ulong (ulong (ioctl_arg_size + 1) * sizeof_ulong)) args;
        match a1 with
        | None => Ok (d, Fail EFAULT)
        | Some args =>
            let num_ranges := u32 (ioctl_arg_size / 2) in
            d ← pin_ranges (length args) 0 num_ranges (KArr args) d;
            v ← kread (KArr args) 1;
            '(d, _) ← pim_create_slice_table v d;
            Ok (d, Ret 1)
        end
  end.

(** The loop that releases the pages. *)
Fixpoint release_pages (n : nat) (i : Z) (d : Driver) : res Driver :=
  match n with
  | O => Ok d
  | S n =>
      pg ← kread (pages_list d) i;
      let d := d <| released := released d ++ [pg] |> in
      l ← kfree (pages_list d);
      release_pages n (i + 1) (d <| pages_list := l |>)
  end.

Definition pim_ioctl (cmd arg : Z) (d : Driver) : res (Driver * cret) :=
  if negb (IOC_TYPE K cmd =? PIM_IOCTL_MAGIC) then Ok (d, Fail ENOTTY)
  else if (IOC_NR K cmd <? 0xB0) || (0xB3 <? IOC_NR K cmd) then Ok (d, Fail ENOTTY)
  else
    let err := if IOC_READ_dir K cmd then negb (access_ok K true arg (IOC_SIZE K cmd))
               else if IOC_WRITE_dir K cmd then negb (access_ok K false arg (IOC_SIZE K cmd))
               else false in
    if err then Ok (d, Fail EFAULT)
    else if cmd =? PIM_IOCTL_HELLO K then Ok (d, Ret 1)
    else if cmd =? PIM_IOCTL_ALLOCATE_DATA K then ioctl_allocate arg d
    else if cmd =? PIM_IOCTL_RELEASE_ALL_DATA K then
      d ← release_pages (Z.to_nat (pages_count d)) 0 d; Ok (d, Ret 1)
    else if cmd =? PIM_IOCTL_REPORT_STATS K then Ok (d, Ret 1)
    else Ok (d, Fail ENOTTY).

Definition pim_read (d : Driver) : cret := Fail EINVAL.
Definition pim_write (d : Driver) : cret := Fail EINVAL.
Definition pim_llseek (d : Driver) : cret := Fail EINVAL.

(** [vm_start] to [vm_end] is mapped to the frames from [vm_pgoff] on. *)
Definition pim_mmap (vm_start vm_end vm_pgoff : Z) : cret :=
  let off := ulong (vm_pgoff * PAGE_SIZE) in
  let vsize := ulong (vm_end - vm_start) in
  let psize := ulong (PHY_SIZE P - off) in
  if psize <? vsize then Fail EINVAL
  else if remap_pfn_range K vm_start vm_pgoff vsize then Ret 0 else Fail EAGAIN.

Definition pim_release (d : Driver) : res (Driver * cret) :=
  a ← kfree (pages_physical_addr d);
  l ← kfree (pages_list d);
  Ok (d <| pages_physical_addr := a |> <| pages_list := l |>, Ret 0).

(** The module is loaded: the device class, the device and the character device
    are created. *)
Definition pim_init (class_ok device_ok : bool) (cdev_err : Z) (d : Driver) : Driver * cret :=
  let d := d <| pim_init_count := pim_init_count d + 1 |> <| pages_list := KNull |>
             <| pages_physical_addr := KNull |> <| pages_count := 0 |> <| max_user_va := 0 |>
             <| stat_numslices := 0 |> in
  if negb class_ok then (d, Fail EPERM)
  else if negb device_ok then (d, Fail EPERM)
  else (d, if cdev_err =? 0 then Ret 0 else Ret cdev_err).

End Driver.

(** ** The slice table is the page table of the pinned range *)
Section SliceTable.

Context (P : Params) (K : Kernel) (pgs : list Z) (v : Z).

Abbreviation PS := (PAGE_SIZE P).
Abbreviation n := (length pgs).

(** The physical addresses of the pages. *)
Definition phys : list Z := page_to_phys K <$> pgs.

(** The machine, and where the pages lie. *)
Record layout_ok : Prop := {
  lo_arch : dp_arch P = 32 \/ dp_arch P = 64;
  lo_shift : 0 <= PAGE_SHIFT P < dp_arch P;
  lo_pages : (0 < n)%nat /\ Z.of_nat n < 2 ^ 32 - 1 /\ Z.of_nat n * sizeof_Slice P < 2 ^ dp_arch P;
  lo_virt : 0 <= v /\ v + Z.of_nat n * PS < 2 ^ dp_arch P;
  lo_phys : Forall (fun p => 0 <= p /\ p + PS < 2 ^ dp_arch P) phys
}.

(** The last two pages are contiguous in physical memory. *)
Definition last_contiguous : bool :=
  match phys !! (n - 2)%nat, phys !! (n - 1)%nat with
  | Some x, Some y => (2 <=? n)%nat && (x + PS =? y)
  | _, _ => false
  end.

Hypothesis L : layout_ok.

Lemma PS_pos : 0 < PS.
Proof. unfold PAGE_SIZE. pose proof (lo_shift L). apply Z.pow_pos_nonneg; lia. Qed.

Lemma arch_pos : 32 <= dp_arch P.
Proof. pose proof (lo_arch L). lia. Qed.

Lemma ulong_small z : 0 <= z < 2 ^ dp_arch P -> ulong P z = z.
Proof. intros Hz. by apply wrap_id. Qed.

Lemma u32_small z : 0 <= z < 2 ^ 32 -> u32 z = z.
Proof. intros Hz. by apply wrap_id. Qed.

Lemma length_phys : length phys = n.
Proof. apply length_fmap. Qed.

Lemma phys_bound k p : phys !! k = Some p -> 0 <= p /\ p + PS < 2 ^ dp_arch P.
Proof. intros H. pose proof (lo_phys L) as F. rewrite Forall_forall in F. apply F. by eapply list_elem_of_lookup_2. Qed.

Lemma kread_full (l : list Z) (k : nat) x : l !! k = Some x -> kread (KArr (Some <$> l)) (Z.of_nat k) = Ok x.
Proof.
  intros H. unfold kread. rewrite (proj2 (Z.ltb_ge _ _)), Nat2Z.id by lia.
  rewrite list_lookup_fmap, H. done.
Qed.

Lemma kread_beyond (l : list Z) (k : nat) : (length l <= k)%nat -> kread (KArr (Some <$> l)) (Z.of_nat k) = undefined.
Proof.
  intros H. unfold kread. rewrite (proj2 (Z.ltb_ge _ _)), Nat2Z.id by lia.
  by rewrite lookup_ge_None_2 by (rewrite length_fmap; lia).
Qed.

(** *** The physical addresses *)
Lemma get_phys_ok pre post rest : phys = pre ++ post -> length rest = length post ->
  get_phys P K (length post) (Z.of_nat (length pre)) (KArr (Some <$> pgs)) (KArr ((Some <$> pre) ++ rest)) =
  Ok (KArr (Some <$> phys)).
Proof.
  revert pre rest. induction post as [|p post IH]; intros pre rest Hph Hlen; cbn [get_phys length].
  - destruct rest; [|done]. rewrite app_nil_r in Hph |- *. by rewrite Hph.
  - destruct rest as [|r rest]; [done|]. injection Hlen as Hlen.
    assert (Hk : phys !! length pre = Some p) by (rewrite Hph; by apply list_lookup_middle).
    pose proof (phys_bound _ _ Hk) as Hb. pose proof PS_pos.
    unfold phys in Hk. rewrite list_lookup_fmap in Hk. destruct (pgs !! length pre) as [pg|] eqn:Epg; [|done].
    injection Hk as Hk. rewrite (kread_full pgs _ pg Epg). cbn [mbind res_bind]. rewrite Hk, ulong_small by lia.
    unfold kwrite. rewrite length_app, length_fmap, Nat2Z.id. cbn [length].
    rewrite (proj2 (Z.leb_le _ _)), (proj2 (Z.ltb_lt _ _)) by lia. cbn [andb mbind res_bind].
    rewrite insert_app_r_alt by (rewrite length_fmap; lia). rewrite length_fmap, Nat.sub_diag. cbn [insert list_insert].
    specialize (IH (pre ++ [p]) rest). rewrite length_app, fmap_app, <- !app_assoc in IH. cbn in IH.
    replace (Z.of_nat (length pre) + 1) with (Z.of_nat (length pre + 1)) by lia.
    rewrite <- IH; [|done|done]. done.
Qed.

(** *** Runs of contiguous pages *)
Definition run_from (s c : nat) (p : Z) : Prop :=
  (0 < c)%nat /\ (s + c <= n)%nat /\ forall j, (j < c)%nat -> phys !! (s + j)%nat = Some (p + PS * Z.of_nat j).

Lemma page_after (c : nat) p : (0 < c)%nat -> p + PS * Z.of_nat (c - 1) + PS = p + PS * Z.of_nat c.
Proof. intros Hc. rewrite Nat2Z.inj_sub by lia. nia. Qed.

Lemma run_extend s c p y : run_from s c p -> phys !! (s + c)%nat = Some y -> y = p + PS * Z.of_nat c ->
  run_from s (S c) p.
Proof.
  intros (Hc & Hn & H) Hy ->. split; [lia|]. split.
  - apply lookup_lt_Some in Hy. rewrite length_phys in Hy. lia.
  - intros j Hj. destruct (decide (j = c)) as [->|]; [done|]. apply H. lia.
Qed.

(** One turn of the loop: the next page continues the run or not. *)
Lemma count_run_step fuel s c p : run_from s c p ->
  count_run P (S fuel) (KArr (Some <$> phys)) (Z.of_nat s) (Z.of_nat c) =
  match phys !! (s + c)%nat with
  | None => undefined
  | Some y => if p + PS * Z.of_nat c =? y
              then count_run P fuel (KArr (Some <$> phys)) (Z.of_nat s) (Z.of_nat (S c)) else Ok (Z.of_nat c)
  end.
Proof.
  intros (Hc & Hn & H). pose proof (lo_pages L) as (_ & Hn32 & _).
  cbn [count_run]. replace (Z.of_nat s + Z.of_nat c - 1) with (Z.of_nat (s + (c - 1))) by lia.
  replace (Z.of_nat s + Z.of_nat c) with (Z.of_nat (s + c)) by lia.
  rewrite !u32_small by lia. specialize (H (c - 1)%nat ltac:(lia)).
  rewrite (kread_full phys _ _ H). cbn [mbind res_bind].
  destruct (phys !! (s + c)%nat) as [y|] eqn:E.
  - rewrite (kread_full phys _ _ E). cbn [mbind res_bind].
    pose proof (phys_bound _ _ H). pose proof PS_pos.
    rewrite ulong_small by lia. rewrite page_after by done.
    replace (Z.of_nat c + 1) with (Z.of_nat (S c)) by lia. done.
  - apply lookup_ge_None_1 in E. by rewrite kread_beyond.
Qed.

(** When the last two pages are not contiguous, the loop stays inside the array. *)
Lemma count_run_ok fuel s c p : last_contiguous = false -> run_from s c p -> (s + c < n)%nat ->
  (n <= s + c + fuel)%nat ->
  exists c', count_run P fuel (KArr (Some <$> phys)) (Z.of_nat s) (Z.of_nat c) = Ok (Z.of_nat c') /\ run_from s c' p.
Proof.
  intros Hlast. revert c. induction fuel as [|fuel IH]; intros c Hr Hlt Hf; [lia|].
  rewrite (count_run_step fuel s c p Hr).
  destruct (lookup_lt_is_Some_2 phys (s + c)) as [y Ey]; [by rewrite length_phys|].
  rewrite Ey. destruct (Z.eqb_spec (p + PS * Z.of_nat c) y) as [E|E]; [|eauto].
  assert (s + S c < n)%nat as Hlt'.
  { destruct (decide (s + c = n - 1)%nat) as [Heq|]; [|lia]. exfalso.
    destruct Hr as (Hc & _ & Hr). specialize (Hr (c - 1)%nat ltac:(lia)).
    replace (s + (c - 1))%nat with (n - 2)%nat in Hr by lia. rewrite Heq in Ey.
    unfold last_contiguous in Hlast. rewrite Hr, Ey, (proj2 (Nat.leb_le 2 n)) in Hlast by lia.
    rewrite page_after in Hlast by done. apply Z.eqb_neq in Hlast. lia. }
  apply IH; [by apply (run_extend s c p y)|done|lia].
Qed.

(** Otherwise a run that reaches them reads behind the array. *)
Lemma count_run_over fuel s c p : last_contiguous = true -> run_from s c p -> (s + c < n)%nat ->
  (n + 1 <= s + c + fuel)%nat ->
  count_run P fuel (KArr (Some <$> phys)) (Z.of_nat s) (Z.of_nat c) = undefined \/
  exists c', count_run P fuel (KArr (Some <$> phys)) (Z.of_nat s) (Z.of_nat c) = Ok (Z.of_nat c') /\
    run_from s c' p /\ (s + c' < n - 1)%nat.
Proof.
  intros Hlast. revert c. induction fuel as [|fuel IH]; intros c Hr Hlt Hf; [lia|].
  rewrite (count_run_step fuel s c p Hr).
  destruct (lookup_lt_is_Some_2 phys (s + c)) as [y Ey]; [by rewrite length_phys|].
  rewrite Ey. destruct (Z.eqb_spec (p + PS * Z.of_nat c) y) as [E|E].
  - pose proof (run_extend s c p y Hr Ey ltac:(done)) as Hr'.
    destruct (decide (s + S c < n)%nat) as [Hlt'|Hge]; [apply IH; [done|done|lia]|].
    left. destruct fuel as [|fuel]; [lia|]. rewrite (count_run_step fuel s (S c) p Hr').
    by rewrite lookup_ge_None_2 by (rewrite length_phys; lia).
  - right. exists c. split; [done|]. split; [done|]. destruct Hr as (Hc & _ & Hr).
    destruct (decide (s + c = n - 1)%nat) as [Heq|]; [|lia]. exfalso. apply E.
    specialize (Hr (c - 1)%nat ltac:(lia)). replace (s + (c - 1))%nat with (n - 2)%nat in Hr by lia.
    rewrite Heq in Ey. unfold last_contiguous in Hlast. rewrite Hr, Ey, page_after in Hlast by done. bool_prop. lia.
Qed.

(** *** Filling the table *)

(** The [c] pages from page [s] on are one slice. *)
Definition slice_of (s c : nat) (p : Z) : Slice :=
  mkSlice (v + PS * Z.of_nat s) p (PS * Z.of_nat c).

(** Entry [k] is a slice of contiguous pages, ending before page [b], and the
    entries of its pages all say so. *)
Definition entry_good (tbl : list (option Slice)) (b k : nat) : Prop :=
  exists s c p, (s <= k < s + c)%nat /\ (s + c <= b)%nat /\ run_from s c p /\
    forall k', (s <= k' < s + c)%nat -> tbl !! k' = Some (Some (slice_of s c p)).

Lemma slice_small s c p : run_from s c p ->
  mkSlice (ulong P (v + PS * Z.of_nat s)) p (ulong P (PS * Z.of_nat c)) = slice_of s c p.
Proof.
  intros (Hc & Hn & _). pose proof (lo_virt L). pose proof PS_pos.
  assert (PS * Z.of_nat s + PS * Z.of_nat c <= Z.of_nat n * PS) by nia.
  assert (0 <= PS * Z.of_nat s /\ PS <= PS * Z.of_nat c) by nia.
  unfold slice_of. rewrite !ulong_small by lia. done.
Qed.

Lemma fill_slices_ok m j s c p tbl : run_from s c p -> (n <= length tbl)%nat -> (j + m <= c)%nat ->
  exists tbl', fill_slices P m (Z.of_nat j) (Z.of_nat s) (Z.of_nat c) v (KArr (Some <$> phys)) tbl = Ok tbl' /\
    length tbl' = length tbl /\
    forall k, tbl' !! k = if decide (s + j <= k < s + j + m)%nat then Some (Some (slice_of s c p)) else tbl !! k.
Proof.
  intros Hr Hlen. revert j tbl Hlen. induction m as [|m IH]; intros j tbl Hlen Hj; cbn [fill_slices].
  { exists tbl. split_and!; [done|done|]. intros k. rewrite decide_False by lia. done. }
  pose proof Hr as (Hc & Hn & Hrun). pose proof (lo_pages L) as (_ & Hn32 & _).
  pose proof (Hrun 0%nat Hc) as H0. rewrite Nat.add_0_r, Z.mul_0_r, Z.add_0_r in H0.
  rewrite (kread_full phys _ _ H0). cbn [mbind res_bind]. rewrite slice_small by done.
  unfold table_write. rewrite u32_small by lia.
  rewrite (proj2 (Z.leb_le 0 _)), (proj2 (Z.ltb_lt _ (Z.of_nat (length tbl)))) by lia. cbn [andb mbind res_bind].
  replace (Z.of_nat j + 1) with (Z.of_nat (S j)) by lia.
  replace (Z.to_nat (Z.of_nat s + Z.of_nat j)) with (s + j)%nat by lia.
  destruct (IH (S j) (<[(s + j)%nat := Some (slice_of s c p)]> tbl)) as (tbl' & E & El & Hk);
    [by rewrite length_insert|lia|].
  exists tbl'. split; [exact E|]. rewrite length_insert in El. split; [done|]. intros k. rewrite Hk.
  destruct (decide (k = s + j)%nat) as [->|Hne].
  - rewrite decide_False by lia. rewrite decide_True by lia. apply list_lookup_insert_eq. lia.
  - rewrite list_lookup_insert_ne by done.
    destruct (decide (s + S j <= k < s + S j + m)%nat); [by rewrite decide_True by lia|by rewrite decide_False by lia].
Qed.

(** One slice more. *)
Lemma entry_good_step tbl tbl' s c p k : run_from s c p ->
  (forall k, tbl' !! k = if decide (s <= k < s + c)%nat then Some (Some (slice_of s c p)) else tbl !! k) ->
  (forall k, (k < s)%nat -> entry_good tbl s k) -> (k < s + c)%nat -> entry_good tbl' (s + c) k.
Proof.
  intros Hr Hk Hgood Hlt. destruct (decide (k < s)%nat) as [H|H].
  - destruct (Hgood k H) as (s0 & c0 & p0 & H1 & H2 & H3 & H4). exists s0, c0, p0. split_and!; [lia|lia|lia|done|].
    intros k' Hk'. rewrite Hk, decide_False by lia. by apply H4.
  - exists s, c, p. split_and!; [lia|lia|lia|done|]. intros k' Hk'. by rewrite Hk, decide_True by lia.
Qed.

Lemma run_one (s : nat) p : phys !! s = Some p -> run_from s 1 p.
Proof.
  intros H. split; [lia|]. pose proof (lookup_lt_Some _ _ _ H). rewrite length_phys in *. split; [lia|].
  intros j Hj. replace j with 0%nat by lia. rewrite Nat.add_0_r, H. f_equal. lia.
Qed.

Lemma merge_slices_ok fuel s tbl ns : PIM_MERGE_SLICES P && last_contiguous = false ->
  (s <= n)%nat -> (n < s + fuel)%nat -> (n <= length tbl)%nat -> (forall k, (k < s)%nat -> entry_good tbl s k) ->
  exists tbl' ns', merge_slices P fuel (Z.of_nat s) (Z.of_nat n) v (KArr (Some <$> phys)) tbl ns = Ok (tbl', ns') /\
    length tbl' = length tbl /\ forall k, (k < n)%nat -> entry_good tbl' n k.
Proof.
  intros Hm. revert s tbl ns. induction fuel as [|fuel IH]; intros s tbl ns Hs Hf Hlen Hgood; [lia|].
  pose proof (lo_pages L) as (_ & Hn32 & _). cbn [merge_slices].
  destruct (decide (s = n)) as [->|Hne].
  { rewrite Z.ltb_irrefl. exists tbl, ns. done. }
  rewrite (proj2 (Z.ltb_lt _ _)) by lia.
  destruct (lookup_lt_is_Some_2 phys s) as [p Hp]; [rewrite length_phys; lia|].
  assert (exists c, (if PIM_MERGE_SLICES P && (Z.of_nat s <? u32 (Z.of_nat n - 1))
    then count_run P (S (Z.to_nat (Z.of_nat n))) (KArr (Some <$> phys)) (Z.of_nat s) 1 else Ok 1) =
    Ok (Z.of_nat c) /\ run_from s c p) as (c & -> & Hr).
  { rewrite u32_small by lia. destruct (PIM_MERGE_SLICES P) eqn:Em; cbn [andb] in *.
    - destruct (Z.ltb_spec (Z.of_nat s) (Z.of_nat n - 1)).
      + apply (count_run_ok _ s 1 p Hm); [by apply run_one|lia|lia].
      + exists 1%nat. split; [done|by apply run_one].
    - exists 1%nat. split; [done|by apply run_one]. }
  cbn [mbind res_bind]. rewrite Nat2Z.id.
  destruct (fill_slices_ok c 0 s c p tbl Hr Hlen) as (tbl' & E & El & Hk); [lia|].
  change (Z.of_nat 0) with 0 in E. rewrite E. cbn [mbind res_bind].
  rewrite Nat.add_0_r in Hk. pose proof Hr as (Hc & Hn & _).
  replace (u32 (Z.of_nat s + Z.of_nat c)) with (Z.of_nat (s + c)) by (rewrite u32_small; lia).
  destruct (IH (s + c)%nat tbl' (u32 (ns + 1))) as (t2 & ns2 & E2 & El2 & H2); [lia|lia|lia| |].
  - intros k Hlt. by apply (entry_good_step tbl tbl' s c p).
  - exists t2, ns2. split; [done|]. split; [by rewrite El2|done].
Qed.

(** When they are, the merging loop runs into the end of the array. *)
Lemma merge_slices_over fuel s tbl ns : PIM_MERGE_SLICES P && last_contiguous = true ->
  (s + 1 < n)%nat -> (n < s + fuel)%nat -> (n <= length tbl)%nat ->
  merge_slices P fuel (Z.of_nat s) (Z.of_nat n) v (KArr (Some <$> phys)) tbl ns = undefined.
Proof.
  intros [Hm Hl]%andb_prop. revert s tbl ns. induction fuel as [|fuel IH]; intros s tbl ns Hs Hf Hlen; [lia|].
  pose proof (lo_pages L) as (_ & Hn32 & _). cbn [merge_slices].
  rewrite (proj2 (Z.ltb_lt _ _)) by lia. rewrite (u32_small (Z.of_nat n - 1)) by lia.
  rewrite Hm, (proj2 (Z.ltb_lt _ _)) by lia. cbn [andb].
  destruct (lookup_lt_is_Some_2 phys s) as [p Hp]; [rewrite length_phys; lia|].
  destruct (count_run_over (S (Z.to_nat (Z.of_nat n))) s 1 p Hl (run_one s p Hp)) as [E|(c & E & Hr & Hn)]; [lia|lia| |];
    change (Z.of_nat 1) with 1 in E; rewrite E; cbn [mbind res_bind]; [done|].
  rewrite Nat2Z.id. destruct (fill_slices_ok c 0 s c p tbl Hr Hlen) as (tbl' & E' & El & _); [lia|].
  change (Z.of_nat 0) with 0 in E'. rewrite E'. cbn [mbind res_bind]. pose proof Hr as (Hc & _ & _).
  replace (u32 (Z.of_nat s + Z.of_nat c)) with (Z.of_nat (s + c)) by (rewrite u32_small; lia).
  apply IH; lia.
Qed.

(** *** The messages of debug builds, and the flush *)
Lemma count_merges_ok fuel (k : nat) : (k < n)%nat -> (n <= k + fuel)%nat ->
  count_merges fuel (Z.of_nat k) (Z.of_nat n) (KArr (Some <$> phys)) = Ok tt.
Proof.
  pose proof (lo_pages L) as (_ & Hn32 & _).
  revert k. induction fuel as [|fuel IH]; intros k Hk Hf; [lia|]. cbn [count_merges].
  rewrite u32_small by lia. destruct (Z.ltb_spec (Z.of_nat k) (Z.of_nat n - 1)) as [Hlt|]; [|done].
  destruct (lookup_lt_is_Some_2 phys k) as [p Hp]; [rewrite length_phys; lia|].
  destruct (lookup_lt_is_Some_2 phys (S k)) as [q Hq]; [rewrite length_phys; lia|].
  rewrite (kread_full phys _ _ Hp). replace (Z.of_nat k + 1) with (Z.of_nat (S k)) by lia.
  rewrite (kread_full phys _ _ Hq). cbn [mbind res_bind]. apply IH; lia.
Qed.

(** What is written to flush one range. *)
Definition flush_log (first last : Z) : list Mmio :=
  [WriteWord (PIM_M5_D1_REG P) first; WriteWord (PIM_M5_D2_REG P) last;
   ReadWord (PIM_M5_D1_REG P); ReadWord (PIM_M5_D2_REG P); WriteByte (PIM_M5_REG P) 70].

Lemma flush_range_log first last d :
  flush_range P K first last d = d <| mmio := mmio d ++ flush_log first last |>.
Proof. unfold flush_range, pim_write_byte, pim_read_ulong_t, pim_write_ulong_t. destruct d; cbn. by rewrite <- !app_assoc. Qed.

Lemma flush_pages_log post pre d : phys = pre ++ post -> pages_physical_addr d = KArr (Some <$> phys) ->
  flush_pages P K (length post) (Z.of_nat (length pre)) d =
    Ok (d <| mmio := mmio d ++ flat_map (fun p => flush_log p (p + PS - 1)) post |>).
Proof.
  revert pre d. induction post as [|p post IH]; intros pre d Hph Hd; cbn [flush_pages length flat_map].
  { destruct d; cbn. by rewrite app_nil_r. }
  assert (Hk : phys !! length pre = Some p) by (rewrite Hph; by apply list_lookup_middle).
  pose proof (phys_bound _ _ Hk). pose proof PS_pos.
  rewrite Hd, (kread_full phys _ _ Hk). cbn [mbind res_bind]. rewrite ulong_small by lia.
  rewrite flush_range_log. replace (Z.of_nat (length pre) + 1) with (Z.of_nat (length (pre ++ [p])))
    by (rewrite length_app; cbn; lia).
  rewrite IH; [|by rewrite <- app_assoc|done]. destruct d; cbn. by rewrite <- app_assoc.
Qed.

(** *** The whole operation *)

(** The pages are pinned, and the kernel has the memory that is asked for. *)
Record pinned (d : Driver) (pa : Z) (cap : nat) : Prop := {
  pi_layout : layout_ok;
  pi_list : pages_list d = KArr (Some <$> pgs);
  pi_count : pages_count d = Z.of_nat n;
  pi_kmalloc : forall sz, kmalloc K sz = true;
  pi_free : get_free_pages K (PAGE_ORDER (Z.of_nat n * sizeof_Slice P)) = Some (pa, cap);
  pi_cap : (n <= cap)%nat;
  pi_paddr : 0 <= pa /\ pa + Z.of_nat n * sizeof_Slice P < 2 ^ dp_arch P
}.

(** The accesses to the device: the place, the length and the start of the
    table; in a debug build they are read back; then the flushes. *)
Definition create_log (pa : Z) : list Mmio :=
  [WriteWord (PIM_SLICETABLE P) pa; WriteWord (PIM_SLICECOUNT P) (Z.of_nat n);
   WriteWord (PIM_SLICEVSTART P) v] ++
  (if DEBUG_DRIVER P then
     [ReadWord (PIM_SLICETABLE P); ReadWord (PIM_SLICECOUNT P); ReadWord (PIM_SLICEVSTART P)] else []) ++
  flat_map (fun p => flush_log p (p + PS - 1)) phys ++
  flush_log pa (pa + Z.of_nat n * sizeof_Slice P - 1).

Lemma sizeof_facts : 0 < sizeof_ulong P /\ Z.of_nat n * sizeof_ulong P < 2 ^ dp_arch P /\
  Z.of_nat n * sizeof_Slice P < 2 ^ dp_arch P /\ 0 < sizeof_Slice P.
Proof.
  pose proof (lo_pages L) as (Hn & _ & Hs). unfold sizeof_Slice in *.
  assert (4 <= sizeof_ulong P) by (unfold sizeof_ulong; destruct (lo_arch L) as [-> | ->]; done || (cbn; lia)).
  split_and!; try done; nia.
Qed.

Lemma kmalloc_pages d pa cap : pinned d pa cap ->
  kmalloc_array P K (pages_count d) (sizeof_ulong P) = KArr (replicate n None).
Proof.
  intros Hd. pose proof sizeof_facts as (H1 & H2 & _ & _). pose proof (lo_pages L) as (Hn & _ & _).
  unfold kmalloc_array. rewrite (pi_kmalloc _ _ _ Hd), (pi_count _ _ _ Hd), ulong_small by nia.
  rewrite Z.div_mul by lia. by rewrite Nat2Z.id.
Qed.

Lemma announce_log pa tbl d : slicetable_paddr d = pa -> pages_count d = Z.of_nat n ->
  (forall k, (k < n)%nat -> entry_good tbl n k) ->
  announce_table P K tbl d = Ok (d <| mmio := mmio d ++
    [WriteWord (PIM_SLICETABLE P) pa; WriteWord (PIM_SLICECOUNT P) (Z.of_nat n); WriteWord (PIM_SLICEVSTART P) v] ++
    (if DEBUG_DRIVER P then
       [ReadWord (PIM_SLICETABLE P); ReadWord (PIM_SLICECOUNT P); ReadWord (PIM_SLICEVSTART P)] else []) |>).
Proof.
  intros Hpa Hc Hgood. pose proof (lo_pages L) as (Hn & _ & _).
  destruct (Hgood 0%nat Hn) as (s & c & p & H1 & H2 & H3 & H4). assert (s = 0%nat) as -> by lia.
  unfold announce_table. rewrite (H4 0%nat) by lia. cbn [deref mbind res_bind].
  replace (sl_vaddr (slice_of 0 c p)) with v by (cbn; lia).
  unfold pim_write_ulong_t, pim_read_ulong_t. destruct d; cbn in *. subst.
  destruct (DEBUG_DRIVER P); by rewrite <- !app_assoc.
Qed.

Lemma cache_flush_log d : pages_physical_addr d = KArr (Some <$> phys) -> pages_count d = Z.of_nat n ->
  0 <= slicetable_paddr d -> slicetable_paddr d + Z.of_nat n * sizeof_Slice P < 2 ^ dp_arch P ->
  pim_cache_flush P K d = Ok (d <| mmio := mmio d ++ flat_map (fun p => flush_log p (p + PS - 1)) phys ++
    flush_log (slicetable_paddr d) (slicetable_paddr d + Z.of_nat n * sizeof_Slice P - 1) |>).
Proof.
  intros Hph Hc H0 H1. pose proof sizeof_facts as (_ & _ & _ & S4). pose proof (lo_pages L) as (Hn & _ & _).
  unfold pim_cache_flush. rewrite Hc, Nat2Z.id. rewrite <- length_phys at 1.
  change 0 with (Z.of_nat (length (@nil Z))). rewrite (flush_pages_log phys []) by done. cbn [mbind res_bind].
  rewrite flush_range_log. destruct d; cbn in *. rewrite Hc, ulong_small by nia. by rewrite <- app_assoc.
Qed.

Lemma create_slice_table_cases d pa cap : pinned d pa cap ->
  if PIM_MERGE_SLICES P && last_contiguous then pim_create_slice_table P K v d = undefined
  else exists d' tbl, pim_create_slice_table P K v d = Ok (d', Ret 0) /\
    slicetable d' = Some tbl /\ (forall k, (k < n)%nat -> entry_good tbl n k) /\
    mmio d' = mmio d ++ create_log pa.
Proof.
  intros Hd. pose proof sizeof_facts as (S1 & S2 & S3 & S4). pose proof (lo_pages L) as (Hn & Hn32 & _).
  unfold pim_create_slice_table. rewrite (kmalloc_pages d pa cap Hd).
  destruct Hd as [_ Hl Hc Hk Hf Hcap Hpa]. destruct d; cbn in Hl, Hc. subst. cbn -[merge_slices count_merges get_phys].
  rewrite andb_false_r, !Nat2Z.id.
  pose proof (get_phys_ok [] phys (replicate n None) eq_refl) as E. rewrite length_phys, length_replicate in E.
  cbn [length app fmap list_fmap] in E. change (Z.of_nat 0) with 0 in E. rewrite E by done. cbn [mbind res_bind].
  rewrite ulong_small, Hf by nia.
  destruct (PIM_MERGE_SLICES P && last_contiguous) eqn:Em.
  - assert (2 <= n)%nat.
    { apply andb_prop in Em as [_ Em]. unfold last_contiguous in Em.
      destruct (phys !! (n - 2)%nat), (phys !! (n - 1)%nat); try done. apply andb_prop in Em as [Em _].
      by apply Nat.leb_le. }
    pose proof (merge_slices_over (S n) 0 (replicate cap None) 0 Em) as Hm.
    change (Z.of_nat 0) with 0 in Hm. rewrite Hm; [done|lia|lia|by rewrite length_replicate].
  - destruct (merge_slices_ok (S n) 0 (replicate cap None) 0 Em) as (tbl & ns & Hm & _ & Hgood);
      [lia|lia|by rewrite length_replicate|lia|].
    change (Z.of_nat 0) with 0 in Hm. rewrite Hm. cbn [mbind res_bind].
    pose proof (count_merges_ok (S n) 0 ltac:(lia) ltac:(lia)) as Hcm. change (Z.of_nat 0) with 0 in Hcm.
    rewrite Hcm. replace (if DEBUG_DRIVER P then Ok tt else Ok tt) with (Ok tt) by (by destruct (DEBUG_DRIVER P)).
    cbn [mbind res_bind].
    rewrite (announce_log pa tbl) by done. cbn [mbind res_bind].
    rewrite cache_flush_log by (cbn; try done; lia). cbn [mbind res_bind].
    eexists _, tbl. split; [reflexivity|]. cbn. split; [done|]. split; [done|]. unfold create_log. by rewrite <- !app_assoc.
Qed.

(** C35. Merging contiguous pages reads behind the array of physical addresses
    exactly when the last two pages are contiguous; otherwise a table is built
    in which every page belongs to a slice of contiguous pages. *)
Theorem create_slice_table_bounds (d : Driver) (pa : Z) (cap : nat) : pinned d pa cap ->
  (PIM_MERGE_SLICES P = true /\ last_contiguous = true /\ pim_create_slice_table P K v d = undefined) \/
  ((PIM_MERGE_SLICES P = false \/ last_contiguous = false) /\
   exists d' tbl, pim_create_slice_table P K v d = Ok (d', Ret 0) /\ slicetable d' = Some tbl /\
     forall k, (k < n)%nat -> entry_good tbl n k).
Proof.
  intros Hd. pose proof (create_slice_table_cases d pa cap Hd) as H.
  destruct (PIM_MERGE_SLICES P), last_contiguous; cbn in H.
  - by left.
  - right. split; [by right|]. destruct H as (d' & tbl & H1 & H2 & H3 & _). by exists d', tbl.
  - right. split; [by left|]. destruct H as (d' & tbl & H1 & H2 & H3 & _). by exists d', tbl.
  - right. split; [by left|]. destruct H as (d' & tbl & H1 & H2 & H3 & _). by exists d', tbl.
Qed.

End SliceTable.

(** ** Error paths *)
Section Errors.

Context (P : Params) (K : Kernel).
Hypothesis arch : dp_arch P = 32 \/ dp_arch P = 64.

Lemma sizeof_ulong_cases : sizeof_ulong P = 4 /\ dp_arch P = 32 \/ sizeof_ulong P = 8 /\ dp_arch P = 64.
Proof. unfold sizeof_ulong. destruct arch as [-> | ->]; [by left|by right]. Qed.

Lemma kread_at l i o : 0 <= i -> l !! Z.to_nat i = Some o -> kread (KArr l) i = deref o.
Proof. intros Hi H. unfold kread. rewrite (proj2 (Z.ltb_ge _ _)) by done. by rewrite H. Qed.

(** A user who passes the greatest unsigned long as the number of arguments is
    not stopped by the check against [PIM_IOCTL_MAX_ARGS]: the sum wraps to
    zero, nothing more is copied, and the driver goes on with arguments that
    were never set. *)
Theorem ioctl_size_wraps (arg : Z) (d : Driver) :
  copy_from_user K arg (sizeof_ulong P) = Some [2 ^ dp_arch P - 1] ->
  copy_from_user K arg 0 = Some [] ->
  ioctl_allocate P K arg d = undefined.
Proof.
  set (big := 2 ^ dp_arch P - 1). intros H1 H2.
  assert (ulong P (big + 1) = 0) as Hbig.
  { unfold big. rewrite Z.sub_add. unfold ulong, wrap. apply Z.mod_same. destruct arch as [-> | ->]; lia. }
  assert (exists k, u32 (big / 2) = Z.of_nat (S k)) as [k Hk].
  { exists (Z.to_nat (u32 (big / 2) - 1)). unfold big.
    assert (0 < u32 ((2 ^ dp_arch P - 1) / 2)) by (destruct arch as [-> | ->]; vm_compute; reflexivity). lia. }
  clearbody big. unfold ioctl_allocate, copy_args. rewrite H1.
  change (Z.to_nat PIM_IOCTL_MAX_ARGS) with 8%nat. cbn -[pin_ranges ulong kread].
  rewrite (kread_at _ 0 (Some big)) by done. cbn -[pin_ranges ulong kread]. rewrite Hbig.
  cbn -[pin_ranges ulong kread]. rewrite Z.mul_0_l. replace (ulong P 0) with 0 by (by destruct arch as [E|E]; unfold ulong; rewrite E).
  rewrite H2. cbn -[pin_ranges kread]. rewrite Hk.
  cbn -[kread]. by rewrite (kread_at _ 1 None).
Qed.

(** With fewer arguments than a range has the loop pins nothing, and the start
    of the table is read from an argument that may not have been set. *)
Theorem ioctl_no_arguments (arg : Z) (d : Driver) :
  copy_from_user K arg (sizeof_ulong P) = Some [0] -> ioctl_allocate P K arg d = undefined.
Proof.
  intros H1. unfold ioctl_allocate, copy_args. rewrite H1.
  change (Z.to_nat PIM_IOCTL_MAX_ARGS) with 8%nat. cbn -[pin_ranges ulong kread].
  rewrite (kread_at _ 0 (Some 0)) by done. cbn -[pin_ranges ulong kread].
  change (0 + 1) with 1. replace (ulong P 1) with 1 by (unfold ulong, wrap; destruct arch as [-> | ->]; reflexivity).
  cbn [Z.ltb Z.compare Pos.compare Pos.compare_cont PIM_IOCTL_MAX_ARGS].
  rewrite Z.mul_1_l. replace (ulong P (sizeof_ulong P)) with (sizeof_ulong P)
    by (unfold ulong, wrap; destruct sizeof_ulong_cases as [[-> ->]|[-> ->]]; reflexivity).
  rewrite H1. cbn -[kread]. by rewrite (kread_at _ 1 None).
Qed.

(** A slice table of no pages: its first entry is read although nothing has
    been written to it. *)
Lemma empty_table v d l : pages_count d = 0 -> pages_list d = l -> (forall sz, kmalloc K sz = true) ->
  (exists pa cap, get_free_pages K 0 = Some (pa, cap)) -> pim_create_slice_table P K v d = undefined.
Proof.
  intros Hc Hl Hk (pa & cap & Hf).
  assert (ulong P 0 = 0) as H0 by (unfold ulong; destruct arch as [-> | ->]; reflexivity).
  unfold pim_create_slice_table, kmalloc_array. rewrite Hc, Hk, Z.mul_0_l, H0.
  destruct d; cbn in Hc, Hl |- *. subst. rewrite andb_false_r. cbn -[count_merges].
  rewrite Z.mul_0_l, H0. change (PAGE_ORDER 0) with 0. rewrite Hf. cbn -[count_merges].
  replace (replicate (Z.to_nat (0 / sizeof_ulong P)) None) with (@nil (option Z))
    by (by destruct sizeof_ulong_cases as [[-> _]|[-> _]]).
  destruct (DEBUG_DRIVER P); cbn; [done|]. unfold announce_table. by destruct cap.
Qed.

(** Fewer pages than asked for: an error, and no page is counted. *)
Lemma get_user_pages_short a np pgs d : (forall sz, kmalloc K sz = true) ->
  get_user_pages K a np = (Z.of_nat (length pgs), pgs) -> Z.of_nat (length pgs) < np ->
  np * sizeof_ulong P < 2 ^ dp_arch P ->
  exists d', pim_get_user_pages P K a np d = Ok (d', Fail ENOMEM) /\ pages_count d' = pages_count d.
Proof.
  intros Hk Hg Hlt Hnp.
  assert (0 < sizeof_ulong P) by (destruct sizeof_ulong_cases as [[-> _]|[-> _]]; lia).
  unfold pim_get_user_pages, kmalloc_array. rewrite Hk, Hg.
  assert (ulong P (np * sizeof_ulong P) / sizeof_ulong P = np) as ->
    by (rewrite ulong_small by nia; apply Z.div_mul; lia).
  destruct (DEBUG_DRIVER P), d; cbn -[Nat.leb];
    rewrite length_replicate, (proj2 (Nat.leb_le _ _)) by lia; cbn;
    rewrite (proj2 (Z.eqb_neq _ _)) by lia; eexists; done.
Qed.

(** What [pim_get_user_pages] returns is ignored: when the kernel does not pin
    all the pages, the driver still builds a table, of the zero pages it has
    counted. *)
Theorem ioctl_ignores_failure (arg a np : Z) (pgs : list Z) (d : Driver) :
  copy_from_user K arg (sizeof_ulong P) = Some [2] ->
  copy_from_user K arg (3 * sizeof_ulong P) = Some [2; a; np] ->
  pages_count d = 0 -> (forall sz, kmalloc K sz = true) ->
  (exists pa cap, get_free_pages K 0 = Some (pa, cap)) ->
  get_user_pages K a np = (Z.of_nat (length pgs), pgs) -> Z.of_nat (length pgs) < np ->
  np * sizeof_ulong P < 2 ^ dp_arch P ->
  ioctl_allocate P K arg d = undefined.
Proof.
  intros H1 H2 Hc Hk Hf Hg Hlt Hnp. unfold ioctl_allocate, copy_args. rewrite H1.
  change (Z.to_nat PIM_IOCTL_MAX_ARGS) with 8%nat. cbn -[pin_ranges ulong kread].
  rewrite (kread_at _ 0 (Some 2)) by done. cbn -[pin_ranges ulong kread].
  change (2 + 1) with 3. replace (ulong P 3) with 3 by (unfold ulong, wrap; destruct arch as [-> | ->]; reflexivity).
  cbn [Z.ltb Z.compare Pos.compare Pos.compare_cont PIM_IOCTL_MAX_ARGS].
  replace (ulong P (3 * sizeof_ulong P)) with (3 * sizeof_ulong P)
    by (unfold ulong, wrap; destruct sizeof_ulong_cases as [[-> ->]|[-> ->]]; reflexivity).
  rewrite H2. cbn -[pin_ranges kread pim_create_slice_table].
  change (u32 (2 / 2)) with 1. set (d0 := mkDriver _ _ _ _ _ _ _ _ _ _ _).
  destruct (get_user_pages_short a np pgs d0 Hk Hg Hlt Hnp) as (d1 & E & Hc1).
  cbn -[kread pim_get_user_pages pim_create_slice_table]. change (2 * 0 + 1) with 1. change (2 * 0 + 2) with 2.
  rewrite (kread_at _ 1 (Some a)), (kread_at _ 2 (Some np)) by done.
  cbn -[kread pim_get_user_pages pim_create_slice_table]. rewrite E.
  change (0 + 1 <? 1) with false. cbn -[kread pim_create_slice_table].
  erewrite empty_table; try done. by rewrite Hc1.
Qed.

(** Releasing more than one page frees the list of pages in the first turn of
    the loop and reads it in the second; after one page, closing the device
    frees the list again. *)
Theorem release_frees_twice (cmd arg : Z) (pgs : list Z) (d : Driver) :
  IOC_TYPE K cmd = PIM_IOCTL_MAGIC -> 0xB0 <= IOC_NR K cmd <= 0xB3 ->
  IOC_READ_dir K cmd = false -> IOC_WRITE_dir K cmd = false ->
  cmd = PIM_IOCTL_RELEASE_ALL_DATA K -> cmd <> PIM_IOCTL_HELLO K -> cmd <> PIM_IOCTL_ALLOCATE_DATA K ->
  pages_list d = KArr (Some <$> pgs) -> pages_count d = Z.of_nat (length pgs) -> pgs <> [] ->
  ('(d, _) ← pim_ioctl P K cmd arg d; pim_release d) = undefined.
Proof.
  intros Ht Hn Hr Hw Hc Hh Ha Hl Hcount Hne. unfold pim_ioctl.
  rewrite Ht, Z.eqb_refl, Hr, Hw. cbn [negb].
  rewrite (proj2 (Z.ltb_ge _ _)), (proj2 (Z.ltb_ge _ _)) by lia. cbn [orb].
  rewrite (proj2 (Z.eqb_neq _ _) Hh), (proj2 (Z.eqb_neq _ _) Ha), Hc, Z.eqb_refl, Hcount, Nat2Z.id.
  destruct pgs as [|p [|q pgs]]; [done| |]; destruct d; cbn in Hl |- *; subst; cbn; [|done].
  by destruct pages_physical_addr0.
Qed.

(** The offset of a mapping is compared with the size of the device, but it is
    a physical address: at the base of the device the remaining size wraps
    around, and a mapping that reaches far behind the device is accepted. *)
Theorem mmap_check_vacuous (vm_start vm_end vm_pgoff : Z) :
  0 <= PAGE_SHIFT P -> vm_pgoff * PAGE_SIZE P = PHY_BASE P -> 0 < PHY_SIZE P < PHY_BASE P ->
  PHY_BASE P < 2 ^ dp_arch P ->
  0 <= vm_end - vm_start <= 2 ^ dp_arch P - PHY_BASE P ->
  remap_pfn_range K vm_start vm_pgoff (vm_end - vm_start) = true ->
  pim_mmap P K vm_start vm_end vm_pgoff = Ret 0.
Proof.
  intros Hs Hoff Hsz Hb Hlen Hrm. unfold pim_mmap. rewrite Hoff.
  rewrite !(ulong_small P (PHY_BASE P)), (ulong_small P (vm_end - vm_start)), Hrm by lia.
  replace (ulong P (PHY_SIZE P - PHY_BASE P)) with (PHY_SIZE P - PHY_BASE P + 2 ^ dp_arch P).
  - by rewrite (proj2 (Z.ltb_ge _ _)) by lia.
  - unfold ulong, wrap. rewrite <- (Z.mod_add _ 1) by lia. rewrite Z.mod_small; lia.
Qed.

End Errors.

(** ** Examples and witnesses

    A kernel whose process has three pages of 16 bytes, the first two
    contiguous in physical memory. *)
Definition ex_drv_params (merge : bool) : Params := mkParams 32 4 4096 256 132 136 140 144 148 152 false merge.
Definition ex_drv_kernel : Kernel :=
  mkKernel (fun cmd => cmd / 256 mod 256) (fun cmd => cmd mod 256) (fun _ => false) (fun _ => false) (fun _ => 4)
    0x70B0 0x70B1 0x70B2 0x70B3 (fun _ _ _ => true)
    (fun a b => if a =? 8 then Some (if b =? 0 then [] else [2 ^ 32 - 1])
                else Some (take (Z.to_nat (b / 4)) [2; 4096; 3]))
    (fun _ => true) (fun _ _ => (3, [1; 2; 3])) (fun pg => if pg =? 3 then 160 else 96 + 16 * pg)
    (fun _ => Some (64, 5%nat)) (fun _ => 0) (fun _ _ _ => true).
Definition ex_drv_new : Driver := mkDriver KNull 0 KNull None 0 0 0 0 0 [] [].
Definition ex_drv_pinned (pgs : list Z) : Driver :=
  ex_drv_new <| pages_list := KArr (Some <$> pgs) |> <| pages_count := Z.of_nat (length pgs) |>.

Example ex_ioctl_table : exists d,
  pim_ioctl (ex_drv_params true) ex_drv_kernel 0x70B1 16 ex_drv_new = Ok (d, Ret 1) /\
  slicetable d = Some [Some (mkSlice 4096 112 32); Some (mkSlice 4096 112 32); Some (mkSlice 4128 160 16); None; None].
Proof. eexists. split; vm_compute; reflexivity. Qed.

Lemma ex_pinned (merge : bool) (pgs : list Z) : pgs = [1; 2; 3] \/ pgs = [1; 2] ->
  pinned (ex_drv_params merge) ex_drv_kernel pgs 4096 (ex_drv_pinned pgs) 64 5.
Proof.
  intros Hp. destruct Hp as [-> | ->]; (split; [|try done..]); try (cbn; lia);
    split; try (by left); try (cbn; lia);
    try (unfold PAGE_SIZE, sizeof_Slice, sizeof_ulong; cbn; lia);
    repeat constructor; vm_compute; congruence.
Qed.

Lemma create_slice_table_bounds_witness :
  pim_create_slice_table (ex_drv_params true) ex_drv_kernel 4096 (ex_drv_pinned [1; 2]) = undefined /\
  exists d' tbl, pim_create_slice_table (ex_drv_params true) ex_drv_kernel 4096 (ex_drv_pinned [1; 2; 3]) = Ok (d', Ret 0) /\
    slicetable d' = Some tbl.
Proof.
  split.
  - pose proof (ex_pinned true [1; 2] (or_intror eq_refl)) as Hp.
    destruct (create_slice_table_bounds _ _ [1; 2] 4096 (pi_layout _ _ _ _ _ _ _ Hp) _ 64 5 Hp) as [(_ & _ & E)|([H|H] & _)];
      [exact E|discriminate H|discriminate H].
  - pose proof (ex_pinned true [1; 2; 3] (or_introl eq_refl)) as Hp.
    destruct (create_slice_table_bounds _ _ [1; 2; 3] 4096 (pi_layout _ _ _ _ _ _ _ Hp) _ 64 5 Hp) as [(_ & H & _)|(_ & d' & tbl & E1 & E2 & _)];
      [discriminate H|]. exists d', tbl. split; [exact E1|exact E2].
Defined.

Lemma ioctl_size_wraps_witness :
  ioctl_allocate (ex_drv_params true) ex_drv_kernel 8 ex_drv_new = undefined.
Proof.
  apply (ioctl_size_wraps (ex_drv_params true) ex_drv_kernel); [by left|reflexivity|reflexivity].
Defined.

Lemma release_frees_twice_witness :
  ('(d, _) ← pim_ioctl (ex_drv_params true) ex_drv_kernel 0x70B2 0 (ex_drv_pinned [1; 2]); pim_release d) = undefined.
Proof.
  apply (release_frees_twice (ex_drv_params true) ex_drv_kernel 0x70B2 0 [1; 2]);
    try reflexivity; try discriminate. split; vm_compute; congruence.
Defined.

Lemma ioctl_ignores_failure_witness :
  ioctl_allocate (ex_drv_params false) (mkKernel (IOC_TYPE ex_drv_kernel) (IOC_NR ex_drv_kernel)
    (fun _ => false) (fun _ => false) (fun _ => 4) 0x70B0 0x70B1 0x70B2 0x70B3 (fun _ _ _ => true)
    (copy_from_user ex_drv_kernel) (fun _ => true) (fun _ _ => (2, [1; 2])) (fun pg => 16 * pg)
    (fun _ => Some (64, 5%nat)) (fun _ => 0) (fun _ _ _ => true)) 16 ex_drv_new = undefined.
Proof.
  apply (ioctl_ignores_failure (ex_drv_params false) _ (or_introl eq_refl) 16 4096 3 [1; 2]); try reflexivity.
  by exists 64, 5%nat.
Defined.

Lemma mmap_check_vacuous_witness :
  pim_mmap (ex_drv_params true) ex_drv_kernel 0 0x10000000 256 = Ret 0.
Proof. apply mmap_check_vacuous; try reflexivity; cbn; lia || (vm_compute; split; congruence). Defined.
