(* ===== verification/PimSystem.v ===== *)
(** * The driver, the device and its TLB together

    Nothing of the code is modelled here.  The theorem follows a slice table
    from the driver that builds it (PimDriver.v), through the registers of the
    device it is announced in (PimMemory.v), to the TLB that reads it
    (Tlb.v). *)

From S2P Require Import Prelude.
From S2P Require Import AddrRange.
From S2P Require Import Packet.
From S2P Require Import AbstractMem.
From S2P Require Import Port.
From S2P Require Import SimpleMem.
From S2P Require Import AddrMapper.
From S2P Require Import Tlb.
From S2P Require Import Dma.
From S2P Require Import Coproc.
From S2P Require Import PimMemory.
From S2P Require Import PimDriver.

(** ** The registers *)
Section Registers.

Context {H : Type} {WH : PimWorld H} {DS : MemDevice (PIMMemory * H)}.
Context (random_mt : Z -> Z -> Z -> Z) (P : Params).

(** The device is mapped where the driver believes it to be, and its registers
    do not overlap. *)
Record same_map (y : PimSystem H) : Prop := {
  sm_arch : pp_arch (pm_params (pim y)) = dp_arch P;
  sm_table : PIM_SLICETABLE_ADDR (pm_params (pim y)) = PHY_BASE P + PIM_SLICETABLE P;
  sm_count : PIM_SLICECOUNT_ADDR (pm_params (pim y)) = PHY_BASE P + PimDriver.PIM_SLICECOUNT P;
  sm_vstart : PIM_SLICEVSTART_ADDR (pm_params (pim y)) = PHY_BASE P + PimDriver.PIM_SLICEVSTART P;
  sm_apart : NoDup (registers (pm_params (pim y)))
}.

(** The packets of the host's accesses, in order; the device reacts to the
    word-sized stores. *)
Inductive replay : list Mmio -> PimSystem H -> PimSystem H -> Prop :=
| replay_nil y : replay [] y y
| replay_word off x now pkt ws y y1 y2 pkt1 l :
    isWrite pkt = true -> getAddr pkt = Ok (PHY_BASE P + off) -> word_value (dp_arch P) pkt = Ok x ->
    recvAtomic random_mt now pkt y = Ok (y1, pkt1, l) ->
    replay ws y1 y2 -> replay (WriteWord off x :: ws) y y2.

(** A word written to a register of the TLB. *)
Lemma register_write now pkt a x (y y' : PimSystem H) pkt' l (upd : TLB -> TLB) : isWrite pkt = true -> getAddr pkt = Ok a ->
  word_value (pp_arch (pm_params (pim y))) pkt = Ok x -> NoDup (registers (pm_params (pim y))) ->
  let Pp := pm_params (pim y) in
  (a = PIM_SLICETABLE_ADDR Pp /\ upd = (fun t => t <| PIM_SLICETABLE_PTR := x |>)) \/
  (a = PIM_SLICECOUNT_ADDR Pp /\ upd = (fun t => t <| Tlb.PIM_SLICECOUNT := x |>)) \/
  (a = PIM_SLICEVSTART_ADDR Pp /\ upd = (fun t => t <| Tlb.PIM_SLICEVSTART := x |>)) ->
  recvAtomic random_mt now pkt y = Ok (y', pkt', l) ->
  dtlb y' = upd (dtlb y) /\ pm_params (pim y') = pm_params (pim y).
Proof.
  intros Hw Ha Hx Hnd Pp Hcase E. unfold recvAtomic in E. rewrite Hw, Ha in E. cbn [mbind res_bind] in E.
  unfold registers in Hnd. repeat (apply NoDup_cons in Hnd as [? Hnd]).
  repeat match goal with h : _ ∉ _ :: _ |- _ => rewrite not_elem_of_cons in h; destruct h end.
  assert (write_register now pkt a y = Ok (set_dtlb (upd (dtlb y)) y) /\
    write_debug_register now pkt a (set_dtlb (upd (dtlb y)) y) = Ok (set_dtlb (upd (dtlb y)) y)) as [E1 E2].
  { unfold write_register, write_debug_register. cbn [pim pm_params set_dtlb]. subst Pp.
    destruct Hcase as [[-> ->]|[[-> ->]|[-> ->]]];
      rewrite ?Z.eqb_refl, Hx; repeat (rewrite (proj2 (Z.eqb_neq _ _)) by congruence); done. }
  rewrite E1 in E. cbn [mbind res_bind] in E. rewrite E2 in E. cbn [mbind res_bind] in E.
  res_inv. done.
Qed.

(** After the three stores of the driver the TLB knows the table. *)
Lemma replay_table y y' pa cnt v : same_map y ->
  replay [WriteWord (PIM_SLICETABLE P) pa; WriteWord (PimDriver.PIM_SLICECOUNT P) cnt;
          WriteWord (PimDriver.PIM_SLICEVSTART P) v] y y' ->
  dtlb y' = (dtlb y) <| PIM_SLICETABLE_PTR := pa |> <| Tlb.PIM_SLICECOUNT := cnt |>
                     <| Tlb.PIM_SLICEVSTART := v |>.
Proof.
  intros [M1 M2 M3 M4 M5] Hr.
  inversion Hr as [|? ? ? ? ? ? ya ? ? ? W1 A1 X1 E1 Hr1]; subst.
  inversion Hr1 as [|? ? ? ? ? ? yb ? ? ? W2 A2 X2 E2 Hr2]; subst.
  inversion Hr2 as [|? ? ? ? ? ? yc ? ? ? W3 A3 X3 E3 Hr3]; subst. inversion Hr3; subst.
  rewrite <- M1 in X1, X2, X3.
  destruct (register_write _ _ _ _ _ _ _ _ _ W1 A1 X1 M5 (or_introl (conj (eq_sym M2) eq_refl)) E1) as [D1 P1].
  rewrite <- P1 in X2, X3, M3, M4, M5.
  destruct (register_write _ _ _ _ _ _ _ _ _ W2 A2 X2 M5 (or_intror (or_introl (conj (eq_sym M3) eq_refl))) E2) as [D2 P2].
  rewrite <- P2 in X3, M4, M5.
  destruct (register_write _ _ _ _ _ _ _ _ _ W3 A3 X3 M5 (or_intror (or_intror (conj (eq_sym M4) eq_refl))) E3) as [D3 _].
  rewrite D3, D2, D1. done.
Qed.

End Registers.

(** ** The table in memory *)
Definition slice_bytes (P : Params) (sl : Slice) : list Z :=
  let w := Z.to_nat (sizeof_ulong P) in
  le_bytes w (sl_vaddr sl) ++ le_bytes w (sl_paddr sl) ++ le_bytes w (sl_size sl).

Lemma three_words (w : nat) x y z : 0 <= x < 256 ^ Z.of_nat w -> 0 <= y < 256 ^ Z.of_nat w ->
  0 <= z < 256 ^ Z.of_nat w ->
  let bs := le_bytes w x ++ le_bytes w y ++ le_bytes w z in
  arr_word bs (Z.of_nat w) 0 = Ok x /\ arr_word bs (Z.of_nat w) 1 = Ok y /\ arr_word bs (Z.of_nat w) 2 = Ok z.
Proof.
  intros Hx Hy Hz bs. unfold arr_word.
  pose proof (arr_read_mid [] (le_bytes w x) (le_bytes w y ++ le_bytes w z)) as H0.
  pose proof (arr_read_mid (le_bytes w x) (le_bytes w y) (le_bytes w z)) as H1.
  pose proof (arr_read_mid (le_bytes w x ++ le_bytes w y) (le_bytes w z) []) as H2.
  rewrite app_nil_r, <- app_assoc in H2. cbn [app length] in H0.
  rewrite length_le_bytes in H0. rewrite (length_le_bytes w x), (length_le_bytes w y) in H1.
  rewrite length_app, (length_le_bytes w x), (length_le_bytes w y), (length_le_bytes w z) in H2.
  replace (Z.of_nat w * 0) with (Z.of_nat 0) by lia. replace (Z.of_nat w * 1) with (Z.of_nat w) by lia.
  replace (Z.of_nat w * 2) with (Z.of_nat (w + w)) by lia.
  unfold bs. rewrite H0, H1, H2. cbn [mbind res_bind]. rewrite !le_val_bytes, !Z.mod_small by done. done.
Qed.

Section Table.

Context {S : Type} {DS : MemDevice S} {LS : MemDeviceLaws S}.
Context (P : Params) (K : Kernel) (pgs : list Z) (v pa : Z) (tbl : list (option Slice)).
Hypothesis L : layout_ok P K pgs v.
Hypothesis Hpa : 0 <= pa /\ pa + Z.of_nat (length pgs) * sizeof_Slice P < 2 ^ dp_arch P.
Hypothesis good : forall k, (k < length pgs)%nat -> entry_good P K pgs v tbl (length pgs) k.

Abbreviation PS := (PAGE_SIZE P).
Abbreviation n := (length pgs).

(** The flushed table stands in main memory. *)
Definition table_in_memory (s : S) : Prop :=
  forall k sl, (k < n)%nat -> tbl !! k = Some (Some sl) ->
    contents s (pa + Z.of_nat k * sizeof_Slice P) (sizeof_Slice P) = Ok (slice_bytes P sl).

(** A TLB that knows the table. *)
Record knows_table (t : TLB) : Prop := {
  kt_ptr : PIM_SLICETABLE_PTR t = pa;
  kt_start : Tlb.PIM_SLICEVSTART t = v;
  kt_arch : pim_arch t = dp_arch P;
  kt_shift : OS_PAGE_SHIFT t = PAGE_SHIFT P
}.

Lemma widths : exists w, Z.of_nat w = sizeof_ulong P /\ Z.to_nat (sizeof_ulong P) = w /\
  sizeof_Slice P = 3 * dp_arch P / 8 /\ 256 ^ Z.of_nat w = 2 ^ dp_arch P /\
  (if dp_arch P =? 32 then 4 else 8) = Z.of_nat w.
Proof.
  unfold sizeof_Slice, sizeof_ulong. destruct (lo_arch P K pgs v L) as [-> | ->];
    [exists 4%nat|exists 8%nat]; split_and!; reflexivity.
Qed.

Lemma slice_words s c p : run_from P K pgs s c p ->
  0 <= v + PS * Z.of_nat s /\ v + PS * Z.of_nat s + PS * Z.of_nat c < 2 ^ dp_arch P /\
  0 < PS * Z.of_nat c /\ 0 <= p /\ p + PS * Z.of_nat c < 2 ^ dp_arch P.
Proof.
  intros (Hc & Hn & Hr). pose proof (PS_pos P K pgs v L). pose proof (lo_virt P K pgs v L).
  pose proof (Hr 0%nat Hc) as Hfst. pose proof (Hr (c - 1)%nat ltac:(lia)) as Hlst.
  apply (phys_bound P K pgs v L) in Hfst, Hlst. rewrite page_after in Hlst by done.
  assert (PS * Z.of_nat s + PS * Z.of_nat c <= Z.of_nat n * PS) by nia.
  assert (0 <= PS * Z.of_nat s) by nia. assert (PS <= PS * Z.of_nat c) by nia. lia.
Qed.

(** The page of an address. *)
Definition page_of (a : Z) : nat := Z.to_nat ((a - v) / PS).

Lemma page_of_spec a : v <= a < v + Z.of_nat n * PS ->
  (page_of a < n)%nat /\ Z.of_nat (page_of a) = (a - v) / PS /\
  v + PS * Z.of_nat (page_of a) <= a < v + PS * Z.of_nat (page_of a) + PS.
Proof.
  intros Ha. pose proof (PS_pos P K pgs v L) as Hps. unfold page_of.
  pose proof (Z.div_pos (a - v) PS ltac:(lia) Hps). rewrite Z2Nat.id by done.
  pose proof (Z.div_lt_upper_bound (a - v) PS (Z.of_nat n) Hps ltac:(lia)).
  pose proof (Z.mul_div_le (a - v) PS Hps). pose proof (Z.mul_succ_div_gt (a - v) PS Hps). lia.
Qed.

(** What the TLB finds for an address of the process. *)
Lemma table_entry_driver t s a sl : knows_table t -> table_in_memory s -> v <= a < v + Z.of_nat n * PS ->
  tbl !! page_of a = Some (Some sl) ->
  0 <= sl_vaddr sl < 2 ^ dp_arch P -> 0 <= sl_paddr sl < 2 ^ dp_arch P -> 0 <= sl_size sl < 2 ^ dp_arch P ->
  table_entry t s a = Ok (sl_vaddr sl, sl_paddr sl, sl_size sl).
Proof.
  intros [K1 K2 K3 K4] Hmem Ha Hsl B1 B2 B3. destruct widths as (w & W1 & W2 & W3 & W4 & W5).
  destruct (page_of_spec a Ha) as (Hk & Hq & _). pose proof (lo_shift P K pgs v L).
  unfold table_entry, entry_place, entry_length, word_bytes. rewrite K1, K2, K3, K4, W5, <- W3.
  rewrite (proj2 (Z.ltb_ge _ _)) by lia. change (2 ^ PAGE_SHIFT P) with PS. rewrite <- Hq. cbn [mbind res_bind].
  assert (0 < sizeof_Slice P) by (rewrite W3; destruct (lo_arch P K pgs v L) as [-> | ->]; reflexivity).
  assert (2 ^ dp_arch P <= 2 ^ 64) by (destruct (lo_arch P K pgs v L) as [-> | ->]; lia).
  rewrite Z.mod_small by nia. rewrite (Z.mul_comm (sizeof_Slice P)), (Hmem _ _ Hk Hsl). cbn [mbind res_bind].
  unfold slice_bytes. rewrite W2. rewrite <- W4 in B1, B2, B3.
  destruct (three_words w _ _ _ B1 B2 B3) as (-> & -> & ->). done.
Qed.

(** The entry of an address, and of all addresses of its slice. *)
Lemma entry_slice t s a : knows_table t -> table_in_memory s -> v <= a < v + Z.of_nat n * PS ->
  exists st c p, run_from P K pgs st c p /\ v + PS * Z.of_nat st <= a < v + PS * Z.of_nat st + PS * Z.of_nat c /\
    forall a', v + PS * Z.of_nat st <= a' < v + PS * Z.of_nat st + PS * Z.of_nat c ->
      table_entry t s a' = Ok (v + PS * Z.of_nat st, p, PS * Z.of_nat c).
Proof.
  intros Hk Hmem Ha. destruct (page_of_spec a Ha) as (Hpg & _ & Hin).
  destruct (good (page_of a) Hpg) as (st & c & p & H1 & H2 & H3 & H4).
  pose proof (PS_pos P K pgs v L). exists st, c, p. split; [done|]. split; [nia|].
  intros a' Ha'. destruct (slice_words st c p H3) as (B1 & B2 & B3 & B4 & B5).
  assert (PS * Z.of_nat st + PS * Z.of_nat c <= Z.of_nat n * PS) by nia.
  assert (Ha2 : v <= a' < v + Z.of_nat n * PS) by nia.
  destruct (page_of_spec a' Ha2) as (Hpg' & _ & Hin').
  apply (table_entry_driver t s a' (slice_of P v st c p)); try done; [|cbn; lia..].
  apply H4. split; nia.
Qed.

Lemma driver_table_ok t s a : knows_table t -> table_in_memory s -> v <= a < v + Z.of_nat n * PS ->
  table_ok a t s.
Proof.
  intros Hk Hmem Ha vs p sz He Hin. destruct (entry_slice t s a Hk Hmem Ha) as (st & c & p' & Hr & Hc & Hall).
  rewrite (Hall a Hc) in He. injection He as <- <- <-. split; [|done].
  destruct (slice_words st c p' Hr) as (B1 & B2 & B3 & B4 & B5).
  assert (2 ^ dp_arch P <= 2 ^ 64) by (destruct (lo_arch P K pgs v L) as [-> | ->]; lia).
  unfold slice_ok. lia.
Qed.

Lemma driver_translation t s a p : knows_table t -> table_in_memory s -> v <= a < v + Z.of_nat n * PS ->
  phys K pgs !! page_of a = Some p -> translation t s a = Some (p + (a - v) mod PS).
Proof.
  intros Hk Hmem Ha Hp. destruct (entry_slice t s a Hk Hmem Ha) as (st & c & p' & (Hc & Hn & Hr) & Hin & Hall).
  unfold translation. rewrite (Hall a Hin). rewrite (proj2 (Z.leb_le _ _)), (proj2 (Z.ltb_lt _ _)) by lia. cbn [andb].
  destruct (page_of_spec a Ha) as (Hpg & Hq & Hpin). pose proof (PS_pos P K pgs v L).
  assert (st <= page_of a < st + c)%nat as Hst by nia.
  specialize (Hr (page_of a - st)%nat ltac:(lia)). replace (st + (page_of a - st))%nat with (page_of a) in Hr by lia.
  rewrite Hp in Hr. injection Hr as ->. f_equal. rewrite Z.mod_eq, <- Hq by lia.
  rewrite Nat2Z.inj_sub by lia. ring.
Qed.

End Table.

(** C5. From the driver to memory.  The driver builds a table of the pinned pages
    and announces it in three registers; once the device has taken them and
    the table stands in memory, an access of the PIM to any address of the
    process, whether it hits or misses the TLB, reaches memory in the physical
    page of that address, at the same offset.  There is one exception: where the
    driver merges pages, as it does by default, and the last two are
    contiguous, it builds no table but reads behind its array of pages. *)
Theorem driver_tlb_translates {H S : Type} {WH : PimWorld H} {DH : MemDevice (PIMMemory * H)}
    {DS : MemDevice S} {LS : MemDeviceLaws S} (random_mt : Z -> Z -> Z -> Z)
    (P : Params) (K : Kernel) (pgs : list Z) (v pa : Z) (cap : nat) (d : Driver) :
  pinned P K pgs v d pa cap -> pa <> 0 ->
  let regs := [WriteWord (PIM_SLICETABLE P) pa; WriteWord (PimDriver.PIM_SLICECOUNT P) (Z.of_nat (length pgs));
               WriteWord (PimDriver.PIM_SLICEVSTART P) v] in
  if PIM_MERGE_SLICES P && last_contiguous P K pgs then pim_create_slice_table P K v d = Err Undefined
  else exists d' tbl rest,
    pim_create_slice_table P K v d = Ok (d', Ret 0) /\ slicetable d' = Some tbl /\
    mmio d' = mmio d ++ regs ++ rest /\
    forall (y y' : PimSystem H) (s : S) (now : Z) (pkt : Packet) (p : Z),
      same_map P y -> replay random_mt P regs y y' -> table_in_memory P pgs pa tbl s ->
      OS_PAGE_SHIFT (dtlb y) = PAGE_SHIFT P -> pim_arch (dtlb y) = dp_arch P ->
      tlb_wf (dtlb y') -> coherent (dtlb y') s -> dev_ok s -> pending_refills (dtlb y') = [] ->
      pkt_wf pkt -> plain_access (dtlb y') pkt -> find_rule (orig (dtlb y')) (addr pkt) <> Some 0%nat ->
      v <= addr pkt < v + Z.of_nat (length pgs) * PAGE_SIZE P ->
      phys K pgs !! page_of P v (addr pkt) = Some p ->
      exists t' s1, Tlb.recvAtomic now pkt (dtlb y') s =
        ('(s2, q, tick) ← sendAtomic now (pkt <| addr := p + (addr pkt - v) mod PAGE_SIZE P |>) s1;
         q ← setAddr (addr pkt) q; Ok (t', s2, q, tick)) /\
        forall a k, contents s1 a k = contents s a k.
Proof.
  intros Hd Hpa regs. pose proof (pi_layout _ _ _ _ _ _ _ Hd) as L.
  pose proof (create_slice_table_cases P K pgs v L d pa cap Hd) as Hc.
  destruct (PIM_MERGE_SLICES P && last_contiguous P K pgs); [exact Hc|].
  destruct Hc as (d' & tbl & E & Et & Hgood & Elog).
  eexists d', tbl, _. split; [done|]. split; [done|]. split; [exact Elog|].
  intros y y' s now pkt p Hmap Hrep Hmem Hsh Har Hwf Hco Hdev Hpend Hpw Hpl Hst Ha Hp.
  pose proof (replay_table random_mt P y y' pa (Z.of_nat (length pgs)) v Hmap Hrep) as Ht.
  assert (Hk : knows_table P v pa (dtlb y')) by (rewrite Ht; by split).
  pose proof (pi_paddr _ _ _ _ _ _ _ Hd) as Hb.
  pose proof (driver_table_ok P K pgs v pa tbl L Hb Hgood _ s _ Hk Hmem Ha) as Hok.
  pose proof (driver_translation P K pgs v pa tbl L Hb Hgood _ s _ p Hk Hmem Ha Hp) as Htr.
  assert (Hcr : can_refill (addr pkt) (dtlb y') s).
  { split; try done. rewrite (kt_arch _ _ _ _ Hk). apply (lo_arch _ _ _ _ L). }
  destruct (lookup_refill now (addr pkt) (dtlb y') s (p + (addr pkt - v) mod PAGE_SIZE P) Hcr) as (t' & s1 & Er & _ & _ & _ & _ & Hs1);
    [by rewrite (kt_ptr _ _ _ _ Hk)|done|exact Htr|].
  exists t', s1. split; [|done]. by apply recvAtomic_lookup.
Qed.

(** ** A witness: three pages of 16 bytes, two of them one slice *)
#[local] Existing Instance ex_pim_world.
#[local] Existing Instance ex_pim_device.
#[local] Instance ex_main_dev : MemDevice SimpleMemory := SimpleMemory_device ex_random.
#[local] Instance ex_main_laws : MemDeviceLaws SimpleMemory := SimpleMemory_laws ex_random.

Definition ex_sys : PimSystem unit :=
  mkPimSystem ex_pim (TLB_new (mkMapper [AR.AddrRange2 0 15] [AR.AddrRange2 1024 1039]) 4 2 false 8 4 5 6 7 0 32)
    (ex_dma TimingMode) tt.
Definition ex_slices : list Slice := [mkSlice 4096 112 32; mkSlice 4096 112 32; mkSlice 4128 160 16].
Definition ex_memory : SimpleMemory :=
  ex_sm <| sm_mem := (ex_mem []) <| range := AR.AddrRange2 64 191 |>
    <| pmemAddr := Some (concat (slice_bytes (ex_drv_params true) <$> ex_slices) ++ replicate 92 0) |> |>.

Definition ex_word (a x : Z) : Packet := ex_packet WriteReq a (le_bytes 4 x).

Lemma ex_same_map : same_map (ex_drv_params true) ex_sys.
Proof. split; try reflexivity. apply (bool_decide_unpack _). vm_compute. exact I. Qed.

(** The device after a store. *)
Definition ex_after (pkt : Packet) (y : PimSystem unit) : option (PimSystem unit) :=
  match recvAtomic ex_random 0 pkt y with Ok (y1, _, _) => Some y1 | Err _ => None end.

Lemma ex_replay_step off x pkt ws y y1 y2 : isWrite pkt = true -> getAddr pkt = Ok (4096 + off) ->
  word_value 32 pkt = Ok x -> ex_after pkt y = Some y1 -> replay ex_random (ex_drv_params true) ws y1 y2 ->
  replay ex_random (ex_drv_params true) (WriteWord off x :: ws) y y2.
Proof.
  intros H1 H2 H3 E Hr. unfold ex_after in E.
  destruct (recvAtomic ex_random 0 pkt y) as [[[ya pkt1] l]|] eqn:Ea; [|done]. injection E as ->.
  by eapply replay_word.
Qed.

Lemma ex_replay : exists y',
  replay ex_random (ex_drv_params true) [WriteWord 132 64; WriteWord 136 3; WriteWord 140 4096] ex_sys y' /\
  dtlb y' = (dtlb ex_sys) <| PIM_SLICETABLE_PTR := 64 |> <| Tlb.PIM_SLICECOUNT := 3 |>
                          <| Tlb.PIM_SLICEVSTART := 4096 |>.
Proof.
  assert (is_Some (y1 ← ex_after (ex_word 4228 64) ex_sys; y2 ← ex_after (ex_word 4232 3) y1;
                   ex_after (ex_word 4236 4096) y2)) as [y' E] by (vm_compute; eauto).
  apply bind_Some in E as (y1 & E1 & E). apply bind_Some in E as (y2 & E2 & E3).
  assert (replay ex_random (ex_drv_params true) [WriteWord 132 64; WriteWord 136 3; WriteWord 140 4096] ex_sys y') as Hr.
  { eapply (ex_replay_step 132 64 (ex_word 4228 64)); [reflexivity..|exact E1|].
    eapply (ex_replay_step 136 3 (ex_word 4232 3)); [reflexivity..|exact E2|].
    eapply (ex_replay_step 140 4096 (ex_word 4236 4096)); [reflexivity..|exact E3|]. apply replay_nil. }
  exists y'. split; [done|]. by apply (replay_table _ _ _ _ _ _ _ ex_same_map Hr).
Qed.

Lemma ex_memory_holds tbl : tbl = [Some (mkSlice 4096 112 32); Some (mkSlice 4096 112 32);
    Some (mkSlice 4128 160 16); None; None] ->
  table_in_memory (ex_drv_params true) [1; 2; 3] 64 tbl ex_memory.
Proof.
  intros -> k sl Hk Hsl. destruct k as [|[|[|k]]]; [| | |cbn in Hk; lia]; injection Hsl as <-; vm_compute; reflexivity.
Qed.

Lemma driver_tlb_translates_witness : exists y' t' s1,
  replay ex_random (ex_drv_params true) [WriteWord 132 64; WriteWord 136 3; WriteWord 140 4096] ex_sys y' /\
  Tlb.recvAtomic 9 ((ex_pkt ReadReq) <| addr := 4137 |>) (dtlb y') ex_memory =
    ('(s2, q, tick) ← sendAtomic 9 ((ex_pkt ReadReq) <| addr := 169 |>) s1;
     q ← setAddr 4137 q; Ok (t', s2, q, tick)).
Proof.
  destruct ex_replay as (y' & Hr & Ht).
  pose proof (driver_tlb_translates ex_random (ex_drv_params true) ex_drv_kernel [1; 2; 3] 4096 64 5
    (ex_drv_pinned [1; 2; 3]) (ex_pinned true [1; 2; 3] (or_introl eq_refl)) ltac:(lia)) as T.
  change (PIM_MERGE_SLICES _ && _) with false in T. destruct T
    as (d' & tbl & rest & E1 & E2 & _ & Hall).
  assert (tbl = [Some (mkSlice 4096 112 32); Some (mkSlice 4096 112 32); Some (mkSlice 4128 160 16); None; None]) as Etbl.
  { vm_compute in E1. injection E1 as <-. cbn in E2. by injection E2 as <-. }
  destruct (Hall ex_sys y' ex_memory 9 ((ex_pkt ReadReq) <| addr := 4137 |>) 160) as (t' & s1 & E & _).
  - exact ex_same_map.
  - exact Hr.
  - by apply ex_memory_holds.
  - reflexivity.
  - reflexivity.
  - rewrite Ht. split; try done. repeat constructor; unfold rule_ok; cbn; lia.
  - rewrite Ht. intros [|[|i]] r r' a Hi L; cbn in L; [lia|done..].
  - done.
  - by rewrite Ht.
  - apply pkt_wf_setAddr; [unfold inw; lia|apply (ex_pkt_bytes ReadReq)].
  - rewrite Ht. by split.
  - by rewrite Ht.
  - vm_compute. split; congruence.
  - reflexivity.
  - exists y', t', s1. split; [exact Hr|exact E].
Defined.
