(* ===== verification/PimTask.v ===== *)
(** * Tasks of the host API

    Models [SW/HOST/api/pim_task.cc] and [pim_task.hh]: a task is a list of data
    sets in the order of their addresses, and the ranges of virtual pages they
    occupy.  The width of [unsigned long] and the page shift are parameters,
    and so is [DEBUG_API]: the checks of debug builds end the program.
    Printing is left out. *)

From S2P Require Import Prelude.

Record PIMData := mkData { v_addr : Z; d_size : Z; d_reg : Z }.
Record PIMPage := mkPage { v_pn_start : Z; v_pn_end : Z; pg_count : Z }.

Record PIMTask := mkTask {
  t_data : list PIMData;
  vpages : list PIMPage;
  _updated : bool;
  stat_datasize : Z
}.

Definition PIMTask_new : PIMTask := mkTask [] [] false 0.

Section Task.

Context (w PAGE_SHIFT PIM_HOST_OFFSET : Z) (DEBUG_API : bool).

Definition ul (z : Z) : Z := wrap w z.

Definition ASSERT_DBG (b : bool) : res unit := if DEBUG_API && negb b then Err (Exit 1) else Ok tt.

(** The loop that looks for the place of a data set: [true] when it was put in
    front of a later one. *)
Fixpoint insert_data (d : PIMData) (l : list PIMData) : list PIMData * bool :=
  match l with
  | [] => ([], false)
  | x :: l' =>
      if v_addr d <? v_addr x then (d :: l, true)
      else let '(l'', b) := insert_data d l' in (x :: l'', b)
  end.

(** A data set in front of another one leaves [_updated] alone. *)
Definition addData (addr size reg : Z) (t : PIMTask) : res PIMTask :=
  _ ← ASSERT_DBG (PIM_HOST_OFFSET <=? addr);
  let d := mkData addr size reg in
  let t := t <| stat_datasize := ul (stat_datasize t + size) |> in
  let '(l, found) := insert_data d (t_data t) in
  Ok (if found then t <| t_data := l |> else t <| _updated := false |> <| t_data := l ++ [d] |>).

(** The loop over the data sets: the current range of pages, the ranges that
    are complete, and the last address seen. *)
Fixpoint merge_pages (l : list PIMData) (page : option PIMPage) (out : list PIMPage) (prev_end_addr : Z)
  : res (option PIMPage * list PIMPage) :=
  match l with
  | [] => Ok (page, out)
  | d :: l' =>
      let start_address := v_addr d in
      let end_address := ul (v_addr d + d_size d - 1) in
      let start_page := Z.shiftr start_address PAGE_SHIFT in
      let end_page := Z.shiftr end_address PAGE_SHIFT in
      let '(page, out) :=
        match page with
        | Some p =>
            if ul (start_page - 1) <=? v_pn_end p
            then (Some (mkPage (v_pn_start p) end_page (ul (end_page - v_pn_start p + 1))), out)
            else (None, out ++ [p])
        | None => (None, out)
        end in
      let page := match page with
                  | Some p => p
                  | None => mkPage start_page end_page (ul (end_page - start_page + 1))
                  end in
      if DEBUG_API && (negb (prev_end_addr =? 0) && (start_address <? prev_end_addr)) then Err (Exit 1)
      else merge_pages l' (Some page) out end_address
  end.

Definition updatePages (t : PIMTask) : res PIMTask :=
  '(page, out) ← merge_pages (t_data t) None (vpages t) 0;
  Ok (t <| vpages := out ++ match page with Some p => [p] | None => [] end |> <| _updated := true |>).

(** ** Data sets in order *)
Definition d_end (d : PIMData) : Z := v_addr d + d_size d - 1.

Record data_ok (d : PIMData) : Prop := {
  do_addr : 2 ^ PAGE_SHIFT <= v_addr d;
  do_size : 0 < d_size d;
  do_end : v_addr d + d_size d <= 2 ^ w
}.

(** The data sets of a task do not overlap. *)
Definition data_sorted (l : list PIMData) : Prop :=
  Forall data_ok l /\ StronglySorted (fun d e => d_end d < v_addr e) l.

Lemma elem_of_insert_data d l x :
  let '(l', b) := insert_data d l in x ∈ (if b then l' else l' ++ [d]) <-> x = d \/ x ∈ l.
Proof.
  induction l as [|y l IH]; cbn [insert_data]; [set_solver|].
  case_if; [set_solver|]. destruct (insert_data d l) as [l' []]; set_solver.
Qed.

Lemma insert_data_sorted d l : data_sorted l -> data_ok d ->
  Forall (fun x => d_end x < v_addr d \/ d_end d < v_addr x) l ->
  let '(l', b) := insert_data d l in data_sorted (if b then l' else l' ++ [d]).
Proof.
  intros [Hok Hs] Hd. induction l as [|y l IH]; intros Ha; cbn [insert_data app].
  { change (data_sorted [d]). split; [by apply Forall_singleton|by repeat constructor]. }
  inversion Hok as [|? ? Oy Ol]; subst. inversion Hs as [|? ? Sl Fl]; subst. inversion Ha as [|? ? Ay Al]; subst.
  pose proof (do_size _ Oy). pose proof (do_size _ Hd). unfold d_end in *.
  case_if; bool_prop.
  - split; [constructor; [done|by constructor]|]. constructor; [by constructor|]. constructor; [unfold d_end; lia|].
    eapply Forall_impl; [exact Fl|]. unfold d_end. cbn. lia.
  - specialize (IH Ol Sl Al). pose proof (elem_of_insert_data d l) as Hel.
    destruct (insert_data d l) as [l' b].
    assert (data_sorted (y :: (if b then l' else l' ++ [d]))); [|by destruct b].
    destruct IH as [I1 I2]. split; [by constructor|]. constructor; [done|].
    apply Forall_forall. intros x [->|Hx]%Hel; [unfold d_end; lia|]. rewrite Forall_forall in Fl. by apply Fl.
Qed.

(** ** The pages of a task *)
Definition page_number (a : Z) : Z := Z.shiftr a PAGE_SHIFT.

(** Page [q] holds a byte of [d]. *)
Definition on_page (q : Z) (d : PIMData) : Prop := page_number (v_addr d) <= q <= page_number (d_end d).
Definition in_pages (q : Z) (p : PIMPage) : Prop := v_pn_start p <= q <= v_pn_end p.

(** Ranges of pages, in order, with a gap between any two. *)
Definition page_ok (p : PIMPage) : Prop :=
  v_pn_start p <= v_pn_end p /\ pg_count p = v_pn_end p - v_pn_start p + 1.
Definition pages_ok (l : list PIMPage) : Prop :=
  Forall page_ok l /\ StronglySorted (fun p q => v_pn_end p + 1 < v_pn_start q) l.

Hypothesis Hw : 0 < w.
Hypothesis Hshift : 0 <= PAGE_SHIFT.

Lemma page_number_mono a b : a <= b -> page_number a <= page_number b.
Proof. intros H. unfold page_number. rewrite !Z.shiftr_div_pow2 by done. apply Z.div_le_mono; [|done]. by apply Z.pow_pos_nonneg. Qed.

Lemma page_number_range a : 2 ^ PAGE_SHIFT <= a < 2 ^ w -> 1 <= page_number a < 2 ^ w.
Proof.
  intros Ha. unfold page_number. rewrite Z.shiftr_div_pow2 by done.
  assert (0 < 2 ^ PAGE_SHIFT) by (by apply Z.pow_pos_nonneg).
  split; [apply Z.div_le_lower_bound; lia|].
  apply Z.div_lt_upper_bound; [done|]. nia.
Qed.

Lemma data_pages d : data_ok d -> ul (v_addr d + d_size d - 1) = d_end d /\
  1 <= page_number (v_addr d) <= page_number (d_end d) /\ page_number (d_end d) < 2 ^ w.
Proof.
  intros [H1 H2 H3]. assert (0 < 2 ^ PAGE_SHIFT) by (by apply Z.pow_pos_nonneg). unfold d_end.
  split; [apply wrap_id; unfold inw; lia|].
  pose proof (page_number_range (v_addr d) ltac:(lia)). pose proof (page_number_range (v_addr d + d_size d - 1) ltac:(lia)).
  pose proof (page_number_mono (v_addr d) (v_addr d + d_size d - 1) ltac:(lia)). lia.
Qed.

Lemma pages_ok_snoc out p : pages_ok (out ++ [p]) <->
  pages_ok out /\ page_ok p /\ Forall (fun q => v_pn_end q + 1 < v_pn_start p) out.
Proof.
  unfold pages_ok. rewrite Forall_app, Forall_singleton, StronglySorted_app.
  setoid_rewrite list_elem_of_singleton. split.
  - intros ((H1 & H2) & H3 & H4 & _). split_and!; try done. apply Forall_forall. intros q Hq. by apply H3.
  - intros ((H1 & H2) & H3 & H4). split_and!; try done; [|by repeat constructor].
    intros q q' Hq ->. rewrite Forall_forall in H4. by apply H4.
Qed.

(** The last range grows. *)
Lemma pages_ok_grow out p p' : pages_ok (out ++ [p]) -> v_pn_start p' = v_pn_start p -> page_ok p' ->
  pages_ok (out ++ [p']).
Proof. rewrite !pages_ok_snoc. intros (H1 & H2 & H3) -> H4. done. Qed.

(** A new range starts behind the last. *)
Lemma pages_ok_new out p p' : pages_ok (out ++ [p]) -> v_pn_end p + 1 < v_pn_start p' -> page_ok p' ->
  pages_ok ((out ++ [p]) ++ [p']).
Proof.
  intros H Hlt Hp'. apply pages_ok_snoc. split; [done|]. split; [done|].
  apply pages_ok_snoc in H as (_ & [H2 _] & H3). apply Forall_app. split; [|by apply Forall_singleton].
  eapply Forall_impl; [exact H3|]. cbn. lia.
Qed.

Lemma exists_snoc {A} (Q : A -> Prop) l x : Exists Q (l ++ [x]) <-> Exists Q l \/ Q x.
Proof. rewrite Exists_app, Exists_cons, Exists_nil. tauto. Qed.

(** The ranges after the loop cover exactly the pages of the data. *)
Lemma merge_pages_ok l page out prev : data_sorted l ->
  pages_ok (out ++ match page with Some p => [p] | None => [] end) ->
  match page with
  | Some p => 1 <= v_pn_start p /\ v_pn_end p < 2 ^ w /\ v_pn_end p = page_number prev /\
      Forall (fun d => prev < v_addr d) l
  | None => out = [] /\ prev = 0
  end ->
  exists page' out', merge_pages l page out prev = Ok (page', out') /\
    pages_ok (out' ++ match page' with Some p => [p] | None => [] end) /\
    forall q, Exists (in_pages q) (out' ++ match page' with Some p => [p] | None => [] end) <->
      Exists (in_pages q) (out ++ match page with Some p => [p] | None => [] end) \/ Exists (on_page q) l.
Proof.
  intros [Hok Hs]. revert page out prev. induction l as [|d l IH]; intros page out prev Hp Hpage; cbn [merge_pages].
  { exists page, out. split; [done|]. split; [done|]. intros q. rewrite (Exists_nil (on_page q)). tauto. }
  inversion Hok as [|? ? Od Ol]; subst. inversion Hs as [|? ? Sl Fl]; subst.
  destruct (data_pages d Od) as (E & Hpg & Hlt). cbn zeta. rewrite E.
  fold (page_number (v_addr d)) (page_number (d_end d)).
  assert (Hnew : page_ok (mkPage (page_number (v_addr d)) (page_number (d_end d))
      (ul (page_number (d_end d) - page_number (v_addr d) + 1)))).
  { split; cbn; [lia|]. apply wrap_id. unfold inw. lia. }
  destruct page as [p|].
  - destruct Hpage as (P1 & P2 & P3 & P4). inversion P4 as [|? ? Pd Pl]; subst.
    assert (DEBUG_API && (negb (prev =? 0) && (v_addr d <? prev)) = false) as ->
      by (rewrite (proj2 (Z.ltb_ge (v_addr d) prev)), !andb_false_r by lia; done).
    replace (ul (page_number (v_addr d) - 1)) with (page_number (v_addr d) - 1)
      by (symmetry; apply wrap_id; unfold inw; lia).
    assert (v_pn_end p <= page_number (v_addr d)) by (rewrite P3; apply page_number_mono; lia).
    destruct (Z.leb_spec (page_number (v_addr d) - 1) (v_pn_end p)) as [Hle|Hgt].
    + set (p' := mkPage _ _ _).
      assert (Hp' : page_ok p').
      { apply pages_ok_snoc in Hp as (_ & [Hq _] & _). split; cbn; [lia|]. apply wrap_id. unfold inw. lia. }
      destruct (IH Ol Sl (Some p') out (d_end d)) as (pg & o & -> & K1 & K2).
      * by eapply pages_ok_grow.
      * split_and!; done.
      * exists pg, o. split; [done|]. split; [done|]. intros q. rewrite K2, !exists_snoc, Exists_cons.
        apply pages_ok_snoc in Hp as (_ & [Hq _] & _). unfold in_pages, on_page. subst p'. cbn. intuition lia.
    + destruct (IH Ol Sl (Some (mkPage (page_number (v_addr d)) (page_number (d_end d))
        (ul (page_number (d_end d) - page_number (v_addr d) + 1)))) (out ++ [p]) (d_end d)) as (pg & o & -> & K1 & K2).
      * apply pages_ok_new; [done|cbn; lia|done].
      * cbn. split_and!; done || lia.
      * exists pg, o. split; [done|]. split; [done|]. intros q. rewrite K2, !exists_snoc, Exists_cons.
        unfold on_page at 2. unfold in_pages at 3. cbn. tauto.
  - destruct Hpage as [-> ->]. rewrite Z.eqb_refl. cbn [negb andb]. rewrite andb_false_r.
    destruct (IH Ol Sl (Some (mkPage (page_number (v_addr d)) (page_number (d_end d))
        (ul (page_number (d_end d) - page_number (v_addr d) + 1)))) [] (d_end d)) as (pg & o & -> & K1 & K2).
    + apply (pages_ok_snoc []). split; [by repeat constructor|]. split; [done|constructor].
    + cbn. split_and!; done || lia.
    + exists pg, o. split; [done|]. split; [done|]. intros q. rewrite K2. cbn [app].
      rewrite !Exists_cons, !Exists_nil. unfold on_page at 2. unfold in_pages at 1. cbn. tauto.
Qed.

(** The ranges of pages of a task, in order and with a gap between any two,
    cover exactly the pages that hold a byte of its data. *)
Theorem updatePages_covers (t : PIMTask) : data_sorted (t_data t) -> vpages t = [] ->
  exists t', updatePages t = Ok t' /\ t_data t' = t_data t /\ pages_ok (vpages t') /\
    forall q, Exists (in_pages q) (vpages t') <-> Exists (on_page q) (t_data t).
Proof.
  intros Hs Hv. unfold updatePages. rewrite Hv.
  destruct (merge_pages_ok (t_data t) None [] 0 Hs) as (pg & out & -> & K1 & K2); [by repeat constructor|done|].
  cbn [mbind res_bind]. eexists. split; [reflexivity|]. split; [done|]. split; [exact K1|].
  intros q. cbn. rewrite K2. cbn. rewrite Exists_nil. tauto.
Qed.

(** Adding a data set that overlaps no other keeps the task in order. *)
Theorem addData_sorted (addr size reg : Z) (t : PIMTask) : data_sorted (t_data t) ->
  data_ok (mkData addr size reg) -> PIM_HOST_OFFSET <= addr ->
  Forall (fun x => d_end x < addr \/ addr + size - 1 < v_addr x) (t_data t) ->
  exists t', addData addr size reg t = Ok t' /\ data_sorted (t_data t') /\
    (forall x, x ∈ t_data t' <-> x = mkData addr size reg \/ x ∈ t_data t) /\ vpages t' = vpages t.
Proof.
  intros Hs Hd Ho Ha. unfold addData, ASSERT_DBG. rewrite (proj2 (Z.leb_le _ _)) by done.
  rewrite andb_false_r. cbn [mbind res_bind].
  pose proof (insert_data_sorted _ _ Hs Hd Ha) as H1. pose proof (elem_of_insert_data (mkData addr size reg) (t_data t)) as H2.
  cbn [t_data field_upd]. destruct (insert_data _ _) as [l b]. eexists. split; [reflexivity|].
  destruct b; cbn; split_and!; try done; intros x; apply H2.
Qed.

(** Several data sets are added one after the other. *)
Fixpoint add_all (ds : list PIMData) (t : PIMTask) : res PIMTask :=
  match ds with
  | [] => Ok t
  | d :: ds => t ← addData (v_addr d) (d_size d) (d_reg d) t; add_all ds t
  end.

Definition data_apart (d e : PIMData) : Prop := d_end d < v_addr e \/ d_end e < v_addr d.

Lemma add_all_sorted ds t : Forall (fun d => data_ok d /\ PIM_HOST_OFFSET <= v_addr d) ds ->
  StronglySorted data_apart ds -> data_sorted (t_data t) ->
  (forall x d, x ∈ t_data t -> d ∈ ds -> data_apart x d) ->
  exists t', add_all ds t = Ok t' /\ data_sorted (t_data t') /\ vpages t' = vpages t /\
    forall x, x ∈ t_data t' <-> x ∈ ds \/ x ∈ t_data t.
Proof.
  intros Hok. revert t. induction Hok as [|d ds [Hd Ho] _ IH]; intros t Hs Ht Ha; cbn [add_all].
  { exists t. split_and!; try done. set_solver. }
  inversion Hs as [|? ? Sl Fl]; subst.
  destruct (addData_sorted (v_addr d) (d_size d) (d_reg d) t Ht) as (t1 & -> & S1 & E1 & V1);
    [by destruct d|done| |].
  { apply Forall_forall. intros x Hx. apply (Ha x d Hx). constructor. }
  cbn [mbind res_bind]. replace (mkData (v_addr d) (d_size d) (d_reg d)) with d in E1 by (by destruct d).
  destruct (IH t1 Sl S1) as (t2 & -> & S2 & V2 & E2).
  - intros x e [->|Hx]%E1 He; [rewrite Forall_forall in Fl; by apply Fl|apply Ha; [done|by constructor]].
  - exists t2. split_and!; [done|done|by rewrite V2|]. intros x. rewrite E2, E1, elem_of_cons. tauto.
Qed.

(** A task made of data sets that do not overlap, added in any order, occupies
    exactly the pages of its data, as ranges in order with a gap between any
    two; a debug build reports no error. *)
Theorem task_pages (ds : list PIMData) : Forall (fun d => data_ok d /\ PIM_HOST_OFFSET <= v_addr d) ds ->
  StronglySorted data_apart ds ->
  exists t t', add_all ds PIMTask_new = Ok t /\ updatePages t = Ok t' /\ pages_ok (vpages t') /\
    forall q, Exists (in_pages q) (vpages t') <-> Exists (on_page q) ds.
Proof.
  intros Hok Hs. destruct (add_all_sorted ds PIMTask_new Hok Hs) as (t & E & St & V & Hel).
  - split; constructor.
  - intros x d Hx. by apply not_elem_of_nil in Hx.
  - destruct (updatePages_covers t St V) as (t' & E' & _ & Hp & Hq). exists t, t'. split_and!; try done.
    intros q. rewrite Hq, !Exists_exists. setoid_rewrite Hel. cbn. setoid_rewrite elem_of_nil. naive_solver.
Qed.

End Task.

Definition ex_data : list PIMData := [mkData 0x5010 0x20 0; mkData 0x2000 0x1800 1; mkData 0x3900 0x100 2].

Lemma task_pages_witness : exists t t', add_all 32 0x1000 true ex_data PIMTask_new = Ok t /\
  updatePages 32 12 true t = Ok t' /\ vpages t' = [mkPage 2 3 2; mkPage 5 5 1] /\ pages_ok (vpages t').
Proof.
  destruct (task_pages 32 12 0x1000 true ltac:(lia) ltac:(lia) ex_data) as (t & t' & H1 & H2 & H3 & _).
  - repeat constructor; vm_compute; congruence.
  - repeat constructor; unfold data_apart, d_end; cbn; lia.
  - exists t, t'. split; [exact H1|]. split; [exact H2|]. split; [|exact H3].
    vm_compute in H1. injection H1 as <-. vm_compute in H2. by injection H2 as <-.
Defined.
