(* ===== verification/PimApi.v ===== *)
(** * The host API of the PIM device

    Models [SW/HOST/api/pim_api.cc] with [pim_api.hh], and [UTILS/dump_hex.py],
    which writes the files that [offload_kernel] reads.  The mapped device, the
    driver behind [ioctl] and the clock are the class [ApiWorld].  [DEBUG_API]
    is a parameter: [ASSERT_DBG] ends a debug build and is absent otherwise.
    The time stamp of debug builds is not initialised by the constructor.
    Opening and mapping the device, and printing, are left out. *)

From S2P Require Import Prelude.
From S2P Require Import PimTask.
From Stdlib Require Import Ascii String.
#[local] Open Scope list_scope.

(** ** The world of the API *)
Class ApiWorld (W : Type) := {
  dev_write_byte : Z -> Z -> W -> W;
  dev_read_byte : Z -> W -> W * Z;
  dev_write_word : Z -> Z -> W -> W;
  dev_read_word : Z -> W -> W * Z;
  os_ioctl : Z -> list (option Z) -> W -> res (W * Z);
  os_nanosleep : W -> W
}.

Record ApiParams := mkApiParams {
  ap_w : Z;
  ap_PHY_SIZE : Z;
  PIM_VREG : Z;
  ap_VREG_SIZE : Z;
  PIM_SREG : Z;
  PIM_STATUS_REG : Z;
  PIM_COMMAND_REG : Z;
  ap_M5_REG : Z;
  PIM_INTR_REG : Z;
  ap_HOST_OFFSET : Z;
  IOCTL_ALLOCATE : Z;
  DEBUG_API : bool
}.

Record PIMAPI := mkAPI {
  tasks : list PIMTask;
  stat_offload_size : Z;
  ioctl_arg : list (option Z);
  current_time_stamp : option Z;
  api_PAGE_SHIFT : Z
}.

Definition PIM_COMMAND_NOP : Z := 78.
Definition PIM_STATUS_DONE : Z := 68.
Definition PIM_INTR_TRIGGER : Z := 1.
Definition M5_TIME_STAMP : Z := 48.
Definition MAX_ARGS : nat := 8.

(** The loop of the constructor that takes the logarithm of the page size. *)
Fixpoint page_shift (fuel : nat) (p shift : Z) : res Z :=
  match fuel with
  | O => Err Diverged
  | S fuel => if 1 <? p then page_shift fuel (Z.shiftr p 1) (shift + 1) else Ok shift
  end.

Definition PIMAPI_new (page_size : Z) : res PIMAPI :=
  s ← page_shift 33 (u32 page_size) 0;
  Ok (mkAPI [] 0 (replicate MAX_ARGS None) None s).

Section Api.

Context {W : Type} {AW : ApiWorld W} (P : ApiParams).

Definition ASSERT (b : res bool) : res unit :=
  if DEBUG_API P then b ← b; if b : bool then Ok tt else Err (Exit 1) else Ok tt.

(** [ASSERT_DBG(current_time_stamp == n)] *)
Definition at_stamp (n : Z) (a : PIMAPI) : res unit :=
  ASSERT (t ← deref (current_time_stamp a); Ok (t =? n)).

Definition uL (z : Z) : Z := wrap (ap_w P) z.

(** ** Registers *)
Definition write_byte (offset data : Z) (w : W) : res W :=
  _ ← ASSERT (Ok (offset <? ap_PHY_SIZE P)); Ok (dev_write_byte offset data w).
Definition read_byte (offset : Z) (w : W) : res (W * Z) :=
  _ ← ASSERT (Ok (offset <? ap_PHY_SIZE P)); Ok (dev_read_byte offset w).
Definition check_status (w : W) : res (W * Z) := read_byte (PIM_STATUS_REG P) w.
Definition give_command (command : Z) (w : W) : res W := write_byte (PIM_COMMAND_REG P) command w.
Definition give_m5_command (command : Z) (w : W) : res W := write_byte (ap_M5_REG P) command w.
Definition wake_up (w : W) : res W := write_byte (PIM_INTR_REG P) PIM_INTR_TRIGGER w.

(** [memcpy] to and from the mapped registers *)
Fixpoint copy_out (off : Z) (value : list Z) (w : W) : W :=
  match value with
  | [] => w
  | b :: value => copy_out (off + 1) value (dev_write_byte off b w)
  end.
Fixpoint copy_in (n : nat) (off : Z) (w : W) : W * list Z :=
  match n with
  | O => (w, [])
  | S n => let '(w, b) := dev_read_byte off w in let '(w, l) := copy_in n (off + 1) w in (w, b :: l)
  end.

Definition write_vreg (value : list Z) (w : W) : res W :=
  _ ← ASSERT (Ok (PIM_VREG P + ap_VREG_SIZE P <? ap_PHY_SIZE P));
  if (Z.to_nat (ap_VREG_SIZE P) <=? Datatypes.length value)%nat
  then Ok (copy_out (PIM_VREG P) (take (Z.to_nat (ap_VREG_SIZE P)) value) w) else undefined.
Definition read_vreg (w : W) : res (W * list Z) :=
  _ ← ASSERT (Ok (PIM_VREG P + ap_VREG_SIZE P <? ap_PHY_SIZE P));
  Ok (copy_in (Z.to_nat (ap_VREG_SIZE P)) (PIM_VREG P) w).

Definition write_sreg (index value : Z) (a : PIMAPI) (w : W) : res W :=
  _ ← at_stamp 3 a; Ok (dev_write_word (PIM_SREG P + index * (ap_w P / 8)) value w).
Definition read_sreg (index : Z) (w : W) : W * Z := dev_read_word (PIM_SREG P + index * (ap_w P / 8)) w.

(** ** Running a kernel *)
Definition start_computation (command : Z) (a : PIMAPI) (w : W) : res W :=
  _ ← at_stamp 5 a; w ← give_command command w; wake_up w.

(** The polling loop, [fuel] turns of it. *)
Fixpoint poll (fuel : nat) (w : W) : res W :=
  match fuel with
  | O => Err Diverged
  | S fuel =>
      '(w, status) ← check_status (os_nanosleep w);
      if negb (status =? PIM_STATUS_DONE) then poll fuel w else Ok w
  end.

Definition wait_for_completion (fuel : nat) (a : PIMAPI) (w : W) : res W :=
  _ ← at_stamp 5 a; w ← poll fuel w; give_command PIM_COMMAND_NOP w.

Definition record_time_stamp (id : Z) (a : PIMAPI) (w : W) : res (PIMAPI * W) :=
  let a := if DEBUG_API P then a <| current_time_stamp := Some id |> else a in
  w ← give_m5_command (u8 (M5_TIME_STAMP + id)) w; Ok (a, w).

(** ** Offloading a task *)

(** The loop that stores the ranges of pages. *)
Fixpoint store_args (i : nat) (ps : list PIMPage) (shift : Z) (args : list (option Z)) : res (list (option Z)) :=
  match ps with
  | [] => Ok args
  | p :: ps =>
      if (2 * i + 2 <? Datatypes.length args)%nat then
        store_args (S i) ps shift
          (<[(2 * i + 2)%nat := Some (pg_count p)]> (<[(2 * i + 1)%nat := Some (uL (Z.shiftl (v_pn_start p) shift))]> args))
      else undefined
  end.

Fixpoint send_pointers (ds : list PIMData) (a : PIMAPI) (w : W) : res W :=
  match ds with
  | [] => Ok w
  | d :: ds => w ← write_sreg (d_reg d) (v_addr d) a w; send_pointers ds a w
  end.

(** The result of the driver is only reported. *)
Definition offload_task (task : PIMTask) (a : PIMAPI) (w : W) : res (PIMAPI * W) :=
  _ ← at_stamp 3 a;
  task ← updatePages (ap_w P) (api_PAGE_SHIFT a) (DEBUG_API P) task;
  let a := a <| tasks := tasks a ++ [task] |> in
  let count := Datatypes.length (vpages task) in
  _ ← ASSERT (Ok (bool_decide (count * 2 < MAX_ARGS)%nat));
  _ ← ASSERT (Ok (bool_decide (count = 1%nat)));
  args ← store_args 0 (vpages task) (api_PAGE_SHIFT a) (<[0%nat := Some (Z.of_nat (count * 2))]> (ioctl_arg a));
  let a := a <| ioctl_arg := args |> in
  w ← send_pointers (t_data task) a w;
  '(w, success) ← os_ioctl (IOCTL_ALLOCATE P) args w;
  Ok (a, w).

(** ** Offloading a kernel *)

(** The characters [>>] skips. *)
Definition isspace (c : ascii) : bool :=
  let n := nat_of_ascii c in (n =? 32)%nat || ((9 <=? n)%nat && (n <=? 13)%nat).

(** [iss >> term], repeated: the words of a line. *)
Fixpoint words (acc s : list ascii) : list (list ascii) :=
  match s with
  | [] => match acc with [] => [] | _ => [rev acc] end
  | c :: s =>
      if isspace c then match acc with [] => words [] s | _ => rev acc :: words [] s end
      else words (c :: acc) s
  end.

(** [std::getline], repeated. *)
Fixpoint lines (acc s : list ascii) : list (list ascii) :=
  match s with
  | [] => match acc with [] => [] | _ => [rev acc] end
  | c :: s => if (nat_of_ascii c =? 10)%nat then rev acc :: lines [] s else lines (c :: acc) s
  end.

Definition digit (base : Z) (c : ascii) : option Z :=
  let n := Z.of_nat (nat_of_ascii c) in
  let d := if (48 <=? n) && (n <=? 57) then n - 48
           else if (97 <=? n) && (n <=? 102) then n - 87
           else if (65 <=? n) && (n <=? 70) then n - 55 else base in
  if d <? base then Some d else None.

(** The digits up to the first character that is none. *)
Fixpoint parse_digits (base acc : Z) (s : list ascii) : Z :=
  match s with
  | [] => acc
  | c :: s => match digit base c with Some d => parse_digits base (acc * base + d) s | None => acc end
  end.

Definition split_sign (s : list ascii) : Z * list ascii :=
  match s with
  | c :: s' => if (c =? "-")%char then (-1, s') else if (c =? "+")%char then (1, s') else (1, s)
  | [] => (1, [])
  end.

(** [atoi]; undefined when the value does not fit an [int]. *)
Definition atoi (s : list ascii) : res Z :=
  let '(sign, s) := split_sign s in
  let x := sign * parse_digits 10 0 s in
  if (- 2 ^ 31 <=? x) && (x <? 2 ^ 31) then Ok x else undefined.

(** [strtol(s, NULL, 16)]: an optional [0x] in front, the greatest or the least
    [long] when the value does not fit. *)
Definition strip_0x (s : list ascii) : list ascii :=
  match s with
  | z :: x :: c :: s' =>
      if (z =? "0")%char && ((x =? "x")%char || (x =? "X")%char) && (match digit 16 c with Some _ => true | None => false end)
      then c :: s' else s
  | _ => s
  end.
Definition strtol16 (s : list ascii) : Z :=
  let '(sign, s) := split_sign s in
  let x := sign * parse_digits 16 0 (strip_0x s) in
  Z.max (- 2 ^ (ap_w P - 1)) (Z.min x (2 ^ (ap_w P - 1) - 1)).

Record Loader := mkLoader {
  load_offset : Z;
  load_size : Z;
  num_bytes : Z;
  ld_stat : Z
}.

Definition ADDR : list ascii := list_ascii_of_string "@ADDR".
Definition SIZE : list ascii := list_ascii_of_string "@SIZE".
Definition END_ : list ascii := list_ascii_of_string "@END".
Definition is_word (s t : list ascii) : bool := bool_decide (s = t).

(** One line; when no word follows [@ADDR] or [@SIZE], the word itself is
    converted. *)
Fixpoint load_line (ts : list (list ascii)) (l : Loader) (w : W) : res (Loader * W) :=
  match ts with
  | [] => Ok (l, w)
  | term :: ts' =>
      if is_word term ADDR then
        match ts' with
        | v :: ts'' => x ← atoi v; load_line ts'' (l <| load_offset := uL x |>) w
        | [] => x ← atoi term; Ok (l <| load_offset := uL x |>, w)
        end
      else if is_word term SIZE then
        match ts' with
        | v :: ts'' =>
            if DEBUG_API P then x ← atoi v; load_line ts'' (l <| load_size := uL x |>) w
            else load_line ts'' l w
        | [] => if DEBUG_API P then x ← atoi term; Ok (l <| load_size := uL x |>, w) else Ok (l, w)
        end
      else if is_word term END_ then
        _ ← ASSERT (Ok (num_bytes l =? load_size l));
        load_line ts' (l <| num_bytes := 0 |>) w
      else
        w ← write_byte (load_offset l) (u8 (strtol16 term)) w;
        load_line ts' (l <| ld_stat := uL (ld_stat l + 1) |> <| num_bytes := uL (num_bytes l + 1) |>
                         <| load_offset := uL (load_offset l + 1) |>) w
  end.

Fixpoint load_lines (ls : list (list ascii)) (l : Loader) (w : W) : res (Loader * W) :=
  match ls with
  | [] => Ok (l, w)
  | s :: ls => '(l, w) ← load_line (words [] s) l w; load_lines ls l w
  end.

Definition offload_kernel (file : list ascii) (a : PIMAPI) (w : W) : res (PIMAPI * W) :=
  _ ← at_stamp 1 a;
  '(l, w) ← load_lines (lines [] file) (mkLoader (uL (-1)) (uL (-1)) 0 (stat_offload_size a)) w;
  Ok (a <| stat_offload_size := ld_stat l |>, w).

End Api.

(** ** [dump_hex.py] *)

(** The loop over the bytes of the source file. *)
Fixpoint dump_loop (src : list Z) (index O_ S_ : Z) : list Z :=
  match src with
  | [] => []
  | b :: src =>
      let rest := if O_ + S_ - 1 <=? index then [] else dump_loop src (index + 1) O_ S_ in
      if O_ <=? index then b :: rest else rest
  end.

Definition hex_char (d : Z) : ascii := ascii_of_nat (Z.to_nat (if d <? 10 then 48 + d else 87 + d)).
Definition dec_char (d : Z) : ascii := ascii_of_nat (Z.to_nat (48 + d)).

(** [b.encode("hex") + " "] *)
Definition hex_byte (b : Z) : list ascii := [hex_char (b / 16); hex_char (b mod 16); " "%char].

(** [str] of a number. *)
Fixpoint dec_str (fuel : nat) (x : Z) (acc : list ascii) : list ascii :=
  match fuel with
  | O => acc
  | S fuel => if x <? 10 then dec_char x :: acc else dec_str fuel (x / 10) (dec_char (x mod 10) :: acc)
  end.

Definition newline : ascii := ascii_of_nat 10.

(** What is appended to the destination file; [None] when the number of bytes
    is not the one asked for, and the script exits. *)
Definition dump_hex (src : list Z) (O_ A_ S_ : Z) : option (list ascii) :=
  let CODE := dump_loop src 0 O_ S_ in
  if negb (Z.of_nat (Datatypes.length CODE) =? S_) then None
  else Some (list_ascii_of_string "@ADDR " ++ dec_str 64 A_ [] ++ [newline] ++
             list_ascii_of_string "@SIZE " ++ dec_str 64 S_ [] ++ [newline] ++
             List.concat (hex_byte <$> CODE) ++ list_ascii_of_string "@END" ++ [newline]).

(** ** Characters and words *)
Lemma words_app acc s rest : Forall (fun c => isspace c = false) s ->
  words acc (s ++ rest) = words (rev s ++ acc) rest.
Proof.
  intros H. revert acc. induction H as [|c s Hc _ IH]; intros acc; cbn [words app rev]; [done|].
  rewrite Hc, IH. by rewrite <- app_assoc.
Qed.

Lemma words_word s c rest : Forall (fun c => isspace c = false) s -> s <> [] -> isspace c = true ->
  words [] (s ++ c :: rest) = s :: words [] rest.
Proof.
  intros H Hne Hc. rewrite words_app by done. cbn [words]. rewrite Hc, app_nil_r.
  destruct (rev s) as [|x l] eqn:E; [destruct s; [done|]; cbn in E; by destruct (rev s)|].
  by rewrite <- E, rev_involutive.
Qed.

Lemma words_last s : Forall (fun c => isspace c = false) s -> s <> [] -> words [] s = [s].
Proof.
  intros H Hne. rewrite <- (app_nil_r s) at 1. rewrite words_app by done. cbn [words]. rewrite app_nil_r.
  destruct (rev s) as [|x l] eqn:E; [destruct s; [done|]; cbn in E; by destruct (rev s)|].
  by rewrite <- E, rev_involutive.
Qed.

Definition not_newline (c : ascii) : Prop := (nat_of_ascii c =? 10)%nat = false.

Lemma lines_line s rest : Forall not_newline s -> lines [] (s ++ newline :: rest) = s :: lines [] rest.
Proof.
  intros H. assert (forall acc, lines acc (s ++ newline :: rest) = (rev acc ++ s) :: lines [] rest) as ->; [|done].
  induction H as [|c s Hc _ IH]; intros acc; cbn [lines app].
  - change (nat_of_ascii newline =? 10)%nat with true. cbn iota. by rewrite app_nil_r.
  - rewrite Hc, IH. cbn [rev]. by rewrite <- app_assoc.
Qed.

(** ** Numbers *)
Lemma dec_char_facts d : 0 <= d < 10 ->
  isspace (dec_char d) = false /\ not_newline (dec_char d) /\ digit 10 (dec_char d) = Some d /\
  (dec_char d =? "-")%char = false /\ (dec_char d =? "+")%char = false.
Proof.
  intros Hd. assert (d = 0 \/ d = 1 \/ d = 2 \/ d = 3 \/ d = 4 \/ d = 5 \/ d = 6 \/ d = 7 \/ d = 8 \/ d = 9) as H by lia.
  repeat destruct H as [->|H]; [..|subst d]; vm_compute; auto.
Qed.

Lemma dec_str_parse fuel x acc : 0 <= x < 10 ^ Z.of_nat fuel ->
  parse_digits 10 0 (dec_str fuel x acc) = parse_digits 10 x acc.
Proof.
  revert x acc. induction fuel as [|fuel IH]; intros x acc Hx; cbn [dec_str].
  { replace x with 0 by (cbn in Hx; lia). done. }
  rewrite Nat2Z.inj_succ, Z.pow_succ_r in Hx by lia.
  destruct (Z.ltb_spec x 10).
  - cbn [parse_digits]. by destruct (dec_char_facts x) as (_ & _ & -> & _); [lia|].
  - rewrite IH by (split; [apply Z.div_pos; lia|apply Z.div_lt_upper_bound; lia]). cbn [parse_digits].
    pose proof (Z.mod_pos_bound x 10 ltac:(lia)).
    destruct (dec_char_facts (x mod 10)) as (_ & _ & -> & _); [done|].
    f_equal. pose proof (Z.div_mod x 10 ltac:(lia)). lia.
Qed.

Lemma dec_str_digits (Q : ascii -> Prop) fuel x acc : (forall d, 0 <= d < 10 -> Q (dec_char d)) -> 0 <= x ->
  Forall Q acc -> Forall Q (dec_str fuel x acc).
Proof.
  intros HQ. revert x acc. induction fuel as [|fuel IH]; intros x acc Hx Ha; cbn [dec_str]; [done|].
  destruct (Z.ltb_spec x 10); [constructor; [by apply HQ|done]|].
  apply IH; [apply Z.div_pos; lia|]. constructor; [|done]. apply HQ, Z.mod_pos_bound. lia.
Qed.

Lemma dec_str_head fuel x acc : 0 <= x < 10 ^ Z.of_nat fuel -> (0 < fuel)%nat -> exists d s, 0 <= d < 10 /\
  dec_str fuel x acc = dec_char d :: s.
Proof.
  revert x acc. induction fuel as [|fuel IH]; intros x acc Hx Hf; [lia|]. cbn [dec_str].
  rewrite Nat2Z.inj_succ, Z.pow_succ_r in Hx by lia.
  destruct (Z.ltb_spec x 10); [exists x, acc; split; [lia|done]|].
  destruct fuel as [|fuel]; [cbn in Hx; lia|].
  apply IH; [|lia]. split; [apply Z.div_pos; lia|apply Z.div_lt_upper_bound; lia].
Qed.

(** [atoi] reads what [str] prints. *)
Lemma atoi_dec x : 0 <= x < 2 ^ 31 -> atoi (dec_str 64 x []) = Ok x.
Proof.
  intros Hx. assert (0 <= x < 10 ^ Z.of_nat 64) as Hb by (assert (2 ^ 31 < 10 ^ Z.of_nat 64) by reflexivity; lia).
  destruct (dec_str_head 64 x [] Hb ltac:(lia)) as (d & s & Hd & E).
  pose proof (dec_str_parse 64 x [] Hb) as Hp. unfold atoi, split_sign. rewrite E in *.
  destruct (dec_char_facts d Hd) as (_ & _ & _ & -> & ->).
  rewrite Hp. cbn [parse_digits]. rewrite Z.mul_1_l.
  rewrite (proj2 (Z.leb_le _ _)), (proj2 (Z.ltb_lt _ _)) by lia. done.
Qed.

(** The two characters of a byte. *)
Definition hex2 (b : Z) : list ascii := [hex_char (b / 16); hex_char (b mod 16)].

Lemma hex2_facts b : byte_ok b ->
  Forall (fun c => isspace c = false /\ not_newline c) (hex2 b) /\
  split_sign (hex2 b) = (1, hex2 b) /\ parse_digits 16 0 (hex2 b) = b.
Proof.
  intros Hb.
  assert (forallb (fun k => let b := Z.of_nat k in
    forallb (fun c => negb (isspace c) && negb (nat_of_ascii c =? 10)%nat) (hex2 b) &&
    (match hex2 b with c :: _ => negb (c =? "-")%char && negb (c =? "+")%char | [] => false end) &&
    (parse_digits 16 0 (hex2 b) =? b)) (seq 0 256) = true) as H by (vm_compute; reflexivity).
  rewrite forallb_forall in H. unfold byte_ok in Hb. specialize (H (Z.to_nat b)).
  rewrite Z2Nat.id in H by lia. cbv zeta in H.
  assert (In (Z.to_nat b) (seq 0 256)) as Hin by (apply in_seq; lia). specialize (H Hin).
  apply andb_prop in H as [H H3]. apply andb_prop in H as [H1 H2]. split; [|split].
  - rewrite forallb_forall in H1. apply Forall_forall. intros c Hc. apply list_elem_of_In in Hc. specialize (H1 c Hc).
    unfold not_newline. apply andb_prop in H1 as [? ?]. bool_prop. done.
  - unfold split_sign, hex2 in *. apply andb_prop in H2 as [E1 E2]. bool_prop. by rewrite E1, E2.
  - by apply Z.eqb_eq.
Qed.

(** ** Loops of the API *)

(** The constructor computes the logarithm of the page size; 33 turns are
    enough for any [unsigned]. *)
Lemma page_shift_log2 (fuel : nat) (p s : Z) : 0 < p < 2 ^ Z.of_nat fuel ->
  page_shift fuel p s = Ok (s + Z.log2 p).
Proof.
  revert p s. induction fuel as [|fuel IH]; intros p s Hp; [cbn in Hp; lia|].
  rewrite Nat2Z.inj_succ, Z.pow_succ_r in Hp by lia. cbn [page_shift].
  destruct (Z.ltb_spec 1 p).
  - rewrite IH by (rewrite Z.shiftr_div_pow2 by lia; change (2 ^ 1) with 2;
      split; [apply Z.div_str_pos; lia|apply Z.div_lt_upper_bound; lia]).
    rewrite Z.log2_shiftr by lia. pose proof (Z.log2_pos p ltac:(lia)). f_equal. lia.
  - assert (p = 1) as -> by lia. change (Z.log2 1) with 0. by rewrite Z.add_0_r.
Qed.

Lemma PIMAPI_new_ok (k : Z) : 0 <= k < 32 -> PIMAPI_new (2 ^ k) = Ok (mkAPI [] 0 (replicate MAX_ARGS None) None k).
Proof.
  intros Hk. assert (0 < 2 ^ k) by (apply Z.pow_pos_nonneg; lia).
  assert (2 ^ k < 2 ^ 32) by (apply Z.pow_lt_mono_r; lia).
  unfold PIMAPI_new, u32. rewrite wrap_id by (unfold inw; lia).
  rewrite page_shift_log2 by (change (Z.of_nat 33) with 33; lia).
  rewrite Z.log2_pow2 by lia. done.
Qed.

Section Polling.

Context {W : Type} {AW : ApiWorld W} (P : ApiParams).

(** The device reports that it is done at the [k]-th look. *)
Inductive finishes : nat -> W -> W -> Prop :=
| fin_now w w' : dev_read_byte (PIM_STATUS_REG P) (os_nanosleep w) = (w', PIM_STATUS_DONE) -> finishes 0 w w'
| fin_later k w w' w'' status : dev_read_byte (PIM_STATUS_REG P) (os_nanosleep w) = (w', status) ->
    status <> PIM_STATUS_DONE -> finishes k w' w'' -> finishes (S k) w w''.

Hypothesis regs : PIM_STATUS_REG P < ap_PHY_SIZE P /\ PIM_COMMAND_REG P < ap_PHY_SIZE P.

Lemma assert_register a : a < ap_PHY_SIZE P -> ASSERT P (Ok (a <? ap_PHY_SIZE P)) = Ok tt.
Proof. intros H. unfold ASSERT. rewrite (proj2 (Z.ltb_lt _ _)) by done. by destruct (DEBUG_API P). Qed.

Lemma poll_finishes fuel w w' : poll P fuel w = Ok w' <-> exists k, (k < fuel)%nat /\ finishes k w w'.
Proof.
  revert w. induction fuel as [|fuel IH]; intros w; cbn [poll].
  { split; [done|]. intros (k & Hk & _). lia. }
  unfold check_status, read_byte. rewrite assert_register by apply regs. cbn [mbind res_bind].
  destruct (dev_read_byte _ _) as [w1 st] eqn:E. destruct (Z.eqb_spec st PIM_STATUS_DONE) as [->|Hne]; cbn [negb].
  - split.
    + intros [= <-]. exists 0%nat. split; [lia|by apply fin_now].
    + intros (k & _ & Hf). inversion Hf; congruence.
  - rewrite IH. split.
    + intros (k & Hk & Hf). exists (S k). split; [lia|by eapply fin_later].
    + intros (k & Hk & Hf). inversion Hf as [|k' ? ? ? ? E' _ Hf']; [congruence|].
      subst. exists k'. split; [lia|]. rewrite E in E'. by injection E' as <- _.
Qed.

(** [wait_for_completion] returns exactly when the device finishes at some
    look, and then takes the command back. *)
Lemma wait_for_completion_returns (a : PIMAPI) (w : W) : (DEBUG_API P = true -> current_time_stamp a = Some 5) ->
  (exists fuel w', wait_for_completion P fuel a w = Ok w') <-> exists k w', finishes k w w'.
Proof.
  intros Ht. assert (at_stamp P 5 a = Ok tt) as Hs
    by (unfold at_stamp, ASSERT; destruct (DEBUG_API P); [by rewrite Ht|done]).
  unfold wait_for_completion, give_command, write_byte. rewrite Hs, assert_register by apply regs. cbn [mbind res_bind].
  split.
  - intros (fuel & w' & E). destruct (poll P fuel w) as [w1|] eqn:Ep; [|done].
    apply poll_finishes in Ep as (k & _ & Hf). by exists k, w1.
  - intros (k & w' & Hf). exists (S k). assert (poll P (S k) w = Ok w') as -> by (apply poll_finishes; eauto).
    cbn [mbind res_bind]. eauto.
Qed.

End Polling.

(** ** Loading what was dumped *)
Section RoundTrip.

Context {W : Type} {AW : ApiWorld W} (P : ApiParams).
Hypothesis Hw : 32 <= ap_w P.
Hypothesis Hphy : ap_PHY_SIZE P < 2 ^ ap_w P.

Lemma ASSERT_true : ASSERT P (Ok true) = Ok tt.
Proof. unfold ASSERT. by destruct (DEBUG_API P). Qed.

Lemma uL_small x : 0 <= x < 2 ^ ap_w P -> uL P x = x.
Proof. intros Hx. by apply wrap_id. Qed.

Lemma pow_w : 2 ^ 32 <= 2 ^ ap_w P.
Proof. by apply Z.pow_le_mono_r. Qed.

Lemma strtol_hex2 b : byte_ok b -> u8 (strtol16 P (hex2 b)) = b.
Proof.
  intros Hb. destruct (hex2_facts b Hb) as (_ & E1 & E2). unfold strtol16. rewrite E1.
  change (strip_0x (hex2 b)) with (hex2 b). rewrite E2, Z.mul_1_l. unfold byte_ok in Hb.
  assert (2 ^ 31 <= 2 ^ (ap_w P - 1)) by (apply Z.pow_le_mono_r; lia).
  rewrite Z.min_l, Z.max_r by lia. apply wrap_id. unfold inw. lia.
Qed.

Lemma hex2_not_word b : is_word (hex2 b) ADDR = false /\ is_word (hex2 b) SIZE = false /\ is_word (hex2 b) END_ = false.
Proof. unfold is_word. by rewrite !bool_decide_false. Qed.

(** The bytes of a section, then its end. *)
Lemma load_bytes bs l (w : W) : Forall byte_ok bs -> 0 <= load_offset l ->
  load_offset l + Z.of_nat (Datatypes.length bs) <= ap_PHY_SIZE P ->
  0 <= num_bytes l -> num_bytes l + Z.of_nat (Datatypes.length bs) < 2 ^ ap_w P ->
  0 <= ld_stat l -> ld_stat l + Z.of_nat (Datatypes.length bs) < 2 ^ ap_w P ->
  (DEBUG_API P = true -> num_bytes l + Z.of_nat (Datatypes.length bs) = load_size l) ->
  load_line P ((hex2 <$> bs) ++ [END_]) l w =
  Ok (mkLoader (load_offset l + Z.of_nat (Datatypes.length bs)) (load_size l) 0
        (ld_stat l + Z.of_nat (Datatypes.length bs)), copy_out (load_offset l) bs w).
Proof.
  intros Hbs. revert l w. induction Hbs as [|b bs Hb _ IH]; intros l w Ho Hp Hn1 Hn2 Hs1 Hs2 Hd.
  - cbn [fmap list_fmap app load_line copy_out Datatypes.length]. rewrite !Z.add_0_r.
    change (is_word END_ ADDR) with false. change (is_word END_ SIZE) with false. change (is_word END_ END_) with true.
    cbn iota. destruct l as [o s nb st]. cbn in *. unfold ASSERT.
    destruct (DEBUG_API P); cbn; [|done]. rewrite Z.add_0_r in Hd. by rewrite Hd, Z.eqb_refl.
  - cbn [fmap list_fmap app load_line copy_out Datatypes.length] in *. destruct (hex2_not_word b) as (-> & -> & ->).
    unfold write_byte. rewrite (proj2 (Z.ltb_lt _ _)), ASSERT_true by lia. cbn [mbind res_bind].
    rewrite strtol_hex2 by done. rewrite !uL_small by lia.
    rewrite IH; cbn [load_offset load_size num_bytes ld_stat field_upd]; try lia.
    + do 3 f_equal; lia.
    + intros D. specialize (Hd D). lia.
Qed.

(** A chunk of the script and the section it describes. *)
Definition section_ok (A : Z) (bs : list Z) : Prop :=
  Forall byte_ok bs /\ 0 <= A < 2 ^ 31 /\ Z.of_nat (Datatypes.length bs) < 2 ^ 31 /\
  A + Z.of_nat (Datatypes.length bs) <= ap_PHY_SIZE P.

Definition chunk (A : Z) (bs : list Z) : list ascii :=
  list_ascii_of_string "@ADDR " ++ dec_str 64 A [] ++ [newline] ++
  list_ascii_of_string "@SIZE " ++ dec_str 64 (Z.of_nat (Datatypes.length bs)) [] ++ [newline] ++
  List.concat (hex_byte <$> bs) ++ list_ascii_of_string "@END" ++ [newline].

Lemma dec_str_clean x : 0 <= x < 2 ^ 31 ->
  Forall (fun c => isspace c = false) (dec_str 64 x []) /\ Forall not_newline (dec_str 64 x []) /\ dec_str 64 x [] <> [].
Proof.
  intros Hx. split; [|split].
  - apply dec_str_digits; [|lia|constructor]. intros d Hd. by apply dec_char_facts.
  - apply dec_str_digits; [|lia|constructor]. intros d Hd. by apply dec_char_facts.
  - destruct (dec_str_head 64 x []) as (d & s & _ & ->); [|lia|done].
    assert (2 ^ 31 < 10 ^ Z.of_nat 64) by reflexivity. lia.
Qed.

Lemma words_hex bs : Forall byte_ok bs ->
  words [] (List.concat (hex_byte <$> bs) ++ list_ascii_of_string "@END") = (hex2 <$> bs) ++ [END_].
Proof.
  induction 1 as [|b bs Hb _ IH]; [reflexivity|]. cbn [fmap list_fmap List.concat].
  change (hex_byte b) with (hex2 b ++ [" "%char]). rewrite <- !app_assoc. cbn [app].
  rewrite words_word; [|eapply Forall_impl; [apply hex2_facts; done|by intros ? []]|done|done]. by rewrite IH.
Qed.

Lemma hex_no_newline bs : Forall byte_ok bs ->
  Forall not_newline (List.concat (hex_byte <$> bs) ++ list_ascii_of_string "@END").
Proof.
  intros H. apply Forall_app. split; [|by repeat constructor].
  induction H as [|b bs Hb _ IH]; cbn [fmap list_fmap List.concat]; [constructor|]. apply Forall_app. split; [|done].
  change (hex_byte b) with (hex2 b ++ [" "%char]). apply Forall_app. split; [|by repeat constructor].
  eapply Forall_impl; [apply hex2_facts; done|]. by intros ? [].
Qed.

(** A line of a keyword and a number. *)
Lemma words_number k x : Forall (fun c => isspace c = false) k -> k <> [] -> 0 <= x < 2 ^ 31 ->
  words [] (k ++ " "%char :: dec_str 64 x []) = [k; dec_str 64 x []].
Proof.
  intros Hk Hne Hx. destruct (dec_str_clean x Hx) as (H1 & _ & H3).
  rewrite words_word by done. by rewrite words_last.
Qed.

Lemma load_chunk A bs rest l (w : W) : section_ok A bs -> num_bytes l = 0 -> 0 <= ld_stat l ->
  ld_stat l + Z.of_nat (Datatypes.length bs) < 2 ^ ap_w P ->
  exists l', load_lines P (lines [] (chunk A bs ++ rest)) l w = load_lines P (lines [] rest) l' (copy_out A bs w) /\
    num_bytes l' = 0 /\ ld_stat l' = ld_stat l + Z.of_nat (Datatypes.length bs).
Proof.
  intros (Hbs & HA & HS & Hend) Hn Hs1 Hs2. pose proof pow_w.
  destruct (dec_str_clean A HA) as (_ & NA & _).
  destruct (dec_str_clean (Z.of_nat (Datatypes.length bs)) ltac:(lia)) as (_ & NS & _).
  replace (chunk A bs ++ rest) with
    ((ADDR ++ " "%char :: dec_str 64 A []) ++ newline ::
     (SIZE ++ " "%char :: dec_str 64 (Z.of_nat (Datatypes.length bs)) []) ++ newline ::
     (List.concat (hex_byte <$> bs) ++ list_ascii_of_string "@END") ++ newline :: rest)
    by (unfold chunk; rewrite <- !app_assoc; reflexivity).
  rewrite !lines_line;
    [|by apply hex_no_newline|apply Forall_app; split; [|constructor]; by repeat constructor..].
  cbn [load_lines].
  rewrite words_number by (by repeat constructor || lia). rewrite words_number by (by repeat constructor || lia).
  rewrite words_hex by done.
  cbn [load_line]. change (is_word ADDR ADDR) with true. cbn iota. rewrite (atoi_dec A HA).
  cbn [mbind res_bind]. rewrite uL_small by lia.
  change (is_word SIZE ADDR) with false. change (is_word SIZE SIZE) with true. cbn iota.
  set (S_ := Z.of_nat (Datatypes.length bs)) in *.
  set (l1 := l <| load_offset := A |>). set (l2 := if DEBUG_API P then l1 <| load_size := S_ |> else l1).
  assert ((if DEBUG_API P then x ← atoi (dec_str 64 S_ []); Ok (l1 <| load_size := uL P x |>, w) else Ok (l1, w)) = Ok (l2, w)) as ->.
  { unfold l2. destruct (DEBUG_API P); [|done]. rewrite atoi_dec by lia. cbn [mbind res_bind]. by rewrite uL_small by lia. }
  cbn [mbind res_bind].
  assert (load_offset l2 = A /\ num_bytes l2 = 0 /\ ld_stat l2 = ld_stat l /\ (DEBUG_API P = true -> load_size l2 = S_))
    as (F1 & F2 & F3 & F4) by (unfold l2; destruct (DEBUG_API P); done).
  rewrite load_bytes by (rewrite ?F1, ?F2, ?F3; try done; try lia; intros D; rewrite F4; done).
  cbn [mbind res_bind]. rewrite F1. eexists. split; [reflexivity|]. split; [done|]. cbn. by rewrite F3.
Qed.

(** The file of several sections, and what loading it stores. *)
Definition sections_stored (secs : list (Z * list Z)) (w : W) : W :=
  foldl (fun w s => copy_out (fst s) (snd s) w) w secs.

Fixpoint total (secs : list (Z * list Z)) : Z :=
  match secs with [] => 0 | s :: secs => Z.of_nat (Datatypes.length (snd s)) + total secs end.

Lemma total_nonneg secs : 0 <= total secs.
Proof. induction secs as [|s secs IH]; cbn; lia. Qed.

Lemma load_sections secs l (w : W) : Forall (fun s => section_ok (fst s) (snd s)) secs ->
  num_bytes l = 0 -> 0 <= ld_stat l -> ld_stat l + total secs < 2 ^ ap_w P ->
  exists l', load_lines P (lines [] (List.concat ((fun s => chunk (fst s) (snd s)) <$> secs))) l w =
      Ok (l', sections_stored secs w) /\ ld_stat l' = ld_stat l + total secs.
Proof.
  intros H. revert l w. induction H as [|[A bs] secs Hs _ IH]; intros l w Hn Hs1 Hs2.
  - exists l. cbn. split; [done|lia].
  - cbn [fmap list_fmap List.concat fst snd total] in *.
    pose proof (total_nonneg secs).
    destruct (load_chunk A bs (List.concat ((fun s => chunk (fst s) (snd s)) <$> secs)) l w Hs Hn Hs1)
      as (l1 & -> & N1 & D1); [lia|].
    destruct (IH l1 (copy_out A bs w) N1) as (l2 & -> & D2); [lia|lia|].
    exists l2. split; [done|lia].
Qed.

(** The loop of the script cuts out a part of the file. *)
Lemma dump_take src index O_ S_ : O_ <= index < O_ + S_ ->
  dump_loop src index O_ S_ = take (Z.to_nat (O_ + S_ - index)) src.
Proof.
  revert index. induction src as [|b src IH]; intros index Hi; cbn [dump_loop]; [by rewrite take_nil|].
  rewrite (proj2 (Z.leb_le O_ index)) by lia. destruct (Z.leb_spec (O_ + S_ - 1) index).
  - replace (Z.to_nat (O_ + S_ - index)) with 1%nat by lia. by destruct src.
  - rewrite IH by lia. replace (Z.to_nat (O_ + S_ - index)) with (S (Z.to_nat (O_ + S_ - (index + 1)))) by lia. done.
Qed.

Lemma dump_drop src index O_ S_ : 0 < S_ -> index <= O_ ->
  dump_loop src index O_ S_ = take (Z.to_nat S_) (drop (Z.to_nat (O_ - index)) src).
Proof.
  intros HS. revert index. induction src as [|b src IH]; intros index Hi.
  { cbn. by rewrite drop_nil, take_nil. }
  destruct (decide (index = O_)) as [->|Hne].
  - rewrite dump_take, Z.sub_diag by lia. cbn [Z.to_nat drop]. f_equal. lia.
  - cbn [dump_loop]. rewrite (proj2 (Z.leb_gt (O_ + S_ - 1) index)), (proj2 (Z.leb_gt O_ index)), IH by lia.
    replace (Z.to_nat (O_ - index)) with (S (Z.to_nat (O_ - (index + 1)))) by lia. done.
Qed.

(** A part of a binary file, and where it goes. *)
Record Dump := mkDump { du_src : list Z; du_off : Z; du_addr : Z; du_size : Z }.
Definition du_bytes (d : Dump) : list Z := take (Z.to_nat (du_size d)) (drop (Z.to_nat (du_off d)) (du_src d)).
Definition dump_ok (d : Dump) : Prop :=
  Forall byte_ok (du_src d) /\ 0 <= du_off d /\ 0 < du_size d < 2 ^ 31 /\
  du_off d + du_size d <= Z.of_nat (Datatypes.length (du_src d)) /\
  0 <= du_addr d < 2 ^ 31 /\ du_addr d + du_size d <= ap_PHY_SIZE P.

Lemma du_length d : dump_ok d -> Z.of_nat (Datatypes.length (du_bytes d)) = du_size d.
Proof. intros (_ & H1 & H2 & H3 & _). unfold du_bytes. rewrite length_take, length_drop. lia. Qed.

Lemma dump_hex_chunk d : dump_ok d ->
  dump_hex (du_src d) (du_off d) (du_addr d) (du_size d) = Some (chunk (du_addr d) (du_bytes d)).
Proof.
  intros Hd. pose proof (du_length d Hd) as Hl. destruct Hd as (_ & H1 & H2 & H3 & _).
  unfold dump_hex. rewrite dump_drop, Z.sub_0_r by lia. fold (du_bytes d). rewrite Hl, Z.eqb_refl. cbn [negb].
  unfold chunk. by rewrite Hl.
Qed.

Lemma dump_section d : dump_ok d -> section_ok (du_addr d) (du_bytes d).
Proof.
  intros Hd. pose proof (du_length d Hd) as Hl. destruct Hd as (H0 & H1 & H2 & H3 & H4 & H5).
  split; [by apply Forall_take, Forall_drop|]. split; [done|]. split; lia.
Qed.

(** C34. Running the script on several parts of a binary and loading the file it
    writes stores, in order, the bytes of each part at its address, and
    nothing else; a debug build finds the sizes right. *)
Theorem kernel_roundtrip (ds : list Dump) (a : PIMAPI) (w : W) :
  Forall dump_ok ds -> (DEBUG_API P = true -> current_time_stamp a = Some 1) ->
  0 <= stat_offload_size a ->
  stat_offload_size a + total ((fun d => (du_addr d, du_bytes d)) <$> ds) < 2 ^ ap_w P ->
  exists files, mapM (fun d => dump_hex (du_src d) (du_off d) (du_addr d) (du_size d)) ds = Some files /\
    exists a', offload_kernel P (List.concat files) a w =
      Ok (a', sections_stored ((fun d => (du_addr d, du_bytes d)) <$> ds) w) /\
    stat_offload_size a' = stat_offload_size a + total ((fun d => (du_addr d, du_bytes d)) <$> ds).
Proof.
  intros Hds Ht Hs1 Hs2. exists ((fun d => chunk (du_addr d) (du_bytes d)) <$> ds). split.
  { apply mapM_Some. apply Forall2_fmap_r, Forall_Forall2_diag.
    eapply Forall_impl; [exact Hds|]. apply dump_hex_chunk. }
  unfold offload_kernel, at_stamp, ASSERT.
  assert ((if DEBUG_API P then b ← (t ← deref (current_time_stamp a); Ok (t =? 1)); (if b : bool then Ok tt else Err (Exit 1))
           else Ok tt) = Ok tt) as -> by (destruct (DEBUG_API P); [by rewrite Ht|done]).
  cbn [mbind res_bind].
  destruct (load_sections ((fun d => (du_addr d, du_bytes d)) <$> ds) (mkLoader (uL P (-1)) (uL P (-1)) 0 (stat_offload_size a)) w)
    as (l & E & El); [|done..|].
  - apply Forall_fmap. eapply Forall_impl; [exact Hds|]. apply dump_section.
  - rewrite <- list_fmap_compose in E. unfold compose in E. cbn [fst snd] in E. rewrite E. cbn [mbind res_bind].
    eexists. split; [reflexivity|]. cbn. exact El.
Qed.

End RoundTrip.

(** A world that keeps the bytes the device got. *)
#[local] Instance trace_world : ApiWorld (list (Z * Z)) := {
  dev_write_byte a b w := w ++ [(a, b)];
  dev_read_byte a w := (w, 0);
  dev_write_word a x w := w ++ [(a, x)];
  dev_read_word a w := (w, 0);
  os_ioctl c args w := Ok (w, 0);
  os_nanosleep w := w
}.

Definition ex_api_params : ApiParams := mkApiParams 32 4096 0 256 256 300 301 302 303 0 7 true.
Definition ex_api : PIMAPI := mkAPI [] 0 (replicate MAX_ARGS None) (Some 1) 12.
Definition ex_dumps : list Dump :=
  [mkDump [127; 69; 76; 70; 255; 16; 0] 4 512 3; mkDump [127; 69; 76; 70; 255; 16; 0] 1 1040 2].

(** Two sections of a file of seven bytes. *)
Lemma kernel_roundtrip_witness :
  Forall (dump_ok ex_api_params) ex_dumps /\
  sections_stored ((fun d => (du_addr d, du_bytes d)) <$> ex_dumps) [] =
    [(512, 255); (513, 16); (514, 0); (1040, 69); (1041, 76)] /\
  exists files, mapM (fun d => dump_hex (du_src d) (du_off d) (du_addr d) (du_size d)) ex_dumps = Some files /\
    exists a', offload_kernel ex_api_params (List.concat files) ex_api [] =
      Ok (a', sections_stored ((fun d => (du_addr d, du_bytes d)) <$> ex_dumps) []) /\
    stat_offload_size a' = 0 + total ((fun d => (du_addr d, du_bytes d)) <$> ex_dumps).
Proof.
  assert (Forall (dump_ok ex_api_params) ex_dumps) as H.
  { repeat constructor; unfold byte_ok; cbn; lia. }
  split; [exact H|]. split; [reflexivity|].
  apply (kernel_roundtrip ex_api_params ltac:(cbn; lia) ltac:(cbn; lia) ex_dumps ex_api []); [exact H|done|done|].
  vm_compute. reflexivity.
Defined.
