(* ===== verification/Offload.v ===== *)
(** * Offloading a task, from the API to the slice table

    Nothing of the code is modelled here.  The interface [ApiWorld] the API
    (PimApi.v) is written against gets an instance whose [ioctl] is the driver
    of PimDriver.v: the arguments of the call are the user memory the driver
    copies from.  The theorem follows a task (PimTask.v) from its data sets to
    the table the driver builds for it, or to the read behind its array in which
    the merging of contiguous pages ends ([create_slice_table_bounds]). *)

From S2P Require Import Prelude.
From S2P Require Import PimDriver.
From S2P Require Import PimTask.
From S2P Require Import PimApi.

(** The driver, and what the API has stored in the mapped registers. *)
Record HostWorld := mkHost { hw_driver : Driver; hw_stores : list (Z * Z) }.

Section Host.

Context (P : Params) (K : Kernel) (junk : nat -> Z).

(** User memory that starts with the words [args]; words that were never set,
    and those behind the array, hold [junk]. *)
Definition user_words (args : list (option Z)) (k : nat) : list Z :=
  (fun i => default (junk i) (mjoin (args !! i))) <$> seq 0 k.
Definition user_memory (args : list (option Z)) : Kernel :=
  K <| copy_from_user := fun _ bytes => Some (user_words args (Z.to_nat (bytes / sizeof_ulong P))) |>.

Definition host_ioctl (cmd : Z) (args : list (option Z)) (w : HostWorld) : res (HostWorld * Z) :=
  '(d, r) ← pim_ioctl P (user_memory args) cmd 0 (hw_driver w);
  Ok (w <| hw_driver := d |>, match r with Ret v => v | Fail _ => -1 end).

#[local] Instance host_world : ApiWorld HostWorld := {
  dev_write_byte a b w := w <| hw_stores := hw_stores w ++ [(a, b)] |>;
  dev_read_byte a w := (w, mmio_read K a);
  dev_write_word a x w := w <| hw_stores := hw_stores w ++ [(a, x)] |>;
  dev_read_word a w := (w, mmio_read K a);
  os_ioctl := host_ioctl;
  os_nanosleep w := w
}.

(** ** The driver's side of the call *)
Section Ioctl.

Context (pgs : list Z) (v pa : Z) (cap : nat).
Abbreviation n := (length pgs).

(** The kernel pins the pages of the range and has memory for the table. *)
Record kernel_serves : Prop := {
  ks_layout : layout_ok P K pgs v;
  ks_pages : get_user_pages K v (Z.of_nat n) = (Z.of_nat n, pgs);
  ks_kmalloc : forall sz, kmalloc K sz = true;
  ks_free : get_free_pages K (PAGE_ORDER (Z.of_nat n * sizeof_Slice P)) = Some (pa, cap);
  ks_cap : (n <= cap)%nat;
  ks_paddr : 0 <= pa /\ pa + Z.of_nat n * sizeof_Slice P < 2 ^ dp_arch P
}.

(** The command is the one that allocates. *)
Record allocates (cmd : Z) : Prop := {
  al_type : IOC_TYPE K cmd = PIM_IOCTL_MAGIC;
  al_nr : 0xB0 <= IOC_NR K cmd <= 0xB3;
  al_read : IOC_READ_dir K cmd = true -> access_ok K true 0 (IOC_SIZE K cmd) = true;
  al_write : IOC_WRITE_dir K cmd = true -> access_ok K false 0 (IOC_SIZE K cmd) = true;
  al_cmd : cmd = PIM_IOCTL_ALLOCATE_DATA K;
  al_hello : cmd <> PIM_IOCTL_HELLO K
}.

Lemma ioctl_dispatch cmd args d : allocates cmd ->
  pim_ioctl P (user_memory args) cmd 0 d = ioctl_allocate P (user_memory args) 0 d.
Proof.
  intros [H1 H2 H3 H4 H5 H6]. unfold pim_ioctl. cbn [user_memory field_upd IOC_TYPE IOC_NR IOC_READ_dir IOC_WRITE_dir access_ok IOC_SIZE PIM_IOCTL_HELLO PIM_IOCTL_ALLOCATE_DATA].
  rewrite H1, Z.eqb_refl. cbn [negb]. rewrite (proj2 (Z.ltb_ge _ _)), (proj2 (Z.ltb_ge _ _)) by lia. cbn [orb].
  destruct (IOC_READ_dir K cmd); [rewrite H3 by done|destruct (IOC_WRITE_dir K cmd); [rewrite H4 by done|]]; cbn [negb];
    rewrite (proj2 (Z.eqb_neq _ _) H6), (proj2 (Z.eqb_eq _ _) H5); done.
Qed.

Lemma user_words_two x y z args : take 3 args = [Some x; Some y; Some z] ->
  user_words args 1 = [x] /\ user_words args 3 = [x; y; z].
Proof. destruct args as [|? [|? [|? args]]]; try done. intros [= -> -> ->]. done. Qed.

(** Pinning the range. *)
Lemma pin_range args d : kernel_serves ->
  exists d', pim_get_user_pages P (user_memory args) v (Z.of_nat n) d = Ok (d', Ret 0) /\
    pinned P (user_memory args) pgs v d' pa cap /\ mmio d' = mmio d.
Proof.
  intros [L H1 H2 H3 H4 H5]. pose proof (lo_pages _ _ _ _ L) as (Hn & Hn32 & _).
  pose proof (sizeof_facts P K pgs v L) as (S1 & S2 & S3 & S4).
  unfold pim_get_user_pages. set (d0 := if DEBUG_DRIVER P then _ else d).
  assert (mmio d0 = mmio d) as Hm by (unfold d0; by destruct (DEBUG_DRIVER P)). clearbody d0.
  assert (kmalloc_array P (user_memory args) (Z.of_nat n) (sizeof_ulong P) = KArr (replicate n None)) as ->.
  { unfold kmalloc_array. cbn [user_memory field_upd kmalloc]. rewrite H2, (ulong_small P) by nia.
    rewrite Z.div_mul, Nat2Z.id by lia. done. }
  cbn [field_upd pages_list user_memory get_user_pages]. rewrite H1. cbn [store_pages].
  rewrite length_replicate, Nat.leb_refl, drop_ge, app_nil_r by (rewrite length_replicate; lia).
  cbn [mbind res_bind]. rewrite Z.eqb_refl. cbn [negb]. eexists. split; [reflexivity|]. split; [|done].
  split; try done; [by destruct L|]. cbn. apply u32_small. lia.
Qed.

Lemma allocate_table cmd x0 args d : kernel_serves -> allocates cmd ->
  take 3 args = [Some x0; Some v; Some (Z.of_nat n)] -> x0 = 2 ->
  exists d0, pinned P K pgs v d0 pa cap /\ mmio d0 = mmio d /\
    pim_ioctl P (user_memory args) cmd 0 d = ('(d', _) ← pim_create_slice_table P K v d0; Ok (d', Ret 1)).
Proof.
  intros Hk Hc Ha ->. rewrite ioctl_dispatch by done. pose proof (ks_layout Hk) as L.
  assert (dp_arch P = 32 \/ dp_arch P = 64) as arch by apply L.
  destruct (user_words_two _ _ _ _ Ha) as [W1 W3].
  set (d1 := d <| pim_ioctl_allocate := pim_ioctl_allocate d + 1 |>).
  destruct (pin_range args d1 Hk) as (d0 & Ep & Hp & Hmm).
  exists d0. assert (pinned P K pgs v d0 pa cap) as Hp' by (destruct Hp; split; done).
  split; [done|]. split; [done|].
  unfold ioctl_allocate, copy_args. fold d1.
  assert (forall k, copy_from_user (user_memory args) 0 (Z.of_nat k * sizeof_ulong P) = Some (user_words args k)) as Hcopy.
  { intros k. cbn [user_memory field_upd copy_from_user]. rewrite Z.div_mul, Nat2Z.id; [done|].
    destruct (sizeof_ulong_cases P arch) as [[-> _]|[-> _]]; lia. }
  pose proof (Hcopy 1%nat) as C1. rewrite W1, Z.mul_1_l in C1. rewrite C1.
  pose proof (Hcopy 3%nat) as C3. rewrite W3 in C3. change (Z.of_nat 3) with 3 in C3.
  change (Z.to_nat PIM_IOCTL_MAX_ARGS) with 8%nat. cbn -[pin_ranges ulong kread user_memory pim_create_slice_table].
  rewrite (kread_at _ 0 (Some 2)) by done. cbn -[pin_ranges ulong kread user_memory pim_create_slice_table].
  change (2 + 1) with 3. replace (ulong P 3) with 3 by (unfold ulong, wrap; destruct arch as [-> | ->]; reflexivity).
  cbn [Z.ltb Z.compare Pos.compare Pos.compare_cont PIM_IOCTL_MAX_ARGS].
  replace (ulong P (3 * sizeof_ulong P)) with (3 * sizeof_ulong P)
    by (unfold ulong, wrap; destruct (sizeof_ulong_cases P arch) as [[-> ->]|[-> ->]]; reflexivity).
  rewrite C3. cbn -[pin_ranges kread user_memory pim_create_slice_table].
  change (u32 (2 / 2)) with 1.
  cbn -[kread pim_get_user_pages pim_create_slice_table user_memory].
  change (2 * 0 + 1) with 1. change (2 * 0 + 2) with 2.
  rewrite (kread_at _ 1 (Some v)), (kread_at _ 2 (Some (Z.of_nat n))) by done.
  cbn -[kread pim_get_user_pages pim_create_slice_table user_memory].
  match goal with |- context [pim_get_user_pages _ _ _ _ ?x] => change x with d1 end.
  cbn [deref mbind res_bind]. rewrite Ep.
  change (0 + 1 <? 1) with false. cbn -[kread pim_create_slice_table user_memory].
  change (pim_create_slice_table P (user_memory args) v d0) with (pim_create_slice_table P K v d0).
  destruct (pim_create_slice_table P K v d0) as [[d' r]|e]; reflexivity.
Qed.

End Ioctl.

(** ** The API's side *)
Section Task.

Context (AP : ApiParams) (a : PIMAPI).

(** The API and the driver are built for the same machine, and a debug build
    is at the stage in which tasks are offloaded. *)
Record api_ready : Prop := {
  ar_arch : ap_w AP = dp_arch P;
  ar_shift : api_PAGE_SHIFT a = PAGE_SHIFT P;
  ar_stamp : DEBUG_API AP = true -> current_time_stamp a = Some 3;
  ar_args : length (ioctl_arg a) = MAX_ARGS
}.
Hypothesis R : api_ready.

Lemma stamp_ok a' : current_time_stamp a' = current_time_stamp a -> at_stamp AP 3 a' = Ok tt.
Proof.
  intros E. unfold at_stamp, PimApi.ASSERT. destruct (DEBUG_API AP) eqn:D; [|done].
  by rewrite E, (ar_stamp R D).
Qed.

(** The stores to the scalar registers. *)
Definition pointer_stores (ds : list PIMData) : list (Z * Z) :=
  (fun d => (PIM_SREG AP + d_reg d * (ap_w AP / 8), v_addr d)) <$> ds.

Lemma send_pointers_stores ds a' w : current_time_stamp a' = current_time_stamp a ->
  send_pointers AP ds a' w = Ok (w <| hw_stores := hw_stores w ++ pointer_stores ds |>).
Proof.
  intros E. revert w. induction ds as [|d ds IH]; intros w; cbn [send_pointers pointer_stores fmap list_fmap].
  { destruct w; cbn. by rewrite app_nil_r. }
  unfold write_sreg. rewrite stamp_ok by done. cbn [mbind res_bind]. rewrite IH. destruct w; cbn. by rewrite <- app_assoc.
Qed.

(** The start of a range of pages as an address, and every byte of the data
    in it. *)
Lemma page_range l p : 0 <= PAGE_SHIFT P -> Forall (data_ok (ap_w AP) (PAGE_SHIFT P)) l -> pages_ok [p] ->
  (forall q, Exists (in_pages q) [p] <-> Exists (on_page (PAGE_SHIFT P) q) l) -> 0 < ap_w AP ->
  0 <= v_pn_start p /\ v_pn_start p * PAGE_SIZE P < 2 ^ ap_w AP /\
  forall d x, d ∈ l -> v_addr d <= x <= d_end d ->
    v_pn_start p * PAGE_SIZE P <= x < v_pn_start p * PAGE_SIZE P + pg_count p * PAGE_SIZE P.
Proof.
  intros Hs Hok Hp Hq Hw. rewrite Forall_forall in Hok. destruct Hp as [Hp _]. apply Forall_singleton in Hp as [Hp1 Hp2].
  assert (0 < PAGE_SIZE P) as Hps by (unfold PAGE_SIZE; by apply Z.pow_pos_nonneg).
  assert (forall x, page_number (PAGE_SHIFT P) x = x / PAGE_SIZE P) as Hpn
    by (intros x; unfold page_number; by rewrite Z.shiftr_div_pow2).
  setoid_rewrite Exists_cons in Hq. setoid_rewrite Exists_nil in Hq.
  assert (Hst : Exists (on_page (PAGE_SHIFT P) (v_pn_start p)) l) by (apply Hq; left; unfold in_pages; lia).
  apply Exists_exists in Hst as (e & He & H1 & H2).
  destruct (data_pages (ap_w AP) (PAGE_SHIFT P) Hw Hs e (Hok e He)) as (_ & B1 & B2).
  assert (v_pn_start p * PAGE_SIZE P < 2 ^ ap_w AP).
  { rewrite Hpn in H2. pose proof (Z.mul_div_le (d_end e) _ Hps). destruct (Hok e He) as [_ _ E3]. unfold d_end in *. nia. }
  split; [lia|]. split; [done|].
  intros d x Hd Hx. destruct (Hok d Hd) as [D1 D2 D3].
  assert (in_pages (page_number (PAGE_SHIFT P) (v_addr d)) p /\ in_pages (page_number (PAGE_SHIFT P) (d_end d)) p) as [I1 I2].
  { pose proof (page_number_mono (PAGE_SHIFT P) Hs (v_addr d) (d_end d) ltac:(unfold d_end; lia)).
    split; (match goal with |- in_pages ?q _ => destruct (proj2 (Hq q)) as [?|[]]; [|done] end);
      apply Exists_exists; exists d; (split; [done|unfold on_page; lia]). }
  unfold in_pages in *. rewrite Hpn in I1, I2.
  pose proof (Z.mul_div_le (v_addr d) _ Hps). pose proof (Z.mul_succ_div_gt (d_end d) _ Hps). nia.
Qed.

(** The arguments of the call. *)
Lemma store_one p : exists args,
  store_args AP 0 [p] (api_PAGE_SHIFT a) (<[0%nat := Some (Z.of_nat 2)]> (ioctl_arg a)) = Ok args /\
  take 3 args = [Some 2; Some (uL AP (Z.shiftl (v_pn_start p) (api_PAGE_SHIFT a))); Some (pg_count p)].
Proof.
  pose proof (ar_args R) as Hl. cbn [store_args]. rewrite length_insert, Hl. cbn [Nat.ltb Nat.leb MAX_ARGS Nat.mul Nat.add].
  eexists. split; [reflexivity|]. destruct (ioctl_arg a) as [|? [|? [|? l]]]; try done.
Qed.

(** C6. From a task to its slice table.  When the data sets of a task fall into one
    range of pages, the driver pins exactly the pages of that range, in which every
    byte of the data lies, and builds their slice table; offloading the task ends,
    with the addresses of the data sets stored in the scalar registers.  There is one
    exception: where the driver merges pages, as it does by default, and the
    last two are contiguous, the call of the driver reads behind its array
    of pages, and offloading the task has no defined end. *)
Theorem offload_task_table (t t' : PIMTask) (p : PIMPage) (w : HostWorld) (pgs : list Z) (pa : Z) (cap : nat) :
  let v := v_pn_start p * PAGE_SIZE P in
  let n := length pgs in
  data_sorted (ap_w AP) (PAGE_SHIFT P) (t_data t) -> vpages t = [] ->
  updatePages (ap_w AP) (PAGE_SHIFT P) (DEBUG_API AP) t = Ok t' -> vpages t' = [p] -> pg_count p = Z.of_nat n ->
  allocates (IOCTL_ALLOCATE AP) -> kernel_serves pgs v pa cap ->
  exists d0, pinned P K pgs v d0 pa cap /\ mmio d0 = mmio (hw_driver w) /\
    (forall d x, d ∈ t_data t -> v_addr d <= x <= d_end d -> v <= x < v + Z.of_nat n * PAGE_SIZE P) /\
    if PIM_MERGE_SLICES P && last_contiguous P K pgs then offload_task AP t a w = Err Undefined
    else exists a' w', offload_task AP t a w = Ok (a', w') /\
      tasks a' = tasks a ++ [t'] /\
      hw_stores w' = hw_stores w ++ pointer_stores (t_data t) /\
      pim_create_slice_table P K v d0 = Ok (hw_driver w', Ret 0) /\
      exists tbl, slicetable (hw_driver w') = Some tbl /\ forall k, (k < n)%nat -> entry_good P K pgs v tbl n k.
Proof.
  intros v n Hs Hv Hu Hvp Hcnt Hal Hk. pose proof (ks_layout _ _ _ _ Hk) as L.
  pose proof (lo_arch _ _ _ _ L) as arch. pose proof (lo_shift _ _ _ _ L) as Hsh.
  assert (0 < ap_w AP) as Hw by (rewrite (ar_arch R); lia).
  destruct (updatePages_covers (ap_w AP) (PAGE_SHIFT P) (DEBUG_API AP) Hw ltac:(lia) t Hs Hv) as (t2 & E2 & Ed & Hpk & Hq).
  rewrite Hu in E2. injection E2 as <-. rewrite Hvp in Hpk, Hq.
  destruct (page_range (t_data t) p ltac:(lia) (proj1 Hs) Hpk Hq Hw) as (B1 & B2 & Hin).
  unfold offload_task. rewrite stamp_ok by done. cbn [mbind res_bind]. rewrite (ar_shift R), Hu. cbn [mbind res_bind].
  rewrite Hvp. cbn [length Nat.mul Nat.add].
  assert (forall b : bool, b = true -> PimApi.ASSERT AP (Ok b) = Ok tt) as HA
    by (intros b ->; unfold PimApi.ASSERT; by destruct (DEBUG_API AP)).
  rewrite !HA by done. cbn [mbind res_bind].
  destruct (store_one p) as (args & Es & Ha). rewrite (ar_shift R) in Es, Ha. cbn [field_upd ioctl_arg api_PAGE_SHIFT]. rewrite (ar_shift R), Es. cbn [mbind res_bind].
  rewrite send_pointers_stores, Ed by done. cbn [mbind res_bind].
  assert (uL AP (Z.shiftl (v_pn_start p) (PAGE_SHIFT P)) = v) as Ev.
  { rewrite Z.shiftl_mul_pow2 by lia. apply wrap_id. fold (PAGE_SIZE P). unfold inw.
    assert (0 < PAGE_SIZE P) by apply (PS_pos P K pgs v L). nia. }
  rewrite Ev, Hcnt in Ha.
  destruct (allocate_table pgs v pa cap (IOCTL_ALLOCATE AP) 2 args (hw_driver w) Hk Hal Ha eq_refl) as (d0 & Hp & Hmm & Ei).
  exists d0. split; [done|]. split; [done|]. split; [intros d x Hd Hx; rewrite <- Hcnt; by apply (Hin d x)|].
  pose proof (create_slice_table_cases P K pgs v L d0 pa cap Hp) as Ht.
  change (os_ioctl ?c ?x ?y) with (host_ioctl c x y). unfold host_ioctl. cbn [field_upd hw_driver]. rewrite Ei.
  destruct (PIM_MERGE_SLICES P && last_contiguous P K pgs); [by rewrite Ht|].
  destruct Ht as (d' & tbl & Et & Htbl & Hgood & _). rewrite Et. cbn [mbind res_bind].
  eexists _, _. split; [reflexivity|]. cbn. split_and!; try done. by exists tbl.
Qed.

End Task.

End Host.

(** ** A task of two data sets on three pages of sixteen bytes *)
Definition ex_off_api : ApiParams := mkApiParams 32 256 16 16 32 1 2 3 4 4096 0x70B1 true.
Definition ex_off : PIMAPI := mkAPI [] 0 (replicate MAX_ARGS None) (Some 3) 4.
Definition ex_task : PIMTask := mkTask [mkData 4100 20 0; mkData 4130 4 1] [] false 24.

Lemma offload_task_table_witness : exists a' w' d0,
  let P := ex_drv_params true in
  @offload_task _ (host_world P ex_drv_kernel (fun _ => 0)) ex_off_api ex_task ex_off (mkHost ex_drv_new []) = Ok (a', w') /\
  hw_stores w' = [(32, 4100); (36, 4130)] /\
  pim_create_slice_table P ex_drv_kernel 4096 d0 = Ok (hw_driver w', Ret 0) /\
  slicetable (hw_driver w') =
    Some [Some (mkSlice 4096 112 32); Some (mkSlice 4096 112 32); Some (mkSlice 4128 160 16); None; None].
Proof.
  pose proof (ex_pinned true [1; 2; 3] (or_introl eq_refl)) as Hp.
  destruct (offload_task_table (ex_drv_params true) ex_drv_kernel (fun _ => 0) ex_off_api ex_off ltac:(by split) ex_task
    (ex_task <| vpages := [mkPage 256 258 3] |> <| _updated := true |>) (mkPage 256 258 3) (mkHost ex_drv_new []) [1; 2; 3] 64 5)
    as (d0 & _ & _ & _ & T); try reflexivity.
  - split; [|by repeat constructor].
    repeat constructor; cbn; lia.
  - split; try done.
  - destruct Hp. split; try done.
  - change (PIM_MERGE_SLICES _ && _) with false in T. destruct T as (a' & w' & E & _ & Hst & Ht & _).
    exists a', w', d0. split; [exact E|]. split; [exact Hst|]. split; [exact Ht|].
    vm_compute in E. injection E as <- <-. reflexivity.
Defined.
