(* ===== verification/Bridge.v ===== *)
(** * The bridge between two crossbars

    Models [mem/bridge.cc] and [mem/bridge.hh]: the request queue of the master
    port, the response queue of the slave port with its reserved places, the
    serial-link delays, stalled requests and their retries, and the atomic and
    functional paths.  The two ports of one bridge are one record: they share
    their parameters and call each other.

    A packet is passed down by pointer, so a refused packet stays queued as
    the receiver left it.  A call up through the slave port runs the peer's
    code, which may send a new request before it returns: such a call is a
    function on the bridge's state.  Debug output is left out. *)

From S2P Require Import Prelude.
From S2P Require Import BitMath.
From S2P Require Import Clock.
From S2P Require Import AddrRange.
From S2P Require Import Packet.
From S2P Require Import AbstractMem.
From S2P Require Import Port.
From S2P Require Import SimpleMem.

Record Bridge := mkBridge {
  clk : ClockedObject;
  delay : Z;
  serialization_enable : Z;
  serialization_unit : Z;
  ranges : list AR.AddrRange;
  (* BridgeMasterPort: requests on their way down *)
  reqList : list DeferredPacket;
  reqQueueLimit : Z;
  reqEvent : option Z;
  rsp_prev_serial_tick : Z;
  (* BridgeSlavePort: responses on their way up *)
  respList : list DeferredPacket;
  outstandingResponses : Z;
  stalled : bool;
  respQueueLimit : Z;
  respEvent : option Z;
  req_prev_serial_tick : Z
}.

Definition respQueueFull (b : Bridge) : bool := outstandingResponses b =? respQueueLimit b.
Definition reqQueueFull (b : Bridge) : bool := Z.of_nat (length (reqList b)) =? reqQueueLimit b.

(** Will a response come back for this request? *)
Definition expects_response (p : Packet) : bool := needsResponse p && negb (memInhibitAsserted p).

(** When a packet that arrives now may leave, over a serial link no earlier
    than the packet before it: the new clock, the tick, and the last tick of
    the link. *)
Definition depart (now : Z) (pkt : Packet) (prev : Z) (b : Bridge) : res (Bridge * Z * Z) :=
  '(c, t) ← clockEdge now (delay b) (clk b);
  let b := b <| clk := c |> in
  if negb (serialization_enable b =? 0) then
    sz ← getSize pkt;
    if serialization_unit b =? 0 then undefined
    else
      let cycles := u64 (u32 (sz * 8) / serialization_unit b + delay b) in
      '(c, t) ← clockEdge now cycles (clk b);
      let b := b <| clk := c |> in
      let t := if t <=? prev then u64 (prev + 1) else t in
      Ok (b, t, t)
  else Ok (b, t, prev).

Definition schedTimingResp (now : Z) (pkt : Packet) (when : Z) (b : Bridge) : res Bridge :=
  '(st, pkt) ← popSenderState pkt;
  match st with
  | BridgeRequestState origSrc =>
      let pkt := setDest origSrc pkt in
      _ ← assert_ (isDestValid pkt);
      ev ← (if bool_decide (respList b = []) then schedule (respEvent b) now when
            else Ok (respEvent b));
      Ok (b <| respEvent := ev |> <| respList := respList b ++ [mkDeferred when pkt] |>)
  | _ => Err AssertFailed
  end.

(** [BridgeMasterPort::recvTimingResp] *)
Definition recvTimingResp (now : Z) (pkt : Packet) (b : Bridge) : res Bridge :=
  let pkt := pkt <| firstWordDelay := 0 |> <| lastWordDelay := 0 |> in
  '(b, t, prev) ← depart now pkt (rsp_prev_serial_tick b) b;
  schedTimingResp now pkt t (b <| rsp_prev_serial_tick := prev |>).

Definition schedTimingReq (now : Z) (pkt : Packet) (when : Z) (b : Bridge) : res Bridge :=
  pkt ← (if negb (memInhibitAsserted pkt) && needsResponse pkt
         then s ← getSrc pkt; Ok (pushSenderState (BridgeRequestState s) pkt)
         else Ok pkt);
  ev ← (if bool_decide (reqList b = []) then schedule (reqEvent b) now when else Ok (reqEvent b));
  _ ← assert_ (negb (reqQueueFull b));
  Ok (b <| reqEvent := ev |> <| reqList := reqList b ++ [mkDeferred when pkt] |>).

(** A request there is room for. *)
Definition accept_request (now : Z) (pkt : Packet) (b : Bridge) : res Bridge :=
  let pkt := pkt <| firstWordDelay := 0 |> <| lastWordDelay := 0 |> in
  '(b, t, prev) ← depart now pkt (req_prev_serial_tick b) b;
  schedTimingReq now pkt t (b <| req_prev_serial_tick := prev |>).

(** [BridgeSlavePort::recvTimingReq] *)
Definition recvTimingReq (now : Z) (pkt : Packet) (b : Bridge) : res (Bridge * bool) :=
  _ ← assert_ (negb (stalled b));
  b ← (if reqQueueFull b then Ok (b <| stalled := true |>)
       else
         let b :=
           if expects_response pkt then
             if respQueueFull b then b <| stalled := true |>
             else b <| outstandingResponses := u32 (outstandingResponses b + 1) |>
           else b in
         if negb (stalled b) then accept_request now pkt b else Ok b);
  Ok (b, negb (stalled b)).

(** The event for the next packet of a queue: not before the next clock edge. *)
Definition next_event (now : Z) (ev : option Z) (l : list DeferredPacket) (b : Bridge)
  : res (Bridge * option Z) :=
  match l with
  | [] => Ok (b, ev)
  | d :: _ =>
      '(c, t) ← clockEdge now 0 (clk b);
      ev ← schedule ev now (Z.max (dp_tick d) t);
      Ok (b <| clk := c |>, ev)
  end.

Definition retryStalledReq (sendRetry : Bridge -> res Bridge) (b : Bridge) : res Bridge :=
  if stalled b then sendRetry (b <| stalled := false |>) else Ok b.

(** [BridgeMasterPort::trySendTiming] *)
Definition master_trySendTiming (now : Z) (sendTimingReq : Packet -> res (Packet * bool))
    (sendRetry : Bridge -> res Bridge) (b : Bridge) : res Bridge :=
  match reqList b with
  | [] => Err AssertFailed
  | d :: rest =>
      _ ← assert_ (dp_tick d <=? now);
      '(pkt, ok) ← sendTimingReq (dp_pkt d);
      if ok : bool then
        let b := b <| reqList := rest |> in
        '(b, ev) ← next_event now (reqEvent b) rest b;
        retryStalledReq sendRetry (b <| reqEvent := ev |>)
      else Ok (b <| reqList := mkDeferred (dp_tick d) pkt :: rest |>)
  end.

(** [BridgeSlavePort::trySendTiming] *)
Definition slave_trySendTiming (now : Z) (sendTimingResp : Packet -> Bridge -> res (Bridge * Packet * bool))
    (sendRetry : Bridge -> res Bridge) (b : Bridge) : res Bridge :=
  match respList b with
  | [] => Err AssertFailed
  | d :: _ =>
      _ ← assert_ (dp_tick d <=? now);
      '(b, pkt, ok) ← sendTimingResp (dp_pkt d) b;
      let rest := tail (respList b) in
      if ok : bool then
        let b := b <| respList := rest |> in
        _ ← assert_ (negb (outstandingResponses b =? 0));
        let b := b <| outstandingResponses := outstandingResponses b - 1 |> in
        '(b, ev) ← next_event now (respEvent b) rest b;
        let b := b <| respEvent := ev |> in
        if negb (reqQueueFull b) && stalled b then sendRetry (b <| stalled := false |>) else Ok b
      else Ok (b <| respList := mkDeferred (dp_tick d) pkt :: rest |>)
  end.

(** Retries from either side. *)
Definition master_recvRetry := master_trySendTiming.
Definition slave_recvRetry := slave_trySendTiming.

Section Accesses.

Context {S : Type} {DS : MemDevice S}.

Definition recvAtomic (now : Z) (pkt : Packet) (b : Bridge) (s : S) : res (S * Packet * Z) :=
  '(s, pkt, l) ← sendAtomic now pkt s;
  Ok (s, pkt, u64 (u64 (delay b * clk_period (clk b)) + l)).

(** A functional request against one queue: the packet, the queue, and
    whether it was satisfied there. *)
Fixpoint functional_queue (pkt : Packet) (l : list DeferredPacket)
  : res (Packet * list DeferredPacket * bool) :=
  match l with
  | [] => Ok (pkt, [], false)
  | d :: l' =>
      '(pkt, other, done) ← checkFunctional pkt (dp_pkt d);
      let d := mkDeferred (dp_tick d) other in
      if done : bool then pkt ← makeResponse pkt; Ok (pkt, d :: l', true)
      else '(pkt, l', f) ← functional_queue pkt l'; Ok (pkt, d :: l', f)
  end.

Definition recvFunctional (pkt : Packet) (b : Bridge) (s : S) : res (Bridge * S * Packet) :=
  '(pkt, l, found) ← functional_queue pkt (respList b);
  let b := b <| respList := l |> in
  if found : bool then Ok (b, s, pkt)
  else
    '(pkt, l, found) ← functional_queue pkt (reqList b);
    let b := b <| reqList := l |> in
    if found : bool then Ok (b, s, pkt)
    else '(s, pkt) ← sendFunctional pkt s; Ok (b, s, pkt).

End Accesses.

(** ** The bridge as a transition system

    The state adds what the other sides know: how many requests that will be
    answered are below the bridge, which of the two peers owes a retry, and
    the time. *)
Record BState := mkBState {
  br : Bridge;
  inflight : Z;
  req_wait : bool;
  resp_wait : bool;
  time : Z
}.

(** A peer above may send requests whenever it is called. *)
Inductive reenters (now : Z) : Bridge -> Bridge -> Prop :=
| reenters_refl b : reenters now b b
| reenters_req b p b1 ok b2 :
    recvTimingReq now p b = Ok (b1, ok) -> reenters now b1 b2 -> reenters now b b2.

Definition up_peer (now : Z) (f : Packet -> Bridge -> res (Bridge * Packet * bool)) : Prop :=
  forall p b b' q ok, f p b = Ok (b', q, ok) -> reenters now b b'.
Definition retry_peer (now : Z) (f : Bridge -> res Bridge) : Prop :=
  forall b b', f b = Ok b' -> reenters now b b'.

(** Sending the first request, from the event or from a retry. *)
Definition send_request (x : BState) (q : Packet) (ok : bool) (b b' : Bridge) : BState :=
  let e := match reqList b with d :: _ => expects_response (dp_pkt d) | [] => false end in
  mkBState b' (inflight x + (if ok && e then 1 else 0)) (negb ok) (resp_wait x) (time x).

Definition keeps_expectation (q : Packet) (b : Bridge) : Prop :=
  match reqList b with d :: _ => expects_response q = expects_response (dp_pkt d) | [] => True end.

Inductive bstep : BState -> BState -> Prop :=
| bs_request x p b ok : recvTimingReq (time x) p (br x) = Ok (b, ok) ->
    bstep x (mkBState b (inflight x) (req_wait x) (resp_wait x) (time x))
| bs_response x p b : 0 < inflight x -> recvTimingResp (time x) p (br x) = Ok b ->
    bstep x (mkBState b (inflight x - 1) (req_wait x) (resp_wait x) (time x))
| bs_send x q ok retry b : reqEvent (br x) = Some (time x) -> retry_peer (time x) retry ->
    keeps_expectation q (br x) ->
    master_trySendTiming (time x) (fun _ => Ok (q, ok)) retry ((br x) <| reqEvent := None |>) = Ok b ->
    bstep x (send_request x q ok (br x) b)
| bs_retry_request x q ok retry b : req_wait x = true -> retry_peer (time x) retry ->
    keeps_expectation q (br x) ->
    master_recvRetry (time x) (fun _ => Ok (q, ok)) retry (br x) = Ok b ->
    bstep x (send_request x q ok (br x) b)
| bs_answer x b0 up d b1 q ok retry b :
    (respEvent (br x) = Some (time x) /\ b0 = (br x) <| respEvent := None |> \/
     resp_wait x = true /\ b0 = br x) ->
    up_peer (time x) up -> retry_peer (time x) retry ->
    head (respList b0) = Some d -> up (dp_pkt d) b0 = Ok (b1, q, ok) ->
    slave_trySendTiming (time x) up retry b0 = Ok b ->
    bstep x (mkBState b (inflight x) (req_wait x) (negb ok) (time x))
| bs_functional x (S : Type) (DS : MemDevice S) pkt (s : S) b s' pkt' :
    recvFunctional pkt (br x) s = Ok (b, s', pkt') ->
    bstep x (mkBState b (inflight x) (req_wait x) (resp_wait x) (time x))
| bs_time x t : time x <= t ->
    bstep x (mkBState (br x) (inflight x) (req_wait x) (resp_wait x) t).

Inductive breach : BState -> BState -> Prop :=
| breach_refl x : breach x x
| breach_step x y z : breach x y -> bstep y z -> breach x z.

(** ** The invariant *)
Definition expecting (l : list DeferredPacket) : Z :=
  Z.of_nat (length (List.filter (fun d => expects_response (dp_pkt d)) l)).

(** An event, or an owed retry, exactly for a non-empty queue; and not before
    the first packet may leave. *)
Definition queue_ok (l : list DeferredPacket) (ev : option Z) (wait : bool) (now : Z) : Prop :=
  match l with
  | [] => ev = None /\ wait = false
  | d :: _ => if wait then ev = None /\ dp_tick d <= now else exists t, ev = Some t /\ dp_tick d <= t
  end.

(** What holds also while a response is on its way up. *)
Record core (b : Bridge) (infl : Z) (wait : bool) (now : Z) : Prop := {
  co_inflight : 0 <= infl;
  co_limit : outstandingResponses b <= respQueueLimit b < 2 ^ 32;
  co_credit : outstandingResponses b =
    expecting (reqList b) + infl + Z.of_nat (length (respList b));
  co_req : Z.of_nat (length (reqList b)) <= reqQueueLimit b;
  co_queue : queue_ok (reqList b) (reqEvent b) wait now;
  co_stalled : stalled b = true -> reqQueueFull b = true \/ respQueueFull b = true
}.

Record binv (x : BState) : Prop := {
  bi_core : core (br x) (inflight x) (req_wait x) (time x);
  bi_resp : queue_ok (respList (br x)) (respEvent (br x)) (resp_wait x) (time x)
}.

Lemma expecting_app l l' : expecting (l ++ l') = expecting l + expecting l'.
Proof. unfold expecting. rewrite List.filter_app, length_app. lia. Qed.
Lemma expecting_nonneg l : 0 <= expecting l.
Proof. unfold expecting. lia. Qed.

Lemma expecting_cons d l : expecting (d :: l) = (if expects_response (dp_pkt d) then 1 else 0) + expecting l.
Proof. unfold expecting. cbn [List.filter]. case_if; cbn [length]; lia. Qed.

(** [depart] only moves the clock. *)
Lemma depart_clk now p prev b b' t pr : depart now p prev b = Ok (b', t, pr) -> exists c, b' = b <| clk := c |>.
Proof.
  unfold depart. intros H. res_inv. case_if_in H; res_inv; [|eauto]. case_if_in H; res_inv. eauto.
Qed.

Lemma next_event_clk now ev l b b' ev' : next_event now ev l b = Ok (b', ev') -> 
  (exists c, b' = b <| clk := c |>) /\ (ev = None -> queue_ok l ev' false now).
Proof.
  unfold next_event. destruct l as [|d l]; intros H; res_inv.
  - split; [|by cbn]. exists (clk b'). by destruct b'.
  - unfold schedule in *. res_inv. split; [eauto|]. intros _. cbn. eexists. split; [done|]. lia.
Qed.

(** What an accepted request does. *)
Lemma accept_spec now p b b' : accept_request now p b = Ok b' ->
  exists c pr ev t p', b' = b <| clk := c |> <| req_prev_serial_tick := pr |> <| reqEvent := ev |>
                           <| reqList := reqList b ++ [mkDeferred t p'] |> /\
    expects_response p' = expects_response p /\ reqQueueFull b = false /\
    (if bool_decide (reqList b = []) then reqEvent b = None /\ ev = Some t else ev = reqEvent b).
Proof.
  unfold accept_request, schedTimingReq. intros H. res_inv.
  match goal with D : depart _ _ _ _ = Ok _ |- _ => apply depart_clk in D as [c ->] end.
  match goal with E : (if _ && _ then _ else _) = Ok ?q |- _ =>
    assert (Eq : expects_response q = expects_response p)
      by (case_if_in E; res_inv; done) end.
  exists c, z, a0, z0, a. split; [reflexivity|]. split; [exact Eq|]. bool_prop. split; [done|].
  match goal with E : (if bool_decide (reqList ?x = []) then _ else _) = Ok _ |- _ =>
    change (reqList x) with (reqList b) in E end.
  case_bool_decide; unfold schedule in *; res_inv; bool_prop; done.
Qed.

Lemma accept_core now p b b' infl wait : accept_request now p b = Ok b' ->
  0 <= infl -> outstandingResponses b <= respQueueLimit b < 2 ^ 32 ->
  outstandingResponses b =
    expecting (reqList b) + (if expects_response p then 1 else 0) + infl + Z.of_nat (length (respList b)) ->
  Z.of_nat (length (reqList b)) <= reqQueueLimit b -> queue_ok (reqList b) (reqEvent b) wait now ->
  stalled b = false ->
  core b' infl wait now /\ respList b' = respList b /\ respEvent b' = respEvent b.
Proof.
  intros (c & pr & ev & t & p' & -> & Ex & Hf & He)%accept_spec C1 C2 C3 C4 C5 C6.
  unfold reqQueueFull in Hf. bool_prop. split; [|done].
  split; cbn [outstandingResponses respQueueLimit reqList respList reqQueueLimit stalled reqEvent field_upd];
    try done; rewrite ?expecting_app, ?expecting_cons, ?length_app; cbn [dp_pkt length].
  - change (expecting []) with 0. rewrite Ex. lia.
  - lia.
  - destruct (reqList b) as [|d l]; cbn [app queue_ok].
    + destruct He as [_ ->], C5 as [_ ->]. eexists. split; [done|]. cbn. lia.
    + rewrite bool_decide_false in He by done. by subst ev.
  - congruence.
Qed.

(** A request from above: the invariant is kept, and the response queue is not
    touched. *)
Lemma recvTimingReq_core now p b b' ok infl wait : core b infl wait now ->
  recvTimingReq now p b = Ok (b', ok) ->
  core b' infl wait now /\ respList b' = respList b /\ respEvent b' = respEvent b.
Proof.
  intros [C1 C2 C3 C4 C5 C6] H. unfold recvTimingReq in H.
  destruct (stalled b) eqn:Es; [discriminate|]. cbn [negb assert_ mbind res_bind] in H.
  destruct (reqQueueFull b) eqn:Ef.
  { cbn [mbind res_bind] in H. res_inv. split; [|done]. split; try done. intros _. left. exact Ef. }
  cbv zeta in H. destruct (expects_response p) eqn:Ex.
  - destruct (respQueueFull b) eqn:Er.
    { cbn in H. injection H as <- <-. split; [|done]. split; try done. intros _. right. exact Er. }
    change (stalled b <| outstandingResponses := _ |>) with (stalled b) in H. rewrite Es in H.
    cbn [negb] in H. res_inv. unfold respQueueFull in Er. bool_prop.
    assert (0 <= expecting (reqList b)) by apply expecting_nonneg.
    assert (Eo : u32 (outstandingResponses b + 1) = outstandingResponses b + 1)
      by (apply wrap_id; unfold inw; lia).
    rewrite Eo in *. eapply accept_core in Hm; [exact Hm|..]; cbn; rewrite ?Ex; try done; lia.
  - rewrite Es in H. cbn [negb] in H. res_inv.
    eapply accept_core in Hm; [exact Hm|..]; rewrite ?Ex; try done; lia.
Qed.

Lemma reenters_core now b b' infl wait : reenters now b b' -> core b infl wait now ->
  core b' infl wait now /\ respList b' = respList b /\ respEvent b' = respEvent b.
Proof.
  induction 1 as [|b p b1 ok b2 Hr _ IH]; intros C; [done|].
  destruct (recvTimingReq_core _ _ _ _ _ _ _ C Hr) as (C1 & E1 & E2).
  destruct (IH C1) as (C2 & E3 & E4). split; [done|]. by rewrite E3, E4.
Qed.

(** The first request is sent: it leaves the queue, and waits below or, when
    refused, for a retry. *)
Lemma master_send_core now q ok retry b b' infl w :
  retry_peer now retry -> keeps_expectation q b -> reqEvent b = None ->
  (exists ev, core (b <| reqEvent := ev |>) infl w now) ->
  master_trySendTiming now (fun _ => Ok (q, ok)) retry b = Ok b' ->
  let e := match reqList b with d :: _ => expects_response (dp_pkt d) | [] => false end in
  core b' (infl + (if ok && e then 1 else 0)) (negb ok) now /\
  respList b' = respList b /\ respEvent b' = respEvent b.
Proof.
  intros Hr Hk Hev [ev [C1 C2 C3 C4 _ C6]] H. unfold master_trySendTiming, keeps_expectation in *.
  cbn [outstandingResponses respQueueLimit reqList respList reqQueueLimit stalled reqEvent field_upd] in *.
  destruct (reqList b) as [|d rest] eqn:El; [discriminate|].
  rewrite expecting_cons in C3. cbn [length] in C4. res_inv. bool_prop.
  destruct ok; cbn [andb negb].
  - res_inv. match goal with N : next_event _ _ _ _ = Ok _ |- _ =>
      apply next_event_clk in N as [[c ->] Q]; specialize (Q Hev) end.
    match type of H with retryStalledReq _ ?x = _ => set (b1 := x) in *;
      assert (C : core (b1 <| stalled := false |>)
                    (infl + (if expects_response (dp_pkt d) then 1 else 0)) false now) end.
    { split; cbn [outstandingResponses respQueueLimit reqList respList reqQueueLimit stalled reqEvent field_upd b1];
        try done; try lia. case_if; lia. }
    unfold retryStalledReq in H. case_if_in H.
    + by destruct (reenters_core _ _ _ _ _ (Hr _ _ H) C) as (C' & E1 & E2).
    + res_inv. split; [|done]. destruct C as [D1 D2 D3 D4 D5 D6]. split; try done. congruence.
  - res_inv. split; [|done]. rewrite Z.add_0_r.
    split; cbn [outstandingResponses respQueueLimit reqList respList reqQueueLimit stalled reqEvent field_upd];
      try done.
    rewrite expecting_cons. cbn [dp_pkt]. rewrite Hk. done.
Qed.

Lemma schedTimingResp_spec now p when b b' : schedTimingResp now p when b = Ok b' ->
  exists s ss, senderState p = BridgeRequestState s :: ss /\ s <> InvalidPortID /\
    exists ev, b' = b <| respEvent := ev |>
                      <| respList := respList b ++ [mkDeferred when (p <| senderState := ss |> <| dest := s |>)] |> /\
    (if bool_decide (respList b = []) then respEvent b = None /\ ev = Some when else ev = respEvent b).
Proof.
  unfold schedTimingResp, popSenderState. intros H.
  destruct (senderState p) as [|[] ss]; [discriminate|discriminate| |discriminate..].
  cbn [mbind res_bind] in H. res_inv. unfold isDestValid, setDest in Ha. bool_prop.
  eexists _, _. split; [done|]. split; [done|]. eexists. split; [reflexivity|].
  case_bool_decide; unfold schedule in *; res_inv; bool_prop; done.
Qed.

Lemma recvTimingResp_inv x p b : binv x -> 0 < inflight x -> recvTimingResp (time x) p (br x) = Ok b ->
  binv (mkBState b (inflight x - 1) (req_wait x) (resp_wait x) (time x)).
Proof.
  intros [[C1 C2 C3 C4 C5 C6] R] Hi H. unfold recvTimingResp in H. res_inv.
  match goal with D : depart _ _ _ _ = Ok _ |- _ => apply depart_clk in D as [c ->] end.
  apply schedTimingResp_spec in H as (s & ss & _ & _ & ev & -> & He). cbn [br] in *.
  cbn [respList respEvent field_upd] in He.
  split; [split|]; cbn [br inflight req_wait resp_wait time outstandingResponses respQueueLimit
    reqList respList reqQueueLimit stalled reqEvent respEvent field_upd]; try done; try lia.
  - rewrite length_app. cbn [length]. lia.
  - destruct (respList (br x)) as [|d l]; cbn [app queue_ok] in *.
    + destruct He as [_ ->], R as [_ ->]. eexists. split; [done|]. cbn. lia.
    + rewrite bool_decide_false in He by done. by subst ev.
Qed.

(** The first response is sent: it leaves the queue and frees its place, and
    a stalled request is retried if there is room for it. *)
Lemma slave_send_inv now b0 up d b1 q ok retry b infl w :
  core b0 infl w now -> respEvent b0 = None -> up_peer now up -> retry_peer now retry ->
  head (respList b0) = Some d -> up (dp_pkt d) b0 = Ok (b1, q, ok) ->
  slave_trySendTiming now up retry b0 = Ok b -> binv (mkBState b infl w (negb ok) now).
Proof.
  intros C Hev Hup Hr Hh Hu H. unfold slave_trySendTiming in H.
  destruct (respList b0) as [|d' rest] eqn:El; [done|]. cbn in Hh. injection Hh as ->.
  destruct (dp_tick d <=? now) eqn:Ed; [|discriminate]. cbn [assert_ mbind res_bind] in H.
  rewrite Hu in H. cbn [mbind res_bind] in H. bool_prop.
  destruct (reenters_core _ _ _ _ _ (Hup _ _ _ _ _ Hu) C) as ([C1 C2 C3 C4 C5 C6] & E1 & E2).
  rewrite E1, El in *. cbn [tail] in H. rewrite Hev in E2. cbn [length] in C3.
  destruct ok; cbn [negb].
  - destruct (outstandingResponses b1 <| respList := rest |> =? 0); [discriminate|].
    cbn [negb assert_ mbind res_bind] in H. res_inv.
    match goal with N : next_event _ _ _ _ = Ok _ |- _ =>
      apply next_event_clk in N as [[c ->] Q]; specialize (Q E2) end.
    match type of H with (if negb (reqQueueFull ?x) && _ then _ else _) = _ => set (b2 := x) in * end.
    assert (CC : forall b3, b3 = b2 <| stalled := false |> \/ b3 = b2 ->
      (stalled b3 = true -> reqQueueFull b3 = true) -> core b3 infl w now).
    { intros b3 Hb3 Hs. destruct Hb3 as [-> | ->]; split;
        cbn [outstandingResponses respQueueLimit reqList respList reqQueueLimit reqEvent field_upd b2];
        try done; try lia; auto. }
    case_if_in H; bool_prop.
    + destruct (reenters_core _ _ _ infl w (Hr _ _ H)) as (C' & E3 & E4).
      { apply CC; [by left|done]. }
      split; [exact C'|]. cbn [br resp_wait time]. rewrite E3, E4. exact Q.
    + res_inv. split; [|exact Q]. apply CC; [by right|]. intros Hs. change (stalled b2 = true) in Hs. rewrite Hs, andb_true_r in Hif.
      by bool_prop.
  - res_inv. split; [split|]; cbn [br inflight req_wait resp_wait time outstandingResponses respQueueLimit
      reqList respList reqQueueLimit stalled reqEvent respEvent field_upd]; try done.
Qed.

(** A functional access changes at most the data of queued packets. *)
Lemma functional_queue_keeps pkt l pkt' l' f : functional_queue pkt l = Ok (pkt', l', f) ->
  dp_tick <$> l' = dp_tick <$> l /\
  (fun d => expects_response (dp_pkt d)) <$> l' = (fun d => expects_response (dp_pkt d)) <$> l.
Proof.
  revert pkt pkt' l' f. induction l as [|d l IH]; intros pkt pkt' l' f H; cbn [functional_queue] in H;
    [by res_inv|].
  res_inv. match goal with K : checkFunctional _ _ = Ok (_, ?o, _) |- _ =>
    assert (Eo : expects_response o = expects_response (dp_pkt d)) end.
  { unfold checkFunctional in *. res_inv. match goal with |- context [match ?o with _ => _ end] => by destruct o end. }
  case_if_in H; res_inv; cbn [fmap list_fmap dp_pkt dp_tick].
  - by rewrite Eo.
  - destruct (IH _ _ _ _ Hm0) as [-> ->]. by rewrite Eo.
Qed.

Lemma filter_fmap_length {A} (f : A -> bool) l l' : f <$> l = f <$> l' ->
  length (List.filter f l) = length (List.filter f l').
Proof.
  revert l'. induction l as [|a l IH]; intros [|a' l'] E; try done.
  cbn in E. injection E as E1 E2. cbn [List.filter]. rewrite E1. case_if; cbn [length]; by rewrite (IH l').
Qed.

Lemma same_ticks_queue_ok l l' ev w now : dp_tick <$> l' = dp_tick <$> l ->
  queue_ok l ev w now -> queue_ok l' ev w now.
Proof. destruct l, l'; try done. cbn. by intros [= -> _]. Qed.

Lemma recvFunctional_inv {S} {DS : MemDevice S} x pkt (s : S) b s' pkt' : binv x ->
  recvFunctional pkt (br x) s = Ok (b, s', pkt') ->
  binv (mkBState b (inflight x) (req_wait x) (resp_wait x) (time x)).
Proof.
  intros I H.
  assert (exists l l', b = (br x) <| respList := l |> <| reqList := l' |> /\
    dp_tick <$> l = dp_tick <$> respList (br x) /\
    (dp_tick <$> l' = dp_tick <$> reqList (br x) /\
     (fun d => expects_response (dp_pkt d)) <$> l' = (fun d => expects_response (dp_pkt d)) <$> reqList (br x)))
    as (l & l' & -> & T1 & T2 & T3).
  { unfold recvFunctional in H. res_inv.
    match goal with F : functional_queue _ _ = Ok (_, ?l, _) |- _ =>
      destruct (functional_queue_keeps _ _ _ _ _ F) as [K1 K2]; exists l end.
    case_if_in H.
    - res_inv. exists (reqList (br x)). done.
    - res_inv. match goal with F : functional_queue _ (reqList _) = Ok (_, ?l', _) |- _ =>
        destruct (functional_queue_keeps _ _ _ _ _ F) as [K3 K4]; exists l' end.
      case_if_in H; res_inv; done. }
  assert (E1 : length l = length (respList (br x)))
    by (rewrite <- (length_fmap dp_tick l), T1; apply length_fmap).
  assert (E2 : length l' = length (reqList (br x)))
    by (rewrite <- (length_fmap dp_tick l'), T2; apply length_fmap).
  assert (E3 : expecting l' = expecting (reqList (br x)))
    by (unfold expecting; by rewrite (filter_fmap_length _ _ _ T3)).
  destruct I as [[C1 C2 C3 C4 C5 C6] R].
  split; [split|]; cbn [br inflight req_wait resp_wait time outstandingResponses respQueueLimit
    reqList respList reqQueueLimit stalled reqEvent respEvent field_upd]; try done; try lia.
  - by eapply same_ticks_queue_ok.
  - intros Hs. destruct (C6 Hs) as [F|F]; [left|by right]. unfold reqQueueFull in *.
    cbn [reqList reqQueueLimit field_upd]. by rewrite E2.
  - by eapply same_ticks_queue_ok.
Qed.

Lemma bstep_inv x y : bstep x y -> binv x -> binv y.
Proof.
  intros H I. destruct H as [x p b ok H|x p b Hi H|x q ok retry b He Hr Hk H|x q ok retry b Hw Hr Hk H
    |x b0 up d b1 q ok retry b Hb Hup Hr Hh Hu H|x S DS pkt s b s' pkt' H|x t Ht].
  - destruct (recvTimingReq_core _ _ _ _ _ _ _ (bi_core x I) H) as (C & E1 & E2).
    split; [exact C|]. cbn. rewrite E1, E2. apply I.
  - by eapply recvTimingResp_inv.
  - destruct (master_send_core (time x) q ok retry ((br x) <| reqEvent := None |>) b (inflight x) (req_wait x))
      as (C & E1 & E2); [done..| |done|].
    { exists (reqEvent (br x)). destruct x as [[] ? ? ? ?]. apply I. }
    split; [exact C|]. cbn [br respList respEvent resp_wait time send_request].
    rewrite E1, E2. apply I.
  - assert (Hn : reqEvent (br x) = None).
    { pose proof (co_queue _ _ _ _ (bi_core x I)) as Q. rewrite Hw in Q. unfold queue_ok in Q.
      by destruct (reqList (br x)), Q. }
    destruct (master_send_core (time x) q ok retry (br x) b (inflight x) (req_wait x))
      as (C & E1 & E2); [done..| |done|].
    { exists (reqEvent (br x)). destruct x as [[] ? ? ? ?]. apply I. }
    split; [exact C|]. cbn [br respList respEvent resp_wait time send_request].
    rewrite E1, E2. apply I.
  - eapply slave_send_inv; try done.
    + destruct Hb as [[_ ->]|[_ ->]]; [|apply I]. destruct (bi_core x I). by split.
    + destruct Hb as [[_ ->]|[Hw ->]]; [done|].
      pose proof (bi_resp x I) as Q. rewrite Hw in Q. unfold queue_ok in Q. by destruct (respList (br x)), Q.
  - by eapply recvFunctional_inv.
  - destruct I as [[C1 C2 C3 C4 C5 C6] R]. split; [split|]; cbn; try done.
    + unfold queue_ok in *. destruct (reqList (br x)); [done|]. destruct (req_wait x); [|done]. destruct C5. split; [done|lia].
    + unfold queue_ok in *. destruct (respList (br x)); [done|]. destruct (resp_wait x); [|done]. destruct R. split; [done|lia].
Qed.

(** C10. In every reachable state every response the bridge is going to receive
    has its place: the places taken are those of queued requests, requests
    below and queued responses, and never exceed the limit; the queues stay
    within their limits, a non-empty queue has its send event or a retry
    owed to it, and a request is kept waiting only by a full queue. *)
Theorem bridge_reach_inv (x y : BState) : binv x -> breach x y -> binv y.
Proof. intros I H. induction H as [|x y z _ IH Hs]; [done|]. eapply bstep_inv; [exact Hs|]. by apply IH. Qed.

(** ** What the invariant is for *)

Lemma next_event_ok now ev l b c t : ev = None -> clockEdge now 0 (clk b) = Ok (c, t) -> now <= t ->
  exists c' ev', next_event now ev l b = Ok (b <| clk := c' |>, ev').
Proof.
  intros -> Hc Ht. unfold next_event. destruct l as [|d l].
  - exists (clk b), None. by destruct b.
  - rewrite Hc. cbn [mbind res_bind]. unfold schedule. rewrite (proj2 (Z.leb_le _ _)) by lia.
    cbn [assert_ mbind res_bind]. rewrite bool_decide_true by done. eauto.
Qed.

Lemma due_head l ev w now : queue_ok l ev w now -> ev = Some now ->
  exists d rest, l = d :: rest /\ dp_tick d <= now.
Proof.
  intros Q ->. destruct l as [|d rest]; [by destruct Q|]. exists d, rest. split; [done|].
  cbn in Q. destruct w; [by destruct Q|]. destruct Q as (t & [= <-] & ?). done.
Qed.

(** The sends never fail an assertion: when the send event of a queue is due
    and the receiver accepts, the first packet leaves its queue; sending a
    request wakes a stalled requester, and sending a response frees a place. *)
Theorem bridge_sends (x : BState) (q : Packet) (c : ClockedObject) (t : Z) (retry : Bridge -> res Bridge) :
  binv x -> (forall b, retry b = Ok b) ->
  clockEdge (time x) 0 (clk (br x)) = Ok (c, t) -> time x <= t ->
  (reqEvent (br x) = Some (time x) ->
     exists b, master_trySendTiming (time x) (fun _ => Ok (q, true)) retry ((br x) <| reqEvent := None |>) = Ok b /\
       reqList b = tail (reqList (br x)) /\ stalled b = false) /\
  (respEvent (br x) = Some (time x) ->
     exists b, slave_trySendTiming (time x) (fun p b => Ok (b, p, true)) retry ((br x) <| respEvent := None |>) = Ok b /\
       respList b = tail (respList (br x)) /\
       outstandingResponses b = outstandingResponses (br x) - 1).
Proof.
  intros [[C1 C2 C3 C4 C5 C6] R] Hr Hc Ht. split; intros He.
  - destruct (due_head _ _ _ _ C5 He) as (d & rest & El & Hd). unfold master_trySendTiming.
    change (reqList ((br x) <| reqEvent := None |>)) with (reqList (br x)). rewrite El.
    rewrite (proj2 (Z.leb_le _ _)) by done. cbn [assert_ mbind res_bind].
    match goal with |- context [next_event ?n ?e ?l ?z] =>
      destruct (next_event_ok n e l z c t) as (c' & ev' & ->); [done|exact Hc|done|] end.
    cbn [mbind res_bind]. unfold retryStalledReq.
    case_if; [rewrite Hr|]; eexists; (split; [reflexivity|done]).
  - destruct (due_head _ _ _ _ R He) as (d & rest & El & Hd). unfold slave_trySendTiming.
    change (respList ((br x) <| respEvent := None |>)) with (respList (br x)). rewrite El.
    rewrite (proj2 (Z.leb_le _ _)) by done. cbn [assert_ mbind res_bind].
    change (respList ((br x) <| respEvent := None |>)) with (respList (br x)). rewrite El. cbn [tail].
    pose proof (expecting_nonneg (reqList (br x))). rewrite El in C3. cbn [length] in C3.
    match goal with |- context [outstandingResponses ?z =? 0] =>
      change (outstandingResponses z) with (outstandingResponses (br x)) end.
    rewrite (proj2 (Z.eqb_neq (outstandingResponses (br x)) 0)) by lia. cbn [negb assert_ mbind res_bind].
    match goal with |- context [next_event ?n ?e ?l ?z] =>
      destruct (next_event_ok n e l z c t) as (c' & ev' & ->); [done|exact Hc|done|] end.
    cbn [mbind res_bind]. case_if; [rewrite Hr|]; eexists; (split; [reflexivity|done]).
Qed.

(** ** Serial links *)

(** The queue of a serial link leaves in order: ticks strictly increase, and
    none is later than the last tick of the link. *)
Definition serial_ok (l : list DeferredPacket) (prev : Z) : Prop :=
  StronglySorted Z.lt (dp_tick <$> l) /\ Forall (fun d => dp_tick d <= prev) l.

Lemma serial_snoc l prev t p : serial_ok l prev -> prev < t -> serial_ok (l ++ [mkDeferred t p]) t.
Proof.
  intros [H1 H2] Ht. split.
  - rewrite fmap_app. apply StronglySorted_app_2; [|done|by repeat constructor].
    intros z z' Hz Hz'. apply list_elem_of_fmap in Hz as (d & -> & Hd).
    apply list_elem_of_singleton in Hz' as ->. rewrite Forall_forall in H2. specialize (H2 d Hd). cbn. lia.
  - apply Forall_app. split; [eapply Forall_impl; [exact H2|cbn; lia]|by repeat constructor; cbn].
Qed.

Lemma depart_later now p prev b b' t pr : negb (serialization_enable b =? 0) = true ->
  0 <= prev < 2 ^ 64 - 1 -> depart now p prev b = Ok (b', t, pr) -> prev < t /\ pr = t.
Proof.
  intros Hs Hp. unfold depart. intros H. res_inv.
  change (serialization_enable (b <| clk := _ |>)) with (serialization_enable b) in H. rewrite Hs in H.
  res_inv. case_if_in H; res_inv. split; [|done].
  case_if; bool_prop; [|done]. rewrite u64_small; lia.
Qed.

(** Over a serial link, whatever the sizes of the packets, an accepted request
    or response may leave only after every packet accepted before it. *)
Theorem serial_order (now : Z) (p : Packet) (b : Bridge) :
  serialization_enable b <> 0 ->
  0 <= req_prev_serial_tick b < 2 ^ 64 - 1 -> 0 <= rsp_prev_serial_tick b < 2 ^ 64 - 1 ->
  serial_ok (reqList b) (req_prev_serial_tick b) -> serial_ok (respList b) (rsp_prev_serial_tick b) ->
  (forall b', accept_request now p b = Ok b' -> serial_ok (reqList b') (req_prev_serial_tick b')) /\
  (forall b', recvTimingResp now p b = Ok b' -> serial_ok (respList b') (rsp_prev_serial_tick b')).
Proof.
  intros Hs P1 P2 S1 S2.
  assert (Hs' : negb (serialization_enable b =? 0) = true) by (by apply negb_true_iff, Z.eqb_neq).
  split; intros b' H.
  - unfold accept_request, schedTimingReq in H. res_inv.
    match goal with D : depart _ _ _ _ = Ok _ |- _ =>
      destruct (depart_later _ _ _ _ _ _ _ Hs' P1 D) as [Hl ->]; apply depart_clk in D as [c ->] end.
    cbn [reqList req_prev_serial_tick field_upd]. by eapply serial_snoc.
  - unfold recvTimingResp in H. res_inv.
    match goal with D : depart _ _ _ _ = Ok _ |- _ =>
      destruct (depart_later _ _ _ _ _ _ _ Hs' P2 D) as [Hl ->]; apply depart_clk in D as [c ->] end.
    apply schedTimingResp_spec in H as (s & ss & _ & _ & ev & -> & _).
    cbn [respList rsp_prev_serial_tick field_upd]. by eapply serial_snoc.
Qed.

(** ** Routing *)

(** A request that is accepted and will be answered carries its source in its
    sender states; the response with those states is queued for exactly that
    source, with the states the request came with. *)
Theorem bridge_roundtrip (now now' : Z) (p r : Packet) (b b' b'' : Bridge) :
  expects_response p = true -> accept_request now p b = Ok b' ->
  exists q, (exists t, reqList b' = reqList b ++ [mkDeferred t q]) /\
    (senderState r = senderState q -> recvTimingResp now' r b' = Ok b'' ->
     exists t r', respList b'' = respList b ++ [mkDeferred t r'] /\
       dest r' = src p /\ senderState r' = senderState p).
Proof.
  intros Ex H. unfold expects_response in Ex. apply andb_prop in Ex as [Ex1 Ex2].
  unfold accept_request, schedTimingReq in H. res_inv.
  match goal with D : depart _ _ _ _ = Ok _ |- _ => apply depart_clk in D as [c ->] end.
  match goal with E : (if negb (memInhibitAsserted ?z) && needsResponse ?z then _ else _) = Ok _ |- _ =>
    change (memInhibitAsserted z) with (memInhibitAsserted p) in E;
    change (needsResponse z) with (needsResponse p) in E; rewrite Ex1, Ex2 in E; cbn [andb] in E end.
  unfold getSrc in *. res_inv. eexists. split; [eexists; reflexivity|]. intros Es H2.
  unfold recvTimingResp in H2. res_inv.
  match goal with D : depart _ _ _ _ = Ok _ |- _ => apply depart_clk in D as [c' ->] end.
  apply schedTimingResp_spec in H2 as (s & ss & E & _ & ev & -> & _).
  cbn [senderState field_upd] in E, Es. rewrite Es in E. cbn [senderState pushSenderState field_upd] in E.
  injection E as <- <-. eexists _, _. split; [reflexivity|]. done.
Qed.

(** ** Examples and witnesses *)
Definition ex_bridge : Bridge :=
  mkBridge (mkClock 0 0 1000) 2 1 16 [] [] 2 None 0 [] 0 false 1 None 0.
Definition ex_read : Packet := setSrc 5 (ex_pkt ReadReq).
Definition ex_state : BState := mkBState ex_bridge 0 false false 1500.

Lemma ex_state_inv : binv ex_state.
Proof. split; [split|]; cbn; done || lia. Qed.

(** One read through an empty bridge: its place is taken, and a second read
    is stalled for want of another. *)
Example bridge_accepts :
  exists b, recvTimingReq 1500 ex_read ex_bridge = Ok (b, true) /\ outstandingResponses b = 1 /\
    reqEvent b = Some 6000 /\
    exists b', recvTimingReq 1500 ex_read b = Ok (b', false) /\ stalled b' = true.
Proof.
  eexists. split; [vm_compute; reflexivity|]. do 2 (split; [reflexivity|]).
  eexists. split; vm_compute; reflexivity.
Qed.

Lemma bridge_reach_inv_witness :
  exists y, outstandingResponses (br y) = 1 /\ binv y.
Proof.
  destruct (recvTimingReq 1500 ex_read ex_bridge) as [[b ok]|] eqn:E; [|discriminate E].
  exists (mkBState b 0 false false 1500). split.
  - vm_compute in E. by injection E as <- _.
  - eapply (bridge_reach_inv ex_state); [exact ex_state_inv|].
    eapply breach_step; [apply breach_refl|]. exact (bs_request ex_state ex_read b ok E).
Defined.

Definition ex_queued : BState :=
  mkBState (ex_bridge <| reqList := [mkDeferred 1500 ex_read] |> <| reqEvent := Some 1500 |>
                      <| outstandingResponses := 1 |>) 0 false false 1500.

Lemma ex_queued_inv : binv ex_queued.
Proof.
  split; [split|]; try done; cbn; try lia. exists 1500. split; [done|lia].
Qed.

Lemma bridge_sends_witness :
  exists b, master_trySendTiming 1500 (fun _ => Ok (ex_read, true)) (fun b => Ok b)
              ((br ex_queued) <| reqEvent := None |>) = Ok b /\ reqList b = [].
Proof.
  destruct (bridge_sends ex_queued ex_read (mkClock 2000 2 1000) 2000 (fun b => Ok b)) as [H _].
  - exact ex_queued_inv.
  - reflexivity.
  - vm_compute. reflexivity.
  - cbn. lia.
  - destruct (H eq_refl) as (b & H1 & H2 & _). exists b. split; [exact H1|exact H2].
Defined.

Lemma serial_order_witness :
  exists b, accept_request 1500 ex_read ex_bridge = Ok b /\ serial_ok (reqList b) (req_prev_serial_tick b).
Proof.
  eexists. split; [vm_compute; reflexivity|].
  apply (proj1 (serial_order 1500 ex_read ex_bridge ltac:(done) ltac:(cbn; lia) ltac:(cbn; lia)
    ltac:(split; constructor) ltac:(split; constructor))). vm_compute. reflexivity.
Defined.

Lemma bridge_roundtrip_witness :
  exists b' q, accept_request 1500 ex_read ex_bridge = Ok b' /\ reqList b' = [mkDeferred 6000 q] /\
    exists b'' t r', recvTimingResp 9000 (q <| cmd := ReadResp |>) b' = Ok b'' /\
      respList b'' = [mkDeferred t r'] /\ dest r' = 5.
Proof.
  destruct (accept_request 1500 ex_read ex_bridge) as [b'|] eqn:E; [|discriminate E].
  pose proof E as E'. vm_compute in E'. injection E' as Eb.
  destruct (recvTimingResp 9000 ((pushSenderState (BridgeRequestState 5) ex_read) <| cmd := ReadResp |>) b')
    as [b''|] eqn:F; [|subst b'; discriminate F].
  destruct (bridge_roundtrip 1500 9000 ex_read
    ((pushSenderState (BridgeRequestState 5) ex_read) <| cmd := ReadResp |>) ex_bridge b' b'')
    as (q & (t & H1) & H2); [reflexivity|exact E|].
  exists b', (pushSenderState (BridgeRequestState 5) ex_read).
  split; [reflexivity|]. split; [by subst b'|].
  destruct H2 as (t' & r' & H3 & H4 & _); [|exact F|].
  - subst b'. cbn in H1. injection H1 as _ <-. reflexivity.
  - exists b'', t', r'. split; [exact F|]. split; [exact H3|exact H4].
Defined.
