(* ===== verification/RangeMap.v ===== *)
(** * Maps keyed by address ranges

    Models [base/addr_range_map.hh]: a [std::map] ordered by the start of the
    ranges, searched from the upper bound of a range backwards.  The tree is
    the list of its entries in order; an iterator is the entry it points to,
    and the end iterator is [None].  The theorems are on maps of plain ranges and
    the stripes of one interleaved range that overlap nowhere. *)

From S2P Require Import Prelude.
From S2P Require Import BitMath.
From S2P Require Import AddrRange.

Section Map.

Context {V : Type}.

Definition RangeMap := list (AR.AddrRange * V).

(** [tree.upper_bound(r)]: the entries before it, and from it on. *)
Fixpoint upper_bound (r : AR.AddrRange) (t : RangeMap) : RangeMap * RangeMap :=
  match t with
  | [] => ([], [])
  | e :: t' =>
      if AR.range_lt r (fst e) then ([], t)
      else let '(b, a) := upper_bound r t' in (e :: b, a)
  end.

(** The backward loop over the stripes of one interleaved range, from [cur]
    with the entries before it in reverse. *)
Fixpoint step_back (r orig : AR.AddrRange) (cur : AR.AddrRange * V) (back : RangeMap)
  : res (option (AR.AddrRange * V)) :=
  match back with
  | [] => x ← AR.intersects (fst cur) r; Ok (if x : bool then Some cur else None)
  | e :: back' =>
      if AR.mergesWith (fst cur) orig then
        x ← AR.intersects (fst e) r;
        if x : bool then Ok (Some e) else step_back r orig e back'
      else x ← AR.intersects (fst cur) r; Ok (if x : bool then Some cur else None)
  end.

Definition map_find (r : AR.AddrRange) (t : RangeMap) : res (option (AR.AddrRange * V)) :=
  match t with
  | [] => Ok None
  | _ =>
      let '(b, a) := upper_bound r t in
      match rev b with
      | [] =>
          e ← deref (head a);
          x ← AR.intersects (fst e) r; Ok (if x : bool then Some e else None)
      | e :: back =>
          x ← AR.intersects (fst e) r;
          if x : bool then Ok (Some e)
          else if AR.interleaved (fst e) then step_back r (fst e) e back
          else Ok None
      end
  end.

Definition map_find_addr (a : Z) (t : RangeMap) : res (option (AR.AddrRange * V)) :=
  map_find (AR.RangeSize a 1) t.

Definition map_intersect (r : AR.AddrRange) (t : RangeMap) : res bool :=
  o ← map_find r t; Ok (bool_decide (is_Some o)).

(** [tree.insert]: nothing changes when an equivalent key is there. *)
Fixpoint tree_insert (r : AR.AddrRange) (d : V) (t : RangeMap) : RangeMap :=
  match t with
  | [] => [(r, d)]
  | e :: t' =>
      if AR.range_lt r (fst e) then (r, d) :: t
      else if AR.range_lt (fst e) r then e :: tree_insert r d t'
      else t
  end.

(** [insert]: [None] when the range is taken. *)
Definition map_insert (r : AR.AddrRange) (d : V) (t : RangeMap) : res (option RangeMap) :=
  x ← map_intersect r t;
  Ok (if x : bool then None else Some (tree_insert r d t)).

(** [erase(p)], [erase(p, q)] and [clear()], an iterator being its position; to
    erase at the end, or a range whose end is before its start, is undefined. *)
Definition map_erase (p : nat) (t : RangeMap) : res RangeMap :=
  _ ← deref (t !! p); Ok (delete p t).
Definition map_erase_range (p q : nat) (t : RangeMap) : res RangeMap :=
  if (p <=? q)%nat && (q <=? length t)%nat then Ok (take p t ++ drop q t) else undefined.
Definition map_clear (t : RangeMap) : res RangeMap := map_erase_range 0 (length t) t.
Definition map_size (t : RangeMap) : nat := length t.
Definition map_empty (t : RangeMap) : bool := match t with [] => true | _ => false end.

(** ** Plain ranges *)
Record plain (r : AR.AddrRange) : Prop := {
  pl_bits : AR.intlvBits r = 0;
  pl_match : AR.intlvMatch r = 0;
  pl_valid : AR._start r <= AR._end r
}.

Definition before (e e' : AR.AddrRange * V) : Prop := AR._end (fst e) < AR._start (fst e').

Definition map_ok (t : RangeMap) : Prop :=
  Forall (fun e => plain (fst e)) t /\ StronglySorted before t.

Definition covers_addr (a : Z) (e : AR.AddrRange * V) : bool := AR.contains (fst e) a.

Lemma plain_contains r a : plain r -> AR.contains r a = (AR._start r <=? a) && (a <=? AR._end r).
Proof. intros [H _ _]. apply AR.contains_not_interleaved. by apply AR.interleaved_false. Qed.

Lemma plain_intersects r q : plain r ->
  AR.intersects r q = Ok ((AR._start r <=? AR._end q) && (AR._start q <=? AR._end r)).
Proof.
  intros [H _ _]. unfold AR.intersects. apply AR.interleaved_false in H. by rewrite H.
Qed.

Lemma range_lt_iff r q : AR.range_lt r q = true <->
  AR._start r < AR._start q \/ (AR._start r = AR._start q /\ AR.intlvMatch r < AR.intlvMatch q).
Proof. unfold AR.range_lt. destruct (Z.eqb_spec (AR._start r) (AR._start q)); cbn [negb]; rewrite Z.ltb_lt; lia. Qed.

Lemma range_lt_false r q : AR.range_lt r q = false <->
  AR._start q < AR._start r \/ (AR._start q = AR._start r /\ AR.intlvMatch q <= AR.intlvMatch r).
Proof. rewrite <- not_true_iff_false, range_lt_iff. lia. Qed.

Lemma find_none_forall {A} (f : A -> bool) l : Forall (fun x => f x = false) l -> List.find f l = None.
Proof. induction 1 as [|x l Hx _ IH]; cbn; [done|]. by rewrite Hx. Qed.

Lemma point_plain a : inw 64 a -> AR.RangeSize a 1 = AR.AddrRange2 a a.
Proof.
  unfold inw, AR.RangeSize. intros Ha. f_equal. unfold u64. rewrite wrap_sub_l.
  replace (a + 1 - 1) with a by lia. by apply wrap_id.
Qed.

(** ** The search as a scan *)

(** What a search of every entry may find. *)
Definition scan_result (cov : AR.AddrRange * V -> bool) (l : RangeMap) (o : option (AR.AddrRange * V)) : Prop :=
  match o with Some e => e ∈ l /\ cov e = true | None => Forall (fun e => cov e = false) l end.

Lemma step_back_scan r orig cov back : forall cur, Forall (fun e => AR.intersects (fst e) r = Ok (cov e)) (cur :: back) ->
  cov cur = false ->
  (forall l1 x l2, cur :: back = l1 ++ x :: l2 -> AR.mergesWith (fst x) orig = false -> Forall (fun e => cov e = false) l2) ->
  exists o, step_back r orig cur back = Ok o /\ scan_result cov back o.
Proof.
  induction back as [|e back IH]; intros cur F Hc Hm; cbn [step_back]; inversion F as [|? ? Ic Fb]; subst; rewrite Ic, Hc; cbn [mbind res_bind].
  { exists None. split; [done|constructor]. }
  inversion Fb as [|? ? Ie _]; subst. destruct (AR.mergesWith (fst cur) orig) eqn:Em.
  2: { exists None. split; [done|]. by apply (Hm [] cur). }
  rewrite Ie. cbn [mbind res_bind]. destruct (cov e) eqn:Ee.
  { exists (Some e). split; [done|]. split; [by left|done]. }
  destruct (IH e Fb Ee) as (o & -> & S); [intros l1 x l2 El; by apply (Hm (cur :: l1) x l2); cbn; rewrite El|].
  exists o. split; [done|]. destruct o; cbn in *; [split; [right; apply S|apply S]|by constructor].
Qed.

(** The search is right when the entries from the upper bound on, and those
    before one that is not interleaved, are not searched for, and the interleaved
    ones are stripes of one range. *)
Lemma map_find_scan r t b a cov : upper_bound r t = (b, a) -> t = b ++ a ->
  Forall (fun e => AR.intersects (fst e) r = Ok (cov e)) t -> Forall (fun e => cov e = false) a ->
  (forall l1 x l2, b = l1 ++ x :: l2 -> AR.interleaved (fst x) = false -> Forall (fun e => cov e = false) l1) ->
  (forall x y, x ∈ t -> y ∈ t -> AR.interleaved (fst x) = true -> AR.interleaved (fst y) = true -> AR.mergesWith (fst x) (fst y) = true) ->
  exists o, map_find r t = Ok o /\ scan_result cov t o.
Proof.
  intros E Et F Na Nb Hm. unfold map_find. destruct t as [|e0 t0]; [exists None; split; [done|constructor]|].
  rewrite E. set (t := e0 :: t0) in *. destruct (rev b) as [|e back] eqn:Er.
  - assert (b = []) as -> by (destruct b as [|x b]; [done|]; cbn in Er; by destruct (rev b)).
    cbn in Et. subst a. inversion F as [|? ? I0 _]; subst. inversion Na as [|? ? C0 _]; subst.
    cbn [head deref mbind res_bind t]. rewrite I0, C0. cbn [mbind res_bind]. by exists None.
  - assert (Eb : b = rev back ++ [e]) by (rewrite <- (rev_involutive b), Er; done).
    assert (Fb : Forall (fun e => AR.intersects (fst e) r = Ok (cov e)) (e :: back)).
    { rewrite <- Er. apply Forall_rev. rewrite Et in F. by apply Forall_app in F as [F _]. }
    assert (In : forall x, x ∈ e :: back -> x ∈ t).
    { intros x Hx. rewrite <- Er, list_elem_of_In, <- in_rev, <- list_elem_of_In in Hx. rewrite Et. apply elem_of_app. by left. }
    assert (Hres : forall o, scan_result cov back o -> cov e = false -> scan_result cov t o).
    { intros [x|]; cbn; intros H He.
      - split; [|apply H]. apply In. right. apply H.
      - rewrite Et, Eb. apply Forall_app. split; [|done]. apply Forall_app. split; [by apply Forall_rev|by repeat constructor]. }
    inversion Fb as [|? ? Ie _]; subst x l. rewrite Ie. cbn [mbind res_bind]. destruct (cov e) eqn:Ee.
    { exists (Some e). split; [done|]. split; [apply In; left|done]. }
    destruct (AR.interleaved (fst e)) eqn:Ei.
    2: { exists None. split; [done|]. apply (Hres None); [|done]. rewrite <- (rev_involutive back). apply Forall_rev.
         by eapply Nb. }
    destruct (step_back_scan r (fst e) cov back e Fb Ee) as (o & -> & S); [|exists o; split; [done|by apply Hres]].
    intros l1 x l2 El Ex. destruct (AR.interleaved (fst x)) eqn:Ex'.
    { rewrite (Hm x e) in Ex; [done|..]; try done; apply In; [rewrite El; apply elem_of_app; right; by left|by left]. }
    rewrite <- (rev_involutive l2). apply Forall_rev. apply (Nb (rev l2) x (rev l1)); [|done].
    rewrite Eb. change (rev back ++ [e]) with (rev (e :: back)). rewrite El, rev_app_distr. cbn. by rewrite <- app_assoc.
Qed.

(** ** Maps of plain ranges and the stripes of one interleaved range *)
Section Striped.
Context (f : AR.AddrRange).

(** The interleaved range: it starts with its first stripe, and a stripe is more
    than one byte. *)
Record striping : Prop := {
  sp_wf : AR.wf f;
  sp_valid : AR._start f <= AR._end f;
  sp_bits : 1 <= AR.intlvBits f <= 8;
  sp_size : AR.size f <> 1;
  sp_start : AR.stripe_of f (AR._start f) = 0
}.

Definition stripe (k : Z) : AR.AddrRange := f <| AR.intlvMatch := k |>.
Definition is_stripe (r : AR.AddrRange) : Prop := exists k, 0 <= k < 2 ^ AR.intlvBits f /\ r = stripe k.
Definition ranged (r : AR.AddrRange) : Prop := plain r \/ is_stripe r.

(** Ranges without a common address, in the order of the map. *)
Definition ord (r q : AR.AddrRange) : Prop :=
  AR._end r < AR._start q \/ exists j k, r = stripe j /\ q = stripe k /\ j < k.
Definition disj (r q : AR.AddrRange) : Prop := ord r q \/ ord q r.

Definition striped_ok (t : RangeMap) : Prop :=
  Forall (fun e => ranged (fst e)) t /\ StronglySorted (fun e e' => ord (fst e) (fst e')) t.

Context (Hf : striping).

Lemma ranged_valid r : ranged r -> AR._start r <= AR._end r.
Proof. intros [[]|(k & _ & ->)]; [done|]. apply (sp_valid Hf). Qed.

Lemma plain_interleaved r : plain r -> AR.interleaved r = false.
Proof. intros [H _ _]. by apply AR.interleaved_false. Qed.

Lemma stripe_interleaved k : AR.interleaved (stripe k) = true.
Proof. unfold AR.interleaved. cbn. pose proof (sp_bits Hf). apply negb_true_iff, Z.eqb_neq. lia. Qed.

Lemma ranged_stripe r : ranged r -> AR.interleaved r = true -> is_stripe r.
Proof. intros [H|H] Hi; [|done]. apply plain_interleaved in H. congruence. Qed.

Lemma ranged_plain r : ranged r -> AR.interleaved r = false -> plain r.
Proof. intros [H|(k & _ & ->)] Hi; [done|]. by rewrite stripe_interleaved in Hi. Qed.

Lemma stripes_merge r q : is_stripe r -> is_stripe q -> AR.mergesWith r q = true.
Proof. intros (j & _ & ->) (k & _ & ->). unfold AR.mergesWith. cbn. by rewrite !Z.eqb_refl. Qed.

Lemma stripe_covers k a : 0 <= k < 2 ^ AR.intlvBits f ->
  AR.contains (stripe k) a = true <-> AR._start f <= a <= AR._end f /\ k = AR.stripe_of f a.
Proof.
  intros Hk. apply (AR.stripe_contains f (stripe k) k a (sp_wf Hf)); [|done|done].
  unfold AR.mergesWith. cbn. by rewrite !Z.eqb_refl.
Qed.

Lemma ord_lt r q : ranged r -> ranged q -> ord r q -> AR.range_lt r q = true.
Proof.
  intros Hr _ [H|(j & k & -> & -> & H)]; apply range_lt_iff; [|by right]. apply ranged_valid in Hr. lia.
Qed.

Lemma disj_lt r q : ranged r -> ranged q -> disj r q -> AR.range_lt r q = true -> ord r q.
Proof. intros Hr Hq [H|H] L; [done|]. apply ord_lt in H; [|done..]. rewrite range_lt_iff in *. lia. Qed.

Lemma disj_gt r q : ranged r -> ranged q -> disj r q -> AR.range_lt r q = false -> ord q r.
Proof. intros Hr Hq [H|H] L; [|done]. apply ord_lt in H; [|done..]. congruence. Qed.

Lemma disj_covers r q a : ranged r -> ranged q -> disj r q -> AR.contains r a = true -> AR.contains q a = false.
Proof.
  intros Hr Hq H Hc. apply not_true_is_false. intros Hd. assert (ord r q \/ ord q r) as H' by done. destruct H' as [[H1|H1]|[H1|H1]];
    try (apply AR.contains_bounds in Hc, Hd; lia); destruct H1 as (j & k & -> & -> & Hlt);
    (destruct Hr as [Hr|(j' & Hj & Er)]; [apply plain_interleaved in Hr; by rewrite stripe_interleaved in Hr|]);
    (destruct Hq as [Hq|(k' & Hk & Eq)]; [apply plain_interleaved in Hq; by rewrite stripe_interleaved in Hq|]);
    rewrite Er in Hc; rewrite Eq in Hd; apply stripe_covers in Hc as [_ Hc]; apply stripe_covers in Hd as [_ Hd]; try done;
    apply (f_equal AR.intlvMatch) in Er, Eq; cbn in Er, Eq; lia.
Qed.

(** Disjoint ranges do not intersect, and one address is in the ranges that contain it. *)
Lemma disj_intersects r q : ranged r -> ranged q -> disj r q -> AR.intersects r q = Ok false.
Proof.
  intros Hr Hq H. pose proof (ranged_valid r Hr). pose proof (ranged_valid q Hq).
  assert (plain r \/ plain q -> AR._end r < AR._start q \/ AR._end q < AR._start r) as Hd.
  { intros Hp. destruct H as [[H|(j & k & -> & -> & _)]|[H|(j & k & -> & -> & _)]]; [by left| |by right|];
      destruct Hp as [Hp|Hp]; apply plain_interleaved in Hp; by rewrite stripe_interleaved in Hp. }
  destruct Hr as [Hr|(j & Hj & ->)].
  { rewrite plain_intersects by done. f_equal. apply andb_false_iff. rewrite !Z.leb_gt. specialize (Hd (or_introl Hr)). lia. }
  unfold AR.intersects. rewrite stripe_interleaved. cbn [negb]. destruct Hq as [Hq|(k & Hk & ->)].
  - specialize (Hd (or_intror Hq)). rewrite (plain_interleaved q) by done. cbn [negb]. case_if; f_equal.
    + apply not_true_is_false. intros Hc%AR.contains_bounds. unfold AR.start in Hc. lia.
    + apply andb_false_iff. rewrite !Z.leb_gt. lia.
  - change (AR.size (stripe k)) with (AR.size f). rewrite (proj2 (Z.eqb_neq _ _) (sp_size Hf)), stripe_interleaved. cbn [negb].
    rewrite stripes_merge by (eexists; split; [|reflexivity]; done). f_equal. apply Z.eqb_neq. cbn. intros ->. cbn in *.
    destruct H as [[H|(i & l & E1 & E2 & H)]|[H|(i & l & E1 & E2 & H)]]; cbn in H; try lia;
      apply (f_equal AR.intlvMatch) in E1, E2; cbn in E1, E2; lia.
Qed.

Lemma point_intersects r a : ranged r -> AR.intersects r (AR.AddrRange2 a a) = Ok (AR.contains r a).
Proof.
  intros [H|(k & Hk & ->)]; [by rewrite plain_intersects, plain_contains|].
  unfold AR.intersects. rewrite stripe_interleaved. cbn [negb].
  assert (AR.size (AR.AddrRange2 a a) = 1) as ->; [|done]. unfold AR.size. cbn. by rewrite Z.sub_diag.
Qed.

Lemma striped_cons e t : striped_ok (e :: t) <-> ranged (fst e) /\ Forall (fun x => ord (fst e) (fst x)) t /\ striped_ok t.
Proof.
  split.
  - intros [Hp Ho]. inversion Hp; inversion Ho; subst. by split_and!.
  - intros (H1 & H2 & H3 & H4). split; by constructor.
Qed.

Lemma striped_elem t e : striped_ok t -> e ∈ t -> ranged (fst e).
Proof. intros [H _] He. rewrite Forall_forall in H. by apply H. Qed.

Lemma upper_bound_split r t : forall b a, striped_ok t -> upper_bound r t = (b, a) ->
  t = b ++ a /\ Forall (fun e => AR.range_lt r (fst e) = false) b /\ Forall (fun e => AR.range_lt r (fst e) = true) a.
Proof.
  induction t as [|e t IH]; intros b a Ht E; cbn [upper_bound] in E; [by injection E as <- <-|].
  apply striped_cons in Ht as (He & Ho & Ht). case_if_in E.
  - injection E as <- <-. split; [done|]. split; [constructor|]. constructor; [done|]. apply Forall_forall. intros x Hx.
    rewrite Forall_forall in Ho. specialize (Ho x Hx). apply ord_lt in Ho; [|done|by eapply striped_elem].
    rewrite range_lt_iff in *. lia.
  - destruct (upper_bound r t) as [b' a'] eqn:E'. injection E as <- <-.
    destruct (IH b' a' Ht eq_refl) as (-> & H1 & H2). split; [done|]. split; [by constructor|done].
Qed.

Lemma striped_merge t x y : striped_ok t -> x ∈ t -> y ∈ t -> AR.interleaved (fst x) = true -> AR.interleaved (fst y) = true ->
  AR.mergesWith (fst x) (fst y) = true.
Proof. intros Ht Hx Hy Ix Iy. apply stripes_merge; apply ranged_stripe; try done; by eapply striped_elem. Qed.

Lemma striped_mid t l1 x l2 : striped_ok t -> t = l1 ++ x :: l2 -> Forall (fun y => ord (fst y) (fst x)) l1.
Proof.
  intros [_ Hs] ->. apply Forall_forall. intros y Hy. apply (StronglySorted_app_1_elem_of _ _ _ y x Hs Hy). by constructor.
Qed.

(** At most one entry covers an address. *)
Lemma striped_unique a t e : striped_ok t -> e ∈ t -> covers_addr a e = true -> List.find (covers_addr a) t = Some e.
Proof.
  induction t as [|x t IH]; intros Ht He Hc; [by apply not_elem_of_nil in He|]. apply striped_cons in Ht as (Hx & Ho & Ht).
  cbn [List.find]. apply elem_of_cons in He as [->|He]; [by rewrite Hc|]. rewrite (IH Ht He Hc).
  destruct (covers_addr a x) eqn:Ex; [|done]. exfalso. rewrite Forall_forall in Ho.
  pose proof (disj_covers (fst x) (fst e) a Hx (striped_elem t e Ht He) (or_introl (Ho e He)) Ex) as H. unfold covers_addr in Hc. congruence.
Qed.

(** The search for an address finds what a search of every entry would find. *)
Lemma map_find_striped a t : striped_ok t -> inw 64 a -> map_find_addr a t = Ok (List.find (covers_addr a) t).
Proof.
  intros Ht Ha. unfold map_find_addr. rewrite point_plain by done. set (q := AR.AddrRange2 a a).
  destruct (upper_bound q t) as [b af] eqn:E. destruct (upper_bound_split q t b af Ht E) as (Et & Hb & Haf).
  destruct (map_find_scan q t b af (covers_addr a) E Et) as (o & -> & S).
  - apply Forall_forall. intros e He. apply point_intersects. by eapply striped_elem.
  - apply Forall_forall. intros e He. rewrite Forall_forall in Haf. specialize (Haf e He). apply range_lt_iff in Haf. cbn in Haf.
    apply not_true_is_false. unfold covers_addr. intros Hc. pose proof (AR.contains_bounds _ _ Hc) as Hcb.
    assert (e ∈ t) as Hin by (rewrite Et; apply elem_of_app; by right). destruct (striped_elem t e Ht Hin) as [[_ Hm _]|(k & Hk & Ee)]; [lia|].
    rewrite Ee in Hc, Hcb, Haf. apply stripe_covers in Hc as [_ Hc]; [|done]. cbn in Haf, Hcb. assert (a = AR._start f) as -> by lia.
    rewrite (sp_start Hf) in Hc. lia.
  - intros l1 x l2 El Hx. assert (x ∈ b) as Hin by (rewrite El; apply elem_of_app; right; by left).
    rewrite Forall_forall in Hb. pose proof (Hb x Hin) as Hlt. apply range_lt_false in Hlt. cbn in Hlt.
    pose proof (striped_mid t l1 x (l2 ++ af) Ht) as Ho. rewrite Et, El, <- app_assoc in Ho. specialize (Ho eq_refl).
    eapply Forall_impl; [exact Ho|]. intros y [Hy|(j & k & _ & Exk & _)].
    + apply not_true_is_false. intros Hc%AR.contains_bounds. lia.
    + rewrite Exk, stripe_interleaved in Hx. done.
  - intros x y. by apply striped_merge.
  - f_equal. destruct o as [e|]; cbn in S; symmetry; [by destruct S; apply striped_unique|by apply find_none_forall].
Qed.

(** The search for a range that is disjoint from all entries finds nothing. *)
Lemma map_find_disj r t : ranged r -> striped_ok t -> Forall (fun e => disj (fst e) r) t -> map_find r t = Ok None.
Proof.
  intros Hr Ht Hd. destruct (upper_bound r t) as [b a] eqn:E. destruct (upper_bound_split r t b a Ht E) as (Et & _).
  destruct (map_find_scan r t b a (fun _ => false) E Et) as (o & -> & S).
  - apply Forall_forall. intros e He. rewrite Forall_forall in Hd. apply disj_intersects; [by eapply striped_elem|done|by apply Hd].
  - by apply Forall_forall.
  - intros. by apply Forall_forall.
  - intros x y. by apply striped_merge.
  - destruct o as [e|]; [by destruct S|done].
Qed.

Lemma tree_insert_striped r d t : ranged r -> striped_ok t -> Forall (fun e => disj (fst e) r) t ->
  striped_ok (tree_insert r d t) /\ forall e, e ∈ tree_insert r d t <-> e = (r, d) \/ e ∈ t.
Proof.
  intros Hr. induction t as [|e t IH]; intros Ht Hd; cbn [tree_insert].
  { split; [apply striped_cons; split_and!; [done|constructor|done]|]. intros x. rewrite list_elem_of_singleton. pose proof (not_elem_of_nil x). tauto. }
  pose proof Ht as (He & Ho & Ht')%striped_cons. inversion Hd as [|? ? De Dt]; subst. case_if.
  - split; [|intros x; rewrite elem_of_cons; tauto]. apply striped_cons. split; [done|]. split; [|done].
    assert (ord r (fst e)) as Hre by (apply disj_lt; [done..|by destruct De; [right|left]|done]). constructor; [done|].
    rewrite Forall_forall in Ho, Dt. apply Forall_forall. intros x Hx. apply disj_lt; [done|by eapply striped_elem| |].
    + destruct (Dt x Hx); [by right|by left].
    + pose proof (ord_lt _ _ He (striped_elem t x Ht' Hx) (Ho x Hx)) as L1. apply range_lt_iff. apply range_lt_iff in L1, Hif. cbn [fst]. lia.
  - assert (ord (fst e) r) as Her by (apply disj_gt; [done..|by destruct De; [right|left]|done]).
    rewrite (ord_lt _ _ He Hr Her). destruct (IH Ht' Dt) as [K1 K2].
    split; [|intros x; rewrite !elem_of_cons, K2; tauto]. apply striped_cons. split; [done|]. split; [|done].
    apply Forall_forall. intros x [->|Hx]%K2; [done|]. rewrite Forall_forall in Ho. by apply Ho.
Qed.

End Striped.

(** ** Maps of plain ranges *)

(** A range with two stripes, for maps without any. *)
Definition no_stripes : AR.AddrRange := AR.mkAddrRange 0 63 4 1 0.
Lemma no_stripes_ok : striping no_stripes.
Proof. constructor; [unfold AR.wf, inw; cbn; lia|cbn; lia..|by vm_compute|by vm_compute]. Qed.

Lemma map_ok_striped t : map_ok t <-> striped_ok no_stripes t /\ Forall (fun e => plain (fst e)) t.
Proof.
  split.
  - intros [Hp Hs]. split; [|done]. split; [eapply Forall_impl; [exact Hp|]; by left|].
    clear Hp. induction Hs; constructor; [done|]. eapply Forall_impl; [eassumption|]. by left.
  - intros [[_ Hs] Hp]. split; [done|]. induction Hs as [|e t Hs IH Ho]; constructor; [by inversion Hp; auto|].
    inversion Hp as [|? ? Pe Pt]; subst. eapply Forall_impl; [exact Ho|]. intros x [H|(j & k & E & _)]; [done|].
    apply plain_interleaved in Pe. rewrite E, (stripe_interleaved _ no_stripes_ok) in Pe. done.
Qed.

(** The search through the tree finds exactly what a search of every entry
    would find. *)
Lemma map_find_linear (a : Z) (t : RangeMap) : map_ok t -> inw 64 a ->
  map_find_addr a t = Ok (List.find (covers_addr a) t).
Proof. intros [Ht _]%map_ok_striped Ha. by apply (map_find_striped _ no_stripes_ok). Qed.

(** At most one entry covers_addr an address. *)
Lemma find_unique a t e : map_ok t -> e ∈ t -> covers_addr a e = true -> List.find (covers_addr a) t = Some e.
Proof. intros [Ht _]%map_ok_striped. by apply (striped_unique _ no_stripes_ok). Qed.

(** In a well-formed map of plain ranges, the search from the upper bound
    backwards finds the entry whose range contains the address, and finds
    nothing exactly when there is none. *)
Theorem map_find_addr_spec (a : Z) (t : RangeMap) : map_ok t -> inw 64 a ->
  exists o, map_find_addr a t = Ok o /\
    match o with
    | Some e => e ∈ t /\ AR.contains (fst e) a = true
    | None => forall e, e ∈ t -> AR.contains (fst e) a = false
    end.
Proof.
  intros Ht Ha. rewrite map_find_linear by done. eexists. split; [reflexivity|].
  destruct (List.find (covers_addr a) t) as [e|] eqn:E.
  - apply find_some in E as [E1 E2]. split; [by apply list_elem_of_In|done].
  - intros e He. apply (List.find_none _ _ E). by apply list_elem_of_In.
Qed.

(** ** Insertion *)
Definition apart (r : AR.AddrRange) (t : RangeMap) : Prop :=
  Forall (fun e => AR._end (fst e) < AR._start r \/ AR._end r < AR._start (fst e)) t.

Lemma apart_disj r t : apart r t -> Forall (fun e => disj no_stripes (fst e) r) t.
Proof. intros H. eapply Forall_impl; [exact H|]. intros e [?|?]; [left; by left|right; by left]. Qed.

Lemma map_find_apart r t : plain r -> map_ok t -> apart r t -> map_find r t = Ok None.
Proof.
  intros Hr [Ht _]%map_ok_striped Ha. apply (map_find_disj _ no_stripes_ok); [by left|done|by apply apart_disj].
Qed.

Lemma tree_insert_spec r d t : plain r -> map_ok t -> apart r t ->
  map_ok (tree_insert r d t) /\
  (forall e, e ∈ tree_insert r d t <-> e = (r, d) \/ e ∈ t) /\
  forall a, List.find (covers_addr a) (tree_insert r d t) =
    if AR.contains r a then Some (r, d) else List.find (covers_addr a) t.
Proof.
  intros Hr Ht Ha. pose proof Ht as [Hs Hp]%map_ok_striped.
  destruct (tree_insert_striped _ no_stripes_ok r d t) as [K1 K2]; [by left|done|by apply apart_disj|].
  assert (map_ok (tree_insert r d t)) as K.
  { apply map_ok_striped. split; [done|]. apply Forall_forall. intros e [->|He]%K2; [done|]. rewrite Forall_forall in Hp. by apply Hp. }
  split; [done|]. split; [done|]. intros a. destruct (AR.contains r a) eqn:E.
  { apply find_unique; [done|apply K2; by left|done]. }
  destruct (List.find (covers_addr a) t) as [e|] eqn:Ef.
  - apply find_some in Ef as [E1%list_elem_of_In E2]. apply find_unique; [done|apply K2; by right|done].
  - apply find_none_forall, Forall_forall. intros e [->|He]%K2; [done|].
    apply (List.find_none _ _ Ef). by apply list_elem_of_In.
Qed.

(** Inserting a range that overlaps no range of the map succeeds, keeps the
    map well formed, and afterwards exactly the addresses of the new range
    are found at the new value. *)
Theorem map_insert_spec (r : AR.AddrRange) (d : V) (t : RangeMap) (a : Z) :
  plain r -> map_ok t -> apart r t -> inw 64 a ->
  exists t', map_insert r d t = Ok (Some t') /\ map_ok t' /\
    map_find_addr a t' = if AR.contains r a then Ok (Some (r, d)) else map_find_addr a t.
Proof.
  intros Hr Ht Ha Hi. unfold map_insert, map_intersect. rewrite map_find_apart by done.
  cbn [mbind res_bind]. rewrite bool_decide_false by (by intros []).
  destruct (tree_insert_spec r d t Hr Ht Ha) as (H1 & _ & H3).
  eexists. split; [reflexivity|]. split; [done|].
  rewrite !map_find_linear by done. rewrite H3. by case_if.
Qed.

(** ** Erasure *)
Lemma map_ok_cons e t : map_ok (e :: t) <-> plain (fst e) /\ Forall (before e) t /\ map_ok t.
Proof.
  split.
  - intros [Hp Ho]. inversion Hp; inversion Ho; subst. by split_and!.
  - intros (H1 & H2 & H3 & H4). split; by constructor.
Qed.

Lemma before_covers a e x : before e x -> covers_addr a e = true -> covers_addr a x = false.
Proof.
  unfold before, covers_addr. intros Hb He. apply not_true_is_false. intros Hx.
  apply AR.contains_bounds in He, Hx. lia.
Qed.

Lemma find_after a e t : Forall (before e) t -> covers_addr a e = true ->
  List.find (covers_addr a) t = None.
Proof.
  intros Hf Hc. induction Hf as [|x t Hx _ IH]; [done|]. cbn. by rewrite (before_covers a e x).
Qed.

Lemma delete_ok p t e : map_ok t -> t !! p = Some e -> map_ok (delete p t) /\
  forall a, List.find (covers_addr a) (delete p t) =
    if covers_addr a e then None else List.find (covers_addr a) t.
Proof.
  revert p. induction t as [|x t IH]; intros p Ht He; [done|].
  apply map_ok_cons in Ht as (Hx & Hb & Ht). destruct p as [|p]; cbn in He |- *.
  - injection He as ->. split; [done|]. intros a. case_if; [|done]. by eapply find_after.
  - destruct (IH p Ht He) as [Hok Hfind]. split.
    + apply map_ok_cons. split_and!; [done| |done]. by apply Forall_delete.
    + intros a. rewrite Hfind. destruct (covers_addr a x) eqn:Ecx; [|done].
      rewrite Forall_forall in Hb. by rewrite (before_covers a x e (Hb e (list_elem_of_lookup_2 _ _ _ He)) Ecx).
Qed.

Lemma erase_range_ok p q t : map_ok t -> (p <= q <= length t)%nat ->
  exists t', map_erase_range p q t = Ok t' /\ map_ok t' /\ map_size t' = (map_size t - (q - p))%nat.
Proof.
  intros [Hp Ho] Hle. unfold map_erase_range.
  rewrite (proj2 (Nat.leb_le p q)), (proj2 (Nat.leb_le q (length t))) by lia.
  eexists. split; [reflexivity|]. split; [split|].
  - apply Forall_app. split; [by apply Forall_take|by apply Forall_drop].
  - rewrite <- (take_drop p t) in Ho. apply StronglySorted_app in Ho as (H1 & H2 & H3).
    replace (drop q t) with (drop (q - p) (drop p t)) by (rewrite drop_drop; f_equal; lia).
    apply StronglySorted_app. split_and!.
    + intros x y Hx Hy. apply H1; [done|]. by apply (subseteq_drop (q - p) (drop p t)).
    + done.
    + rewrite <- (take_drop (q - p) (drop p t)) in H3. by apply StronglySorted_app in H3 as (_ & _ & ?).
  - unfold map_size. rewrite length_app, length_take, length_drop. lia.
Qed.

(** Erasing an entry keeps the map well formed; the addresses of its range lead
    nowhere and the others where they led before.  [clear] leaves nothing. *)
Theorem map_erase_spec (p : nat) (t : RangeMap) (e : AR.AddrRange * V) (a : Z) :
  map_ok t -> t !! p = Some e -> inw 64 a ->
  (exists t', map_erase p t = Ok t' /\ map_ok t' /\
     map_find_addr a t' = if AR.contains (fst e) a then Ok None else map_find_addr a t) /\
  map_clear t = Ok [].
Proof.
  intros Ht He Ha. split.
  - unfold map_erase. rewrite He. cbn [deref mbind res_bind]. eexists. split; [reflexivity|].
    destruct (delete_ok p t e Ht He) as [Hok Hf]. split; [done|].
    rewrite !map_find_linear, Hf by done. by destruct (covers_addr a e) eqn:E; unfold covers_addr in E; rewrite E.
  - unfold map_clear, map_erase_range. rewrite (proj2 (Nat.leb_le 0 (length t))), Nat.leb_refl by lia.
    cbn [andb]. by rewrite drop_all.
Qed.

End Map.

Arguments RangeMap : clear implicits.

(** A range that starts before an entry and reaches into it is inserted all
    the same: the search only looks at the entry before the upper bound.  The
    map then has two ranges for one address, and loses addresses of the range
    just inserted. *)
Theorem insert_misses_overlap :
  let t := [(AR.AddrRange2 5 6, 0); (AR.AddrRange2 20 25, 1)] in
  exists t', map_insert (AR.AddrRange2 10 30) 2 t = Ok (Some t') /\
    List.length (List.filter (covers_addr 22) t') = 2%nat /\
    map_find_addr 28 t' = Ok None /\ List.find (covers_addr 28) t' = Some (AR.AddrRange2 10 30, 2).
Proof. eexists. split; [vm_compute; reflexivity|]. vm_compute. auto. Qed.

Definition ex_map : RangeMap Z := [(AR.AddrRange2 0 63, 0); (AR.AddrRange2 128 191, 1)].
Lemma ex_map_ok : map_ok ex_map.
Proof. split; [by repeat constructor|]. repeat constructor; unfold before; cbn; lia. Qed.

Lemma map_find_addr_spec_witness :
  map_find_addr 130 ex_map = Ok (Some (AR.AddrRange2 128 191, 1)) /\
  AR.contains (AR.AddrRange2 128 191) 130 = true.
Proof.
  destruct (map_find_addr_spec 130 ex_map ex_map_ok) as (o & H1 & H2); [unfold inw; lia|].
  split; [reflexivity|]. vm_compute in H1. injection H1 as <-. exact (proj2 H2).
Defined.

Lemma map_insert_spec_witness :
  exists t', map_insert (AR.AddrRange2 64 127) 5 ex_map = Ok (Some t') /\
    map_find_addr 100 t' = Ok (Some (AR.AddrRange2 64 127, 5)).
Proof.
  destruct (map_insert_spec (AR.AddrRange2 64 127) 5 ex_map 100) as (t' & H1 & _ & H2).
  - by split.
  - exact ex_map_ok.
  - repeat constructor; cbn; lia.
  - unfold inw; lia.
  - exists t'. split; [exact H1|exact H2].
Defined.
