(* ===== verification/XBar.v ===== *)
(** * Crossbars

    Models [mem/xbar.cc] and [mem/xbar.hh] (layers, address decoding with its
    cache, packet timing), the timing handlers of [mem/noncoherent_xbar.cc],
    and [mem/load_distributor.cc], the crossbar that spreads requests over the
    serial links.

    A layer calls back into the source port when it retries it, and that port
    may present its packet again before the call returns: the call is a
    function on the layer.  Ports are identified by their number.  Packet
    statistics and logging are left out; the collection of address ranges is in
    XBarRanges.v. *)

From S2P Require Import Prelude.
From S2P Require Import BitMath.
From S2P Require Import Clock.
From S2P Require Import AddrRange.
From S2P Require Import RangeMap.
From S2P Require Import Packet.
From S2P Require Import AbstractMem.
From S2P Require Import Port.

(** ** Layers *)
Inductive LayerState := IDLE | BUSY | RETRY.

#[global] Instance LayerState_eq_dec : EqDecision LayerState.
Proof. solve_decision. Defined.

Record Layer := mkLayer {
  lstate : LayerState;
  waitingForLayer : list Z;
  waitingForPeer : option Z;
  releaseEvent : option Z;
  occupancy : Z;
  layer_drainManager : bool;
  layer_drainSignals : Z
}.

Definition is_state (s : LayerState) (l : Layer) : bool := bool_decide (lstate l = s).

Definition occupyLayer (now until : Z) (l : Layer) : res Layer :=
  _ ← assert_ (is_state BUSY l);
  _ ← assert_ (negb (until =? 0));
  ev ← schedule (releaseEvent l) now until;
  Ok (l <| releaseEvent := ev |> <| occupancy := occupancy l + (until - now) |>).

Definition tryTiming (src_port : Z) (l : Layer) : res (Layer * bool) :=
  if is_state BUSY l || bool_decide (waitingForPeer l <> None) then
    _ ← assert_ (negb (bool_decide (src_port ∈ waitingForLayer l)));
    Ok (l <| waitingForLayer := waitingForLayer l ++ [src_port] |>, false)
  else Ok (l <| lstate := BUSY |>, true).

Definition succeededTiming (now busy_time : Z) (l : Layer) : res Layer :=
  _ ← assert_ (is_state BUSY l);
  occupyLayer now busy_time l.

Definition failedTiming (now src_port busy_time : Z) (l : Layer) : res Layer :=
  _ ← assert_ (bool_decide (waitingForPeer l = None));
  let l := l <| waitingForPeer := Some src_port |> in
  _ ← assert_ (is_state BUSY l);
  occupyLayer now busy_time l.

(** [period] is the clock period of the crossbar. *)
Definition retryWaiting (now period : Z) (sendRetry : Z -> Layer -> res Layer) (l : Layer) : res Layer :=
  match waitingForLayer l with
  | [] => Err AssertFailed
  | retryingPort :: rest =>
      _ ← assert_ (is_state IDLE l);
      let l := l <| lstate := RETRY |> <| waitingForLayer := rest |> in
      l ← sendRetry retryingPort l;
      if is_state RETRY l then occupyLayer now (u64 (edge period now + period)) (l <| lstate := BUSY |>)
      else Ok l
  end.

(** The release event. *)
Definition releaseLayer (now period : Z) (sendRetry : Z -> Layer -> res Layer) (l : Layer) : res Layer :=
  _ ← assert_ (is_state BUSY l);
  _ ← assert_ (bool_decide (releaseEvent l = None));
  let l := l <| lstate := IDLE |> in
  if negb (bool_decide (waitingForLayer l = [])) then
    if bool_decide (waitingForPeer l = None) then retryWaiting now period sendRetry l else Ok l
  else if bool_decide (waitingForPeer l = None) && layer_drainManager l then
    Ok (l <| layer_drainSignals := layer_drainSignals l + 1 |> <| layer_drainManager := false |>)
  else Ok l.

Definition layer_recvRetry (now period : Z) (sendRetry : Z -> Layer -> res Layer) (l : Layer) : res Layer :=
  match waitingForPeer l with
  | None => Err AssertFailed
  | Some p =>
      let l := l <| waitingForLayer := p :: waitingForLayer l |> <| waitingForPeer := None |> in
      if is_state IDLE l then retryWaiting now period sendRetry l
      else _ ← assert_ (is_state BUSY l); Ok l
  end.

Definition layer_drain (l : Layer) : Layer * Z :=
  if negb (is_state IDLE l) then (l <| layer_drainManager := true |>, 1) else (l, 0).

(** ** The crossbar *)
Record XBar := mkXBar {
  x_period : Z;
  headerCycles : Z;
  width : Z;
  portMap : RangeMap Z;
  portCache : list (option (Z * AR.AddrRange));
  gotAllAddrRanges : bool;
  defaultPortID : Z;
  useDefaultRange : bool;
  defaultRange : AR.AddrRange;
  reqLayers : list Layer;
  respLayers : list Layer;
  gotAddrRanges : list bool;
  xbarRanges : list AR.AddrRange
}.

(** *** Address decoding *)
Fixpoint checkPortCache (a : Z) (c : list (option (Z * AR.AddrRange))) : Z :=
  match c with
  | [] => InvalidPortID
  | Some (id, r) :: c' => if AR.contains r a then id else checkPortCache a c'
  | None :: c' => checkPortCache a c'
  end.

(** The oldest of the three entries goes. *)
Definition updatePortCache (id : Z) (r : AR.AddrRange) (c : list (option (Z * AR.AddrRange)))
  : list (option (Z * AR.AddrRange)) :=
  Some (id, r) :: removelast c.

Definition clearPortCache : list (option (Z * AR.AddrRange)) := [None; None; None].

Definition findPort (a : Z) (x : XBar) : res (XBar * Z) :=
  _ ← assert_ (gotAllAddrRanges x);
  let dest_id := checkPortCache a (portCache x) in
  if negb (dest_id =? InvalidPortID) then Ok (x, dest_id)
  else
    i ← map_find_addr a (portMap x);
    match i with
    | Some (r, id) => Ok (x <| portCache := updatePortCache id r (portCache x) |>, id)
    | None =>
        if useDefaultRange x then
          if AR.contains (defaultRange x) a then Ok (x, defaultPortID x) else Err Fatal
        else if negb (defaultPortID x =? InvalidPortID) then Ok (x, defaultPortID x)
        else Err Fatal
    end.

(** *** Timing *)
Definition calcPacketTiming (now : Z) (pkt : Packet) (x : XBar) : res Packet :=
  let offset := u64 (edge (x_period x) now - now) in
  dataCycles ← (if hasData pkt then sz ← getSize pkt; divCeil sz (width x) else Ok 0);
  if negb (firstWordDelay pkt =? 0) || negb (lastWordDelay pkt =? 0) then panic
  else
    Ok (pkt <| firstWordDelay := u32 ((headerCycles x + 1) * x_period x + offset) |>
            <| lastWordDelay := u32 ((headerCycles x + dataCycles) * x_period x + offset) |>).

(** *** Requests and responses

    [down] and [up] are the peers of the ports packets leave through: the
    packet as the receiver leaves it, and whether it was accepted. *)
Definition upd_req (i : nat) (l : Layer) (x : XBar) : XBar :=
  x <| reqLayers := <[i := l]> (reqLayers x) |>.
Definition upd_resp (i : nat) (l : Layer) (x : XBar) : XBar :=
  x <| respLayers := <[i := l]> (respLayers x) |>.

(** A request for master port [mid]. *)
Definition forward_request (now : Z) (pkt : Packet) (sid mid : Z) (down : Packet -> res (Packet * bool))
    (x : XBar) : res (XBar * Packet * bool) :=
  let i := Z.to_nat mid in
  l ← deref (reqLayers x !! i);
  '(l, ok) ← tryTiming sid l;
  if negb ok then Ok (upd_req i l x, pkt, false)
  else
    let pkt := setSrc sid pkt in
    pkt ← calcPacketTiming now pkt x;
    let packetFinishTime := u64 (lastWordDelay pkt + now) in
    '(pkt, success) ← down pkt;
    if negb success then
      _ ← assert_ (negb (memInhibitAsserted pkt));
      let pkt := pkt <| firstWordDelay := 0 |> <| lastWordDelay := 0 |> in
      l ← failedTiming now sid (u64 (edge (x_period x) now + x_period x * headerCycles x)) l;
      Ok (upd_req i l x, pkt, false)
    else
      l ← succeededTiming now packetFinishTime l;
      Ok (upd_req i l x, pkt, true).

(** [NoncoherentXBar::recvTimingReq] *)
Definition recvTimingReq (now : Z) (pkt : Packet) (sid : Z) (down : Z -> Packet -> res (Packet * bool))
    (x : XBar) : res (XBar * Packet * bool) :=
  if isExpressSnoop pkt then Ok (x, pkt, true)
  else
    a ← getAddr pkt;
    '(x, mid) ← findPort a x;
    forward_request now pkt sid mid (down mid) x.

(** [NoncoherentXBar::recvTimingResp] *)
Definition recvTimingResp (now : Z) (pkt : Packet) (mid : Z) (up : Z -> Packet -> res (Packet * bool))
    (x : XBar) : res (XBar * Packet * bool) :=
  sid ← getDest pkt;
  let i := Z.to_nat sid in
  l ← deref (respLayers x !! i);
  '(l, ok) ← tryTiming mid l;
  if negb ok then Ok (upd_resp i l x, pkt, false)
  else
    pkt ← calcPacketTiming now pkt x;
    let packetFinishTime := u64 (lastWordDelay pkt + now) in
    '(pkt, success) ← up sid pkt;
    _ ← assert_ success;
    l ← succeededTiming now packetFinishTime l;
    Ok (upd_resp i l x, pkt, true).

(** [NoncoherentXBar::recvRetry] *)
Definition recvRetry (now mid : Z) (sendRetry : Z -> Layer -> res Layer) (x : XBar) : res XBar :=
  let i := Z.to_nat mid in
  l ← deref (reqLayers x !! i);
  l ← layer_recvRetry now (x_period x) sendRetry l;
  Ok (upd_req i l x).

(** ** The load distributor *)
Record LoadDistributor := mkLD {
  ld_xbar : XBar;
  N_MASTER_PORTS : Z;
  ROUND_ROBIN_COUNTER : Z
}.

Definition rotate_counter (d : LoadDistributor) : LoadDistributor * Z :=
  let current_value := ROUND_ROBIN_COUNTER d in
  let c := ROUND_ROBIN_COUNTER d + 1 in
  (d <| ROUND_ROBIN_COUNTER := if c =? N_MASTER_PORTS d then 0 else c |>, current_value).

Definition ld_recvTimingReq (now : Z) (pkt : Packet) (sid : Z) (down : Z -> Packet -> res (Packet * bool))
    (d : LoadDistributor) : res (LoadDistributor * Packet * bool) :=
  if isExpressSnoop pkt then Ok (d, pkt, true)
  else
    let '(d, mid) := rotate_counter d in
    '(x, pkt, ok) ← forward_request now pkt sid mid (down mid) (ld_xbar d);
    Ok (d <| ld_xbar := x |>, pkt, ok).

Section Accesses.

(** What each master port leads to. *)
Context {S : Type} (port : Z -> MemDevice S).

Definition recvAtomic (now : Z) (pkt : Packet) (x : XBar) (s : S) : res (XBar * S * Packet * Z) :=
  a ← getAddr pkt;
  '(x, mid) ← findPort a x;
  '(s, pkt, response_latency) ← sendAtomic (MemDevice := port mid) now pkt s;
  Ok (x, s, pkt <| lastWordDelay := u32 response_latency |>, response_latency).

Definition recvFunctional (pkt : Packet) (x : XBar) (s : S) : res (XBar * S * Packet) :=
  a ← getAddr pkt;
  '(x, dest_id) ← findPort a x;
  '(s, pkt) ← sendFunctional (MemDevice := port dest_id) pkt s;
  Ok (x, s, pkt).

End Accesses.

(** [NoncoherentXBar::drain]: the number of layers that will signal later. *)
Definition drain (x : XBar) : XBar * Z :=
  let f l := layer_drain l in
  (x <| reqLayers := fst ∘ f <$> reqLayers x |> <| respLayers := fst ∘ f <$> respLayers x |>,
   foldr Z.add 0 ((snd ∘ f <$> reqLayers x) ++ (snd ∘ f <$> respLayers x))).

(** ** A layer as a transition system *)

(** A source port presents a packet; [success] is the answer of the receiver,
    and [busy] the tick until which the layer is then occupied. *)
Definition present (now src busy : Z) (success : bool) (l : Layer) : res (Layer * bool) :=
  '(l, ok) ← tryTiming src l;
  if negb ok then Ok (l, false)
  else if success then l ← succeededTiming now busy l; Ok (l, true)
  else l ← failedTiming now src busy l; Ok (l, false).

(** The ports that have been refused and not yet retried; they keep quiet. *)
Definition waiting (l : Layer) : list Z :=
  match waitingForPeer l with Some p => [p] | None => [] end ++ waitingForLayer l.

Inductive layer_reenters (now : Z) : Layer -> Layer -> Prop :=
| lre_refl l : layer_reenters now l l
| lre_present src busy success l l1 ok l2 : src ∉ waiting l ->
    present now src busy success l = Ok (l1, ok) -> layer_reenters now l1 l2 -> layer_reenters now l l2.

Definition layer_peer (now : Z) (f : Z -> Layer -> res Layer) : Prop :=
  forall p l l', f p l = Ok l' -> layer_reenters now l l'.

Inductive layer_step (now period : Z) : Layer -> Layer -> Prop :=
| ls_present src busy success l l' ok : src ∉ waiting l ->
    present now src busy success l = Ok (l', ok) -> layer_step now period l l'
| ls_release f l l' : releaseEvent l = Some now -> layer_peer now f ->
    releaseLayer now period f (l <| releaseEvent := None |>) = Ok l' -> layer_step now period l l'
| ls_retry f l l' : layer_peer now f ->
    layer_recvRetry now period f l = Ok l' -> layer_step now period l l'
| ls_drain l : layer_step now period l (fst (layer_drain l)).

Inductive layer_reach (period : Z) : Layer -> Layer -> Prop :=
| lr_refl l : layer_reach period l l
| lr_step now l1 l2 l3 : layer_reach period l1 l2 -> layer_step now period l2 l3 -> layer_reach period l1 l3.

(** What holds also while a port is being retried. *)
Record mid_inv (l : Layer) : Prop := {
  mi_busy : lstate l = BUSY <-> releaseEvent l <> None;
  mi_retry : lstate l = RETRY -> waitingForPeer l = None;
  mi_nodup : NoDup (waiting l);
  mi_idle : lstate l = IDLE -> waitingForPeer l = None -> waitingForLayer l = []
}.

(** Between calls: busy exactly while the release event is pending; no port
    waits twice; and an idle layer whose peer owes no retry has nobody
    waiting, so no wake-up is lost. *)
Definition layer_inv (l : Layer) : Prop := mid_inv l /\ lstate l <> RETRY.

Lemma occupy_spec now until l l' : occupyLayer now until l = Ok l' ->
  lstate l = BUSY /\ lstate l' = BUSY /\ releaseEvent l' <> None /\
  waitingForLayer l' = waitingForLayer l /\ waitingForPeer l' = waitingForPeer l.
Proof.
  unfold occupyLayer, is_state, schedule. intros H. res_inv. bool_prop. done.
Qed.

Lemma present_inv now src busy success l l' ok : mid_inv l -> src ∉ waiting l ->
  present now src busy success l = Ok (l', ok) ->
  mid_inv l' /\ (lstate l' = BUSY \/ lstate l' = lstate l /\ lstate l <> RETRY).
Proof.
  intros [M1 M2 M3 M4] Hs H. unfold present, tryTiming in H.
  destruct (is_state BUSY l || bool_decide (waitingForPeer l <> None)) eqn:Hif.
  - cbn [mbind res_bind] in H. res_inv. cbn [mbind res_bind negb] in *. res_inv.
    assert (lstate l <> RETRY).
    { intros E. rewrite (M2 E) in Hif. unfold is_state in Hif. rewrite E in Hif. done. }
    split; [|by right]. split; try done.
    + unfold waiting in *. cbn. rewrite app_assoc. apply NoDup_app. split; [done|].
      split; [|by apply NoDup_singleton].
      intros x Hx ->%list_elem_of_singleton. by apply Hs.
    + cbn. intros E1 E2. unfold is_state in Hif. by rewrite E1, E2 in Hif.
  - cbn [mbind res_bind negb] in H. unfold is_state in Hif. apply orb_false_iff in Hif as [B1 B2]. bool_prop.
    assert (Hp : waitingForPeer l = None) by (by apply dec_stable).
    destruct success; res_inv.
    + unfold succeededTiming in *. res_inv.
      match goal with O : occupyLayer _ _ _ = Ok _ |- _ => apply occupy_spec in O as (_ & O2 & O3 & O4 & O5) end.
      cbn in O4, O5. split; [|by left]. split; try done; unfold waiting; rewrite ?O2, ?O4, ?O5; try done.
    + unfold failedTiming in *. res_inv.
      match goal with O : occupyLayer _ _ _ = Ok _ |- _ => apply occupy_spec in O as (_ & O2 & O3 & O4 & O5) end.
      cbn in O4, O5. split; [|by left]. split; try done; unfold waiting; rewrite ?O2, ?O4, ?O5; try done.
      unfold waiting in *. rewrite Hp in *. apply NoDup_cons. done.
Qed.

Lemma reenters_mid now l l' : layer_reenters now l l' -> mid_inv l -> mid_inv l'.
Proof.
  induction 1 as [|src busy success l l1 ok l2 Hs Hp _ IH]; [done|].
  intros M. apply IH. by destruct (present_inv _ _ _ _ _ _ _ M Hs Hp).
Qed.

Lemma retryWaiting_inv now period f l l' : layer_peer now f -> lstate l = IDLE -> releaseEvent l = None ->
  waitingForPeer l = None -> NoDup (waitingForLayer l) ->
  retryWaiting now period f l = Ok l' -> layer_inv l'.
Proof.
  intros Hf Hi Hr Hp Hn H. unfold retryWaiting in H. destruct (waitingForLayer l) as [|p rest] eqn:El; [done|].
  apply NoDup_cons in Hn as [Hn1 Hn2]. res_inv.
  match goal with E : f p ?x = Ok ?y |- _ => assert (M : mid_inv y) end.
  { eapply reenters_mid; [by eapply Hf|]. split; cbn; rewrite ?Hr; try done.
    unfold waiting. cbn. by rewrite Hp. }
  unfold is_state in H. case_if_in H; bool_prop.
  - apply occupy_spec in H as (_ & O2 & O3 & O4 & O5). cbn in O4, O5. destruct M as [M1 M2 M3 M4].
    split; [|by rewrite O2]. split; unfold waiting; rewrite ?O2, ?O4, ?O5; done.
  - res_inv. split; done.
Qed.

Lemma layer_step_inv now period l l' : layer_step now period l l' -> layer_inv l -> layer_inv l'.
Proof.
  intros H [[M1 M2 M3 M4] Hr]. destruct H as [src busy success l l' ok Hs H|f l l' He Hf H|f l l' Hf H|l].
  - destruct (present_inv now src busy success l l' ok) as (M & [E|[E ?]]); [by split|done|done|..];
      (split; [done|]; rewrite E; done).
  - unfold releaseLayer, is_state in H. res_inv. bool_prop.
    assert (Hn : NoDup (waitingForLayer l)) by (unfold waiting in M3; by apply NoDup_app in M3 as (_ & _ & ?)).
    case_if_in H; bool_prop.
    + case_if_in H; bool_prop; [by eapply retryWaiting_inv; [exact Hf|..|exact H]|]. res_inv. split; [|done]. by split; cbn.
    + cbn [waitingForLayer field_upd] in *.
      case_if_in H; res_inv; (split; [|done]); by split; cbn.
  - unfold layer_recvRetry in H. destruct (waitingForPeer l) as [p|] eqn:Ep; [|done].
    unfold waiting in M3. rewrite Ep in M3.
    unfold is_state in H. case_if_in H; bool_prop.
    + eapply retryWaiting_inv; [exact Hf|..|exact H]; try done.
      cbn. destruct (releaseEvent l) eqn:Er; [|done]. cbn in Hif.
      assert (lstate l = BUSY) by (by apply M1). congruence.
    + res_inv. bool_prop. split; [|done]. split; cbn; done.
  - unfold layer_drain, is_state. case_if; split; done.
Qed.

(** C20. In every reachable state of a layer, whatever the ports do when they are
    retried: it is busy exactly while its release event is pending, no port
    waits twice, and nobody waits at an idle layer unless the receiver owes
    a retry. *)
Theorem layer_reach_inv (period : Z) (l l' : Layer) :
  layer_inv l -> layer_reach period l l' -> layer_inv l'.
Proof.
  intros I H. induction H as [|now l1 l2 l3 _ IH Hs]; [done|]. eapply layer_step_inv; [exact Hs|]. by apply IH.
Qed.

(** ** Address decoding *)

(** The cache holds entries of the map; the map is well formed and leads to
    valid ports. *)
Record decode_ok (x : XBar) : Prop := {
  do_map : map_ok (portMap x);
  do_ids : Forall (fun e => snd e <> InvalidPortID) (portMap x);
  do_cache : Forall (fun o => match o with Some (id, r) => (r, id) ∈ portMap x | None => True end) (portCache x);
  do_got : gotAllAddrRanges x = true
}.

Lemma checkPortCache_spec a c m : Forall (fun e => snd e <> InvalidPortID) m ->
  Forall (fun o => match o with Some (id, r) => (r, id) ∈ m | None => True end) c ->
  checkPortCache a c <> InvalidPortID ->
  exists r, (r, checkPortCache a c) ∈ m /\ AR.contains r a = true.
Proof.
  intros Hm Hc. induction Hc as [|[[id r]|] c Ho _ IH]; cbn [checkPortCache]; [done| |done].
  case_if; [eauto|done].
Qed.

Lemma Forall_removelast {A} (P : A -> Prop) l : Forall P l -> Forall P (removelast l).
Proof. induction 1 as [|x l Hx Hl IH]; [constructor|]. cbn. destruct l; constructor; done. Qed.

(** With or without a hit in the cache, decoding an address gives the port of
    the range that contains it; otherwise the default port, or a fatal error
    when there is none for this address.  The cache stays coherent. *)
Theorem findPort_spec (a : Z) (x : XBar) : decode_ok x -> inw 64 a ->
  match List.find (covers_addr a) (portMap x) with
  | Some (r, id) => exists x', findPort a x = Ok (x', id) /\ decode_ok x' /\ portMap x' = portMap x
  | None =>
      findPort a x =
      if (if useDefaultRange x then AR.contains (defaultRange x) a
          else negb (defaultPortID x =? InvalidPortID))
      then Ok (x, defaultPortID x) else Err Fatal
  end.
Proof.
  intros [D1 D2 D3 D4] Ha. unfold findPort. rewrite D4. cbn [assert_ mbind res_bind].
  destruct (Z.eqb_spec (checkPortCache a (portCache x)) InvalidPortID) as [E|E]; cbn [negb].
  - rewrite map_find_linear by done. cbn [mbind res_bind].
    destruct (List.find (covers_addr a) (portMap x)) as [[r id]|] eqn:F; [|repeat case_if; done].
    eexists. split; [reflexivity|]. split; [|done].
    apply find_some in F as [F _]. apply list_elem_of_In in F.
    split; cbn; try done. constructor; [done|]. by apply Forall_removelast.
  - destruct (checkPortCache_spec a (portCache x) (portMap x) D2 D3 E) as (r & Hr & Hc).
    rewrite (find_unique a (portMap x) _ D1 Hr Hc). exists x. split; [done|]. split; [by split|done].
Qed.

(** ** Packet timing *)

(** The first word of a packet arrives on a clock edge, one cycle after its
    header; the last one as many edges later as the width needs. *)
Theorem packet_timing (now sz : Z) (pkt : Packet) (x : XBar) :
  getSize pkt = Ok sz -> firstWordDelay pkt = 0 -> lastWordDelay pkt = 0 ->
  0 < x_period x -> 0 <= now < 2 ^ 63 -> 0 <= headerCycles x -> 0 < width x < 2 ^ 32 -> 0 < sz < 2 ^ 32 ->
  (headerCycles x + sz + 2) * x_period x < 2 ^ 32 ->
  exists pkt' n, calcPacketTiming now pkt x = Ok pkt' /\
    now + firstWordDelay pkt' = edge (x_period x) now + (headerCycles x + 1) * x_period x /\
    now + lastWordDelay pkt' = edge (x_period x) now + (headerCycles x + n) * x_period x /\
    (if hasData pkt then sz <= n * width x < sz + width x else n = 0).
Proof.
  intros Hs H1 H2 Hp Hn Hh Hw Hz Hb. unfold calcPacketTiming.
  pose proof (edge_spec (x_period x) now Hp) as [He _].
  rewrite (u64_small (edge _ _ - now)) by nia. rewrite H1, H2. cbn [Z.eqb negb orb].
  assert (exists n, (if hasData pkt then sz ← getSize pkt; divCeil sz (width x) else Ok 0) = Ok n /\
    0 <= n <= sz /\ (if hasData pkt then sz <= n * width x < sz + width x else n = 0)) as (n & -> & Hn1 & Hn2).
  { destruct (hasData pkt); [|exists 0; split_and!; lia || done].
    rewrite Hs. cbn [mbind res_bind].
    destruct (divCeil_small sz (width x)) as (n & -> & K1 & K2); [lia..|]. exists n. split_and!; try done; nia. }
  cbn [mbind res_bind]. eexists _, n. split; [reflexivity|].
  cbn [firstWordDelay lastWordDelay field_upd]. unfold u32.
  rewrite !wrap_id by (unfold inw; nia). split_and!; [lia|lia|done].
Qed.

(** ** Round robin *)
Fixpoint rotations (k : nat) (d : LoadDistributor) : list Z :=
  match k with
  | O => []
  | Datatypes.S k => let '(d, v) := rotate_counter d in v :: rotations k d
  end.

(** The load distributor uses its links in turn: the requests go to ports
    [c], [c+1], ..., modulo the number of links. *)
Theorem rotate_round_robin (k : nat) (d : LoadDistributor) :
  0 <= ROUND_ROBIN_COUNTER d < N_MASTER_PORTS d ->
  rotations k d = (fun i => (ROUND_ROBIN_COUNTER d + Z.of_nat i) mod N_MASTER_PORTS d) <$> seq 0 k.
Proof.
  revert d. induction k as [|k IH]; intros d Hd; [done|].
  cbn [rotations rotate_counter]. cbv zeta. cbn [seq fmap list_fmap]. f_equal.
  { rewrite Z.add_0_r. symmetry. by apply Z.mod_small. }
  rewrite IH; cbn [ROUND_ROBIN_COUNTER N_MASTER_PORTS field_upd].
  - rewrite <- fmap_S_seq, <- list_fmap_compose. apply list_fmap_ext. intros i y _. cbn [compose].
    rewrite Nat2Z.inj_succ. destruct (Z.eqb_spec (ROUND_ROBIN_COUNTER d + 1) (N_MASTER_PORTS d)) as [E|E].
    + replace (ROUND_ROBIN_COUNTER d + Z.succ (Z.of_nat y)) with (0 + Z.of_nat y + 1 * N_MASTER_PORTS d) by lia.
      symmetry. apply Z.mod_add. lia.
    + f_equal. lia.
  - destruct (Z.eqb_spec (ROUND_ROBIN_COUNTER d + 1) (N_MASTER_PORTS d)); lia.
Qed.

(** ** Examples and witnesses *)
Definition ex_layer : Layer := mkLayer IDLE [] None None 0 false 0.
Definition ex_xbar : XBar :=
  mkXBar 1000 1 16 ex_map clearPortCache true InvalidPortID false (AR.AddrRange2 0 0) [ex_layer; ex_layer] [ex_layer]
    [true; true] [AR.AddrRange2 0 63; AR.AddrRange2 128 191].

Lemma ex_layer_inv : layer_inv ex_layer.
Proof. split; [split|]; try done. constructor. Qed.

Lemma layer_reach_inv_witness :
  exists l, layer_reach 1000 ex_layer l /\ layer_inv l /\ waitingForPeer l = Some 3.
Proof.
  destruct (present 500 3 2000 false ex_layer) as [[l ok]|] eqn:E; [|discriminate E].
  assert (R : layer_reach 1000 ex_layer l).
  { eapply lr_step; [apply lr_refl|]. eapply (ls_present 500 1000 3 2000 false); [|exact E].
    apply not_elem_of_nil. }
  exists l. split; [exact R|]. split; [exact (layer_reach_inv 1000 ex_layer l ex_layer_inv R)|].
  vm_compute in E. by injection E as <- _.
Defined.

Lemma findPort_spec_witness : exists x', findPort 130 ex_xbar = Ok (x', 1) /\ decode_ok x'.
Proof.
  assert (D : decode_ok ex_xbar) by (split; [exact ex_map_ok|by repeat constructor..|done]).
  destruct (findPort_spec 130 ex_xbar D) as (x' & H1 & H2 & _); [unfold inw; lia|].
  exists x'. split; [exact H1|exact H2].
Defined.

Lemma packet_timing_witness :
  exists p, calcPacketTiming 2500 (ex_pkt ReadResp) ex_xbar = Ok p /\ 2500 + firstWordDelay p = 5000.
Proof.
  destruct (packet_timing 2500 4 (ex_pkt ReadResp) ex_xbar) as (p & n & H1 & H2 & _).
  1-3: reflexivity.
  1-6: cbn; lia.
  exists p. split; [exact H1|exact H2].
Defined.

Lemma rotate_round_robin_witness : rotations 6 (mkLD ex_xbar 4 2) = [2; 3; 0; 1; 2; 3].
Proof. apply (rotate_round_robin 6 (mkLD ex_xbar 4 2)). cbn. lia. Defined.
