(* ===== verification/XBarRanges.v ===== *)
(** * Address ranges of a crossbar

    Models [BaseXBar::recvRangeChange] and [getAddrRanges] of [mem/xbar.cc], the
    constructor of [mem/noncoherent_xbar.cc], and the constructor and
    [recvRangeChange] of [mem/load_distributor.cc].  The ranges the device
    behind a port answers with are an argument.  A change also returns whether
    the masters of the crossbar are told; what they do with it is theirs.

    The theorems follow a crossbar from its construction to the report of its
    last port, in whatever order the ports report, with plain ranges, the stripes
    of one interleaved range and a default range, and compare the ranges it shows
    to its masters with those it can deliver to. *)

From S2P Require Import Prelude.
From S2P Require Import AddrRange.
From S2P Require Import RangeMap.
From S2P Require Import Packet.
From S2P Require Import XBar.

(** ** Operations *)

(** [v[id]] on a vector: out of range is undefined. *)
Definition vec_get (id : Z) (v : list bool) : res bool :=
  if id <? 0 then undefined else deref (v !! Z.to_nat id).
Definition vec_set (id : Z) (v : list bool) : res (list bool) :=
  _ ← vec_get id v; Ok (<[Z.to_nat id := true]> v).

(** The loop that takes the AND of the flags. *)
Fixpoint all_got (acc : bool) (v : list bool) : bool :=
  match v with
  | b :: v' => if acc then all_got (acc && b) v' else acc
  | [] => acc
  end.

(** The loop that erases the entries of one port. *)
Fixpoint erase_port (id : Z) (m : RangeMap Z) : RangeMap Z :=
  match m with
  | [] => []
  | e :: m' => if snd e =? id then erase_port id m' else e :: erase_port id m'
  end.

(** The loop that inserts the ranges of a port; on a conflict the port that has
    the range is looked up for the message. *)
Fixpoint insert_ranges (id : Z) (rs : list AR.AddrRange) (m : RangeMap Z) : res (RangeMap Z) :=
  match rs with
  | [] => Ok m
  | r :: rs' =>
      o ← map_insert r id m;
      match o with
      | Some m' => insert_ranges id rs' m'
      | None => c ← map_find r m; _ ← deref c; Err Fatal
      end
  end.

(** A range is shown unless it is part of the default range. *)
Definition keep_range (x : XBar) (r : AR.AddrRange) (out : list AR.AddrRange) : res (list AR.AddrRange) :=
  sub ← (if useDefaultRange x then AR.isSubset r (defaultRange x) else Ok false);
  Ok (if sub : bool then out else out ++ [r]).

(** The stripes collected so far become one range. *)
Definition flush_stripes (x : XBar) (intlv out : list AR.AddrRange) : res (list AR.AddrRange) :=
  r ← AR.AddrRange_merge intlv; keep_range x r out.

(** The loop over the map, with the stripes waiting to be merged. *)
Fixpoint aggregate (x : XBar) (m : RangeMap Z) (intlv out : list AR.AddrRange) : res (list AR.AddrRange) :=
  match m with
  | [] => match intlv with [] => Ok out | _ => flush_stripes x intlv out end
  | (r, _) :: m' =>
      if AR.interleaved r then
        match last intlv with
        | Some b =>
            if negb (AR.mergesWith b r) then
              out ← flush_stripes x intlv out; aggregate x m' [r] out
            else aggregate x m' (intlv ++ [r]) out
        | None => aggregate x m' [r] out
        end
      else out ← keep_range x r out; aggregate x m' intlv out
  end.

(** No range may overlap the default range without being part of it. *)
Fixpoint check_overlap (d : AR.AddrRange) (rs : list AR.AddrRange) : res unit :=
  match rs with
  | [] => Ok tt
  | r :: rs' =>
      i ← AR.intersects r d;
      bad ← (if i : bool then s ← AR.isSubset r d; Ok (negb s) else Ok false);
      if bad : bool then Err Fatal else check_overlap d rs'
  end.

Definition aggregate_ranges (x : XBar) : res (list AR.AddrRange) :=
  out ← (if useDefaultRange x then
           got ← vec_get (defaultPortID x) (gotAddrRanges x);
           if got : bool then Ok [defaultRange x] else Err Fatal
         else Ok []);
  rs ← aggregate x (portMap x) [] out;
  _ ← (if useDefaultRange x then check_overlap (defaultRange x) rs else Ok tt);
  Ok rs.

Definition recvRangeChange (rs : list AR.AddrRange) (id : Z) (x : XBar) : res (XBar * bool) :=
  got ← vec_set id (gotAddrRanges x);
  let x := x <| gotAddrRanges := got |> in
  let x := if gotAllAddrRanges x then x else x <| gotAllAddrRanges := all_got true got |> in
  x ← (if id =? defaultPortID x then
         if useDefaultRange x then
           match rs with [r] => Ok (x <| defaultRange := r |>) | _ => Err Fatal end
         else Ok x
       else
         g ← vec_get id (gotAddrRanges x);
         m ← insert_ranges id rs (if g : bool then erase_port id (portMap x) else portMap x);
         Ok (x <| portMap := m |>));
  '(x, told) ← (if gotAllAddrRanges x then
                  rgs ← aggregate_ranges x; Ok (x <| xbarRanges := rgs |>, true)
                else Ok (x, false));
  Ok (x <| portCache := clearPortCache |>, told).

Definition xbar_getAddrRanges (x : XBar) : res (list AR.AddrRange) :=
  _ ← assert_ (gotAllAddrRanges x); Ok (xbarRanges x).

(** ** Construction *)
Definition Layer_new : Layer := mkLayer IDLE [] None None 0 false 0.

(** [nm] master ports, [nd] default ports and [ns] slave ports are connected. *)
Definition NoncoherentXBar_new (nm nd ns : nat) (period header_cycles wd : Z) (use_default_range : bool) : XBar :=
  mkXBar period header_cycles wd [] clearPortCache false
    (match nd with O => InvalidPortID | _ => Z.of_nat nm end) use_default_range AR.AddrRange_default
    (replicate nm Layer_new ++ match nd with O => [] | _ => [Layer_new] end) (replicate ns Layer_new)
    (replicate (nd + nm) false) [].

Definition LoadDistributor_new (nm nd ns : nat) (period header_cycles wd : Z) (use_default_range : bool)
  : res LoadDistributor :=
  let x := NoncoherentXBar_new nm nd ns period header_cycles wd use_default_range in
  _ ← assert_ (Nat.eqb ns 1);
  Ok (mkLD x (Z.of_nat nm) 0).

(** All links of a load distributor have the same ranges: only those of the
    first are taken, and without waiting for the others. *)
Definition ld_recvRangeChange (rs : list AR.AddrRange) (id : Z) (d : LoadDistributor)
  : res (LoadDistributor * bool) :=
  if id =? 0 then
    let x := (ld_xbar d) <| gotAllAddrRanges := true |> in
    '(x, told) ← recvRangeChange rs id x;
    Ok (d <| ld_xbar := x |>, told)
  else
    got ← vec_set id (gotAddrRanges (ld_xbar d));
    let x := (ld_xbar d) <| gotAddrRanges := got |> in
    Ok (d <| ld_xbar := x |>, false).

(** ** What is shown of a map *)

Lemma vec_get_ok id v b : 0 <= id -> v !! Z.to_nat id = Some b -> vec_get id v = Ok b.
Proof. intros Hid Hv. unfold vec_get. rewrite (proj2 (Z.ltb_ge _ _)) by done. by rewrite Hv. Qed.

Lemma vec_set_ok id v b : 0 <= id -> v !! Z.to_nat id = Some b ->
  vec_set id v = Ok (<[Z.to_nat id := true]> v).
Proof. intros Hid Hv. unfold vec_set. by rewrite (vec_get_ok id v b). Qed.

Lemma all_got_forallb v : all_got true v = forallb Datatypes.id v.
Proof. induction v as [|[] v IH]; cbn; [done|done|]. by destruct v. Qed.

(** Intervals without a common address, and one inside another. *)
Definition apart2 (r q : AR.AddrRange) : Prop :=
  AR._end r < AR._start q \/ AR._end q < AR._start r.
Definition inside (r d : AR.AddrRange) : bool := (AR._start d <=? AR._start r) && (AR._end r <=? AR._end d).

(** A range is not shown when it is part of the default range; a stripe is shown as
    the whole interleaved range. *)
Definition kept (use : bool) (d r : AR.AddrRange) : bool := negb (use && inside r d).
Definition shown_as (r : AR.AddrRange) : AR.AddrRange :=
  if AR.interleaved r then AR.AddrRange2 (AR._start r) (AR._end r) else r.

Lemma shown_plain r : AR.interleaved (shown_as r) = false.
Proof. unfold shown_as. by destruct (AR.interleaved r) eqn:E. Qed.

Lemma shown_bounds r : AR._start (shown_as r) = AR._start r /\ AR._end (shown_as r) = AR._end r.
Proof. unfold shown_as. by destruct (AR.interleaved r). Qed.

Lemma kept_shown use d r : kept use d (shown_as r) = kept use d r.
Proof. unfold kept, inside. by destruct (shown_bounds r) as [-> ->]. Qed.

Lemma keep_range_ok x r out : AR.interleaved r = false ->
  keep_range x r out = Ok (out ++ List.filter (kept (useDefaultRange x) (defaultRange x)) [r]).
Proof.
  intros Hr. unfold keep_range, kept, AR.isSubset. rewrite Hr. destruct (useDefaultRange x); cbn [mbind res_bind]; [|done].
  fold (inside r (defaultRange x)). cbn. destruct (inside r (defaultRange x)); cbn; by rewrite ?app_nil_r.
Qed.

Lemma seqZ_increasing n : forall m, StronglySorted Z.lt (seqZ m (Z.of_nat n)).
Proof.
  induction n as [|n IH]; intros m; [constructor|]. rewrite seqZ_cons by lia.
  replace (Z.pred (Z.of_nat (S n))) with (Z.of_nat n) by lia. constructor; [apply IH|].
  apply Forall_seqZ. lia.
Qed.

Lemma elem_of_erase_port id m e : e ∈ erase_port id m <-> e ∈ m /\ snd e <> id.
Proof.
  induction m as [|e' m IH]; cbn [erase_port]; [set_solver|].
  destruct (Z.eqb_spec (snd e') id) as [E|E]; rewrite ?elem_of_cons, IH; [naive_solver|naive_solver].
Qed.

(** The ranges of a map. *)
Definition ranges_of (m : RangeMap Z) : list AR.AddrRange := map fst m.

Lemma elem_ranges r m : r ∈ ranges_of m <-> exists e, e ∈ m /\ r = fst e.
Proof. unfold ranges_of. rewrite list_elem_of_fmap. naive_solver. Qed.

Section Shown.
Context (f : AR.AddrRange) (Hf : striping f).
#[local] Abbreviation count := (2 ^ AR.intlvBits f).

Lemma count_range : 0 < count <= 256.
Proof. pose proof (sp_bits f Hf). split; [apply Z.pow_pos_nonneg; lia|]. change 256 with (2 ^ 8). apply Z.pow_le_mono_r; lia. Qed.

(** With one stripe there are all. *)
Definition complete (m : RangeMap Z) : Prop := forall e, e ∈ m -> AR.interleaved (fst e) = true ->
  forall k, 0 <= k < count -> exists id, (stripe f k, id) ∈ m.

Lemma matches_sorted (m : RangeMap Z) : striped_ok f m -> StronglySorted Z.lt (AR.intlvMatch <$> List.filter AR.interleaved (ranges_of m)).
Proof.
  induction m as [|e m IH]; intros Hm; [constructor|]. apply striped_cons in Hm as (He & Ho & Hm). cbn. destruct (AR.interleaved (fst e)) eqn:E; [|by apply IH].
  cbn. constructor; [by apply IH|]. apply Forall_fmap, Forall_forall. intros q [(e' & Hq & ->)%list_elem_of_In%elem_ranges Iq]%list_elem_of_In%filter_In.
  destruct (ranged_stripe f _ (striped_elem f m e' Hm Hq) Iq) as (k & _ & Ek). destruct (ranged_stripe f _ He E) as (j & _ & Ej).
  rewrite Forall_forall in Ho. specialize (Ho e' Hq). cbn. destruct Ho as [H|(j' & k' & -> & -> & H)]; [|done].
  rewrite Ek, Ej in H. cbn in H. pose proof (sp_valid f Hf). lia.
Qed.

Lemma all_stripes (m : RangeMap Z) e : striped_ok f m -> complete m -> e ∈ m -> AR.interleaved (fst e) = true ->
  List.filter AR.interleaved (ranges_of m) = stripe f <$> seqZ 0 count.
Proof.
  intros Hm Hc He Ie. set (ms := List.filter _ _).
  assert (forall q, q ∈ ms <-> exists e, e ∈ m /\ q = fst e /\ AR.interleaved q = true) as Hin.
  { intros q. unfold ms. rewrite list_elem_of_In, filter_In, <- list_elem_of_In, elem_ranges. naive_solver. }
  assert (ms = stripe f <$> (AR.intlvMatch <$> ms)) as ->.
  { rewrite <- list_fmap_compose. symmetry. etrans; [|apply list_fmap_id]. apply list_fmap_ext. intros i q Hq.
    apply list_elem_of_lookup_2, Hin in Hq as (e' & He' & -> & Iq).
    destruct (ranged_stripe f _ (striped_elem f m e' Hm He') Iq) as (k & _ & ->). done. }
  f_equal. apply (StronglySorted_unique_strong Z.lt); [lia|by apply matches_sorted| |].
  { rewrite <- (Z2Nat.id count) by (pose proof count_range; lia). apply seqZ_increasing. }
  apply NoDup_Permutation; [|apply NoDup_seqZ|].
  { assert (forall l, StronglySorted Z.lt l -> NoDup l) as Hnd; [|by apply Hnd, matches_sorted].
    induction 1 as [|y l _ IH Hy]; constructor; [|done]. intros Hl. rewrite Forall_forall in Hy. specialize (Hy y Hl). lia. }
  intros k. rewrite elem_of_seqZ, list_elem_of_fmap. split.
  - intros (q & -> & (e' & He' & -> & Iq)%Hin). destruct (ranged_stripe f _ (striped_elem f m e' Hm He') Iq) as (k & Hk & ->). cbn. lia.
  - intros Hk. exists (stripe f k). split; [done|]. apply Hin. destruct (Hc e He Ie k) as [id Hid]; [lia|].
    exists (stripe f k, id). split_and!; [done|done|]. by apply stripe_interleaved.
Qed.

Lemma merge_check_stripes this n : (forall k, AR.mergesWith this (stripe f k) = true) -> forall m, 0 <= m -> m + Z.of_nat n <= 256 ->
  AR.merge_check this (stripe f <$> seqZ m (Z.of_nat n)) (u8 m) = Ok tt.
Proof.
  intros Ht. induction n as [|n IH]; intros m Hm Hn; [done|]. rewrite seqZ_cons by lia. cbn [fmap list_fmap AR.merge_check].
  rewrite Ht. cbn [negb]. assert (u8 m = m) as E by (unfold u8; apply wrap_id; unfold inw; lia). rewrite E. cbn [AR.intlvMatch stripe field_upd].
  rewrite Z.eqb_refl. cbn [negb]. change (m + 1) with (Z.succ m).
  replace (Z.pred (Z.of_nat (S n))) with (Z.of_nat n) by lia. apply IH; lia.
Qed.

Lemma merge_stripes_ok : AR.AddrRange_merge (stripe f <$> seqZ 0 count) = Ok (AR.AddrRange2 (AR._start f) (AR._end f)).
Proof.
  pose proof count_range. pose proof (merge_check_stripes (f <| AR.intlvMatch := 0 |>) (Z.to_nat count)) as Hc.
  specialize (Hc ltac:(intros k; unfold AR.mergesWith; cbn; by rewrite !Z.eqb_refl) 0 ltac:(lia) ltac:(lia)).
  rewrite Z2Nat.id in Hc by lia. unfold AR.AddrRange_merge. destruct (stripe f <$> seqZ 0 count) as [|r l] eqn:E.
  { apply (f_equal length) in E. rewrite length_fmap, length_seqZ in E. cbn in E. lia. }
  assert (r = stripe f 0) as -> by (rewrite seqZ_cons in E by lia; cbn in E; by injection E).
  rewrite <- E, length_fmap, length_seqZ, Z.shiftl_1_l, u64_small, Z2Nat.id by (cbn; lia).
  cbn [AR.intlvBits stripe field_upd]. rewrite Z.eqb_refl. cbn [negb]. change (u8 0) with 0 in Hc.
  rewrite E in *. cbn [mbind res_bind]. 
  match goal with |- context [AR.merge_check ?t _ _] => change t with (f <| AR.intlvMatch := 0 |>) end. by rewrite Hc.
Qed.

(** What the loop over the map collects: the plain ranges as they come, and the
    stripes, which all belong to one range, for the end. *)
Lemma aggregate_loop x (m : RangeMap Z) : forall intlv out, striped_ok f m -> Forall (is_stripe f) intlv ->
  aggregate x m intlv out =
    let ss := intlv ++ List.filter AR.interleaved (ranges_of m) in
    let out := out ++ List.filter (kept (useDefaultRange x) (defaultRange x)) (List.filter (fun r => negb (AR.interleaved r)) (ranges_of m)) in
    match ss with [] => Ok out | _ => flush_stripes x ss out end.
Proof.
  induction m as [|[r i] m IH]; intros intlv out Hm Hi; cbn [aggregate].
  { cbn. rewrite !app_nil_r. by destruct intlv. }
  apply striped_cons in Hm as (Hr & _ & Hm). cbn [fst] in Hr. cbn [ranges_of map fst List.filter].
  change (map fst m) with (ranges_of m). destruct (AR.interleaved r) eqn:Er; cbn [negb].
  - pose proof (ranged_stripe f r Hr Er) as Sr. assert (aggregate x m (intlv ++ [r]) out = aggregate x ((r, i) :: m) intlv out) as Ea.
    { cbn [aggregate]. rewrite Er. destruct (last intlv) as [b|] eqn:El; [|by apply last_None in El as ->].
      apply last_Some_elem_of in El. rewrite Forall_forall in Hi. by rewrite (stripes_merge f b r (Hi b El) Sr). }
    cbn [aggregate] in Ea. rewrite Er in Ea. rewrite <- Ea, IH by first [done | apply Forall_app; split; [done|by constructor]].
    cbv zeta. by rewrite <- app_assoc.
  - rewrite keep_range_ok by done. cbn [mbind res_bind]. rewrite IH by done. cbv zeta. rewrite <- app_assoc, <- List.filter_app. done.
Qed.

Lemma aggregate_ok x m out : striped_ok f m -> complete m ->
  exists l, aggregate x m [] out = Ok (out ++ List.filter (kept (useDefaultRange x) (defaultRange x)) l) /\
    forall r, r ∈ l <-> exists e, e ∈ m /\ r = shown_as (fst e).
Proof.
  intros Hm Hc. rewrite aggregate_loop by (done || constructor). cbv zeta. cbn [app].
  set (ps := List.filter (fun r => negb (AR.interleaved r)) (ranges_of m)).
  assert (forall r, r ∈ ps <-> exists e, e ∈ m /\ r = fst e /\ AR.interleaved r = false) as Hps.
  { intros r. unfold ps. rewrite list_elem_of_In, filter_In, <- list_elem_of_In, elem_ranges, negb_true_iff. naive_solver. }
  destruct (List.filter AR.interleaved (ranges_of m)) as [|s ss] eqn:Es.
  - exists ps. split; [done|]. intros r. rewrite Hps. unfold shown_as. split.
    + intros (e & He & -> & Hi). exists e. by rewrite Hi.
    + intros (e & He & ->). assert (AR.interleaved (fst e) = false) as Hi; [|rewrite Hi; by exists e].
      apply not_true_is_false. intros Hi. assert (fst e ∈ List.filter AR.interleaved (ranges_of m)) as H; [|rewrite Es in H; by apply elem_of_nil in H].
      apply list_elem_of_In, filter_In. split; [|done]. apply list_elem_of_In, elem_ranges. by exists e.
  - assert (exists e, e ∈ m /\ AR.interleaved (fst e) = true) as (e & He & Ie).
    { assert (s ∈ s :: ss) as H by left. rewrite <- Es in H. apply list_elem_of_In, filter_In in H as [H Hi].
      apply list_elem_of_In, elem_ranges in H as (e & He & ->). by exists e. }
    rewrite <- Es, (all_stripes m e Hm Hc He Ie). unfold flush_stripes. rewrite merge_stripes_ok. cbn [mbind res_bind].
    rewrite keep_range_ok by done. rewrite <- app_assoc, <- List.filter_app. eexists. split; [done|].
    assert (forall e, e ∈ m -> AR.interleaved (fst e) = true -> shown_as (fst e) = AR.AddrRange2 (AR._start f) (AR._end f)) as Hw.
    { intros e' He' Ie'. unfold shown_as. rewrite Ie'. by destruct (ranged_stripe f _ (striped_elem f m e' Hm He') Ie') as (k & _ & ->). }
    intros r. rewrite elem_of_app, list_elem_of_singleton, Hps. split.
    + intros [(e' & He' & -> & Hi)| ->]; [exists e'; unfold shown_as; by rewrite Hi|]. exists e. by rewrite Hw.
    + intros (e' & He' & ->). destruct (AR.interleaved (fst e')) eqn:Ie'; [right; by apply Hw|].
      left. exists e'. unfold shown_as. by rewrite Ie'.
Qed.

Lemma check_overlap_ok d rs : AR.interleaved d = false ->
  (forall r, r ∈ rs -> AR.interleaved r = false /\ (inside r d = true \/ apart2 r d)) -> check_overlap d rs = Ok tt.
Proof.
  intros Hd. induction rs as [|r rs IH]; intros H; [done|]. cbn [check_overlap].
  destruct (H r) as [Hr Ho]; [by left|]. unfold AR.intersects, AR.isSubset. rewrite Hr. cbn [negb mbind res_bind].
  fold (inside r d). destruct (_ && _) eqn:E; cbn [mbind res_bind].
  - destruct Ho as [-> |Ho]; cbn [negb]; [apply IH; intros q Hq; apply H; by right|]. bool_prop. unfold apart2 in Ho. lia.
  - apply IH. intros q Hq. apply H. by right.
Qed.

(** What the masters are shown: the default range, and what is reported outside it. *)
Definition shows (use : bool) (d : AR.AddrRange) (m : RangeMap Z) (r : AR.AddrRange) : Prop :=
  (use = true /\ r = d) \/ exists e, e ∈ m /\ r = shown_as (fst e) /\ kept use d (fst e) = true.

Lemma aggregate_ranges_ok x : striped_ok f (portMap x) -> complete (portMap x) ->
  (useDefaultRange x = true -> vec_get (defaultPortID x) (gotAddrRanges x) = Ok true /\ AR.interleaved (defaultRange x) = false /\
     forall e, e ∈ portMap x -> inside (fst e) (defaultRange x) = true \/ apart2 (fst e) (defaultRange x)) ->
  exists rs, aggregate_ranges x = Ok rs /\ forall r, r ∈ rs <-> shows (useDefaultRange x) (defaultRange x) (portMap x) r.
Proof.
  intros Hm Hc Hd. unfold aggregate_ranges.
  destruct (aggregate_ok x (portMap x) (if useDefaultRange x then [defaultRange x] else []) Hm Hc) as (l & Ea & Hl).
  set (use := useDefaultRange x) in *. set (d := defaultRange x) in *.
  assert (forall r, r ∈ List.filter (kept use d) l <-> exists e, e ∈ portMap x /\ r = shown_as (fst e) /\ kept use d (fst e) = true) as Hf'.
  { intros r. rewrite list_elem_of_In, filter_In, <- list_elem_of_In, Hl. split.
    - intros [(e & He & ->) Hk]. rewrite kept_shown in Hk. by exists e.
    - intros (e & He & -> & Hk). split; [by exists e|]. by rewrite kept_shown. }
  assert (forall r, r ∈ (if use then [d] else []) ++ List.filter (kept use d) l <-> shows use d (portMap x) r) as Hs.
  { intros r. unfold shows. rewrite elem_of_app, Hf'. destruct use; [rewrite list_elem_of_singleton|rewrite elem_of_nil]; naive_solver. }
  destruct use.
  - destruct Hd as (Hg & Hi & Ho); [done|]. rewrite Hg. cbn [mbind res_bind]. rewrite Ea. cbn [mbind res_bind].
    rewrite check_overlap_ok; [eexists; split; [done|exact Hs]|done|]. intros r Hr%Hs. destruct Hr as [[_ ->]|(e & He & -> & _)].
    + split; [done|]. left. unfold inside. by rewrite !Z.leb_refl.
    + split; [apply shown_plain|]. unfold inside, apart2. destruct (shown_bounds (fst e)) as [-> ->]. by apply Ho.
  - cbn [mbind res_bind]. rewrite Ea. cbn [mbind res_bind]. eexists. split; [done|exact Hs].
Qed.

(** ** The map after a report *)

Lemma erase_port_ok id m : striped_ok f m -> striped_ok f (erase_port id m).
Proof.
  induction m as [|e m IH]; intros Hm; [done|]. apply striped_cons in Hm as (Hp & Hb & Hm).
  cbn [erase_port]. case_if; [by apply IH|]. apply striped_cons. split_and!; [done| |by apply IH].
  apply Forall_forall. intros e' [He' _]%elem_of_erase_port. rewrite Forall_forall in Hb. by apply Hb.
Qed.

(** Inserting ranges that are disjoint from each other and from the map succeeds. *)
Lemma insert_ranges_ok id rs : forall m, striped_ok f m -> Forall (ranged f) rs -> StronglySorted (disj f) rs ->
  (forall e r, e ∈ m -> r ∈ rs -> disj f (fst e) r) ->
  exists m', insert_ranges id rs m = Ok m' /\ striped_ok f m' /\
    forall e, e ∈ m' <-> e ∈ m \/ (fst e ∈ rs /\ snd e = id).
Proof.
  induction rs as [|r rs IH]; intros m Hm Hp Hs Ha; cbn [insert_ranges].
  { exists m. split; [done|]. split; [done|]. set_solver. }
  inversion Hp as [|? ? Pr Prs]; subst. inversion Hs as [|? ? Ss Fs]; subst.
  assert (Ha' : Forall (fun e => disj f (fst e) r) m) by (apply Forall_forall; intros e He; apply Ha; [done|by constructor]).
  unfold map_insert, map_intersect. rewrite (map_find_disj f Hf) by done.
  cbn [mbind res_bind]. rewrite bool_decide_false by (by intros []).
  destruct (tree_insert_striped f Hf r id m Pr Hm Ha') as (H1 & H2).
  destruct (IH (tree_insert r id m) H1 Prs Ss) as (m' & K1 & K2 & K3).
  { intros e q [->|He]%H2 Hq; [|by apply Ha; [|constructor]].
    rewrite Forall_forall in Fs. by apply Fs. }
  exists m'. split; [done|]. split; [done|]. intros [q i]. rewrite K3, H2, elem_of_cons. cbn. naive_solver.
Qed.

End Shown.

(** ** A crossbar from its construction to the report of its last port *)
Section Startup.
Context (f d : AR.AddrRange) (use : bool) (R : Z -> list AR.AddrRange) (nm nd : nat).
#[local] Abbreviation N := (Z.of_nat (nm + nd)).
#[local] Abbreviation default_id := (match nd with O => InvalidPortID | _ => Z.of_nat nm end).

(** Port [i] of the [nm] master ports reports the ranges [R i], and the default
    port, when its range is used, [d] alone.  No two ranges have an address in common;
    the interleaved ones are the stripes of [f], all of them if any (where there is
    none [f] is any range with stripes); and each range is inside the default range
    or outside it. *)
Record reports_ok : Prop := {
  ro_nd : (nd <= 1)%nat;
  ro_striping : striping f;
  ro_ranged : forall i, 0 <= i < Z.of_nat nm -> Forall (ranged f) (R i);
  ro_own : forall i, 0 <= i < Z.of_nat nm -> StronglySorted (disj f) (R i);
  ro_other : forall i j r q, 0 <= i < Z.of_nat nm -> 0 <= j < Z.of_nat nm -> i <> j ->
    r ∈ R i -> q ∈ R j -> disj f r q;
  ro_stripes : forall i r k, 0 <= i < Z.of_nat nm -> r ∈ R i -> AR.interleaved r = true -> 0 <= k < 2 ^ AR.intlvBits f ->
    exists j, 0 <= j < Z.of_nat nm /\ stripe f k ∈ R j;
  ro_default : use = true -> nd = 1%nat /\ R (Z.of_nat nm) = [d] /\ AR.interleaved d = false /\
    forall i r, 0 <= i < Z.of_nat nm -> r ∈ R i -> inside r d = true \/ apart2 r d
}.

Fixpoint startup (order : list Z) (x : XBar) : res (XBar * list bool) :=
  match order with
  | [] => Ok (x, [])
  | id :: order' =>
      '(x, t) ← recvRangeChange (R id) id x;
      '(x, ts) ← startup order' x;
      Ok (x, t :: ts)
  end.

Definition got_of (don : list Z) : list bool := (fun i => bool_decide (i ∈ don)) <$> seqZ 0 N.

(** The entries of the ports that have reported. *)
Definition entries (don : list Z) (m : RangeMap Z) : Prop :=
  forall e, e ∈ m <-> 0 <= snd e < Z.of_nat nm /\ snd e ∈ don /\ fst e ∈ R (snd e).

Record starting (don : list Z) (x : XBar) : Prop := {
  st_map : striped_ok f (portMap x);
  st_elems : entries don (portMap x);
  st_got : gotAddrRanges x = got_of don;
  st_all : gotAllAddrRanges x = forallb Datatypes.id (got_of don);
  st_def : useDefaultRange x = use;
  st_range : use = true -> Z.of_nat nm ∈ don -> defaultRange x = d;
  st_port : defaultPortID x = default_id;
  st_cache : portCache x = clearPortCache;
  st_shown : gotAllAddrRanges x = true -> forall r, r ∈ xbarRanges x <-> shows use d (portMap x) r
}.

Lemma got_of_set don id : 0 <= id < N -> <[Z.to_nat id := true]> (got_of don) = got_of (id :: don).
Proof.
  intros Hid. apply list_eq. intros k. unfold got_of.
  destruct (decide (k = Z.to_nat id)) as [->|Hk].
  - rewrite list_lookup_insert_eq by (rewrite length_fmap, length_seqZ; lia).
    rewrite list_lookup_fmap, lookup_seqZ_lt by lia.
    replace (0 + Z.of_nat (Z.to_nat id)) with id by lia. cbn. by rewrite bool_decide_true by constructor.
  - rewrite list_lookup_insert_ne by done. rewrite !list_lookup_fmap.
    destruct (seqZ 0 N !! k) as [j|] eqn:E; [|done]. cbn. f_equal. apply lookup_seqZ in E as [-> ?].
    apply bool_decide_ext. rewrite elem_of_cons. split; [by right|]. intros [?|?]; [lia|done].
Qed.

Lemma got_of_lookup don id : 0 <= id < N -> got_of don !! Z.to_nat id = Some (bool_decide (id ∈ don)).
Proof.
  intros Hid. unfold got_of. rewrite list_lookup_fmap, lookup_seqZ_lt by lia.
  by replace (0 + Z.of_nat (Z.to_nat id)) with id by lia.
Qed.

Lemma got_of_all don : forallb Datatypes.id (got_of don) = true <-> forall i, 0 <= i < N -> i ∈ don.
Proof.
  unfold got_of. rewrite forallb_forall. split.
  - intros H i Hi. apply (bool_decide_eq_true_1 (i ∈ don)). apply H. apply list_elem_of_In.
    apply list_elem_of_fmap. exists i. split; [done|]. apply elem_of_seqZ. lia.
  - intros H b Hb%list_elem_of_In. apply list_elem_of_fmap in Hb as (i & -> & Hi%elem_of_seqZ).
    apply bool_decide_eq_true_2, H. lia.
Qed.

(** The entries after a report: those of the other ports and the new ones. *)
Lemma report_map don id m : reports_ok -> 0 <= id < Z.of_nat nm -> id ∉ don -> striped_ok f m -> entries don m ->
  exists m', insert_ranges id (R id) (erase_port id m) = Ok m' /\ striped_ok f m' /\ entries (id :: don) m'.
Proof.
  intros Hr Hid Hnew Hm He.
  destruct (insert_ranges_ok f (ro_striping Hr) id (R id) (erase_port id m)) as (m' & H1 & H2 & H3).
  - by apply erase_port_ok.
  - by apply ro_ranged.
  - by apply ro_own.
  - intros e r [[Hi [_ Hf]]%He Hne]%elem_of_erase_port Hrr.
    by apply (ro_other Hr (snd e) id).
  - exists m'. split_and!; [done|done|]. intros e. rewrite H3, elem_of_erase_port, (He e), elem_of_cons.
    destruct (decide (snd e = id)) as [->|]; naive_solver.
Qed.

(** When all ports have reported, the ranges shown follow. *)
Lemma report_shown don x : reports_ok -> striped_ok f (portMap x) -> entries don (portMap x) -> gotAddrRanges x = got_of don ->
  useDefaultRange x = use -> defaultPortID x = default_id -> (use = true -> Z.of_nat nm ∈ don -> defaultRange x = d) ->
  (forall i, 0 <= i < N -> i ∈ don) ->
  exists rs, aggregate_ranges x = Ok rs /\ forall r, r ∈ rs <-> shows use d (portMap x) r.
Proof.
  intros Hr Hm He Hg Hu Hp Hd Hall.
  destruct (aggregate_ranges_ok f (ro_striping Hr) x Hm) as (rs & E & Hs).
  - intros e [Hi [_ Hin]]%He Ie k Hk. destruct (ro_stripes Hr _ _ k Hi Hin Ie Hk) as (j & Hj & Hk').
    exists j. apply He. cbn. split; [done|]. split; [apply Hall; lia|done].
  - rewrite Hu. intros Hu'. destruct (ro_default Hr Hu') as (En & _ & Hi & Ho). rewrite En in *. rewrite Hp, Hg.
    assert (Z.of_nat nm ∈ don) as Hin by (apply Hall; lia). rewrite (Hd Hu' Hin). split_and!; [|done|].
    + apply vec_get_ok; [lia|]. rewrite got_of_lookup by lia. by rewrite bool_decide_true.
    + intros e (Hi' & _ & Hin')%He. by apply (Ho (snd e)).
  - exists rs. split; [done|]. intros r. rewrite Hs, Hu. unfold shows. destruct use eqn:Eu; [|naive_solver].
    destruct (ro_default Hr Eu) as (En & _). rewrite (Hd eq_refl); [done|]. apply Hall. rewrite En. lia.
Qed.

(** One report. *)
Lemma startup_step don id x : reports_ok -> starting don x -> 0 <= id < N -> id ∉ don ->
  exists x', recvRangeChange (R id) id x = Ok (x', forallb Datatypes.id (got_of (id :: don))) /\
    starting (id :: don) x'.
Proof.
  intros Hr [S1 S2 S3 S4 S5 S5' S6 S7 S8] Hid Hnew. unfold recvRangeChange.
  rewrite S3, (vec_set_ok id _ _ (proj1 Hid) (got_of_lookup don id Hid)), got_of_set by done.
  cbn [mbind res_bind]. rewrite all_got_forallb.
  set (x1 := if gotAllAddrRanges _ then _ else _).
  assert (gotAllAddrRanges x1 = forallb Datatypes.id (got_of (id :: don))) as G1.
  { subst x1. cbn [gotAllAddrRanges field_upd]. destruct (gotAllAddrRanges x) eqn:E; cbn; [|done].
    symmetry in S4 |- *. rewrite got_of_all in S4 |- *. intros i Hi. constructor. by apply S4. }
  assert (gotAddrRanges x1 = got_of (id :: don) /\ portMap x1 = portMap x /\
    defaultPortID x1 = default_id /\ useDefaultRange x1 = use /\ defaultRange x1 = defaultRange x) as (G2 & G3 & G4 & G5 & G6).
  { subst x1. by destruct (gotAllAddrRanges _). }
  clearbody x1. rewrite G2, G3, G4, G5.
  assert (Hx : forall x2, striped_ok f (portMap x2) -> entries (id :: don) (portMap x2) ->
    gotAllAddrRanges x2 = gotAllAddrRanges x1 -> gotAddrRanges x2 = got_of (id :: don) -> defaultPortID x2 = default_id ->
    useDefaultRange x2 = use -> (use = true -> Z.of_nat nm ∈ id :: don -> defaultRange x2 = d) ->
    exists x', ('(x, told) ← (if gotAllAddrRanges x2 then
                  rgs ← aggregate_ranges x2; Ok (x2 <| xbarRanges := rgs |>, true)
                else Ok (x2, false));
      Ok (x <| portCache := clearPortCache |>, told)) = Ok (x', forallb Datatypes.id (got_of (id :: don))) /\
      starting (id :: don) x').
  { intros x2 M1 M2 M3 M4 M5 M6 M7. rewrite <- G1, M3. rewrite G1 in M3. destruct (gotAllAddrRanges x1) eqn:E; cbn [mbind res_bind].
    - symmetry in G1. destruct (report_shown (id :: don) x2) as (rs & -> & Hs); try done; [by apply got_of_all|].
      cbn [mbind res_bind]. eexists. split; [reflexivity|]. split; cbn; done.
    - eexists. split; [reflexivity|]. split; cbn; try done. rewrite M3. intros H. rewrite H in G1. done. }
  destruct (Z.eqb_spec id default_id) as [E|E].
  - assert (id = Z.of_nat nm) as -> by (destruct nd; [unfold InvalidPortID in E; lia|done]).
    assert (entries (Z.of_nat nm :: don) (portMap x)) as He.
    { intros e. rewrite (S2 e), elem_of_cons. naive_solver lia. }
    destruct use eqn:Eu.
    + destruct (ro_default Hr Eu) as (_ & -> & _). cbn [mbind res_bind]. apply Hx; cbn; (done || by rewrite ?G3).
    + cbn [mbind res_bind]. apply Hx; (done || by rewrite ?G3).
  - assert (0 <= id < Z.of_nat nm) by (pose proof (ro_nd Hr); destruct nd as [|[|]]; lia).
    rewrite (vec_get_ok id _ true) by (try lia; rewrite got_of_lookup by done; by rewrite bool_decide_true by constructor).
    cbn [mbind res_bind]. destruct (report_map don id (portMap x)) as (m & -> & M1 & M2); [done..|]. cbn [mbind res_bind].
    apply Hx; cbn; try done. intros Hu [Hn|Hn]%elem_of_cons; [lia|]. rewrite G6. by apply S5'.
Qed.

Lemma startup_ok order don x : reports_ok -> starting don x -> don ++ order ≡ₚ seqZ 0 N -> order <> [] ->
  exists x', startup order x = Ok (x', replicate (length order - 1) false ++ [true]) /\
    exists don', starting don' x' /\ forall i, i ∈ don' <-> 0 <= i < N.
Proof.
  intros Hr. revert don x. induction order as [|id order IH]; intros don x Hs Hp Hne; [done|].
  assert (Hnd : NoDup (don ++ id :: order)) by (rewrite Hp; apply NoDup_seqZ).
  assert (Hel : forall i, i ∈ don ++ id :: order <-> 0 <= i < N)
    by (intros i; rewrite Hp, elem_of_seqZ; lia).
  apply NoDup_app in Hnd as (Hnd & Hdis & [Hni Hno]%NoDup_cons).
  assert (Hnew : id ∉ don) by (intros H; apply (Hdis id H); by constructor).
  destruct (startup_step don id x Hr Hs) as (x1 & E1 & Hs1); [apply Hel; set_solver|done|].
  cbn [startup]. rewrite E1. cbn [mbind res_bind]. destruct order as [|id' order].
  - cbn [startup mbind res_bind]. exists x1. split.
    + rewrite (proj2 (got_of_all _)); [done|]. intros i Hi%Hel. set_solver.
    + exists (id :: don). split; [done|]. intros i. rewrite <- Hel. set_solver.
  - destruct (IH (id :: don) x1 Hs1) as (x2 & E2 & Hend).
    + rewrite <- Hp. apply Permutation_middle.
    + done.
    + rewrite E2. cbn [mbind res_bind]. exists x2. split; [|done].
      rewrite (not_true_is_false (forallb _ _)).
      * cbn [length Nat.sub]. rewrite Nat.sub_0_r. done.
      * rewrite got_of_all. intros Hall. assert (id' ∈ id :: don) as Hin by (apply Hall, Hel; set_solver).
        apply elem_of_cons in Hin as [->|Hin]; [by destruct Hni; constructor|].
        apply (Hdis id' Hin). set_solver.
Qed.

Lemma starting_new ns period h w : 0 < N -> starting [] (NoncoherentXBar_new nm nd ns period h w use).
Proof.
  intros HN. split; cbn; try done.
  - split; constructor.
  - intros e. set_solver.
  - unfold got_of. apply list_eq. intros k. rewrite list_lookup_fmap.
    destruct (decide (k < nd + nm)%nat) as [Hk|Hk].
    + rewrite lookup_replicate_2 by done. rewrite lookup_seqZ_lt by lia. done.
    + rewrite lookup_ge_None_2 by (rewrite length_replicate; lia). by rewrite lookup_seqZ_ge by lia.
  - symmetry. apply not_true_is_false. rewrite got_of_all. intros H. by apply (not_elem_of_nil 0), H.
  - intros _ H. by apply elem_of_nil in H.
Qed.

(** Where an address goes that nobody has reported. *)
Definition elsewhere (a : Z) (x : XBar) : res (XBar * Z) :=
  if use then if AR.contains d a then Ok (x, Z.of_nat nm) else Err Fatal
  else match nd with O => Err Fatal | _ => Ok (x, Z.of_nat nm) end.

(** A crossbar with all its reports decodes every address to the port that
    reported it. *)
Lemma started_findPort don x a : reports_ok -> starting don x -> (forall i, i ∈ don <-> 0 <= i < N) -> inw 64 a ->
  (forall i r, 0 <= i < Z.of_nat nm -> r ∈ R i -> AR.contains r a = true -> exists x', findPort a x = Ok (x', i)) /\
  ((forall i r, 0 <= i < Z.of_nat nm -> r ∈ R i -> AR.contains r a = false) -> findPort a x = elsewhere a x).
Proof.
  intros Hr [S1 S2 S3 S4 S5 S5' S6 S7 S8] Hdon Ha. unfold findPort, elsewhere.
  rewrite S4, (proj2 (got_of_all don)), S7 by (intros; by apply Hdon).
  cbn [assert_ mbind res_bind checkPortCache clearPortCache]. rewrite Z.eqb_refl. cbn [negb].
  rewrite (map_find_striped f (ro_striping Hr)), S5, S6 by done. cbn [mbind res_bind]. split.
  - intros i r Hi Hin Hc. rewrite (striped_unique f (ro_striping Hr) a (portMap x) (r, i) S1); [eauto| |done].
    apply S2. cbn. split; [done|]. split; [apply Hdon; lia|done].
  - intros Hno. rewrite find_none_forall.
    + destruct use eqn:Eu.
      * destruct (ro_default Hr Eu) as (En & _). rewrite S5' by (done || (apply Hdon; lia)). by rewrite En.
      * destruct nd; [done|]. unfold InvalidPortID. rewrite (proj2 (Z.eqb_neq _ _)) by lia. done.
    + apply Forall_forall. intros [r i] (Hi & _ & Hin)%S2. by apply (Hno i).
Qed.

End Startup.

(** C33. Let no two reported ranges have an address in common, let the interleaved
    ones be all stripes of one range that starts with its first stripe, and let
    each range lie inside the default range or outside it, when that is used.  Once
    every port has reported, in whatever order, the masters are told, with the
    last report and not before.  The crossbar shows them the default range and
    what was reported outside it, with the stripes merged, and nothing else.  It
    decodes an address to the port that reported it; an address nobody reported
    goes to the default port when it is in the default range, or when there is a
    default port whose range is not used, and is a fatal error else. *)
Theorem xbar_startup (f d : AR.AddrRange) (use : bool) (R : Z -> list AR.AddrRange) (nm nd ns : nat) (period h w : Z) (order : list Z) :
  reports_ok f d use R nm nd -> order <> [] -> order ≡ₚ seqZ 0 (Z.of_nat (nm + nd)) ->
  exists x, startup R order (NoncoherentXBar_new nm nd ns period h w use) =
      Ok (x, replicate (length order - 1) false ++ [true]) /\
    (exists shown, xbar_getAddrRanges x = Ok shown /\
      forall r, r ∈ shown <-> (use = true /\ r = d) \/
        exists i q, 0 <= i < Z.of_nat nm /\ q ∈ R i /\ r = shown_as q /\ (use && inside q d) = false) /\
    forall a, inw 64 a ->
      (forall i r, 0 <= i < Z.of_nat nm -> r ∈ R i -> AR.contains r a = true ->
        exists x', findPort a x = Ok (x', i)) /\
      ((forall i r, 0 <= i < Z.of_nat nm -> r ∈ R i -> AR.contains r a = false) ->
        findPort a x = elsewhere d use nm nd a x).
Proof.
  intros Hr Hne Hp.
  assert (0 < Z.of_nat (nm + nd)).
  { destruct order as [|i order]; [done|]. assert (i ∈ seqZ 0 (Z.of_nat (nm + nd))) as Hi%elem_of_seqZ
      by (rewrite <- Hp; constructor). lia. }
  destruct (startup_ok f d use R nm nd order [] _ Hr (starting_new f d use R nm nd ns period h w ltac:(done)) Hp Hne)
    as (x & E & don & Hs & Hdon).
  exists x. split; [done|]. split.
  - assert (gotAllAddrRanges x = true) as G by (rewrite (st_all _ _ _ _ _ _ _ _ Hs); apply got_of_all; intros; by apply Hdon).
    unfold xbar_getAddrRanges. rewrite G. eexists. split; [reflexivity|].
    intros r. rewrite (st_shown _ _ _ _ _ _ _ _ Hs G). unfold shows, kept.
    pose proof (st_elems _ _ _ _ _ _ _ _ Hs) as Hel. unfold entries in Hel. setoid_rewrite Hel.
    setoid_rewrite negb_true_iff. split; (intros [?|H']; [by left|right]).
    + destruct H' as ([q i] & (Hi & _ & Hq) & -> & Hk). by exists i, q.
    + destruct H' as (i & q & Hi & Hq & -> & Hk). exists (q, i). cbn. split_and!; try done; [lia..|]. apply Hdon. lia.
  - intros a Ha. by apply (started_findPort f d use R nm nd don).
Qed.

(** ** The ranges shown, with stripes and a default range *)
Section Cover.
Context (x : XBar) (a : Z).

Definition range_ok (r : AR.AddrRange) : Prop := AR.wf r /\ AR.intlvBits r <= 8.
Definition by_default : Prop := useDefaultRange x = true /\ AR.in_range (defaultRange x) a.
Definition covered (rs : list AR.AddrRange) : Prop := Exists (fun r => AR.in_range r a) rs.

Hypothesis default_plain : useDefaultRange x = true -> AR.interleaved (defaultRange x) = false.

Lemma covered_app rs rs' : covered (rs ++ rs') <-> covered rs \/ covered rs'.
Proof. apply Exists_app. Qed.
Lemma covered_cons r rs : covered (r :: rs) <-> AR.in_range r a \/ covered rs.
Proof. apply Exists_cons. Qed.
Lemma covered_nil : covered [] <-> False.
Proof. apply Exists_nil. Qed.

Lemma keep_range_covers r out out' : AR.interleaved r = false -> keep_range x r out = Ok out' ->
  (by_default \/ covered out') <-> (by_default \/ covered out \/ AR.in_range r a).
Proof.
  intros Hr H. unfold keep_range in H. res_inv.
  assert (Hadd : covered (out ++ [r]) <-> covered out \/ AR.in_range r a)
    by (rewrite covered_app, covered_cons, covered_nil; tauto).
  destruct a0; [|rewrite Hadd; done].
  destruct (useDefaultRange x) eqn:Ed; [|discriminate Hm]. unfold AR.isSubset in Hm. rewrite Hr in Hm. res_inv.
  assert (AR.in_range r a -> by_default); [|tauto]. intros Hin. split; [done|].
  symmetry in Hm. bool_prop. apply AR.contains_bounds in Hin. unfold AR.in_range.
  rewrite AR.contains_not_interleaved by auto. rewrite andb_true_iff, !Z.leb_le. lia.
Qed.

Lemma flush_covers intlv out out' : intlv <> [] -> Forall range_ok intlv -> flush_stripes x intlv out = Ok out' ->
  (by_default \/ covered out') <-> (by_default \/ covered out \/ covered intlv).
Proof.
  intros Hne Hok H. unfold flush_stripes in H. res_inv.
  destruct (AR.merge_covers intlv a0 a Hne) as [Hi Hc]; [| |done|].
  - eapply Forall_impl; [exact Hok|]. by intros ? [].
  - eapply Forall_impl; [exact Hok|]. by intros ? [].
  - rewrite (keep_range_covers a0 out out' Hi H). by rewrite Hc.
Qed.

Lemma aggregate_covers m intlv out out' : Forall (fun e => range_ok (fst e)) m -> Forall range_ok intlv ->
  aggregate x m intlv out = Ok out' ->
  (by_default \/ covered out') <-> (by_default \/ covered out \/ covered intlv \/ covered (fst <$> m)).
Proof.
  intros Hm. revert intlv out. induction Hm as [|[r i] m Hr _ IH]; intros intlv out Hi H; cbn [aggregate] in H.
  { destruct intlv as [|s intlv]; [res_inv; cbn; rewrite !covered_nil; tauto|].
    rewrite (flush_covers (s :: intlv) out out') by done. cbn [fmap list_fmap]. rewrite covered_nil. tauto. }
  cbn [fmap list_fmap fst]. rewrite covered_cons. destruct (AR.interleaved r) eqn:Er.
  - assert (Forall range_ok [r]) by by constructor.
    destruct (last intlv) as [b|] eqn:El.
    + case_if_in H.
      * res_inv. rewrite (IH [r] a0 ltac:(done) H), covered_cons, covered_nil.
        assert (intlv <> []) by (by intros ->).
        pose proof (flush_covers intlv out a0 ltac:(done) Hi Hm). tauto.
      * rewrite (IH (intlv ++ [r]) out); [|by apply Forall_app|done].
        rewrite covered_app, covered_cons, covered_nil. tauto.
    + apply last_None in El as ->. rewrite (IH [r] out ltac:(done) H), covered_cons, !covered_nil. tauto.
  - res_inv. rewrite (IH intlv a0 Hi H). pose proof (keep_range_covers r out a0 Er Hm). tauto.
Qed.

Lemma keep_range_mono r out out' : keep_range x r out = Ok out' -> covered out -> covered out'.
Proof. unfold keep_range. intros H Hc. res_inv. destruct a0; [done|]. apply covered_app. by left. Qed.

Lemma aggregate_mono m intlv out out' : aggregate x m intlv out = Ok out' -> covered out -> covered out'.
Proof.
  revert intlv out. induction m as [|[r i] m IH]; intros intlv out H Hc; cbn [aggregate] in H; unfold flush_stripes in H.
  - destruct intlv; res_inv; [done|]. by eapply keep_range_mono.
  - case_if_in H.
    + destruct (last intlv); [case_if_in H|]; res_inv; eapply IH; eauto using keep_range_mono.
    + res_inv. eauto using keep_range_mono.
Qed.

Lemma aggregate_ranges_covers rs : Forall (fun e => range_ok (fst e)) (portMap x) ->
  aggregate_ranges x = Ok rs -> covered rs <-> by_default \/ covered (fst <$> portMap x).
Proof.
  intros Hok H. unfold aggregate_ranges in H. res_inv.
  pose proof (aggregate_covers _ [] _ _ Hok ltac:(constructor) Hm0) as Hc. rewrite covered_nil in Hc.
  pose proof (aggregate_mono _ _ _ _ Hm0) as Hmono.
  unfold by_default in *. destruct (useDefaultRange x) eqn:Ed; res_inv.
  - destruct a1; res_inv. rewrite !covered_cons, !covered_nil in *. tauto.
  - rewrite covered_nil in *. intuition discriminate.
Qed.

End Cover.

(** What a crossbar shows to its masters, after merging complete sets of
    stripes and leaving out parts of the default range, covers exactly the
    addresses of its map and of the default range. *)
Theorem shown_ranges_cover (rs : list AR.AddrRange) (id : Z) (x x' : XBar) (a : Z) :
  recvRangeChange rs id x = Ok (x', true) ->
  (useDefaultRange x' = true -> AR.interleaved (defaultRange x') = false) ->
  Forall (fun e => range_ok (fst e)) (portMap x') ->
  (exists shown, xbar_getAddrRanges x' = Ok shown /\
    ((exists r, r ∈ shown /\ AR.contains r a = true) <->
     (useDefaultRange x' = true /\ AR.contains (defaultRange x') a = true) \/
     (exists e, e ∈ portMap x' /\ AR.contains (fst e) a = true))).
Proof.
  intros H Hd Hok. unfold recvRangeChange in H. res_inv.
  case_if_in Hm1; res_inv; [|done]. cbn [useDefaultRange defaultRange portMap portCache xbarRanges gotAllAddrRanges field_upd] in *.
  unfold xbar_getAddrRanges. cbn [gotAllAddrRanges xbarRanges field_upd]. rewrite Hif.
  eexists. split; [reflexivity|].
  pose proof (aggregate_ranges_covers _ a Hd _ Hok Hm2) as Hc.
  unfold covered, by_default in Hc. rewrite !Exists_exists in Hc. rewrite Hc.
  setoid_rewrite list_elem_of_fmap. unfold AR.in_range. naive_solver.
Qed.

(** The links of a load distributor: the first gives the ranges at once, the
    others only report. *)
Lemma ld_other_links (rs : list AR.AddrRange) (id : Z) (d : LoadDistributor) :
  0 < id < Z.of_nat (length (gotAddrRanges (ld_xbar d))) ->
  exists d', ld_recvRangeChange rs id d = Ok (d', false) /\
    portMap (ld_xbar d') = portMap (ld_xbar d) /\ ROUND_ROBIN_COUNTER d' = ROUND_ROBIN_COUNTER d.
Proof.
  intros Hid. unfold ld_recvRangeChange. rewrite (proj2 (Z.eqb_neq id 0)) by lia.
  destruct (lookup_lt_is_Some_2 (gotAddrRanges (ld_xbar d)) (Z.to_nat id)) as [b Hb]; [lia|].
  rewrite (vec_set_ok id _ b) by (done || lia). eexists. split; [reflexivity|]. done.
Qed.

(** ** Examples and witnesses *)

(** Plain ranges, and no default port. *)
Definition ex_reports (i : Z) : list AR.AddrRange :=
  if i =? 0 then [AR.AddrRange2 0 63; AR.AddrRange2 256 511] else [AR.AddrRange2 128 191].

(** The two stripes of one range, a range inside the default range, and the latter. *)
Definition ex_stripes : AR.AddrRange := AR.mkAddrRange 0 63 4 1 0.
Definition ex_default : AR.AddrRange := AR.AddrRange2 128 255.
Definition ex_striped (i : Z) : list AR.AddrRange :=
  if i =? 0 then [stripe ex_stripes 0]
  else if i =? 1 then [stripe ex_stripes 1; AR.AddrRange2 192 199]
  else [ex_default].

Lemma ex_stripes_ok : striping ex_stripes.
Proof. apply no_stripes_ok. Qed.

Lemma plain_ranged f s e : s <= e -> ranged f (AR.AddrRange2 s e).
Proof. intros H. by left. Qed.

Lemma stripe_ranged f k : 0 <= k < 2 ^ AR.intlvBits f -> ranged f (stripe f k).
Proof. intros H. right. by exists k. Qed.

Lemma stripes_disj f j k : j <> k -> disj f (stripe f j) (stripe f k).
Proof. intros H. destruct (Z.lt_ge_cases j k); [left|right]; right; [by exists j, k|exists k, j; split_and!; [done..|lia]]. Qed.

Lemma apart_disj2 f r q : apart2 r q -> disj f r q.
Proof. intros [H|H]; [left|right]; by left. Qed.

Lemma ex_reports_ok use : use = false -> reports_ok ex_stripes ex_default use ex_reports 2 0.
Proof.
  intros ->. assert (forall i r, r ∈ ex_reports i -> r = AR.AddrRange2 0 63 \/ r = AR.AddrRange2 256 511 \/ r = AR.AddrRange2 128 191) as Hin.
  { intros i r. unfold ex_reports. case_if; intros H%list_elem_of_In; cbn in H; destruct_or?; subst; tauto. }
  split.
  - lia.
  - apply ex_stripes_ok.
  - intros i _. apply Forall_forall. intros r Hr. destruct (Hin i r Hr) as [->|[->| ->]]; apply plain_ranged; lia.
  - intros i Hi. unfold ex_reports. case_if; repeat constructor.
  - intros i j r q Hi Hj Hne Hr Hq. apply apart_disj2. unfold ex_reports, apart2 in *.
    destruct (Z.eqb_spec i 0), (Z.eqb_spec j 0); try lia;
      apply list_elem_of_In in Hr, Hq; cbn in Hr, Hq; destruct_or?; subst; try done; cbn; lia.
  - intros i r k _ Hr Ir. by destruct (Hin i r Hr) as [->|[->| ->]].
  - done.
Qed.

Lemma ex_striped_ok : reports_ok ex_stripes ex_default true ex_striped 2 1.
Proof.
  assert (forall i, 0 <= i < Z.of_nat 2 -> i = 0 \/ i = 1) as H01 by lia. split.
  - lia.
  - apply ex_stripes_ok.
  - intros i [->| ->]%H01; cbn; repeat (apply Forall_cons; split); try (apply stripe_ranged; cbn; lia); try (apply plain_ranged; lia);
      constructor.
  - intros i [->| ->]%H01; repeat constructor.
  - intros i j r q [->| ->]%H01 [->| ->]%H01 Hne Hr%list_elem_of_In Hq%list_elem_of_In; try done; cbn in Hr, Hq; destruct_or?; subst; try done;
      first [by apply stripes_disj | apply apart_disj2; unfold apart2; cbn; lia].
  - intros i r k _ _ _ Hk. cbn in Hk. assert (k = 0 \/ k = 1) as [->| ->] by lia; [exists 0|exists 1]; (split; [lia|by left]).
  - intros _. split_and!; [done..|]. intros i r [->| ->]%H01 Hr%list_elem_of_In; cbn in Hr; destruct_or?; subst; try done;
      unfold apart2; cbn; first [by left | right; lia].
Qed.

Lemma xbar_startup_witness : (exists x x',
  startup ex_reports [1; 0] (NoncoherentXBar_new 2 0 1 1000 1 16 false) = Ok (x, [false; true]) /\
  findPort 300 x = Ok (x', 0)) /\
  exists x shown x', startup ex_striped [2; 0; 1] (NoncoherentXBar_new 2 1 1 1000 1 16 true) = Ok (x, [false; false; true]) /\
    xbar_getAddrRanges x = Ok shown /\ AR.AddrRange2 0 63 ∈ shown /\ ex_default ∈ shown /\ AR.AddrRange2 192 199 ∉ shown /\
    findPort 20 x = Ok (x', 1) /\ findPort 130 x = Ok (x, 2) /\ findPort 300 x = Err Fatal.
Proof.
  split.
  - destruct (xbar_startup ex_stripes ex_default false ex_reports 2 0 1 1000 1 16 [1; 0] (ex_reports_ok false eq_refl)) as (x & H1 & _ & H2).
    + done.
    + change (seqZ 0 (Z.of_nat (2 + 0))) with [0; 1]. apply Permutation_swap.
    + destruct (H2 300) as [H3 _]; [unfold inw; lia|].
      destruct (H3 0 (AR.AddrRange2 256 511)) as [x' H4]; [lia|by right; left|done|].
      exists x, x'. split; [exact H1|exact H4].
  - destruct (xbar_startup ex_stripes ex_default true ex_striped 2 1 1 1000 1 16 [2; 0; 1] ex_striped_ok) as (x & H1 & (shown & H2 & H3) & H4).
    + done.
    + change (seqZ 0 (Z.of_nat (2 + 1))) with ([0; 1] ++ [2]). by rewrite (Permutation_app_comm [0; 1] [2]).
    + assert (forall a, (forall i r, 0 <= i < 2 -> r ∈ ex_striped i -> AR.contains r a = false) <->
        AR.contains (stripe ex_stripes 0) a = false /\ AR.contains (stripe ex_stripes 1) a = false /\ AR.contains (AR.AddrRange2 192 199) a = false) as Hno.
      { intros a. split; [intros H; split_and!; [apply (H 0)|apply (H 1)|apply (H 1)]; (lia || (by left) || (by right; left))|].
        intros (A & B & C) i r Hi Hr. assert (i = 0 \/ i = 1) as [->| ->] by lia; apply list_elem_of_In in Hr; cbn in Hr; destruct_or?; subst; done. }
      destruct (proj1 (H4 20 ltac:(unfold inw; lia)) 1 (stripe ex_stripes 1)) as [x' H5]; [lia|by left|done|].
      exists x, shown, x'. split; [exact H1|]. split; [exact H2|]. rewrite !H3. split_and!.
      * right. exists 0, (stripe ex_stripes 0). split; [lia|]. split; [by left|]. split; reflexivity.
      * by left.
      * intros [[_ H]|(i & q & Hi & Hq & Er & Hk)]; [discriminate H|].
        destruct (shown_bounds q) as [B1 B2]. rewrite <- Er in B1, B2. cbn in B1, B2. unfold inside in Hk. rewrite <- B1, <- B2 in Hk. discriminate Hk.
      * exact H5.
      * rewrite (proj2 (H4 130 ltac:(unfold inw; lia))); [reflexivity|]. apply Hno. by split_and!.
      * rewrite (proj2 (H4 300 ltac:(unfold inw; lia))); [reflexivity|]. apply Hno. by split_and!.
Defined.

Definition ex_striped_bar : XBar :=
  match startup ex_striped [0; 1] (NoncoherentXBar_new 2 1 1 1000 1 16 true) with
  | Ok (x, _) => x
  | Err _ => NoncoherentXBar_new 2 1 1 1000 1 16 true
  end.

Lemma shown_ranges_cover_witness : exists x' shown,
  recvRangeChange (ex_striped 2) 2 ex_striped_bar = Ok (x', true) /\ xbar_getAddrRanges x' = Ok shown /\
  shown = [AR.AddrRange2 128 255; AR.AddrRange2 0 63] /\
  exists r, r ∈ shown /\ AR.contains r 20 = true.
Proof.
  eexists. destruct (shown_ranges_cover (ex_striped 2) 2 ex_striped_bar _ 20 eq_refl) as (shown & H1 & H2).
  - reflexivity.
  - cbn. repeat constructor; cbn; unfold inw; try lia; done.
  - exists shown. split; [reflexivity|]. split; [exact H1|]. split.
    + vm_compute in H1. by injection H1 as <-.
    + apply H2. right. exists (AR.mkAddrRange 0 63 4 1 1, 1). split; [|done]. cbn. by right; left.
Defined.
