(* ===== verification/SnoopFilter.v ===== *)
(** * The snoop filter

    Models [mem/snoop_filter.cc] and [mem/snoop_filter.hh].  The filter keeps,
    per cache line, the ports with an outstanding request and the ports that
    may hold the line, as 64-bit masks.  A port is its number.  Statistics and
    traces are left out.

    The theorem compares the filter with where the lines really are: a ghost
    state of resident lines and outstanding requests, moved by the events of
    the coherence protocol. *)

From S2P Require Import Prelude.
From S2P Require Import BitMath.
From S2P Require Import Flags.
From S2P Require Import Packet.

Record SnoopItem := mkSnoopItem { requested : Z; holder : Z }.

Record SnoopFilter := mkSnoopFilter {
  cachedLocations : gmap Z SnoopItem;
  sf_slavePorts : list Z;
  linesize : Z;
  lookupLatency : Z
}.

Definition SnoopFilter_new (cacheLineSize lookup_latency : Z) : SnoopFilter :=
  mkSnoopFilter ∅ [] cacheLineSize lookup_latency.
Definition setSlavePorts (bus_slave_ports : list Z) (f : SnoopFilter) : SnoopFilter :=
  f <| sf_slavePorts := bus_slave_ports |>.

(** [addr & ~(linesize - 1)]: [linesize] is [unsigned], so the mask has 32
    bits. *)
Definition line_addr (f : SnoopFilter) (a : Z) : Z := Z.land a (u32 (Z.lnot (u32 (linesize f - 1)))).

Definition portToMask (port : Z) : res Z :=
  let id := u32 port in
  _ ← assert_ (negb (id =? u32 InvalidPortID));
  _ ← assert_ (u64 (s32 id) <? 8 * 8);
  Ok (u64 (Z.shiftl 1 id)).

Fixpoint portListToMask (ports : list Z) (m : Z) : res Z :=
  match ports with
  | [] => Ok m
  | p :: ports => b ← portToMask p; portListToMask ports (Z.lor m b)
  end.

Fixpoint mask_ports (port_mask : Z) (ports : list Z) : res (list Z) :=
  match ports with
  | [] => Ok []
  | p :: ports =>
      m ← portToMask p;
      l ← mask_ports port_mask ports;
      Ok (if negb (Z.land port_mask m =? 0) then p :: l else l)
  end.
Definition maskToPortList (f : SnoopFilter) (port_mask : Z) : res (list Z) :=
  mask_ports port_mask (sf_slavePorts f).

Definition snoopAll (f : SnoopFilter) (latency : Z) : list Z * Z := (sf_slavePorts f, latency).
Definition snoopSelected (slave_ports : list Z) (latency : Z) : list Z * Z := (slave_ports, latency).
Definition snoopDown (latency : Z) : list Z * Z := ([], latency).

(** [cachedLocations[line]], which creates the entry when there is none. *)
Definition sf_item (f : SnoopFilter) (line : Z) : SnoopItem :=
  default (mkSnoopItem 0 0) (cachedLocations f !! line).
Definition set_item (line : Z) (it : SnoopItem) (f : SnoopFilter) : SnoopFilter :=
  f <| cachedLocations := <[line := it]> (cachedLocations f) |>.

Definition panic_if (b : bool) : res unit := if b then panic else Ok tt.
Definition has_bit (x m : Z) : bool := negb (Z.land x m =? 0).

(** ** The operations *)
Definition lookupRequest (cpkt : Packet) (slave_port : Z) (f : SnoopFilter) : res (SnoopFilter * (list Z * Z)) :=
  a ← getAddr cpkt;
  let line := line_addr f a in
  req_port ← portToMask slave_port;
  let it := sf_item f line in
  let interested := Z.lor (holder it) (requested it) in
  it ← (if needsResponse cpkt then
          if negb (memInhibitAsserted cpkt) then
            _ ← panic_if (has_bit (requested it) req_port);
            Ok (it <| requested := Z.lor (requested it) req_port |>)
          else
            _ ← panic_if (negb (has_bit (holder it) req_port));
            Ok it
        else Ok it);
  let f := set_item line it f in
  ports ← maskToPortList f (Z.land interested (not64 req_port));
  Ok (f, snoopSelected ports (lookupLatency f)).

Definition updateRequest (cpkt : Packet) (slave_port : Z) (will_retry : bool) (f : SnoopFilter) : res SnoopFilter :=
  a ← getAddr cpkt;
  let line := line_addr f a in
  req_port ← portToMask slave_port;
  let it := sf_item f line in
  if will_retry then Ok (set_item line (it <| requested := Z.land (requested it) (not64 req_port) |>) f)
  else if negb (needsResponse cpkt) then
    if bool_decide (cmd cpkt = Writeback) then
      _ ← panic_if (has_bit (requested it) req_port);
      _ ← panic_if (negb (has_bit (holder it) req_port));
      Ok (set_item line (it <| holder := Z.land (holder it) (not64 req_port) |>) f)
    else Err AssertFailed
  else Ok (set_item line it f).

Definition lookupSnoop (cpkt : Packet) (f : SnoopFilter) : res (SnoopFilter * (list Z * Z)) :=
  _ ← assert_ (isRequest cpkt);
  a ← getAddr cpkt;
  let line := line_addr f a in
  let it := sf_item f line in
  let interested := Z.lor (holder it) (requested it) in
  _ ← assert_ (Bool.eqb (isInvalidate cpkt) (needsExclusive cpkt));
  let it := if isInvalidate cpkt && (requested it =? 0) then it <| holder := 0 |> else it in
  let f := set_item line it f in
  ports ← maskToPortList f interested;
  Ok (f, snoopSelected ports (lookupLatency f)).

Definition updateSnoopResponse (cpkt : Packet) (rsp_port req_port : Z) (f : SnoopFilter) : res SnoopFilter :=
  a ← getAddr cpkt;
  let line := line_addr f a in
  rsp_mask ← portToMask rsp_port;
  req_mask ← portToMask req_port;
  let it := sf_item f line in
  _ ← assert_ (isResponse cpkt);
  _ ← assert_ (memInhibitAsserted cpkt);
  _ ← panic_if (negb (has_bit (holder it) rsp_mask));
  _ ← panic_if (negb (has_bit (requested it) req_mask));
  let h := if needsExclusive cpkt || negb (sharedAsserted cpkt) then 0 else holder it in
  _ ← assert_ (negb (bool_decide (cmd cpkt = Writeback)));
  Ok (set_item line (it <| holder := Z.lor h req_mask |>
                        <| requested := Z.land (requested it) (not64 req_mask) |>) f).

Definition updateSnoopForward (cpkt : Packet) (rsp_port : Z) (f : SnoopFilter) : res SnoopFilter :=
  a ← getAddr cpkt;
  let line := line_addr f a in
  let it := sf_item f line in
  _ ← portToMask rsp_port;
  _ ← assert_ (isResponse cpkt);
  _ ← assert_ (memInhibitAsserted cpkt);
  Ok (set_item line (if needsExclusive cpkt then it <| holder := 0 |> else it) f).

Definition updateResponse (cpkt : Packet) (slave_port : Z) (f : SnoopFilter) : res SnoopFilter :=
  a ← getAddr cpkt;
  let line := line_addr f a in
  slave_mask ← portToMask slave_port;
  let it := sf_item f line in
  _ ← assert_ (isResponse cpkt);
  _ ← panic_if (negb (has_bit (requested it) slave_mask));
  let h := if needsExclusive cpkt || negb (sharedAsserted cpkt) then 0 else holder it in
  Ok (set_item line (it <| holder := Z.lor h slave_mask |>
                        <| requested := Z.land (requested it) (not64 slave_mask) |>) f).

(** ** Masks *)
Definition port_ok (p : Z) : Prop := 0 <= p < 64.

Lemma portToMask_ok p : port_ok p -> portToMask p = Ok (2 ^ p).
Proof.
  intros Hp. unfold port_ok in Hp. unfold portToMask. assert (2 ^ p < 2 ^ 64) by (apply Z.pow_lt_mono_r; lia).
  assert (0 < 2 ^ p) by (apply Z.pow_pos_nonneg; lia).
  assert (u32 p = p) as -> by (apply wrap_id; unfold inw; lia).
  change (u32 InvalidPortID) with (2 ^ 32 - 1). rewrite (proj2 (Z.eqb_neq _ _)) by lia. cbn [negb assert_ mbind res_bind].
  assert (s32 p = p) as -> by (unfold s32, sgn; rewrite wrap_id by (unfold inw; lia); by rewrite (proj2 (Z.ltb_lt p (2 ^ (32 - 1)))) by lia).
  rewrite (u64_small p), (proj2 (Z.ltb_lt p (8 * 8))) by lia. cbn [assert_ mbind res_bind].
  rewrite Z.shiftl_1_l, u64_small by lia. done.
Qed.

Lemma has_bit_spec x p : 0 <= p -> has_bit x (2 ^ p) = Z.testbit x p.
Proof.
  intros Hp. unfold has_bit. rewrite <- Z.shiftl_1_l.
  destruct (Z.eqb_spec (Z.land x (Z.shiftl 1 p)) 0) as [E|E]; cbn [negb].
  - assert (Z.testbit (Z.land x (Z.shiftl 1 p)) p = false) as H by (rewrite E; apply Z.bits_0).
    rewrite Z.land_spec, Z.shiftl_spec, Z.sub_diag, andb_true_r in H by lia. done.
  - destruct (Z.testbit x p) eqn:T; [done|]. exfalso. apply E. apply Z.bits_inj'. intros i Hi.
    rewrite Z.land_spec, Z.shiftl_spec, Z.bits_0 by lia.
    destruct (decide (i = p)) as [->|]; [by rewrite T|].
    destruct (decide (i < p)); [rewrite (Z.testbit_neg_r 1) by lia; apply andb_false_r|].
    assert (Z.testbit 1 (i - p) = false) as -> by (apply (testbit_above 1); [done|lia]). apply andb_false_r.
Qed.

Lemma pow2_bit p q : 0 <= p -> 0 <= q -> Z.testbit (2 ^ p) q = bool_decide (q = p).
Proof.
  intros. rewrite Z.pow2_bits_eqb by lia. destruct (Z.eqb_spec p q); [by rewrite bool_decide_true|by rewrite bool_decide_false by done].
Qed.

Lemma clear_bit x p q : port_ok p -> port_ok q ->
  Z.testbit (Z.land x (not64 (2 ^ p))) q = Z.testbit x q && negb (bool_decide (q = p)).
Proof.
  intros Hp Hq. unfold port_ok in *. rewrite Z.land_spec, not64_spec, pow2_bit by lia.
  rewrite (proj2 (Z.ltb_lt q 64)) by lia. f_equal. by rewrite ?andb_true_r.
Qed.

(** The ports of a mask, in the order of the bus. *)
Lemma mask_ports_ok m ports : Forall port_ok ports ->
  mask_ports m ports = Ok (filter (fun p => Z.testbit m p = true) ports).
Proof.
  induction 1 as [|p ports Hp _ IH]; [done|]. cbn [mask_ports]. rewrite portToMask_ok by done. cbn [mbind res_bind].
  rewrite IH. cbn [mbind res_bind]. fold (has_bit m (2 ^ p)). rewrite has_bit_spec by apply Hp.
  rewrite filter_cons. by destruct (Z.testbit m p).
Qed.

(** ** Lines *)

(** The filter of a bus: a line size and ports that fit the masks. *)
Record filter_ok (f : SnoopFilter) : Prop := {
  fo_line : exists k, 0 <= k < 32 /\ linesize f = 2 ^ k;
  fo_ports : Forall port_ok (sf_slavePorts f)
}.

(** The first address of a line. *)
Definition block (f : SnoopFilter) (a : Z) : Z := linesize f * (a / linesize f).

Lemma line_mask f k i : 0 <= k < 32 -> linesize f = 2 ^ k -> 0 <= i ->
  Z.testbit (u32 (Z.lnot (u32 (linesize f - 1)))) i = (k <=? i) && (i <? 32).
Proof.
  intros Hk -> Hi. assert (0 < 2 ^ k) by (apply Z.pow_pos_nonneg; lia).
  assert (2 ^ k < 2 ^ 32) by (apply Z.pow_lt_mono_r; lia).
  assert (u32 (2 ^ k - 1) = Z.ones k) as -> by (rewrite Z.ones_equiv; apply wrap_id; unfold inw; lia).
  unfold u32, wrap. rewrite Z.testbit_mod_pow2, Z.lnot_spec, ones_spec by lia.
  rewrite andb_comm. f_equal. destruct (Z.ltb_spec i k), (Z.leb_spec k i); cbn; lia || done.
Qed.

(** Below four gigabytes the filter tells lines apart. *)
Lemma line_addr_block f a : filter_ok f -> 0 <= a < 2 ^ 32 -> line_addr f a = block f a.
Proof.
  intros [(k & Hk & E) _] Ha. unfold block. rewrite E, Z.mul_comm.
  rewrite <- Z.shiftr_div_pow2, <- Z.shiftl_mul_pow2 by lia. apply Z.bits_inj'. intros i Hi.
  unfold line_addr. rewrite Z.land_spec, (line_mask f k) by done. rewrite Z.shiftl_spec by lia.
  destruct (Z.leb_spec k i).
  - rewrite Z.shiftr_spec by lia. replace (i - k + k) with i by lia. destruct (Z.ltb_spec i 32); [by rewrite andb_true_r|].
    rewrite andb_false_r. symmetry. apply (testbit_above 32); [done|lia].
  - rewrite andb_false_r. by rewrite Z.testbit_neg_r by lia.
Qed.

(** Above, two lines four gigabytes apart are one. *)
Lemma line_addr_alias f a : filter_ok f -> line_addr f (a + 2 ^ 32) = line_addr f a.
Proof.
  intros [(k & Hk & E) _]. unfold line_addr. apply Z.bits_inj'. intros i Hi.
  rewrite !Z.land_spec, (line_mask f k) by done. destruct (Z.ltb_spec i 32); [|by rewrite !andb_false_r].
  f_equal. rewrite <- (Z.mod_pow2_bits_low (a + 2 ^ 32) 32), <- (Z.mod_pow2_bits_low a 32) by lia.
  f_equal. rewrite <- (Z.mul_1_l (2 ^ 32)), Z.mod_add by lia. done.
Qed.

(** ** Where the lines are

    The ports whose caches hold a line, and the requests on their way. *)
Record Lines := mkLines { resident : gset (Z * Z); pending : gset (Z * Z) }.

Inductive sf_event :=
| Lookup (p : Z) (pkt : Packet)
| Update (p : Z) (pkt : Packet) (will_retry : bool)
| Snoop (pkt : Packet)
| SnoopResp (rsp req : Z) (pkt : Packet)
| SnoopForward (rsp : Z) (pkt : Packet)
| Response (p : Z) (pkt : Packet)
| Drop (p l : Z).

(** What the filter does, and the ports it names. *)
Definition sf_run (ev : sf_event) (f : SnoopFilter) : res (SnoopFilter * list Z) :=
  match ev with
  | Lookup p pkt => '(f, (ts, _)) ← lookupRequest pkt p f; Ok (f, ts)
  | Update p pkt retry => f ← updateRequest pkt p retry f; Ok (f, [])
  | Snoop pkt => '(f, (ts, _)) ← lookupSnoop pkt f; Ok (f, ts)
  | SnoopResp rsp req pkt => f ← updateSnoopResponse pkt rsp req f; Ok (f, [])
  | SnoopForward rsp pkt => f ← updateSnoopForward pkt rsp f; Ok (f, [])
  | Response p pkt => f ← updateResponse pkt p f; Ok (f, [])
  | Drop _ _ => Ok (f, [])
  end.

Definition exclusive (pkt : Packet) : bool := needsExclusive pkt || negb (sharedAsserted pkt).

(** The caches that are told drop the line. *)
Definition invalidate (ts : list Z) (l : Z) (rs : gset (Z * Z)) : gset (Z * Z) :=
  filter (fun x => ~ (x.2 = l /\ x.1 ∈ ts)) rs.

Section Protocol.

Context (f0 : SnoopFilter).

Definition line (pkt : Packet) : Z := block f0 (addr pkt).

(** What happens to the lines; only the ports the filter names are told. *)
Definition moved (ev : sf_event) (ts : list Z) (s : Lines) : Lines :=
  match ev with
  | Lookup p pkt =>
      mkLines (if isInvalidate pkt then invalidate ts (line pkt) (resident s) else resident s)
        (if needsResponse pkt && negb (memInhibitAsserted pkt) then {[(p, line pkt)]} ∪ pending s else pending s)
  | Update p pkt true => s <| pending := pending s ∖ {[(p, line pkt)]} |>
  | Update p pkt false =>
      if needsResponse pkt then s else s <| resident := resident s ∖ {[(p, line pkt)]} |>
  | Snoop pkt => s <| resident := if isInvalidate pkt then invalidate ts (line pkt) (resident s) else resident s |>
  | SnoopResp rsp req pkt =>
      mkLines ({[(req, line pkt)]} ∪ (if exclusive pkt then resident s ∖ {[(rsp, line pkt)]} else resident s))
        (pending s ∖ {[(req, line pkt)]})
  | SnoopForward _ _ => s
  | Response p pkt => mkLines ({[(p, line pkt)]} ∪ resident s) (pending s ∖ {[(p, line pkt)]})
  | Drop p l => s <| resident := resident s ∖ {[(p, l)]} |>
  end.

(** A packet with an address the filter tells apart. *)
Definition pkt_line_ok (pkt : Packet) : Prop := getAddr pkt = Ok (addr pkt) /\ 0 <= addr pkt < 2 ^ 32.

(** The protocol: a port has one request per line; a response answers a
    request; a cache that answers, or gives a line back, has it; and a response
    that makes its receiver the only owner comes when nobody else has the
    line. *)
Definition allowed (ev : sf_event) (s : Lines) : Prop :=
  match ev with
  | Lookup p pkt => pkt_line_ok pkt /\ p ∈ sf_slavePorts f0 /\
      (needsResponse pkt = true ->
       if memInhibitAsserted pkt then (p, line pkt) ∈ resident s else (p, line pkt) ∉ pending s)
  | Update p pkt true => pkt_line_ok pkt /\ p ∈ sf_slavePorts f0
  | Update p pkt false => pkt_line_ok pkt /\ p ∈ sf_slavePorts f0 /\
      (needsResponse pkt = true \/
       cmd pkt = Writeback /\ (p, line pkt) ∈ resident s /\ (p, line pkt) ∉ pending s)
  | Snoop pkt => pkt_line_ok pkt /\ isRequest pkt = true /\ isInvalidate pkt = needsExclusive pkt
  | SnoopResp rsp req pkt => pkt_line_ok pkt /\ isResponse pkt = true /\ memInhibitAsserted pkt = true /\
      (rsp, line pkt) ∈ resident s /\ (req, line pkt) ∈ pending s /\
      (exclusive pkt = true -> forall q, (q, line pkt) ∈ resident s -> q = rsp \/ q = req)
  | SnoopForward rsp pkt => pkt_line_ok pkt /\ rsp ∈ sf_slavePorts f0 /\ isResponse pkt = true /\
      memInhibitAsserted pkt = true /\ (needsExclusive pkt = true -> forall q, (q, line pkt) ∉ resident s)
  | Response p pkt => pkt_line_ok pkt /\ isResponse pkt = true /\ (p, line pkt) ∈ pending s /\
      (exclusive pkt = true -> forall q, (q, line pkt) ∈ resident s -> q = p)
  | Drop p l => True
  end.

(** The filter knows every outstanding request exactly, and every holder. *)
Record sf_inv (s : Lines) (f : SnoopFilter) : Prop := {
  si_same : linesize f = linesize f0 /\ sf_slavePorts f = sf_slavePorts f0;
  si_ports : forall p l, (p, l) ∈ resident s \/ (p, l) ∈ pending s -> p ∈ sf_slavePorts f0;
  si_req : forall p l, port_ok p -> Z.testbit (requested (sf_item f l)) p = true <-> (p, l) ∈ pending s;
  si_width : forall l, inw 64 (requested (sf_item f l));
  si_hold : forall p l, (p, l) ∈ resident s -> Z.testbit (holder (sf_item f l)) p = true
}.

(** ** Every operation keeps the invariant *)
#[local] Arguments isInvalidate : simpl never.
#[local] Arguments needsResponse : simpl never.
#[local] Arguments needsExclusive : simpl never.
#[local] Arguments isResponse : simpl never.
#[local] Arguments exclusive : simpl never.

Lemma sf_item_set f l it l' : sf_item (set_item l it f) l' = if decide (l' = l) then it else sf_item f l'.
Proof.
  unfold sf_item, set_item. cbn. destruct (decide (l' = l)) as [->|Hne]; [by rewrite lookup_insert_eq|].
  by rewrite lookup_insert_ne.
Qed.

Lemma inv_set s s' f l it : sf_inv s f ->
  (forall p l', l' <> l -> ((p, l') ∈ resident s' -> (p, l') ∈ resident s) /\ ((p, l') ∈ pending s' <-> (p, l') ∈ pending s)) ->
  (forall p, (p, l) ∈ resident s' \/ (p, l) ∈ pending s' -> p ∈ sf_slavePorts f0) ->
  (forall p, port_ok p -> Z.testbit (requested it) p = true <-> (p, l) ∈ pending s') -> inw 64 (requested it) ->
  (forall p, (p, l) ∈ resident s' -> Z.testbit (holder it) p = true) -> sf_inv s' (set_item l it f).
Proof.
  intros [I1 I2 I3 I4 I5] Ho Hp Hr Hw Hh. split; [done|..].
  - intros p l' H. destruct (decide (l' = l)) as [->|Hne]; [by apply Hp|]. destruct (Ho p l' Hne) as [O1 O2].
    apply (I2 p l'). rewrite <- O2. tauto.
  - intros p l' Hok. rewrite sf_item_set. destruct (decide (l' = l)) as [->|Hne]; [by apply Hr|].
    destruct (Ho p l' Hne) as [_ ->]. by apply I3.
  - intros l'. rewrite sf_item_set. by destruct (decide (l' = l)).
  - intros p l' H. rewrite sf_item_set. destruct (decide (l' = l)) as [->|Hne]; [by apply Hh|].
    destruct (Ho p l' Hne) as [O1 _]. by apply I5, O1.
Qed.

Lemma inw64_bits x : 0 <= x -> (forall i, 64 <= i -> Z.testbit x i = false) -> inw 64 x.
Proof.
  intros Hx H. assert (x = x mod 2 ^ 64) as ->; [|apply Z.mod_pos_bound; lia].
  apply Z.bits_inj'. intros i Hi. rewrite Z.testbit_mod_pow2 by lia.
  destruct (Z.ltb_spec i 64); [done|]. by apply H.
Qed.

Lemma inw64_set x p : inw 64 x -> port_ok p -> inw 64 (Z.lor x (2 ^ p)).
Proof.
  intros Hx Hp. unfold port_ok in Hp. apply inw64_bits.
  - apply Z.lor_nonneg. split; [apply Hx|apply Z.pow_nonneg; lia].
  - intros i Hi. rewrite Z.lor_spec, (testbit_above 64 x), pow2_bit by (done || lia). by rewrite bool_decide_false by lia.
Qed.

Lemma inw64_land x m : inw 64 x -> inw 64 (Z.land x m).
Proof.
  intros Hx. apply inw64_bits; [apply Z.land_nonneg; left; apply Hx|].
  intros i Hi. rewrite Z.land_spec, (testbit_above 64 x) by done. done.
Qed.

Hypothesis F0 : filter_ok f0.

Lemma line_of s f pkt : sf_inv s f -> pkt_line_ok pkt ->
  getAddr pkt = Ok (addr pkt) /\ line_addr f (addr pkt) = line pkt.
Proof.
  intros [[E1 E2] _ _ _ _] [Ha Hb]. split; [done|]. unfold line. rewrite line_addr_block; [|by destruct F0; split; rewrite ?E1, ?E2|done].
  unfold block. by rewrite E1.
Qed.

Lemma port_of p : p ∈ sf_slavePorts f0 -> port_ok p.
Proof. intros H. pose proof (fo_ports _ F0) as Hf. rewrite Forall_forall in Hf. by apply Hf. Qed.

Lemma ports_named s f m : sf_inv s f ->
  maskToPortList f m = Ok (filter (fun p => Z.testbit m p = true) (sf_slavePorts f0)).
Proof. intros [[_ E] _ _ _ _]. unfold maskToPortList. rewrite E. apply mask_ports_ok, F0. Qed.

(** Nothing is requested exactly when the mask is zero. *)
Lemma none_requested s f l : sf_inv s f -> requested (sf_item f l) = 0 -> forall p, (p, l) ∉ pending s.
Proof.
  intros I E p Hp. assert (port_ok p) by (eapply port_of, (si_ports _ _ I); eauto).
  apply (si_req _ _ I) in Hp; [|done]. by rewrite E, Z.bits_0 in Hp.
Qed.

Lemma elem_of_invalidate ts l rs q l' : (q, l') ∈ invalidate ts l rs <-> (q, l') ∈ rs /\ ~ (l' = l /\ q ∈ ts).
Proof. unfold invalidate. rewrite elem_of_filter. cbn. tauto. Qed.

(** The ports named cover every holder and requester but the sender. *)
Definition covers (s : Lines) (l : Z) (ts : list Z) (but : Z -> Prop) : Prop :=
  forall q, (q, l) ∈ resident s \/ (q, l) ∈ pending s -> ~ but q -> q ∈ ts.

Lemma named_covers s f l m but : sf_inv s f ->
  (forall q, port_ok q -> Z.testbit (Z.lor (holder (sf_item f l)) (requested (sf_item f l))) q = true -> ~ but q -> Z.testbit m q = true) ->
  covers s l (filter (fun p => Z.testbit m p = true) (sf_slavePorts f0)) but.
Proof.
  intros I Hm q Hq Hb. pose proof (si_ports _ _ I q l Hq) as Hp. apply list_elem_of_filter. split; [|done].
  pose proof (port_of q Hp) as Hok. apply Hm; [done| |done]. rewrite Z.lor_spec.
  destruct Hq as [Hq|Hq]; [by rewrite (si_hold _ _ I q l Hq)|].
  by rewrite (proj2 (si_req _ _ I q l Hok) Hq), orb_true_r.
Qed.

Lemma lookup_ok s f p pkt : sf_inv s f -> allowed (Lookup p pkt) s ->
  exists f' ts, sf_run (Lookup p pkt) f = Ok (f', ts) /\ sf_inv (moved (Lookup p pkt) ts s) f' /\
    covers s (line pkt) ts (fun q => q = p).
Proof.
  intros I (Hl & Hp & Hr). destruct (line_of s f pkt I Hl) as [Ea El]. pose proof (port_of p Hp) as Hok.
  cbn [sf_run]. unfold lookupRequest. rewrite Ea. cbn [mbind res_bind]. rewrite portToMask_ok, El by done. cbn [mbind res_bind].
  set (it := sf_item f (line pkt)).
  set (it' := if needsResponse pkt && negb (memInhibitAsserted pkt)
              then it <| requested := Z.lor (requested it) (2 ^ p) |> else it).
  assert ((if needsResponse pkt then
            if negb (memInhibitAsserted pkt) then
              _ ← panic_if (has_bit (requested it) (2 ^ p)); Ok (it <| requested := Z.lor (requested it) (2 ^ p) |>)
            else _ ← panic_if (negb (has_bit (holder it) (2 ^ p))); Ok it
          else Ok it) = Ok it') as ->.
  { unfold it'. destruct (needsResponse pkt); [|done]. specialize (Hr eq_refl).
    destruct (memInhibitAsserted pkt); cbn [negb andb]; rewrite has_bit_spec by apply Hok.
    - assert (Z.testbit (holder it) p = true) as -> by by apply (si_hold _ _ I). done.
    - destruct (Z.testbit (requested it) p) eqn:T; [|done]. by apply (si_req _ _ I p _ Hok) in T. }
  cbn [mbind res_bind]. set (s' := moved (Lookup p pkt)). set (m := Z.land _ _).
  assert (sf_inv s (set_item (line pkt) it f)) as I0.
  { apply (inv_set s s f); [done|by intros; split|..].
    - intros q. apply (si_ports _ _ I).
    - intros q. apply (si_req _ _ I).
    - apply (si_width _ _ I).
    - intros q. apply (si_hold _ _ I). }
  assert (maskToPortList (set_item (line pkt) it' f) m = Ok (filter (fun p => Z.testbit m p = true) (sf_slavePorts f0))) as ->.
  { change (maskToPortList (set_item (line pkt) it' f) m) with (maskToPortList f m). by apply (ports_named s). }
  cbn [mbind res_bind snoopSelected]. eexists _, _. split; [reflexivity|]. split.
  - apply (inv_set s); [done|..].
    + intros q l' Hne. subst s'. cbn. split.
      * destruct (isInvalidate pkt); [|done]. rewrite elem_of_invalidate. tauto.
      * destruct (_ && _); [|done]. set_solver.
    + intros q H. subst s'. cbn in H. assert ((q, line pkt) ∈ resident s \/ (q, line pkt) ∈ pending s \/ q = p) as H'.
      { destruct H as [H|H].
        - destruct (isInvalidate pkt); [apply elem_of_invalidate in H; tauto|tauto].
        - destruct (_ && _); [set_solver|tauto]. }
      destruct H' as [H'|[H'| ->]]; [apply (si_ports _ _ I q (line pkt)); tauto..|done].
    + intros q Hq. subst s' it' it. cbn. destruct (_ && _); [|by apply (si_req _ _ I)]. cbn.
      rewrite Z.lor_spec, pow2_bit by (apply Hok || apply Hq). rewrite orb_true_iff, bool_decide_eq_true.
      rewrite (si_req _ _ I q _ Hq). set_solver.
    + subst it'. destruct (_ && _); [apply inw64_set; [apply (si_width _ _ I)|done]|apply (si_width _ _ I)].
    + intros q H. subst s' it'. cbn in H. assert ((q, line pkt) ∈ resident s) as H'
        by (destruct (isInvalidate pkt); [apply elem_of_invalidate in H; tauto|done]).
      pose proof (si_hold _ _ I q _ H'). by destruct (_ && _).
  - apply (named_covers s f); [done|]. intros q Hq T Hne. subst m. fold it in T. rewrite clear_bit, T by done.
    by rewrite bool_decide_false.
Qed.

Lemma update_ok s f p pkt retry : sf_inv s f -> allowed (Update p pkt retry) s ->
  exists f', sf_run (Update p pkt retry) f = Ok (f', []) /\ sf_inv (moved (Update p pkt retry) [] s) f'.
Proof.
  intros I Hal. assert (pkt_line_ok pkt /\ p ∈ sf_slavePorts f0) as [Hl Hp] by (destruct retry; destruct Hal as (? & ? & _) || destruct Hal as [? ?]; done).
  destruct (line_of s f pkt I Hl) as [Ea El]. pose proof (port_of p Hp) as Hok.
  cbn [sf_run]. unfold updateRequest. rewrite Ea. cbn [mbind res_bind]. rewrite portToMask_ok, El by done. cbn [mbind res_bind].
  set (it := sf_item f (line pkt)). destruct retry; cbn [moved].
  - eexists. split; [reflexivity|]. apply (inv_set s); [done|..]; cbn.
    + intros q l' Hne. set_solver.
    + intros q H. apply (si_ports _ _ I q (line pkt)). set_solver.
    + intros q Hq. rewrite clear_bit by done. rewrite andb_true_iff, negb_true_iff, bool_decide_eq_false.
      unfold it. rewrite (si_req _ _ I q _ Hq). set_solver.
    + apply inw64_land, (si_width _ _ I).
    + intros q. apply (si_hold _ _ I).
  - destruct Hal as (_ & _ & Hc). destruct (needsResponse pkt) eqn:Hn; cbn [negb].
    + eexists. split; [reflexivity|]. apply (inv_set s); [done|by intros; split|..].
      * intros q. apply (si_ports _ _ I).
      * intros q. apply (si_req _ _ I).
      * apply (si_width _ _ I).
      * intros q. apply (si_hold _ _ I).
    + destruct Hc as [?|(Hw & Hres & Hpend)]; [done|]. rewrite bool_decide_true by done. rewrite !has_bit_spec by apply Hok.
      assert (Z.testbit (requested it) p = false) as ->.
      { apply not_true_iff_false. unfold it. rewrite (si_req _ _ I p _ Hok). done. }
      assert (Z.testbit (holder it) p = true) as -> by by apply (si_hold _ _ I).
      cbn [panic_if negb mbind res_bind]. eexists. split; [reflexivity|]. apply (inv_set s); [done|..]; cbn.
      * intros q l' Hne. set_solver.
      * intros q H. apply (si_ports _ _ I q (line pkt)). set_solver.
      * intros q. apply (si_req _ _ I).
      * apply (si_width _ _ I).
      * intros q [Hq Hne]%elem_of_difference. rewrite clear_bit by (try done; eapply port_of, (si_ports _ _ I); eauto).
        unfold it. rewrite (si_hold _ _ I q _ Hq), bool_decide_false by set_solver. done.
Qed.

Lemma snoop_ok s f pkt : sf_inv s f -> allowed (Snoop pkt) s ->
  exists f' ts, sf_run (Snoop pkt) f = Ok (f', ts) /\ sf_inv (moved (Snoop pkt) ts s) f' /\
    covers s (line pkt) ts (fun _ => False).
Proof.
  intros I (Hl & Hreq & Hinv). destruct (line_of s f pkt I Hl) as [Ea El].
  cbn [sf_run]. unfold lookupSnoop. rewrite Hreq, Ea. cbn [assert_ mbind res_bind]. rewrite El, Hinv, Bool.eqb_reflx.
  cbn [assert_ mbind res_bind]. set (it := sf_item f (line pkt)). rewrite <- Hinv.
  set (it' := if isInvalidate pkt && (requested it =? 0) then it <| holder := 0 |> else it).
  change (maskToPortList (set_item (line pkt) it' f)) with (maskToPortList f).
  rewrite (ports_named s f) by done. cbn [mbind res_bind snoopSelected]. set (ts := filter _ _).
  assert (covers s (line pkt) ts (fun _ => False)) as Hc by (apply (named_covers s f); [done|]; intros q _ T _; exact T).
  eexists _, ts. split; [reflexivity|]. split; [|done]. cbn [moved].
  apply (inv_set s); [done|..]; cbn.
  - intros q l' Hne. split; [|done]. destruct (isInvalidate pkt); [|done]. rewrite elem_of_invalidate. tauto.
  - intros q H. apply (si_ports _ _ I q (line pkt)). destruct (isInvalidate pkt); [rewrite elem_of_invalidate in H|]; tauto.
  - intros q Hq. unfold it'. assert (requested (if isInvalidate pkt && (requested it =? 0) then it <| holder := 0 |> else it) = requested it) as ->
      by by destruct (_ && _). by apply (si_req _ _ I).
  - unfold it'. destruct (_ && _); apply (si_width _ _ I).
  - intros q H. unfold it'. destruct (isInvalidate pkt); cbn [andb]; [|by apply (si_hold _ _ I)].
    apply elem_of_invalidate in H as [H Hne]. exfalso. apply Hne. split; [done|]. apply Hc; tauto.
Qed.

(** A response of either kind gives the line to its receiver. *)
Lemma receive_inv s s' f p l (ex : bool) : sf_inv s f -> p ∈ sf_slavePorts f0 -> (p, l) ∈ pending s ->
  (forall q l', (q, l') ∈ resident s' -> (q, l') = (p, l) \/ (q, l') ∈ resident s) ->
  (ex = true -> forall q, (q, l) ∈ resident s' -> q = p) ->
  pending s' = pending s ∖ {[(p, l)]} ->
  sf_inv s' (set_item l ((sf_item f l) <| holder := Z.lor (if ex then 0 else holder (sf_item f l)) (2 ^ p) |>
                           <| requested := Z.land (requested (sf_item f l)) (not64 (2 ^ p)) |>) f).
Proof.
  intros I Hp Hpend Hr Hex Hs'. pose proof (port_of p Hp) as Hok. apply (inv_set s); [done|..]; cbn.
  - intros q l' Hne. rewrite Hs'. split; [|set_solver]. intros H. destruct (Hr q l' H) as [[= -> ->]|]; done.
  - intros q [H|H].
    + destruct (Hr q l H) as [[= ->]|H']; [done|apply (si_ports _ _ I q l); by left].
    + apply (si_ports _ _ I q l). rewrite Hs' in H. set_solver.
  - intros q Hq. rewrite clear_bit, Hs' by done. rewrite andb_true_iff, negb_true_iff, bool_decide_eq_false.
    rewrite (si_req _ _ I q _ Hq). set_solver.
  - apply inw64_land, (si_width _ _ I).
  - intros q H. assert (port_ok q) as Hq.
    { destruct (Hr q l H) as [[= ->]|H']; [done|]. eapply port_of, (si_ports _ _ I). eauto. }
    rewrite Z.lor_spec, pow2_bit by (apply Hok || apply Hq).
    destruct ex; [rewrite (Hex eq_refl q H), bool_decide_true by done; by rewrite orb_true_r|].
    destruct (Hr q l H) as [[= ->]|H']; [by rewrite bool_decide_true, orb_true_r|by rewrite (si_hold _ _ I q l H')].
Qed.

Lemma response_ok s f p pkt : sf_inv s f -> allowed (Response p pkt) s ->
  exists f', sf_run (Response p pkt) f = Ok (f', []) /\ sf_inv (moved (Response p pkt) [] s) f'.
Proof.
  intros I (Hl & Hr & Hpend & Hex). destruct (line_of s f pkt I Hl) as [Ea El].
  assert (p ∈ sf_slavePorts f0) as Hp by (eapply (si_ports _ _ I); eauto). pose proof (port_of p Hp) as Hok.
  cbn [sf_run]. unfold updateResponse. rewrite Ea. cbn [mbind res_bind]. rewrite portToMask_ok, El, Hr by done.
  cbn [assert_ mbind res_bind]. rewrite has_bit_spec, (proj2 (si_req _ _ I p _ Hok) Hpend) by apply Hok.
  cbn [negb panic_if mbind res_bind]. eexists. split; [reflexivity|]. fold (exclusive pkt). cbn [moved].
  apply (receive_inv s); [done|done|done|set_solver| |done].
  intros E q. cbn. rewrite elem_of_union, elem_of_singleton. intros [[= ->]|Hq]; [done|by apply Hex].
Qed.

Lemma snoop_resp_ok s f rsp req pkt : sf_inv s f -> allowed (SnoopResp rsp req pkt) s ->
  exists f', sf_run (SnoopResp rsp req pkt) f = Ok (f', []) /\ sf_inv (moved (SnoopResp rsp req pkt) [] s) f'.
Proof.
  intros I (Hl & Hr & Hin & Hres & Hpend & Hex). destruct (line_of s f pkt I Hl) as [Ea El].
  assert (rsp ∈ sf_slavePorts f0) as Hp1 by (eapply (si_ports _ _ I); eauto).
  assert (req ∈ sf_slavePorts f0) as Hp2 by (eapply (si_ports _ _ I); eauto).
  pose proof (port_of _ Hp1) as O1. pose proof (port_of _ Hp2) as O2.
  cbn [sf_run]. unfold updateSnoopResponse. rewrite Ea. cbn [mbind res_bind]. rewrite !portToMask_ok, El, Hr, Hin by done.
  cbn [assert_ mbind res_bind]. 
  rewrite !has_bit_spec by (apply O1 || apply O2). rewrite (si_hold _ _ I rsp _ Hres), (proj2 (si_req _ _ I req _ O2) Hpend).
  cbn [negb panic_if mbind res_bind]. rewrite bool_decide_false by (intros E; unfold isResponse in Hr; by rewrite E in Hr).
  cbn [negb assert_ mbind res_bind]. eexists. split; [reflexivity|]. fold (exclusive pkt). cbn [moved].
  apply (receive_inv s); [done|done|done|..|done].
  - intros q l'. cbn. destruct (exclusive pkt); set_solver.
  - intros E q. cbn. rewrite E. rewrite elem_of_union, elem_of_difference, !elem_of_singleton.
    intros [[= ->]|[Hq Hne]]; [done|]. destruct (Hex E q Hq) as [->| ->]; done.
Qed.

Lemma forward_ok s f rsp pkt : sf_inv s f -> allowed (SnoopForward rsp pkt) s ->
  exists f', sf_run (SnoopForward rsp pkt) f = Ok (f', []) /\ sf_inv (moved (SnoopForward rsp pkt) [] s) f'.
Proof.
  intros I (Hl & Hp & Hr & Hin & Hex). destruct (line_of s f pkt I Hl) as [Ea El].
  cbn [sf_run]. unfold updateSnoopForward. rewrite Ea. cbn [mbind res_bind].
  rewrite portToMask_ok, El, Hr, Hin by by apply port_of. cbn [assert_ mbind res_bind].
  eexists. split; [reflexivity|]. cbn [moved]. apply (inv_set s); [done|by intros; split|..].
  - intros q. apply (si_ports _ _ I).
  - intros q Hq. assert (requested (if needsExclusive pkt then (sf_item f (line pkt)) <| holder := 0 |> else sf_item f (line pkt)) =
      requested (sf_item f (line pkt))) as -> by by destruct (needsExclusive pkt). by apply (si_req _ _ I).
  - destruct (needsExclusive pkt); apply (si_width _ _ I).
  - intros q H. destruct (needsExclusive pkt) eqn:E; [by apply (Hex eq_refl) in H|by apply (si_hold _ _ I)].
Qed.

Lemma event_ok s f ev : sf_inv s f -> allowed ev s ->
  exists f' ts, sf_run ev f = Ok (f', ts) /\ sf_inv (moved ev ts s) f'.
Proof.
  intros I Hal. destruct ev as [p pkt|p pkt r|pkt|rsp req pkt|rsp pkt|p pkt|p l].
  - destruct (lookup_ok s f p pkt I Hal) as (f' & ts & ? & ? & _). eauto.
  - destruct (update_ok s f p pkt r I Hal) as (f' & ? & ?). eauto.
  - destruct (snoop_ok s f pkt I Hal) as (f' & ts & ? & ? & _). eauto.
  - destruct (snoop_resp_ok s f rsp req pkt I Hal) as (f' & ? & ?). eauto.
  - destruct (forward_ok s f rsp pkt I Hal) as (f' & ? & ?). eauto.
  - destruct (response_ok s f p pkt I Hal) as (f' & ? & ?). eauto.
  - exists f, []. split; [done|]. destruct I as [I1 I2 I3 I4 I5]. split; try done; cbn.
    + intros q l' H. apply (I2 q l'). set_solver.
    + intros q l' H. apply I5. set_solver.
Qed.

(** Executions from a filter that knows nothing, above empty caches. *)
Inductive sf_reach : Lines -> SnoopFilter -> Prop :=
| sfr_new : sf_reach (mkLines ∅ ∅) f0
| sfr_step s f ev f' ts : sf_reach s f -> allowed ev s -> sf_run ev f = Ok (f', ts) ->
    sf_reach (moved ev ts s) f'.

Lemma sf_reach_inv s f : cachedLocations f0 = ∅ -> sf_reach s f -> sf_inv s f.
Proof.
  intros H0. induction 1 as [|s f ev f' ts _ IH Hal E].
  - assert (forall l, sf_item f0 l = mkSnoopItem 0 0) as Hi by (intros l; unfold sf_item; by rewrite H0, lookup_empty).
    split; [done|set_solver|..]; intros; rewrite ?Hi; cbn; [|done|set_solver]. rewrite Z.bits_0. set_solver.
  - destruct (event_ok s f ev IH Hal) as (f1 & ts1 & E1 & I1). rewrite E in E1. by injection E1 as <- <-.
Qed.

(** C12. In every execution that follows the protocol, whatever the caches drop on
    their own, no operation of the filter panics, and the ports it names for a
    request or a snoop from below include every port whose cache holds the
    line or waits for it, but the sender of the request. *)
Theorem snoop_filter_sound (s : Lines) (f : SnoopFilter) : cachedLocations f0 = ∅ -> sf_reach s f ->
  (forall ev, allowed ev s -> exists f' ts, sf_run ev f = Ok (f', ts)) /\
  (forall p pkt f' ts, allowed (Lookup p pkt) s -> sf_run (Lookup p pkt) f = Ok (f', ts) ->
     covers s (line pkt) ts (fun q => q = p)) /\
  (forall pkt f' ts, allowed (Snoop pkt) s -> sf_run (Snoop pkt) f = Ok (f', ts) ->
     covers s (line pkt) ts (fun _ => False)).
Proof.
  intros H0 Hr. pose proof (sf_reach_inv s f H0 Hr) as I. split; [|split].
  - intros ev Hal. destruct (event_ok s f ev I Hal) as (f' & ts & E & _). eauto.
  - intros p pkt f' ts Hal E. destruct (lookup_ok s f p pkt I Hal) as (f1 & ts1 & E1 & _ & Hc).
    rewrite E in E1. by injection E1 as <- <-.
  - intros pkt f' ts Hal E. destruct (snoop_ok s f pkt I Hal) as (f1 & ts1 & E1 & _ & Hc).
    rewrite E in E1. by injection E1 as <- <-.
Qed.

End Protocol.

(** C40. ** Lines four gigabytes apart

    The filter cannot tell them apart: when a port gets one of them for itself
    alone, the filter forgets who holds the other, and a snoop for that one is
    no longer sent there. *)
Theorem alias_forgets_holder (f f' f'' : SnoopFilter) (pkt snoop : Packet) (p q lat : Z) (ts : list Z) :
  filter_ok f -> updateResponse pkt q f = Ok f' -> exclusive pkt = true -> port_ok q ->
  requested (sf_item f' (line_addr f (addr snoop))) = 0 ->
  getAddr pkt = Ok (addr snoop + 2 ^ 32) -> getAddr snoop = Ok (addr snoop) ->
  lookupSnoop snoop f' = Ok (f'', (ts, lat)) -> p <> q -> p ∉ ts.
Proof.
  intros F E Hex Hq Hr Ha Hs E2 Hne. unfold updateResponse in E. rewrite Ha in E. cbn [mbind res_bind] in E.
  rewrite portToMask_ok, line_addr_alias in E by done. cbn [mbind res_bind] in E. fold (exclusive pkt) in E. rewrite Hex in E.
  res_inv. unfold lookupSnoop in E2. rewrite Hs in E2. cbn [mbind res_bind] in E2. 
  change (line_addr (set_item ?l ?i f) (addr snoop)) with (line_addr f (addr snoop)) in E2.
  rewrite !sf_item_set, decide_True in E2 by done. rewrite sf_item_set, decide_True in Hr by done.
  cbn [requested holder field_upd] in Hr, E2. rewrite Hr, Z.lor_0_l, Z.lor_0_r in E2. res_inv.
  unfold maskToPortList in *.
  match goal with H : mask_ports _ ?l = Ok ?t |- p ∉ ?t => revert t H; change l with (sf_slavePorts f) end.
  pose proof (fo_ports _ F) as Fp. intros t H. rewrite mask_ports_ok in H by done. injection H as <-.
  intros [Hb Hp]%list_elem_of_filter. rewrite Forall_forall in Fp. specialize (Fp p Hp).
  rewrite pow2_bit, bool_decide_false in Hb by (done || apply Fp || apply Hq). done.
Qed.

(** ** A bus of two ports *)
Definition ex_filter : SnoopFilter := setSlavePorts [0; 1] (SnoopFilter_new 64 1).

Lemma ex_filter_ok : filter_ok ex_filter.
Proof. split; [by exists 6|]. repeat constructor; unfold port_ok; cbn; lia. Qed.

(** Port 0 reads a line for itself; a request of port 1 for the same line is
    sent there. *)
Lemma snoop_filter_sound_witness : exists s f f' ts,
  sf_reach ex_filter s f /\ (0, 64) ∈ resident s /\
  sf_run (Lookup 1 (ex_packet ReadExReq 72 [])) f = Ok (f', ts) /\ covers s 64 ts (fun q => q = 1) /\ 0 ∈ ts.
Proof.
  set (rd := ex_packet ReadReq 80 []). set (rsp := ex_packet ReadResp 80 []).
  destruct (sf_run (Lookup 0 rd) ex_filter) as [[f1 t1]|] eqn:E1; [|vm_compute in E1; discriminate E1].
  destruct (sf_run (Update 0 rd false) f1) as [[f2 t2]|] eqn:E2;
    [|vm_compute in E1; injection E1 as <- <-; vm_compute in E2; discriminate E2].
  destruct (sf_run (Response 0 rsp) f2) as [[f3 t3]|] eqn:E3;
    [|vm_compute in E1; injection E1 as <- <-; vm_compute in E2; injection E2 as <- <-; vm_compute in E3; discriminate E3].
  assert (sf_reach ex_filter (mkLines {[(0, 64)]} ∅) f3) as Hr.
  { assert (moved ex_filter (Response 0 rsp) t3 (moved ex_filter (Update 0 rd false) t2 (moved ex_filter (Lookup 0 rd) t1 (mkLines ∅ ∅))) =
      mkLines {[(0, 64)]} ∅) as <- by reflexivity.
    eapply sfr_step; [|split_and!; [by split|reflexivity|reflexivity|discriminate]|exact E3].
    eapply sfr_step; [|split_and!; [by split|set_solver|by left]|exact E2].
    eapply sfr_step; [apply sfr_new|split_and!; [by split|set_solver|intros _; set_solver]|exact E1]. }
  destruct (snoop_filter_sound ex_filter ex_filter_ok _ _ eq_refl Hr) as (H1 & H2 & _).
  assert (allowed ex_filter (Lookup 1 (ex_packet ReadExReq 72 [])) (mkLines {[(0, 64)]} ∅)) as Hal
    by (split_and!; [by split|set_solver|intros _; vm_compute; set_solver]).
  destruct (H1 _ Hal) as (f' & ts & E). pose proof (H2 _ _ _ _ Hal E) as Hc.
  exists (mkLines {[(0, 64)]} ∅), f3, f', ts. split_and!; [exact Hr|set_solver|exact E|exact Hc|].
  apply (Hc 0); [left; reflexivity|discriminate].
Defined.

(** Port 0 holds line 64; port 1 gets the line four gigabytes above for
    itself, and a snoop for line 64 is sent to port 1 only. *)
Lemma alias_forgets_holder_witness : exists f f' ts lat,
  holder (sf_item f 64) = 1 /\
  updateResponse (ex_packet ReadExResp (64 + 2 ^ 32) []) 1 f = Ok f' /\
  lookupSnoop (ex_packet ReadExReq 64 []) f' = Ok (set_item 64 (mkSnoopItem 0 0) f', (ts, lat)) /\ 0 ∉ ts.
Proof.
  set (f := set_item 64 (mkSnoopItem 2 1) ex_filter).
  exists f, (set_item 64 (mkSnoopItem 0 2) f), [1], 1. split_and!; [reflexivity..|].
  apply (alias_forgets_holder f (set_item 64 (mkSnoopItem 0 2) f) (set_item 64 (mkSnoopItem 0 0) (set_item 64 (mkSnoopItem 0 2) f))
    (ex_packet ReadExResp (64 + 2 ^ 32) []) (ex_packet ReadExReq 64 []) 0 1 1 [1]); try reflexivity.
  - destruct ex_filter_ok. by split.
  - unfold port_ok. lia.
  - discriminate.
Defined.
