(* ===== verification/CoherentXBar.v ===== *)
(** * The coherent crossbar

    Models [mem/coherent_xbar.cc] and [mem/coherent_xbar.hh] on top of the base
    crossbar of XBar.v and the snoop filter of SnoopFilter.v.

    The peers of all ports share one state, the class [XBarPeers]; they do not
    call back into the crossbar before they return (caches schedule what they
    send).  A request object is known by its address [rq], which the set of
    outstanding requests is made of.  Ports are numbers; the port that mirrors
    slave port [i] for snoop responses is [snoop_resp_port i].  Packet
    statistics and traces are left out. *)

From S2P Require Import Prelude.
From S2P Require Import BitMath.
From S2P Require Import Flags.
From S2P Require Import Clock.
From S2P Require Import AddrRange.
From S2P Require Import RangeMap.
From S2P Require Import Packet.
From S2P Require Import XBar.
From S2P Require Import SnoopFilter.

(** What the ports lead to: [up] are the requesters above the slave ports,
    [down] the devices below the master ports. *)
Class XBarPeers (W : Type) := {
  up_timingResp : Z -> Packet -> W -> res (W * Packet * bool);
  up_timingSnoopReq : Z -> Packet -> W -> res (W * Packet);
  up_atomicSnoop : Z -> Packet -> W -> res (W * Packet * Z);
  up_functionalSnoop : Z -> Packet -> W -> res (W * Packet);
  down_timingReq : Z -> Packet -> W -> res (W * Packet * bool);
  down_timingSnoopResp : Z -> Packet -> W -> res (W * Packet * bool);
  down_atomic : Z -> Packet -> W -> res (W * Packet * Z);
  down_functional : Z -> Packet -> W -> res (W * Packet)
}.

Record CoherentXBar := mkCoherentXBar {
  cx : XBar;
  snoopLayers : list Layer;
  snoopPorts : list Z;
  outstandingReq : gset Z;
  snoopFilter : option SnoopFilter;
  bypassCaches : bool
}.

(** The crossbar with its ports, and what [init] finds out about the masters
    above. *)
Definition CoherentXBar_new (base : XBar) (idle : Layer) (nslaves : nat) (filter_ : option SnoopFilter)
    (bypass : bool) : CoherentXBar :=
  let slavePorts := Z.of_nat <$> seq 0 nslaves in
  mkCoherentXBar (base <| portCache := clearPortCache |>) (replicate (length (reqLayers base)) idle) [] ∅
    (setSlavePorts slavePorts <$> filter_) bypass.
Definition cx_init (isSnooping : Z -> bool) (nslaves : nat) (x : CoherentXBar) : CoherentXBar :=
  x <| snoopPorts := snoopPorts x ++ filter (fun p => isSnooping p = true) (Z.of_nat <$> seq 0 nslaves) |>.

Definition snoop_resp_port (i : Z) : Z := - i - 2.

(** Requests that are snooped. *)
Definition snooped (pkt : Packet) (x : CoherentXBar) : bool :=
  negb (isUncacheable (req pkt)) && negb (bypassCaches x).

Section Handlers.

Context {W : Type} {PW : XBarPeers W}.

(** ** Forwarding snoops *)
Fixpoint forward_loop (pkt : Packet) (exclude : Z) (dests : list Z) (w : W) : res (W * Packet) :=
  match dests with
  | [] => Ok (w, pkt)
  | p :: dests =>
      if (exclude =? InvalidPortID) || negb (p =? exclude) then
        '(w, pkt) ← up_timingSnoopReq p pkt w; forward_loop pkt exclude dests w
      else forward_loop pkt exclude dests w
  end.
Definition forwardTiming (pkt : Packet) (exclude : Z) (dests : list Z) (x : CoherentXBar) (w : W) : res (W * Packet) :=
  _ ← assert_ (negb (bypassCaches x)); forward_loop pkt exclude dests w.

(** The loop over the snoopers in atomic mode: the packet, the filter, and the
    command and latency of the one that responds. *)
Fixpoint atomic_loop (orig_cmd : Command) (exclude source : Z) (dests : list Z)
    (pkt : Packet) (rsp : Command) (lat : Z) (f : option SnoopFilter) (w : W)
  : res (W * option SnoopFilter * Packet * Command * Z) :=
  match dests with
  | [] => Ok (w, f, pkt, rsp, lat)
  | p :: dests =>
      if negb (exclude =? InvalidPortID) && (p =? exclude) then atomic_loop orig_cmd exclude source dests pkt rsp lat f w
      else
        '(w, pkt, latency) ← up_atomicSnoop p pkt w;
        if negb (isResponse pkt) then atomic_loop orig_cmd exclude source dests pkt rsp lat f w
        else
          _ ← assert_ (negb (bool_decide (cmd pkt = orig_cmd)));
          _ ← assert_ (memInhibitAsserted pkt);
          _ ← assert_ (bool_decide (rsp = InvalidCmd));
          f ← match f with
              | None => Ok None
              | Some f =>
                  if negb (source =? InvalidPortID) then
                    _ ← assert_ (exclude =? InvalidPortID);
                    f ← updateSnoopForward pkt p f; Ok (Some f)
                  else f ← updateSnoopResponse pkt p exclude f; Ok (Some f)
              end;
          atomic_loop orig_cmd exclude source dests (pkt <| cmd := orig_cmd |>) (cmd pkt) latency f w
  end.
Definition forwardAtomic (pkt : Packet) (exclude source : Z) (dests : list Z) (x : CoherentXBar) (w : W)
  : res (W * CoherentXBar * Packet * Command * Z) :=
  _ ← assert_ (negb (bypassCaches x));
  '(w, f, pkt, rsp, lat) ← atomic_loop (cmd pkt) exclude source dests pkt InvalidCmd 0 (snoopFilter x) w;
  Ok (w, x <| snoopFilter := f |>, pkt, rsp, lat).

Fixpoint functional_loop (pkt : Packet) (exclude : Z) (dests : list Z) (w : W) : res (W * Packet) :=
  match dests with
  | [] => Ok (w, pkt)
  | p :: dests =>
      '(w, pkt) ← (if (exclude =? InvalidPortID) || negb (p =? exclude) then up_functionalSnoop p pkt w else Ok (w, pkt));
      if isResponse pkt then Ok (w, pkt) else functional_loop pkt exclude dests w
  end.
Definition forwardFunctional (pkt : Packet) (exclude : Z) (x : CoherentXBar) (w : W) : res (W * Packet) :=
  _ ← assert_ (negb (bypassCaches x)); functional_loop pkt exclude (snoopPorts x) w.

(** ** Timing requests *)
Definition cx_upd_req (i : nat) (l : Layer) (x : CoherentXBar) : CoherentXBar := x <| cx := upd_req i l (cx x) |>.
Definition cx_upd_resp (i : nat) (l : Layer) (x : CoherentXBar) : CoherentXBar := x <| cx := upd_resp i l (cx x) |>.
Definition cx_upd_snoop (i : nat) (l : Layer) (x : CoherentXBar) : CoherentXBar :=
  x <| snoopLayers := <[i := l]> (snoopLayers x) |>.

(** The request is snooped; the filter says where, and takes its time. *)
Definition snoop_request (pkt : Packet) (sid finish : Z) (x : CoherentXBar) (w : W)
  : res (CoherentXBar * W * Packet * Z) :=
  if snooped pkt x then
    match snoopFilter x with
    | Some f =>
        '(f, (ts, lat)) ← lookupRequest pkt sid f;
        let x := x <| snoopFilter := Some f |> in
        '(w, pkt) ← forwardTiming pkt sid ts x w;
        Ok (x, w, pkt, u64 (finish + lat * x_period (cx x)))
    | None =>
        '(w, pkt) ← forwardTiming pkt sid (snoopPorts x) x w;
        Ok (x, w, pkt, finish)
    end
  else Ok (x, w, pkt, finish).

(** The filter sees the request as it was, and whether it was taken. *)
Definition filter_sent (orig_cmd : Command) (pkt : Packet) (sid : Z) (success : bool) (x : CoherentXBar) : res CoherentXBar :=
  match snoopFilter x with
  | Some f =>
      if snooped pkt x then
        f ← updateRequest (pkt <| cmd := orig_cmd |>) sid (negb success) f;
        Ok (x <| snoopFilter := Some f |>)
      else Ok x
  | None => Ok x
  end.

Definition recvTimingReq (now rq : Z) (pkt : Packet) (sid : Z) (x : CoherentXBar) (w : W)
  : res (CoherentXBar * W * Packet * bool) :=
  let is_express_snoop := isExpressSnoop pkt in
  a ← getAddr pkt;
  '(b, mid) ← findPort a (cx x);
  let x := x <| cx := b |> in
  let i := Z.to_nat mid in
  l ← deref (reqLayers b !! i);
  '(l, ok) ← (if is_express_snoop then Ok (l, true) else tryTiming sid l);
  let x := cx_upd_req i l x in
  if negb ok then Ok (x, w, pkt, false)
  else
    let pkt := setSrc sid pkt in
    pkt ← calcPacketTiming now pkt (cx x);
    '(x, w, pkt, finish) ← snoop_request pkt sid (u64 (lastWordDelay pkt + now)) x w;
    let add_outstanding := negb is_express_snoop && needsResponse pkt in
    x ← (if add_outstanding then
           _ ← assert_ (negb (bool_decide (rq ∈ outstandingReq x)));
           Ok (x <| outstandingReq := {[rq]} ∪ outstandingReq x |>)
         else Ok x);
    let orig_cmd := cmd pkt in
    '(w, pkt, success) ← down_timingReq mid pkt w;
    x ← filter_sent orig_cmd pkt sid success x;
    if is_express_snoop then _ ← assert_ success; Ok (x, w, pkt, success)
    else if negb success then
      _ ← assert_ (negb (memInhibitAsserted pkt));
      let x := if add_outstanding then x <| outstandingReq := outstandingReq x ∖ {[rq]} |> else x in
      let pkt := pkt <| firstWordDelay := 0 |> <| lastWordDelay := 0 |> in
      l ← failedTiming now sid (u64 (edge (x_period b) now + x_period b * headerCycles b)) l;
      Ok (cx_upd_req i l x, w, pkt, false)
    else
      l ← succeededTiming now finish l;
      Ok (cx_upd_req i l x, w, pkt, true).

(** ** Timing responses *)
Definition recvTimingResp (now rq : Z) (pkt : Packet) (mid : Z) (x : CoherentXBar) (w : W)
  : res (CoherentXBar * W * Packet * bool) :=
  sid ← getDest pkt;
  let i := Z.to_nat sid in
  l ← deref (respLayers (cx x) !! i);
  '(l, ok) ← tryTiming mid l;
  let x := cx_upd_resp i l x in
  if negb ok then Ok (x, w, pkt, false)
  else
    pkt ← calcPacketTiming now pkt (cx x);
    let finish := u64 (lastWordDelay pkt + now) in
    _ ← assert_ (bool_decide (rq ∈ outstandingReq x));
    x ← match snoopFilter x with
        | Some f => if snooped pkt x then f ← updateResponse pkt sid f; Ok (x <| snoopFilter := Some f |>) else Ok x
        | None => Ok x
        end;
    let x := x <| outstandingReq := outstandingReq x ∖ {[rq]} |> in
    '(w, pkt, success) ← up_timingResp sid pkt w;
    _ ← assert_ success;
    l ← succeededTiming now finish l;
    Ok (cx_upd_resp i l x, w, pkt, true).

(** ** Timing snoops *)
Definition recvTimingSnoopReq (pkt : Packet) (mid : Z) (x : CoherentXBar) (w : W)
  : res (CoherentXBar * W * Packet) :=
  _ ← assert_ (isExpressSnoop pkt);
  let pkt := setSrc mid pkt in
  '(x, w, pkt) ← match snoopFilter x with
    | Some f =>
        '(f, (ts, _)) ← lookupSnoop pkt f;
        let x := x <| snoopFilter := Some f |> in
        '(w, pkt) ← forwardTiming pkt InvalidPortID ts x w; Ok (x, w, pkt)
    | None => '(w, pkt) ← forwardTiming pkt InvalidPortID (snoopPorts x) x w; Ok (x, w, pkt)
    end;
  a ← getAddr pkt;
  '(b, m) ← findPort a (cx x);
  _ ← assert_ (mid =? m);
  Ok (x <| cx := b |>, w, pkt).

(** A snoop response to a snoop that came from below. *)
Definition snoop_resp_forward (now : Z) (pkt : Packet) (sid dest : Z) (x : CoherentXBar) (w : W)
  : res (CoherentXBar * W * Packet * bool) :=
  let i := Z.to_nat dest in
  l ← deref (snoopLayers x !! i);
  '(l, ok) ← tryTiming sid l;
  let x := cx_upd_snoop i l x in
  if negb ok then Ok (x, w, pkt, false)
  else
    _ ← assert_ (negb (isExpressSnoop pkt));
    pkt ← calcPacketTiming now pkt (cx x);
    let finish := u64 (lastWordDelay pkt + now) in
    x ← match snoopFilter x with
        | Some f => f ← updateSnoopForward pkt sid f; Ok (x <| snoopFilter := Some f |>)
        | None => Ok x
        end;
    '(w, pkt, success) ← down_timingSnoopResp dest pkt w;
    _ ← assert_ success;
    l ← succeededTiming now finish l;
    Ok (cx_upd_snoop i l x, w, pkt, true).

(** A snoop response that answers a request from above. *)
Definition snoop_resp_answer (now rq : Z) (pkt : Packet) (sid dest : Z) (x : CoherentXBar) (w : W)
  : res (CoherentXBar * W * Packet * bool) :=
  let i := Z.to_nat dest in
  l ← deref (respLayers (cx x) !! i);
  '(l, ok) ← tryTiming (snoop_resp_port sid) l;
  let x := cx_upd_resp i l x in
  if negb ok then Ok (x, w, pkt, false)
  else
    _ ← assert_ (negb (isExpressSnoop pkt));
    pkt ← calcPacketTiming now pkt (cx x);
    let finish := u64 (lastWordDelay pkt + now) in
    let x := x <| outstandingReq := outstandingReq x ∖ {[rq]} |> in
    _ ← assert_ (negb (sid =? dest));
    x ← match snoopFilter x with
        | Some f => f ← updateSnoopResponse pkt sid dest f; Ok (x <| snoopFilter := Some f |>)
        | None => Ok x
        end;
    '(w, pkt, success) ← up_timingResp dest pkt w;
    _ ← assert_ success;
    l ← succeededTiming now finish l;
    Ok (cx_upd_resp i l x, w, pkt, true).

Definition recvTimingSnoopResp (now rq : Z) (pkt : Packet) (sid : Z) (x : CoherentXBar) (w : W)
  : res (CoherentXBar * W * Packet * bool) :=
  dest ← getDest pkt;
  if negb (bool_decide (rq ∈ outstandingReq x)) then snoop_resp_forward now pkt sid dest x w
  else snoop_resp_answer now rq pkt sid dest x w.

Definition recvRetry (now mid : Z) (sendRetry : Z -> Layer -> res Layer) (x : CoherentXBar) : res CoherentXBar :=
  b ← XBar.recvRetry now mid sendRetry (cx x); Ok (x <| cx := b |>).

(** ** Atomic accesses

    First the caches above are asked; a response of one of them is kept. *)
Definition snoop_atomic (pkt : Packet) (sid : Z) (x : CoherentXBar) (w : W)
  : res (CoherentXBar * W * Packet * Command * Z) :=
  if snooped pkt x then
    match snoopFilter x with
    | Some f =>
        '(f, (ts, lat)) ← lookupRequest pkt sid f;
        '(w, x, pkt, rsp, l) ← forwardAtomic pkt sid InvalidPortID ts (x <| snoopFilter := Some f |>) w;
        Ok (x, w, pkt, rsp, lat * x_period (cx x) + l)
    | None =>
        '(w, x, pkt, rsp, l) ← forwardAtomic pkt sid InvalidPortID (snoopPorts x) x w;
        Ok (x, w, pkt, rsp, l)
    end
  else Ok (x, w, pkt, InvalidCmd, 0).

(** The filter sees the response of the memory. *)
Definition filter_response (pkt : Packet) (sid : Z) (x : CoherentXBar) : res CoherentXBar :=
  match snoopFilter x with
  | Some f =>
      if snooped pkt x && isResponse pkt then
        f ← updateResponse pkt sid f; Ok (x <| snoopFilter := Some f |>)
      else Ok x
  | None => Ok x
  end.

(** Then the memory, in any case. *)
Definition atomic_below (pkt : Packet) (sid : Z) (rsp : Command) (snoop_lat : Z) (x : CoherentXBar) (w : W)
  : res (CoherentXBar * W * Packet * Z) :=
  a ← getAddr pkt;
  '(b, mid) ← findPort a (cx x);
  '(w, pkt, response_latency) ← down_atomic mid pkt w;
  x ← filter_response pkt sid (x <| cx := b |>);
  '(pkt, response_latency) ←
    (if negb (bool_decide (rsp = InvalidCmd)) then
       _ ← assert_ (negb (isResponse pkt)); Ok (pkt <| cmd := rsp |>, u64 snoop_lat)
     else Ok (pkt, response_latency));
  Ok (x, w, pkt <| lastWordDelay := u32 response_latency |>, response_latency).

Definition recvAtomic (pkt : Packet) (sid : Z) (x : CoherentXBar) (w : W) : res (CoherentXBar * W * Packet * Z) :=
  '(x, w, pkt, rsp, snoop_lat) ← snoop_atomic pkt sid x w;
  atomic_below pkt sid rsp snoop_lat x w.

Definition recvAtomicSnoop (pkt : Packet) (mid : Z) (x : CoherentXBar) (w : W) : res (CoherentXBar * W * Packet * Z) :=
  '(x, w, pkt, rsp, snoop_lat) ←
    match snoopFilter x with
    | Some f =>
        '(f, (ts, lat)) ← lookupSnoop pkt f;
        '(w, x, pkt, rsp, l) ← forwardAtomic pkt InvalidPortID mid ts (x <| snoopFilter := Some f |>) w;
        Ok (x, w, pkt, rsp, u64 (lat * x_period (cx x) + l))
    | None =>
        '(w, x, pkt, rsp, l) ← forwardAtomic pkt InvalidPortID InvalidPortID (snoopPorts x) x w;
        Ok (x, w, pkt, rsp, l)
    end;
  let pkt := if negb (bool_decide (rsp = InvalidCmd)) then pkt <| cmd := rsp |> else pkt in
  Ok (x, w, pkt <| lastWordDelay := u32 snoop_lat |>, snoop_lat).

(** ** Functional accesses *)
Definition recvFunctional (pkt : Packet) (sid : Z) (x : CoherentXBar) (w : W) : res (CoherentXBar * W * Packet) :=
  '(w, pkt) ← (if snooped pkt x then forwardFunctional pkt sid x w else Ok (w, pkt));
  if negb (isResponse pkt) then
    a ← getAddr pkt;
    '(b, dest_id) ← findPort a (cx x);
    '(w, pkt) ← down_functional dest_id pkt w;
    Ok (x <| cx := b |>, w, pkt)
  else Ok (x, w, pkt).
Definition recvFunctionalSnoop (pkt : Packet) (x : CoherentXBar) (w : W) : res (W * Packet) :=
  forwardFunctional pkt InvalidPortID x w.

End Handlers.

(** The number of layers that will signal later. *)
Definition drain (x : CoherentXBar) : CoherentXBar * Z :=
  let '(b, n) := XBar.drain (cx x) in
  (x <| cx := b |> <| snoopLayers := fst ∘ layer_drain <$> snoopLayers x |>,
   n + foldr Z.add 0 (snd ∘ layer_drain <$> snoopLayers x)).

(** ** Atomic accesses with and without the filter *)
#[local] Arguments isInvalidate : simpl never.
#[local] Arguments needsResponse : simpl never.
#[local] Arguments needsExclusive : simpl never.
#[local] Arguments isResponse : simpl never.
#[local] Arguments memInhibitAsserted : simpl never.
#[local] Arguments sharedAsserted : simpl never.
#[local] Arguments snooped : simpl never.

Section Atomic.

Context {W : Type} {PW : XBarPeers W}.
Context (f0 : SnoopFilter) (holds : W -> Z -> Z -> bool).
Hypothesis F0 : filter_ok f0.

Abbreviation ln := (SnoopFilter.line f0).

(** What a peer leaves alone in a packet. *)
Record kept (pkt pkt' : Packet) : Prop := {
  kp_addr : addr pkt' = addr pkt;
  kp_get : getAddr pkt' = getAddr pkt;
  kp_req : req pkt' = req pkt;
  kp_shared : sharedAsserted pkt = true -> sharedAsserted pkt' = true
}.

(** What a cache does when it is snooped: without the line nothing; told to
    invalidate, it loses the line; when it keeps the line it says so; and only
    one cache responds, inhibiting the memory. *)
Record snoop_effect (p : Z) (pkt : Packet) (w w' : W) (pkt' : Packet) : Prop := {
  se_kept : kept pkt pkt';
  se_miss : holds w p (ln pkt) = false -> w' = w /\ pkt' = pkt;
  se_less : forall q l, holds w' q l = true -> holds w q l = true;
  se_lost : isInvalidate pkt = true -> holds w' p (ln pkt) = false;
  se_shared : isInvalidate pkt = false -> holds w p (ln pkt) = true -> sharedAsserted pkt' = true;
  se_resp : isResponse pkt' = true -> cmd pkt' = responseCommand (cmd pkt) /\
    memInhibitAsserted pkt = false /\ memInhibitAsserted pkt' = true;
  se_quiet : isResponse pkt' = false -> cmd pkt' = cmd pkt /\ memInhibitAsserted pkt' = memInhibitAsserted pkt
}.

(** What the memory below does with a request: it responds unless a cache
    has. *)
Record memory_effect (pkt : Packet) (w w' : W) (pkt' : Packet) : Prop := {
  me_kept : kept pkt pkt';
  me_less : forall q l, holds w' q l = true -> holds w q l = true;
  me_silent : memInhibitAsserted pkt = true -> isResponse pkt' = false;
  me_resp : memInhibitAsserted pkt = false -> needsResponse pkt = true ->
    isResponse pkt' = true /\ cmd pkt' = responseCommand (cmd pkt)
}.

Record coherent_peers : Prop := {
  cp_snoop : forall p pkt w w' pkt' lat, isRequest pkt = true ->
    up_atomicSnoop p pkt w = Ok (w', pkt', lat) -> snoop_effect p pkt w w' pkt';
  cp_memory : forall mid pkt w w' pkt' lat, isRequest pkt = true ->
    down_atomic mid pkt w = Ok (w', pkt', lat) -> memory_effect pkt w w' pkt'
}.
Hypothesis C : coherent_peers.

Lemma kept_refl pkt : kept pkt pkt.
Proof. by split. Qed.

Lemma kept_trans a b c : kept a b -> kept b c -> kept a c.
Proof. intros [A1 A2 A3 A4] [B1 B2 B3 B4]. split; try congruence. auto. Qed.

Lemma kept_cmd pkt c : kept pkt (pkt <| cmd := c |>).
Proof. by split. Qed.

(** Responses to requests that take no line for themselves take none either. *)
Lemma response_shared c : cmd_isRequest c = true -> cmd_needsExclusive c = false ->
  cmd_needsExclusive (responseCommand c) = false.
Proof. destruct c; vm_compute; done. Qed.

Lemma response_no_request c : cmd_isRequest c = true -> cmd_isResponse c = false.
Proof. destruct c; vm_compute; done. Qed.

Lemma response_valid c : cmd_needsResponse c = true -> responseCommand c <> InvalidCmd.
Proof. destruct c; vm_compute; done. Qed.

Section Loop.

(** A request of port [sid] for line [l], as it entered; [f1] is the filter
    after the lookup. *)
Context (oc : Command) (sid l : Z) (f1 : SnoopFilter).
Hypothesis Oc : cmd_isRequest oc = true.
Hypothesis Ex : cmd_isInvalidate oc = cmd_needsExclusive oc.
Hypothesis Nr : cmd_needsResponse oc = true.
Hypothesis Sid : port_ok sid.
Hypothesis Line1 : forall pkt, pkt_line_ok pkt -> ln pkt = l -> line_addr f1 (addr pkt) = l.
Hypothesis Req1 : Z.testbit (requested (sf_item f1 l)) sid = true.

Definition answered (h : Z) : SnoopFilter :=
  set_item l (mkSnoopItem (Z.land (requested (sf_item f1 l)) (not64 (2 ^ sid))) (Z.lor h (2 ^ sid))) f1.

(** Before a cache has responded, and after. *)
Definition phase (pkt : Packet) (rsp : Command) (f : SnoopFilter) : Prop :=
  rsp = InvalidCmd /\ f = f1 /\ memInhibitAsserted pkt = false \/
  rsp = responseCommand oc /\ memInhibitAsserted pkt = true /\
  exists h, f = answered h /\ (h = holder (sf_item f1 l) \/ cmd_isInvalidate oc = true).

Lemma phase_quiet pkt pkt' rsp f : memInhibitAsserted pkt' = memInhibitAsserted pkt -> phase pkt rsp f -> phase pkt' rsp f.
Proof. unfold phase. by intros ->. Qed.

(** The response of a snooper, as the filter sees it. *)
Lemma snooper_answers p pkt w w1 pkt1 : snoop_effect p pkt w w1 pkt1 -> pkt_line_ok pkt -> ln pkt = l ->
  cmd pkt = oc -> isResponse pkt1 = true -> port_ok p ->
  (holds w p l = true -> Z.testbit (holder (sf_item f1 l)) p = true) ->
  exists h, updateSnoopResponse pkt1 p sid f1 = Ok (answered h) /\ (h = holder (sf_item f1 l) \/ cmd_isInvalidate oc = true).
Proof.
  intros S [Ha Hb] Hl Hc Hr Hp Hold. destruct (se_resp _ _ _ _ _ S Hr) as (Ec & _ & Hin).
  destruct (se_kept _ _ _ _ _ S) as [K1 K2 K3 K4].
  assert (holds w p l = true) as Hh.
  { destruct (holds w p l) eqn:E; [done|]. destruct (se_miss _ _ _ _ _ S) as [_ ->]; [by rewrite Hl|].
    unfold isResponse in Hr. rewrite Hc in Hr. by rewrite (response_no_request oc Oc) in Hr. }
  exists (if needsExclusive pkt1 || negb (sharedAsserted pkt1) then 0 else holder (sf_item f1 l)). split.
  - unfold updateSnoopResponse. rewrite K2, Ha. cbn [mbind res_bind]. rewrite !portToMask_ok by done. cbn [mbind res_bind].
    rewrite (Line1 pkt) by done. rewrite Hr, Hin. cbn [assert_ mbind res_bind].
    rewrite !has_bit_spec by (apply Hp || apply Sid). rewrite (Hold Hh), Req1. cbn [negb panic_if mbind res_bind].
    rewrite bool_decide_false by (intros E; unfold isResponse in Hr; by rewrite E in Hr). done.
  - destruct (cmd_isInvalidate oc) eqn:Ei; [by right|]. left.
    rewrite (se_shared _ _ _ _ _ S); [|unfold isInvalidate; by rewrite Hc|by rewrite Hl].
    unfold needsExclusive. rewrite Ec, Hc, response_shared by done. done.
Qed.

Context (m : Z).

(** The loop over all ports, and the loop over those the filter names. *)
Lemma atomic_loop_filtered ports pkt rsp lat f w w' fo pkt' rsp' lat' :
  (forall q, q ∈ ports -> port_ok q /\ (q = sid -> Z.testbit m q = false) /\
     (q <> sid -> holds w q l = true -> Z.testbit m q = true /\ Z.testbit (holder (sf_item f1 l)) q = true)) ->
  phase pkt rsp f -> pkt_line_ok pkt -> ln pkt = l -> cmd pkt = oc ->
  atomic_loop oc sid InvalidPortID ports pkt rsp lat None w = Ok (w', fo, pkt', rsp', lat') ->
  exists f', atomic_loop oc sid InvalidPortID (filter (fun q => Z.testbit m q = true) ports) pkt rsp lat (Some f) w =
      Ok (w', Some f', pkt', rsp', lat') /\
    phase pkt' rsp' f' /\ kept pkt pkt' /\ cmd pkt' = oc /\ fo = None /\
    (forall q l', holds w' q l' = true -> holds w q l' = true) /\
    forall q, q ∈ ports -> q <> sid ->
      (cmd_isInvalidate oc = true -> holds w' q l = false) /\
      (cmd_isInvalidate oc = false -> holds w' q l = true -> sharedAsserted pkt' = true).
Proof.
  assert (sid =? InvalidPortID = false) as Hsid by (apply Z.eqb_neq; unfold port_ok, InvalidPortID in *; lia).
  revert pkt rsp lat f w. induction ports as [|p ports IH]; intros pkt rsp lat f w Hm Hph Hpk Hl Hc E.
  { cbn in E. injection E as <- <- <- <- <-. exists f. split_and!; try done. intros q Hq. by apply not_elem_of_nil in Hq. }
  destruct (Hm p) as (Hp & Hself & Hbit); [by left|]. cbn [atomic_loop] in E. rewrite Hsid in E. cbn [negb andb] in E.
  destruct (Z.eqb_spec p sid) as [->|Hne].
  { rewrite filter_cons_False by (by rewrite Hself).
    destruct (IH pkt rsp lat f w) as (f' & E' & R1 & R2 & R3 & R4 & R5 & R6); try done.
    - intros q Hq. apply Hm. by right.
    - exists f'. split_and!; try done. intros q [->|Hq]%elem_of_cons; [done|by apply R6]. }
  destruct (up_atomicSnoop p pkt w) as [[[w1 pkt1] lat1]|] eqn:Eu; [|done]. cbn [mbind res_bind] in E.
  assert (snoop_effect p pkt w w1 pkt1) as S by (eapply (cp_snoop C); [unfold isRequest; by rewrite Hc|exact Eu]).
  assert (Hm1 : forall q, q ∈ ports -> port_ok q /\ (q = sid -> Z.testbit m q = false) /\
     (q <> sid -> holds w1 q l = true -> Z.testbit m q = true /\ Z.testbit (holder (sf_item f1 l)) q = true)).
  { intros q Hq. destruct (Hm q) as (H1 & H2 & H3); [by right|]. split_and!; try done.
    intros Hqs Hh. apply H3; [done|]. by apply (se_less _ _ _ _ _ S). }
  pose proof (se_kept _ _ _ _ _ S) as K.
  assert (Hline : forall c, pkt_line_ok (pkt1 <| cmd := c |>) /\ ln (pkt1 <| cmd := c |>) = l).
  { intros c. destruct K as [K1 K2 _ _], Hpk as [Hpa Hpb]. split.
    - split; [change (getAddr (pkt1 <| cmd := c |>)) with (getAddr pkt1); rewrite K2, Hpa; cbn; by rewrite K1|cbn; by rewrite K1].
    - unfold SnoopFilter.line. cbn. by rewrite K1. }
  assert (Hlast : forall pkt2 w2, (forall q l', holds w2 q l' = true -> holds w1 q l' = true) -> kept pkt1 pkt2 ->
     (cmd_isInvalidate oc = true -> holds w2 p l = false) /\
     (cmd_isInvalidate oc = false -> holds w2 p l = true -> sharedAsserted pkt2 = true)).
  { intros pkt2 w2 Hless K2. split.
    - intros Ei. destruct (holds w2 p l) eqn:Eh; [|done]. apply Hless in Eh.
      rewrite <- Hl, (se_lost _ _ _ _ _ S) in Eh; [done|]. unfold isInvalidate. by rewrite Hc.
    - intros Ei Hh. apply (kp_shared _ _ K2), (se_shared _ _ _ _ _ S); [unfold isInvalidate; by rewrite Hc|].
      rewrite Hl. by apply (se_less _ _ _ _ _ S), Hless. }
  destruct (isResponse pkt1) eqn:Er; cbn [negb] in E.
  - (* the snooper responds *)
    destruct (assert_ (negb (bool_decide (cmd pkt1 = oc)))) as [[]|] eqn:A1; [|done]. cbn [mbind res_bind] in E.
    destruct (assert_ (memInhibitAsserted pkt1)) as [[]|] eqn:A2; [|done]. cbn [mbind res_bind] in E.
    destruct (bool_decide (rsp = InvalidCmd)) eqn:A3; [|done]. cbn [assert_ mbind res_bind] in E.
    apply bool_decide_eq_true in A3. destruct (se_resp _ _ _ _ _ S Er) as (Ec & Hi0 & Hi1).
    destruct Hph as [(_ & -> & _)|(_ & Hi & _)]; [|by rewrite Hi in Hi0].
    assert (holds w p l = true) as Hh.
    { destruct (holds w p l) eqn:Eh; [done|]. destruct (se_miss _ _ _ _ _ S) as [_ ->]; [by rewrite Hl|].
      unfold isResponse in Er. by rewrite Hc, (response_no_request oc Oc) in Er. }
    destruct (snooper_answers p pkt w w1 pkt1 S Hpk Hl Hc Er Hp) as (h & Ef & Hex); [by intros; apply Hbit|].
    destruct (Hline oc) as [HL1 HL2].
    destruct (IH (pkt1 <| cmd := oc |>) (cmd pkt1) lat1 (answered h) w1) as (f' & E' & R1 & R2 & R3 & R4 & R5 & R6); try done.
    { right. rewrite Ec, Hc. split_and!; [done|done|by exists h]. }
    exists f'. split; [|split_and!; try done].
    + rewrite filter_cons_True by (by apply Hbit). cbn [atomic_loop]. rewrite Hsid. cbn [negb andb].
      rewrite (proj2 (Z.eqb_neq p sid) Hne), Eu. cbn [mbind res_bind]. rewrite Er, A1, A2, A3, Ef. cbn [negb mbind res_bind].
      rewrite bool_decide_true by done. exact E'.
    + eapply kept_trans; [exact K|]. eapply kept_trans; [apply kept_cmd|exact R2].
    + intros q l' Hq. by apply (se_less _ _ _ _ _ S), R5.
    + intros q [->|Hq]%elem_of_cons Hqs; [|by apply R6]. apply Hlast; [done|].
      eapply kept_trans; [apply (kept_cmd pkt1 oc)|exact R2].
  - (* it does not *)
    destruct (se_quiet _ _ _ _ _ S Er) as [Ec Hi]. destruct (Hline oc) as [HL1 HL2].
    assert (pkt1 <| cmd := oc |> = pkt1) as Epk by (rewrite <- Hc, <- Ec; by destruct pkt1). rewrite Epk in HL1, HL2.
    destruct (IH pkt1 rsp lat f w1) as (f' & E' & R1 & R2 & R3 & R4 & R5 & R6); try done; [by eapply phase_quiet|by rewrite Ec|].
    exists f'. split; [|split_and!; try done].
    + rewrite filter_cons. destruct (decide (Z.testbit m p = true)) as [Hb|Hb].
      * cbn [atomic_loop]. rewrite Hsid. cbn [negb andb]. rewrite (proj2 (Z.eqb_neq p sid) Hne), Eu. cbn [mbind res_bind].
        by rewrite Er.
      * assert (holds w p l = false) as Hh by (destruct (holds w p l) eqn:Eh; [by destruct (Hbit Hne eq_refl)|done]).
        destruct (se_miss _ _ _ _ _ S) as [-> ->]; [by rewrite Hl|]. exact E'.
    + by eapply kept_trans.
    + intros q l' Hq. by apply (se_less _ _ _ _ _ S), R5.
    + intros q [->|Hq]%elem_of_cons Hqs; [|by apply R6]. by apply Hlast.
Qed.

End Loop.

(** *** Whole accesses *)
Lemma response_responds c : cmd_needsResponse c = true -> cmd_isResponse (responseCommand c) = true.
Proof. destruct c; vm_compute; done. Qed.

(** Between accesses: the filter of the bus knows every holder, and has no
    request outstanding; every port snoops. *)
Record known (x : CoherentXBar) (f : SnoopFilter) (w : W) : Prop := {
  kn_filter : snoopFilter x = Some f;
  kn_same : linesize f = linesize f0 /\ sf_slavePorts f = sf_slavePorts f0;
  kn_ports : snoopPorts x = sf_slavePorts f0;
  kn_none : forall l, requested (sf_item f l) = 0;
  kn_hold : forall q l, holds w q l = true -> q ∈ sf_slavePorts f0 /\ Z.testbit (holder (sf_item f l)) q = true
}.

(** A request of a cache for a whole line. *)
Record line_request (pkt : Packet) : Prop := {
  lq_line : pkt_line_ok pkt;
  lq_request : isRequest pkt = true;
  lq_exclusive : isInvalidate pkt = needsExclusive pkt;
  lq_response : needsResponse pkt = true;
  lq_fresh : memInhibitAsserted pkt = false
}.

Lemma same_filter_ok f : linesize f = linesize f0 /\ sf_slavePorts f = sf_slavePorts f0 -> filter_ok f.
Proof. intros [E1 E2]. destruct F0. split; by rewrite ?E1, ?E2. Qed.

Lemma filter_same_line f pkt : linesize f = linesize f0 /\ sf_slavePorts f = sf_slavePorts f0 -> pkt_line_ok pkt ->
  line_addr f (addr pkt) = ln pkt.
Proof.
  intros E [_ Hb]. rewrite line_addr_block by (done || by apply same_filter_ok). unfold SnoopFilter.line, block.
  destruct E as [E _]. by rewrite E.
Qed.

Lemma cleared p : 0 <= p -> Z.land (2 ^ p) (not64 (2 ^ p)) = 0.
Proof.
  intros Hp. apply Z.bits_inj'. intros i Hi. rewrite Z.land_spec, not64_spec, Z.bits_0, pow2_bit by lia.
  destruct (bool_decide (i = p)); done.
Qed.

(** The lookup of a request. *)
Lemma lookup_fresh f w x pkt sid : known x f w -> line_request pkt -> sid ∈ sf_slavePorts f0 ->
  let f1 := set_item (ln pkt) (mkSnoopItem (2 ^ sid) (holder (sf_item f (ln pkt)))) f in
  lookupRequest pkt sid f = Ok (f1, (filter (fun q => Z.testbit (Z.land (holder (sf_item f (ln pkt))) (not64 (2 ^ sid))) q = true)
    (sf_slavePorts f0), lookupLatency f)).
Proof.
  intros [K1 K2 K3 K4 K5] [Q1 Q2 Q3 Q4 Q5] Hsid f1.
  assert (port_ok sid) as Hok by (pose proof (fo_ports _ F0) as Hf; rewrite Forall_forall in Hf; by apply Hf).
  unfold lookupRequest. rewrite (proj1 Q1). cbn [mbind res_bind]. rewrite portToMask_ok by done. cbn [mbind res_bind].
  rewrite (filter_same_line f pkt K2 Q1), Q4, Q5. cbn [negb]. rewrite K4, has_bit_spec, Z.bits_0 by apply Hok.
  cbn [panic_if mbind res_bind]. rewrite Z.lor_0_l, Z.lor_0_r.
  change ((sf_item f (ln pkt)) <| requested := 2 ^ sid |>) with (mkSnoopItem (2 ^ sid) (holder (sf_item f (ln pkt)))).
  fold f1. unfold maskToPortList. change (sf_slavePorts f1) with (sf_slavePorts f). rewrite (proj2 K2).
  rewrite mask_ports_ok by apply F0. done.
Qed.

(** The invariant after the access, from the item of the line. *)
Lemma known_after x x' f f1 w w' sid l it : known x f w -> f1 = set_item l (mkSnoopItem (2 ^ sid) (holder (sf_item f l))) f ->
  snoopFilter x' = Some (set_item l it f1) -> snoopPorts x' = snoopPorts x ->
  (forall q l', holds w' q l' = true -> holds w q l' = true) -> requested it = 0 ->
  (forall q, holds w' q l = true -> Z.testbit (holder it) q = true) -> known x' (set_item l it f1) w'.
Proof.
  intros [K1 K2 K3 K4 K5] -> Hx Hp Hless Hr Hh. split; [done|done|by rewrite Hp|..].
  - intros l'. rewrite !sf_item_set. by destruct (decide (l' = l)).
  - intros q l' Hq. destruct (K5 q l' (Hless q l' Hq)) as [P1 P2]. split; [done|].
    rewrite !sf_item_set. destruct (decide (l' = l)) as [->|]; [by apply Hh|done].
Qed.

(** What is left of the filter's work once the memory has been reached: after
    a response of the memory, or of a cache. *)
Lemma finish_memory f w pkt sid pktA wA pktB wB x x' : known x f w -> line_request pkt -> sid ∈ sf_slavePorts f0 ->
  let l := ln pkt in
  let f1 := set_item l (mkSnoopItem (2 ^ sid) (holder (sf_item f l))) f in
  (forall q l', holds wA q l' = true -> holds w q l' = true) ->
  (forall q, q ∈ sf_slavePorts f0 -> q <> sid ->
     (isInvalidate pkt = true -> holds wA q l = false) /\
     (isInvalidate pkt = false -> holds wA q l = true -> sharedAsserted pktA = true)) ->
  kept pkt pktA -> cmd pktA = cmd pkt -> memInhibitAsserted pktA = false -> memory_effect pktA wA wB pktB ->
  snoopPorts x' = snoopPorts x ->
  exists f2, updateResponse pktB sid f1 = Ok f2 /\ isResponse pktB = true /\
    known (x' <| snoopFilter := Some f2 |>) f2 wB /\ Z.testbit (holder (sf_item f2 l)) sid = true.
Proof.
  intros K Q Hsid l f1 Hless Hq KA CA IA M Hx. pose proof Q as [Q1 Q2 Q3 Q4 Q5].
  assert (port_ok sid) as Hok by (pose proof (fo_ports _ F0) as Hf; rewrite Forall_forall in Hf; by apply Hf).
  destruct (me_resp _ _ _ _ M IA) as [Rr Rc]; [unfold needsResponse in *; by rewrite CA|].
  pose proof (kept_trans _ _ _ KA (me_kept _ _ _ _ M)) as [B1 B2 B3 B4].
  unfold updateResponse. rewrite B2, (proj1 Q1). cbn [mbind res_bind]. rewrite portToMask_ok by done. cbn [mbind res_bind].
  change (line_addr f1) with (line_addr f). rewrite (filter_same_line f pkt (kn_same _ _ _ K) Q1). fold l.
  rewrite Rr. cbn [assert_ mbind res_bind].
  assert (sf_item f1 l = mkSnoopItem (2 ^ sid) (holder (sf_item f l))) as Ei by (unfold f1; by rewrite sf_item_set, decide_True).
  rewrite Ei. cbn [requested holder]. rewrite has_bit_spec, pow2_bit, bool_decide_true by (done || apply Hok).
  cbn [negb panic_if mbind res_bind]. eexists. split; [reflexivity|]. split; [done|].
  cbn [field_upd]. rewrite cleared by apply Hok. split.
  - eapply (known_after x _ f f1 w wB sid l); [exact K|reflexivity|reflexivity|exact Hx|..|reflexivity|].
    + intros q l' H. by apply Hless, (me_less _ _ _ _ M).
    + intros q H. cbn. pose proof (me_less _ _ _ _ M q l H) as HA.
      destruct (kn_hold _ _ _ K q l (Hless _ _ HA)) as [Hq1 Hq2].
      assert (port_ok q) as Hqo by (pose proof (fo_ports _ F0) as Hf; rewrite Forall_forall in Hf; by apply Hf).
      rewrite Z.lor_spec, pow2_bit by (apply Hok || apply Hqo).
      destruct (decide (q = sid)) as [->|Hne]; [by rewrite bool_decide_true, orb_true_r|].
      destruct (Hq q Hq1 Hne) as [H1 H2]. destruct (isInvalidate pkt) eqn:Einv; [by rewrite H1 in HA|].
      rewrite (kp_shared _ _ (me_kept _ _ _ _ M) (H2 eq_refl HA)).
      unfold needsExclusive. rewrite Rc, CA, response_shared; [cbn; by rewrite Hq2|exact Q2|change (needsExclusive pkt = false); by rewrite <- Q3].
  - rewrite sf_item_set, decide_True by done. cbn. rewrite Z.lor_spec, pow2_bit, bool_decide_true by (done || apply Hok).
    apply orb_true_r.
Qed.

Lemma finish_snoop f w pkt sid h wB x x' : known x f w -> line_request pkt -> sid ∈ sf_slavePorts f0 ->
  let l := ln pkt in
  let f1 := set_item l (mkSnoopItem (2 ^ sid) (holder (sf_item f l))) f in
  (forall q l', holds wB q l' = true -> holds w q l' = true) ->
  (isInvalidate pkt = true -> forall q, q ∈ sf_slavePorts f0 -> q <> sid -> holds wB q l = false) ->
  h = holder (sf_item f1 l) \/ isInvalidate pkt = true ->
  snoopFilter x' = Some (answered sid l f1 h) -> snoopPorts x' = snoopPorts x ->
  known x' (answered sid l f1 h) wB /\ Z.testbit (holder (sf_item (answered sid l f1 h) l)) sid = true.
Proof.
  intros K Q Hsid l f1 Hless Hq Hh Hf2 Hx.
  assert (port_ok sid) as Hok by (pose proof (fo_ports _ F0) as Hf; rewrite Forall_forall in Hf; by apply Hf).
  assert (sf_item f1 l = mkSnoopItem (2 ^ sid) (holder (sf_item f l))) as Ei by (unfold f1; by rewrite sf_item_set, decide_True).
  unfold answered in *. rewrite Ei in *. cbn [requested holder] in *. rewrite cleared in * by apply Hok. split.
  - eapply (known_after x x' f f1 w wB sid l); [exact K|reflexivity|exact Hf2|exact Hx|exact Hless|reflexivity|].
    intros q H. cbn. destruct (kn_hold _ _ _ K q l (Hless _ _ H)) as [Hq1 Hq2].
    assert (port_ok q) as Hqo by (pose proof (fo_ports _ F0) as Hf; rewrite Forall_forall in Hf; by apply Hf).
    rewrite Z.lor_spec, pow2_bit by (apply Hok || apply Hqo).
    destruct (decide (q = sid)) as [->|Hne]; [by rewrite bool_decide_true, orb_true_r|].
    destruct Hh as [-> |Hi]; [by rewrite Hq2|]. by rewrite (Hq Hi q Hq1 Hne) in H.
  - rewrite sf_item_set, decide_True by done. cbn. rewrite Z.lor_spec, pow2_bit, bool_decide_true by (done || apply Hok).
    apply orb_true_r.
Qed.

(** Snooping where the filter says, and everywhere. *)
Lemma snoop_filtered f w pkt sid x xA wA pktA rspA latA : known x f w -> line_request pkt -> snooped pkt x = true ->
  sid ∈ sf_slavePorts f0 ->
  let l := ln pkt in
  let f1 := set_item l (mkSnoopItem (2 ^ sid) (holder (sf_item f l))) f in
  snoop_atomic pkt sid (x <| snoopFilter := None |>) w = Ok (xA, wA, pktA, rspA, latA) ->
  xA = x <| snoopFilter := None |> /\
  exists fA lat', snoop_atomic pkt sid x w = Ok (x <| snoopFilter := Some fA |>, wA, pktA, rspA, lat') /\
    phase (cmd pkt) sid l f1 pktA rspA fA /\ kept pkt pktA /\ cmd pktA = cmd pkt /\
    (forall q l', holds wA q l' = true -> holds w q l' = true) /\
    forall q, q ∈ sf_slavePorts f0 -> q <> sid ->
      (isInvalidate pkt = true -> holds wA q l = false) /\
      (isInvalidate pkt = false -> holds wA q l = true -> sharedAsserted pktA = true).
Proof.
  intros K Q Hsn Hsid l f1 E. pose proof Q as [Q1 Q2 Q3 Q4 Q5].
  assert (port_ok sid) as Hok by (pose proof (fo_ports _ F0) as Hf; rewrite Forall_forall in Hf; by apply Hf).
  assert (bypassCaches x = false) as Hby by (unfold snooped in Hsn; apply andb_prop in Hsn as [_ ?]; by destruct (bypassCaches x)).
  assert (sf_item f1 l = mkSnoopItem (2 ^ sid) (holder (sf_item f l))) as Ei by (unfold f1; by rewrite sf_item_set, decide_True).
  unfold snoop_atomic in E |- *. rewrite (kn_filter _ _ _ K), Hsn, (lookup_fresh f w x) by done. fold l f1.
  change (snooped pkt (x <| snoopFilter := None |>)) with (snooped pkt x) in E. rewrite Hsn in E.
  change (snoopFilter (x <| snoopFilter := None |>)) with (@None SnoopFilter) in E.
  cbn [mbind res_bind] in E |- *. unfold forwardAtomic in E |- *.
  change (bypassCaches (x <| snoopFilter := ?v |>)) with (bypassCaches x) in E |- *.
  change (snoopPorts (x <| snoopFilter := ?v |>)) with (snoopPorts x) in E |- *.
  change (snoopFilter (x <| snoopFilter := ?v |>)) with v in E |- *.
  rewrite Hby, (kn_ports _ _ _ K) in E. rewrite Hby. cbn [negb assert_ mbind res_bind] in E |- *.
  destruct (atomic_loop (cmd pkt) sid InvalidPortID (sf_slavePorts f0) pkt InvalidCmd 0 None w)
    as [[[[[wA' fo] pktA'] rspA'] latA']|] eqn:EL; [|done]. cbn [mbind res_bind] in E.
  set (m := Z.land (holder (sf_item f l)) (not64 (2 ^ sid))).
  destruct (atomic_loop_filtered (cmd pkt) sid l f1) with (m := m) (f := f1) (pkt := pkt) (w := w)
    (ports := sf_slavePorts f0) (rsp := InvalidCmd) (lat := 0) (w' := wA') (fo := fo) (pkt' := pktA') (rsp' := rspA') (lat' := latA')
    as (fA & EA & Ph & KA & CA & -> & Hless & Hq); try done.
  - intros pk Hpk Hln. change (line_addr f1) with (line_addr f). by rewrite (filter_same_line f pk (kn_same _ _ _ K) Hpk).
  - rewrite Ei. cbn [requested]. by rewrite pow2_bit, bool_decide_true by (done || apply Hok).
  - intros q Hqp. assert (port_ok q) as Hqo by (pose proof (fo_ports _ F0) as Hf; rewrite Forall_forall in Hf; by apply Hf).
    split; [done|]. unfold m. rewrite clear_bit, Ei by done. split.
    + intros ->. by rewrite bool_decide_true, andb_false_r.
    + intros Hne Hh. destruct (kn_hold _ _ _ K q l Hh) as [_ Hb]. cbn [holder]. by rewrite Hb, bool_decide_false.
  - by left.
  - injection E as <- <- <- <- <-. split; [by destruct x|]. rewrite EA. cbn [mbind res_bind].
    exists fA. eexists. split; [by destruct x|]. by split_and!.
Qed.

(** C11. The filter only saves snoops: a request for a line, sent only where the
    filter says, has the effect it has when it is sent to every port, on the
    caches and the memory, and brings the same packet back (the time may
    differ).  The filter then knows every holder again, the requester among
    them; and after a request that invalidates, no other cache holds the
    line. *)
Theorem atomic_filter_transparent (pkt : Packet) (sid : Z) (x x1 : CoherentXBar) (f : SnoopFilter)
    (w w1 : W) (pkt1 : Packet) (lat1 : Z) :
  known x f w -> line_request pkt -> snooped pkt x = true -> sid ∈ sf_slavePorts f0 ->
  recvAtomic pkt sid (x <| snoopFilter := None |>) w = Ok (x1, w1, pkt1, lat1) ->
  exists x2 f2 pkt2 lat2, recvAtomic pkt sid x w = Ok (x2, w1, pkt2, lat2) /\
    x2 <| snoopFilter := None |> = x1 /\ pkt2 <| lastWordDelay := lastWordDelay pkt1 |> = pkt1 /\
    isResponse pkt2 = true /\ known x2 f2 w1 /\ Z.testbit (holder (sf_item f2 (ln pkt))) sid = true /\
    (isInvalidate pkt = true -> forall q, q <> sid -> holds w1 q (ln pkt) = false).
Proof.
  intros K Q Hsn Hsid E. pose proof Q as [Q1 Q2 Q3 Q4 Q5]. unfold recvAtomic in E |- *.
  destruct (snoop_atomic pkt sid (x <| snoopFilter := None |>) w) as [[[[[xA wA] pktA] rspA] latA]|] eqn:EA; [|done].
  cbn [mbind res_bind] in E.
  destruct (snoop_filtered f w pkt sid x xA wA pktA rspA latA K Q Hsn Hsid EA)
    as (-> & fA & lat' & EA' & Ph & KA & CA & Hless & Hq).
  rewrite EA'. cbn [mbind res_bind]. clear EA EA'. unfold atomic_below in E |- *.
  destruct (getAddr pktA) as [a|] eqn:Ea; [|done]. cbn [mbind res_bind] in E |- *.
  change (cx (x <| snoopFilter := ?v |>)) with (cx x) in E |- *.
  destruct (findPort a (cx x)) as [[b mid]|] eqn:Ef; [|done]. cbn [mbind res_bind] in E |- *.
  destruct (down_atomic mid pktA wA) as [[[wB pktB] latB]|] eqn:Ed; [|done]. cbn [mbind res_bind] in E |- *.
  assert (memory_effect pktA wA wB pktB) as M by (eapply (cp_memory C); [unfold isRequest; by rewrite CA|exact Ed]).
  assert (snooped pktB x = true) as Hsn' by (unfold snooped in *; by rewrite (kp_req _ _ (me_kept _ _ _ _ M)), (kp_req _ _ KA)).
  unfold filter_response in E |- *. set (x' := x <| cx := b |>).
  change (snoopFilter (x <| snoopFilter := ?v |> <| cx := b |>)) with v in E |- *. cbn [mbind res_bind] in E |- *.
  change (snooped pktB (x <| snoopFilter := ?v |> <| cx := b |>)) with (snooped pktB x). rewrite Hsn'.
  destruct Ph as [(-> & -> & IA)|(-> & IA & h & -> & Hh)].
  - (* the memory responds *)
    destruct (finish_memory f w pkt sid pktA wA pktB wB x x' K Q Hsid Hless Hq KA CA IA M eq_refl) as (f2 & E2 & R2 & K2 & B2).
    rewrite R2. cbn [andb]. rewrite E2. rewrite bool_decide_true in E |- * by done. cbn [negb mbind res_bind] in E |- *.
    injection E as <- <- <- <-. exists (x' <| snoopFilter := Some f2 |>), f2. eexists _, _. split; [reflexivity|].
    split_and!; [reflexivity|by destruct pktB|exact R2|exact K2|exact B2|].
    intros Hi q Hne. destruct (holds wB q (ln pkt)) eqn:Eh; [|done]. apply (me_less _ _ _ _ M) in Eh.
    destruct (kn_hold _ _ _ K q _ (Hless _ _ Eh)) as [Hp _]. by rewrite (proj1 (Hq q Hp Hne) Hi) in Eh.
  - (* a cache has responded *)
    rewrite (me_silent _ _ _ _ M IA) in E |- *. cbn [andb negb assert_ mbind res_bind] in E |- *.
    assert (responseCommand (cmd pkt) <> InvalidCmd) as Hne by by apply response_valid.
    rewrite bool_decide_false in E |- * by done. cbn [negb mbind res_bind] in E |- *. injection E as <- <- <- <-.
    destruct (finish_snoop f w pkt sid h wB x (x' <| snoopFilter := Some (answered sid (ln pkt)
      (set_item (ln pkt) (mkSnoopItem (2 ^ sid) (holder (sf_item f (ln pkt)))) f) h) |>) K Q Hsid) as [K2 B2]; try done.
    + intros q l' H. by apply Hless, (me_less _ _ _ _ M).
    + intros Hi q Hp Hqs. destruct (holds wB q (ln pkt)) eqn:Eh; [|done]. apply (me_less _ _ _ _ M) in Eh.
      by rewrite (proj1 (Hq q Hp Hqs) Hi) in Eh.
    + eexists _, _, _, _. split; [reflexivity|]. split_and!; [reflexivity|by destruct pktB| |exact K2|exact B2|].
      * change (cmd_isResponse (responseCommand (cmd pkt)) = true). by apply response_responds.
      * intros Hi q Hqs. destruct (holds wB q (ln pkt)) eqn:Eh; [|done]. apply (me_less _ _ _ _ M) in Eh.
        destruct (kn_hold _ _ _ K q _ (Hless _ _ Eh)) as [Hp _]. by rewrite (proj1 (Hq q Hp Hqs) Hi) in Eh.
Qed.

End Atomic.

(** ** Two caches above a memory

    The state is the set of lines the caches hold; a cache that must give a
    line up answers the request. *)
Definition toy_snoop (p : Z) (pkt : Packet) (w : gset (Z * Z)) : res (gset (Z * Z) * Packet * Z) :=
  let l := SnoopFilter.line ex_filter pkt in
  if bool_decide ((p, l) ∈ w) then
    if isInvalidate pkt then
      if negb (memInhibitAsserted pkt) && needsResponse pkt
      then Ok (w ∖ {[(p, l)]}, (assertMemInhibit pkt) <| cmd := responseCommand (cmd pkt) |>, 3)
      else Ok (w ∖ {[(p, l)]}, pkt, 1)
    else Ok (w, assertShared pkt, 1)
  else Ok (w, pkt, 1).
Definition toy_memory (mid : Z) (pkt : Packet) (w : gset (Z * Z)) : res (gset (Z * Z) * Packet * Z) :=
  Ok (w, if negb (memInhibitAsserted pkt) && needsResponse pkt then pkt <| cmd := responseCommand (cmd pkt) |> else pkt, 30).
#[local] Instance toy_peers : XBarPeers (gset (Z * Z)) := {
  up_timingResp p pkt w := Ok (w, pkt, true);
  up_timingSnoopReq p pkt w := Ok (w, pkt);
  up_atomicSnoop := toy_snoop;
  up_functionalSnoop p pkt w := Ok (w, pkt);
  down_timingReq m pkt w := Ok (w, pkt, true);
  down_timingSnoopResp m pkt w := Ok (w, pkt, true);
  down_atomic := toy_memory;
  down_functional m pkt w := Ok (w, pkt)
}.
Definition toy_holds (w : gset (Z * Z)) (p l : Z) : bool := bool_decide ((p, l) ∈ w).

Lemma flags_kept pkt m : Z.land VALID_ADDR m = 0 -> (sharedAsserted pkt = true -> fl_isSet (fl_set (flags pkt) m) SHARED = true) ->
  kept pkt (pkt <| flags := fl_set (flags pkt) m |>).
Proof.
  intros H1 H2. split; [done| |done|exact H2].
  unfold getAddr. cbn [flags field_upd addr]. by rewrite fl_isSet_set_other.
Qed.

Lemma request_quiet pkt : isRequest pkt = true -> isResponse pkt = false.
Proof. intros H. by apply response_no_request. Qed.

(** A snooped cache that has the line and gives it up, with or without an
    answer; and one that keeps it. *)
Lemma toy_gives p pkt w : isRequest pkt = true -> isInvalidate pkt = true ->
  let l := SnoopFilter.line ex_filter pkt in (p, l) ∈ w ->
  snoop_effect ex_filter toy_holds p pkt w (w ∖ {[(p, l)]}) pkt /\
  (memInhibitAsserted pkt = false -> needsResponse pkt = true ->
   snoop_effect ex_filter toy_holds p pkt w (w ∖ {[(p, l)]}) ((assertMemInhibit pkt) <| cmd := responseCommand (cmd pkt) |>)).
Proof.
  intros Hr Ei l Hin. pose proof (request_quiet pkt Hr) as Hq.
  assert (forall q l', toy_holds (w ∖ {[(p, l)]}) q l' = true -> toy_holds w q l' = true) as Hless
    by (intros q l'; unfold toy_holds; rewrite !bool_decide_eq_true; set_solver).
  assert (toy_holds (w ∖ {[(p, l)]}) p l = false) as Hlost by (apply bool_decide_eq_false; set_solver).
  assert (toy_holds w p l = true) as Hp by by apply bool_decide_eq_true.
  split; [|intros Em En]; (split; [|fold l; by rewrite Hp|exact Hless|by intros _|by rewrite Ei| |]).
  - apply kept_refl.
  - by rewrite Hq.
  - done.
  - eapply kept_trans; [|apply kept_cmd]. apply flags_kept; [done|]. intros H. by rewrite fl_isSet_set_other.
  - intros _. split; [done|]. split; [done|]. by apply fl_isSet_set.
  - intros H. change (cmd_isResponse (responseCommand (cmd pkt)) = false) in H. by rewrite (response_responds _ En) in H.
Qed.

Lemma toy_keeps p pkt w : isRequest pkt = true -> isInvalidate pkt = false ->
  snoop_effect ex_filter toy_holds p pkt w w (if toy_holds w p (SnoopFilter.line ex_filter pkt) then assertShared pkt else pkt).
Proof.
  intros Hr Ei. pose proof (request_quiet pkt Hr) as Hq.
  destruct (toy_holds w p (SnoopFilter.line ex_filter pkt)) eqn:Hp; (split; rewrite ?Hp, ?Ei; try done).
  - apply flags_kept; [done|]. intros _. by apply fl_isSet_set.
  - intros _ _. by apply fl_isSet_set.
  - change (isResponse (assertShared pkt)) with (isResponse pkt). by rewrite Hq.
  - intros _. split; [done|]. unfold memInhibitAsserted, assertShared. cbn [flags field_upd]. by rewrite fl_isSet_set_other.
  - by rewrite Hq.
Qed.

Lemma toy_coherent : coherent_peers ex_filter toy_holds.
Proof.
  split.
  - intros p pkt w w' pkt' lat Hr E. cbn in E. unfold toy_snoop in E. set (l := SnoopFilter.line ex_filter pkt) in *.
    destruct (isInvalidate pkt) eqn:Ei.
    + destruct (bool_decide_reflect ((p, l) ∈ w)) as [Hin|Hout].
      * destruct (toy_gives p pkt w Hr Ei Hin) as [H1 H2].
        destruct (memInhibitAsserted pkt) eqn:Em, (needsResponse pkt) eqn:En; cbn [negb andb] in E; injection E as <- <- <-;
          try exact H1. by apply H2.
      * injection E as <- <- <-. assert (toy_holds w p l = false) as Hp by by apply bool_decide_eq_false.
        pose proof (request_quiet pkt Hr) as Hq. split; try done; rewrite ?Ei, ?Hq; done.
    + pose proof (toy_keeps p pkt w Hr Ei) as H. fold l in H. unfold toy_holds at 2 in H.
      destruct (bool_decide ((p, l) ∈ w)); injection E as <- <- <-; exact H.
  - intros mid pkt w w' pkt' lat Hr E. cbn in E. unfold toy_memory in E. injection E as <- <- <-.
    pose proof (request_quiet pkt Hr) as Hq.
    destruct (memInhibitAsserted pkt) eqn:Em, (needsResponse pkt) eqn:En; cbn [negb andb]; split; try done; rewrite ?Em; try done.
    + intros _ _. split; [by apply response_responds|done].
    + intros _ H. by rewrite En in H.
Qed.

Definition ex_cx : CoherentXBar :=
  mkCoherentXBar ex_xbar [ex_layer; ex_layer] [0; 1] ∅
    (Some (set_item 128 (mkSnoopItem 0 1) ex_filter)) false.

(** Cache 0 holds line 128; cache 1 asks for it alone. *)
Lemma atomic_filter_transparent_witness : exists x2 f2 pkt2 lat2,
  recvAtomic (ex_packet ReadExReq 136 []) 1 ex_cx {[(0, 128)]} = Ok (x2, ∅, pkt2, lat2) /\
  cmd pkt2 = ReadExResp /\ known ex_filter toy_holds x2 f2 ∅ /\ holder (sf_item f2 128) = 2.
Proof.
  assert (known ex_filter toy_holds ex_cx (set_item 128 (mkSnoopItem 0 1) ex_filter) {[(0, 128)]}) as K.
  { split; try done.
    - intros l. rewrite sf_item_set. by destruct (decide (l = 128)).
    - intros q l. unfold toy_holds. rewrite bool_decide_eq_true, elem_of_singleton. intros [= -> ->].
      split; [set_solver|reflexivity]. }
  destruct (recvAtomic (ex_packet ReadExReq 136 []) 1 (ex_cx <| snoopFilter := None |>) {[(0, 128)]})
    as [[[[x1 w1] pkt1] lat1]|] eqn:E; [|vm_compute in E; discriminate E].
  destruct (atomic_filter_transparent ex_filter toy_holds ex_filter_ok toy_coherent (ex_packet ReadExReq 136 []) 1 ex_cx x1
    (set_item 128 (mkSnoopItem 0 1) ex_filter) {[(0, 128)]} w1 pkt1 lat1 K) as (x2 & f2 & pkt2 & lat2 & E2 & _ & _ & _ & K2 & _ & _);
    [by split; try done; split|reflexivity|set_solver|exact E|].
  assert (w1 = ∅) as -> by (vm_compute in E; injection E as _ <- _ _; reflexivity).
  exists x2, f2, pkt2, lat2. split; [exact E2|]. pose proof (kn_filter _ _ _ _ _ K2) as Kf.
  vm_compute in E2. injection E2 as <- <- <-. split; [reflexivity|]. split; [exact K2|].
  cbn in Kf. injection Kf as <-. reflexivity.
Defined.
