(* ===== verification/PimXBar.v ===== *)
(** * The crossbar of the PIM

    Models [mem/pim_xbar.cc] and [mem/pim_xbar.hh] on top of XBar.v: a
    non-coherent crossbar that can serve instruction fetches, and accesses to
    the scratch-pad memory, ideally.  An ideal access reaches the memory at
    once, and its response waits in a queue for the next tick; the event that
    sends the responses tries again one tick later when a response is refused.

    Packet logging and statistics are left out; the debug event is never
    scheduled.  The requester may send new requests before it returns from a
    response, so it is a function on the state of the crossbar. *)

From S2P Require Import Prelude.
From S2P Require Import Flags.
From S2P Require Import Clock.
From S2P Require Import AddrRange.
From S2P Require Import RangeMap.
From S2P Require Import Packet.
From S2P Require Import AbstractMem.
From S2P Require Import Port.
From S2P Require Import SimpleMem.
From S2P Require Import XBar.

Definition WAIT_ps : Z := 1.

Record PIMXBar := mkPIMXBar {
  px : XBar;
  ideal_instr_fetch : bool;
  ideal_spm_access : bool;
  spm_master_port : Z;
  port_list : list Z;
  pkt_list : list Packet;
  response_scheduled : bool;
  respondEvent : option Z
}.

Definition PIMXBar_new (base : XBar) (ideal_fetch ideal_spm : bool) : PIMXBar :=
  mkPIMXBar (base <| portCache := clearPortCache |>) ideal_fetch ideal_spm (-1) [] [] false None.

(** The loop of [init] that looks for the scratch-pad memory among the devices
    below; [is_spm] is the test of their names. *)
Fixpoint find_spm (is_spm : list bool) (i : Z) (x : PIMXBar) : res PIMXBar :=
  match is_spm with
  | [] => Ok x
  | b :: is_spm =>
      x ← (if b : bool then _ ← assert_ (spm_master_port x =? -1); Ok (x <| spm_master_port := i |>) else Ok x);
      find_spm is_spm (i + 1) x
  end.
Definition px_init (is_spm : list bool) (x : PIMXBar) : res PIMXBar :=
  if ideal_spm_access x then
    x ← find_spm is_spm 0 x;
    _ ← assert_ (negb (spm_master_port x =? -1)); Ok x
  else Ok x.

Section Handlers.

(** What each master port leads to. *)
Context {S : Type} (port : Z -> MemDevice S).

Definition recvAtomic (now : Z) (pkt : Packet) (x : PIMXBar) (s : S) : res (PIMXBar * S * Packet * Z) :=
  '(b, s, pkt, lat) ← XBar.recvAtomic port now pkt (px x) s;
  Ok (x <| px := b |>, s, pkt, lat).

Definition recvFunctional (pkt : Packet) (x : PIMXBar) (s : S) : res (PIMXBar * S * Packet) :=
  '(b, s, pkt) ← XBar.recvFunctional port pkt (px x) s;
  Ok (x <| px := b |>, s, pkt).

(** An access without timing: its response goes into the queue. *)
Definition ideal_access (now : Z) (pkt : Packet) (sid : Z) (x : PIMXBar) (s : S) : res (PIMXBar * S * Packet * bool) :=
  '(x, s, pkt, _) ← recvAtomic now pkt x s;
  let x := x <| port_list := port_list x ++ [sid] |> <| pkt_list := pkt_list x ++ [pkt] |> in
  if negb (response_scheduled x) then
    ev ← schedule (respondEvent x) now (u64 (now + WAIT_ps));
    Ok (x <| response_scheduled := true |> <| respondEvent := ev |>, s, pkt, true)
  else Ok (x, s, pkt, true).

Definition recvTimingReq (now : Z) (pkt : Packet) (sid : Z) (down : Z -> Packet -> res (Packet * bool))
    (x : PIMXBar) (s : S) : res (PIMXBar * S * Packet * bool) :=
  if ideal_instr_fetch x && isInstFetch (req pkt) then
    _ ← assert_ (isRead pkt); ideal_access now pkt sid x s
  else if isExpressSnoop pkt then Ok (x, s, pkt, true)
  else
    a ← getAddr pkt;
    '(b, mid) ← findPort a (px x);
    let x := x <| px := b |> in
    if ideal_spm_access x && (mid =? spm_master_port x) then ideal_access now pkt sid x s
    else
      '(b, pkt, ok) ← forward_request now pkt sid mid (down mid) b;
      Ok (x <| px := b |>, s, pkt, ok).

Definition recvTimingResp (now : Z) (pkt : Packet) (mid : Z) (up : Z -> Packet -> res (Packet * bool))
    (x : PIMXBar) : res (PIMXBar * Packet * bool) :=
  '(b, pkt, ok) ← XBar.recvTimingResp now pkt mid up (px x);
  Ok (x <| px := b |>, pkt, ok).

Definition recvRetry (now mid : Z) (sendRetry : Z -> Layer -> res Layer) (x : PIMXBar) : res PIMXBar :=
  b ← XBar.recvRetry now mid sendRetry (px x); Ok (x <| px := b |>).

Definition drain (x : PIMXBar) : PIMXBar * Z :=
  let '(b, n) := XBar.drain (px x) in (x <| px := b |>, n).

(** ** The event that sends the responses *)
Definition respond_after (now : Z) (success : bool) (x : PIMXBar) : res PIMXBar :=
  let x := if success then x <| port_list := tail (port_list x) |> <| pkt_list := tail (pkt_list x) |> else x in
  let delay := if success then 0 else 1 in
  if negb (bool_decide (pkt_list x = [])) then
    ev ← schedule (respondEvent x) now (u64 (now + delay));
    Ok (x <| respondEvent := ev |> <| response_scheduled := true |>)
  else Ok (x <| response_scheduled := false |>).

Definition respond (now : Z) (up : Z -> Packet -> PIMXBar -> S -> res (PIMXBar * S * bool)) (x : PIMXBar) (s : S)
  : res (PIMXBar * S) :=
  _ ← assert_ (negb (bool_decide (pkt_list x = [])));
  _ ← assert_ (response_scheduled x);
  p ← deref (head (port_list x));
  pkt ← deref (head (pkt_list x));
  '(x, s, success) ← up p pkt x s;
  x ← respond_after now success x;
  Ok (x, s).

(** ** Accesses that are ideal *)
Definition ideal (pkt : Packet) (x : PIMXBar) : bool :=
  (ideal_instr_fetch x && isInstFetch (req pkt)) ||
  negb (isExpressSnoop pkt) &&
  match getAddr pkt with
  | Ok a => match findPort a (px x) with
            | Ok (_, mid) => ideal_spm_access x && (mid =? spm_master_port x)
            | Err _ => false
            end
  | Err _ => false
  end.

(** The responses that wait, with the ports they are for. *)
Definition queue (x : PIMXBar) : list (Z * Packet) := zip (port_list x) (pkt_list x).

(** Requests that arrive at tick [now]; the last argument collects the ideal
    ones with the packets the memory gave back. *)
Inductive arrive (now : Z) : PIMXBar -> S -> list (Z * Packet) -> PIMXBar -> S -> list (Z * Packet) -> Prop :=
| arr_refl x s acc : arrive now x s acc x s acc
| arr_request x s acc pkt sid down x1 s1 pkt1 ok x2 s2 acc2 :
    recvTimingReq now pkt sid down x s = Ok (x1, s1, pkt1, ok) ->
    arrive now x1 s1 (if ideal pkt x then acc ++ [(sid, pkt1)] else acc) x2 s2 acc2 ->
    arrive now x s acc x2 s2 acc2.

(** Executions, with the ideal accesses so far and the responses accepted so
    far.  [rest] stands for the handlers that only concern the layers. *)
Inductive px_run : PIMXBar -> S -> list (Z * Packet) -> list (Z * Packet) -> Prop :=
| run_new base fetch spm is_spm x s : px_init is_spm (PIMXBar_new base fetch spm) = Ok x -> px_run x s [] []
| run_arrive now x s acc del x' s' acc' : 0 <= now -> now + WAIT_ps < 2 ^ 64 ->
    px_run x s acc del -> arrive now x s acc x' s' acc' -> px_run x' s' acc' del
| run_rest x s acc del b : px_run x s acc del -> px_run (x <| px := b |>) s acc del
| run_respond now up x s acc del p pkt x1 s1 ok acc1 x' s' : 0 <= now -> now + WAIT_ps < 2 ^ 64 ->
    px_run x s acc del -> respondEvent x = Some now ->
    head (queue x) = Some (p, pkt) ->
    up p pkt (x <| respondEvent := None |>) s = Ok (x1, s1, ok) ->
    arrive now (x <| respondEvent := None |>) s acc x1 s1 acc1 ->
    respond now up (x <| respondEvent := None |>) s = Ok (x', s') ->
    px_run x' s' acc1 (if ok then del ++ [(p, pkt)] else del).

End Handlers.

(** ** Invariants *)
Section Fifo.

Context {S : Type} (port : Z -> MemDevice S).

Abbreviation arrive_ := (arrive port).

(** The two queues go together. *)
Definition paired (x : PIMXBar) : Prop := length (port_list x) = length (pkt_list x).

(** Between events: the event is pending exactly while a response waits. *)
Definition px_inv (x : PIMXBar) : Prop :=
  paired x /\ (response_scheduled x = true <-> queue x <> []) /\ (respondEvent x <> None <-> queue x <> []).

Lemma queue_nil x : paired x -> queue x = [] <-> pkt_list x = [].
Proof. unfold paired, queue. destruct (port_list x), (pkt_list x); cbn; done. Qed.

Lemma queue_push x p pkt : paired x ->
  zip (port_list x ++ [p]) (pkt_list x ++ [pkt]) = queue x ++ [(p, pkt)].
Proof. intros H. by rewrite zip_with_app. Qed.

(** What an ideal access does to the queue and its event. *)
Definition pushed (now p : Z) (pkt : Packet) (x x' : PIMXBar) : Prop :=
  paired x' /\ queue x' = queue x ++ [(p, pkt)] /\ response_scheduled x' = true /\
  if response_scheduled x then respondEvent x' = respondEvent x
  else respondEvent x = None /\ respondEvent x' = Some (u64 (now + WAIT_ps)).
Definition untouched (x x' : PIMXBar) : Prop :=
  port_list x' = port_list x /\ pkt_list x' = pkt_list x /\
  response_scheduled x' = response_scheduled x /\ respondEvent x' = respondEvent x.

Lemma ideal_access_pushes now pkt sid x s x' s' pkt' ok : paired x ->
  ideal_access port now pkt sid x s = Ok (x', s', pkt', ok) -> ok = true /\ pushed now sid pkt' x x'.
Proof.
  intros Hp E. unfold ideal_access, recvAtomic in E.
  destruct (XBar.recvAtomic port now pkt (px x) s) as [[[[b s1] pkt1] lat]|] eqn:Ea; [|done]. cbn [mbind res_bind] in E.
  destruct (response_scheduled x) eqn:Es; cbn in E; rewrite ?Es in E; cbn in E.
  - injection E as <- <- <- <-. split; [done|]. unfold pushed, paired, queue in *. cbn. rewrite Es, !length_app. cbn.
    split_and!; [lia|by apply queue_push|done|done].
  - unfold schedule in E. destruct (now <=? u64 (now + WAIT_ps)) eqn:E1; [|done]. cbn in E.
    destruct (respondEvent x) eqn:E2; [done|]. cbn in E. injection E as <- <- <- <-. split; [done|].
    unfold pushed, paired, queue in *. cbn. rewrite Es, E2, !length_app. cbn.
    split_and!; [lia|by apply queue_push|done|done|done].
Qed.

Lemma request_cases now pkt sid down x s x' s' pkt' ok : paired x ->
  recvTimingReq port now pkt sid down x s = Ok (x', s', pkt', ok) ->
  if ideal pkt x then ok = true /\ pushed now sid pkt' x x' else untouched x x'.
Proof.
  intros Hp E. unfold recvTimingReq in E. unfold ideal.
  destruct (ideal_instr_fetch x && isInstFetch (req pkt)); cbn [orb].
  { destruct (isRead pkt); [|done]. cbn [assert_ mbind res_bind] in E. by apply ideal_access_pushes in E. }
  destruct (isExpressSnoop pkt); cbn [negb andb]; [by injection E as <- <- <- <-|].
  destruct (getAddr pkt) as [a|]; [|done]. cbn [mbind res_bind] in E.
  destruct (findPort a (px x)) as [[b mid]|]; [|done]. cbn [mbind res_bind] in E.
  change (ideal_spm_access (x <| px := b |>)) with (ideal_spm_access x) in E.
  change (spm_master_port (x <| px := b |>)) with (spm_master_port x) in E.
  destruct (ideal_spm_access x && (mid =? spm_master_port x)).
  - by apply ideal_access_pushes in E.
  - destruct (forward_request now pkt sid mid (down mid) b) as [[[b1 pkt1] ok1]|]; [|done]. cbn [mbind res_bind] in E.
    by injection E as <- <- <- <-.
Qed.

Lemma arrive_spec now x s acc x' s' acc' : arrive_ now x s acc x' s' acc' -> paired x ->
  paired x' /\ exists new, queue x' = queue x ++ new /\ acc' = acc ++ new /\
    (response_scheduled x = true -> response_scheduled x' = true /\ respondEvent x' = respondEvent x) /\
    (px_inv x -> px_inv x').
Proof.
  induction 1 as [x s acc|x s acc pkt sid down x1 s1 pkt1 ok x2 s2 acc2 E _ IH]; intros Hp.
  { split; [done|]. exists []. rewrite !app_nil_r. done. }
  pose proof (request_cases _ _ _ _ _ _ _ _ _ _ Hp E) as H. destruct (ideal pkt x).
  - destruct H as (_ & Hp1 & Hq & Hs & Hev). destruct (IH Hp1) as (Hp2 & new & Q & A & H1 & H2). split; [done|].
    exists ((sid, pkt1) :: new). rewrite Q, Hq, A, <- !app_assoc. cbn [app]. split_and!; [done|done|..].
    + intros Hsx. destruct (H1 Hs) as [-> ->]. split; [done|]. by rewrite Hsx in Hev.
    + intros (_ & I1 & I2). apply H2. split; [done|]. rewrite Hq, Hs. split; [by split; [intros _ Hn; by destruct (queue x)|]|].
      destruct (response_scheduled x).
      * rewrite Hev. split; [intros _ Hn; by destruct (queue x)|]. intros _. apply I2. by apply I1.
      * destruct Hev as [_ ->]. split; [intros _ Hn; by destruct (queue x)|done].
  - destruct H as (U1 & U2 & U3 & U4). assert (paired x1) as Hp1 by (unfold paired; by rewrite U1, U2).
    assert (queue x1 = queue x) as Hq by (unfold queue; by rewrite U1, U2).
    destruct (IH Hp1) as (Hp2 & new & Q & A & H1 & H2). split; [done|]. exists new. rewrite Q, Hq.
    split_and!; [done|done|by rewrite U3, U4 in H1|]. intros (_ & I1 & I2). apply H2. unfold px_inv. by rewrite Hq, U3, U4.
Qed.

(** The end of a response event: the response that was accepted leaves, one
    that was refused stays and is due one tick later. *)
Lemma respond_after_ok now ok x p pkt rest : 0 <= now -> now + WAIT_ps < 2 ^ 64 ->
  paired x -> queue x = (p, pkt) :: rest -> response_scheduled x = true -> respondEvent x = None ->
  exists x', respond_after now ok x = Ok x' /\ px_inv x' /\ queue x' = (if ok then rest else queue x) /\
    (queue x' <> [] -> respondEvent x' = Some (if ok then now else now + 1)).
Proof.
  intros H0 H1 Hp Hq Hs He. unfold WAIT_ps in H1. unfold respond_after, queue, paired, px_inv in *.
  destruct (port_list x) as [|p0 ps] eqn:E1; [done|]. destruct (pkt_list x) as [|k0 ks] eqn:E2; [done|].
  cbn in Hq, Hp. injection Hq as -> -> Hrest. injection Hp as Hp.
  assert (now <=? u64 (now + (if ok then 0 else 1)) = true) as Hle
    by (rewrite u64_small by (destruct ok; lia); apply Z.leb_le; destruct ok; lia).
  destruct ok; unfold schedule; cbn -[u64]; rewrite ?E1, ?E2; cbn -[u64].
  - destruct ks as [|k ks].
    + cbn. destruct ps; [|done]. eexists. split; [reflexivity|]. unfold paired, queue. cbn. rewrite ?E1, ?E2, ?He. cbn.
      rewrite <- Hrest. split_and!; done.
    + cbn -[u64]. rewrite Hle. cbn -[u64]. rewrite He. cbn -[u64]. eexists. split; [reflexivity|].
      unfold paired, queue. cbn -[u64]. rewrite ?E1, ?E2. cbn -[u64]. destruct ps as [|q ps]; [done|]. cbn -[u64] in *.
      split_and!; try done; try lia. intros _. rewrite u64_small by lia. f_equal. lia.
  - rewrite Hle. cbn -[u64]. rewrite He. cbn -[u64]. eexists. split; [reflexivity|].
    unfold paired, queue. cbn -[u64]. rewrite ?E1, ?E2. cbn -[u64]. rewrite Hrest.
    split_and!; try done; try lia. intros _. by rewrite u64_small by lia.
Qed.

Lemma respond_spec now up x s acc p pkt x1 s1 ok acc1 : 0 <= now -> now + WAIT_ps < 2 ^ 64 ->
  px_inv x -> respondEvent x = Some now -> head (queue x) = Some (p, pkt) ->
  up p pkt (x <| respondEvent := None |>) s = Ok (x1, s1, ok) ->
  arrive_ now (x <| respondEvent := None |>) s acc x1 s1 acc1 ->
  exists x' new, respond now up (x <| respondEvent := None |>) s = Ok (x', s1) /\ px_inv x' /\ acc1 = acc ++ new /\
    queue x' = (if ok then tail (queue x) else queue x) ++ new /\
    (queue x' <> [] -> respondEvent x' = Some (if ok then now else now + 1)).
Proof.
  intros H0 H1 (Hp & I1 & I2) Hev Hh Eu Ha. destruct (queue x) as [|e rest] eqn:Eq; [done|]. injection Hh as ->.
  assert (response_scheduled x = true) as Hs by by apply I1.
  set (x0 := x <| respondEvent := None |>) in *.
  destruct (arrive_spec now x0 s acc x1 s1 acc1 Ha Hp) as (Hp1 & new & Q & A & Hk & _).
  destruct (Hk Hs) as [Hs1 Hev1]. change (queue x0) with (queue x) in Q. rewrite Eq in Q. cbn [app] in Q.
  destruct (respond_after_ok now ok x1 p pkt (rest ++ new) H0 H1 Hp1 Q Hs1 Hev1) as (x' & E & I' & Q' & Hnext).
  exists x', new. split; [|split_and!; [exact I'|exact A| |exact Hnext]].
  - unfold respond. change (pkt_list x0) with (pkt_list x). change (port_list x0) with (port_list x).
    change (response_scheduled x0) with (response_scheduled x). rewrite Hs.
    unfold queue in Eq. destruct (port_list x) as [|p0 ps]; [done|]. destruct (pkt_list x) as [|k0 ks]; [done|].
    cbn in Eq. injection Eq as -> -> _. cbn [bool_decide negb assert_ mbind res_bind head deref]. rewrite bool_decide_eq_false_2 by done.
    cbn [negb assert_ mbind res_bind head deref]. rewrite Eu. cbn [mbind res_bind]. by rewrite E.
  - rewrite Q'. destruct ok; [done|]. by rewrite Q.
Qed.

Lemma find_spm_queue l i x x' : find_spm l i x = Ok x' -> untouched x x'.
Proof.
  revert i x. induction l as [|b l IH]; intros i x E; cbn in E; [by injection E as <-|].
  destruct b.
  - destruct (spm_master_port x =? -1); [|done]. cbn in E. by apply IH in E.
  - cbn in E. by apply IH in E.
Qed.

Lemma init_empty l base fetch spm x : px_init l (PIMXBar_new base fetch spm) = Ok x -> px_inv x /\ queue x = [].
Proof.
  intros E. assert (untouched (PIMXBar_new base fetch spm) x) as (U1 & U2 & U3 & U4).
  { unfold px_init in E. destruct (ideal_spm_access (PIMXBar_new base fetch spm)); [|by injection E as <-].
    destruct (find_spm l 0 (PIMXBar_new base fetch spm)) as [x0|] eqn:E0; [|done]. cbn [mbind res_bind] in E.
    destruct (negb (spm_master_port x0 =? -1)); [|done]. injection E as <-. by apply find_spm_queue in E0. }
  unfold px_inv, paired, queue. rewrite U1, U2, U3, U4. done.
Qed.

Lemma px_run_inv x s acc del : px_run port x s acc del -> px_inv x /\ acc = del ++ queue x.
Proof.
  induction 1 as [base fetch spm l x s E|now x s acc del x' s' acc' H0 H1 _ IH Ha|x s acc del b _ IH
    |now up x s acc del p pkt x1 s1 ok acc1 x' s' H0 H1 _ IH Hev Hh Eu Ha E].
  - destruct (init_empty _ _ _ _ _ E) as [I Q]. by rewrite Q.
  - destruct IH as [I ->]. destruct (arrive_spec _ _ _ _ _ _ _ Ha (proj1 I)) as (_ & new & Q & A & _ & HI).
    split; [by apply HI|]. by rewrite A, Q, <- app_assoc.
  - exact IH.
  - destruct IH as [I ->]. destruct (respond_spec now up x s _ p pkt x1 s1 ok acc1 H0 H1 I Hev Hh Eu Ha)
      as (x2 & new & E2 & I2 & A & Q & _). rewrite E in E2. injection E2 as <- <-. split; [exact I2|].
    rewrite A, Q. destruct (queue x) as [|e rest]; [done|]. injection Hh as ->.
    destruct ok; by rewrite <- !app_assoc.
Qed.

(** C13. In every execution the responses that have been accepted are exactly the
    ideal accesses so far, in order, but for those that wait; while one waits
    its event is pending, and when the event is due it fails no assertion, and
    is due again in the same tick after a response that was taken, one tick
    later after one that was refused. *)
Theorem pim_ideal_fifo (x : PIMXBar) (s : S) (acc del : list (Z * Packet)) : px_run port x s acc del ->
  acc = del ++ queue x /\ (respondEvent x <> None <-> queue x <> []) /\
  forall now up, 0 <= now -> now + WAIT_ps < 2 ^ 64 -> respondEvent x = Some now ->
    exists p pkt, head (queue x) = Some (p, pkt) /\
      forall x1 s1 ok acc1, up p pkt (x <| respondEvent := None |>) s = Ok (x1, s1, ok) ->
        arrive_ now (x <| respondEvent := None |>) s acc x1 s1 acc1 ->
        exists x', respond now up (x <| respondEvent := None |>) s = Ok (x', s1) /\
          (queue x' <> [] -> respondEvent x' = Some (if ok then now else now + 1)).
Proof.
  intros Hr. destruct (px_run_inv x s acc del Hr) as [I A]. split; [exact A|]. split; [apply I|].
  intros now up H0 H1 Hev. destruct (queue x) as [|[p pkt] rest] eqn:Eq.
  { destruct I as (_ & _ & I2). rewrite Eq in I2. assert (respondEvent x <> None) as H by (by rewrite Hev). by apply I2 in H. }
  exists p, pkt. split; [done|]. intros x1 s1 ok acc1 Eu Ha.
  destruct (respond_spec now up x s acc p pkt x1 s1 ok acc1 H0 H1 I Hev) as (x' & new & E & _ & _ & _ & Hn); [by rewrite Eq|done|done|].
  by exists x'.
Qed.

(** A drain that is asked for while responses wait does not count them. *)
Lemma drain_ignores_ideal x : drain x = ((x <| px := fst (XBar.drain (px x)) |>), snd (XBar.drain (px x))).
Proof. unfold drain. by destruct (XBar.drain (px x)). Qed.

End Fifo.

(** ** What an ideal access reads *)
Section Data.

Context {S : Type} (port : Z -> MemDevice S) (laws : forall mid, @MemDeviceLaws S (port mid)).

(** An instruction fetch is accepted at once, and the response that is queued
    carries the bytes of the memory behind the port its address decodes to. *)
Theorem ideal_fetch_data (now : Z) (pkt : Packet) (sid mid : Z) (d bs : list Z)
    (down : Z -> Packet -> res (Packet * bool)) (x : PIMXBar) (s : S) (b : XBar) :
  paired x -> (response_scheduled x = false -> respondEvent x = None) -> 0 <= now -> now + WAIT_ps < 2 ^ 64 ->
  ideal_instr_fetch x = true -> isInstFetch (req pkt) = true ->
  read_request pkt d -> getAddr pkt = Ok (addr pkt) -> findPort (addr pkt) (px x) = Ok (b, mid) ->
  dev_ok (MemDeviceLaws := laws mid) s -> contents (MemDeviceLaws := laws mid) s (addr pkt) (psize pkt) = Ok bs ->
  exists x' s' pkt', recvTimingReq port now pkt sid down x s = Ok (x', s', pkt', true) /\
    read_reply pkt pkt' bs /\ queue x' = queue x ++ [(sid, pkt')] /\
    (response_scheduled x = false -> respondEvent x' = Some (now + 1)) /\
    forall a n, contents (MemDeviceLaws := laws mid) s' a n = contents (MemDeviceLaws := laws mid) s a n.
Proof.
  intros Hp Hev H0 H1 Hi Hf Hrr Ha Efp Hd Hc. unfold WAIT_ps in H1.
  destruct (atomic_read (MemDeviceLaws := laws mid) now s pkt d bs Hd Hrr Hc) as (s' & pkt' & t & E & Hrep & _ & Hsame).
  unfold recvTimingReq. rewrite Hi, Hf. cbn [andb].
  assert (isRead pkt = true) as -> by (unfold isRead; by rewrite (rr_cmd _ _ Hrr)). cbn [assert_ mbind res_bind].
  unfold ideal_access, recvAtomic, XBar.recvAtomic. rewrite Ha. cbn [mbind res_bind]. rewrite Efp. cbn [mbind res_bind].
  rewrite E. cbn [mbind res_bind]. set (pkt2 := pkt' <| lastWordDelay := u32 t |>).
  assert (read_reply pkt pkt2 bs) as Hrep' by (destruct Hrep; by split).
  destruct (response_scheduled x) eqn:Es; cbn -[u64]; rewrite Es; cbn -[u64].
  - eexists _, s', pkt2. split; [reflexivity|]. split_and!; [done|by apply queue_push|done|done].
  - unfold schedule. rewrite u64_small by (unfold WAIT_ps; lia). rewrite (proj2 (Z.leb_le _ _)) by (unfold WAIT_ps; lia).
    cbn. rewrite Hev by done. cbn. eexists _, s', pkt2. split; [reflexivity|]. split_and!; [done|by apply queue_push|done|done].
Qed.

End Data.

(** ** Witnesses

    A scratch-pad memory behind the first port, instructions fetched
    ideally. *)
Definition ex_ports (_ : Z) : MemDevice SimpleMemory := SimpleMemory_device ex_random.
Definition ex_ports_laws (mid : Z) : @MemDeviceLaws SimpleMemory (ex_ports mid) := SimpleMemory_laws ex_random.
Definition ex_base : XBar := ex_xbar <| portMap := [(AR.AddrRange2 64 95, 0)] |>.
Definition ex_px : PIMXBar := PIMXBar_new ex_base true false.
Definition ex_fetch : Packet := (ex_pkt ReadReq) <| req := ex_req <| _flags := Z.lor (_flags ex_req) INST_FETCH |> |>.
Definition no_link (_ : Z) (_ : Packet) : res (Packet * bool) := Err Fatal.

Lemma ex_fetch_request : read_request ex_fetch [1; 2; 3; 4].
Proof.
  split; [|done..]. split; [|done]. unfold pkt_wf, inw. cbn [flags addr psize data ex_fetch]. split_and!; try done; try lia.
  by intros d [= <-].
Qed.

Lemma ideal_fetch_data_witness : exists x' s' pkt',
  recvTimingReq ex_ports 5 ex_fetch 2 no_link ex_px ex_sm = Ok (x', s', pkt', true) /\
  getPtr pkt' = Ok [7; 7; 7; 7] /\ queue x' = [(2, pkt')] /\ respondEvent x' = Some 6.
Proof.
  destruct (findPort 68 ex_base) as [[b mid]|] eqn:E; [|discriminate E].
  assert (mid = 0) as -> by (vm_compute in E; by injection E as _ <-).
  destruct (ideal_fetch_data ex_ports ex_ports_laws 5 ex_fetch 2 0 [1; 2; 3; 4] [7; 7; 7; 7] no_link ex_px ex_sm b)
    as (x' & s' & pkt' & H1 & H2 & H3 & H4 & _).
  all: try done.
  - exact ex_fetch_request.
  - exists x', s', pkt'. split; [exact H1|]. split; [apply H2|]. split; [exact H3|]. by apply H4.
Defined.

Lemma pim_ideal_fifo_witness : exists x s pkt x',
  px_run ex_ports x s [(2, pkt)] [] /\ queue x = [(2, pkt)] /\
  respond 6 (fun _ _ x s => Ok (x, s, false)) (x <| respondEvent := None |>) s = Ok (x', s) /\ respondEvent x' = Some 7.
Proof.
  destruct (recvTimingReq ex_ports 5 ex_fetch 2 no_link ex_px ex_sm) as [[[[x s] pkt] ok]|] eqn:E;
    [|vm_compute in E; discriminate E].
  assert (R : px_run ex_ports x s [(2, pkt)] []).
  { eapply (run_arrive ex_ports 5 ex_px ex_sm [] []); [lia|unfold WAIT_ps; lia| |].
    - by apply (run_new ex_ports ex_base true false []).
    - eapply arr_request; [exact E|]. apply arr_refl. }
  destruct (pim_ideal_fifo ex_ports x s _ _ R) as (Hq & _ & H). cbn [app] in Hq.
  destruct (H 6 (fun _ _ x s => Ok (x, s, false))) as (p & k & Hh & Hn);
    [lia|unfold WAIT_ps; lia|vm_compute in E; by injection E as <- _ _ _|].
  rewrite <- Hq in Hh. injection Hh as <- <-.
  destruct (Hn _ _ _ _ eq_refl (arr_refl _ _ _ _ _)) as (x' & E' & Hev).
  exists x, s, pkt, x'. split; [exact R|]. split; [by symmetry|]. split; [exact E'|]. apply Hev.
  vm_compute in E. injection E as <- <- <- _. vm_compute in E'. by injection E' as <-.
Defined.
