(* ===== verification/SortedList.v ===== *)
(** The sorted linked list of the host benchmarks
    ([All_Summer2017/Linked_List_b/sorted/LinkedList.h]) and its version under
    one lock ([coarse/CoarseLinkedList.h]).

    Nodes live in a store; the list runs from a head sentinel to a tail
    sentinel, and the loops stop at the tail by comparing pointers.  [lrep]
    relates a store to the list of values between the sentinels; the theorems
    say that [contains], [add] and [remove] terminate and implement a finite
    set of values kept as an increasing list. *)
From S2P Require Import Prelude.
From S2P Require Import PtrList.

(** ** The specification: increasing lists of values *)
Definition increasing (xs : list Z) : Prop := StronglySorted Z.lt xs.

Fixpoint ins (x : Z) (xs : list Z) : list Z :=
  match xs with
  | [] => [x]
  | y :: ys => if x <? y then x :: xs else if x =? y then xs else y :: ins x ys
  end.

Definition del (x : Z) (xs : list Z) : list Z := filter (fun y => y <> x) xs.

Lemma elem_of_ins x y xs : y ∈ ins x xs <-> y = x \/ y ∈ xs.
Proof.
  induction xs as [|z xs IH]; cbn; [by rewrite list_elem_of_singleton, elem_of_nil; tauto|].
  destruct (Z.ltb_spec x z); [by rewrite !elem_of_cons|].
  destruct (Z.eqb_spec x z) as [->|]; rewrite !elem_of_cons; [tauto|]. rewrite IH. tauto.
Qed.

Lemma ins_increasing x xs : increasing xs -> increasing (ins x xs).
Proof.
  unfold increasing. induction 1 as [|y xs Hs IH Hf]; cbn; [by repeat constructor|].
  destruct (Z.ltb_spec x y).
  - repeat constructor; [done..|]. eapply Forall_impl; [exact Hf|]. intros; cbn in *; lia.
  - destruct (Z.eqb_spec x y); [by constructor|]. constructor; [done|].
    apply Forall_forall. intros z [->|Hz]%elem_of_ins; [lia|].
    by apply (proj1 (Forall_forall _ _) Hf).
Qed.

Lemma increasing_NoDup xs : increasing xs -> NoDup xs.
Proof.
  induction 1 as [|x xs _ IH Hx]; constructor; [|done]. intros Hin. pose proof (proj1 (Forall_forall _ _) Hx x Hin). lia.
Qed.

Lemma ins_perm k xs : increasing xs -> k ∉ xs -> ins k xs ≡ₚ k :: xs.
Proof.
  intros Hi Hk. apply NoDup_Permutation.
  - by apply increasing_NoDup, ins_increasing.
  - constructor; [done|by apply increasing_NoDup].
  - intros x. by rewrite elem_of_ins, elem_of_cons.
Qed.

Lemma del_increasing x xs : increasing xs -> increasing (del x xs).
Proof.
  unfold increasing, del. induction 1 as [|y xs Hs IH Hf]; [constructor|].
  rewrite filter_cons. case_decide; [|done]. constructor; [done|].
  apply Forall_forall. intros z [_ Hz]%list_elem_of_filter. by apply (proj1 (Forall_forall _ _) Hf).
Qed.

Lemma elem_of_del x y xs : y ∈ del x xs <-> y <> x /\ y ∈ xs.
Proof. unfold del. by rewrite list_elem_of_filter. Qed.

Lemma increasing_app_inv xs ys : increasing (xs ++ ys) ->
  increasing xs /\ increasing ys /\ forall x y, x ∈ xs -> y ∈ ys -> x < y.
Proof. unfold increasing. intros H. apply StronglySorted_app in H as (H1 & H2 & H3). eauto. Qed.

(** Where the loops stop: [xs] are the values passed over, [ys] the rest. *)
Lemma ins_app x xs ys : (forall y, y ∈ xs -> y < x) -> ins x (xs ++ ys) = xs ++ ins x ys.
Proof.
  induction xs as [|z xs IH]; intros H; [done|]. cbn.
  assert (z < x) by (apply H; left).
  destruct (Z.ltb_spec x z); [lia|]. destruct (Z.eqb_spec x z); [lia|].
  f_equal. apply IH. intros y Hy. apply H. by right.
Qed.

Lemma del_notin x xs : x ∉ xs -> del x xs = xs.
Proof.
  unfold del. induction xs as [|y xs IH]; [done|]. intros [H1 H2]%not_elem_of_cons.
  rewrite filter_cons_True by done. by rewrite IH.
Qed.

Lemma del_middle x xs ys : increasing (xs ++ x :: ys) -> del x (xs ++ x :: ys) = xs ++ ys.
Proof.
  intros (H1 & H2 & H3)%increasing_app_inv. unfold del. rewrite filter_app.
  rewrite filter_cons_False by tauto. unfold increasing in H2.
  apply StronglySorted_inv in H2 as [_ Hf]. f_equal; apply del_notin.
  - intros Hin. specialize (H3 x x Hin ltac:(left)). lia.
  - intros Hin. apply (proj1 (Forall_forall _ _) Hf) in Hin. lia.
Qed.

(** Values below [x] on the left and, at the stopping point, above it on the
    right: [x] is not there. *)
Lemma gap_notin x xs ys : increasing (xs ++ ys) -> (forall y, y ∈ xs -> y < x) ->
  (forall y ys', ys = y :: ys' -> x < y) -> x ∉ xs ++ ys.
Proof.
  intros (_ & H2 & _)%increasing_app_inv Hl Hr Hin. apply elem_of_app in Hin as [Hin|Hin].
  - specialize (Hl x Hin). lia.
  - destruct ys as [|y ys]; [by apply elem_of_nil in Hin|]. specialize (Hr y ys eq_refl).
    apply elem_of_cons in Hin as [->|Hin]; [lia|]. unfold increasing in H2.
    apply StronglySorted_inv in H2 as [_ Hf]. apply (proj1 (Forall_forall _ _) Hf) in Hin. lia.
Qed.

Lemma ins_gap x ys : (forall y ys', ys = y :: ys' -> x < y) -> ins x ys = x :: ys.
Proof.
  destruct ys as [|y ys]; [done|]. intros H. cbn. by rewrite (proj2 (Z.ltb_lt _ _)) by eauto.
Qed.

Module LL.

(** ** LinkedList.h *)
Record Node := mkNode { data : Z; next : option loc }.
Record LinkedList := mkList { head : loc; tail : loc }.

Definition UINT32_MAX : Z := 0xffffffff.
Abbreviation heap := (gmap loc Node).

(** The constructor. *)
Definition new_LinkedList (h : heap) : heap * LinkedList :=
  let node1 := new_loc h in
  let h := <[node1 := mkNode 0 None]> h in
  let node2 := new_loc h in
  let h := <[node2 := mkNode UINT32_MAX None]> h in
  (<[node1 := mkNode 0 (Some node2)]> h, mkList node1 node2).

Definition fuel_of (h : heap) : nat := S (size h).

Fixpoint contains_loop (fuel : nat) (h : heap) (tail : loc) (x : Z) (curr : option loc)
    : res bool :=
  match fuel with
  | O => Err Diverged
  | S fuel' =>
      if bool_decide (curr = Some tail) then Ok false
      else
        c ← deref curr;
        n ← deref (h !! c);
        if x <? data n then Ok false
        else if data n =? x then Ok true
        else contains_loop fuel' h tail x (next n)
  end.

Definition contains (h : heap) (l : LinkedList) (x : Z) : res bool :=
  hn ← deref (h !! head l);
  contains_loop (fuel_of h) h (tail l) x (next hn).

(** The search loop of [add] and [remove]: [None] when the loop ran to the tail
    or met a greater value, [Some c] when node [c] holds [x]; with it the
    predecessor and the node the loop stopped at. *)
Fixpoint search (fuel : nat) (h : heap) (tail : loc) (x : Z) (pred : loc) (curr : option loc)
    : res (bool * loc * option loc) :=
  match fuel with
  | O => Err Diverged
  | S fuel' =>
      if bool_decide (curr = Some tail) then Ok (false, pred, curr)
      else
        c ← deref curr;
        n ← deref (h !! c);
        if x <? data n then Ok (false, pred, curr)
        else if data n =? x then Ok (true, pred, curr)
        else search fuel' h tail x c (next n)
  end.

(** The end of [add]: the new node between [pred] and [curr]. *)
Definition link_new (h : heap) (x : Z) (pred : loc) (curr : option loc) : res heap :=
  let node1 := new_loc h in
  let h := <[node1 := mkNode x curr]> h in
  pn ← deref (h !! pred);
  Ok (<[pred := pn <| next := Some node1 |>]> h).

Definition add (h : heap) (l : LinkedList) (x : Z) : res (heap * bool) :=
  hn ← deref (h !! head l);
  if x =? data hn then Ok (h, false)
  else if x <? data hn then Ok (h, true)
  else
    '(found, pred, curr) ← search (fuel_of h) h (tail l) x (head l) (next hn);
    if (found : bool) then Ok (h, false)
    else h ← link_new h x pred curr; Ok (h, true).

(** The removal of [curr]: [pred->next = curr->next; delete curr]. *)
Definition unlink_node (h : heap) (pred : loc) (curr : option loc) : res heap :=
  c ← deref curr;
  cn ← deref (h !! c);
  pn ← deref (h !! pred);
  Ok (delete c (<[pred := pn <| next := next cn |>]> h)).

Definition remove (h : heap) (l : LinkedList) (x : Z) : res (heap * bool) :=
  hn ← deref (h !! head l);
  if data hn =? x then Ok (h, false)
  else
    '(found, pred, curr) ← search (fuel_of h) h (tail l) x (head l) (next hn);
    if (found : bool) then (h ← unlink_node h pred curr; Ok (h, true))
    else Ok (h, false).

(** The destructor: the store after it and the last value of [head]. *)
Fixpoint destroy_loop (fuel : nat) (h : heap) (hd tl : loc) : res (heap * loc) :=
  match fuel with
  | O => Err Diverged
  | S fuel' =>
      n ← deref (h !! hd);
      if bool_decide (next n = Some tl) then Ok (h, hd)
      else hd' ← deref (next n); destroy_loop fuel' (delete hd h) hd' tl
  end.
Definition destroy (h : heap) (l : LinkedList) : res (heap * loc) :=
  destroy_loop (fuel_of h) h (head l) (tail l).

(** The values [print] writes. *)
Fixpoint print_loop (fuel : nat) (h : heap) (tail : loc) (temp : option loc) : res (list Z) :=
  match fuel with
  | O => Err Diverged
  | S fuel' =>
      if bool_decide (temp = Some tail) then Ok []
      else
        t ← deref temp;
        n ← deref (h !! t);
        vs ← print_loop fuel' h tail (next n);
        Ok (data n :: vs)
  end.
Definition print (h : heap) (l : LinkedList) : res (list Z) :=
  hn ← deref (h !! head l); print_loop (fuel_of h) h (tail l) (next hn).

(** ** Representation *)

(** [vals h ns xs]: the nodes [ns] hold the values [xs]. *)
Abbreviation vals := (vals_of data).

Record lrep (h : heap) (l : LinkedList) (ns : list loc) (xs : list Z) : Prop := mk_lrep {
  lrep_seg : seg next h (Some (head l)) (head l :: ns ++ [tail l]) None;
  lrep_head : data <$> h !! head l = Some 0;
  lrep_vals : vals h ns xs;
  lrep_sorted : increasing (0 :: xs)
}.

Section repr.
Context (h : heap) (l : LinkedList).

(** The search started at the node after [pred]. *)
Lemma search_spec fuel x pred p ns xs :
  seg next h p (ns ++ [tail l]) None -> tail l ∉ ns -> vals h ns xs -> increasing xs ->
  (length ns < fuel)%nat ->
  exists ns1 xs1 ns2 xs2 found, ns = ns1 ++ ns2 /\ xs = xs1 ++ xs2 /\
    length ns1 = length xs1 /\ (forall y, y ∈ xs1 -> y < x) /\
    search fuel h (tail l) x pred p =
      Ok (found, default pred (last ns1), list.head (ns2 ++ [tail l])) /\
    contains_loop fuel h (tail l) x p = Ok found /\
    (if found then exists xs3, xs2 = x :: xs3 else forall y xs3, xs2 = y :: xs3 -> x < y).
Proof.
  revert pred p ns xs. induction fuel as [|fuel IH]; intros pred p ns xs Hs Ht Hv Hi Hf; [lia|].
  cbn [search contains_loop]. inversion Hv as [|c y ns' xs' Hy Hv' E1 E2]; subst.
  { destruct Hs as (-> & _). rewrite bool_decide_eq_true_2 by done.
    exists [], [], [], [], false. split_and!; try done. by intros ? ?%elem_of_nil. }
  destruct Hs as (-> & n & Hn & Hs). apply not_elem_of_cons in Ht as [Ht1 Ht2].
  rewrite bool_decide_eq_false_2 by congruence. cbn [deref mbind res_bind].
  rewrite Hn in *. cbn in Hy. injection Hy as Hy. cbn [deref mbind res_bind]. rewrite Hy.
  cbn in Hf. apply StronglySorted_inv in Hi as [Hi Hfa].
  destruct (Z.ltb_spec x y) as [Hlt|Hge].
  { exists [], [], (c :: ns'), (y :: xs'), false. split_and!; try done; [by intros ? ?%elem_of_nil|].
    by intros ?? [= <- _]. }
  destruct (Z.eqb_spec y x) as [->|Hne].
  { exists [], [], (c :: ns'), (x :: xs'), true. split_and!; try done; [by intros ? ?%elem_of_nil|]. eauto. }
  destruct (IH c (next n) ns' xs' Hs Ht2 Hv' Hi ltac:(lia))
    as (ns1 & xs1 & ns2 & xs2 & found & -> & -> & Hl & Hb & -> & -> & Hx).
  exists (c :: ns1), (y :: xs1), ns2, xs2, found.
  split_and!; try done; [cbn; lia|intros z [->|Hz]%elem_of_cons; [lia|by apply Hb]|].
  by rewrite last_cons; destruct (last ns1).
Qed.

End repr.

Lemma pred_split (a : loc) ns : exists pre, a :: ns = pre ++ [default a (last ns)].
Proof.
  revert a. induction ns as [|b ns IH] using rev_ind; intros a; [by exists []|].
  rewrite last_snoc. by exists (a :: ns).
Qed.

Lemma lrep_dom h l ns xs a : lrep h l ns xs -> a ∈ head l :: ns ++ [tail l] -> is_Some (h !! a).
Proof. intros [Hs _ _ _]. by eapply seg_dom. Qed.

Lemma lrep_nodup h l ns xs : lrep h l ns xs -> NoDup (head l :: ns ++ [tail l]).
Proof. intros [Hs _ _ _]. by eapply seg_NoDup. Qed.

(** The list cut behind the predecessor. *)
Lemma lrep_cut h l ns1 ns2 xs : lrep h l (ns1 ++ ns2) xs ->
  exists pre pn, head l :: ns1 = pre ++ [default (head l) (last ns1)] /\
    h !! default (head l) (last ns1) = Some pn /\ next pn = list.head (ns2 ++ [tail l]) /\
    seg next h (Some (head l)) (pre ++ [default (head l) (last ns1)])
      (list.head (ns2 ++ [tail l])) /\
    seg next h (list.head (ns2 ++ [tail l])) (ns2 ++ [tail l]) None.
Proof.
  intros [Hs _ _ _]. destruct (pred_split (head l) ns1) as [pre E].
  rewrite <- app_assoc, app_comm_cons, E in Hs. apply seg_app in Hs as (m & Hs1 & Hs2).
  assert (m = list.head (ns2 ++ [tail l])) as ->.
  { destruct ns2; cbn in *; by destruct Hs2 as (-> & _). }
  pose proof Hs1 as Hs1'. apply seg_app in Hs1' as (m & _ & (-> & pn & Hpn & Hn)). cbn in Hn.
  exists pre, pn. by split_and!.
Qed.

(** A write to the predecessor's pointer keeps the values. *)
Lemma vals_relink h ns xs p pn q : h !! p = Some pn -> vals h ns xs ->
  vals (<[p := pn <| next := q |>]> h) ns xs.
Proof. intros H. by eapply vals_insert_same. Qed.

Lemma head_relink (h : heap) a p pn q : h !! p = Some pn ->
  data <$> (<[p := pn <| next := q |>]> h) !! a = data <$> h !! a.
Proof.
  intros H. destruct (decide (a = p)) as [->|]; [|by rewrite lookup_insert_ne].
  by rewrite lookup_insert_eq, H.
Qed.

Lemma link_new_ok h l ns1 ns2 xs1 xs2 x :
  lrep h l (ns1 ++ ns2) (xs1 ++ xs2) -> length ns1 = length xs1 -> increasing (0 :: xs1 ++ x :: xs2) ->
  exists h' a, link_new h x (default (head l) (last ns1)) (list.head (ns2 ++ [tail l])) = Ok h' /\
    lrep h' l (ns1 ++ a :: ns2) (xs1 ++ x :: xs2).
Proof.
  intros Hr Hl Hi. destruct (lrep_cut _ _ _ _ _ Hr) as (pre & pn & E & Hpn & Hn & Hs1 & Hs2).
  set (p := default (head l) (last ns1)) in *. set (a := new_loc h).
  assert (h !! a = None) as Ha by apply new_loc_fresh.
  assert (forall b, b ∈ head l :: (ns1 ++ ns2) ++ [tail l] -> b <> a) as Hna.
  { intros b Hb ->. destruct (lrep_dom _ _ _ _ _ Hr Hb). congruence. }
  assert (p <> a) as Hpa by congruence.
  pose proof (lrep_nodup _ _ _ _ Hr) as Hnd. rewrite <- app_assoc, app_comm_cons, E in Hnd.
  apply NoDup_app in Hnd as (Hnd1 & Hd & _). apply NoDup_app in Hnd1 as (_ & Hp & _).
  assert (p ∉ pre) as Hpp by (intros H; apply (Hp _ H); left).
  assert (p ∉ ns2 ++ [tail l]) as Hp2 by (apply Hd, elem_of_app; right; left).
  unfold link_new. fold a. rewrite lookup_insert_ne, Hpn by done. cbn [deref mbind res_bind].
  eexists _, a. split; [reflexivity|]. destruct Hr as [_ Hh Hv _].
  apply Forall2_app_inv in Hv as [Hv1 Hv2]; [|done].
  constructor; [| | |done].
  - rewrite <- app_assoc, app_comm_cons, E. apply seg_app. exists (Some a). split.
    + eapply seg_relink; [|done|by rewrite lookup_insert_ne|done].
      apply seg_insert_ne; [|done]. rewrite <- E. intros H. apply (Hna a); [|done].
      apply elem_of_cons in H as [->|H]; [left|right].
      apply elem_of_app. left. apply elem_of_app. by left.
    + cbn. split; [done|]. eexists. rewrite lookup_insert_ne, lookup_insert_eq by done.
      split; [done|]. apply seg_insert_ne; [done|]. apply seg_insert_ne; [|done].
      intros H. apply (Hna a); [|done]. right. rewrite <- app_assoc. apply elem_of_app. by right.
  - rewrite head_relink by (by rewrite lookup_insert_ne).
    rewrite lookup_insert_ne; [done|]. intros Eh. apply (Hna (head l)); [left|done].
  - apply Forall2_app; [|constructor].
    + apply vals_relink; [by rewrite lookup_insert_ne|]. apply vals_insert_ne; [|done].
      intros H. apply (Hna a); [|done]. right. apply elem_of_app. left. apply elem_of_app. by left.
    + rewrite lookup_insert_ne, lookup_insert_eq by done. done.
    + apply vals_relink; [by rewrite lookup_insert_ne|]. apply vals_insert_ne; [|done].
      intros H. apply (Hna a); [|done]. right. apply elem_of_app. left. apply elem_of_app. by right.
Qed.

Lemma unlink_node_ok h l ns1 c ns2 xs1 x xs2 :
  lrep h l (ns1 ++ c :: ns2) (xs1 ++ x :: xs2) -> length ns1 = length xs1 ->
  exists h', unlink_node h (default (head l) (last ns1)) (Some c) = Ok h' /\
    lrep h' l (ns1 ++ ns2) (xs1 ++ xs2).
Proof.
  intros Hr Hl. destruct (lrep_cut _ _ _ _ _ Hr) as (pre & pn & E & Hpn & Hn & Hs1 & Hs2).
  set (p := default (head l) (last ns1)) in *. cbn [app list.head] in Hs1, Hs2, Hn.
  destruct Hs2 as (_ & cn & Hcn & Hs2).
  pose proof (lrep_nodup _ _ _ _ Hr) as Hnd.
  rewrite <- app_assoc, app_comm_cons, E in Hnd. cbn [app] in Hnd.
  apply NoDup_app in Hnd as (Hnd1 & Hd & Hnd2). apply NoDup_cons in Hnd2 as [Hc2 _].
  apply NoDup_app in Hnd1 as (_ & Hp & _).
  assert (p ∉ pre) as Hpp by (intros H; apply (Hp _ H); left).
  assert (p ∈ pre ++ [p]) as Hpin by (apply elem_of_app; right; left).
  pose proof (Hd p Hpin) as Hp2. apply not_elem_of_cons in Hp2 as [Hpc Hp2].
  assert (c ∉ pre ++ [p]) as Hcp by (intros H; apply (Hd c H); left).
  unfold unlink_node. cbn [deref mbind res_bind]. rewrite Hcn, Hpn. cbn [deref mbind res_bind].
  eexists. split; [reflexivity|]. destruct Hr as [_ Hh Hv Hi].
  apply Forall2_app_inv in Hv as [Hv1 Hv2]; [|done]. apply Forall2_cons in Hv2 as [_ Hv2].
  rewrite <- E in Hcp. apply not_elem_of_cons in Hcp as [Hch Hcn1].
  assert (c ∉ ns2) as Hcn2 by (intros H; apply Hc2, elem_of_app; by left).
  constructor.
  - apply seg_delete.
    { rewrite not_elem_of_cons, <- app_assoc, not_elem_of_app. done. }
    rewrite <- app_assoc, app_comm_cons, E. apply seg_app. exists (next cn). split.
    + by eapply seg_relink.
    + by apply seg_insert_ne.
  - rewrite lookup_delete_ne by done. by rewrite head_relink.
  - apply vals_delete; [by rewrite not_elem_of_app|]. apply vals_relink; [done|]. by apply Forall2_app.
  - rewrite app_comm_cons in Hi |- *. apply increasing_app_inv in Hi as (H1 & H2 & H3).
    unfold increasing in *. apply StronglySorted_inv in H2 as [H2 _].
    apply StronglySorted_app_2; [|done..]. intros y z Hy Hz. apply H3; [done|by right].
Qed.

Lemma lrep_start h l ns xs : lrep h l ns xs ->
  exists hn, h !! head l = Some hn /\ data hn = 0 /\ seg next h (next hn) (ns ++ [tail l]) None /\
    tail l ∉ ns /\ increasing xs /\ (length (ns ++ [tail l]) < fuel_of h)%nat.
Proof.
  intros Hr. pose proof (lrep_nodup _ _ _ _ Hr) as Hn.
  pose proof (seg_length _ _ _ _ (lrep_seg _ _ _ _ Hr)) as Hlen. cbn in Hlen.
  destruct Hr as [(_ & hn & Hh & Hs) Hd Hv Hi]. exists hn. rewrite Hh in Hd. injection Hd as Hd.
  apply NoDup_cons in Hn as [_ Hn]. apply NoDup_app in Hn as (_ & Hx & _).
  split_and!; try done; [|by apply StronglySorted_inv in Hi as [Hi _]|unfold fuel_of; lia].
  intros H. apply (Hx _ H). left.
Qed.

Lemma increasing_place x xs1 xs2 : 0 < x -> increasing (0 :: xs1 ++ xs2) ->
  (forall y, y ∈ xs1 -> y < x) -> (forall y xs3, xs2 = y :: xs3 -> x < y) ->
  increasing (0 :: xs1 ++ x :: xs2).
Proof.
  intros Hx Hi Hb Hg.
  assert (0 :: xs1 ++ x :: xs2 = ins x (0 :: xs1 ++ xs2)) as ->; [|by apply ins_increasing].
  rewrite app_comm_cons, (app_comm_cons xs1 xs2), ins_app.
  - by rewrite ins_gap.
  - intros y [->|Hy]%elem_of_cons; [done|by apply Hb].
Qed.

Lemma print_loop_ok fuel h tl p ns xs :
  seg next h p (ns ++ [tl]) None -> tl ∉ ns -> vals h ns xs -> (length ns < fuel)%nat ->
  print_loop fuel h tl p = Ok xs.
Proof.
  revert p ns xs. induction fuel as [|fuel IH]; intros p ns xs Hs Ht Hv Hf; [lia|].
  cbn [print_loop]. inversion Hv as [|c y ns' xs' Hy Hv' E1 E2]; subst.
  { destruct Hs as (-> & _). by rewrite bool_decide_eq_true_2. }
  destruct Hs as (-> & n & Hn & Hs). apply not_elem_of_cons in Ht as [Ht1 Ht2].
  rewrite bool_decide_eq_false_2 by congruence. cbn [deref mbind res_bind].
  rewrite Hn in *. injection Hy as Hy. cbn [deref mbind res_bind]. cbn in Hf.
  rewrite (IH _ ns' xs') by (done || lia). cbn [mbind res_bind]. by rewrite Hy.
Qed.

(** The operations on a list that holds the values [xs]. *)
Lemma list_ops h l ns xs x :
  lrep h l ns xs -> 0 < x ->
  contains h l x = Ok (bool_decide (x ∈ xs)) /\
  (exists h' ns', add h l x = Ok (h', bool_decide (x ∉ xs)) /\ lrep h' l ns' (ins x xs)) /\
  (exists h' ns', remove h l x = Ok (h', bool_decide (x ∈ xs)) /\ lrep h' l ns' (del x xs)) /\
  print h l = Ok xs.
Proof.
  intros Hr Hx. destruct (lrep_start _ _ _ _ Hr) as (hn & Hh & Hd & Hs & Ht & Hi & Hlen).
  rewrite length_app in Hlen. cbn in Hlen.
  destruct (search_spec h l (fuel_of h) x (head l) (next hn) ns xs Hs Ht (lrep_vals _ _ _ _ Hr) Hi)
    as (ns1 & xs1 & ns2 & xs2 & found & -> & -> & Hl & Hb & Hse & Hco & Hfo); [lia|].
  unfold contains, add, remove, print. rewrite Hh. cbn [deref mbind res_bind]. rewrite Hd.
  rewrite (proj2 (Z.eqb_neq x 0)), (proj2 (Z.eqb_neq 0 x)), (proj2 (Z.ltb_ge x 0)) by lia.
  rewrite Hco, Hse. cbn [mbind res_bind].
  assert (print_loop (fuel_of h) h (tail l) (next hn) = Ok (xs1 ++ xs2)) as Hp.
  { eapply print_loop_ok; [done|done|apply Hr|lia]. }
  destruct found.
  - destruct Hfo as [xs3 ->].
    assert (x ∈ xs1 ++ x :: xs3) as Hin by (apply elem_of_app; right; left).
    rewrite (bool_decide_eq_true_2 _ Hin), bool_decide_eq_false_2 by tauto.
    assert (length ns2 = length (x :: xs3)) as Hl2.
    { pose proof (Forall2_length _ _ _ (lrep_vals _ _ _ _ Hr)) as H.
      rewrite !length_app in H. lia. }
    destruct ns2 as [|c ns2]; [done|]. cbn [app list.head].
    split; [done|]. split; [|split; [|done]].
    + exists h, (ns1 ++ c :: ns2). split; [done|].
      rewrite ins_app by done. cbn. by rewrite Z.ltb_irrefl, Z.eqb_refl.
    + destruct (unlink_node_ok _ _ _ _ _ _ _ _ Hr Hl) as (h' & -> & Hr'). cbn [mbind res_bind].
      exists h', (ns1 ++ ns2). split; [done|]. by rewrite del_middle.
  - pose proof (gap_notin _ _ _ Hi Hb Hfo) as Hn.
    rewrite (bool_decide_eq_false_2 _ Hn), bool_decide_eq_true_2 by done.
    split; [done|]. split; [|split; [|done]].
    + destruct (link_new_ok h l ns1 ns2 xs1 xs2 x Hr Hl) as (h' & a & -> & Hr').
      { apply increasing_place; [done|apply Hr|done..]. }
      cbn [mbind res_bind]. exists h', (ns1 ++ a :: ns2). split; [done|].
      by rewrite ins_app, ins_gap.
    + exists h, (ns1 ++ ns2). split; [done|]. by rewrite del_notin.
Qed.

(** The value of the head sentinel is refused. *)
Lemma list_zero h l ns xs : lrep h l ns xs ->
  contains h l 0 = Ok false /\ add h l 0 = Ok (h, false) /\ remove h l 0 = Ok (h, false).
Proof.
  intros Hr. destruct (lrep_start _ _ _ _ Hr) as (hn & Hh & Hd & Hs & Ht & Hi & Hlen).
  rewrite length_app in Hlen. cbn in Hlen.
  destruct (search_spec h l (fuel_of h) 0 (head l) (next hn) ns xs Hs Ht (lrep_vals _ _ _ _ Hr) Hi)
    as (ns1 & xs1 & ns2 & xs2 & found & -> & -> & _ & _ & _ & Hco & Hfo); [lia|].
  unfold contains, add, remove. rewrite Hh. cbn [deref mbind res_bind]. rewrite Hd, Hco.
  split; [|done]. destruct found; [|done]. destruct Hfo as [xs3 ->].
  apply lrep_sorted in Hr. apply StronglySorted_inv in Hr as [_ Hf].
  assert (0 < 0); [|lia]. apply (proj1 (Forall_forall _ _) Hf), elem_of_app. right. left.
Qed.

(** The constructor makes an empty list. *)
Lemma new_LinkedList_ok h : let '(h', l) := new_LinkedList h in lrep h' l [] [].
Proof.
  unfold new_LinkedList. set (a := new_loc h). set (h1 := <[a := mkNode 0 None]> h).
  set (b := new_loc h1).
  assert (a <> b) as Hab.
  { intros E. pose proof (new_loc_fresh h1) as H. fold b in H. rewrite <- E in H.
    unfold h1 in H. by rewrite lookup_insert_eq in H. }
  constructor; cbn; [|by rewrite lookup_insert_eq|constructor|by repeat constructor].
  split; [done|]. eexists. rewrite lookup_insert_eq. split; [done|]. cbn. split; [done|].
  eexists. rewrite lookup_insert_ne, lookup_insert_eq by done. done.
Qed.

Lemma destroy_loop_ok fuel h hd tl ns :
  seg next h (Some hd) (hd :: ns ++ [tl]) None -> (length ns < fuel)%nat ->
  exists h', destroy_loop fuel h hd tl = Ok (h', default hd (last ns)) /\
    (forall a, a ∈ hd :: ns -> a <> default hd (last ns) -> h' !! a = None) /\
    (forall a, a ∉ hd :: ns \/ a = default hd (last ns) -> h' !! a = h !! a).
Proof.
  revert h hd ns. induction fuel as [|fuel IH]; intros h hd ns Hs Hf; [lia|].
  pose proof (seg_NoDup _ _ _ _ Hs) as Hn. destruct Hs as (_ & n & Hh & Hs).
  cbn [destroy_loop]. rewrite Hh. cbn [deref mbind res_bind].
  destruct ns as [|b ns].
  { destruct Hs as (-> & _). rewrite bool_decide_eq_true_2 by done. exists h.
    split; [done|]. split; [|done]. by intros a ->%list_elem_of_singleton. }
  pose proof Hs as (Eb & _). rewrite Eb. cbn in Hf.
  apply NoDup_cons in Hn as [Hn1 Hn2].
  rewrite bool_decide_eq_false_2.
  2: { intros [= ->]. apply NoDup_cons in Hn2 as [Hn2 _]. apply Hn2, elem_of_app. right. left. }
  cbn [deref mbind res_bind]. rewrite Eb in Hs.
  destruct (IH (delete hd h) b ns) as (h' & -> & Hg & Hk); [by apply seg_delete|lia|].
  assert (default hd (last (b :: ns)) = default b (last ns)) as El
    by (rewrite last_cons; by destruct (last ns)).
  rewrite El. exists h'. split; [done|].
  assert (hd ∉ b :: ns) as Hhd.
  { intros H. apply Hn1. apply elem_of_cons in H as [->|H]; [left|right; apply elem_of_app; by left]. }
  split.
  - intros a [->|Ha]%elem_of_cons Hne; [|by apply Hg]. rewrite Hk by (by left).
    apply lookup_delete_eq.
  - intros a Ha. assert (a <> hd) as Hne.
    { intros ->. destruct Ha as [Ha| ->]; [apply Ha; left|]. apply Hhd.
      destruct (pred_split b ns) as [pre E]. rewrite E. apply elem_of_app. right. left. }
    rewrite Hk, lookup_delete_ne by (done || (destruct Ha as [Ha|Ha]; [left|by right];
      intros H; apply Ha; by right)). done.
Qed.

(** The destructor stops one node early: it frees every node in front of
    the last one, and leaves that node (the head sentinel of an empty list) and
    the tail sentinel allocated. *)
Theorem destroy_leaks h l ns xs :
  lrep h l ns xs ->
  exists h', destroy h l = Ok (h', default (head l) (last ns)) /\
    (forall a, a ∈ head l :: ns -> a <> default (head l) (last ns) -> h' !! a = None) /\
    is_Some (h' !! default (head l) (last ns)) /\ is_Some (h' !! tail l).
Proof.
  intros Hr. destruct (lrep_start _ _ _ _ Hr) as (hn & _ & _ & _ & Ht & _ & Hlen).
  rewrite length_app in Hlen. cbn in Hlen.
  destruct (destroy_loop_ok (fuel_of h) h (head l) (tail l) ns (lrep_seg _ _ _ _ Hr))
    as (h' & Hd & Hg & Hk); [lia|].
  exists h'. split; [done|]. split; [done|].
  pose proof (lrep_nodup _ _ _ _ Hr) as Hn. apply NoDup_cons in Hn as [Hn _].
  destruct (pred_split (head l) ns) as [pre E].
  split; rewrite Hk.
  - eapply lrep_dom; [done|]. rewrite app_comm_cons, E. apply elem_of_app. left.
    apply elem_of_app. right. left.
  - by right.
  - eapply lrep_dom; [done|]. right. apply elem_of_app. right. left.
  - left. intros [H|H]%elem_of_cons; [|done]. apply Hn. rewrite <- H. apply elem_of_app. right. left.
Qed.

(** *** A list built by the program *)
Definition demo_run : res (heap * LinkedList) :=
  let '(h, l) := new_LinkedList ∅ in
  '(h, _) ← add h l 7; '(h, _) ← add h l 3; '(h, _) ← add h l 5; Ok (h, l).
Definition demo_heap : heap := match demo_run with Ok (h, _) => h | Err _ => ∅ end.
Definition demo_list : LinkedList :=
  match demo_run with Ok (_, l) => l | Err _ => mkList 1 1 end.

Lemma demo_rep : exists ns, lrep demo_heap demo_list ns [3; 5; 7].
Proof.
  unfold demo_heap, demo_list, demo_run. pose proof (new_LinkedList_ok ∅) as H0.
  destruct (new_LinkedList ∅) as [h0 l].
  destruct (list_ops _ _ _ _ 7 H0) as (_ & (h1 & ns1 & -> & H1) & _); [lia|]. cbn [mbind res_bind].
  destruct (list_ops _ _ _ _ 3 H1) as (_ & (h2 & ns2 & -> & H2) & _); [lia|]. cbn [mbind res_bind].
  destruct (list_ops _ _ _ _ 5 H2) as (_ & (h3 & ns3 & -> & H3) & _); [lia|]. cbn [mbind res_bind].
  by exists ns3.
Qed.

(** The set a list stands for. *)
Definition lset (h : heap) (l : LinkedList) (X : gset Z) : Prop :=
  exists ns xs, lrep h l ns xs /\ X = list_to_set xs.

Lemma lset_del x xs : list_to_set (del x xs) = (list_to_set xs : gset Z) ∖ {[x]}.
Proof.
  apply set_eq. intros y. rewrite elem_of_difference, !elem_of_list_to_set, elem_of_del,
    elem_of_singleton. tauto.
Qed.

Lemma lset_ins x xs : list_to_set (ins x xs) = {[x]} ∪ (list_to_set xs : gset Z).
Proof.
  apply set_eq. intros y. rewrite elem_of_union, !elem_of_list_to_set, elem_of_ins,
    elem_of_singleton. tauto.
Qed.

(** The sorted list terminates and implements a finite set of numbers: for
    every value but that of the head sentinel, also one above the tail
    sentinel's, [contains] decides membership, [add] and [remove] insert and
    delete the value and say whether the set changed; the sentinel's value 0 is
    never a member and cannot be added or removed. *)
Theorem list_refines_set h l X x :
  lset h l X -> 0 <= x ->
  contains h l x = Ok (bool_decide (x ∈ X)) /\
  (exists h', add h l x = Ok (h', bool_decide (x ∉ X /\ x <> 0)) /\
     lset h' l (if decide (x = 0) then X else {[x]} ∪ X)) /\
  (exists h', remove h l x = Ok (h', bool_decide (x ∈ X)) /\ lset h' l (X ∖ {[x]})).
Proof.
  intros (ns & xs & Hr & ->) Hx. destruct (decide (x = 0)) as [->|Hne].
  - destruct (list_zero _ _ _ _ Hr) as (-> & -> & ->).
    assert (0 ∉ (list_to_set xs : gset Z)) as H0.
    { rewrite elem_of_list_to_set. intros H. apply lrep_sorted, StronglySorted_inv in Hr as [_ Hf].
      apply (proj1 (Forall_forall _ _) Hf) in H. lia. }
    rewrite !bool_decide_eq_false_2 by tauto.
    split; [done|]. split; [exists h; split; [done|by exists ns, xs]|].
    exists h. split; [done|]. exists ns, xs. split; [done|].
    apply difference_disjoint_L. by apply disjoint_singleton_r.
  - destruct (list_ops _ _ _ _ x Hr) as (-> & (h1 & ns1 & -> & H1) & (h2 & ns2 & -> & H2) & _);
      [lia|].
    split; [by rewrite (bool_decide_ext _ _ (elem_of_list_to_set x xs))|]. split.
    + exists h1. split; [do 2 f_equal; apply bool_decide_ext; rewrite elem_of_list_to_set; tauto|].
      exists ns1, (ins x xs). by rewrite lset_ins.
    + exists h2. split; [by rewrite (bool_decide_ext _ _ (elem_of_list_to_set x xs))|].
      exists ns2, (del x xs). by rewrite lset_del.
Qed.

Lemma list_refines_set_witness : exists X, lset demo_heap demo_list X /\
  contains demo_heap demo_list 5 = Ok (bool_decide (5 ∈ X)).
Proof.
  exists (list_to_set [3; 5; 7]).
  assert (lset demo_heap demo_list (list_to_set [3; 5; 7])) as H.
  { destruct demo_rep as [ns Hr]. by exists ns, [3; 5; 7]. }
  split; [exact H|].
  destruct (list_refines_set demo_heap demo_list _ 5 H) as [Hc _]; [lia|]. exact Hc.
Defined.

Lemma destroy_leaks_witness :
  exists h' a, destroy demo_heap demo_list = Ok (h', a) /\ is_Some (h' !! tail demo_list).
Proof.
  destruct demo_rep as [ns Hr].
  destruct (destroy_leaks demo_heap demo_list ns [3; 5; 7] Hr) as (h' & Hd & _ & _ & Ht).
  exists h', (default (head demo_list) (last ns)). split; [exact Hd|exact Ht].
Defined.

End LL.
