(* ===== verification/FgList.v ===== *)
(** The sorted list with a lock in every node
    ([All_Summer2017/Linked_List_b/fine_grained/FGLockLinkedList.h]).

    Threads run [contains], [add] and [remove] at the same time.  A thread is
    a program counter with its local variables; [tstep] is what it does next,
    one lock operation or one access to a node it has locked.  The steps of
    the threads interleave.  The theorems say that in every interleaving no
    thread touches freed memory or unlocks a mutex it does not hold, that the
    list is linearizable to a set (each call takes effect at one moment between
    its invocation and its response), and that the threads never deadlock.

    The constructor initialises the mutex of the first sentinel twice and that of
    the second never; the theorems hold from there on, up to the lock of that
    mutex, and beyond it where its memory happens to be that of an unlocked one. *)
From S2P Require Import Prelude.
From S2P Require Import PtrList.
From S2P Require Import SortedList.

Module FG.

(** ** The state *)
Abbreviation tid := nat.

(** A mutex; the memory of a node that was never passed to
    [pthread_mutex_init] is [Uninit]. *)
Inductive mutex := Uninit | Free | Held (t : tid).

#[global] Instance mutex_eq_dec : EqDecision mutex.
Proof. solve_decision. Defined.

Record Node := mkNode { data : Z; next : option loc; node_lock : mutex }.
Record LinkedList := mkList { head : loc; tail : loc }.
Abbreviation heap := (gmap loc Node).

Definition UINT32_MAX : Z := 0xffffffff.

(** The constructor initialises the mutex of [node1] twice and that of [node2]
    never: [raw] is what the memory of [node2] happens to hold. *)
Definition new_LinkedList (raw : mutex) (node1 node2 : loc) : heap * LinkedList :=
  (<[node1 := mkNode 0 (Some node2) Free]> {[node2 := mkNode UINT32_MAX None raw]},
   mkList node1 node2).

Inductive op := Contains | Add | Remove.

(** Where a call is, with its [pred] and [curr]; the comment says which locks it
    holds. *)
Inductive pc :=
| Idle
| LockHead                         (* none *)
| ReadNext (pred : loc)            (* pred *)
| LockCurr (pred curr : loc)       (* pred *)
| DropPred (pred curr : loc)       (* contains: both *)
| CTest (curr : loc)               (* contains: curr *)
| LTest (pred curr : loc)          (* both *)
| DropAdv (pred curr : loc)        (* both *)
| Link (pred curr : loc)           (* add: both *)
| Unlink (pred curr : loc)         (* remove: both *)
| FreeUnlock (pred curr : loc)     (* remove: both, curr is unlinked *)
| FreeNode (pred curr : loc)       (* remove: pred, curr is unlinked *)
| Ret2 (pred curr : loc) (r : bool)   (* both *)
| Ret1 (a : loc) (r : bool)           (* a *)
| Return (r : bool).

Record thread := mkThread { top : op; tx : Z; tpc : pc }.

(** [pthread_mutex_lock]: [None] while the mutex is held. *)
Definition lock (h : heap) (t : tid) (a : loc) : res (option heap) :=
  n ← deref (h !! a);
  match node_lock n with
  | Free => Ok (Some (<[a := n <| node_lock := Held t |>]> h))
  | Held _ => Ok None
  | Uninit => undefined
  end.

(** [pthread_mutex_unlock], by the thread that holds it. *)
Definition unlock (h : heap) (t : tid) (a : loc) : res heap :=
  n ← deref (h !! a);
  if bool_decide (node_lock n = Held t)
  then Ok (<[a := n <| node_lock := Free |>]> h) else undefined.

(** The next step of thread [t]: the store and the program counter after it, or
    [None] when the thread cannot move by itself. *)
Definition tstep (l : LinkedList) (h : heap) (t : tid) (th : thread)
    : res (option (heap * pc)) :=
  let x := tx th in
  let go (o : option heap) (k : pc) := (fun h => (h, k)) <$> o in
  let advance_or (n : Node) (lt eq gt : pc) :=
    if x <? data n then lt else if x =? data n then eq else gt in
  match tpc th with
  | Idle | Return _ => Ok None
  | LockHead => o ← lock h t (head l); Ok (go o (ReadNext (head l)))
  | ReadNext p => n ← deref (h !! p); c ← deref (next n); Ok (Some (h, LockCurr p c))
  | LockCurr p c =>
      o ← lock h t c;
      Ok (go o (match top th with Contains => DropPred p c | _ => LTest p c end))
  | DropPred p c => h ← unlock h t p; Ok (Some (h, CTest c))
  | CTest c =>
      if bool_decide (c = tail l) then Ok (Some (h, Ret1 c false))
      else n ← deref (h !! c);
           Ok (Some (h, advance_or n (Ret1 c false) (Ret1 c true) (ReadNext c)))
  | LTest p c =>
      match top th with
      | Remove =>
          if bool_decide (c = tail l) then Ok (Some (h, Ret2 p c false))
          else n ← deref (h !! c);
               Ok (Some (h, advance_or n (Ret2 p c false) (Unlink p c) (DropAdv p c)))
      | _ =>
          if bool_decide (c = tail l) then Ok (Some (h, Link p c))
          else n ← deref (h !! c);
               Ok (Some (h, advance_or n (Link p c) (Ret2 p c false) (DropAdv p c)))
      end
  | DropAdv p c => h ← unlock h t p; Ok (Some (h, ReadNext c))
  | Link p c =>
      let a := new_loc h in
      let h := <[a := mkNode x (Some c) Free]> h in
      pn ← deref (h !! p);
      Ok (Some (<[p := pn <| next := Some a |>]> h, Ret2 p c true))
  | Unlink p c =>
      cn ← deref (h !! c);
      pn ← deref (h !! p);
      Ok (Some (<[p := pn <| next := next cn |>]> h, FreeUnlock p c))
  | FreeUnlock p c => h ← unlock h t c; Ok (Some (h, FreeNode p c))
  | FreeNode p c =>
      n ← deref (h !! c);
      if bool_decide (node_lock n = Free)
      then Ok (Some (delete c h, Ret1 p true)) else undefined
  | Ret2 p c r => h ← unlock h t p; Ok (Some (h, Ret1 c r))
  | Ret1 a r => h ← unlock h t a; Ok (Some (h, Return r))
  end.

(** The destructor, run by thread [t]: each node is unlocked, its mutex
    destroyed and the node freed. *)
Definition free_node (h : heap) (t : tid) (a : loc) : res heap :=
  h ← unlock h t a; Ok (delete a h).

Fixpoint destroy_loop (fuel : nat) (h : heap) (t : tid) (hd tl : loc) : res heap :=
  match fuel with
  | O => Err Diverged
  | S fuel' =>
      if bool_decide (hd = tl) then free_node h t hd
      else
        n ← deref (h !! hd);
        hd' ← deref (next n);
        h ← free_node h t hd;
        destroy_loop fuel' h t hd' tl
  end.
Definition destroy (l : LinkedList) (h : heap) (t : tid) : res heap :=
  destroy_loop (S (size h)) h t (head l) (tail l).

(** ** The system: the store and the threads *)
Record state := mkState { mem : heap; thr : gmap tid thread }.

(** What an outside observer sees. *)
Inductive label :=
| Tau
| Invoke (t : tid) (o : op) (x : Z)
| Respond (t : tid) (r : bool).

Inductive step (l : LinkedList) : state -> label -> state -> Prop :=
| step_invoke s t th o x :
    thr s !! t = Some th -> tpc th = Idle ->
    step l s (Invoke t o x) (s <| thr := <[t := mkThread o x LockHead]> (thr s) |>)
| step_run s t th h' k :
    thr s !! t = Some th -> tstep l (mem s) t th = Ok (Some (h', k)) ->
    step l s Tau (mkState h' (<[t := th <| tpc := k |>]> (thr s)))
| step_respond s t th r :
    thr s !! t = Some th -> tpc th = Return r ->
    step l s (Respond t r) (s <| thr := <[t := th <| tpc := Idle |>]> (thr s) |>).

(** Executions, with the invocations and responses they show. *)
Inductive steps (l : LinkedList) : state -> list label -> state -> Prop :=
| steps_nil s : steps l s [] s
| steps_tau s s1 s2 tr : step l s Tau s1 -> steps l s1 tr s2 -> steps l s tr s2
| steps_vis s s1 s2 a tr : a <> Tau -> step l s a s1 -> steps l s1 tr s2 -> steps l s (a :: tr) s2.

(** ** The specification: a set with atomic operations *)
Inductive status := SIdle | SPending (o : op) (x : Z) | SDone (r : bool).

Definition apply_op (o : op) (x : Z) (xs : list Z) : list Z * bool :=
  match o with
  | Contains => (xs, bool_decide (x ∈ xs))
  | Add => (ins x xs, bool_decide (x ∉ xs))
  | Remove => (del x xs, bool_decide (x ∈ xs))
  end.

Definition spec : Type := list Z * gmap tid status.

Inductive spec_step : spec -> label -> spec -> Prop :=
| spec_stutter s : spec_step s Tau s
| spec_invoke xs m t o x : m !! t = Some SIdle ->
    spec_step (xs, m) (Invoke t o x) (xs, <[t := SPending o x]> m)
| spec_lin xs m t o x xs' r : m !! t = Some (SPending o x) -> apply_op o x xs = (xs', r) ->
    spec_step (xs, m) Tau (xs', <[t := SDone r]> m)
| spec_respond xs m t r : m !! t = Some (SDone r) ->
    spec_step (xs, m) (Respond t r) (xs, <[t := SIdle]> m).

Inductive spec_steps : spec -> list label -> spec -> Prop :=
| spec_nil s : spec_steps s [] s
| spec_tau s s1 s2 tr : spec_step s Tau s1 -> spec_steps s1 tr s2 -> spec_steps s tr s2
| spec_vis s s1 s2 a tr : a <> Tau -> spec_step s a s1 -> spec_steps s1 tr s2 ->
    spec_steps s (a :: tr) s2.

(** ** The invariant *)
Definition holds (k : pc) : list loc :=
  match k with
  | Idle | LockHead | Return _ => []
  | ReadNext p | LockCurr p _ | FreeNode p _ => [p]
  | CTest c => [c]
  | DropPred p c | LTest p c | DropAdv p c | Link p c | Unlink p c | FreeUnlock p c
  | Ret2 p c _ => [p; c]
  | Ret1 a _ => [a]
  end.

(** The node a thread has unlinked and not yet freed. *)
Definition detached (k : pc) : option loc :=
  match k with FreeUnlock _ c | FreeNode _ c => Some c | _ => None end.

Section inv.
Context (l : LinkedList) (raw : mutex).

Definition nodes (ns : list loc) : list loc := head l :: ns ++ [tail l].
Abbreviation vals := (vals_of data).

Definition adj (h : heap) (p c : loc) : Prop := exists n, h !! p = Some n /\ next n = Some c.
Definition small (h : heap) (x : Z) (a : loc) : Prop := exists n, h !! a = Some n /\ data n < x.
Definition below (h : heap) (x : Z) (p : loc) : Prop := p = head l \/ small h x p.
Definition above (h : heap) (x : Z) (c : loc) : Prop :=
  c = tail l \/ exists n, h !! c = Some n /\ x < data n.

(** What a thread knows about the list at each point. *)
Definition knows (h : heap) (ns : list loc) (th : thread) : Prop :=
  let x := tx th in
  let at_pred p := p ∈ nodes ns /\ p <> tail l in
  match tpc th with
  | Idle | LockHead | Return _ | Ret1 _ _ => True
  | Ret2 p c _ => p <> c
  | ReadNext p => at_pred p /\ below h x p
  | LockCurr p c => at_pred p /\ below h x p /\ adj h p c
  | DropPred p c => at_pred p /\ below h x p /\ adj h p c /\ top th = Contains
  | CTest c => c ∈ nodes ns /\ c <> head l /\ top th = Contains
  | LTest p c => at_pred p /\ below h x p /\ adj h p c /\ top th <> Contains
  | DropAdv p c => at_pred p /\ adj h p c /\ c <> tail l /\ small h x c
  | Link p c => at_pred p /\ below h x p /\ adj h p c /\ above h x c /\ top th = Add
  | Unlink p c => at_pred p /\ below h x p /\ adj h p c /\ c <> tail l /\
      (exists n, h !! c = Some n /\ data n = x) /\ top th = Remove
  | FreeUnlock p c => p <> c /\ c ∉ nodes ns
  | FreeNode p c => c ∉ nodes ns /\ exists n, h !! c = Some n /\ node_lock n = Free
  end.

Definition owns (h : heap) (t : tid) (th : thread) : Prop :=
  forall a, a ∈ holds (tpc th) -> exists n, h !! a = Some n /\ node_lock n = Held t.

Record inv (s : state) (ns : list loc) (xs : list Z) : Prop := mk_inv {
  inv_seg : seg next (mem s) (Some (head l)) (nodes ns) None;
  inv_vals : vals (mem s) ns xs;
  inv_sorted : increasing xs;
  inv_knows : forall t th, thr s !! t = Some th -> knows (mem s) ns th;
  inv_owns : forall t th, thr s !! t = Some th -> owns (mem s) t th;
  inv_owner : forall a n t, mem s !! a = Some n -> node_lock n = Held t ->
    exists th, thr s !! t = Some th /\ a ∈ holds (tpc th);
  inv_detached : forall t t' th th' c, thr s !! t = Some th -> thr s !! t' = Some th' ->
    detached (tpc th) = Some c -> detached (tpc th') = Some c -> t = t';
  inv_init : forall a n, mem s !! a = Some n -> node_lock n = Uninit -> raw = Uninit /\ a = tail l
}.

(** What a step of thread [t] leaves alone: the nodes other threads have locked
    and the nodes they have unlinked. *)
Record frame (t : tid) (th : thread) (h : heap) (ns : list loc) (h' : heap) (ns' : list loc)
    : Prop := mk_frame {
  frame_held : forall t' a n, t' <> t -> h !! a = Some n -> node_lock n = Held t' ->
    h' !! a = Some n /\ (a ∈ nodes ns <-> a ∈ nodes ns');
  frame_detached : forall c n, c ∉ nodes ns -> h !! c = Some n -> node_lock n = Free ->
    detached (tpc th) <> Some c -> h' !! c = Some n /\ c ∉ nodes ns'
}.

Lemma knows_frame t th h ns h' ns' t' th' :
  frame t th h ns h' ns' -> t' <> t -> owns h t' th' -> knows h ns th' ->
  (forall c, detached (tpc th') = Some c -> detached (tpc th) <> Some c) -> knows h' ns' th'.
Proof.
  intros [Hh Hd] Hne Ho Hk Hdet. unfold owns in Ho.
  assert (forall a, a ∈ holds (tpc th') -> h' !! a = h !! a /\ (a ∈ nodes ns <-> a ∈ nodes ns')) as Hs.
  { intros a Ha. destruct (Ho a Ha) as (n & Hn & Hl). rewrite Hn. eauto. }
  unfold knows in *. unfold adj, above, below, small in *.
  destruct (tpc th') eqn:Ek; cbn [holds] in Hs; try done.
  - destruct (Hs pred ltac:(left)) as [-> Hi]. by rewrite <- Hi.
  - destruct (Hs pred ltac:(left)) as [-> Hi]. by rewrite <- Hi.
  - destruct (Hs pred ltac:(left)) as [-> Hi]. by rewrite <- Hi.
  - destruct (Hs curr ltac:(left)) as [_ Hi]. by rewrite <- Hi.
  - destruct (Hs pred ltac:(left)) as [-> Hi]. by rewrite <- Hi.
  - destruct (Hs pred ltac:(left)) as [-> Hi], (Hs curr ltac:(right; left)) as [-> _]. by rewrite <- Hi.
  - destruct (Hs pred ltac:(left)) as [-> Hi], (Hs curr ltac:(right; left)) as [-> _]. by rewrite <- Hi.
  - destruct (Hs pred ltac:(left)) as [-> Hi], (Hs curr ltac:(right; left)) as [-> _]. by rewrite <- Hi.
  - destruct (Hs curr ltac:(right; left)) as [_ Hi]. by rewrite <- Hi.
  - destruct Hk as (Hk & n & Hn & Hl).
    destruct (Hd curr n Hk Hn Hl) as [-> ?]; [by apply Hdet|]. eauto.
Qed.

(** A step of one thread, given what it does to the store. *)
Lemma inv_step s ns xs t th h' k ns' xs' :
  inv s ns xs -> thr s !! t = Some th ->
  frame t th (mem s) ns h' ns' ->
  seg next h' (Some (head l)) (nodes ns') None -> vals h' ns' xs' -> increasing xs' ->
  knows h' ns' (th <| tpc := k |>) -> owns h' t (th <| tpc := k |>) ->
  (forall a n t', h' !! a = Some n -> node_lock n = Held t' ->
     (t' = t /\ a ∈ holds k) \/ (t' <> t /\ mem s !! a = Some n)) ->
  (forall c, detached k = Some c -> detached (tpc th) = Some c \/ c ∈ nodes ns) ->
  (forall a n, h' !! a = Some n -> node_lock n = Uninit -> raw = Uninit /\ a = tail l) ->
  inv (mkState h' (<[t := th <| tpc := k |>]> (thr s))) ns' xs'.
Proof.
  intros [Hs Hv Hi Hk Ho Hw Hd Hu] Ht Hf Hs' Hv' Hi' Hk' Ho' Hw' Hd' Hu'.
  assert (forall t' th' c, thr s !! t' = Some th' -> detached (tpc th') = Some c -> c ∉ nodes ns) as Hout.
  { intros t' th' c Ht' Hc. specialize (Hk _ _ Ht'). unfold knows in Hk.
    destruct (tpc th'); try done; injection Hc as <-; apply Hk. }
  constructor; cbn [mem thr]; try done.
  - intros t' th'. destruct (decide (t' = t)) as [->|Hne].
    + rewrite lookup_insert_eq. by intros [= <-].
    + rewrite lookup_insert_ne by done. intros Ht'. eapply knows_frame; eauto.
  - intros t' th'. destruct (decide (t' = t)) as [->|Hne].
    + rewrite lookup_insert_eq. by intros [= <-].
    + rewrite lookup_insert_ne by done. intros Ht' a Ha.
      destruct (Ho _ _ Ht' a Ha) as (n & Hn & Hl). exists n.
      split; [|done]. by eapply frame_held.
  - intros a n t' Ha Hl. destruct (Hw' _ _ _ Ha Hl) as [[-> Hin]|[Hne Ha0]].
    + rewrite lookup_insert_eq. by eexists.
    + rewrite lookup_insert_ne by done. by eapply Hw.
  - assert (forall t' th' c, t' <> t -> thr s !! t' = Some th' -> detached k = Some c ->
      detached (tpc th') = Some c -> False) as Hx.
    { intros t' th' c Hne Ht' H1 H2. destruct (Hd' _ H1) as [H3|H3].
      - by apply Hne, (Hd t' t th' th c).
      - by eapply Hout. }
    intros t1 t2 th1 th2 c. destruct (decide (t1 = t)) as [->|H1], (decide (t2 = t)) as [->|H2];
      rewrite ?lookup_insert_eq, ?lookup_insert_ne by done; try done.
    + intros [= <-] Ht2 Hc1 Hc2. by destruct (Hx t2 th2 c).
    + intros Ht1 [= <-] Hc1 Hc2. by destruct (Hx t1 th1 c).
    + apply Hd.
Qed.

(** *** Steps that only lock, unlock or read *)
Definition relock (h : heap) (a : loc) (n : Node) (m : mutex) : heap :=
  <[a := n <| node_lock := m |>]> h.

Lemma relock_lookup h a n m b n' : h !! a = Some n -> h !! b = Some n' ->
  exists n2, relock h a n m !! b = Some n2 /\ data n2 = data n' /\ next n2 = next n'.
Proof.
  intros Ha Hb. unfold relock. destruct (decide (b = a)) as [->|Hne].
  - rewrite lookup_insert_eq. rewrite Ha in Hb. injection Hb as <-. by eexists.
  - rewrite lookup_insert_ne by done. eauto.
Qed.

Lemma relock_adj h a n m p c : h !! a = Some n -> adj h p c -> adj (relock h a n m) p c.
Proof.
  intros Ha (n' & Hp & Hc). destruct (relock_lookup _ _ _ m _ _ Ha Hp) as (n2 & H2 & _ & En).
  exists n2. by rewrite En.
Qed.

Lemma relock_small h a n m x p : h !! a = Some n -> small h x p -> small (relock h a n m) x p.
Proof.
  intros Ha (n' & Hp & Hc). destruct (relock_lookup _ _ _ m _ _ Ha Hp) as (n2 & H2 & Ed & _).
  exists n2. by rewrite Ed.
Qed.

Lemma relock_below h a n m x p : h !! a = Some n -> below h x p -> below (relock h a n m) x p.
Proof. intros Ha [->|H]; [by left|right]. by apply relock_small. Qed.

Lemma relock_seg h a n m p ns q : h !! a = Some n -> seg next h p ns q ->
  seg next (relock h a n m) p ns q.
Proof. intros Ha. by eapply seg_insert_same. Qed.

(** A step that does not touch the store. *)
Lemma inv_local s ns xs t th k :
  inv s ns xs -> thr s !! t = Some th -> holds k = holds (tpc th) -> detached k = None ->
  knows (mem s) ns (th <| tpc := k |>) ->
  inv (mkState (mem s) (<[t := th <| tpc := k |>]> (thr s))) ns xs.
Proof.
  intros Hi Ht Hh Hd Hk. pose proof Hi as [Hs Hv Hso Hkn Ho Hw _ Hu].
  eapply inv_step; eauto.
  - constructor; eauto.
  - intros a. cbn. rewrite Hh. by apply Ho.
  - intros a n t' Ha Hl. destruct (decide (t' = t)) as [->|]; [left|by right].
    destruct (Hw _ _ _ Ha Hl) as (th' & Ht' & Hin). rewrite Ht in Ht'. injection Ht' as <-.
    by rewrite Hh.
  - intros c. by rewrite Hd.
Qed.

Lemma inv_lock s ns xs t th k a n :
  inv s ns xs -> thr s !! t = Some th -> mem s !! a = Some n -> node_lock n = Free ->
  a ∈ nodes ns -> (forall b, b ∈ holds k <-> b = a \/ b ∈ holds (tpc th)) -> detached k = None ->
  knows (relock (mem s) a n (Held t)) ns (th <| tpc := k |>) ->
  inv (mkState (relock (mem s) a n (Held t)) (<[t := th <| tpc := k |>]> (thr s))) ns xs.
Proof.
  intros Hi Ht Ha Hl Hin Hh Hd Hk. pose proof Hi as [Hs Hv Hso Hkn Ho Hw _ Hu].
  unfold relock in *. eapply inv_step; eauto.
  - constructor.
    + intros t' b m Hne Hb Hm. rewrite lookup_insert_ne; [done|]. intros <-.
      rewrite Ha in Hb. injection Hb as <-. congruence.
    + intros c m Hc Hm Hf _. rewrite lookup_insert_ne by (intros ->; done). done.
  - by apply (relock_seg _ _ _ (Held t)).
  - by eapply vals_insert_same.
  - intros b. cbn. rewrite Hh. destruct (decide (b = a)) as [->|Hne].
    + intros _. rewrite lookup_insert_eq. by eexists.
    + intros [|Hb]; [done|]. rewrite lookup_insert_ne by done. by apply (Ho _ _ Ht).
  - intros b m t'. rewrite Hh. destruct (decide (b = a)) as [->|Hne].
    + rewrite lookup_insert_eq. intros [= <-]. cbn. intros [= <-]. left. eauto.
    + rewrite lookup_insert_ne by done. intros Hb Hm.
      destruct (decide (t' = t)) as [->|]; [left|by right].
      destruct (Hw _ _ _ Hb Hm) as (th' & Ht' & Hin'). rewrite Ht in Ht'. injection Ht' as <-. eauto.
  - intros c. by rewrite Hd.
  - intros b m. destruct (decide (b = a)) as [->|Hne].
    + rewrite lookup_insert_eq. by intros [= <-].
    + rewrite lookup_insert_ne by done. apply Hu.
Qed.

Lemma inv_unlock s ns xs t th k a n :
  inv s ns xs -> thr s !! t = Some th -> mem s !! a = Some n -> node_lock n = Held t ->
  (forall b, b ∈ holds k <-> b <> a /\ b ∈ holds (tpc th)) ->
  (forall c, detached k = Some c -> detached (tpc th) = Some c) ->
  knows (relock (mem s) a n Free) ns (th <| tpc := k |>) ->
  inv (mkState (relock (mem s) a n Free) (<[t := th <| tpc := k |>]> (thr s))) ns xs.
Proof.
  intros Hi Ht Ha Hl Hh Hd Hk. pose proof Hi as [Hs Hv Hso Hkn Ho Hw _ Hu].
  unfold relock in *. eapply inv_step; eauto.
  - constructor.
    + intros t' b m Hne Hb Hm. rewrite lookup_insert_ne; [done|]. intros <-.
      rewrite Ha in Hb. injection Hb as <-. congruence.
    + intros c m Hc Hm Hf _. rewrite lookup_insert_ne; [done|]. intros <-.
      rewrite Ha in Hm. injection Hm as <-. congruence.
  - by apply (relock_seg _ _ _ Free).
  - by eapply vals_insert_same.
  - intros b. cbn. rewrite Hh. intros [Hne Hb]. rewrite lookup_insert_ne by done.
    by apply (Ho _ _ Ht).
  - intros b m t'. rewrite Hh. destruct (decide (b = a)) as [->|Hne].
    + rewrite lookup_insert_eq. by intros [= <-].
    + rewrite lookup_insert_ne by done. intros Hb Hm.
      destruct (decide (t' = t)) as [->|]; [left|by right].
      destruct (Hw _ _ _ Hb Hm) as (th' & Ht' & Hin'). rewrite Ht in Ht'. injection Ht' as <-. eauto.
  - intros b m. destruct (decide (b = a)) as [->|Hne].
    + rewrite lookup_insert_eq. by intros [= <-].
    + rewrite lookup_insert_ne by done. apply Hu.
Qed.

(** *** The place of a predecessor *)
Lemma cut h ns xs x p c :
  seg next h (Some (head l)) (nodes ns) None -> vals h ns xs -> increasing xs ->
  p ∈ nodes ns -> p <> tail l -> adj h p c -> below h x p ->
  exists pre ns1 ns2 xs1 xs2, ns = ns1 ++ ns2 /\ xs = xs1 ++ xs2 /\ vals h ns1 xs1 /\
    vals h ns2 xs2 /\ head l :: ns1 = pre ++ [p] /\ list.head (ns2 ++ [tail l]) = Some c /\
    (forall y, y ∈ xs1 -> y < x) /\ seg next h (Some (head l)) (pre ++ [p]) (Some c) /\
    seg next h (Some c) (ns2 ++ [tail l]) None.
Proof.
  intros Hs Hv Hi Hp Hpt (pn & Hpn & Hn) Hb. unfold nodes in *.
  assert (exists pre ns1 ns2, ns = ns1 ++ ns2 /\ head l :: ns1 = pre ++ [p]) as
    (pre & ns1 & ns2 & -> & E).
  { apply elem_of_cons in Hp as [->|Hp]; [by exists [], [], ns|].
    apply elem_of_app in Hp as [Hp|Hp]; [|by apply list_elem_of_singleton in Hp].
    apply list_elem_of_split in Hp as (n1 & n2 & ->). exists (head l :: n1), (n1 ++ [p]), n2.
    by rewrite <- app_assoc. }
  apply Forall2_app_inv_l in Hv as (xs1 & xs2 & Hv1 & Hv2 & ->).
  pose proof (seg_NoDup _ _ _ _ Hs) as Hnd.
  rewrite <- app_assoc, app_comm_cons, E in Hs, Hnd. apply seg_app in Hs as (m & Hs1 & Hs2).
  assert (m = Some c) as ->.
  { pose proof Hs1 as H. apply seg_app in H as (m' & _ & (-> & n' & Hn' & H')). cbn in H'.
    rewrite Hpn in Hn'. injection Hn' as <-. congruence. }
  exists pre, ns1, ns2, xs1, xs2. split_and!; try done.
  - destruct ns2; cbn in *; by destruct Hs2 as (-> & _).
  - destruct Hb as [->|(pn' & Hpn' & Hlt)].
    + assert (ns1 = []) as ->; [|inversion Hv1; by intros ? ?%elem_of_nil].
      destruct pre as [|a pre]; cbn in E; [by injection E|]. injection E as <- E. exfalso.
      apply NoDup_app in Hnd as (Hnd & _). cbn in Hnd. apply NoDup_cons in Hnd as [Hnd _].
      apply Hnd, elem_of_app. right. left.
    + rewrite Hpn in Hpn'. injection Hpn' as <-. intros y Hy.
      destruct pre as [|a pre]; cbn in E.
      { injection E as _ ->. inversion Hv1; subst. by apply elem_of_nil in Hy. }
      injection E as _ ->. apply Forall2_app_inv_l in Hv1 as (ys & zs & Hv3 & Hv4 & ->).
      inversion Hv4 as [|? z ? ? Hz Hv5]; subst. inversion Hv5; subst.
      rewrite Hpn in Hz. injection Hz as <-.
      apply increasing_app_inv in Hi as (Hi & _). apply increasing_app_inv in Hi as (_ & _ & H).
      apply elem_of_app in Hy as [Hy|Hy]; [|apply list_elem_of_singleton in Hy; by subst].
      specialize (H y (data pn) Hy ltac:(left)). lia.
Qed.

(** The value at [curr], given where it is. *)
Lemma cut_curr h ns2 xs2 c n : vals h ns2 xs2 -> list.head (ns2 ++ [tail l]) = Some c ->
  c <> tail l -> h !! c = Some n ->
  exists ns3 xs3, ns2 = c :: ns3 /\ xs2 = data n :: xs3 /\ vals h ns3 xs3.
Proof.
  intros Hv Hc Ht Hn. destruct ns2 as [|b ns3]; cbn in Hc; [congruence|]. injection Hc as ->.
  inversion Hv as [|? y ? xs3 Hy Hv3]; subst. rewrite Hn in Hy. injection Hy as <-. eauto.
Qed.

Lemma cut_tail ns2 xs2 h c : vals h ns2 xs2 -> list.head (ns2 ++ [tail l]) = Some c ->
  NoDup (ns2 ++ [tail l]) -> c = tail l -> xs2 = [].
Proof.
  intros Hv Hc Hn ->. destruct ns2 as [|b ns3]; [by inversion Hv|]. cbn in Hc.
  injection Hc as ->. cbn in Hn. apply NoDup_cons in Hn as [Hn _]. exfalso.
  apply Hn, elem_of_app. right. left.
Qed.

(** Nothing at [curr] or after it is at most [x]. *)
Lemma above_gap h ns2 xs2 c x : vals h ns2 xs2 -> list.head (ns2 ++ [tail l]) = Some c ->
  NoDup (ns2 ++ [tail l]) -> above h x c -> forall y ys, xs2 = y :: ys -> x < y.
Proof.
  intros Hv Hc Hn Ha y ys ->. destruct Ha as [Hct|(n & Hcn & Hlt)].
  - by pose proof (cut_tail _ _ _ _ Hv Hc Hn Hct).
  - inversion Hv as [|b ? ns3 ? Hy Hv3]; subst. cbn in Hc. injection Hc as ->.
    rewrite Hcn in Hy. injection Hy as <-. done.
Qed.

(** *** Steps that change the list *)
Lemma nodes_dom h ns a : seg next h (Some (head l)) (nodes ns) None -> a ∈ nodes ns ->
  is_Some (h !! a).
Proof. apply seg_dom. Qed.

Lemma held_ne s ns xs t th t' p b n : inv s ns xs -> thr s !! t = Some th -> p ∈ holds (tpc th) ->
  t' <> t -> mem s !! b = Some n -> node_lock n = Held t' -> b <> p.
Proof.
  intros Hi Ht Hp Hne Hb Hn ->. destruct (inv_owns _ _ _ Hi _ _ Ht p Hp) as (m & Hm & Hl).
  rewrite Hb in Hm. injection Hm as <-. congruence.
Qed.

Lemma owner_self s ns xs t th b n : inv s ns xs -> thr s !! t = Some th ->
  mem s !! b = Some n -> node_lock n = Held t -> b ∈ holds (tpc th).
Proof.
  intros Hi Ht Hb Hn. destruct (inv_owner _ _ _ Hi _ _ _ Hb Hn) as (th' & Ht' & Hin).
  rewrite Ht in Ht'. by injection Ht' as <-.
Qed.

(** A new node behind [p], as a change of the list. *)
Lemma link_list h p pn c x a pre ns1 ns2 xs1 xs2 :
  vals h ns1 xs1 -> vals h ns2 xs2 -> head l :: ns1 = pre ++ [p] -> p ∉ pre ->
  h !! p = Some pn -> h !! a = None -> p <> a -> head l <> a ->
  p ∉ ns2 ++ [tail l] -> a ∉ ns1 -> a ∉ ns2 ++ [tail l] ->
  seg next h (Some (head l)) (pre ++ [p]) (Some c) ->
  seg next h (Some c) (ns2 ++ [tail l]) None ->
  let h' := <[p := pn <| next := Some a |>]> (<[a := mkNode x (Some c) Free]> h) in
  seg next h' (Some (head l)) (nodes (ns1 ++ a :: ns2)) None /\
  vals h' (ns1 ++ a :: ns2) (xs1 ++ x :: xs2).
Proof.
  intros Hv1 Hv2 E Hpp Hpn Hfr Hpa Hha Hp2 Ha1 Ha2 Hs1 Hs2 h'. split.
  - unfold nodes. rewrite <- app_assoc, app_comm_cons, E. apply seg_app. exists (Some a). split.
    + eapply seg_relink; [|done|by rewrite lookup_insert_ne|done].
      apply seg_insert_ne; [|done]. rewrite <- E, not_elem_of_cons. done.
    + cbn. split; [done|]. unfold h'. eexists.
      rewrite lookup_insert_ne, lookup_insert_eq by done.
      split; [done|]. apply seg_insert_ne; [done|]. by apply seg_insert_ne.
  - unfold h'. apply Forall2_app; [|constructor].
    + eapply vals_insert_same; [by rewrite lookup_insert_ne|done|]. by apply vals_insert_ne.
    + rewrite lookup_insert_ne, lookup_insert_eq by done. done.
    + eapply vals_insert_same; [by rewrite lookup_insert_ne|done|]. apply vals_insert_ne; [|done].
      intros H. apply Ha2, elem_of_app. by left.
Qed.

(** A thread writes the pointer of a node it has locked, and may add a new node:
    nobody's locks change. *)
Lemma owned_write s ns xs t th p pn q (h' : heap) :
  inv s ns xs -> thr s !! t = Some th -> p ∈ holds (tpc th) -> mem s !! p = Some pn ->
  h' !! p = Some (pn <| next := q |>) ->
  (forall b, b <> p -> h' !! b = mem s !! b \/
     mem s !! b = None /\ exists n, h' !! b = Some n /\ node_lock n = Free) ->
  (forall b, b ∈ holds (tpc th) -> exists n, h' !! b = Some n /\ node_lock n = Held t) /\
  (forall b n t', h' !! b = Some n -> node_lock n = Held t' ->
     (t' = t /\ b ∈ holds (tpc th)) \/ (t' <> t /\ mem s !! b = Some n)) /\
  (forall b n, h' !! b = Some n -> node_lock n = Uninit -> raw = Uninit /\ b = tail l).
Proof.
  intros Hi Ht Hin Hpn Hp Hoth. pose proof Hi as [_ _ _ _ Ho _ _ Hu].
  destruct (Ho _ _ Ht p Hin) as (pn' & Hpn' & Hpl). rewrite Hpn in Hpn'. injection Hpn' as <-.
  split_and!.
  - intros b Hb. destruct (Ho _ _ Ht b Hb) as (n & Hn & Hl).
    destruct (decide (b = p)) as [->|Hne]; [eauto|].
    destruct (Hoth b Hne) as [E|[E _]]; [|congruence]. exists n. by rewrite E.
  - intros b n t' Hb Hl. destruct (decide (b = p)) as [->|Hne].
    + rewrite Hp in Hb. injection Hb as <-. cbn in Hl. left. split; [congruence|done].
    + destruct (Hoth b Hne) as [E|(_ & n' & Hn' & Hf)]; [|congruence]. rewrite E in Hb.
      destruct (decide (t' = t)) as [->|]; [left|by right]. split; [done|].
      exact (owner_self _ _ _ _ _ _ _ Hi Ht Hb Hl).
  - intros b n Hb. destruct (decide (b = p)) as [->|Hne].
    + rewrite Hp in Hb. injection Hb as <-. cbn. congruence.
    + destruct (Hoth b Hne) as [E|(_ & n' & Hn' & Hf)]; [|congruence].
      rewrite E in Hb. by eapply Hu.
Qed.

Lemma inv_link s ns xs t th p c pn :
  inv s ns xs -> thr s !! t = Some th -> tpc th = Link p c -> mem s !! p = Some pn ->
  exists ns', inv (mkState (<[p := pn <| next := Some (new_loc (mem s)) |>]>
                    (<[new_loc (mem s) := mkNode (tx th) (Some c) Free]> (mem s)))
             (<[t := th <| tpc := Ret2 p c true |>]> (thr s))) ns' (ins (tx th) xs) /\
    tx th ∉ xs.
Proof.
  intros Hi Ht Ek Hpn. pose proof Hi as [Hs Hv Hso Hkn Ho Hw _ Hu].
  pose proof (Hkn _ _ Ht) as Hk. unfold knows in Hk. rewrite Ek in Hk.
  destruct Hk as ((Hp & Hpt) & Hb & Ha & Hab & _).
  destruct (cut _ _ _ _ _ _ Hs Hv Hso Hp Hpt Ha Hb)
    as (pre & ns1 & ns2 & xs1 & xs2 & -> & -> & Hv1 & Hv2 & E & Hc & Hlt & Hs1 & Hs2).
  set (h := mem s) in *. set (a := new_loc h). set (x := tx th) in *.
  assert (h !! a = None) as Hfr by apply new_loc_fresh.
  assert (forall b, b ∈ nodes (ns1 ++ ns2) -> b <> a) as Hna.
  { intros b Hb' ->. destruct (nodes_dom _ _ _ Hs Hb'). congruence. }
  assert (p <> a) as Hpa by congruence.
  pose proof (seg_NoDup _ _ _ _ Hs) as Hnd. unfold nodes in Hnd.
  rewrite <- app_assoc, app_comm_cons, E in Hnd.
  apply NoDup_app in Hnd as (Hnd1 & Hd & Hnd2). apply NoDup_app in Hnd1 as (_ & Hpp & _).
  assert (p ∉ ns2 ++ [tail l]) as Hp2 by (apply Hd, elem_of_app; right; left).
  pose proof (above_gap _ _ _ _ _ Hv2 Hc Hnd2 Hab) as Hgap.
  assert (forall b, b <> a -> (b ∈ nodes (ns1 ++ ns2) <-> b ∈ nodes (ns1 ++ a :: ns2))) as Hmem.
  { intros b Hne. unfold nodes. rewrite !elem_of_cons, !elem_of_app, !elem_of_cons. tauto. }
  exists (ns1 ++ a :: ns2). split; [|by apply gap_notin].
  rewrite ins_app, ins_gap by done.
  assert (a ∉ ns1 /\ a ∉ ns2 ++ [tail l]) as [Ha1 Ha2].
  { split; intros H; apply (Hna a); try done; unfold nodes; right.
    - apply elem_of_app. left. apply elem_of_app. by left.
    - rewrite <- app_assoc. apply elem_of_app. by right. }
  destruct (link_list h p pn c x a pre ns1 ns2 xs1 xs2) as [Hs' Hv'];
    [done|done|done|intros H; by apply (Hpp _ H); left|done|done|done|
     intros Eh; by apply (Hna (head l)); [left|]|done..|].
  assert (p <> c) as Hpc.
  { intros ->. apply Hp2. destruct ns2; cbn in Hc |- *; injection Hc as ->; left. }
  destruct (owned_write s (ns1 ++ ns2) (xs1 ++ xs2) t th p pn (Some a)
    (<[p := pn <| next := Some a |>]> (<[a := mkNode x (Some c) Free]> h))) as (Hown & Hlk & Hin');
    [done|done|rewrite Ek; left|done|by rewrite lookup_insert_eq| |].
  { intros b Hne. rewrite lookup_insert_ne by done. destruct (decide (b = a)) as [->|Hnb].
    - right. rewrite lookup_insert_eq. eauto.
    - left. by rewrite lookup_insert_ne. }
  eapply inv_step; [done|done| |exact Hs'|exact Hv'| |by cbn| | | |].
  - constructor; cbn [mem]; fold h.
    + intros t' b n Hne Hb' Hn.
      assert (b <> p) by (eapply held_ne; [done|done|rewrite Ek; left|done..]).
      assert (b <> a) by congruence.
      rewrite !lookup_insert_ne by done. split; [done|by apply Hmem].
    + intros b n Hb' Hn _ _. assert (b <> a) by congruence.
      assert (b <> p) by (intros ->; done).
      rewrite !lookup_insert_ne by done. split; [done|by rewrite <- Hmem].
  - pose proof (ins_increasing x _ Hso) as H. by rewrite ins_app, ins_gap in H.
  - unfold owns. cbn. intros b Hb'. apply Hown. by rewrite Ek.
  - intros b n t' Hb' Hl. destruct (Hlk b n t' Hb' Hl) as [[-> H]|H]; [left|by right].
    by rewrite Ek in H.
  - done.
  - exact Hin'.
Qed.

Lemma inv_unlink s ns xs t th p c pn cn :
  inv s ns xs -> thr s !! t = Some th -> tpc th = Unlink p c ->
  mem s !! p = Some pn -> mem s !! c = Some cn ->
  exists ns', inv (mkState (<[p := pn <| next := next cn |>]> (mem s))
             (<[t := th <| tpc := FreeUnlock p c |>]> (thr s))) ns' (del (tx th) xs) /\
    tx th ∈ xs.
Proof.
  intros Hi Ht Ek Hpn Hcn. pose proof Hi as [Hs Hv Hso Hkn Ho Hw _ Hu].
  pose proof (Hkn _ _ Ht) as Hk. unfold knows in Hk. rewrite Ek in Hk.
  destruct Hk as ((Hp & Hpt) & Hb & Ha & Hct & (cn' & Hcn' & Hx) & _).
  rewrite Hcn in Hcn'. injection Hcn' as <-.
  destruct (cut _ _ _ _ _ _ Hs Hv Hso Hp Hpt Ha Hb)
    as (pre & ns1 & ns2 & xs1 & xs2 & -> & -> & Hv1 & Hv2 & E & Hc & Hlt & Hs1 & Hs2).
  destruct (cut_curr _ _ _ _ _ Hv2 Hc Hct Hcn) as (ns3 & xs3 & -> & -> & Hv3).
  set (h := mem s) in *. destruct Hs2 as (_ & cn' & Hcn' & Hs3).
  rewrite Hcn in Hcn'. injection Hcn' as <-.
  pose proof (seg_NoDup _ _ _ _ Hs) as Hnd. unfold nodes in Hnd.
  rewrite <- app_assoc, app_comm_cons, E in Hnd. cbn [app] in Hnd.
  apply NoDup_app in Hnd as (Hnd1 & Hd & Hnd2). apply NoDup_app in Hnd1 as (_ & Hpp & _).
  apply NoDup_cons in Hnd2 as [Hc2 _].
  assert (p ∈ pre ++ [p]) as Hpin by (apply elem_of_app; right; left).
  pose proof (Hd p Hpin) as Hp2. apply not_elem_of_cons in Hp2 as [Hpc Hp2].
  assert (c ∉ pre ++ [p]) as Hcp by (intros H; apply (Hd c H); left).
  rewrite <- E, not_elem_of_cons in Hcp. destruct Hcp as [Hch Hc1].
  assert (forall b, b <> c -> (b ∈ nodes (ns1 ++ c :: ns3) <-> b ∈ nodes (ns1 ++ ns3))) as Hmem.
  { intros b Hne. unfold nodes. rewrite !elem_of_cons, !elem_of_app, !elem_of_cons. tauto. }
  exists (ns1 ++ ns3). rewrite Hx in *.
  split; [|apply elem_of_app; right; left]. rewrite (del_middle _ _ _ Hso).
  destruct (owned_write s (ns1 ++ c :: ns3) (xs1 ++ tx th :: xs3) t th p pn (next cn)
    (<[p := pn <| next := next cn |>]> h)) as (Hown & Hlk & Hin');
    [done|done|rewrite Ek; left|done|by rewrite lookup_insert_eq|
     intros b Hne; left; by rewrite lookup_insert_ne|].
  eapply inv_step; [done|done| | | | | | | | |].
  - constructor; cbn [mem]; fold h.
    + intros t' b n Hne Hb' Hn.
      assert (b <> p) by (eapply held_ne; [done|done|rewrite Ek; left|done..]).
      assert (b <> c) by (eapply held_ne; [done|done|rewrite Ek; right; left|done..]).
      rewrite lookup_insert_ne by done. split; [done|by apply Hmem].
    + intros b n Hb' Hn _ _. rewrite lookup_insert_ne by (intros ->; done). split; [done|].
      rewrite <- Hmem; [done|]. intros ->. apply Hb'. unfold nodes. right.
      apply elem_of_app. left. apply elem_of_app. right. left.
  - unfold nodes. rewrite <- app_assoc, app_comm_cons, E. apply seg_app. exists (next cn). split.
    + eapply seg_relink; [done|intros H; by apply (Hpp _ H); left|done|done].
    + by apply seg_insert_ne.
  - eapply vals_insert_same; [done|done|]. by apply Forall2_app.
  - rewrite <- (del_middle (tx th) xs1 xs3) by done. by apply del_increasing.
  - cbn. unfold nodes. rewrite not_elem_of_cons, <- app_assoc, not_elem_of_app. done.
  - unfold owns. cbn. intros b Hb'. apply Hown. by rewrite Ek.
  - intros b n t' Hb' Hl. destruct (Hlk b n t' Hb' Hl) as [[-> H]|H]; [left|by right].
    by rewrite Ek in H.
  - intros c' [= <-]. right. unfold nodes. right. apply elem_of_app. left.
    apply elem_of_app. right. left.
  - exact Hin'.
Qed.

Lemma inv_free s ns xs t th p c :
  inv s ns xs -> thr s !! t = Some th -> tpc th = FreeNode p c ->
  inv (mkState (delete c (mem s)) (<[t := th <| tpc := Ret1 p true |>]> (thr s))) ns xs.
Proof.
  intros Hi Ht Ek. pose proof Hi as [Hs Hv Hso Hkn Ho Hw _ Hu].
  pose proof (Hkn _ _ Ht) as Hk. unfold knows in Hk. rewrite Ek in Hk.
  destruct Hk as (Hc & cn & Hcn & Hf).
  eapply inv_step; [done|done| |by apply seg_delete| |done|by cbn| | |done|].
  - constructor.
    + intros t' b n Hne Hb Hn. rewrite lookup_delete_ne; [done|]. intros <-.
      rewrite Hcn in Hb. injection Hb as <-. congruence.
    + intros b n Hb Hn _ Hd. rewrite lookup_delete_ne; [done|]. intros <-. by rewrite Ek in Hd.
  - apply vals_delete; [|done]. intros H. apply Hc. unfold nodes. right. apply elem_of_app. by left.
  - intros b Hb. cbn in Hb. destruct (Ho _ _ Ht b) as (n & Hn & Hl); [by rewrite Ek|].
    rewrite lookup_delete_ne; [eauto|]. intros <-. rewrite Hcn in Hn. injection Hn as <-. congruence.
  - intros b n t' [Hne Hb]%lookup_delete_Some Hl.
    destruct (decide (t' = t)) as [->|]; [left|by right]. split; [done|].
    pose proof (owner_self _ _ _ _ _ _ _ Hi Ht Hb Hl) as H. by rewrite Ek in H.
  - intros b n [_ Hb]%lookup_delete_Some. by eapply Hu.
Qed.

(** ** Every step of a thread *)

(** How far a call has got, seen from outside: [contains] takes effect when it
    lets go of the predecessor of the node it will answer from. *)
Definition status_of (h : heap) (th : thread) : status :=
  match tpc th with
  | Idle => SIdle
  | LockHead | ReadNext _ | LockCurr _ _ | DropPred _ _ | LTest _ _ | DropAdv _ _
  | Link _ _ | Unlink _ _ => SPending (top th) (tx th)
  | CTest c =>
      if bool_decide (c = tail l) then SDone false
      else match h !! c with
           | None => SIdle
           | Some n => if tx th <? data n then SDone false
                       else if tx th =? data n then SDone true
                       else SPending (top th) (tx th)
           end
  | FreeUnlock _ _ | FreeNode _ _ => SDone true
  | Ret2 _ _ r | Ret1 _ r | Return r => SDone r
  end.

(** A step either takes effect on the set or does not show. *)
Definition effect (h : heap) (th : thread) (h' : heap) (k : pc) (xs xs' : list Z) : Prop :=
  (xs' = xs /\ status_of h' (th <| tpc := k |>) = status_of h th) \/
  exists r, status_of h th = SPending (top th) (tx th) /\
    apply_op (top th) (tx th) xs = (xs', r) /\ status_of h' (th <| tpc := k |>) = SDone r.

(** A thread that cannot move by itself: between calls, or at a held lock. *)
Definition waits (h : heap) (th : thread) : Prop :=
  match tpc th with
  | Idle | Return _ => True
  | LockHead => exists n t, h !! head l = Some n /\ node_lock n = Held t
  | LockCurr p c => exists n t, h !! c = Some n /\ node_lock n = Held t
  | _ => False
  end.

Definition can_step (s : state) (xs : list Z) (t : tid) (th : thread) : Prop :=
  exists h' k ns' xs', tstep l (mem s) t th = Ok (Some (h', k)) /\
    inv (mkState h' (<[t := th <| tpc := k |>]> (thr s))) ns' xs' /\
    effect (mem s) th h' k xs xs'.

(** A thread about to lock the mutex of the tail that was never initialised. *)
Definition at_raw_tail (s : state) (t : tid) (th : thread) : Prop :=
  raw = Uninit /\ (exists p, tpc th = LockCurr p (tail l)) /\ tstep l (mem s) t th = Err Undefined.

Lemma lock_step s ns xs t a n : inv s ns xs -> mem s !! a = Some n ->
  (exists t', node_lock n = Held t' /\ lock (mem s) t a = Ok None) \/
  (node_lock n = Free /\ lock (mem s) t a = Ok (Some (relock (mem s) a n (Held t)))) \/
  ((raw = Uninit /\ a = tail l) /\ lock (mem s) t a = Err Undefined).
Proof.
  intros Hi Ha. unfold lock. rewrite Ha. cbn. pose proof (inv_init _ _ _ Hi _ _ Ha) as Hu.
  destruct (node_lock n) as [| |t']; [right; right; auto|right; by left|left; eauto].
Qed.

Lemma unlock_step s ns xs t th a : inv s ns xs -> thr s !! t = Some th ->
  a ∈ holds (tpc th) ->
  exists n, mem s !! a = Some n /\ node_lock n = Held t /\
    unlock (mem s) t a = Ok (relock (mem s) a n Free).
Proof.
  intros Hi Ht Ha. destruct (inv_owns _ _ _ Hi _ _ Ht a Ha) as (n & Hn & Hl). exists n.
  split; [done|]. split; [done|]. unfold unlock. rewrite Hn. cbn. by rewrite bool_decide_eq_true_2.
Qed.

(** A node that follows a node of the list is in the list. *)
Lemma adj_nodes h ns p c : seg next h (Some (head l)) (nodes ns) None ->
  p ∈ nodes ns -> p <> tail l -> adj h p c -> c ∈ nodes ns /\ c <> head l /\ c <> p.
Proof.
  intros Hs Hp Hpt (pn & Hpn & Hn). pose proof (seg_NoDup _ _ _ _ Hs) as Hnd.
  apply list_elem_of_split in Hp as (l1 & l2 & E). rewrite E in Hs, Hnd.
  apply seg_app in Hs as (m & _ & (_ & pn' & Hpn' & Hs)). rewrite Hpn in Hpn'.
  injection Hpn' as <-. destruct l2 as [|b l2].
  - unfold nodes in E. rewrite app_comm_cons in E. apply app_inj_tail in E as [_ E]. congruence.
  - destruct Hs as (E2 & _). rewrite Hn in E2. injection E2 as ->. rewrite E.
    split; [apply elem_of_app; right; right; left|].
    apply NoDup_app in Hnd as (_ & Hd & Hnd). apply NoDup_cons in Hnd as [Hpl _].
    split; [|intros ->; apply Hpl; left].
    intros ->. unfold nodes in E. destruct l1 as [|a l1]; cbn in E; injection E as E _.
    + apply Hpl. rewrite <- E. left.
    + apply (Hd a); [left|]. rewrite <- E. right. left.
Qed.

Lemma adj_ex s ns xs p : inv s ns xs -> p ∈ nodes ns -> p <> tail l ->
  exists pn c, mem s !! p = Some pn /\ next pn = Some c.
Proof.
  intros Hi Hp Hpt. pose proof (inv_seg _ _ _ Hi) as Hs.
  apply list_elem_of_split in Hp as (l1 & l2 & E). rewrite E in Hs.
  apply seg_app in Hs as (m & _ & (_ & pn & Hpn & Hs)). exists pn.
  destruct l2 as [|b l2].
  - unfold nodes in E. rewrite app_comm_cons in E. apply app_inj_tail in E as [_ E]. congruence.
  - destruct Hs as (-> & _). eauto.
Qed.

(** *** One lemma per program point *)
Section points.
Context (s : state) (ns : list loc) (xs : list Z) (t : tid) (th : thread).
Hypothesis Hi : inv s ns xs.
Hypothesis Ht : thr s !! t = Some th.

Definition moves : Prop :=
  (tstep l (mem s) t th = Ok None /\ waits (mem s) th) \/ can_step s xs t th \/ at_raw_tail s t th.

Lemma effect_none h' k :
  status_of h' (th <| tpc := k |>) = status_of (mem s) th -> effect (mem s) th h' k xs xs.
Proof. by left. Qed.

(** A step that neither changes the list nor takes effect. *)
Lemma can_step_quiet h' k :
  tstep l (mem s) t th = Ok (Some (h', k)) ->
  inv (mkState h' (<[t := th <| tpc := k |>]> (thr s))) ns xs ->
  status_of h' (th <| tpc := k |>) = status_of (mem s) th -> moves.
Proof. intros H1 H2 H3. right. left. exists h', k, ns, xs. split; [done|]. split; [done|]. by left. Qed.

Lemma move_lock_head : tpc th = LockHead -> moves.
Proof.
  intros Ek. assert (head l ∈ nodes ns) as Hh by left.
  assert (head l <> tail l) as Hht.
  { pose proof (seg_NoDup _ _ _ _ (inv_seg _ _ _ Hi)) as Hn. unfold nodes in Hn.
    apply NoDup_cons in Hn as [Hn _]. intros E. apply Hn. rewrite E. apply elem_of_app. right. left. }
  destruct (nodes_dom _ _ _ (inv_seg _ _ _ Hi) Hh) as [n Hn].
  destruct (lock_step s ns xs t (head l) n Hi Hn) as [(t' & Hl & Hk)|[[Hl Hk]|[[_ Hl] _]]]; [| |done].
  - left. unfold tstep, waits. rewrite Ek, Hk. eauto.
  - eapply can_step_quiet; [unfold tstep; by rewrite Ek, Hk| |unfold status_of; by rewrite Ek].
    apply inv_lock; try done; [cbn; rewrite Ek; set_solver|].
    cbn. split; [done|by left].
Qed.

Lemma move_read p : tpc th = ReadNext p -> moves.
Proof.
  intros Ek. pose proof (inv_knows _ _ _ Hi _ _ Ht) as Hk. unfold knows in Hk. rewrite Ek in Hk.
  destruct Hk as ((Hp & Hpt) & Hb). destruct (adj_ex _ _ _ _ Hi Hp Hpt) as (pn & c & Hpn & Hn).
  eapply can_step_quiet;
    [unfold tstep; rewrite Ek, Hpn; cbn; by rewrite Hn| |unfold status_of; by rewrite Ek].
  apply inv_local; try done; [by rewrite Ek|]. cbn. split_and!; try done. by exists pn.
Qed.

Lemma move_lock_curr p c : tpc th = LockCurr p c -> moves.
Proof.
  intros Ek. pose proof (inv_knows _ _ _ Hi _ _ Ht) as Hk. unfold knows in Hk. rewrite Ek in Hk.
  destruct Hk as ((Hp & Hpt) & Hb & Ha).
  destruct (adj_nodes _ _ _ _ (inv_seg _ _ _ Hi) Hp Hpt Ha) as (Hc & Hch & Hcp).
  destruct (nodes_dom _ _ _ (inv_seg _ _ _ Hi) Hc) as [n Hn].
  destruct (lock_step s ns xs t c n Hi Hn) as [(t' & Hl & Hk)|[[Hl Hk]|[[Hl ->] Hk]]].
  3: { right. right. split; [done|]. split; [by exists p|]. unfold tstep. by rewrite Ek, Hk. }
  - left. unfold tstep, waits. rewrite Ek, Hk. eauto.
  - eapply can_step_quiet; [unfold tstep; by rewrite Ek, Hk| |unfold status_of; rewrite Ek; cbn; by destruct (top th)].
    apply inv_lock; try done.
    + intros b. rewrite Ek. destruct (top th); set_solver.
    + by destruct (top th).
    + pose proof (relock_adj _ _ _ (Held t) _ _ Hn Ha). pose proof (relock_below _ _ _ (Held t) _ _ Hn Hb).
      unfold knows. destruct (top th) eqn:Eo; cbn; rewrite Eo; split_and!; done.
Qed.

Lemma move_drop_adv p c : tpc th = DropAdv p c -> moves.
Proof.
  intros Ek. pose proof (inv_knows _ _ _ Hi _ _ Ht) as Hk. unfold knows in Hk. rewrite Ek in Hk.
  destruct Hk as ((Hp & Hpt) & Ha & Hct & Hsm).
  destruct (adj_nodes _ _ _ _ (inv_seg _ _ _ Hi) Hp Hpt Ha) as (Hc & Hch & Hcp).
  destruct (unlock_step s ns xs t th p Hi Ht) as (n & Hn & Hl & Hul); [rewrite Ek; left|].
  eapply can_step_quiet; [unfold tstep; by rewrite Ek, Hul| |unfold status_of; by rewrite Ek].
  eapply inv_unlock; try done; [rewrite Ek; cbn; set_solver|]. cbn. split; [done|].
  right. by apply relock_small.
Qed.

Lemma move_ret2 p c r : tpc th = Ret2 p c r -> moves.
Proof.
  intros Ek. pose proof (inv_knows _ _ _ Hi _ _ Ht) as Hpc. unfold knows in Hpc.
  rewrite Ek in Hpc. destruct (unlock_step s ns xs t th p Hi Ht) as (n & Hn & Hl & Hul);
    [rewrite Ek; left|].
  eapply can_step_quiet; [unfold tstep; by rewrite Ek, Hul| |unfold status_of; by rewrite Ek].
  eapply inv_unlock; try done; rewrite Ek; cbn; set_solver.
Qed.

Lemma move_ret1 a r : tpc th = Ret1 a r -> moves.
Proof.
  intros Ek. destruct (unlock_step s ns xs t th a Hi Ht) as (n & Hn & Hl & Hul);
    [rewrite Ek; left|].
  eapply can_step_quiet; [unfold tstep; by rewrite Ek, Hul| |unfold status_of; by rewrite Ek].
  eapply inv_unlock; try done; rewrite Ek; cbn; set_solver.
Qed.

(** [contains] lets go of the predecessor: if it stops at [curr], it takes effect
    here. *)
Lemma move_drop_pred p c : tpc th = DropPred p c -> moves.
Proof.
  intros Ek. pose proof (inv_knows _ _ _ Hi _ _ Ht) as Hk. unfold knows in Hk. rewrite Ek in Hk.
  destruct Hk as ((Hp & Hpt) & Hb & Ha & Eo). pose proof Hi as [Hs Hv Hso _ _ _ _ _].
  destruct (adj_nodes _ _ _ _ Hs Hp Hpt Ha) as (Hc & Hch & Hcp).
  destruct (unlock_step s ns xs t th p Hi Ht) as (n & Hn & Hl & Hul); [rewrite Ek; left|].
  destruct (nodes_dom _ _ _ Hs Hc) as [cn Hcn].
  assert (relock (mem s) p n Free !! c = Some cn) as Hcn'.
  { unfold relock. by rewrite lookup_insert_ne. }
  right. left. eexists _, _, ns, xs.
  split; [unfold tstep; by rewrite Ek, Hul|]. split.
  { eapply inv_unlock; try done. rewrite Ek. cbn. set_solver. }
  destruct (cut _ _ _ _ _ _ Hs Hv Hso Hp Hpt Ha Hb)
    as (pre & ns1 & ns2 & xs1 & xs2 & Ens & Exs & Hv1 & Hv2 & E & Hch2 & Hlt & Hs1 & Hs2).
  assert (NoDup (ns2 ++ [tail l])) as Hnd by (by eapply seg_NoDup).
  unfold effect, status_of. rewrite Ek. cbn. rewrite Eo, Hcn', Exs in *.
  case_bool_decide as Hct.
  { right. exists false. split; [done|]. split; [|done]. cbn. f_equal.
    apply bool_decide_eq_false_2, gap_notin; [done|done|].
    eapply above_gap; [done|done|done|by left]. }
  destruct (cut_curr _ _ _ _ _ Hv2 Hch2 Hct Hcn) as (ns3 & xs3 & -> & -> & _).
  destruct (Z.ltb_spec (tx th) (data cn)) as [Hx|Hx].
  { right. exists false. split; [done|]. split; [|done]. cbn. f_equal.
    apply bool_decide_eq_false_2, gap_notin; [done|done|]. by intros ?? [= <- _]. }
  destruct (Z.eqb_spec (tx th) (data cn)) as [->|Hne]; [|by left].
  right. exists true. split; [done|]. split; [|done]. cbn. f_equal.
  apply bool_decide_eq_true_2, elem_of_app. right. left.
Qed.

Lemma move_ctest c : tpc th = CTest c -> moves.
Proof.
  intros Ek. pose proof (inv_knows _ _ _ Hi _ _ Ht) as Hk. unfold knows in Hk. rewrite Ek in Hk.
  destruct Hk as (Hc & Hch & Eo). destruct (nodes_dom _ _ _ (inv_seg _ _ _ Hi) Hc) as [cn Hcn].
  destruct (decide (c = tail l)) as [Ec|Hct].
  - eapply can_step_quiet; [unfold tstep; rewrite Ek, bool_decide_eq_true_2 by done; done| |].
    + apply inv_local; try done. by rewrite Ek.
    + unfold status_of. rewrite Ek, bool_decide_eq_true_2 by done. done.
  - eapply can_step_quiet.
    + unfold tstep. rewrite Ek, bool_decide_eq_false_2, Hcn by done. reflexivity.
    + destruct (Z.ltb_spec (tx th) (data cn)); [|destruct (Z.eqb_spec (tx th) (data cn))];
        (apply inv_local; try done; try by rewrite Ek).
      cbn. split; [done|]. right. exists cn. split; [done|lia].
    + unfold status_of. rewrite Ek, bool_decide_eq_false_2, Hcn by done. cbn.
      destruct (tx th <? data cn); [done|]. by destruct (tx th =? data cn).
Qed.

(** The answer of a call that fails is decided with both locks held. *)
Lemma test_absent p c : p ∈ nodes ns -> p <> tail l -> below (mem s) (tx th) p ->
  adj (mem s) p c -> above (mem s) (tx th) c -> tx th ∉ xs.
Proof.
  intros Hp Hpt Hb Ha Hab. pose proof Hi as [Hs Hv Hso _ _ _ _ _].
  destruct (cut _ _ _ _ _ _ Hs Hv Hso Hp Hpt Ha Hb)
    as (pre & ns1 & ns2 & xs1 & xs2 & Ens & -> & Hv1 & Hv2 & E & Hch2 & Hlt & Hs1 & Hs2).
  apply gap_notin; [done|done|]. eapply above_gap; [done|done|by eapply seg_NoDup|done].
Qed.

Lemma test_present c cn : c ∈ nodes ns -> c <> head l -> c <> tail l ->
  mem s !! c = Some cn -> tx th = data cn -> tx th ∈ xs.
Proof.
  intros Hc Hch Hct Hcn ->. unfold nodes in Hc. apply elem_of_cons in Hc as [|Hc]; [done|].
  apply elem_of_app in Hc as [Hc|Hc]; [|by apply list_elem_of_singleton in Hc].
  apply list_elem_of_split in Hc as (n1 & n2 & ->). pose proof (inv_vals _ _ _ Hi) as Hv.
  apply Forall2_app_inv_l in Hv as (xs1 & xs2 & _ & Hv2 & ->).
  inversion Hv2 as [|? y ? ? Hy _]; subst. rewrite Hcn in Hy. injection Hy as <-.
  apply elem_of_app. right. left.
Qed.

Lemma ins_present x : increasing xs -> x ∈ xs -> ins x xs = xs.
Proof.
  intros Hso (l1 & l2 & E)%list_elem_of_split. rewrite E in *.
  apply increasing_app_inv in Hso as (_ & _ & H). rewrite ins_app.
  - cbn. by rewrite Z.ltb_irrefl, Z.eqb_refl.
  - intros y Hy. apply H; [done|left].
Qed.

(** The test of [add] and [remove] at the node [c]. *)
Lemma ltest_step p c cn : tpc th = LTest p c -> top th <> Contains -> mem s !! c = Some cn ->
  tstep l (mem s) t th = Ok (Some (mem s,
    if bool_decide (c = tail l) || (tx th <? data cn)
    then match top th with Remove => Ret2 p c false | _ => Link p c end
    else if tx th =? data cn
    then match top th with Remove => Unlink p c | _ => Ret2 p c false end
    else DropAdv p c)).
Proof.
  intros Ek Eo Hcn. unfold tstep. rewrite Ek. destruct (top th) eqn:E; [done|..];
    (case_bool_decide; [done|]); rewrite Hcn; cbn;
    destruct (tx th <? data cn); [done| |done|]; by destruct (tx th =? data cn).
Qed.

(** The value sought lies before [c], at [c] or behind it. *)
Lemma ltest_cases c cn : mem s !! c = Some cn ->
  above (mem s) (tx th) c /\ bool_decide (c = tail l) || (tx th <? data cn) = true \/
  c <> tail l /\ data cn <= tx th /\ bool_decide (c = tail l) || (tx th <? data cn) = false.
Proof.
  intros Hcn. destruct (decide (c = tail l)) as [->|Hct].
  { left. split; [by left|]. by rewrite bool_decide_eq_true_2. }
  rewrite bool_decide_eq_false_2 by done. cbn. destruct (Z.ltb_spec (tx th) (data cn)).
  - left. split; [|done]. right. eauto.
  - by right.
Qed.

Lemma move_ltest p c : tpc th = LTest p c -> moves.
Proof.
  intros Ek. pose proof (inv_knows _ _ _ Hi _ _ Ht) as Hk. unfold knows in Hk. rewrite Ek in Hk.
  destruct Hk as ((Hp & Hpt) & Hb & Ha & Eo).
  destruct (adj_nodes _ _ _ _ (inv_seg _ _ _ Hi) Hp Hpt Ha) as (Hc & Hch & Hcp).
  destruct (nodes_dom _ _ _ (inv_seg _ _ _ Hi) Hc) as [cn Hcn].
  assert (forall k, holds k = [p; c] -> detached k = None ->
    knows (mem s) ns (th <| tpc := k |>) ->
    inv (mkState (mem s) (<[t := th <| tpc := k |>]> (thr s))) ns xs) as Hloc.
  { intros k H1 H2 H3. apply inv_local; try done. by rewrite Ek. }
  assert (status_of (mem s) th = SPending (top th) (tx th)) as Hst
    by (unfold status_of; by rewrite Ek).
  pose proof (ltest_step p c cn Ek Eo Hcn) as Hstep.
  destruct (ltest_cases c cn Hcn) as [[Hab Eg]|(Hct & Hle & Eg)]; [|destruct (Z.eq_dec (tx th) (data cn)) as [Hx|Hx]].
  - rewrite Eg in Hstep. pose proof (test_absent _ _ Hp Hpt Hb Ha Hab) as Hno.
    destruct (top th) eqn:E; [done|..].
    + eapply can_step_quiet; [exact Hstep| |by rewrite Hst, <- E].
      by apply Hloc.
    + right. left. exists (mem s), (Ret2 p c false), ns, xs. split; [done|].
      split; [apply Hloc; try done; cbn; congruence|]. right. exists false.
      rewrite Hst, E. split; [done|]. split; [|done]. cbn.
      by rewrite (del_notin _ _ Hno), bool_decide_eq_false_2.
  - rewrite Eg, (proj2 (Z.eqb_eq _ _) Hx) in Hstep.
    pose proof (test_present _ _ Hc Hch Hct Hcn Hx) as Hyes.
    destruct (top th) eqn:E; [done|..].
    + right. left. exists (mem s), (Ret2 p c false), ns, xs. split; [done|].
      split; [apply Hloc; try done; cbn; congruence|]. right. exists false.
      rewrite Hst, E. split; [done|]. split; [|done]. cbn.
      rewrite ins_present by (done || apply Hi). by rewrite bool_decide_eq_false_2 by tauto.
    + eapply can_step_quiet; [exact Hstep| |by rewrite Hst, <- E].
      apply Hloc; try done. cbn. split_and!; try done. by exists cn.
  - rewrite Eg, (proj2 (Z.eqb_neq (tx th) (data cn))) in Hstep by done.
    eapply can_step_quiet; [exact Hstep| |by rewrite Hst].
    apply Hloc; try done. cbn. split_and!; try done. exists cn. split; [done|lia].
Qed.

Lemma move_link p c : tpc th = Link p c -> moves.
Proof.
  intros Ek. pose proof (inv_knows _ _ _ Hi _ _ Ht) as Hk. unfold knows in Hk. rewrite Ek in Hk.
  destruct Hk as (_ & _ & Ha & _ & Eo). pose proof Ha as (pn & Hpn & _).
  assert (p <> new_loc (mem s)) as Hne by (intros E; pose proof (new_loc_fresh (mem s)); congruence).
  destruct (inv_link s ns xs t th p c pn Hi Ht Ek Hpn) as (ns' & Hi' & Hno).
  right. left. eexists _, _, ns', (ins (tx th) xs). split.
  { unfold tstep. rewrite Ek. rewrite lookup_insert_ne, Hpn by done. reflexivity. }
  split; [exact Hi'|]. right. exists true. unfold status_of. rewrite Ek, Eo. split; [done|].
  split; [|done]. cbn. by rewrite bool_decide_eq_true_2.
Qed.

Lemma move_unlink p c : tpc th = Unlink p c -> moves.
Proof.
  intros Ek. pose proof (inv_knows _ _ _ Hi _ _ Ht) as Hk. unfold knows in Hk. rewrite Ek in Hk.
  destruct Hk as (_ & _ & (pn & Hpn & _) & _ & (cn & Hcn & _) & Eo).
  destruct (inv_unlink s ns xs t th p c pn cn Hi Ht Ek Hpn Hcn) as (ns' & Hi' & Hyes).
  right. left. eexists _, _, ns', (del (tx th) xs). split.
  { unfold tstep. rewrite Ek, Hcn. cbn. rewrite Hpn. reflexivity. }
  split; [exact Hi'|]. right. exists true. unfold status_of. rewrite Ek, Eo. split; [done|].
  split; [|done]. cbn. by rewrite bool_decide_eq_true_2.
Qed.

Lemma move_free_unlock p c : tpc th = FreeUnlock p c -> moves.
Proof.
  intros Ek. pose proof (inv_knows _ _ _ Hi _ _ Ht) as Hk. unfold knows in Hk. rewrite Ek in Hk.
  destruct Hk as (Hpc & Hc).
  destruct (unlock_step s ns xs t th c Hi Ht) as (n & Hn & Hl & Hul); [rewrite Ek; right; left|].
  eapply can_step_quiet; [unfold tstep; by rewrite Ek, Hul| |unfold status_of; by rewrite Ek].
  eapply inv_unlock; try done; rewrite ?Ek; cbn; [set_solver|done|].
  split; [done|]. unfold relock. rewrite lookup_insert_eq. by eexists.
Qed.

Lemma move_free p c : tpc th = FreeNode p c -> moves.
Proof.
  intros Ek. pose proof (inv_knows _ _ _ Hi _ _ Ht) as Hk. unfold knows in Hk. rewrite Ek in Hk.
  destruct Hk as (Hc & n & Hn & Hl).
  eapply can_step_quiet; [|by eapply inv_free|unfold status_of; by rewrite Ek].
  unfold tstep. rewrite Ek, Hn. cbn. by rewrite bool_decide_eq_true_2.
Qed.

(** Every thread either moves or waits for a lock or for its caller. *)
Lemma thread_moves : moves.
Proof.
  destruct (tpc th) eqn:Ek;
    eauto using move_lock_head, move_read, move_lock_curr, move_drop_pred, move_ctest, move_ltest,
      move_drop_adv, move_link, move_unlink, move_free_unlock, move_free, move_ret2, move_ret1.
  - left. unfold tstep, waits. by rewrite Ek.
  - left. unfold tstep, waits. by rewrite Ek.
Qed.

End points.

(** ** Linearizability *)

Lemma insert_data (h : heap) b nb nb' a n : h !! b = Some nb -> data nb' = data nb ->
  h !! a = Some n -> data <$> (<[b := nb']> h) !! a = Some (data n).
Proof.
  intros Hb Hd Ha. destruct (decide (a = b)) as [->|Hne].
  - rewrite lookup_insert_eq. rewrite Hb in Ha. injection Ha as <-. cbn. by rewrite Hd.
  - by rewrite lookup_insert_ne, Ha.
Qed.

(** The value of a locked node never changes. *)
Lemma tstep_data h t th h' k a n t' : tstep l h t th = Ok (Some (h', k)) ->
  h !! a = Some n -> node_lock n = Held t' -> data <$> h' !! a = Some (data n).
Proof.
  intros H Ha Hl.
  assert (data <$> h !! a = Some (data n)) as Hsame by (by rewrite Ha).
  assert (forall b o, lock h t b = Ok (Some o) -> data <$> o !! a = Some (data n)) as Hlock.
  { intros b o. unfold lock. destruct (h !! b) as [nb|] eqn:Hb; [|done]. cbn.
    destruct (node_lock nb); try done. intros [= <-]. by eapply insert_data. }
  assert (forall b o, unlock h t b = Ok o -> data <$> o !! a = Some (data n)) as Hunlock.
  { intros b o. unfold unlock. destruct (h !! b) as [nb|] eqn:Hb; [|done]. cbn.
    case_bool_decide; [|done]. intros [= <-]. by eapply insert_data. }
  unfold tstep in H. destruct (tpc th).
  all: try done.
  all: try (destruct (lock h t _) as [[o|]|] eqn:E; [|done..]; injection H as <- <-; by eapply Hlock).
  all: try (destruct (unlock h t _) as [o|] eqn:E; [|done]; injection H as <- <-; by eapply Hunlock).
  - destruct (h !! pred) as [pn|]; [|done]. cbn in H. destruct (next pn); [|done].
    by injection H as <- <-.
  - case_bool_decide; [by injection H as <- <-|]. destruct (h !! curr); [|done].
    by injection H as <- <-.
  - destruct (top th); (case_bool_decide; [by injection H as <- <-|]);
      (destruct (h !! curr); [|done]); by injection H as <- <-.
  - assert (a <> new_loc h) as Hne by (intros ->; pose proof (new_loc_fresh h); congruence).
    destruct (_ !! pred) as [pn|] eqn:Hp in H; [|done]. injection H as <- <-.
    eapply insert_data; [exact Hp|done|]. by rewrite lookup_insert_ne.
  - destruct (h !! curr) as [cn|]; [|done]. cbn in H. destruct (h !! pred) as [pn|] eqn:Hp; [|done].
    injection H as <- <-. by eapply insert_data.
  - destruct (h !! curr) as [cn|] eqn:Hc; [|done]. cbn in H. case_bool_decide as Hf; [|done].
    injection H as <- <-. rewrite lookup_delete_ne by congruence. done.
Qed.

Definition abs (s : state) (xs : list Z) : spec := (xs, status_of (mem s) <$> thr s).

Lemma status_other s ns xs t th t' th' h' k :
  inv s ns xs -> thr s !! t' = Some th' -> tstep l (mem s) t th = Ok (Some (h', k)) ->
  status_of h' th' = status_of (mem s) th'.
Proof.
  intros Hi Ht' Hs. unfold status_of. destruct (tpc th') eqn:Ek; try done.
  destruct (inv_owns _ _ _ Hi _ _ Ht' curr) as (n & Hn & Hl); [rewrite Ek; left|].
  pose proof (tstep_data _ _ _ _ _ _ _ _ Hs Hn Hl) as Hd. rewrite Hn.
  apply fmap_Some in Hd as (n' & -> & ->). done.
Qed.

(** Invocations and responses, by a thread that holds nothing. *)
Lemma inv_call s ns xs t th th' :
  inv s ns xs -> thr s !! t = Some th -> holds (tpc th) = [] -> holds (tpc th') = [] ->
  detached (tpc th') = None -> knows (mem s) ns th' ->
  inv (s <| thr := <[t := th']> (thr s) |>) ns xs.
Proof.
  intros [Hs Hv Hso Hk Ho Hw Hd Hu] Ht Hh Hh' Hdt Hkn. constructor; cbn [mem thr]; try done.
  - intros t' x. destruct (decide (t' = t)) as [->|]; cbn.
    + rewrite lookup_insert_eq. by intros [= <-].
    + rewrite lookup_insert_ne by done. apply Hk.
  - intros t' x. destruct (decide (t' = t)) as [->|]; cbn.
    + rewrite lookup_insert_eq. intros [= <-] a. rewrite Hh'. by intros ?%elem_of_nil.
    + rewrite lookup_insert_ne by done. apply Ho.
  - intros a n t' Ha Hl. destruct (Hw _ _ _ Ha Hl) as (x & Hx & Hin). exists x. cbn.
    rewrite lookup_insert_ne; [done|]. intros <-. rewrite Ht in Hx. injection Hx as <-.
    rewrite Hh in Hin. by apply elem_of_nil in Hin.
  - intros t1 t2 x1 x2 c. cbn.
    destruct (decide (t1 = t)) as [->|]; [rewrite lookup_insert_eq; intros [= <-]; congruence|].
    destruct (decide (t2 = t)) as [->|]; [rewrite lookup_insert_eq; intros _ [= <-]; congruence|].
    rewrite !lookup_insert_ne by done. apply Hd.
Qed.

(** One step of the list is one step of the set, or none. *)
Lemma step_refines s ns xs a s' : inv s ns xs -> step l s a s' ->
  exists ns' xs', inv s' ns' xs' /\ spec_step (abs s xs) a (abs s' xs').
Proof.
  intros Hi Hstep. destruct Hstep as [s t th o x Ht Ek|s t th h' k Ht Hs|s t th r Ht Ek].
  - exists ns, xs. split; [eapply inv_call; try done; by rewrite Ek|].
    unfold abs. cbn [mem thr]. cbn. rewrite fmap_insert. apply spec_invoke.
    rewrite lookup_fmap, Ht. unfold status_of. cbn. by rewrite Ek.
  - destruct (thread_moves s ns xs t th Hi Ht) as [[E _]|[(h2 & k2 & ns' & xs' & E & Hi' & He)|(_ & _ & E)]];
      [rewrite E in Hs; discriminate| |rewrite E in Hs; discriminate].
    rewrite Hs in E. injection E as <- <-. exists ns', xs'. split; [done|].
    assert (abs (mkState h' (<[t := th <| tpc := k |>]> (thr s))) xs' =
      (xs', <[t := status_of h' (th <| tpc := k |>)]> (status_of (mem s) <$> thr s))) as ->.
    { unfold abs. cbn [mem thr]. f_equal. rewrite fmap_insert. apply map_eq. intros t'.
      destruct (decide (t' = t)) as [->|Hne]; [by rewrite !lookup_insert_eq|].
      rewrite !lookup_insert_ne, !lookup_fmap by done.
      destruct (thr s !! t') as [th'|] eqn:Ht'; [|done]. cbn. f_equal. by eapply status_other. }
    unfold abs. destruct He as [[-> ->]|(r & Hp & Ha & ->)].
    + rewrite insert_id by (by rewrite lookup_fmap, Ht). constructor.
    + eapply spec_lin; [|exact Ha]. by rewrite lookup_fmap, Ht, <- Hp.
  - exists ns, xs. split; [eapply inv_call; try done; by rewrite Ek|].
    unfold abs. cbn [mem thr]. cbn. rewrite fmap_insert. apply spec_respond.
    rewrite lookup_fmap, Ht. unfold status_of. cbn. by rewrite Ek.
Qed.

Lemma steps_refines s ns xs tr s' : inv s ns xs -> steps l s tr s' ->
  exists ns' xs', inv s' ns' xs' /\ spec_steps (abs s xs) tr (abs s' xs').
Proof.
  intros Hi Hs. revert ns xs Hi. induction Hs as [s|s s1 s2 tr H1 _ IH|s s1 s2 a tr Ha H1 _ IH];
    intros ns xs Hi.
  - exists ns, xs. split; [done|constructor].
  - destruct (step_refines _ _ _ _ _ Hi H1) as (ns1 & xs1 & Hi1 & Hs1).
    destruct (IH _ _ Hi1) as (ns2 & xs2 & Hi2 & Hs2). exists ns2, xs2.
    split; [done|]. by eapply spec_tau.
  - destruct (step_refines _ _ _ _ _ Hi H1) as (ns1 & xs1 & Hi1 & Hs1).
    destruct (IH _ _ Hi1) as (ns2 & xs2 & Hi2 & Hs2). exists ns2, xs2.
    split; [done|]. by eapply spec_vis.
Qed.

(** ** Deadlock *)

(** Some thread can take a step of its own, or return to its caller. *)
Definition enabled (s : state) : Prop :=
  exists t th, thr s !! t = Some th /\
    ((exists h' k, tstep l (mem s) t th = Ok (Some (h', k))) \/ exists r, tpc th = Return r).

(** Some thread is about to lock the tail's mutex before it was initialised. *)
Definition raw_use (s : state) : Prop := exists t th, thr s !! t = Some th /\ at_raw_tail s t th.

(** Whoever holds a lock can move, or waits for a lock further down the list. *)
Lemma holder_enabled s ns xs L1 a L2 n t : inv s ns xs -> nodes ns = L1 ++ a :: L2 ->
  mem s !! a = Some n -> node_lock n = Held t -> enabled s \/ raw_use s.
Proof.
  intros Hi. revert L1 a n t. induction L2 as [|b L2 IH]; intros L1 a n t E Ha Hl.
  all: destruct (inv_owner _ _ _ Hi _ _ _ Ha Hl) as (th & Ht & Hin).
  all: destruct (thread_moves s ns xs t th Hi Ht) as [[_ Hw]|[(h' & k & _ & _ & Hs & _)|Hr]];
    [|left; exists t, th; split; [done|left; eauto]|right; by exists t, th].
  all: unfold waits in Hw; destruct (tpc th) eqn:Ek; try done; cbn in Hin;
    try (by apply elem_of_nil in Hin).
  all: apply list_elem_of_singleton in Hin as <-.
  all: pose proof (inv_knows _ _ _ Hi _ _ Ht) as Hk; unfold knows in Hk; rewrite Ek in Hk;
    destruct Hk as ((Hp & Hpt) & _ & (pn & Hpn & Hnx)).
  - unfold nodes in E. rewrite app_comm_cons in E. apply app_inj_tail in E as [_ E]. congruence.
  - destruct Hw as (cn & t' & Hcn & Hcl).
    pose proof (inv_seg _ _ _ Hi) as Hsg. rewrite E in Hsg.
    apply seg_app in Hsg as (m & _ & (_ & pn' & Hpn' & (Eb & _))).
    rewrite Hpn in Hpn'. injection Hpn' as <-. rewrite Hnx in Eb. injection Eb as ->.
    eapply (IH (L1 ++ [a]) b); [by rewrite <- app_assoc|done|done].
Qed.

Lemma not_stuck s ns xs t th : inv s ns xs -> thr s !! t = Some th -> tpc th <> Idle ->
  enabled s \/ raw_use s.
Proof.
  intros Hi Ht Hne.
  assert (forall a, a ∈ nodes ns -> (exists n t', mem s !! a = Some n /\ node_lock n = Held t') ->
    enabled s \/ raw_use s) as Hheld.
  { intros a (L1 & L2 & E)%list_elem_of_split (n & t' & Hn & Hl). by eapply holder_enabled. }
  destruct (thread_moves s ns xs t th Hi Ht) as [[_ Hw]|[(h' & k & _ & _ & Hs & _)|Hr]];
    [|left; exists t, th; split; [done|left; eauto]|right; by exists t, th].
  unfold waits in Hw. destruct (tpc th) eqn:Ek; try done.
  - apply (Hheld (head l)); [left|done].
  - pose proof (inv_knows _ _ _ Hi _ _ Ht) as Hk. unfold knows in Hk. rewrite Ek in Hk.
    destruct Hk as ((Hp & Hpt) & _ & Ha).
    destruct (adj_nodes _ _ _ _ (inv_seg _ _ _ Hi) Hp Hpt Ha) as (Hc & _). by apply (Hheld curr).
  - left. exists t, th. eauto.
Qed.

End inv.

(** ** Executions from the constructor *)
Definition start (raw : mutex) (node1 node2 : loc) (m : gmap tid thread) : state :=
  mkState (new_LinkedList raw node1 node2).1 m.

Definition all_idle (m : gmap tid thread) : Prop := map_Forall (fun _ th => tpc th = Idle) m.

(** What the memory of a mutex that was never initialised may be taken for: no
    thread holds it. *)
Definition unheld (raw : mutex) : Prop := forall t, raw <> Held t.

Lemma start_inv raw node1 node2 m : unheld raw -> node1 <> node2 -> all_idle m ->
  inv (mkList node1 node2) raw (start raw node1 node2 m) [] [].
Proof.
  intros Hraw Hne Hm. unfold start, new_LinkedList. cbn [fst].
  assert (forall a n, (<[node1:=mkNode 0 (Some node2) Free]> {[node2:=mkNode UINT32_MAX None raw]}
    : heap) !! a = Some n -> node_lock n = Free \/ a = node2 /\ node_lock n = raw) as Hlock.
  { intros a n. destruct (decide (a = node1)) as [->|H1].
    - rewrite lookup_insert_eq. intros [= <-]. by left.
    - rewrite lookup_insert_ne by done. intros [<- <-]%lookup_singleton_Some. by right. }
  constructor; cbn [mem thr].
  - cbn. split; [done|]. eexists. rewrite lookup_insert_eq. split; [done|]. cbn. split; [done|].
    eexists. rewrite lookup_insert_ne, lookup_singleton_eq by done. done.
  - constructor.
  - constructor.
  - intros t th Ht. specialize (Hm t th Ht). cbn in Hm. unfold knows. by rewrite Hm.
  - intros t th Ht a. specialize (Hm t th Ht). cbn in Hm. rewrite Hm. by intros ?%elem_of_nil.
  - intros a n t Ha Hl. destruct (Hlock a n Ha) as [E|[_ E]]; [congruence|]. destruct (Hraw t). congruence.
  - intros t t' th th' c Ht _ Hd _. specialize (Hm t th Ht). cbn in Hm. by rewrite Hm in Hd.
  - intros a n Ha Hl. destruct (Hlock a n Ha) as [E|[-> E]]; [congruence|]. split; [congruence|done].
Qed.

Lemma start_abs raw node1 node2 m : all_idle m ->
  abs (mkList node1 node2) (start raw node1 node2 m) [] = ([], (fun _ => SIdle) <$> m).
Proof.
  intros Hm. unfold abs. f_equal. apply map_fmap_ext. intros t th Ht.
  specialize (Hm t th Ht). cbn in Hm. unfold status_of. by rewrite Hm.
Qed.

Lemma reached_inv raw node1 node2 m tr s : unheld raw -> node1 <> node2 -> all_idle m ->
  steps (mkList node1 node2) (start raw node1 node2 m) tr s ->
  exists ns xs, inv (mkList node1 node2) raw s ns xs /\
    spec_steps ([], (fun _ => SIdle) <$> m) tr (abs (mkList node1 node2) s xs).
Proof.
  intros Hraw Hne Hm Hs. rewrite <- (start_abs raw node1 node2 m Hm).
  by eapply steps_refines; [apply start_inv|].
Qed.

(** C2. The fine-grained list is linearizable: from the constructor on, in every
    interleaving of any number of threads that call [contains], [add] and
    [remove], the calls and answers an observer sees are those of a set on which
    each call takes effect at one moment between its invocation and its response.
    The constructor leaves the mutex of the tail uninitialised: [raw] is what its
    memory holds, [Uninit] or, by chance, an unlocked mutex.  An execution ends where
    a thread locks it uninitialised; up to there it is one of the set. *)
Theorem fg_linearizable raw node1 node2 m tr s :
  unheld raw -> node1 <> node2 -> all_idle m ->
  steps (mkList node1 node2) (start raw node1 node2 m) tr s ->
  exists xs, increasing xs /\
    spec_steps ([], (fun _ => SIdle) <$> m) tr (abs (mkList node1 node2) s xs).
Proof.
  intros Hraw Hne Hm Hs. destruct (reached_inv _ _ _ _ _ _ Hraw Hne Hm Hs) as (ns & xs & Hi & Hsp).
  exists xs. split; [apply Hi|done].
Qed.

(** C23. In every interleaving from the constructor on, no thread reads or writes a
    node that has been freed, unlocks a mutex it does not hold or destroys one that
    is held.  The one undefined step there can be is the lock of the tail's
    mutex, which the constructor does not initialise, by a thread that walks to the
    end of the list; where the memory of that mutex is by chance that of an unlocked
    one, no step is undefined. *)
Theorem fg_memory_safe raw node1 node2 m tr s t th :
  unheld raw -> node1 <> node2 -> all_idle m ->
  steps (mkList node1 node2) (start raw node1 node2 m) tr s -> thr s !! t = Some th ->
  (exists r, tstep (mkList node1 node2) (mem s) t th = Ok r) \/
  (raw = Uninit /\ (exists p, tpc th = LockCurr p node2) /\
   tstep (mkList node1 node2) (mem s) t th = Err Undefined).
Proof.
  intros Hraw Hne Hm Hs Ht. destruct (reached_inv _ _ _ _ _ _ Hraw Hne Hm Hs) as (ns & xs & Hi & _).
  destruct (thread_moves _ _ s ns xs t th Hi Ht) as [[H _]|[(h' & k & _ & _ & H & _)|H]]; eauto.
Qed.

(** C24. Hand-over-hand locking does not deadlock: from the constructor on, as long
    as a call is under way, some thread can take its next step or return, or is
    about to lock the mutex of the tail, which the constructor does not initialise;
    where that memory is by chance that of an unlocked mutex, some thread can move. *)
Theorem fg_no_deadlock raw node1 node2 m tr s t th :
  unheld raw -> node1 <> node2 -> all_idle m ->
  steps (mkList node1 node2) (start raw node1 node2 m) tr s ->
  thr s !! t = Some th -> tpc th <> Idle ->
  enabled (mkList node1 node2) s \/ (raw = Uninit /\ raw_use (mkList node1 node2) raw s).
Proof.
  intros Hraw Hne Hm Hs Ht Hpc. destruct (reached_inv _ _ _ _ _ _ Hraw Hne Hm Hs) as (ns & xs & Hi & _).
  destruct (not_stuck _ _ s ns xs t th Hi Ht Hpc) as [H|H]; [by left|right].
  split; [|done]. by destruct H as (t' & th' & _ & E & _).
Qed.

(** *** Schedules: executions as data *)
Inductive act := ACall (t : tid) (o : op) (x : Z) | ARun (t : tid) | ARet (t : tid).

Definition exec1 (l : LinkedList) (a : act) (s : state) : option (list label * state) :=
  match a with
  | ACall t o x =>
      th ← thr s !! t;
      match tpc th with
      | Idle => Some ([Invoke t o x], s <| thr := <[t := mkThread o x LockHead]> (thr s) |>)
      | _ => None
      end
  | ARun t =>
      th ← thr s !! t;
      match tstep l (mem s) t th with
      | Ok (Some (h', k)) => Some ([], mkState h' (<[t := th <| tpc := k |>]> (thr s)))
      | _ => None
      end
  | ARet t =>
      th ← thr s !! t;
      match tpc th with
      | Return r => Some ([Respond t r], s <| thr := <[t := th <| tpc := Idle |>]> (thr s) |>)
      | _ => None
      end
  end.

Fixpoint exec (l : LinkedList) (acts : list act) (s : state) : option (list label * state) :=
  match acts with
  | [] => Some ([], s)
  | a :: acts' => '(tr1, s1) ← exec1 l a s; '(tr2, s2) ← exec l acts' s1; Some (tr1 ++ tr2, s2)
  end.

Lemma exec_steps l acts s tr s' : exec l acts s = Some (tr, s') -> steps l s tr s'.
Proof.
  revert s tr. induction acts as [|a acts IH]; intros s tr H; [injection H as <- <-; constructor|].
  cbn [exec] in H. destruct (exec1 l a s) as [[tr1 s1]|] eqn:H1; [|done]. cbn in H.
  destruct (exec l acts s1) as [[tr2 s2]|] eqn:H2; [|done]. cbn in H. injection H as <- <-.
  apply IH in H2. destruct a; cbn in H1; (destruct (thr s !! t) as [th|] eqn:Ht; [|done]); cbn in H1.
  - destruct (tpc th) eqn:Ek; try done. injection H1 as <- <-.
    eapply steps_vis; [done|by eapply step_invoke|done].
  - destruct (tstep l (mem s) t th) as [[[h' k]|]|] eqn:Es; try done. injection H1 as <- <-.
    eapply steps_tau; [by eapply step_run|done].
  - destruct (tpc th) eqn:Ek; try done. injection H1 as <- <-.
    eapply steps_vis; [done|by eapply step_respond|done].
Qed.

(** Two threads, the second following the first through the list. *)
Definition demo_threads : gmap tid thread :=
  {[0%nat := mkThread Contains 0 Idle; 1%nat := mkThread Contains 0 Idle]}.
Definition demo_acts : list act :=
  [ACall 0 Add 5; ACall 1 Remove 5; ARun 0; ARun 0; ARun 0; ARun 0; ARun 0; ARun 0;
   ARun 1; ARun 1; ARun 1; ARun 0; ARet 0; ARun 1; ARun 1; ARun 1; ARun 1].
Definition demo_final : list label * state :=
  default ([], start Free 1 2 demo_threads) (exec (mkList 1 2) demo_acts (start Free 1 2 demo_threads)).

Lemma free_unheld : unheld Free.
Proof. by intros t. Qed.

Lemma uninit_unheld : unheld Uninit.
Proof. by intros t. Qed.

Lemma demo_idle : all_idle demo_threads.
Proof. by apply map_Forall_insert_2, map_Forall_singleton. Qed.

Lemma demo_steps : steps (mkList 1 2) (start Free 1 2 demo_threads) demo_final.1 demo_final.2.
Proof.
  apply (exec_steps _ demo_acts). unfold demo_final.
  destruct (exec (mkList 1 2) demo_acts (start Free 1 2 demo_threads)) as [[tr s]|] eqn:E;
    [reflexivity|vm_compute in E; discriminate E].
Qed.

Lemma demo_trace : demo_final.1 = [Invoke 0 Add 5; Invoke 1 Remove 5; Respond 0 true].
Proof. vm_compute. reflexivity. Qed.

Lemma fg_linearizable_witness : exists xs, increasing xs /\
  spec_steps ([], (fun _ => SIdle) <$> demo_threads)
    [Invoke 0 Add 5; Invoke 1 Remove 5; Respond 0 true] (abs (mkList 1 2) demo_final.2 xs).
Proof.
  destruct (fg_linearizable Free 1 2 demo_threads demo_final.1 demo_final.2 free_unheld ltac:(discriminate)
    demo_idle demo_steps) as (xs & Hx & Hs).
  exists xs. split; [exact Hx|]. rewrite <- demo_trace. exact Hs.
Defined.

Definition demo_th1 : thread := default (mkThread Contains 0 Idle) (thr demo_final.2 !! 1%nat).

Lemma demo_th1_at : thr demo_final.2 !! 1%nat = Some demo_th1.
Proof. vm_compute. reflexivity. Qed.
Lemma demo_th1_busy : tpc demo_th1 <> Idle.
Proof. vm_compute. discriminate. Qed.

(** The same threads on the list as the constructor leaves it. *)
Definition raw_acts : list act := [ACall 0 Add 5; ACall 1 Remove 5; ARun 0; ARun 0].
Definition raw_final : list label * state :=
  default ([], start Uninit 1 2 demo_threads) (exec (mkList 1 2) raw_acts (start Uninit 1 2 demo_threads)).

Lemma raw_steps : steps (mkList 1 2) (start Uninit 1 2 demo_threads) raw_final.1 raw_final.2.
Proof.
  apply (exec_steps _ raw_acts). unfold raw_final.
  destruct (exec (mkList 1 2) raw_acts (start Uninit 1 2 demo_threads)) as [[tr s]|] eqn:E;
    [reflexivity|vm_compute in E; discriminate E].
Qed.

Lemma raw_th0_at : thr raw_final.2 !! 0%nat = Some (mkThread Add 5 (LockCurr 1 2)).
Proof. vm_compute. reflexivity. Qed.

Lemma fg_memory_safe_witness : (exists r, tstep (mkList 1 2) (mem demo_final.2) 1 demo_th1 = Ok r) /\
  tstep (mkList 1 2) (mem raw_final.2) 0 (mkThread Add 5 (LockCurr 1 2)) = Err Undefined.
Proof.
  destruct (fg_memory_safe Free 1 2 demo_threads demo_final.1 demo_final.2 1 demo_th1 free_unheld ltac:(discriminate)
    demo_idle demo_steps demo_th1_at) as [H|[E _]]; [|discriminate E]. split; [exact H|].
  destruct (fg_memory_safe Uninit 1 2 demo_threads raw_final.1 raw_final.2 0 _ uninit_unheld ltac:(discriminate)
    demo_idle raw_steps raw_th0_at) as [[r E]|(_ & _ & E)]; [|exact E].
  vm_compute in E. discriminate E.
Defined.

Lemma fg_no_deadlock_witness : enabled (mkList 1 2) demo_final.2.
Proof.
  destruct (fg_no_deadlock Free 1 2 demo_threads demo_final.1 demo_final.2 1 demo_th1 free_unheld ltac:(discriminate)
    demo_idle demo_steps demo_th1_at demo_th1_busy) as [H|[E _]]; [exact H|discriminate E].
Defined.

(** The destructor of a list that no call is using unlocks the mutex of
    the head, which nobody has locked. *)
Theorem fg_destroy_unlocks_free raw node1 node2 m tr s t :
  unheld raw -> node1 <> node2 -> all_idle m ->
  steps (mkList node1 node2) (start raw node1 node2 m) tr s -> all_idle (thr s) ->
  destroy (mkList node1 node2) (mem s) t = Err Undefined.
Proof.
  intros Hraw Hne Hm Hs Hq. destruct (reached_inv _ _ _ _ _ _ Hraw Hne Hm Hs) as (ns & xs & Hi & _).
  assert (node1 ∈ nodes (mkList node1 node2) ns) as Hin by left.
  destruct (adj_ex _ _ s ns xs node1 Hi Hin Hne) as (n & c & Hn & Hc).
  unfold destroy. cbn [destroy_loop head tail]. rewrite bool_decide_eq_false_2 by done.
  rewrite Hn. cbn. rewrite Hc. cbn. unfold free_node, unlock. rewrite Hn. cbn.
  case_bool_decide as Hl; [|done].
  destruct (inv_owner _ _ _ _ _ Hi _ _ _ Hn Hl) as (th & Ht & Ha).
  specialize (Hq t th Ht). cbn in Hq. rewrite Hq in Ha. by apply elem_of_nil in Ha.
Qed.

Lemma fg_destroy_unlocks_free_witness :
  destroy (mkList 1 2) (mem (start Free 1 2 demo_threads)) 0 = Err Undefined.
Proof.
  exact (fg_destroy_unlocks_free Free 1 2 demo_threads [] (start Free 1 2 demo_threads) 0
    free_unheld ltac:(discriminate) demo_idle (steps_nil _ _) demo_idle).
Defined.

(** The constructor never initialises the mutex of the tail: when the memory
    it finds there is not that of an unlocked mutex, the first call that walks
    to the end of the list locks an uninitialised mutex. *)
Theorem fg_tail_uninitialised t o x :
  exists s th, steps (mkList 1 2) (start Uninit 1 2 {[t := mkThread Contains 0 Idle]})
      [Invoke t o x] s /\
    thr s !! t = Some th /\ tstep (mkList 1 2) (mem s) t th = Err Undefined.
Proof.
  eexists _, _. split; [eapply steps_vis; [done| |]|].
  - eapply step_invoke; [cbn; apply lookup_singleton_eq|done].
  - eapply steps_tau; [eapply step_run; [cbn; apply lookup_insert_eq|reflexivity]|].
    eapply steps_tau; [eapply step_run; [cbn; apply lookup_insert_eq|reflexivity]|].
    constructor.
  - split; [cbn; apply lookup_insert_eq|reflexivity].
Qed.

End FG.
