(* ===== verification/FlatComb.v ===== *)
(** Flat combining ([All_Summer2017/testProject/data_structures/ITest.h]) and
    the stack built on it ([FCStack.h]).

    Threads post a request in a slot; the thread that gets the lock serves the
    slots of all, for a few rounds, on a sequential structure.  A round is
    given by the values the combiner reads from the slots, one read per slot,
    and yields the values it leaves there; between rounds other threads take
    their answers and post again, which the argument [post] stands for.
    [Combinable] says what serving one request promises; the theorems on
    rounds are proved from it once, and the stack here, the heap of PairHeap
    and the queue of FCQueue are its instances. *)
From S2P Require Import Prelude.

(** ** ITest: the values of a slot *)
Definition INT_MIN : Z := - 2 ^ 31.
Definition _NULL_VALUE : Z := 0.
Definition _DEQ_VALUE : Z := INT_MIN + 2.
Definition _MAX_THREADS : Z := 1024.

(** A slot holds a request to add, a request to remove, or neither. *)
Definition is_add (v : Z) : bool := _NULL_VALUE <? v.
Definition is_deq (v : Z) : bool := v =? _DEQ_VALUE.
Definition is_request (v : Z) : bool := is_add v || is_deq v.

Lemma is_add_not_deq v : is_add v = true -> is_deq v = false.
Proof. unfold is_add, is_deq, _NULL_VALUE, _DEQ_VALUE, INT_MIN. intros. bool_prop. lia. Qed.

(** ** Rounds over the slots *)
Section rounds.
Context {St : Type} (serve : St -> Z -> res (St * Z)).

(** The inner loop: every slot once. *)
Fixpoint round (s : St) (slots : list Z) : res (St * list Z) :=
  match slots with
  | [] => Ok (s, [])
  | v :: slots' =>
      '(s, a) ← serve s v;
      '(s, answers) ← round s slots';
      Ok (s, a :: answers)
  end.

(** The outer loop, at most [n] rounds: [reset] is done before each of them, and
    [stop], given the slots the round has found, ends the loop early.  [post]
    maps the slots the combiner left to the slots it will find. *)
Fixpoint rounds (reset : St -> St) (stop : St -> list Z -> bool) (n : nat)
    (post : list Z -> list Z) (s : St) (slots : list Z) : res (St * list (list Z)) :=
  match n with
  | O => Ok (s, [])
  | S n' =>
      '(s, answers) ← round (reset s) slots;
      if stop s slots then Ok (s, [answers])
      else
        '(s, rest) ← rounds reset stop n' post s (post answers);
        Ok (s, answers :: rest)
  end.

End rounds.

(** [num_changes] of a round that looks at each request once. *)
Definition num_changes (slots : list Z) : nat := length (List.filter is_request slots).

(** The same over a specification that cannot fail: exactly [n] rounds. *)
Section spec_rounds.
Context {T : Type} (serve : T -> Z -> T * Z).

Fixpoint spec_round (t : T) (slots : list Z) : T * list Z :=
  match slots with
  | [] => (t, [])
  | v :: slots' =>
      let '(t, a) := serve t v in
      let '(t, answers) := spec_round t slots' in
      (t, a :: answers)
  end.

Fixpoint spec_rounds (n : nat) (post : list Z -> list Z) (t : T) (slots : list Z)
    : T * list (list Z) :=
  match n with
  | O => (t, [])
  | S n' =>
      let '(t, answers) := spec_round t slots in
      let '(t, rest) := spec_rounds n' post t (post answers) in
      (t, answers :: rest)
  end.

End spec_rounds.

(** What a structure promises to the combiner: serving a request terminates
    without undefined behaviour and does what the specification does. *)
Class Combinable {St T : Type} (R : St -> T -> Prop) (reset : St -> St)
    (serve : St -> Z -> res (St * Z)) (spec : T -> Z -> T * Z) : Prop := {
  reset_ok : forall s t, R s t -> R (reset s) t;
  serve_refines : forall s t v, R s t ->
    exists s', serve s v = Ok (s', (spec t v).2) /\ R s' (spec t v).1
}.

Section combine.
Context `{Combinable St T R reset serve spec}.

Lemma round_refines s t slots : R s t ->
  exists s', round serve s slots = Ok (s', (spec_round spec t slots).2) /\
    R s' (spec_round spec t slots).1.
Proof.
  revert s t. induction slots as [|v slots IH]; intros s t Hr; cbn [round spec_round]; [eauto|].
  destruct (serve_refines s t v Hr) as (s1 & -> & Hr1).
  destruct (spec t v) as [t1 a]. cbn in Hr1 |- *.
  destruct (IH s1 t1 Hr1) as (s2 & -> & Hr2). destruct (spec_round spec t1 slots) as [t2 answers].
  cbn. eauto.
Qed.

(** A pass of at most [n] rounds is a pass of [k] rounds of the specification. *)
Lemma rounds_refine stop n post s t slots : R s t ->
  exists k s', (k <= n)%nat /\
    rounds serve reset stop n post s slots = Ok (s', (spec_rounds spec k post t slots).2) /\
    R s' (spec_rounds spec k post t slots).1 /\ (0 < n -> 0 < k)%nat /\
    ((forall s l, stop s l = false) -> k = n).
Proof.
  revert s t slots. induction n as [|n IH]; intros s t slots Hr; cbn [rounds].
  { exists 0%nat, s. split_and!; done || lia. }
  destruct (round_refines (reset s) t slots (reset_ok _ _ Hr)) as (s1 & -> & Hr1).
  destruct (spec_round spec t slots) as [t1 answers] eqn:E. cbn [mbind res_bind fst snd] in *.
  destruct (stop s1 slots) eqn:Hst.
  - exists 1%nat, s1. cbn [spec_rounds]. rewrite E. cbn. split_and!; [lia|done|done|lia|].
    intros Hn. by rewrite Hn in Hst.
  - destruct (IH s1 t1 (post answers) Hr1) as (k & s2 & Hk & -> & Hr2 & _ & Hex).
    exists (S k), s2. cbn [spec_rounds]. rewrite E.
    destruct (spec_rounds spec k post t1 (post answers)) as [t2 rest]. cbn in *.
    split_and!; [lia|done|done|lia|]. intros Hn. by rewrite (Hex Hn).
Qed.

End combine.

(** ** FCStack *)
Module FCStack.

Definition _stack_ary_size : nat := 1024.

Record stack := mkStack { _stack_ary : list Z; _top_indx : nat }.

(** The constructor; [junk] is what [new int[1024]] finds. *)
Definition new_FCStack (junk : list Z) : stack := mkStack junk 0.

(** The body of the loop over the requests. *)
Definition serve (s : stack) (curr_value : Z) : res (stack * Z) :=
  if is_add curr_value then
    if bool_decide (_top_indx s = _stack_ary_size) then Ok (s, curr_value)
    else
      _ ← deref (_stack_ary s !! _top_indx s);
      Ok (mkStack (<[_top_indx s := curr_value]> (_stack_ary s)) (S (_top_indx s)), _NULL_VALUE)
  else if is_deq curr_value then
    match _top_indx s with
    | O => Ok (s, _NULL_VALUE)
    | S top => v ← deref (_stack_ary s !! top); Ok (s <| _top_indx := top |>, - v)
    end
  else Ok (s, curr_value).

(** [flat_combining]: three rounds, whatever they serve. *)
Definition flat_combining (post : list Z -> list Z) (s : stack) (req_ary : list Z)
    : res (stack * list (list Z)) :=
  rounds serve id (fun _ _ => false) 3 post s req_ary.

(** The specification: a bounded stack, its top first. *)
Definition spec_serve (st : list Z) (v : Z) : list Z * Z :=
  if is_add v then
    if bool_decide (length st = _stack_ary_size) then (st, v) else (v :: st, _NULL_VALUE)
  else if is_deq v then
    match st with [] => ([], _NULL_VALUE) | x :: st' => (st', - x) end
  else (st, v).

Definition rep (s : stack) (st : list Z) : Prop :=
  length (_stack_ary s) = _stack_ary_size /\ length st = _top_indx s /\
  (_top_indx s <= _stack_ary_size)%nat /\ take (_top_indx s) (_stack_ary s) = rev st.

#[export] Instance stack_combinable : Combinable rep id serve spec_serve.
Proof.
  constructor; [done|]. intros [ary top] st v (Hl & Hs & Hle & Ht). cbn in Hl, Hs, Hle, Ht.
  unfold serve, spec_serve. cbn [_stack_ary _top_indx]. rewrite Hs.
  case_if; [|case_if].
  - case_bool_decide as Hf; [exists (mkStack ary top); by split_and!|].
    assert (top < length ary)%nat as Hlt by lia.
    destruct (lookup_lt_is_Some_2 ary top Hlt) as [x Hx]. rewrite Hx. cbn [deref mbind res_bind].
    eexists. split; [reflexivity|]. split_and!; cbn.
    + by rewrite length_insert.
    + by rewrite Hs.
    + lia.
    + rewrite (take_S_r _ _ v) by (by apply list_lookup_insert_eq).
      by rewrite take_insert_ge, Ht by lia.
  - destruct st as [|x st].
    { cbn in Hs. subst top. exists (mkStack ary 0). by split_and!. }
    cbn in Hs, Ht. subst top.
    assert (ary !! length st = Some x) as Hx.
    { rewrite <- (lookup_take_lt _ (S (length st))), Ht by lia.
      rewrite lookup_app_r by (rewrite length_rev; lia). by rewrite length_rev, Nat.sub_diag. }
    rewrite Hx. cbn [deref mbind res_bind]. eexists. split; [reflexivity|]. split_and!; cbn; try lia.
    rewrite (take_S_r _ _ x) in Ht by done. by apply app_inj_tail in Ht as [Ht _].
  - exists (mkStack ary top). by split_and!.
Qed.

Lemma stack_combining_ok s st post req_ary :
  rep s st ->
  exists s', flat_combining post s req_ary = Ok (s', (spec_rounds spec_serve 3 post st req_ary).2) /\
    rep s' (spec_rounds spec_serve 3 post st req_ary).1.
Proof.
  intros Hr. destruct (rounds_refine (fun _ _ => false) 3 post s st req_ary Hr)
    as (k & s' & _ & Hf & Hr' & _ & Hk). rewrite (Hk (fun _ _ => eq_refl)) in *. eauto.
Qed.

(** A pass of the combiner over the stack serves every request it reads, in
    the order in which it reads them, as a bounded stack would, also those
    posted between its rounds; it stays inside the array. *)
Theorem fcstack_combines s st post req_ary :
  rep s st ->
  exists s', flat_combining post s req_ary = Ok (s', (spec_rounds spec_serve 3 post st req_ary).2) /\
    rep s' (spec_rounds spec_serve 3 post st req_ary).1.
Proof. apply stack_combining_ok. Qed.

(** [add], when the caller gets the lock: it posts its value, combines and
    returns true. *)
Definition add_combining (post : list Z -> list Z) (iThread : nat) (inValue : Z)
    (s : stack) (req_ary : list Z) : res (stack * list (list Z) * bool) :=
  '(s, answers) ← flat_combining post s (<[iThread := inValue]> req_ary);
  Ok (s, answers, true).

(** [add] returns true even when the array is full: the value is then not
    on the stack but still in the caller's slot. *)
Theorem fcstack_full_add s st iThread inValue req_ary :
  rep s st -> length st = _stack_ary_size -> 0 < inValue ->
  (forall v, v ∈ req_ary -> is_deq v = false) -> (iThread < length req_ary)%nat ->
  exists s' answers, add_combining (fun a => a) iThread inValue s req_ary = Ok (s', answers, true) /\
    rep s' st /\ Forall (fun a => a !! iThread = Some inValue) answers.
Proof.
  intros Hr Hfull Hpos Hnd Hlt.
  assert (forall slots, (forall v, v ∈ slots -> is_deq v = false) ->
    spec_round spec_serve st slots = (st, slots)) as Hround.
  { induction slots as [|v slots IH]; intros Hs; [done|]. cbn [spec_round].
    assert (spec_serve st v = (st, v)) as ->.
    { unfold spec_serve. rewrite Hfull, bool_decide_eq_true_2 by done.
      rewrite (Hs v) by left. by destruct (is_add v). }
    rewrite IH; [done|]. intros w Hw. apply Hs. by right. }
  set (slots := <[iThread:=inValue]> req_ary).
  assert (forall v, v ∈ slots -> is_deq v = false) as Hnd'.
  { intros v [i Hi]%list_elem_of_lookup. unfold slots in Hi.
    apply list_lookup_insert_Some in Hi as [(<- & <- & _)|(_ & Hi)].
    - apply is_add_not_deq. by apply Z.ltb_lt.
    - by apply Hnd, (list_elem_of_lookup_2 _ i). }
  destruct (stack_combining_ok s st (fun a => a) slots Hr) as (s' & Hf & Hr').
  assert (spec_rounds spec_serve 3 (fun a => a) st slots = (st, [slots; slots; slots])) as E.
  { cbn [spec_rounds]. by rewrite !Hround by done. }
  rewrite E in Hf, Hr'. unfold add_combining. fold slots. rewrite Hf. cbn [mbind res_bind].
  eexists _, _. split; [reflexivity|]. split; [done|].
  assert (slots !! iThread = Some inValue) by (by apply list_lookup_insert_eq).
  by repeat constructor.
Qed.

Lemma rep_replicate n : (n <= _stack_ary_size)%nat ->
  rep (mkStack (replicate _stack_ary_size 1) n) (replicate n 1).
Proof.
  intros Hn. unfold rep. cbn [_stack_ary _top_indx]. rewrite !length_replicate.
  split_and!; [done..|]. rewrite take_replicate, Nat.min_l by done. clear Hn.
  induction n as [|n IH]; [done|]. cbn [replicate rev]. rewrite <- IH.
  by rewrite replicate_cons_app.
Qed.

Lemma fcstack_combines_witness :
  exists s', flat_combining (fun a => a) (mkStack (replicate _stack_ary_size 1) 0)
    [7; _DEQ_VALUE; _DEQ_VALUE; 9] = Ok (s', [[0; -7; 0; 0]; [0; -7; 0; 0]; [0; -7; 0; 0]]) /\
    rep s' [9].
Proof.
  exact (fcstack_combines _ _ (fun a => a) [7; _DEQ_VALUE; _DEQ_VALUE; 9]
    (rep_replicate 0 (Nat.le_0_l _))).
Defined.

Lemma fcstack_full_add_witness :
  exists s' answers, add_combining (fun a => a) 0 5
      (mkStack (replicate _stack_ary_size 1) _stack_ary_size) [0; 0] = Ok (s', answers, true) /\
    rep s' (replicate _stack_ary_size 1) /\
    Forall (fun a => a !! 0%nat = Some 5) answers.
Proof.
  apply (fcstack_full_add _ _ 0 5 [0; 0] (rep_replicate _stack_ary_size (le_n _)));
    [apply length_replicate|lia| |cbn; lia].
  intros v Hv. apply elem_of_cons in Hv as [->|Hv]; [reflexivity|].
  apply list_elem_of_singleton in Hv as ->. reflexivity.
Defined.

End FCStack.
