(* ===== verification/PairHeap.v ===== *)
(** The pairing heap ([testProject/data_structures/PairingHeap.h]) and the
    priority queue that combines requests on it ([FCPairingHeap.h]).

    A node has a left child and a next sibling; nodes are linked into a tree,
    so the model has trees.  [_prev] is read by [combineSiblings] only to cut
    the link from the previous sibling, and by [decreaseKey], which nothing
    calls: it is the converse of the other two links and is not kept.  The
    array that [combineSiblings] works on is modelled with its bounds. *)
From S2P Require Import Prelude.
From S2P Require Import FlatComb.

Module PH.

Inductive PairNode :=
| Null
| Node (_element : Z) (_leftChild _nextSibling : PairNode).

Record PairHeap := mkHeap {
  _root : PairNode;
  _treeArray : list PairNode
}.

Definition _tree_ary_size (h : PairHeap) : nat := length (_treeArray h).

(** The constructor. *)
Definition new_PairHeap : PairHeap := mkHeap Null (replicate 5 Null).

Definition compareAndLink (first second : PairNode) : res PairNode :=
  match second with
  | Null => Ok first
  | Node e2 l2 n2 =>
      match first with
      | Null => undefined
      | Node e1 l1 n1 =>
          if e2 <? e1 then Ok (Node e2 (Node e1 l1 l2) n2)
          else Ok (Node e1 (Node e2 l2 l1) n2)
      end
  end.

(** [doubleIfFull]: the entries past [index] of the new array are not read
    before they are written. *)
Definition doubleIfFull (inAry : list PairNode) (index : nat) : list PairNode :=
  if (index =? length inAry)%nat then take index inAry ++ replicate index Null else inAry.

Definition put (ary : list PairNode) (i : nat) (t : PairNode) : res (list PairNode) :=
  _ ← deref (ary !! i); Ok (<[i := t]> ary).

(** The first loop of [combineSiblings]: the siblings into the array, their
    links to each other cut. *)
Fixpoint collect (ary : list PairNode) (numSiblings : nat) (firstSibling : PairNode)
    : res (list PairNode * nat) :=
  match firstSibling with
  | Null => Ok (ary, numSiblings)
  | Node e l n =>
      ary ← put (doubleIfFull ary numSiblings) numSiblings (Node e l Null);
      collect ary (S numSiblings) n
  end.

(** [_treeArray[i] = compareAndLink(_treeArray[i], _treeArray[k])] *)
Definition link_at (ary : list PairNode) (i k : nat) : res (list PairNode) :=
  a ← deref (ary !! i);
  b ← deref (ary !! k);
  t ← compareAndLink a b;
  put ary i t.

(** [for (; i + 1 < numSiblings; i += 2)]: the array and the last [i]. *)
Fixpoint pair_up (fuel : nat) (ary : list PairNode) (i numSiblings : nat)
    : res (list PairNode * nat) :=
  match fuel with
  | O => Err Diverged
  | S fuel' =>
      if (i + 1 <? numSiblings)%nat then
        ary ← link_at ary i (i + 1); pair_up fuel' ary (i + 2) numSiblings
      else Ok (ary, i)
  end.

(** [for (; j >= 2; j -= 2)] *)
Fixpoint merge_down (fuel : nat) (ary : list PairNode) (j : nat) : res (list PairNode) :=
  match fuel with
  | O => Err Diverged
  | S fuel' =>
      if (2 <=? j)%nat then ary ← link_at ary (j - 2) j; merge_down fuel' ary (j - 2)
      else Ok ary
  end.

Definition combineSiblings (h : PairHeap) (firstSibling : PairNode) : res (PairHeap * PairNode) :=
  match firstSibling with
  | Null => undefined
  | Node _ _ Null => Ok (h, firstSibling)
  | _ =>
      '(ary, numSiblings) ← collect (_treeArray h) 0 firstSibling;
      ary ← put (doubleIfFull ary numSiblings) numSiblings Null;
      '(ary, i) ← pair_up (S numSiblings) ary 0 numSiblings;
      let j := (i - 2)%nat in
      ary ← (if (j + 3 =? numSiblings)%nat then link_at ary j (j + 2) else Ok ary);
      ary ← merge_down (S numSiblings) ary j;
      t ← deref (ary !! 0%nat);
      Ok (h <| _treeArray := ary |>, t)
  end.

Definition isEmpty (h : PairHeap) : bool := match _root h with Null => true | _ => false end.

Definition insert (x : Z) (h : PairHeap) : res PairHeap :=
  let newNode := Node x Null Null in
  match _root h with
  | Null => Ok (h <| _root := newNode |>)
  | r => r ← compareAndLink r newNode; Ok (h <| _root := r |>)
  end.

(** [deleteMin]: 0 ([null]) from an empty heap. *)
Definition deleteMin (h : PairHeap) : res (PairHeap * Z) :=
  match _root h with
  | Null => Ok (h, 0)
  | Node x Null _ => Ok (h <| _root := Null |>, x)
  | Node x l _ => '(h, r) ← combineSiblings h l; Ok (h <| _root := r |>, x)
  end.

Definition makeEmpty (h : PairHeap) : PairHeap := h <| _root := Null |>.

(** ** Heap order and contents *)
Fixpoint elems (t : PairNode) : list Z :=
  match t with Null => [] | Node e l n => e :: elems l ++ elems n end.

(** All of a row of siblings are at least [e]. *)
Fixpoint above (e : Z) (t : PairNode) : Prop :=
  match t with Null => True | Node e' _ n => e <= e' /\ above e n end.

Fixpoint heap_ordered (t : PairNode) : Prop :=
  match t with
  | Null => True
  | Node e l n => above e l /\ heap_ordered l /\ heap_ordered n
  end.

(** A tree of its own: a node without siblings, in heap order. *)
Definition single (t : PairNode) : Prop :=
  match t with Null => False | Node _ _ n => n = Null /\ heap_ordered t end.

Lemma above_le e e' t : e <= e' -> above e' t -> above e t.
Proof. intros He. induction t as [|e2 l _ n IH]; cbn; [done|]. intros [? ?]. split; [lia|auto]. Qed.

Lemma above_elems e t : above e t -> heap_ordered t -> Forall (Z.le e) (elems t).
Proof.
  revert e. induction t as [|e' l IHl n IHn]; intros e Ha Ho; cbn in *; [constructor|].
  destruct Ha as [He Ha], Ho as (Hl & Hol & Hon). constructor; [done|].
  apply Forall_app. split; [|by apply IHn]. apply IHl; [|done]. by eapply above_le.
Qed.

Lemma single_min e l n : single (Node e l n) -> Forall (Z.le e) (elems (Node e l n)).
Proof.
  intros [-> (Ha & Ho & _)]. cbn. constructor; [lia|]. rewrite app_nil_r. by apply above_elems.
Qed.

(** Linking two trees makes one of them, with the elements of both. *)
Lemma compareAndLink_ok a b : single a -> single b ->
  exists t, compareAndLink a b = Ok t /\ single t /\ elems t ≡ₚ elems a ++ elems b.
Proof.
  destruct a as [|e1 l1 n1], b as [|e2 l2 n2]; [done..|].
  intros [-> (H1 & Ho1 & _)] [-> (H2 & Ho2 & _)]. cbn [compareAndLink].
  destruct (Z.ltb_spec e2 e1).
  - eexists. split; [reflexivity|]. split.
    + cbn. split_and!; try done. lia.
    + cbn. rewrite !app_nil_r. rewrite <- Permutation_middle. by do 2 constructor.
  - eexists. split; [reflexivity|]. split.
    + cbn. split_and!; done.
    + cbn. rewrite !app_nil_r. constructor. rewrite <- Permutation_middle. constructor.
      apply Permutation_app_comm.
Qed.

(** ** The array of [combineSiblings]

    [live ary ks xs]: the entries [ks] of the array are trees of their own, and
    hold the elements [xs]. *)
Definition entry (ary : list PairNode) (k : nat) : list Z := default [] (elems <$> ary !! k).

Definition live (ary : list PairNode) (ks : list nat) (xs : list Z) : Prop :=
  NoDup ks /\ Forall (fun k => exists t, ary !! k = Some t /\ single t) ks /\
  ks ≫= entry ary ≡ₚ xs.

Lemma live_perm ary ks ks' xs : ks ≡ₚ ks' -> live ary ks xs -> live ary ks' xs.
Proof.
  intros Hp (Hn & Hf & Hx). split_and!; [by rewrite <- Hp|by rewrite <- Hp|]. rewrite <- Hx.
  by rewrite Hp.
Qed.

Lemma bind_entry_insert ary ks k t : k ∉ ks -> ks ≫= entry (<[k := t]> ary) = ks ≫= entry ary.
Proof.
  induction ks as [|k' ks IH]; intros Hk; [done|]. apply not_elem_of_cons in Hk as [H1 H2].
  cbn. rewrite IH by done. f_equal. unfold entry. by rewrite list_lookup_insert_ne.
Qed.

Lemma live_link ary i k ks xs : live ary (i :: k :: ks) xs ->
  exists ary', link_at ary i k = Ok ary' /\ length ary' = length ary /\ live ary' (i :: ks) xs.
Proof.
  intros (Hn & Hf & Hx). apply NoDup_cons in Hn as [Hi Hn]. apply NoDup_cons in Hn as [Hk Hn].
  apply Forall_cons in Hf as [(a & Ha & Hsa) Hf]. apply Forall_cons in Hf as [(b & Hb & Hsb) Hf].
  apply not_elem_of_cons in Hi as [Hik Hi].
  destruct (compareAndLink_ok a b Hsa Hsb) as (t & Ht & Hst & Hp).
  unfold link_at, put. rewrite Ha, Hb. cbn [deref mbind res_bind]. rewrite Ht.
  cbn [deref mbind res_bind]. eexists. split; [reflexivity|]. split; [apply length_insert|].
  assert (i < length ary)%nat as Hlt by (by eapply lookup_lt_Some).
  split_and!.
  - by constructor.
  - constructor; [exists t; split; [by apply list_lookup_insert_eq|done]|].
    apply Forall_forall. intros k' Hk'. apply (proj1 (Forall_forall _ _) Hf) in Hk' as Hk2.
    rewrite list_lookup_insert_ne by (intros ->; done). done.
  - cbn [mbind list_bind] in Hx |- *. rewrite bind_entry_insert by done.
    unfold entry at 1. rewrite list_lookup_insert_eq by done. cbn.
    rewrite <- Hx, Hp. unfold entry at 2 3. rewrite Ha, Hb. cbn. by rewrite app_assoc.
Qed.

(** The even positions below [2 m]. *)
Definition evens (m : nat) : list nat := (fun k => 2 * k)%nat <$> seq 0 m.

Lemma evens_S m : evens (S m) = evens m ++ [(2 * m)%nat].
Proof. unfold evens. by rewrite seq_S, fmap_app. Qed.

Lemma pair_up_ok fuel ary m num xs :
  live ary (evens m ++ seq (2 * m) (num - 2 * m)) xs -> (num < 2 * m + 2 * fuel)%nat ->
  (2 * m <= num)%nat ->
  exists ary' m', pair_up fuel ary (2 * m) num = Ok (ary', (2 * m')%nat) /\
    length ary' = length ary /\ (2 * m' <= num < 2 * m' + 2)%nat /\
    live ary' (evens m' ++ seq (2 * m') (num - 2 * m')) xs.
Proof.
  revert ary m. induction fuel as [|fuel IH]; intros ary m Hl Hf Hm; [lia|]. cbn [pair_up].
  destruct (Nat.ltb_spec (2 * m + 1) num) as [Hlt|Hge].
  - assert (seq (2 * m) (num - 2 * m) =
      (2 * m)%nat :: (2 * m + 1)%nat :: seq (2 * S m) (num - 2 * S m)) as E.
    { replace (num - 2 * m)%nat with (S (S (num - 2 * S m))) by lia. cbn [seq].
      do 2 f_equal; [lia|f_equal; lia]. }
    rewrite E in Hl.
    destruct (live_link ary (2 * m) (2 * m + 1) (evens m ++ seq (2 * S m) (num - 2 * S m)) xs)
      as (ary1 & -> & Hlen & Hl1).
    { eapply live_perm; [|exact Hl]. rewrite <- !Permutation_middle. done. }
    cbn [mbind res_bind].
    replace (2 * m + 2)%nat with (2 * S m)%nat by lia.
    destruct (IH ary1 (S m)) as (ary2 & m' & -> & Hlen2 & Hm' & Hl2); [|lia|lia|].
    + eapply live_perm; [|exact Hl1]. rewrite evens_S, <- app_assoc. cbn [app].
      by rewrite Permutation_middle.
    + exists ary2, m'. split; [done|]. split; [congruence|]. done.
  - exists ary, m. split; [done|]. split; [done|]. split; [lia|done].
Qed.

Lemma merge_down_ok fuel ary m xs :
  live ary (evens (S m)) xs -> (m < fuel)%nat ->
  exists ary', merge_down fuel ary (2 * m) = Ok ary' /\ length ary' = length ary /\
    live ary' [0%nat] xs.
Proof.
  revert ary m. induction fuel as [|fuel IH]; intros ary m Hl Hf; [lia|]. cbn [merge_down].
  destruct m as [|m]; [by exists ary|].
  rewrite (proj2 (Nat.leb_le _ _)) by lia.
  replace (2 * S m - 2)%nat with (2 * m)%nat by lia.
  destruct (live_link ary (2 * m) (2 * S m) (evens m) xs) as (ary1 & -> & Hlen & Hl1).
  { eapply live_perm; [|exact Hl]. rewrite !evens_S, <- app_assoc. cbn [app].
    by rewrite Permutation_app_comm. }
  cbn [mbind res_bind]. destruct (IH ary1 m) as (ary2 & -> & Hlen2 & Hl2); [|lia|].
  - eapply live_perm; [|exact Hl1]. by rewrite evens_S, Permutation_app_comm.
  - exists ary2. split; [done|]. split; [congruence|done].
Qed.

Lemma live_ext ary ary' ks xs : (forall k, k ∈ ks -> ary' !! k = ary !! k) ->
  live ary ks xs -> live ary' ks xs.
Proof.
  intros He (Hn & Hf & Hx). split_and!; [done| |].
  - apply Forall_forall. intros k Hk. rewrite He by done. by apply (proj1 (Forall_forall _ _) Hf).
  - rewrite <- Hx. clear Hn Hf Hx. induction ks as [|k ks IH]; [done|]. cbn. rewrite IH.
    + unfold entry. by rewrite (He k) by left.
    + intros k' Hk'. apply He. by right.
Qed.

Lemma doubleIfFull_ok ary k : (0 < length ary)%nat -> (k <= length ary)%nat ->
  (k < length (doubleIfFull ary k))%nat /\
  forall i, (i < k)%nat -> doubleIfFull ary k !! i = ary !! i.
Proof.
  intros H0 Hk. unfold doubleIfFull. destruct (Nat.eqb_spec k (length ary)) as [->|Hne].
  - rewrite length_app, length_take, length_replicate. split; [lia|]. intros i Hi.
    rewrite lookup_app_l by (rewrite length_take; lia). by rewrite lookup_take_lt.
  - split; [lia|done].
Qed.

Lemma collect_ok ary k t xs :
  (0 < length ary)%nat -> (k <= length ary)%nat -> heap_ordered t -> live ary (seq 0 k) xs ->
  exists ary' k', collect ary k t = Ok (ary', k') /\ (0 < length ary')%nat /\
    (k' <= length ary')%nat /\ (k <= k')%nat /\ live ary' (seq 0 k') (xs ++ elems t) /\
    (t = Null -> k' = k) /\ (forall e l n, t = Node e l n -> (k < k')%nat /\ (n <> Null -> S k < k')%nat).
Proof.
  revert ary k xs. induction t as [|e l _ n IH]; intros ary k xs H0 Hk Ho Hl; cbn [collect].
  { exists ary, k. cbn [elems]. rewrite app_nil_r. by split_and!. }
  destruct (doubleIfFull_ok ary k H0 Hk) as [Hd Hsame]. set (ary1 := doubleIfFull ary k) in *.
  destruct (lookup_lt_is_Some_2 ary1 k Hd) as [old Hold]. unfold put. rewrite Hold.
  cbn [deref mbind res_bind]. destruct Ho as (Ha & Hol & Hon).
  destruct (IH (<[k := Node e l Null]> ary1) (S k) (xs ++ e :: elems l))
    as (ary' & k' & -> & H0' & Hk' & Hle & Hl' & Hn1 & Hn2); [rewrite length_insert; lia..|done| |].
  - rewrite seq_S. cbn [Nat.add]. eapply (live_perm _ (k :: seq 0 k)); [by rewrite Permutation_app_comm|].
    destruct Hl as (Hnd & Hf & Hx).
    assert (k ∉ seq 0 k) as Hks by (rewrite elem_of_seq; lia).
    assert (live (<[k := Node e l Null]> ary1) (seq 0 k) xs) as (_ & Hf2 & Hx2).
    { apply (live_ext ary); [|done]. intros i Hi%elem_of_seq.
      rewrite list_lookup_insert_ne by lia. apply Hsame. lia. }
    split_and!.
    + by constructor.
    + constructor; [|done]. eexists. split; [by apply list_lookup_insert_eq|]. by cbn.
    + cbn [mbind list_bind]. unfold entry at 1. rewrite list_lookup_insert_eq by done.
      cbn. rewrite Hx2, app_nil_r. rewrite app_comm_cons. apply Permutation_app_comm.
  - exists ary', k'. split_and!; try done; [lia| |].
    + cbn [elems]. by rewrite <- app_assoc in Hl'.
    + intros e' l' n' [= <- <- <-]. split; [lia|]. intros Hnn. destruct n as [|e2 l2 n2]; [done|].
      destruct (Hn2 _ _ _ eq_refl). lia.
Qed.

(** [combineSiblings] terminates inside the array and leaves one tree with the
    elements of the siblings. *)
Lemma combineSiblings_ok h t : (0 < _tree_ary_size h)%nat -> heap_ordered t -> t <> Null ->
  exists h' r, combineSiblings h t = Ok (h', r) /\ single r /\ elems r ≡ₚ elems t /\
    (0 < _tree_ary_size h')%nat.
Proof.
  intros H0 Ho Hne. destruct t as [|e l n]; [done|]. unfold combineSiblings.
  destruct n as [|e2 l2 n2] eqn:En.
  { exists h, (Node e l Null). split_and!; try done; apply Ho. }
  rewrite <- En in *. assert (n <> Null) as Hn by (by rewrite En). clear En e2 l2 n2 Hne.
  destruct (collect_ok (_treeArray h) 0 (Node e l n) []) as
    (ary & num & -> & H1 & Hnum & _ & Hl & _ & Hnum2); [done|lia|done| |].
  { split_and!; [constructor|constructor|done]. }
  destruct (Hnum2 _ _ _ eq_refl) as [_ H2]. specialize (H2 Hn). cbn [mbind res_bind].
  destruct (doubleIfFull_ok ary num H1 Hnum) as [Hd Hsame].
  destruct (lookup_lt_is_Some_2 _ num Hd) as [old Hold]. unfold put at 1. rewrite Hold.
  cbn [deref mbind res_bind]. set (ary1 := <[num := Null]> (doubleIfFull ary num)).
  assert (live ary1 (evens 0 ++ seq (2 * 0) (num - 2 * 0)) (elems (Node e l n))) as Hl1.
  { cbn [evens seq fmap list_fmap app]. rewrite Nat.sub_0_r. apply (live_ext ary); [|done].
    intros i Hi%elem_of_seq. unfold ary1. rewrite list_lookup_insert_ne by lia. apply Hsame. lia. }
  destruct (pair_up_ok (S num) ary1 0 num _ Hl1) as (ary2 & m & Hpu & Hlen2 & Hm & Hl2); [lia..|].
  change (2 * 0)%nat with 0%nat in Hpu. rewrite Hpu. cbn [mbind res_bind].
  assert (length ary1 = length (doubleIfFull ary num)) as Hlen1 by apply length_insert.
  destruct m as [|m]; [lia|]. replace (2 * S m - 2)%nat with (2 * m)%nat by lia.
  assert (exists ary3, (if (2 * m + 3 =? num)%nat then link_at ary2 (2 * m) (2 * m + 2) else Ok ary2)
    = Ok ary3 /\ length ary3 = length ary2 /\ live ary3 (evens (S m)) (elems (Node e l n))) as
    (ary3 & -> & Hlen3 & Hl3).
  { destruct (Nat.eqb_spec (2 * m + 3) num) as [E|E].
    - destruct (live_link ary2 (2 * m) (2 * m + 2) (evens m) (elems (Node e l n))) as (ary3 & H3 & Hl3 & Hlv).
      + eapply live_perm; [|exact Hl2]. replace (num - 2 * S m)%nat with 1%nat by lia. cbn [seq].
        replace (2 * S m)%nat with (2 * m + 2)%nat by lia. rewrite evens_S, <- app_assoc. cbn [app].
        by rewrite Permutation_app_comm.
      + exists ary3. split_and!; try done. eapply live_perm; [|exact Hlv].
        by rewrite evens_S, Permutation_app_comm.
    - exists ary2. split_and!; try done. replace (num - 2 * S m)%nat with 0%nat in Hl2 by lia.
      cbn [seq] in Hl2. by rewrite app_nil_r in Hl2. }
  cbn [mbind res_bind].
  destruct (merge_down_ok (S num) ary3 m _ Hl3) as (ary4 & -> & Hlen4 & (_ & Hf & Hx)); [lia|].
  cbn [mbind res_bind]. apply Forall_cons in Hf as [(r & Hr & Hsr) _]. rewrite Hr.
  cbn [deref mbind res_bind]. eexists _, r. split; [reflexivity|]. split; [done|]. split.
  - rewrite <- Hx. cbn [mbind list_bind]. unfold entry. rewrite Hr. cbn. by rewrite app_nil_r.
  - unfold _tree_ary_size. cbn. lia.
Qed.

(** ** The specification: an ordered list *)
Fixpoint pq_insert (x : Z) (st : list Z) : list Z :=
  match st with
  | [] => [x]
  | y :: st' => if x <=? y then x :: st else y :: pq_insert x st'
  end.

Lemma pq_insert_perm x st : pq_insert x st ≡ₚ x :: st.
Proof.
  induction st as [|y st IH]; cbn; [done|]. case_if; [done|]. by rewrite IH, Permutation_swap.
Qed.

Lemma pq_insert_sorted x st : StronglySorted Z.le st -> StronglySorted Z.le (pq_insert x st).
Proof.
  induction 1 as [|y st Hs IH Hf]; cbn; [by repeat constructor|].
  destruct (Z.leb_spec x y).
  - repeat constructor; [done..|]. eapply Forall_impl; [exact Hf|]. intros; cbn in *; lia.
  - constructor; [done|]. rewrite pq_insert_perm. constructor; [lia|done].
Qed.

Definition hrep (h : PairHeap) (st : list Z) : Prop :=
  (0 < _tree_ary_size h)%nat /\ (_root h = Null \/ single (_root h)) /\
  elems (_root h) ≡ₚ st /\ StronglySorted Z.le st.

Lemma insert_ok h st x : hrep h st -> exists h', insert x h = Ok h' /\ hrep h' (pq_insert x st).
Proof.
  intros (H0 & Hr & Hp & Hs). unfold insert.
  assert (single (Node x Null Null)) as Hx by done.
  destruct (_root h) as [|e l n] eqn:Er.
  - eexists. split; [reflexivity|]. split_and!; [done|by right| |by apply pq_insert_sorted].
    cbn. rewrite pq_insert_perm. by constructor.
  - destruct Hr as [|Hr]; [done|].
    destruct (compareAndLink_ok _ _ Hr Hx) as (t & -> & Ht & Hpt). cbn [mbind res_bind].
    eexists. split; [reflexivity|]. split_and!; [done|by right| |by apply pq_insert_sorted].
    change (elems t ≡ₚ pq_insert x st).
    rewrite Hpt, pq_insert_perm, <- Hp, Permutation_app_comm. done.
Qed.

(** The root is the least element. *)
Lemma root_min e l n x st : single (Node e l n) -> elems (Node e l n) ≡ₚ x :: st ->
  StronglySorted Z.le (x :: st) -> e = x /\ elems l ≡ₚ st.
Proof.
  intros Hr Hp Hs. pose proof (single_min _ _ _ Hr) as Hm. destruct Hr as [-> _].
  apply StronglySorted_inv in Hs as [_ Hf].
  assert (e = x) as ->.
  { assert (e <= x).
    { apply (proj1 (Forall_forall _ _) Hm). rewrite Hp. left. }
    assert (e ∈ x :: st) as [->|He]%elem_of_cons; [rewrite <- Hp; left|done|].
    apply (proj1 (Forall_forall _ _) Hf) in He. lia. }
  split; [done|]. cbn in Hp. rewrite app_nil_r in Hp. by apply Permutation_cons_inv in Hp.
Qed.

Lemma deleteMin_ok h st : hrep h st ->
  exists h', deleteMin h = Ok (h', default 0 (list.head st)) /\ hrep h' (tail st).
Proof.
  intros (H0 & Hr & Hp & Hs). unfold deleteMin. destruct (_root h) as [|e l n] eqn:Er.
  { cbn in Hp. symmetry in Hp. apply Permutation_nil_r in Hp. subst st. exists h. split; [done|].
    unfold hrep. rewrite Er. by split_and!; [|left|..]. }
  destruct Hr as [|Hr]; [done|]. destruct st as [|x st].
  { cbn in Hp. by apply Permutation_nil_r in Hp. }
  destruct (root_min _ _ _ _ _ Hr Hp Hs) as [-> Hl]. apply StronglySorted_inv in Hs as [Hs _].
  destruct Hr as [-> (Ha & Ho & _)]. destruct l as [|e2 l2 n2] eqn:El.
  - cbn. eexists. split; [reflexivity|]. split_and!; [done|by left|done|done].
  - rewrite <- El in *. destruct (combineSiblings_ok h l H0 Ho) as (h' & r & Hc & Hsr & Hpr & H0');
      [by rewrite El|]. rewrite El in Hc |- *. rewrite Hc. cbn [mbind res_bind list.head default tail].
    eexists. split; [reflexivity|]. split_and!; [done|by right| |done].
    change (elems r ≡ₚ st). by rewrite Hpr.
Qed.

(** C18. The pairing heap is a priority queue: [insert] never fails and adds one
    element; [deleteMin] terminates, stays inside its array, and takes out the
    least element, or answers 0 when there is none. *)
Theorem pairheap_refines h st x :
  hrep h st ->
  (exists h', insert x h = Ok h' /\ hrep h' (pq_insert x st)) /\
  (exists h', deleteMin h = Ok (h', default 0 (list.head st)) /\ hrep h' (tail st)) /\
  hrep (makeEmpty h) [].
Proof.
  intros Hr. split_and!; [by apply insert_ok|by apply deleteMin_ok|].
  split_and!; [apply Hr|by left|done|constructor].
Qed.

(** ** FCPairHeap *)
Definition serve (h : PairHeap) (curr_value : Z) : res (PairHeap * Z) :=
  if is_add curr_value then h ← insert curr_value h; Ok (h, _NULL_VALUE)
  else if is_deq curr_value then '(h, x) ← deleteMin h; Ok (h, - x)
  else Ok (h, curr_value).

Definition flat_combining (_NUM_REP _REP_THRESHOLD : nat) (post : list Z -> list Z)
    (h : PairHeap) (slots : list Z) : res (PairHeap * list (list Z)) :=
  rounds serve id (fun _ slots => (num_changes slots <? _REP_THRESHOLD)%nat) _NUM_REP post h slots.

Definition spec_serve (st : list Z) (v : Z) : list Z * Z :=
  if is_add v then (pq_insert v st, _NULL_VALUE)
  else if is_deq v then (tail st, - default 0 (list.head st))
  else (st, v).

#[export] Instance heap_combinable : Combinable hrep id serve spec_serve.
Proof.
  constructor; [done|]. intros h st v Hr. unfold serve, spec_serve. case_if; [|case_if].
  - destruct (insert_ok h st v Hr) as (h' & -> & Hr'). cbn. eauto.
  - destruct (deleteMin_ok h st Hr) as (h' & -> & Hr'). cbn. eauto.
  - eauto.
Qed.

(** A pass of the combiner over the heap, of [k] rounds at most as many as
    allowed, serves every request it reads, in the order in which it reads
    them, as a priority queue would. *)
Theorem fcheap_combines h st reps threshold post slots :
  hrep h st ->
  exists k h', (k <= reps)%nat /\ (0 < reps -> 0 < k)%nat /\
    flat_combining reps threshold post h slots = Ok (h', (spec_rounds spec_serve k post st slots).2) /\
    hrep h' (spec_rounds spec_serve k post st slots).1.
Proof.
  intros Hr. destruct (rounds_refine (fun _ slots => (num_changes slots <? threshold)%nat)
    reps post h st slots Hr) as (k & h' & Hk & Hf & Hr' & H0 & _). eauto 8.
Qed.

Lemma new_PairHeap_rep : hrep new_PairHeap [].
Proof. split_and!; [cbn; lia|by left|done|constructor]. Qed.

Lemma pairheap_refines_witness :
  exists h', insert 3 new_PairHeap = Ok h' /\ hrep h' [3].
Proof. exact (proj1 (pairheap_refines new_PairHeap [] 3 new_PairHeap_rep)). Defined.

Lemma fcheap_combines_witness :
  exists k h', (k <= 2)%nat /\ (0 < 2 -> 0 < k)%nat /\
    flat_combining 2 3 (fun a => a) new_PairHeap [9; 4; 6; _DEQ_VALUE; 5; _DEQ_VALUE] =
      Ok (h', (spec_rounds spec_serve k (fun a => a) [] [9; 4; 6; _DEQ_VALUE; 5; _DEQ_VALUE]).2) /\
    hrep h' (spec_rounds spec_serve k (fun a => a) [] [9; 4; 6; _DEQ_VALUE; 5; _DEQ_VALUE]).1.
Proof.
  exact (fcheap_combines new_PairHeap [] 2 3 (fun a => a) [9; 4; 6; _DEQ_VALUE; 5; _DEQ_VALUE]
    new_PairHeap_rep).
Defined.

(** The answers of that pass. *)
Lemma fcheap_example :
  snd <$> flat_combining 2 3 (fun a => a) new_PairHeap [9; 4; 6; _DEQ_VALUE; 5; _DEQ_VALUE] =
  Ok [[0; 0; 0; -4; 0; -5]; [0; 0; 0; -4; 0; -5]].
Proof. vm_compute. reflexivity. Qed.

End PH.
