(* ===== verification/FCQueue.v ===== *)
(** The flat-combining FIFO queue ([testProject/data_structures/FCQueue.h]).

    The queue is a linked list of arrays of values.  Entry 0 of an array is the
    index of the next value to dequeue, a 0 entry ends the values; a pass of
    the combiner fills one new array with the values it enqueues, growing it as
    needed, and links it in at the end of the pass.  Dequeued arrays are freed.
    [junk] is what an array holds before it is written. *)
From S2P Require Import Prelude.
From S2P Require Import PtrList.
From S2P Require Import FlatComb.

Module FQ.

Record Node := mkNode { _next : option loc; _values : list Z }.

(** The queue and the local variables of [flat_combining]: the offsets of
    [enq_value_ary] and [deq_value_ary] in their arrays, [num_added] and
    [num_changes]. *)
Record queue := mkQueue {
  nodes : gmap loc Node;
  _head : loc;
  _tail : loc;
  _NODE_SIZE : nat;
  _new_node : option loc;
  _length : Z;
  enq_value_ary : nat;
  deq_value_ary : nat;
  num_added : nat;
  num_changes : nat
}.

Section queue.
Variable junk : Z.

(** [Node::get_new] at a fresh address. *)
Definition get_new (in_num_values : nat) (h : gmap loc Node) : gmap loc Node * loc :=
  let a := new_loc h in
  (<[a := mkNode None (replicate (in_num_values + 2) junk)]> h, a).

(** The constructor, with [_head->_values[0] = 1; _head->_values[1] = 0]. *)
Definition new_FCQueue (_NUM_THREADS : nat) : queue :=
  let '(h, a) := get_new _NUM_THREADS ∅ in
  mkQueue (<[a := mkNode None (1 :: 0 :: replicate _NUM_THREADS junk)]> h) a a 5 None 0 0 0 0 0.

Definition read (h : gmap loc Node) (a : loc) (i : nat) : res Z :=
  n ← deref (h !! a); deref (_values n !! i).

Definition write (h : gmap loc Node) (a : loc) (i : nat) (v : Z) : res (gmap loc Node) :=
  n ← deref (h !! a);
  _ ← deref (_values n !! i);
  Ok (<[a := n <| _values := <[i := v]> (_values n) |>]> h).

(** A node of [_NODE_SIZE + 4] values takes over from the full one. *)
Definition extend (q : queue) (a : loc) : res queue :=
  let '(h, b) := get_new (_NODE_SIZE q + 4) (nodes q) in
  n ← deref (h !! a);
  bn ← deref (h !! b);
  _ ← (if (_NODE_SIZE q + 2 <=? length (_values n))%nat then Ok tt else undefined);
  let copied := take (_NODE_SIZE q + 2) (_values n) ++ drop (_NODE_SIZE q + 2) (_values bn) in
  let h := delete a (<[b := bn <| _values := copied |>]> h) in
  h ← write h b 0 1;
  Ok (q <| nodes := h |> <| _new_node := Some b |>
        <| enq_value_ary := (1 + _NODE_SIZE q)%nat |> <| _NODE_SIZE := (_NODE_SIZE q + 4)%nat |>).

Definition serve_add (q : queue) (curr_value : Z) : res (queue * Z) :=
  a ← deref (_new_node q);
  h ← write (nodes q) a (enq_value_ary q) curr_value;
  let q := q <| nodes := h |> <| _length := _length q + 1 |>
             <| enq_value_ary := S (enq_value_ary q) |> <| num_added := S (num_added q) |>
             <| num_changes := S (num_changes q) |> in
  q ← (if (_NODE_SIZE q <=? num_added q)%nat then extend q a else Ok q);
  Ok (q, _NULL_VALUE).

(** The request to dequeue, read again after each [continue]. *)
Fixpoint serve_deq (fuel : nat) (q : queue) : res (queue * Z) :=
  match fuel with
  | O => Err Diverged
  | S fuel' =>
      let q := q <| _length := _length q - 1 |> <| num_changes := S (num_changes q) |> in
      curr_deq ← read (nodes q) (_tail q) (deq_value_ary q);
      if negb (curr_deq =? 0) then
        Ok (q <| deq_value_ary := S (deq_value_ary q) |>, - curr_deq)
      else
        tn ← deref (nodes q !! _tail q);
        match _next tn with
        | Some t' =>
            i ← read (nodes q) t' 0;
            serve_deq fuel' (q <| _tail := t' |> <| deq_value_ary := Z.to_nat i |>
                               <| nodes := delete (_tail q) (nodes q) |>)
        | None => Ok (q, _NULL_VALUE)
        end
  end.

Definition serve (q : queue) (curr_value : Z) : res (queue * Z) :=
  if is_add curr_value then serve_add q curr_value
  else if is_deq curr_value then serve_deq (S (size (nodes q))) q
  else Ok (q, curr_value).

(** The beginning of [flat_combining]. *)
Definition prepare (q : queue) : res queue :=
  let '(h, a) := match _new_node q with
                 | Some a => (nodes q, a)
                 | None => get_new (_NODE_SIZE q) (nodes q)
                 end in
  h ← write h a 0 1;
  i ← read h (_tail q) 0;
  Ok (q <| nodes := h |> <| _new_node := Some a |> <| enq_value_ary := 1%nat |>
        <| deq_value_ary := Z.to_nat i |> <| num_added := 0%nat |>).

(** Its end: an exhausted array is freed, otherwise its index is stored; then the
    new array is linked in, if anything was enqueued. *)
Definition finish_tail (q : queue) : res queue :=
  v ← read (nodes q) (_tail q) (deq_value_ary q);
  tn ← deref (nodes q !! _tail q);
  match _next tn with
  | Some next_node =>
      if v =? 0 then Ok (q <| nodes := delete (_tail q) (nodes q) |> <| _tail := next_node |>)
      else h ← write (nodes q) (_tail q) 0 (Z.of_nat (deq_value_ary q));
           Ok (q <| nodes := h |>)
  | None => h ← write (nodes q) (_tail q) 0 (Z.of_nat (deq_value_ary q));
            Ok (q <| nodes := h |>)
  end.

Definition finish_link (q : queue) : res queue :=
  a ← deref (_new_node q);
  if bool_decide (enq_value_ary q = 1%nat) then Ok q
  else
    h ← write (nodes q) a (enq_value_ary q) 0;
    hn ← deref (h !! _head q);
    Ok (q <| nodes := <[_head q := hn <| _next := Some a |>]> h |> <| _head := a |>
          <| _new_node := None |> <| _NODE_SIZE := 5%nat |>).

Definition finish (q : queue) : res queue := q ← finish_tail q; finish_link q.

(** [int num_changes = 0] at the start of a round. *)
Definition reset (q : queue) : queue := q <| num_changes := 0%nat |>.

Definition flat_combining (_NUM_REP _REP_THRESHOLD : nat) (post : list Z -> list Z)
    (q : queue) (slots : list Z) : res (queue * list (list Z)) :=
  q ← prepare q;
  '(q, answers) ← rounds serve reset (fun q _ => (num_changes q <? _REP_THRESHOLD)%nat)
                    _NUM_REP post q slots;
  q ← finish q;
  Ok (q, answers).

(** ** The specification

    The values that were there when the pass began, and those it enqueues,
    which become visible when it ends. *)
Definition spec_serve (st : list Z * list Z) (v : Z) : (list Z * list Z) * Z :=
  let '(old, buf) := st in
  if is_add v then ((old, buf ++ [v]), _NULL_VALUE)
  else if is_deq v then
    match old with [] => (([], buf), _NULL_VALUE) | x :: old' => ((old', buf), - x) end
  else (st, v).

(** ** Representation *)

(** The values [c] of an array from index [k] on, up to the 0 that ends them. *)
Definition content (vs : list Z) (k : nat) (c : list Z) : Prop :=
  exists pre post, vs = pre ++ c ++ 0 :: post /\ length pre = k /\ (1 <= k)%nat /\
    Forall (fun v => 0 < v) c.

(** A node whose first entry says where its values begin. *)
Definition full (h : gmap loc Node) (a : loc) (c : list Z) : Prop :=
  exists n k, h !! a = Some n /\ _values n !! 0%nat = Some (Z.of_nat k) /\ content (_values n) k c.

(** The array being filled: [buf] so far, room for [size] values. *)
Definition filling (h : gmap loc Node) (a : loc) (size : nat) (buf : list Z) : Prop :=
  exists n post, h !! a = Some n /\ _next n = None /\ _values n = 1 :: buf ++ post /\
    length (_values n) = (size + 2)%nat /\ (length buf < size)%nat /\ Forall (fun v => 0 < v) buf.

(** During a pass: [old] is still to be dequeued, [buf] has been enqueued. *)
Record active (q : queue) (rest : list loc) (cs : list (list Z)) (c0 : list Z) (a : loc)
    (old buf : list Z) : Prop := mk_active {
  ac_seg : seg _next (nodes q) (Some (_tail q)) (_tail q :: rest) None;
  ac_tail : exists tn, nodes q !! _tail q = Some tn /\ content (_values tn) (deq_value_ary q) c0;
  ac_rest : Forall2 (full (nodes q)) rest cs;
  ac_old : old = c0 ++ concat cs;
  ac_head : last (_tail q :: rest) = Some (_head q);
  ac_new : _new_node q = Some a;
  ac_off : a ∉ _tail q :: rest;
  ac_fill : filling (nodes q) a (_NODE_SIZE q) buf;
  ac_enq : enq_value_ary q = S (length buf);
  ac_num : num_added q = length buf
}.

Definition during (q : queue) (st : list Z * list Z) : Prop :=
  exists rest cs c0 a, active q rest cs c0 a st.1 st.2.

(** Between passes. *)
Record idle (q : queue) (rest : list loc) (cs : list (list Z)) (vs : list Z) : Prop := mk_idle {
  id_seg : seg _next (nodes q) (Some (_tail q)) (_tail q :: rest) None;
  id_full : Forall2 (full (nodes q)) (_tail q :: rest) cs;
  id_vals : vs = concat cs;
  id_head : last (_tail q :: rest) = Some (_head q);
  id_size : (0 < _NODE_SIZE q)%nat;
  id_new : match _new_node q with
           | None => True
           | Some a => a ∉ _tail q :: rest /\ exists n, nodes q !! a = Some n /\ _next n = None /\
               length (_values n) = (_NODE_SIZE q + 2)%nat
           end
}.

Definition qrep (q : queue) (vs : list Z) : Prop := exists rest cs, idle q rest cs vs.

(** *** Reads and writes *)
Lemma read_content h a n k c v : h !! a = Some n -> content (_values n) k c ->
  list.head (c ++ [0]) = Some v -> read h a k = Ok v.
Proof.
  intros Ha (pre & post & E & Hl & _) Hv. unfold read. rewrite Ha. cbn [deref mbind res_bind].
  rewrite E, lookup_app_r, Hl, Nat.sub_diag by lia. destruct c; cbn in Hv |- *; congruence.
Qed.

Lemma content_next vs k x c : content vs k (x :: c) -> content vs (S k) c.
Proof.
  intros (pre & post & E & Hl & Hk & Hf). apply Forall_cons in Hf as [_ Hf].
  exists (pre ++ [x]), post. rewrite E, <- app_assoc, length_app. cbn. split_and!; [done|lia|lia|done].
Qed.

(** Entry 0 may change: the values are behind it. *)
Lemma content_set0 vs k c i : content vs k c -> content (<[0%nat := i]> vs) k c.
Proof.
  intros (pre & post & -> & Hl & Hk & Hf). destruct pre as [|p pre]; cbn in Hl; [lia|].
  by exists (i :: pre), post.
Qed.

Lemma write_ok h a n i v : h !! a = Some n -> (i < length (_values n))%nat ->
  write h a i v = Ok (<[a := n <| _values := <[i := v]> (_values n) |>]> h).
Proof.
  intros Ha Hi. unfold write. rewrite Ha. cbn [deref mbind res_bind].
  destruct (lookup_lt_is_Some_2 _ _ Hi) as [x ->]. done.
Qed.

Lemma content_length vs k c : content vs k c -> (0 < length vs)%nat.
Proof. intros (pre & post & -> & _). rewrite !length_app. cbn. lia. Qed.

Lemma full_insert_ne h a n b c : b <> a -> full h b c -> full (<[a := n]> h) b c.
Proof. intros Hne (m & k & Hm & H). exists m, k. by rewrite lookup_insert_ne. Qed.

Lemma full_delete_ne h a b c : b <> a -> full h b c -> full (delete a h) b c.
Proof. intros Hne (m & k & Hm & H). exists m, k. by rewrite lookup_delete_ne. Qed.

Lemma fulls_ext h h' ns cs : (forall a, a ∈ ns -> _values <$> h' !! a = _values <$> h !! a) ->
  Forall2 (full h) ns cs -> Forall2 (full h') ns cs.
Proof.
  intros He H. induction H as [|a c ns cs (n & k & Hn & Hk) _ IH]; constructor.
  - specialize (He a ltac:(left)). rewrite Hn in He. apply fmap_Some in He as (n' & Hn' & E).
    exists n', k. by rewrite <- E.
  - apply IH. intros b Hb. apply He. by right.
Qed.

Lemma full_dom h ns cs a : Forall2 (full h) ns cs -> a ∈ ns -> is_Some (h !! a).
Proof.
  intros H. induction H as [|b c ns cs (n & k & Hn & _) _ IH]; [by intros ?%elem_of_nil|].
  intros [->|Ha]%elem_of_cons; eauto.
Qed.

(** Only the array being filled changes. *)
Lemma active_refill q q' rest cs c0 a a' old buf buf' :
  active q rest cs c0 a old buf ->
  _tail q' = _tail q -> _head q' = _head q -> deq_value_ary q' = deq_value_ary q ->
  (forall b, b ∈ _tail q :: rest -> nodes q' !! b = nodes q !! b) ->
  _new_node q' = Some a' -> a' ∉ _tail q :: rest ->
  filling (nodes q') a' (_NODE_SIZE q') buf' ->
  enq_value_ary q' = S (length buf') -> num_added q' = length buf' ->
  active q' rest cs c0 a' old buf'.
Proof.
  intros [Hs (tn & Ht & Hc) Hr Ho Hh _ _ _ _ _] E1 E2 E3 He Hn Hoff Hf H1 H2.
  constructor; rewrite ?E1, ?E2, ?E3; try done.
  - eapply seg_ext; [|exact Hs]. intros b Hb. by rewrite He.
  - exists tn. rewrite He by left. done.
  - eapply fulls_ext; [|exact Hr]. intros b Hb. rewrite He; [done|]. by right.
Qed.

Lemma filling_snoc h a n size buf v : h !! a = Some n -> filling h a size buf -> 0 < v ->
  exists post, <[S (length buf) := v]> (_values n) = 1 :: (buf ++ [v]) ++ post /\
    length (<[S (length buf) := v]> (_values n)) = (size + 2)%nat /\
    (S (length buf) < length (_values n))%nat /\ _next n = None /\
    (length buf < size)%nat /\ Forall (fun v => 0 < v) (buf ++ [v]).
Proof.
  intros Hn (n' & post & Hn' & Hx & Hv & Hl & Hb & Hf) Hpos. rewrite Hn in Hn'. injection Hn' as <-.
  assert (length post = size + 1 - length buf)%nat as Hp.
  { rewrite Hv in Hl. cbn in Hl. rewrite length_app in Hl. lia. }
  destruct post as [|p post]; cbn in Hp; [lia|]. exists post.
  rewrite length_insert, Hl. split_and!; [|done|lia|done|done|].
  - rewrite Hv. change (<[S (length buf) := v]> (1 :: buf ++ p :: post))
      with (1 :: <[length buf := v]> (buf ++ p :: post)).
    rewrite <- app_assoc. cbn [app]. f_equal. rewrite insert_app_r_alt, Nat.sub_diag by done. done.
  - apply Forall_app. split; [done|]. by constructor.
Qed.

(** The full array is copied into a bigger one and freed. *)
Lemma extend_ok q a n buf post (rest : list loc) :
  nodes q !! a = Some n -> _next n = None -> _values n = 1 :: buf ++ post ->
  length (_values n) = (_NODE_SIZE q + 2)%nat -> length buf = _NODE_SIZE q ->
  Forall (fun v => 0 < v) buf ->
  (forall b, b ∈ rest -> is_Some (nodes q !! b)) -> a ∉ rest ->
  exists q' b, extend q a = Ok q' /\ _new_node q' = Some b /\ b ∉ rest /\
    filling (nodes q') b (_NODE_SIZE q') buf /\ enq_value_ary q' = S (length buf) /\
    (forall c, c ∈ rest -> nodes q' !! c = nodes q !! c) /\
    _tail q' = _tail q /\ _head q' = _head q /\ deq_value_ary q' = deq_value_ary q /\
    num_added q' = num_added q /\ num_changes q' = num_changes q.
Proof.
  intros Ha Hnx Hv Hl Hb Hf Hdom Hoff. unfold extend, get_new.
  set (b := new_loc (nodes q)).
  assert (nodes q !! b = None) as Hfr by apply new_loc_fresh.
  assert (a <> b) as Hab by congruence.
  rewrite (lookup_insert_ne _ b a), Ha, lookup_insert_eq by congruence. cbn [deref mbind res_bind _values].
  rewrite (proj2 (Nat.leb_le _ _)) by lia. cbn [mbind res_bind].
  rewrite insert_insert_eq. rewrite take_ge by lia.
  set (vs := _values n ++ drop (_NODE_SIZE q + 2) (replicate (_NODE_SIZE q + 4 + 2) junk)).
  assert (length vs = _NODE_SIZE q + 4 + 2)%nat as Hlv.
  { unfold vs. rewrite length_app, length_drop, length_replicate. lia. }
  erewrite write_ok; [|by rewrite lookup_delete_ne, lookup_insert_eq|cbn; lia].
  cbn [mbind res_bind]. eexists _, b. split; [reflexivity|]. cbn [_new_node].
  assert (b ∉ rest) as Hbr by (intros H; destruct (Hdom b H); congruence).
  split; [done|]. split; [done|]. split; [|split; [cbn; by rewrite Hb|split; [|done]]].
  - eexists _, _. cbn [nodes _NODE_SIZE]. split; [apply lookup_insert_eq|]. cbn [_next _values].
    split; [done|]. split.
    + cbn. unfold vs. rewrite Hv. cbn. rewrite <- app_assoc. reflexivity.
    + cbn. rewrite length_insert. split_and!; [lia|lia|done].
  - intros c Hc. cbn. assert (c <> a) by (intros ->; done). assert (c <> b) by (intros ->; done).
    rewrite lookup_insert_ne, lookup_delete_ne, lookup_insert_ne by done. done.
Qed.

Lemma serve_add_ok q rest cs c0 a old buf v : active q rest cs c0 a old buf -> 0 < v ->
  exists q' a', serve_add q v = Ok (q', _NULL_VALUE) /\ active q' rest cs c0 a' old (buf ++ [v]).
Proof.
  intros Hac Hv. pose proof Hac as [Hs (tn & Ht & Hc) Hr Ho Hh Hn Hoff Hfill He Hnum].
  pose proof Hfill as (n & post0 & Hna & _).
  destruct (filling_snoc _ _ _ _ _ v Hna Hfill Hv) as (post & Hvs & Hlen & Hlt & Hnx & Hsz & Hpos).
  unfold serve_add. rewrite Hn. cbn [deref mbind res_bind].
  rewrite He, (write_ok _ _ _ _ _ Hna Hlt). cbn [mbind res_bind]. rewrite Hnum.
  set (n' := n <| _values := <[S (length buf) := v]> (_values n) |>).
  set (q1 := q <| nodes := <[a := n']> (nodes q) |> <| _length := _length q + 1 |>
               <| enq_value_ary := S (S (length buf)) |> <| num_added := S (length buf) |>
               <| num_changes := S (num_changes q) |>).
  assert (forall b, b ∈ _tail q :: rest -> nodes q1 !! b = nodes q !! b) as Hsame.
  { intros b Hb. unfold q1. cbn. rewrite lookup_insert_ne; [done|]. intros <-. done. }
  assert (nodes q1 !! a = Some n') as Hna1 by apply lookup_insert_eq.
  assert (_values n' = 1 :: (buf ++ [v]) ++ post) as Hvn by exact Hvs.
  assert (length (_values n') = (_NODE_SIZE q + 2)%nat) as Hln by exact Hlen.
  change (_NODE_SIZE q1) with (_NODE_SIZE q). change (num_added q1) with (S (length buf)).
  destruct (Nat.leb_spec (_NODE_SIZE q) (S (length buf))) as [Hfull|Hroom].
  - destruct (extend_ok q1 a n' (buf ++ [v]) post (_tail q :: rest) Hna1 Hnx Hvn Hln)
      as (q2 & b & Hx & H1 & H2 & H3 & H4 & H5 & H6 & H7 & H8 & H9 & _);
      [rewrite length_app; change (_NODE_SIZE q1) with (_NODE_SIZE q); cbn; lia|done| |done|].
    { intros b Hb. rewrite Hsame by done. by eapply (seg_dom _ _ _ _ _ _ Hs). }
    rewrite Hx. cbn [mbind res_bind]. exists q2, b. split; [done|].
    eapply (active_refill q q2); [exact Hac|done|done|done| |done|done|done|done|].
    + intros c Hcin. rewrite H5 by done. by apply Hsame.
    + rewrite H9, length_app. unfold q1. cbn. lia.
  - cbn [mbind res_bind]. exists q1, a. split; [done|].
    eapply (active_refill q q1); [exact Hac|done..|exact Hsame|done|done| | |].
    + exists n', post. rewrite length_app. cbn. split_and!; try done. lia.
    + rewrite length_app. unfold q1. cbn. lia.
    + rewrite length_app. unfold q1. cbn. lia.
Qed.

Lemma filling_delete h a b size buf : a <> b -> filling h a size buf -> filling (delete b h) a size buf.
Proof. intros Hne (n & post & Hn & H). exists n, post. by rewrite lookup_delete_ne. Qed.

Lemma serve_deq_ok fuel q rest cs c0 a old buf : active q rest cs c0 a old buf ->
  (length rest < fuel)%nat ->
  exists q' rest' cs' c0', serve_deq fuel q =
      Ok (q', match old with [] => _NULL_VALUE | x :: _ => - x end) /\
    active q' rest' cs' c0' a (tail old) buf.
Proof.
  revert q rest cs c0. induction fuel as [|fuel IH]; intros q rest cs c0 Hac Hf; [lia|].
  pose proof Hac as [Hs (tn & Ht & Hc) Hr Ho Hh Hn Hoff Hfill He Hnum]. cbn [serve_deq].
  set (q1 := q <| _length := _length q - 1 |> <| num_changes := S (num_changes q) |>).
  assert (active q1 rest cs c0 a old buf) as Hac1 by (by destruct Hac; constructor).
  change (nodes q1) with (nodes q). change (_tail q1) with (_tail q).
  change (deq_value_ary q1) with (deq_value_ary q).
  destruct c0 as [|x c0].
  - rewrite (read_content _ _ _ _ _ 0 Ht Hc eq_refl). cbn [mbind res_bind]. rewrite Z.eqb_refl.
    cbn [negb]. rewrite Ht. cbn [deref mbind res_bind].
    destruct Hs as (_ & tn' & Ht' & Hs). rewrite Ht in Ht'. injection Ht' as <-.
    pose proof (seg_NoDup _ _ _ _ (ac_seg _ _ _ _ _ _ _ Hac)) as Hnd.
    apply NoDup_cons in Hnd as [Hnd _].
    inversion Hr as [E1 E2|t' c1 rest' cs' Hf1 Hr']; subst rest cs.
    + cbn in Hs. rewrite Hs. exists q1, [], [], []. cbn in Ho. subst old. by split.
    + pose proof Hs as (Et & _). rewrite Et in Hs |- *. pose proof Hf1 as (n1 & k1 & Hn1 & Hk1 & Hc1).
      assert (read (nodes q) t' 0 = Ok (Z.of_nat k1)) as ->.
      { unfold read. rewrite Hn1. cbn. by rewrite Hk1. }
      cbn [mbind res_bind]. rewrite Nat2Z.id.
      set (q2 := q1 <| _tail := t' |> <| deq_value_ary := k1 |>
                    <| nodes := delete (_tail q) (nodes q) |>).
      assert (active q2 rest' cs' c1 a old buf) as Hac2.
      { constructor; unfold q2; cbn.
        - by apply (seg_delete _ _ (t' :: rest')).
        - exists n1. rewrite lookup_delete_ne; [done|]. intros E. apply Hnd. rewrite E. left.
        - eapply fulls_ext; [|exact Hr']. intros b Hb. rewrite lookup_delete_ne; [done|].
          intros E. apply Hnd. rewrite E. by right.
        - by rewrite Ho.
        - by rewrite last_cons_cons in Hh.
        - done.
        - by apply not_elem_of_cons in Hoff as [??].
        - apply filling_delete; [|done]. by apply not_elem_of_cons in Hoff as [? _].
        - done.
        - done. }
      apply (IH q2 rest' cs' c1 Hac2). cbn in Hf. lia.
  - pose proof Hc as (pre & post & _ & _ & _ & Hpos). apply Forall_cons in Hpos as [Hx _].
    rewrite (read_content _ _ _ _ _ x Ht Hc eq_refl). cbn [mbind res_bind].
    rewrite (proj2 (Z.eqb_neq x 0)) by lia. cbn [negb].
    eexists _, rest, cs, c0. rewrite Ho. cbn [app tail]. split; [reflexivity|].
    constructor; cbn; try done. exists tn. split; [done|]. by apply content_next in Hc.
Qed.

#[local] Instance queue_combinable : Combinable during reset serve spec_serve.
Proof.
  constructor.
  - intros q st (rest & cs & c0 & a & H). exists rest, cs, c0, a. by destruct H; constructor.
  - intros q [old buf] v (rest & cs & c0 & a & Hac). cbn [fst snd] in Hac.
    unfold serve, spec_serve. case_if; [|case_if].
    + destruct (serve_add_ok q rest cs c0 a old buf v Hac) as (q' & a' & -> & Hac').
      { by apply Z.ltb_lt. }
      exists q'. split; [done|]. by exists rest, cs, c0, a'.
    + destruct (serve_deq_ok (S (size (nodes q))) q rest cs c0 a old buf Hac)
        as (q' & rest' & cs' & c0' & -> & Hac').
      { pose proof (seg_length _ _ _ _ (ac_seg _ _ _ _ _ _ _ Hac)) as H. cbn in H. lia. }
      exists q'. destruct old as [|x old]; (split; [done|]); by exists rest', cs', c0', a.
    + exists q. split; [done|]. by exists rest, cs, c0, a.
Qed.

Lemma prepare_ok q vs : qrep q vs -> exists q', prepare q = Ok q' /\ during q' (vs, []).
Proof.
  intros (rest & cs & [Hs Hf Hv Hh Hsz Hnew]). unfold prepare.
  assert (exists h a n, match _new_node q with Some a => (nodes q, a)
      | None => get_new (_NODE_SIZE q) (nodes q) end = (h, a) /\
    a ∉ _tail q :: rest /\ h !! a = Some n /\ _next n = None /\
    length (_values n) = (_NODE_SIZE q + 2)%nat /\
    (forall b, b ∈ _tail q :: rest -> h !! b = nodes q !! b)) as
    (h & a & n & -> & Hoff & Hn & Hnx & Hlen & Hsame).
  { destruct (_new_node q) as [a|].
    - destruct Hnew as (Hoff & n & Hn & Hnx & Hlen). by exists (nodes q), a, n.
    - unfold get_new. set (a := new_loc (nodes q)).
      assert (nodes q !! a = None) as Hfr by apply new_loc_fresh.
      eexists _, a, _. split; [reflexivity|].
      assert (a ∉ _tail q :: rest) as Hoff.
      { intros Ha. destruct (seg_dom _ _ _ _ _ _ Hs Ha). congruence. }
      split_and!; [done|apply lookup_insert_eq|done|cbn; apply length_replicate|].
      intros b Hb. rewrite lookup_insert_ne; [done|]. intros <-. done. }
  rewrite (write_ok _ _ _ _ _ Hn) by lia. cbn [mbind res_bind].
  inversion Hf as [|t0 c0 ns0 cs0 (tn & k & Htn & Hk & Hc) Hr E1 E2]; subst.
  assert (forall b, b ∈ _tail q :: rest ->
    (<[a := n <| _values := <[0%nat := 1]> (_values n) |>]> h) !! b = nodes q !! b) as Hsame'.
  { intros b Hb. rewrite lookup_insert_ne; [by apply Hsame|]. intros <-. done. }
  assert (read (<[a := n <| _values := <[0%nat := 1]> (_values n) |>]> h) (_tail q) 0
    = Ok (Z.of_nat k)) as ->.
  { unfold read. rewrite Hsame' by left. rewrite Htn. cbn. by rewrite Hk. }
  cbn [mbind res_bind]. rewrite Nat2Z.id. eexists. split; [reflexivity|].
  exists rest, cs0, c0, a. constructor; cbn [nodes _tail _head _new_node _NODE_SIZE enq_value_ary
    deq_value_ary num_added fst snd].
  - eapply seg_ext; [|exact Hs]. intros b Hb. cbn. by rewrite Hsame'.
  - exists tn. cbn. rewrite Hsame' by left. done.
  - eapply fulls_ext; [|exact Hr]. intros b Hb. cbn. rewrite Hsame'; [done|]. by right.
  - done.
  - done.
  - done.
  - done.
  - destruct (_values n) as [|v vs] eqn:Ev; [cbn in Hlen; lia|].
    exists (n <| _values := 1 :: vs |>), vs. cbn. rewrite lookup_insert_eq.
    split_and!; [done|done|done|done|lia|constructor].
  - done.
  - done.
Qed.

(** After the tail has been put in order. *)
Record settled (q : queue) (rest : list loc) (cs : list (list Z)) (a : loc) (buf : list Z)
    : Prop := mk_settled {
  se_seg : seg _next (nodes q) (Some (_tail q)) (_tail q :: rest) None;
  se_full : Forall2 (full (nodes q)) (_tail q :: rest) cs;
  se_head : last (_tail q :: rest) = Some (_head q);
  se_new : _new_node q = Some a;
  se_off : a ∉ _tail q :: rest;
  se_fill : filling (nodes q) a (_NODE_SIZE q) buf;
  se_enq : enq_value_ary q = S (length buf)
}.

Lemma finish_tail_ok q old buf : during q (old, buf) ->
  exists q' rest cs a, finish_tail q = Ok q' /\ settled q' rest cs a buf /\ old = concat cs.
Proof.
  intros (rest & cs & c0 & a & [Hs (tn & Ht & Hc) Hr Ho Hh Hn Hoff Hfill He Hnum]).
  cbn [fst snd] in *. unfold finish_tail.
  assert (exists v, list.head (c0 ++ [0]) = Some v /\ (v = 0 -> c0 = [])) as (v & Hv & Hv0).
  { destruct c0 as [|x c0]; [by exists 0|]. exists x. split; [done|]. intros ->.
    destruct Hc as (? & ? & _ & _ & _ & Hp). apply Forall_cons in Hp as [Hp _]. lia. }
  rewrite (read_content _ _ _ _ _ v Ht Hc Hv). cbn [mbind res_bind]. rewrite Ht.
  cbn [deref mbind res_bind]. pose proof (seg_NoDup _ _ _ _ Hs) as Hnd.
  apply NoDup_cons in Hnd as [Hnd _]. pose proof Hoff as [Hat Har]%not_elem_of_cons.
  (* the index is stored *)
  assert (exists q' rest cs a, (h ← write (nodes q) (_tail q) 0 (Z.of_nat (deq_value_ary q));
    Ok (q <| nodes := h |>)) = Ok q' /\ settled q' rest cs a buf /\ old = concat cs) as Hstore.
  { rewrite (write_ok _ _ _ _ _ Ht) by (by eapply content_length). cbn [mbind res_bind].
    eexists _, rest, (c0 :: cs), a. split; [reflexivity|]. split; [|done].
    constructor; cbn [nodes _tail _head _new_node _NODE_SIZE enq_value_ary]; try done.
    - eapply (seg_insert_same _ _ (_tail q :: rest)); done.
    - constructor.
      + eexists _, (deq_value_ary q). split; [apply lookup_insert_eq|]. cbn.
        split; [|by apply content_set0]. pose proof (content_length _ _ _ Hc) as Hl.
        by destruct (_values tn); [cbn in Hl; lia|].
      + eapply fulls_ext; [|exact Hr]. intros b Hb. cbn. rewrite lookup_insert_ne; [done|].
        intros <-. done.
    - destruct Hfill as (n & post & Hna & Hx). exists n, post. cbn. by rewrite lookup_insert_ne. }
  destruct (_next tn) as [t'|] eqn:Ent; [|exact Hstore].
  destruct (Z.eqb_spec v 0) as [Ev|]; [|exact Hstore]. clear Hstore.
  rewrite (Hv0 Ev) in *. destruct Hs as (_ & tn' & Ht' & Hs). rewrite Ht in Ht'.
  injection Ht' as <-. rewrite Ent in Hs.
  inversion Hr as [E1 E2|t1 c1 rest' cs' Hf1 Hr']; subst rest cs; [by cbn in Hs|].
  pose proof Hs as ([= <-] & _).
  eexists _, rest', (c1 :: cs'), a. split; [reflexivity|]. split; [|done].
  constructor; cbn [nodes _tail _head _new_node _NODE_SIZE enq_value_ary]; try done.
  - apply (seg_delete _ _ (t' :: rest')); done.
  - eapply fulls_ext; [|exact Hr]. intros b Hb. cbn. rewrite lookup_delete_ne; [done|].
    intros <-. done.
  - by apply filling_delete.
Qed.

Lemma finish_link_ok q rest cs a buf : settled q rest cs a buf ->
  exists q', finish_link q = Ok q' /\ qrep q' (concat cs ++ buf).
Proof.
  intros [Hs Hf Hh Hn Hoff Hfill He]. unfold finish_link. rewrite Hn. cbn [deref mbind res_bind].
  rewrite He. destruct Hfill as (n & post & Hna & Hnx & Hv & Hlen & Hsz & Hpos).
  destruct buf as [|b0 buf'].
  { rewrite bool_decide_eq_true_2 by done. exists q. split; [done|]. exists rest, cs.
    rewrite app_nil_r. constructor; try done. rewrite Hn. split; [done|]. by exists n. }
  set (buf := b0 :: buf') in *. rewrite bool_decide_eq_false_2 by (unfold buf; cbn; lia).
  rewrite (write_ok _ _ _ _ _ Hna) by lia. cbn [mbind res_bind].
  destruct (exists_last (l := _tail q :: rest)) as (L & hd & EL); [done|].
  rewrite EL, last_snoc in Hh. injection Hh as ->.
  assert (_head q ∈ _tail q :: rest) as Hin by (rewrite EL; apply elem_of_app; right; left).
  destruct (seg_dom _ _ _ _ _ _ Hs Hin) as [hn Hhn].
  assert (_head q <> a) as Hha by (intros E; rewrite E in Hin; done).
  rewrite lookup_insert_ne, Hhn by done. cbn [deref mbind res_bind].
  eexists. split; [reflexivity|]. exists (rest ++ [a]), (cs ++ [buf]).
  set (n' := n <| _values := <[S (length buf) := 0]> (_values n) |>).
  set (hn' := hn <| _next := Some a |>).
  assert (full (<[_head q := hn']> (<[a := n']> (nodes q))) a buf) as Hfa.
  { exists n', 1%nat. rewrite lookup_insert_ne, lookup_insert_eq by done. split; [done|].
    assert (exists post', _values n' = [1] ++ buf ++ 0 :: post') as [post' E'].
    { unfold n'. cbn [_values]. rewrite Hv in Hlen |- *. cbn in Hlen. rewrite length_app in Hlen.
      destruct post as [|p post]; [unfold buf in *; cbn in *; lia|]. exists post.
      change (1 :: <[length buf := 0]> (buf ++ p :: post) = [1] ++ buf ++ 0 :: post).
      by rewrite insert_app_r_alt, Nat.sub_diag by done. }
    rewrite E'. split; [done|]. exists [1], post'. by split_and!. }
  constructor; cbn [nodes _tail _head _new_node _NODE_SIZE].
  - change (seg _next (<[_head q := hn']> (<[a := n']> (nodes q))) (Some (_tail q))
      ((_tail q :: rest) ++ [a]) None). rewrite EL. apply seg_app. exists (Some a). split.
    + eapply seg_relink; [|rewrite EL in Hs; apply seg_NoDup in Hs|by rewrite lookup_insert_ne|done].
      * apply seg_insert_ne; [by rewrite <- EL|]. rewrite EL in Hs. exact Hs.
      * apply NoDup_app in Hs as (_ & Hd & _). intros H. apply (Hd _ H). left.
    + split; [done|]. exists n'. rewrite lookup_insert_ne, lookup_insert_eq by done. done.
  - change (Forall2 (full (<[_head q := hn']> (<[a := n']> (nodes q))))
      ((_tail q :: rest) ++ [a]) (cs ++ [buf])). apply Forall2_app; [|by constructor].
    eapply fulls_ext; [|exact Hf]. intros b Hb. destruct (decide (b = _head q)) as [->|Hne].
    + by rewrite lookup_insert_eq, Hhn.
    + rewrite !lookup_insert_ne; [done| |done]. intros <-. done.
  - by rewrite concat_app; cbn; rewrite app_nil_r.
  - change (last ((_tail q :: rest) ++ [a]) = Some a). apply last_snoc.
  - cbn; lia.
  - done.
Qed.

Lemma combining_ok reps thr post q vs slots : qrep q vs ->
  exists k q', (k <= reps)%nat /\ (0 < reps -> 0 < k)%nat /\
    flat_combining reps thr post q slots =
      Ok (q', (spec_rounds spec_serve k post (vs, []) slots).2) /\
    qrep q' ((spec_rounds spec_serve k post (vs, []) slots).1.1 ++
             (spec_rounds spec_serve k post (vs, []) slots).1.2).
Proof.
  intros Hq. destruct (prepare_ok q vs Hq) as (q1 & Hp & H1).
  destruct (rounds_refine (fun q _ => (num_changes q <? thr)%nat) reps post q1 (vs, []) slots H1)
    as (k & q2 & Hk & Hr & H2 & Hpos & _).
  exists k. destruct (spec_rounds spec_serve k post (vs, []) slots) as [[old buf] answers].
  cbn [fst snd] in *. destruct (finish_tail_ok q2 old buf H2) as (q3 & rest & cs & a & Ht & H3 & ->).
  destruct (finish_link_ok q3 rest cs a buf H3) as (q4 & Hl & H4).
  exists q4. split_and!; [done..| |done].
  unfold flat_combining, finish. rewrite Hp. cbn [mbind res_bind]. rewrite Hr. cbn [mbind res_bind].
  rewrite Ht. cbn [mbind res_bind]. by rewrite Hl.
Qed.

(** The constructor makes the empty queue. *)
Lemma new_FCQueue_rep n : qrep (new_FCQueue n) [].
Proof.
  unfold new_FCQueue, get_new. set (a := new_loc ∅). set (nd := mkNode _ (1 :: _)).
  exists [], [[]]. constructor; cbn [nodes _tail _head _new_node _NODE_SIZE]; try done; [| |lia].
  - split; [done|]. exists nd. split; [apply lookup_insert_eq|done].
  - constructor; [|done]. exists nd, 1%nat. split; [apply lookup_insert_eq|]. split; [done|].
    exists [1], (replicate n junk). by split_and!.
Qed.

(** C17. A pass of the combiner terminates without touching memory it does not
    own, serves at least one round, and answers each request as a first-in
    first-out queue does in which what this pass enqueues becomes visible when
    the pass ends; the arrays that are full, exhausted or being filled are
    bookkeeping only. *)
Theorem fcqueue_combines reps thr post q vs slots : qrep q vs ->
  exists k q', (k <= reps)%nat /\ (0 < reps -> 0 < k)%nat /\
    flat_combining reps thr post q slots =
      Ok (q', (spec_rounds spec_serve k post (vs, []) slots).2) /\
    qrep q' ((spec_rounds spec_serve k post (vs, []) slots).1.1 ++
             (spec_rounds spec_serve k post (vs, []) slots).1.2).
Proof. apply combining_ok. Qed.

End queue.

Lemma fcqueue_combines_witness : exists k q', (k <= 1)%nat /\ (0 < 1 -> 0 < k)%nat /\
  flat_combining 0 1 4 id (new_FCQueue 0 4) [5; _DEQ_VALUE; 7; 9] =
    Ok (q', (spec_rounds spec_serve k id ([], []) [5; _DEQ_VALUE; 7; 9]).2) /\
  qrep q' ((spec_rounds spec_serve k id ([], []) [5; _DEQ_VALUE; 7; 9]).1.1 ++
           (spec_rounds spec_serve k id ([], []) [5; _DEQ_VALUE; 7; 9]).1.2).
Proof.
  exact (fcqueue_combines 0 1 4 id (new_FCQueue 0 4) [] [5; _DEQ_VALUE; 7; 9] (new_FCQueue_rep 0 4)).
Defined.

(** What a queue that makes each value visible at once answers. *)
Definition fifo_serve (st : list Z) (v : Z) : list Z * Z :=
  if is_add v then (st ++ [v], _NULL_VALUE)
  else if is_deq v then
    match st with [] => ([], _NULL_VALUE) | x :: st' => (st', - x) end
  else (st, v).

(** A pass of two rounds can answer "empty" to a request that follows a
    completed enqueue: with two threads, both enqueue in the first round and
    have their answers when the second of them asks for a value in the second
    round.  It is told that the queue is empty, and the pass leaves both values
    in the queue and a length of 1. *)
Theorem fcqueue_empty_answer junk :
  exists q, flat_combining junk 2 2 (insert 1%nat _DEQ_VALUE) (new_FCQueue junk 2) [5; 7]
      = Ok (q, [[0; 0]; [0; 0]]) /\
    qrep q [5; 7] /\ _length q = 1 /\
    (spec_rounds fifo_serve 2 (insert 1%nat _DEQ_VALUE) [] [5; 7]).2 = [[0; 0]; [0; -5]].
Proof.
  destruct (combining_ok junk 2 2 (insert 1%nat _DEQ_VALUE) _ _ [5; 7] (new_FCQueue_rep junk 2))
    as (k & q & Hk & Hpos & Hf & Hq).
  assert (exists q', flat_combining junk 2 2 (insert 1%nat _DEQ_VALUE) (new_FCQueue junk 2) [5; 7]
    = Ok (q', [[0; 0]; [0; 0]]) /\ _length q' = 1) as (q' & Hrun & Hlen).
  { eexists. split; [vm_compute; reflexivity|reflexivity]. }
  rewrite Hrun in Hf. injection Hf as <- Ha. exists q'. split_and!; [done| |done|reflexivity].
  destruct k as [|[|[|k]]]; [lia|discriminate|exact Hq|lia].
Qed.

End FQ.
