(* ===== verification/LockFree.v ===== *)
(** Lock-free objects: threads that share memory through atomic reads, writes
    and compare-and-set.

    [tstep] is one atomic step of an operation; the system interleaves the
    steps of any number of threads, in sequentially consistent memory.  The
    specification is an object on which every call takes effect at one moment
    between its invocation and its response; a call that changes nothing may
    fix its answer at any such moment.  [Linearizable] states, for one thread at
    a time, what an implementation has to show; [lin_refines] derives the
    simulation of whole executions from it.  The stack of LockFreeStack and the
    queue of MSQueue are its instances. *)
From S2P Require Import Prelude.
From S2P Require Import PtrList.

Abbreviation tid := positive.

(** A thread that keeps its private nodes. *)
Lemma keep_private (P m : gset loc) : m ⊆ P -> P ∖ m ∪ m = P.
Proof. intros Hm. rewrite difference_union_L. set_solver. Qed.

Lemma none_private (P : gset loc) : P ∖ ∅ ∪ ∅ = P.
Proof. set_solver. Qed.

(** ** Executions *)
Section system.
Context {Sh Pc Op : Type} (entry : Op -> Pc) (tstep : Sh -> Op -> Pc -> res (Sh * (Pc + Z))).

Inductive tstat := Idle | Run (o : Op) (k : Pc) | Done (r : Z).

Record sys := mkSys { shared : Sh; thr : gmap tid tstat }.

Inductive label := Tau | Invoke (t : tid) (o : Op) | Respond (t : tid) (r : Z).

Definition after (x : Pc + Z) (o : Op) : tstat :=
  match x with inl k => Run o k | inr r => Done r end.

Inductive step : sys -> label -> sys -> Prop :=
| step_invoke s t o : thr s !! t = Some Idle ->
    step s (Invoke t o) (mkSys (shared s) (<[t := Run o (entry o)]> (thr s)))
| step_run s t o k sh' x : thr s !! t = Some (Run o k) -> tstep (shared s) o k = Ok (sh', x) ->
    step s Tau (mkSys sh' (<[t := after x o]> (thr s)))
| step_respond s t r : thr s !! t = Some (Done r) ->
    step s (Respond t r) (mkSys (shared s) (<[t := Idle]> (thr s))).

(** Schedules: executions as data. *)
Inductive act := Call (t : tid) (o : Op) | Go (t : tid) | Ret (t : tid).

Definition play1 (a : act) (s : sys) : option (list label * sys) :=
  match a with
  | Call t o =>
      match thr s !! t with
      | Some Idle => Some ([Invoke t o], mkSys (shared s) (<[t := Run o (entry o)]> (thr s)))
      | _ => None
      end
  | Go t =>
      match thr s !! t with
      | Some (Run o k) =>
          match tstep (shared s) o k with
          | Ok (sh', x) => Some ([], mkSys sh' (<[t := after x o]> (thr s)))
          | Err _ => None
          end
      | _ => None
      end
  | Ret t =>
      match thr s !! t with
      | Some (Done r) => Some ([Respond t r], mkSys (shared s) (<[t := Idle]> (thr s)))
      | _ => None
      end
  end.

Fixpoint play (acts : list act) (s : sys) : option (list label * sys) :=
  match acts with
  | [] => Some ([], s)
  | a :: acts' =>
      '(tr1, s1) ← play1 a s; '(tr2, s2) ← play acts' s1; Some (tr1 ++ tr2, s2)
  end.

(** A thread that runs alone, for at most [n] steps: its answer, if it has one. *)
Fixpoint solo (n : nat) (sh : Sh) (o : Op) (k : Pc) : res (Sh * option Z) :=
  match n with
  | O => Ok (sh, None)
  | S n' =>
      '(sh', x) ← tstep sh o k;
      match x with inl k' => solo n' sh' o k' | inr r => Ok (sh', Some r) end
  end.

Lemma solo_next n sh o k sh' k' : tstep sh o k = Ok (sh', inl k') ->
  solo (S n) sh o k = solo n sh' o k'.
Proof. intros E. cbn [solo]. by rewrite E. Qed.

Lemma solo_return n sh o k sh' r : tstep sh o k = Ok (sh', inr r) ->
  solo (S n) sh o k = Ok (sh', Some r).
Proof. intros E. cbn [solo]. by rewrite E. Qed.

(** ** The specification *)
Context {A : Type} (apply : A -> Op -> A * Z).

(** [SRun o (Some r)]: [r] was the right answer at some moment of the call. *)
Inductive sstat := SIdle | SRun (o : Op) (w : option Z) | SDone (r : Z).

Inductive sstep : A * gmap tid sstat -> label -> A * gmap tid sstat -> Prop :=
| sstep_invoke a m t o : m !! t = Some SIdle ->
    sstep (a, m) (Invoke t o) (a, <[t := SRun o None]> m)
| sstep_witness a m t o r : m !! t = Some (SRun o None) -> apply a o = (a, r) ->
    sstep (a, m) Tau (a, <[t := SRun o (Some r)]> m)
| sstep_effect a m t o w a' r : m !! t = Some (SRun o w) -> apply a o = (a', r) ->
    sstep (a, m) Tau (a', <[t := SDone r]> m)
| sstep_settle a m t o r : m !! t = Some (SRun o (Some r)) ->
    sstep (a, m) Tau (a, <[t := SDone r]> m)
| sstep_respond a m t r : m !! t = Some (SDone r) ->
    sstep (a, m) (Respond t r) (a, <[t := SIdle]> m).

(** ** What one thread has to show

    [mine k]: the nodes only this thread can reach at [k].  [Rep sh P a]: the
    shared memory represents [a], when the nodes [P] are private to some thread.
    [K sh P o k g]: what the thread knows, where the ghost [g] says whether its
    call has taken effect.  [G m sh P sh' P']: how a step of a thread that owns
    [m] may change what the others see. *)
Definition ghost : Type := option Z + Z.

Inductive trans (a : A) (o : Op) : ghost -> A -> ghost -> Prop :=
| trans_none g : trans a o g a g
| trans_witness r : apply a o = (a, r) -> trans a o (inl None) a (inl (Some r))
| trans_effect w a' r : apply a o = (a', r) -> trans a o (inl w) a' (inr r)
| trans_settle r : trans a o (inl (Some r)) a (inr r).

Definition owned (mine : Pc -> gset loc) (x : Pc + Z) : gset loc :=
  match x with inl k => mine k | inr _ => ∅ end.

Section obligations.
Context (mine : Pc -> gset loc) (Rep : Sh -> gset loc -> A -> Prop)
  (K : Sh -> gset loc -> Op -> Pc -> ghost -> Prop)
  (G : gset loc -> Sh -> gset loc -> Sh -> gset loc -> Prop).

(** One step of a thread: it succeeds, the specification follows, the others are
    told no more than [G], and new private nodes are nobody else's. *)
Definition step_ok (sh : Sh) (P : gset loc) (a : A) (o : Op) (k : Pc) (g : ghost) : Prop :=
  exists sh' x a' g', tstep sh o k = Ok (sh', x) /\ trans a o g a' g' /\
    Rep sh' (P ∖ mine k ∪ owned mine x) a' /\
    G (mine k) sh P sh' (P ∖ mine k ∪ owned mine x) /\
    (owned mine x ∖ mine k) ## P /\
    match x with
    | inl k' => K sh' (P ∖ mine k ∪ owned mine x) o k' g'
    | inr r => g' = inr r
    end.

(** A step that reads only, and keeps what the thread owns. *)
Lemma quiet_step sh P a o k k' g : (forall m, G m sh P sh P) ->
  tstep sh o k = Ok (sh, inl k') -> mine k' = mine k -> mine k ⊆ P ->
  Rep sh P a -> K sh P o k' g -> step_ok sh P a o k g.
Proof.
  intros HG Hs Hm HP HR HK. exists sh, (inl k'), a, g. cbn [owned]. rewrite Hm, keep_private by done.
  split_and!; [done|constructor|done|done|set_solver|done].
Qed.

Class Linearizable : Prop := {
  lin_entry : forall sh P o, mine (entry o) = ∅ /\ K sh P o (entry o) (inl None);
  lin_step : forall sh P a o k g, Rep sh P a -> K sh P o k g -> mine k ⊆ P ->
    step_ok sh P a o k g;
  lin_stable : forall sh P sh' P' m o k g, G m sh P sh' P' -> m ⊆ P -> mine k ⊆ P ->
    mine k ## m -> K sh P o k g -> K sh' P' o k g
}.
End obligations.

Arguments lin_entry {mine Rep K G _} sh P o.
Arguments lin_step {mine Rep K G _} sh P a o k g _ _ _.
Arguments lin_stable {mine Rep K G _} sh P sh' P' m o k g _ _ _ _ _.

(** ** The simulation *)
Context {mine : Pc -> gset loc} {Rep : Sh -> gset loc -> A -> Prop}
  {K : Sh -> gset loc -> Op -> Pc -> ghost -> Prop}
  {G : gset loc -> Sh -> gset loc -> Sh -> gset loc -> Prop} {L : Linearizable mine Rep K G}.

Definition status (sh : Sh) (P : gset loc) (c : tstat) (b : sstat) : Prop :=
  match c, b with
  | Idle, SIdle => True
  | Run o k, SRun o' w => o' = o /\ K sh P o k (inl w)
  | Run o k, SDone r => K sh P o k (inr r)
  | Done r, SDone r' => r' = r
  | _, _ => False
  end.

Definition priv (c : tstat) : gset loc := match c with Run _ k => mine k | _ => ∅ end.

Record Inv (s : sys) (a : A) (m : gmap tid sstat) (P : gset loc) : Prop := mk_inv {
  inv_rep : Rep (shared s) P a;
  inv_status : forall t, match thr s !! t, m !! t with
                         | Some c, Some b => status (shared s) P c b
                         | None, None => True
                         | _, _ => False
                         end;
  inv_priv : forall t c, thr s !! t = Some c -> priv c ⊆ P;
  inv_disj : forall t u c d, thr s !! t = Some c -> thr s !! u = Some d -> t <> u ->
    priv c ## priv d
}.

Inductive sstar : A * gmap tid sstat -> list label -> A * gmap tid sstat -> Prop :=
| sstar_nil s : sstar s [] s
| sstar_tau s s1 s2 tr : sstep s Tau s1 -> sstar s1 tr s2 -> sstar s tr s2
| sstar_vis s s1 s2 l tr : l <> Tau -> sstep s l s1 -> sstar s1 tr s2 -> sstar s (l :: tr) s2.

Inductive star : sys -> list label -> sys -> Prop :=
| star_nil s : star s [] s
| star_tau s s1 s2 tr : step s Tau s1 -> star s1 tr s2 -> star s tr s2
| star_vis s s1 s2 l tr : l <> Tau -> step s l s1 -> star s1 tr s2 -> star s (l :: tr) s2.

Lemma play_star acts s tr s' : play acts s = Some (tr, s') -> star s tr s'.
Proof using Type.
  clear L. revert s tr. induction acts as [|a acts IH]; intros s tr H; cbn [play] in H.
  { injection H as <- <-. constructor. }
  destruct (play1 a s) as [[tr1 s1]|] eqn:H1; [|done]. cbn in H.
  destruct (play acts s1) as [[tr2 s2]|] eqn:H2; [|done]. cbn in H. injection H as <- <-.
  apply IH in H2. destruct a as [t o|t|t]; cbn in H1;
    destruct (thr s !! t) as [[|o' k|r]|] eqn:Et; try done.
  - injection H1 as <- <-. eapply star_vis; [done|by apply step_invoke|done].
  - destruct (tstep (shared s) o' k) as [[sh' x]|] eqn:Ek; [|done]. injection H1 as <- <-.
    eapply star_tau; [by eapply step_run|done].
  - injection H1 as <- <-. eapply star_vis; [done|by apply step_respond|done].
Qed.

(** The thread [t] is at [c] and the specification has it at [b]. *)
Lemma inv_at s a m P t c : Inv s a m P -> thr s !! t = Some c ->
  exists b, m !! t = Some b /\ status (shared s) P c b.
Proof.
  intros Hi Ht. pose proof (inv_status _ _ _ _ Hi t) as Hs. rewrite Ht in Hs.
  destruct (m !! t) as [b|]; [eauto|done].
Qed.

(** Only thread [t] moves, and its private nodes stay its own. *)
Lemma inv_update s a m P t c c' b' sh' a' P' : Inv s a m P -> thr s !! t = Some c ->
  Rep sh' P' a' -> status sh' P' c' b' -> priv c' ⊆ P' -> P ∖ priv c ⊆ P' -> (priv c' ∖ priv c) ## P ->
  (forall u o k g, u <> t -> thr s !! u = Some (Run o k) -> K (shared s) P o k g -> K sh' P' o k g) ->
  Inv (mkSys sh' (<[t := c']> (thr s))) a' (<[t := b']> m) P'.
Proof.
  intros Hi Ht HI Hs Hp Hsub Hfr Hst. pose proof Hi as [_ Hss Hpr Hdj].
  assert (forall u d, u <> t -> thr s !! u = Some d -> priv d ⊆ P' /\ priv c' ## priv d) as Hoth.
  { intros u d Hne Hd. pose proof (Hpr u d Hd). pose proof (Hdj t u c d Ht Hd (not_eq_sym Hne)).
    set_solver. }
  constructor; cbn [shared thr]; [done| | |].
  - intros u. destruct (decide (u = t)) as [->|Hne]; [by rewrite !lookup_insert_eq|].
    rewrite !lookup_insert_ne by done. specialize (Hss u).
    destruct (thr s !! u) as [d|] eqn:Ed, (m !! u) as [b|]; try done.
    destruct d, b; cbn in *; try done.
    + destruct Hss as [-> Hk]. eauto.
    + eauto.
  - intros u d. destruct (decide (u = t)) as [->|Hne].
    + rewrite lookup_insert_eq. by intros [= <-].
    + rewrite lookup_insert_ne by done. intros Hd. by apply (Hoth u).
  - intros u v d d' Hd Hd' Huv. destruct (decide (u = t)) as [->|Hu].
    + rewrite lookup_insert_eq in Hd. injection Hd as <-. rewrite lookup_insert_ne in Hd' by done.
      by apply (Hoth v).
    + rewrite lookup_insert_ne in Hd by done. destruct (decide (v = t)) as [->|Hv].
      * rewrite lookup_insert_eq in Hd'. injection Hd' as <-. symmetry. by apply (Hoth u).
      * rewrite lookup_insert_ne in Hd' by done. by apply (Hdj u v).
Qed.

(** The specification follows a transition of the ghost. *)
Definition sstat_of (o : Op) (g : ghost) : sstat :=
  match g with inl w => SRun o w | inr r => SDone r end.

Lemma follow a m t o g a' g' tr z : m !! t = Some (sstat_of o g) -> trans a o g a' g' ->
  sstar (a', <[t := sstat_of o g']> m) tr z -> sstar (a, m) tr z.
Proof.
  intros Hm Ht Hz. destruct Ht as [g|r Ha|w a' r Ha|r]; cbn [sstat_of] in *.
  - by rewrite insert_id in Hz.
  - eapply sstar_tau; [by eapply sstep_witness|done].
  - eapply sstar_tau; [by eapply sstep_effect|done].
  - eapply sstar_tau; [by eapply sstep_settle|done].
Qed.

Lemma status_run sh P o k b : status sh P (Run o k) b ->
  exists g, b = sstat_of o g /\ K sh P o k g.
Proof.
  destruct b as [|o' w|r]; cbn; [done|intros [-> Hk]|intros Hk]; [by exists (inl w)|by exists (inr r)].
Qed.

(** One step of the system, and the specification follows. *)
Lemma step_follows s l s' a m P : Inv s a m P -> step s l s' ->
  exists a' m' P', Inv s' a' m' P' /\
    forall tr z, sstar (a', m') tr z ->
      sstar (a, m) (match l with Tau => tr | _ => l :: tr end) z.
Proof.
  intros Hi Hs. inversion Hs as [s0 t o Ht|s0 t o k sh' x Ht Hk|s0 t r Ht]; subst.
  - destruct (inv_at _ _ _ _ _ _ Hi Ht) as ([] & Hm & Hst); try done.
    exists a, (<[t := SRun o None]> m), P. split.
    + destruct (lin_entry (shared s) P o) as [He HK].
      eapply (inv_update s a m P t Idle); try done; [apply Hi|cbn; rewrite ?He; set_solver..].
    + intros tr z Hz. eapply sstar_vis; [done|by apply sstep_invoke|done].
  - destruct (inv_at _ _ _ _ _ _ Hi Ht) as (b & Hm & Hst).
    apply status_run in Hst as (g & -> & HK).
    pose proof (inv_priv _ _ _ _ Hi t _ Ht) as Hp. cbn in Hp.
    destruct (lin_step (shared s) P a o k g (inv_rep _ _ _ _ Hi) HK Hp)
      as (sh1 & x1 & a' & g' & Hk' & Htr & HI & HG & Hfr & Hx).
    rewrite Hk in Hk'. injection Hk' as <- <-.
    exists a', (<[t := sstat_of o g']> m), (P ∖ mine k ∪ owned mine x). split.
    + eapply (inv_update s a m P t (Run o k)); try done.
      * destruct x as [k'|r]; cbn in Hx |- *; [by destruct g'|by subst g'].
      * destruct x; cbn; set_solver.
      * cbn. set_solver.
      * destruct x; cbn in *; set_solver.
      * intros u o' k' g0 Hne Hu HK'. eapply lin_stable; [exact HG|done| | |exact HK'].
        -- apply (inv_priv _ _ _ _ Hi u _ Hu).
        -- apply (inv_disj _ _ _ _ Hi u t _ _ Hu Ht Hne).
    + intros tr z Hz. by eapply follow.
  - destruct (inv_at _ _ _ _ _ _ Hi Ht) as ([] & Hm & Hst); try done. cbn in Hst. subst.
    exists a, (<[t := SIdle]> m), P. split.
    + eapply (inv_update s a m P t (Done r)); try done; [apply Hi|cbn; set_solver..].
    + intros tr z Hz. eapply sstar_vis; [done|by apply sstep_respond|done].
Qed.

(** Executions of the system are executions of the specification, and no thread
    ever runs into an error. *)
Lemma lin_refines s tr s' a m P : Inv s a m P -> star s tr s' ->
  exists a' m' P', Inv s' a' m' P' /\ sstar (a, m) tr (a', m').
Proof.
  intros Hi Hs. revert a m P Hi. induction Hs as [s|s s1 s2 tr H1 _ IH|s s1 s2 l tr Hl H1 _ IH];
    intros a m P Hi.
  - exists a, m, P. split; [done|constructor].
  - destruct (step_follows _ _ _ _ _ _ Hi H1) as (a1 & m1 & P1 & Hi1 & Hf).
    destruct (IH a1 m1 P1 Hi1) as (a2 & m2 & P2 & Hi2 & Hs2). exists a2, m2, P2.
    split; [done|]. by apply (Hf tr).
  - destruct (step_follows _ _ _ _ _ _ Hi H1) as (a1 & m1 & P1 & Hi1 & Hf).
    destruct (IH a1 m1 P1 Hi1) as (a2 & m2 & P2 & Hi2 & Hs2). exists a2, m2, P2.
    split; [done|]. apply Hf in Hs2. by destruct l.
Qed.

Lemma lin_safe s a m P t o k : Inv s a m P -> thr s !! t = Some (Run o k) ->
  exists r, tstep (shared s) o k = Ok r.
Proof.
  intros Hi Ht. destruct (inv_at _ _ _ _ _ _ Hi Ht) as (b & _ & Hst).
  apply status_run in Hst as (g & _ & HK).
  destruct (lin_step (shared s) P a o k g (inv_rep _ _ _ _ Hi) HK (inv_priv _ _ _ _ Hi t _ Ht))
    as (sh1 & x1 & _ & _ & Hk & _). eauto.
Qed.

(** Nobody has called yet. *)
Lemma inv_start sh a (T : gset tid) : Rep sh ∅ a ->
  Inv (mkSys sh (gset_to_gmap Idle T)) a (gset_to_gmap SIdle T) ∅.
Proof using Type.
  clear L. intros HI. constructor; cbn [shared thr]; [done| | |].
  - intros t. rewrite !lookup_gset_to_gmap. by case_guard.
  - intros t c [_ <-]%lookup_gset_to_gmap_Some. done.
  - intros t u c d [_ <-]%lookup_gset_to_gmap_Some _ _. cbn. set_solver.
Qed.

End system.

Arguments Inv {Sh Pc Op A} mine Rep K s a m P : rename.
