(* ===== verification/LockFreeStack.v ===== *)
(** The lock-free stack ([testProject/data_structures/LFStack.h]).

    A thread links its node in with one compare-and-set of the top, or unlinks
    the top node with one.  Nodes are never freed, so a pointer once read stays
    valid and the top cannot return to a node it has left.  The delays between
    attempts are not modelled: they touch nothing shared. *)
From S2P Require Import Prelude.
From S2P Require Import PtrList.
From S2P Require Import LockFree.

Module LFStack.

Record Node := mkNode { _value : Z; _next : option loc }.

Record stack := mkStack { nodes : gmap loc Node; _top : option loc }.

(** The constructor. *)
Definition new_LFStack : stack := mkStack ∅ None.

Inductive op := Add (inValue : Z) | Remove.

(** The points of [add] and [remove] between two accesses to shared memory. *)
Inductive pc :=
| AddNew                                  (* nd = new Node(inValue) *)
| AddRead (nd : loc)                      (* curr_top = _top *)
| AddLink (nd : loc) (curr_top : option loc)  (* nd->_next = curr_top *)
| AddCas (nd : loc) (curr_top : option loc)
| RemRead                                 (* curr_top = _top *)
| RemNext (curr_top : loc)                (* curr_top->_next *)
| RemCas (curr_top : loc) (next : option loc)
| RemValue (curr_top : loc).              (* return curr_top->_value *)

Definition entry (o : op) : pc := match o with Add _ => AddNew | Remove => RemRead end.

(** [_top.compareAndSet(exp, new)] *)
Definition compareAndSet (s : stack) (exp new : option loc) : option stack :=
  if decide (_top s = exp) then Some (s <| _top := new |>) else None.

Definition tstep (s : stack) (o : op) (k : pc) : res (stack * (pc + Z)) :=
  match k with
  | AddNew =>
      match o with
      | Add inValue =>
          let nd := new_loc (nodes s) in
          Ok (s <| nodes := <[nd := mkNode inValue None]> (nodes s) |>, inl (AddRead nd))
      | Remove => undefined
      end
  | AddRead nd => Ok (s, inl (AddLink nd (_top s)))
  | AddLink nd curr_top =>
      n ← deref (nodes s !! nd);
      Ok (s <| nodes := <[nd := n <| _next := curr_top |>]> (nodes s) |>, inl (AddCas nd curr_top))
  | AddCas nd curr_top =>
      match compareAndSet s curr_top (Some nd) with
      | Some s' => Ok (s', inr 1)
      | None => Ok (s, inl (AddRead nd))
      end
  | RemRead =>
      match _top s with
      | None => Ok (s, inr 0)
      | Some curr_top => Ok (s, inl (RemNext curr_top))
      end
  | RemNext curr_top => n ← deref (nodes s !! curr_top); Ok (s, inl (RemCas curr_top (_next n)))
  | RemCas curr_top next =>
      match compareAndSet s (Some curr_top) next with
      | Some s' => Ok (s', inl (RemValue curr_top))
      | None => Ok (s, inl RemRead)
      end
  | RemValue curr_top => n ← deref (nodes s !! curr_top); Ok (s, inr (_value n))
  end.

(** The specification: a list, its top first; [add] answers true. *)
Definition apply (st : list Z) (o : op) : list Z * Z :=
  match o, st with
  | Add v, _ => (v :: st, 1)
  | Remove, [] => ([], 0)
  | Remove, x :: st' => (st', x)
  end.

(** ** The proof, one thread at a time *)
Definition mine (k : pc) : gset loc :=
  match k with AddRead nd | AddLink nd _ | AddCas nd _ => {[nd]} | _ => ∅ end.

Definition Rep (s : stack) (P : gset loc) (st : list Z) : Prop :=
  exists ns, seg _next (nodes s) (_top s) ns None /\ vals_of _value (nodes s) ns st /\
    (forall b, b ∈ ns -> b ∉ P) /\ P ⊆ dom (nodes s).

(** Node [b] is visible to all, and nobody writes to it any more. *)
Definition public (s : stack) (P : gset loc) (b : loc) (n : Node) : Prop :=
  nodes s !! b = Some n /\ b ∉ P.

Definition K (s : stack) (P : gset loc) (o : op) (k : pc) (g : ghost) : Prop :=
  match k with
  | AddNew => (exists v, o = Add v) /\ g = inl None
  | AddRead nd | AddLink nd _ =>
      exists n, nodes s !! nd = Some n /\ o = Add (_value n) /\ g = inl None
  | AddCas nd curr_top =>
      exists n, nodes s !! nd = Some n /\ o = Add (_value n) /\ _next n = curr_top /\ g = inl None
  | RemRead => o = Remove /\ g = inl None
  | RemNext c => exists n, public s P c n /\ o = Remove /\ g = inl None
  | RemCas c next => exists n, public s P c n /\ _next n = next /\ o = Remove /\ g = inl None
  | RemValue c => exists n, public s P c n /\ g = inr (_value n)
  end.

Definition G (m : gset loc) (s : stack) (P : gset loc) (s' : stack) (P' : gset loc) : Prop :=
  (forall b n, nodes s !! b = Some n -> b ∉ m -> nodes s' !! b = Some n) /\
  (forall b, is_Some (nodes s !! b) -> b ∉ P -> b ∉ P').

Lemma stack_G_refl m s P P' : P' ⊆ P -> G m s P s P'.
Proof. intros HP. split; [done|]. set_solver. Qed.

Lemma G_top m s P P' top : P' ⊆ P -> G m s P (s <| _top := top |>) P'.
Proof. intros HP. split; [done|]. set_solver. Qed.

Lemma stack_public_stable m s P s' P' b n : G m s P s' P' -> m ⊆ P -> public s P b n -> public s' P' b n.
Proof. intros [H1 H2] Hm [Hb Hn]. split; [apply H1; [done|set_solver]|apply H2; [by eexists|done]]. Qed.

Lemma stack_K_stable s P s' P' m o k g : G m s P s' P' -> m ⊆ P -> mine k ⊆ P -> mine k ## m ->
  K s P o k g -> K s' P' o k g.
Proof.
  intros HG Hm Hk Hd. pose proof HG as [H1 _].
  destruct k; cbn in *; try done; intros (n & Hn & Hr); exists n; (split; [|done]);
    first [apply H1; [done|set_solver]|by eapply stack_public_stable].
Qed.

(** The top of the representation. *)
Lemma Rep_top s P st c : Rep s P st -> _top s = Some c ->
  exists n st', public s P c n /\ st = _value n :: st' /\
    forall top, top = _next n -> Rep (s <| _top := top |>) P st'.
Proof.
  intros (ns & Hs & Hv & Hp & HP) Ht. rewrite Ht in Hs. destruct ns as [|b ns]; [by cbn in Hs|].
  destruct Hs as ([= <-] & n & Hn & Hs). inversion Hv as [|? x ? st' Hx Hv']; subst.
  rewrite Hn in Hx. injection Hx as <-. exists n, st'. split_and!; [|done|].
  - split; [done|]. apply Hp. left.
  - intros top ->. exists ns. cbn. split_and!; try done. intros b' Hb'. apply Hp. by right.
Qed.

Lemma Rep_empty s P st : Rep s P st -> _top s = None -> st = [].
Proof.
  intros (ns & Hs & Hv & _) Ht. rewrite Ht in Hs. destruct ns; [by inversion Hv|by destruct Hs].
Qed.

(** Writing to a private node. *)
Lemma Rep_write s P st a n P' : Rep s P st -> (nodes s !! a = None \/ a ∈ P) ->
  P' ⊆ P ∪ {[a]} -> Rep (s <| nodes := <[a := n]> (nodes s) |>) P' st.
Proof.
  intros (ns & Hs & Hv & Hp & HP) Ha HP'. exists ns. cbn.
  assert (a ∉ ns) as Hns.
  { intros Hin. destruct Ha as [Ha|Ha]; [|by eapply Hp].
    destruct (seg_dom _ _ _ _ _ _ Hs Hin). congruence. }
  split_and!; [by apply seg_insert_ne|by apply vals_insert_ne| |].
  - intros b Hb Hin. apply HP' in Hin. apply elem_of_union in Hin as [Hin|Hin]; [by eapply Hp|].
    apply elem_of_singleton in Hin. by subst.
  - rewrite dom_insert_L. set_solver.
Qed.

Abbreviation step_ok := (LockFree.step_ok tstep apply mine Rep K G).

Lemma stack_quiet s P st o k k' g : tstep s o k = Ok (s, inl k') -> mine k' = mine k -> mine k ⊆ P ->
  Rep s P st -> K s P o k' g -> step_ok s P st o k g.
Proof. intros. by apply quiet_step with k'. Qed.

Lemma add_new_ok s P st v : Rep s P st -> step_ok s P st (Add v) AddNew (inl None).
Proof.
  intros HR. set (nd := new_loc (nodes s)).
  assert (nodes s !! nd = None) as Hfr by apply new_loc_fresh.
  exists (s <| nodes := <[nd := mkNode v None]> (nodes s) |>), (inl (AddRead nd)), st, (inl None).
  split; [reflexivity|]. split; [constructor|].
  clearbody nd. cbn [owned mine].
  assert (nd ∉ P) as HnP.
  { intros Hin. destruct HR as (ns & _ & _ & _ & HP). apply HP, elem_of_dom in Hin as [? ?].
    congruence. }
  split_and!; [apply (Rep_write s P st nd); [done|by left|set_solver]|split|set_solver|].
  - intros b n Hb _. cbn. rewrite lookup_insert_ne; [done|]. intros ->. congruence.
  - intros b [n Hb] Hn. assert (b <> nd) by (intros ->; congruence). set_solver.
  - eexists. cbn. rewrite lookup_insert_eq. by split_and!.
Qed.

Lemma add_link_ok s P st nd c n : Rep s P st -> nodes s !! nd = Some n -> nd ∈ P ->
  step_ok s P st (Add (_value n)) (AddLink nd c) (inl None).
Proof.
  intros HR Hn Hin. eexists _, (inl (AddCas nd c)), st, (inl None).
  cbn [tstep]. rewrite Hn. split; [reflexivity|]. split; [constructor|].
  cbn [owned mine]. rewrite keep_private by set_solver.
  split_and!; [apply (Rep_write s P st nd); [done|by right|set_solver]|split; [|done]|set_solver|].
  - intros b n' Hb Hne. cbn. rewrite lookup_insert_ne; [done|set_solver].
  - eexists. cbn. rewrite lookup_insert_eq. by split_and!.
Qed.

Lemma add_cas_ok s P st nd c n : Rep s P st -> nodes s !! nd = Some n -> nd ∈ P ->
  _next n = c -> step_ok s P st (Add (_value n)) (AddCas nd c) (inl None).
Proof.
  intros HR Hn Hin Hc. destruct (decide (_top s = c)) as [E|E].
  - exists (s <| _top := Some nd |>), (inr 1), (_value n :: st), (inr 1). cbn [owned mine tstep].
    unfold compareAndSet. rewrite decide_True by done.
    split_and!; [done|by eapply trans_effect| |apply G_top; set_solver|set_solver|done].
    destruct HR as (ns & Hs & Hv & Hp & HP). exists (nd :: ns). split; [|split; [|split]].
    + split; [done|]. exists n. split; [done|]. by rewrite Hc, <- E.
    + constructor; [cbn; by rewrite Hn|done].
    + intros b [->|Hb]%elem_of_cons; [set_solver|]. specialize (Hp b Hb). set_solver.
    + cbn. set_solver.
  - apply (stack_quiet s P st _ _ (AddRead nd)); [|done|cbn; set_solver|done|].
    + cbn. unfold compareAndSet. by rewrite decide_False.
    + exists n. by split_and!.
Qed.

(** A removal whose compare-and-set succeeds has read the current successor. *)
Lemma rem_cas_ok s P st c n : Rep s P st -> public s P c n ->
  step_ok s P st Remove (RemCas c (_next n)) (inl None).
Proof.
  intros HR Hpub. destruct (decide (_top s = Some c)) as [E|E].
  - destruct (Rep_top s P st c HR E) as (n' & st' & [Hn' _] & -> & Hrest).
    pose proof Hpub as [Hn _]. rewrite Hn in Hn'. injection Hn' as <-.
    eexists _, (inl (RemValue c)), st', (inr (_value n)). cbn [owned mine tstep].
    unfold compareAndSet. rewrite decide_True by done. rewrite none_private.
    split_and!; [done|by eapply trans_effect|by apply Hrest|by apply G_top|set_solver|].
    exists n. by split.
  - apply (stack_quiet s P st _ _ RemRead); [|done|cbn; set_solver|done|done].
    cbn. unfold compareAndSet. by rewrite decide_False.
Qed.

Lemma rem_read_ok s P st : Rep s P st -> step_ok s P st Remove RemRead (inl None).
Proof.
  intros HR. destruct (_top s) as [c|] eqn:E.
  - destruct (Rep_top s P st c HR E) as (n & st' & Hp & _).
    apply (stack_quiet s P st _ _ (RemNext c)); [|done|cbn; set_solver|done|by exists n].
    cbn. by rewrite E.
  - pose proof (Rep_empty s P st HR E) as ->. exists s, (inr 0), [], (inr 0). cbn [owned mine tstep].
    rewrite E, none_private.
    split_and!; [done|by eapply trans_effect|done|by apply stack_G_refl|set_solver|done].
Qed.

#[export] Instance stack_linearizable : Linearizable entry tstep apply mine Rep K G.
Proof.
  constructor; [| |apply stack_K_stable].
  { intros sh P []; cbn; eauto. }
  intros s P st o k g HR HK Hm. change (step_ok s P st o k g). destruct k; cbn in HK, Hm.
  - destruct HK as ((v & ->) & ->). by apply add_new_ok.
  - destruct HK as (n & Hn & -> & ->).
    apply (stack_quiet s P st _ _ (AddLink nd (_top s))); try done. by exists n.
  - destruct HK as (n & Hn & -> & ->). apply add_link_ok; [done..|set_solver].
  - destruct HK as (n & Hn & -> & Hc & ->). apply add_cas_ok; [done..|set_solver|done].
  - destruct HK as (-> & ->). by apply rem_read_ok.
  - destruct HK as (n & Hp & -> & ->).
    apply (stack_quiet s P st _ _ (RemCas curr_top (_next n))); try done; [|by exists n].
    destruct Hp as [Hn _]. cbn. by rewrite Hn.
  - destruct HK as (n & Hp & <- & -> & ->). by apply rem_cas_ok.
  - destruct HK as (n & [Hn Hp] & ->). exists s, (inr (_value n)), st, (inr (_value n)).
    cbn [owned mine tstep]. rewrite Hn, none_private.
    split_and!; [done|constructor|done|by apply stack_G_refl|set_solver|done].
Qed.

(** ** Theorems *)
Definition start (T : gset tid) : @sys stack pc op := mkSys new_LFStack (gset_to_gmap Idle T).

Lemma reach_inv T tr s : star entry tstep (start T) tr s ->
  exists st m P, Inv mine Rep K s st m P /\ sstar apply ([], gset_to_gmap SIdle T) tr (st, m).
Proof.
  intros Hs. refine (lin_refines entry tstep apply _ tr s [] _ ∅ _ Hs). apply inv_start.
  exists []. split_and!; [done|constructor| |set_solver]. by intros b ?%elem_of_nil.
Qed.

(** C25. The lock-free stack is linearizable and memory safe: in every
    interleaving of any number of threads, the calls and answers are those of a
    stack on which every call takes effect at one moment between its invocation
    and its response, and no thread follows a pointer to a node that is not
    there. *)
Theorem lfstack_linearizable T tr s : star entry tstep (start T) tr s ->
  (exists st m, sstar apply ([], gset_to_gmap SIdle T) tr (st, m) /\
     exists ns, seg _next (nodes (shared s)) (_top (shared s)) ns None /\
       vals_of _value (nodes (shared s)) ns st) /\
  (forall t o k, thr s !! t = Some (Run o k) -> exists r, tstep (shared s) o k = Ok r).
Proof.
  intros Hs. destruct (reach_inv T tr s Hs) as (st & m & P & Hi & Hsp). split.
  - exists st, m. split; [done|]. destruct (inv_rep _ _ _ _ Hi) as (ns & H1 & H2 & _). eauto.
  - intros t o k Ht. exact (lin_safe entry tstep apply s st m P t o k Hi Ht).
Qed.

(** *** A thread that is left alone *)
Lemma top_cas_hit s exp new : _top s = exp -> compareAndSet s exp new = Some (s <| _top := new |>).
Proof. intros E. unfold compareAndSet. by rewrite decide_True. Qed.

Lemma top_cas_cases s exp new : compareAndSet s exp new = Some (s <| _top := new |>) \/
  compareAndSet s exp new = None.
Proof. unfold compareAndSet. case_decide; auto. Qed.

Definition returns (n : nat) (s : stack) (o : op) (k : pc) : Prop :=
  exists s' r, solo tstep n s o k = Ok (s', Some r).

Lemma returns_next n s o k s' k' : tstep s o k = Ok (s', inl k') -> returns n s' o k' ->
  returns (S n) s o k.
Proof. intros E (s1 & r & H). exists s1, r. by rewrite (solo_next _ _ _ _ _ _ _ E). Qed.

Lemma returns_now n s o k s' r : tstep s o k = Ok (s', inr r) -> returns (S n) s o k.
Proof. intros E. exists s', r. by apply solo_return. Qed.

Lemma solo_add n s o nd nn : nodes s !! nd = Some nn -> returns (S (S (S n))) s o (AddRead nd).
Proof.
  intros Hn. eapply returns_next; [done|]. eapply returns_next; [cbn; by rewrite Hn|].
  eapply returns_now. cbn [tstep]. by rewrite top_cas_hit.
Qed.

Lemma solo_value n s o c nn : nodes s !! c = Some nn -> returns (S n) s o (RemValue c).
Proof. intros Hn. eapply returns_now. cbn. by rewrite Hn. Qed.

Lemma solo_remove n s P st o : Rep s P st -> returns (S (S (S (S n)))) s o RemRead.
Proof.
  intros HR. destruct (_top s) as [c|] eqn:E.
  - destruct (Rep_top s P st c HR E) as (nn & _ & [Hn _] & _).
    eapply returns_next; [cbn; by rewrite E|]. eapply returns_next; [cbn; by rewrite Hn|].
    eapply returns_next; [cbn [tstep]; by rewrite top_cas_hit|]. by eapply solo_value.
  - eapply returns_now. cbn. by rewrite E.
Qed.

Lemma solo_add_cas n s o nd c nn : nodes s !! nd = Some nn ->
  returns (S (S (S (S n)))) s o (AddCas nd c).
Proof.
  intros Hn. destruct (top_cas_cases s c (Some nd)) as [E|E].
  - eapply returns_now. cbn [tstep]. by rewrite E.
  - eapply returns_next; [cbn [tstep]; by rewrite E|]. by eapply solo_add.
Qed.

Lemma solo_rem_cas n s P st o c nn next : Rep s P st -> nodes s !! c = Some nn ->
  returns (S (S (S (S (S n))))) s o (RemCas c next).
Proof.
  intros HR Hn. destruct (top_cas_cases s (Some c) next) as [E|E].
  - eapply returns_next; [cbn [tstep]; by rewrite E|]. by eapply solo_value.
  - eapply returns_next; [cbn [tstep]; by rewrite E|]. by eapply solo_remove.
Qed.

(** An attempt that fails is followed by one that succeeds. *)
Lemma solo_finishes s P st o k g : Rep s P st -> K s P o k g -> returns 6 s o k.
Proof.
  intros HR HK. destruct k; cbn in HK.
  - destruct HK as ((v & ->) & _). eapply returns_next; [done|].
    eapply solo_add. cbn. apply lookup_insert_eq.
  - destruct HK as (n & Hn & _). by eapply solo_add.
  - destruct HK as (n & Hn & _). eapply returns_next; [cbn; by rewrite Hn|].
    eapply solo_add_cas. cbn. apply lookup_insert_eq.
  - destruct HK as (n & Hn & _). by eapply solo_add_cas.
  - by eapply solo_remove.
  - destruct HK as (n & [Hn _] & _). eapply returns_next; [cbn; by rewrite Hn|].
    by eapply solo_rem_cas.
  - destruct HK as (n & [Hn _] & _). by eapply solo_rem_cas.
  - destruct HK as (n & [Hn _] & _). by eapply solo_value.
Qed.

(** C26. No thread of the lock-free stack can block another: in every reachable
    state, wherever the other threads have stopped, a call in progress returns
    within six steps of its own. *)
Theorem lfstack_obstruction_free T tr s t o k : star entry tstep (start T) tr s ->
  thr s !! t = Some (Run o k) -> exists sh' r, solo tstep 6 (shared s) o k = Ok (sh', Some r).
Proof.
  intros Hs Ht. destruct (reach_inv T tr s Hs) as (st & m & P & Hi & _).
  destruct (inv_at _ _ _ _ _ _ Hi Ht) as (b & _ & Hb).
  apply status_run in Hb as (g & _ & HK). eapply solo_finishes; [apply Hi|exact HK].
Qed.

(** *** Witnesses: two threads push, one fails its first attempt; a third pops *)
Definition demo_acts : list act :=
  [Call 1 (Add 5); Call 2 (Add 7); Go 1; Go 1; Go 1; Go 2; Go 2; Go 2; Go 2; Go 1;
   Ret 2; Call 2 Remove; Go 2; Go 2]%positive.
Definition demo : list label * @sys stack pc op :=
  default ([], start ∅) (play entry tstep demo_acts (start {[1; 2]}%positive)).

Lemma stack_demo_star : star entry tstep (start {[1; 2]}%positive) demo.1 demo.2.
Proof. apply (play_star entry tstep demo_acts). vm_compute. reflexivity. Qed.

Example stack_demo_trace : demo.1 = [Invoke 1 (Add 5); Invoke 2 (Add 7); Respond 2 1; Invoke 2 Remove]%positive.
Proof. vm_compute. reflexivity. Qed.

(** Its first attempt has failed. *)
Lemma demo_thread : thr demo.2 !! 1%positive = Some (Run (Add 5) (AddRead 1)).
Proof. vm_compute. reflexivity. Qed.

Lemma lfstack_linearizable_witness :
  (exists st m, sstar apply ([], gset_to_gmap SIdle {[1; 2]}%positive) demo.1 (st, m) /\
     exists ns, seg _next (nodes (shared demo.2)) (_top (shared demo.2)) ns None /\
       vals_of _value (nodes (shared demo.2)) ns st).
Proof. exact (proj1 (lfstack_linearizable _ _ _ stack_demo_star)). Defined.

Lemma lfstack_obstruction_free_witness :
  exists sh' r, solo tstep 6 (shared demo.2) (Add 5) (AddRead 1) = Ok (sh', Some r).
Proof. exact (lfstack_obstruction_free _ _ _ _ _ _ stack_demo_star demo_thread). Defined.

End LFStack.
