(* ===== verification/MSQueue.v ===== *)
(** The lock-free queue of Michael and Scott ([testProject/data_structures/MSQueue.h])
    over the stamped references of [framework/cpp_framework.h].

    A value is enqueued by linking its node behind the last one with a
    compare-and-set, after which anybody may swing the tail; it is dequeued by a
    compare-and-set of the head.  Nodes are never freed, so the chain of nodes
    only grows, and a successor once set never changes: that is what a thread
    relies on between its steps.  A stamped reference is the pair the code packs
    into a word, its stamp 16 bits wide. *)
From S2P Require Import Prelude.
From S2P Require Import PtrList.
From S2P Require Import LockFree.

Module MSQ.

(** ** AtomicStampedReference *)
Record Ref := mkRef { getReference : option loc; getStamp : Z }.
#[global] Instance Ref_eq_dec : EqDecision Ref.
Proof. solve_decision. Defined.

Definition ref_set (newReference : option loc) (newStamp : Z) : Ref :=
  mkRef newReference (newStamp mod 2 ^ 16).

Definition ref_cas (r : Ref) (expectedReference newReference : option loc)
    (expectedStamp newStamp : Z) : option Ref :=
  if decide (r = ref_set expectedReference expectedStamp)
  then Some (ref_set newReference newStamp) else None.

(** ** MSQueue *)
Record Node := mkNode { _next : Ref; _value : Z }.

Record queue := mkQueue { nodes : gmap loc Node; _head : Ref; _tail : Ref }.

Definition new_MSQueue : queue :=
  let a := new_loc (∅ : gmap loc Node) in
  mkQueue {[a := mkNode (ref_set None 0) 0]} (ref_set (Some a) 0) (ref_set (Some a) 0).

Inductive op := Add (inValue : Z) | Remove.

(** The points of [add] and [remove] between two accesses to shared memory. *)
Inductive pc :=
| EnqNew                                (* new_node = new Node(inValue) *)
| EnqTail (nd : loc)                    (* tail = _tail *)
| EnqNext (nd : loc) (tail : Ref)       (* next = tail->_next *)
| EnqCheck (nd : loc) (tail next : Ref) (* tail == _tail *)
| EnqLink (nd : loc) (tail next : Ref)
| EnqSwing (nd : loc) (tail next : Ref)
| EnqDone (nd : loc) (tail : Ref)
| DeqHead                               (* head = _head *)
| DeqTail (head : Ref)                  (* tail = _tail *)
| DeqNext (head tail : Ref)             (* next = head->_next *)
| DeqCheck (head tail next : Ref)       (* head == _head *)
| DeqSwing (tail next : Ref)
| DeqValue (head next : Ref)            (* rtrn_value = next->_value *)
| DeqCas (head next : Ref) (rtrn_value : Z).

Definition entry (o : op) : pc := match o with Add _ => EnqNew | Remove => DeqHead end.

(** [r->_next] and [r->_value] *)
Definition at_ref (s : queue) (r : Ref) : res Node :=
  a ← deref (getReference r); deref (nodes s !! a).

Definition tstep (s : queue) (o : op) (k : pc) : res (queue * (pc + Z)) :=
  match k with
  | EnqNew =>
      match o with
      | Add inValue =>
          let nd := new_loc (nodes s) in
          Ok (s <| nodes := <[nd := mkNode (ref_set None 0) inValue]> (nodes s) |>, inl (EnqTail nd))
      | Remove => undefined
      end
  | EnqTail nd => Ok (s, inl (EnqNext nd (_tail s)))
  | EnqNext nd tail => n ← at_ref s tail; Ok (s, inl (EnqCheck nd tail (_next n)))
  | EnqCheck nd tail next =>
      if decide (tail = _tail s) then
        match getReference next with
        | None => Ok (s, inl (EnqLink nd tail next))
        | Some _ => Ok (s, inl (EnqSwing nd tail next))
        end
      else Ok (s, inl (EnqTail nd))
  | EnqLink nd tail next =>
      a ← deref (getReference tail);
      n ← deref (nodes s !! a);
      match ref_cas (_next n) (getReference next) (Some nd) (getStamp next) (getStamp next + 1) with
      | Some r => Ok (s <| nodes := <[a := n <| _next := r |>]> (nodes s) |>, inl (EnqDone nd tail))
      | None => Ok (s, inl (EnqTail nd))
      end
  | EnqSwing nd tail next =>
      match ref_cas (_tail s) (getReference tail) (getReference next)
              (getStamp tail) (getStamp next + 1) with
      | Some r => Ok (s <| _tail := r |>, inl (EnqTail nd))
      | None => Ok (s, inl (EnqTail nd))
      end
  | EnqDone nd tail =>
      match ref_cas (_tail s) (getReference tail) (Some nd) (getStamp tail) (getStamp tail + 1) with
      | Some r => Ok (s <| _tail := r |>, inr 1)
      | None => Ok (s, inr 1)
      end
  | DeqHead => Ok (s, inl (DeqTail (_head s)))
  | DeqTail head => Ok (s, inl (DeqNext head (_tail s)))
  | DeqNext head tail => n ← at_ref s head; Ok (s, inl (DeqCheck head tail (_next n)))
  | DeqCheck head tail next =>
      if decide (head = _head s) then
        if decide (getReference head = getReference tail) then
          match getReference next with
          | None => Ok (s, inr 0)
          | Some _ => Ok (s, inl (DeqSwing tail next))
          end
        else Ok (s, inl (DeqValue head next))
      else Ok (s, inl DeqHead)
  | DeqSwing tail next =>
      match ref_cas (_tail s) (getReference tail) (getReference next)
              (getStamp tail) (getStamp tail + 1) with
      | Some r => Ok (s <| _tail := r |>, inl DeqHead)
      | None => Ok (s, inl DeqHead)
      end
  | DeqValue head next => n ← at_ref s next; Ok (s, inl (DeqCas head next (_value n)))
  | DeqCas head next rtrn_value =>
      match ref_cas (_head s) (getReference head) (getReference next)
              (getStamp head) (getStamp head + 1) with
      | Some r => Ok (s <| _head := r |>, inr rtrn_value)
      | None => Ok (s, inl DeqHead)
      end
  end.

(** The specification: a list, its front first; [add] answers true. *)
Definition apply (st : list Z) (o : op) : list Z * Z :=
  match o, st with
  | Add v, _ => (st ++ [v], 1)
  | Remove, [] => ([], 0)
  | Remove, x :: st' => (st', x)
  end.

(** ** Paths of public nodes *)
Definition nx (n : Node) : option loc := getReference (_next n).

Definition path (s : queue) (P : gset loc) (b c : loc) : Prop :=
  exists l, seg nx (nodes s) (Some b) l (Some c) /\ (forall a, a ∈ l -> a ∉ P).

(** [b] points to [c]. *)
Definition points (s : queue) (P : gset loc) (b c : loc) : Prop :=
  (exists n, nodes s !! b = Some n /\ nx n = Some c) /\ b ∉ P.

Definition public (s : queue) (P : gset loc) (b : loc) : Prop := is_Some (nodes s !! b) /\ b ∉ P.

Lemma path_refl s P b : path s P b b.
Proof. exists []. split; [done|]. by intros a ?%elem_of_nil. Qed.

Lemma path_trans s P a b c : path s P a b -> path s P b c -> path s P a c.
Proof.
  intros (l1 & H1 & P1) (l2 & H2 & P2). exists (l1 ++ l2). split.
  - apply seg_app. eauto.
  - intros x [Hx|Hx]%elem_of_app; auto.
Qed.

Lemma path_points s P b c : points s P b c -> path s P b c.
Proof.
  intros ((n & Hn & Hx) & Hb). exists [b]. split; [|by intros a ->%list_elem_of_singleton].
  split; [done|]. exists n. split; [done|]. by rewrite Hx.
Qed.

(** A path to another node begins with a step. *)
Lemma path_first s P b c : path s P b c -> b <> c -> exists d, points s P b d /\ path s P d c.
Proof.
  intros ([|a l] & Hs & HP) Hne; [by injection Hs as ->|].
  destruct Hs as ([= <-] & n & Hn & Hs). destruct l as [|d l].
  - cbn in Hs. exists c. split; [|apply path_refl]. split; [eauto|]. apply HP. left.
  - pose proof Hs as (Ed & _). exists d. split; [split; [eauto|apply HP; left]|].
    exists (d :: l). rewrite Ed in Hs. split; [done|]. intros x Hx. apply HP. by right.
Qed.

Lemma path_last s P b c n : path s P b c -> nodes s !! b = Some n -> nx n = None -> c = b.
Proof.
  intros Hp Hn Hx. destruct (decide (b = c)) as [->|Hne]; [done|].
  destruct (path_first s P b c Hp Hne) as (d & ((n' & Hn' & Hd) & _) & _). congruence.
Qed.

Lemma points_det s P b c d : points s P b c -> points s P b d -> c = d.
Proof. intros ((n & Hn & Hc) & _) ((n' & Hn' & Hd) & _). congruence. Qed.

(** A path from [b] stays on the chain that starts at [b]. *)
Lemma path_chain_in s P b c l : path s P b c -> seg nx (nodes s) (Some b) l None ->
  is_Some (nodes s !! c) -> c ∈ l.
Proof.
  intros (l1 & H1 & _). revert b l H1. induction l1 as [|a l1 IH]; intros b l H1 Hl Hc.
  - injection H1 as ->. destruct l as [|d l]; [done|]. destruct Hl as ([= <-] & _). left.
  - destruct H1 as ([= <-] & n & Hn & H1). destruct l as [|d l]; [done|].
    destruct Hl as ([= <-] & n' & Hn' & Hl). rewrite Hn in Hn'. injection Hn' as <-.
    destruct (nx n) as [e|] eqn:E.
    + right. by apply (IH e).
    + destruct l1; [done|]. by destruct H1.
Qed.

Lemma chain_path s P b l c : seg nx (nodes s) (Some b) l None -> (forall a, a ∈ l -> a ∉ P) ->
  c ∈ l -> path s P b c.
Proof.
  intros Hs HP Hin. destruct (seg_split_at _ _ _ _ _ Hs Hin) as (l1 & l2 & -> & H1 & _).
  exists l1. split; [done|]. intros a Ha. apply HP. apply elem_of_app. by left.
Qed.

(** ** The proof, one thread at a time *)
Definition mine (k : pc) : gset loc :=
  match k with
  | EnqTail nd | EnqNext nd _ | EnqCheck nd _ _ | EnqLink nd _ _ | EnqSwing nd _ _ => {[nd]}
  | _ => ∅
  end.

(** The dummy node [h], the nodes [q] of the queue, the tail [t] among them. *)
Record chain (s : queue) (P : gset loc) (h t : loc) (q : list loc) (st : list Z) : Prop := mk_chain {
  ch_head : getReference (_head s) = Some h;
  ch_tail : getReference (_tail s) = Some t;
  ch_seg : seg nx (nodes s) (Some h) (h :: q) None;
  ch_vals : vals_of _value (nodes s) q st;
  ch_in : t ∈ h :: q;
  ch_pub : forall b, b ∈ h :: q -> b ∉ P;
  ch_dom : P ⊆ dom (nodes s)
}.

Definition Rep (s : queue) (P : gset loc) (st : list Z) : Prop := exists h t q, chain s P h t q st.

(** The current head and tail are at or behind a node once seen there. *)
Definition before_head (s : queue) (P : gset loc) (r : Ref) : Prop :=
  exists b h, getReference r = Some b /\ public s P b /\
    getReference (_head s) = Some h /\ path s P b h.
Definition before_tail (s : queue) (P : gset loc) (b : loc) : Prop :=
  public s P b /\ exists t, getReference (_tail s) = Some t /\ path s P b t.

(** [next] was read from the node [r] refers to. *)
Definition read_from (s : queue) (P : gset loc) (r next : Ref) : Prop :=
  exists b, getReference r = Some b /\ before_tail s P b /\
    match getReference next with
    | Some c => points s P b c /\ public s P c
    | None => True
    end.

(** A private node, ready to be linked in. *)
Definition fresh_node (s : queue) (o : op) (nd : loc) (g : ghost) : Prop :=
  exists n, nodes s !! nd = Some n /\ o = Add (_value n) /\ nx n = None /\ g = inl None.

(** A dequeue that may have seen the queue empty. *)
Definition pending (o : op) (g : ghost) : Prop :=
  o = Remove /\ (g = inl None \/ g = inl (Some 0)).

(** [head] was read before [tail], and [next] from [head] after that. *)
Definition read_both (s : queue) (P : gset loc) (head tail : Ref) : Prop :=
  before_head s P head /\ exists b c, getReference head = Some b /\ getReference tail = Some c /\
    path s P b c /\ before_tail s P c.

(** The successor of [head], which the tail has reached. *)
Definition next_of (s : queue) (P : gset loc) (head next : Ref) (c : loc) : Prop :=
  exists b, getReference head = Some b /\ getReference next = Some c /\ points s P b c /\
    before_tail s P c.

Definition K (s : queue) (P : gset loc) (o : op) (k : pc) (g : ghost) : Prop :=
  match k with
  | EnqNew => (exists v, o = Add v) /\ g = inl None
  | EnqTail nd => fresh_node s o nd g
  | EnqNext nd tail =>
      fresh_node s o nd g /\ exists b, getReference tail = Some b /\ before_tail s P b
  | EnqCheck nd tail next => fresh_node s o nd g /\ read_from s P tail next
  | EnqLink nd tail next =>
      fresh_node s o nd g /\ getReference next = None /\
      exists b, getReference tail = Some b /\ before_tail s P b
  | EnqSwing nd tail next =>
      fresh_node s o nd g /\ exists b c, getReference tail = Some b /\ getReference next = Some c /\
        points s P b c /\ public s P c
  | EnqDone nd tail =>
      g = inr 1 /\ exists b, getReference tail = Some b /\ points s P b nd /\ public s P nd
  | DeqHead => pending o g
  | DeqTail head => pending o g /\ before_head s P head
  | DeqNext head tail => pending o g /\ read_both s P head tail
  | DeqCheck head tail next =>
      pending o g /\ read_both s P head tail /\
      match getReference next with
      | Some c => exists b, getReference head = Some b /\ points s P b c /\ public s P c
      | None => getReference tail = getReference head /\ g = inl (Some 0)
      end
  | DeqSwing tail next =>
      pending o g /\ exists b c, getReference tail = Some b /\ getReference next = Some c /\
        points s P b c /\ public s P c
  | DeqValue head next => pending o g /\ exists c, next_of s P head next c
  | DeqCas head next v =>
      pending o g /\ exists c n, next_of s P head next c /\ nodes s !! c = Some n /\ _value n = v
  end.

(** What the others may do: link a node behind the last one, move the head and
    the tail on, and write to nodes of their own. *)
Record G (m : gset loc) (s : queue) (P : gset loc) (s' : queue) (P' : gset loc) : Prop := mk_G {
  G_keep : forall b n, nodes s !! b = Some n -> b ∉ m ->
    exists n', nodes s' !! b = Some n' /\ _value n' = _value n /\
      (nx n <> None \/ b ∈ P -> nx n' = nx n);
  G_pub : forall b, is_Some (nodes s !! b) -> b ∉ P -> b ∉ P';
  G_head : forall h, getReference (_head s) = Some h ->
    exists h', getReference (_head s') = Some h' /\ path s' P' h h';
  G_tail : forall t, getReference (_tail s) = Some t ->
    exists t', getReference (_tail s') = Some t' /\ path s' P' t t'
}.

Section stable.
Context (m : gset loc) (s : queue) (P : gset loc) (s' : queue) (P' : gset loc).
Hypothesis HG : G m s P s' P'.
Hypothesis Hm : m ⊆ P.

Lemma queue_public_stable b : public s P b -> public s' P' b.
Proof.
  intros [[n Hn] Hb]. destruct (G_keep _ _ _ _ _ HG b n Hn) as (n' & Hn' & _); [set_solver|].
  split; [by eexists|]. apply (G_pub _ _ _ _ _ HG); [by eexists|done].
Qed.

Lemma points_stable b c : points s P b c -> points s' P' b c.
Proof.
  intros ((n & Hn & Hx) & Hb).
  destruct (G_keep _ _ _ _ _ HG b n Hn) as (n' & Hn' & _ & Hx'); [set_solver|]. split.
  - exists n'. split; [done|]. rewrite Hx' by (left; congruence). done.
  - apply (G_pub _ _ _ _ _ HG); [by eexists|done].
Qed.

Lemma path_stable b c : path s P b c -> path s' P' b c.
Proof.
  intros (l & Hs & HP). revert b Hs HP. induction l as [|a l IH]; intros b Hs HP.
  - injection Hs as ->. apply path_refl.
  - destruct Hs as ([= <-] & n & Hn & Hs). destruct (nx n) as [d|] eqn:E.
    + apply (path_trans _ _ _ d).
      * apply path_points, points_stable. split; [eauto|]. apply HP. left.
      * apply IH; [done|]. intros x Hx. apply HP. by right.
    + destruct l; [done|]. by destruct Hs.
Qed.

Lemma before_head_stable r : before_head s P r -> before_head s' P' r.
Proof.
  intros (b & h & Hr & Hb & Hh & Hp). destruct (G_head _ _ _ _ _ HG h Hh) as (h' & Hh' & Hp').
  exists b, h'. split_and!; [done|by apply queue_public_stable|done|].
  eapply path_trans; [by apply path_stable|done].
Qed.

Lemma before_tail_stable b : before_tail s P b -> before_tail s' P' b.
Proof.
  intros (Hb & t & Ht & Hp). destruct (G_tail _ _ _ _ _ HG t Ht) as (t' & Ht' & Hp').
  split; [by apply queue_public_stable|]. exists t'. split; [done|].
  eapply path_trans; [by apply path_stable|done].
Qed.

Lemma read_from_stable r next : read_from s P r next -> read_from s' P' r next.
Proof.
  intros (b & Hr & Hb & Hn). exists b. split_and!; [done|by apply before_tail_stable|].
  destruct (getReference next); [|done]. destruct Hn.
  split; [by apply points_stable|by apply queue_public_stable].
Qed.

Lemma read_both_stable h t : read_both s P h t -> read_both s' P' h t.
Proof.
  intros (Hb & b & c & E1 & E2 & Hp & Ht). split; [by apply before_head_stable|].
  exists b, c. split_and!; [done|done|by apply path_stable|by apply before_tail_stable].
Qed.

Lemma next_of_stable h n c : next_of s P h n c -> next_of s' P' h n c.
Proof.
  intros (b & E1 & E2 & Hp & Ht). exists b.
  split_and!; [done|done|by apply points_stable|by apply before_tail_stable].
Qed.

Lemma fresh_node_stable o nd g : nd ∈ P -> nd ∉ m -> fresh_node s o nd g -> fresh_node s' o nd g.
Proof.
  intros HP Hd (n & Hn & Ho & Hx & Hg).
  destruct (G_keep _ _ _ _ _ HG nd n Hn Hd) as (n' & Hn' & Hv & Hx'). exists n'.
  rewrite Hx' by (by right). by rewrite Hv.
Qed.

End stable.

Lemma queue_K_stable s P s' P' m o k g : G m s P s' P' -> m ⊆ P -> mine k ⊆ P -> mine k ## m ->
  K s P o k g -> K s' P' o k g.
Proof.
  intros HG Hm Hk Hd. destruct k; cbn in *; try done.
  - apply (fresh_node_stable m s P s' P' HG); set_solver.
  - intros (Hf & b & E & Hb). split; [eapply fresh_node_stable; [exact HG|set_solver..|done]|].
    exists b. split; [done|]. by eapply before_tail_stable.
  - intros (Hf & Hr). split; [eapply fresh_node_stable; [exact HG|set_solver..|done]|].
    by eapply read_from_stable.
  - intros (Hf & Hn & b & E & Hb). split; [eapply fresh_node_stable; [exact HG|set_solver..|done]|].
    split; [done|]. exists b. split; [done|]. by eapply before_tail_stable.
  - intros (Hf & b & c & E1 & E2 & Hp & Hc).
    split; [eapply fresh_node_stable; [exact HG|set_solver..|done]|].
    exists b, c. split_and!; [done..|by eapply points_stable|by eapply queue_public_stable].
  - intros (Hg & b & E & Hp & Hn). split; [done|]. exists b.
    split_and!; [done|by eapply points_stable|by eapply queue_public_stable].
  - intros (Hp & Hb). split; [done|]. by eapply before_head_stable.
  - intros (Hp & Hb). split; [done|]. by eapply read_both_stable.
  - intros (Hp & Hb & Hn). split_and!; [done|by eapply read_both_stable|].
    destruct (getReference next); [|done]. destruct Hn as (b & E & Hbc & Hc). exists b.
    split_and!; [done|by eapply points_stable|by eapply queue_public_stable].
  - intros (Hp & b & c & E1 & E2 & Hbc & Hc). split; [done|]. exists b, c.
    split_and!; [done..|by eapply points_stable|by eapply queue_public_stable].
  - intros (Hp & c & Hn). split; [done|]. exists c. by eapply next_of_stable.
  - intros (Hp & c & n & Hn & Hc & Hv). split; [done|].
    assert (c ∉ m) as Hcm by (destruct Hn as (b & _ & _ & _ & [[_ Hc'] _]); set_solver).
    destruct (G_keep _ _ _ _ _ HG c n Hc Hcm) as (n' & Hn' & Hv' & _).
    exists c, n'. split_and!; [by eapply next_of_stable|done|congruence].
Qed.

(** ** The steps *)
Abbreviation step_ok := (LockFree.step_ok tstep apply mine Rep K G).

Lemma queue_G_refl m s P P' : P' ⊆ P -> G m s P s P'.
Proof.
  intros HP. split.
  - intros b n Hn _. exists n. by split_and!.
  - set_solver.
  - intros h Hh. exists h. split; [done|]. apply path_refl.
  - intros t Ht. exists t. split; [done|]. apply path_refl.
Qed.

Lemma queue_quiet s P st o k k' g : tstep s o k = Ok (s, inl k') -> mine k' = mine k -> mine k ⊆ P ->
  Rep s P st -> K s P o k' g -> step_ok s P st o k g.
Proof. intros. apply quiet_step with k'; try done. intros m. by apply queue_G_refl. Qed.

(** The head is before the tail, and both are public. *)
Lemma chain_public s P h t q st b : chain s P h t q st -> b ∈ h :: q -> public s P b.
Proof. intros Hc Hb. split; [by eapply seg_dom, Hb; apply Hc|by apply Hc]. Qed.

Lemma chain_tail s P h t q st : chain s P h t q st -> before_tail s P t.
Proof.
  intros Hc. split; [eapply chain_public; [exact Hc|apply Hc]|]. exists t.
  split; [apply Hc|apply path_refl].
Qed.

Lemma chain_head s P h t q st : chain s P h t q st -> before_head s P (_head s).
Proof.
  intros Hc. exists h, h.
  split_and!; [apply Hc|eapply chain_public; [exact Hc|left]|apply Hc|apply path_refl].
Qed.

Lemma chain_order s P h t q st : chain s P h t q st -> path s P h t.
Proof. intros Hc. eapply chain_path; [apply Hc|apply Hc|apply Hc]. Qed.

(** The successor of a node of the chain is on it, behind the dummy. *)
Lemma chain_next s P h t q st b c : chain s P h t q st -> b ∈ h :: q -> points s P b c -> c ∈ q.
Proof.
  intros Hc Hb Hp. pose proof (ch_seg _ _ _ _ _ _ Hc) as Hs.
  destruct (seg_split_at _ _ _ _ _ Hs Hb) as (l1 & l2 & El & _ & (_ & n & Hn & H2)).
  destruct Hp as ((n' & Hn' & Hx) & _). rewrite Hn in Hn'. injection Hn' as <-. rewrite Hx in H2.
  destruct l2 as [|d l2]; [done|]. destruct H2 as ([= <-] & _).
  destruct l1 as [|e l1]; injection El as -> ->; [left|]. set_solver.
Qed.

(** Moving the tail to the successor of the current tail. *)
Lemma swing_ok s P h t q st c r : chain s P h t q st -> points s P t c -> getReference r = Some c ->
  chain (s <| _tail := r |>) P h c q st /\ forall m, G m s P (s <| _tail := r |>) P.
Proof.
  intros Hc Hp Hr. assert (c ∈ q) as Hin by (eapply chain_next; [exact Hc|apply Hc|exact Hp]).
  split; [destruct Hc; constructor; cbn; try done; by right|]. intros m. split; cbn.
  - intros b n Hn _. exists n. by split_and!.
  - done.
  - intros h' Hh. exists h'. split; [done|]. apply path_refl.
  - intros t' Ht. rewrite (ch_tail _ _ _ _ _ _ Hc) in Ht. injection Ht as <-. exists c.
    split; [done|]. by apply path_points.
Qed.

Lemma cas_inv r er nr es ns r' : ref_cas r er nr es ns = Some r' ->
  getReference r = er /\ getReference r' = nr.
Proof. unfold ref_cas. case_decide as E; [|done]. intros [= <-]. by rewrite E. Qed.

Lemma enq_new_ok s P st v : Rep s P st -> step_ok s P st (Add v) EnqNew (inl None).
Proof.
  intros (h & t & q & Hc). set (nd := new_loc (nodes s)).
  assert (nodes s !! nd = None) as Hfr by apply new_loc_fresh.
  set (n0 := mkNode (ref_set None 0) v).
  exists (s <| nodes := <[nd := n0]> (nodes s) |>), (inl (EnqTail nd)), st, (inl None).
  split; [reflexivity|]. split; [constructor|]. clearbody nd. cbn [owned mine].
  assert (nd ∉ P) as HnP.
  { intros Hin. apply (ch_dom _ _ _ _ _ _ Hc), elem_of_dom in Hin as [? ?]. congruence. }
  assert (nd ∉ h :: q) as Hnq.
  { intros Hin. destruct (seg_dom _ _ _ _ _ _ (ch_seg _ _ _ _ _ _ Hc) Hin). congruence. }
  split_and!; [|split|set_solver|].
  - exists h, t, q. destruct Hc. constructor; cbn [nodes _head _tail field_upd]; try done.
    + by apply (seg_insert_ne _ _ (h :: q)).
    + apply vals_insert_ne; [set_solver|done].
    + set_solver.
    + cbn. rewrite dom_insert_L. set_solver.
  - intros b n Hn _. exists n. cbn. rewrite lookup_insert_ne; [by split_and!|]. intros ->. congruence.
  - intros b [n Hb] Hn. assert (b <> nd) by (intros ->; congruence). set_solver.
  - intros h' Hh. exists h'. split; [done|]. apply path_refl.
  - intros t' Ht. exists t'. split; [done|]. apply path_refl.
  - exists n0. cbn. rewrite lookup_insert_eq. by split_and!.
Qed.

(** A node without a successor is the last of the chain. *)
Lemma chain_last s P h t q st b n : chain s P h t q st -> b ∈ h :: q -> nodes s !! b = Some n ->
  nx n = None -> exists L, h :: q = L ++ [b].
Proof.
  intros Hc Hb Hn Hx.
  destruct (seg_split_at _ _ _ _ _ (ch_seg _ _ _ _ _ _ Hc) Hb) as (l1 & l2 & El & _ & (_ & n' & Hn' & H2)).
  rewrite Hn in Hn'. injection Hn' as <-. rewrite Hx in H2.
  destruct l2; [by exists l1|by destruct H2].
Qed.

(** Linking a node behind the last one enqueues its value. *)
Lemma link_ok s P h q st b n nd nn r : chain s P h b q st -> nodes s !! b = Some n -> nx n = None ->
  nodes s !! nd = Some nn -> nx nn = None -> nd ∈ P -> getReference r = Some nd ->
  chain (s <| nodes := <[b := n <| _next := r |>]> (nodes s) |>) (P ∖ {[nd]}) h b (q ++ [nd])
    (st ++ [_value nn]).
Proof.
  intros Hc Hn Hx Hnd Hxn HP Hr. pose proof (ch_in _ _ _ _ _ _ Hc) as Hb.
  destruct (chain_last _ _ _ _ _ _ _ _ Hc Hb Hn Hx) as [L EL].
  pose proof (ch_pub _ _ _ _ _ _ Hc) as Hpub.
  assert (b <> nd) as Hne by (intros ->; by apply (Hpub nd Hb)).
  pose proof (seg_NoDup _ _ _ _ (ch_seg _ _ _ _ _ _ Hc)) as HndL. rewrite EL in HndL.
  apply NoDup_app in HndL as (_ & HndL & _).
  destruct Hc as [H1 H2 H3 H4 H5 H6 H7].
  constructor; cbn [nodes _head _tail field_upd]; try done.
  - change (h :: q ++ [nd]) with ((h :: q) ++ [nd]). rewrite EL in H3 |- *. apply seg_app.
    exists (Some nd). split.
    + eapply seg_relink; [exact H3| |exact Hn|exact Hr]. intros HbL. apply (HndL b HbL). left.
    + split; [done|]. exists nn. cbn. rewrite lookup_insert_ne by done. done.
  - apply Forall2_app.
    + by eapply vals_insert_same.
    + constructor; [|constructor]. cbn. by rewrite lookup_insert_ne, Hnd.
  - apply elem_of_cons in H5 as [->|H5]; [left|]. right. apply elem_of_app. by left.
  - intros x Hx'. assert (x ∈ h :: q \/ x = nd) as Hq by set_solver.
    destruct Hq as [Hq|Hq]; [|subst x; set_solver].
    specialize (H6 x Hq). set_solver.
  - cbn. rewrite dom_insert_L. set_solver.
Qed.

Lemma enq_link_ok s P st o nd tail next g : Rep s P st -> K s P o (EnqLink nd tail next) g ->
  nd ∈ P -> step_ok s P st o (EnqLink nd tail next) g.
Proof.
  intros HR (Hf & Hnx & b & Eb & Hbt) HP. pose proof Hf as (nn & Hnd & -> & Hxn & ->).
  pose proof Hbt as ([[n Hn] HbP] & t & Ht & Hp).
  destruct (ref_cas (_next n) (getReference next) (Some nd) (getStamp next) (getStamp next + 1))
    as [r|] eqn:Ec.
  - destruct (cas_inv _ _ _ _ _ _ Ec) as [Er1 Er2]. rewrite Hnx in Er1.
    destruct HR as (h & t' & q & Hc). rewrite (ch_tail _ _ _ _ _ _ Hc) in Ht. injection Ht as ->.
    pose proof (path_last _ _ _ _ _ Hp Hn Er1) as ->.
    pose proof (link_ok s P h q st b n nd nn r Hc Hn Er1 Hnd Hxn HP Er2) as Hc'.
    exists (s <| nodes := <[b := n <| _next := r |>]> (nodes s) |>), (inl (EnqDone nd tail)),
      (st ++ [_value nn]), (inr 1).
    cbn [tstep owned mine]. rewrite Eb. cbn [deref mbind res_bind]. rewrite Hn.
    cbn [deref mbind res_bind]. rewrite Ec. replace (P ∖ {[nd]} ∪ ∅) with (P ∖ {[nd]}) by set_solver.
    split_and!; [done|by eapply trans_effect|by exists h, b, (q ++ [nd])| |set_solver|].
    + split; cbn.
      * intros x nx' Hx _. destruct (decide (x = b)) as [->|Hne].
        -- rewrite lookup_insert_eq. eexists. split; [done|]. rewrite Hn in Hx. injection Hx as <-.
           split; [done|]. intros [H|H]; [done|by apply HbP in H].
        -- exists nx'. rewrite lookup_insert_ne by done. done.
      * set_solver.
      * intros h' Hh. exists h'. split; [done|]. apply path_refl.
      * intros t' Ht. exists t'. split; [done|]. apply path_refl.
    + split; [done|]. exists b. split_and!; [done| |].
      * split; [|set_solver]. eexists. cbn. rewrite lookup_insert_eq. by split.
      * eapply chain_public; [exact Hc'|]. right. apply elem_of_app. right. left.
  - apply (queue_quiet s P st _ _ (EnqTail nd)); [|done|cbn; set_solver|done|done].
    cbn [tstep]. rewrite Eb. cbn [deref mbind res_bind]. rewrite Hn. cbn [deref mbind res_bind].
    by rewrite Ec.
Qed.

(** A step that only tries to swing the tail from [b] to its successor. *)
Lemma swing_step s P st o k g x b c es ns :
  Rep s P st -> points s P b c ->
  tstep s o k = Ok (match ref_cas (_tail s) (Some b) (Some c) es ns with
                    | Some r => (s <| _tail := r |>, x) | None => (s, x) end) ->
  owned mine x = mine k -> mine k ⊆ P ->
  (forall s', (forall m, G m s P s' P) ->
     match x with inl k' => K s' P o k' g | inr r => g = inr r end) ->
  step_ok s P st o k g.
Proof.
  intros HR Hp Hs Hm HP HK.
  destruct (ref_cas (_tail s) (Some b) (Some c) es ns) as [r|] eqn:Ec.
  - destruct (cas_inv _ _ _ _ _ _ Ec) as [E1 E2]. destruct HR as (h & t & q & Hc).
    assert (t = b) as -> by (pose proof (ch_tail _ _ _ _ _ _ Hc); congruence).
    destruct (swing_ok s P h b q st c r Hc Hp E2) as [Hc' HG].
    exists (s <| _tail := r |>), x, st, g. rewrite Hm, keep_private by done.
    split_and!; [done|constructor|by exists h, c, q|done|set_solver|].
    specialize (HK _ HG). by destruct x.
  - exists s, x, st, g. rewrite Hm, keep_private by done.
    split_and!; [done|constructor|done|by apply queue_G_refl|set_solver|].
    specialize (HK s (fun m => queue_G_refl m s P P (reflexivity P))). by destruct x.
Qed.

Lemma enq_swing_ok s P st o nd tail next g : Rep s P st -> K s P o (EnqSwing nd tail next) g ->
  nd ∈ P -> step_ok s P st o (EnqSwing nd tail next) g.
Proof.
  intros HR (Hf & b & c & E1 & E2 & Hp & _) HP.
  apply (swing_step s P st o _ g (inl (EnqTail nd)) b c (getStamp tail) (getStamp next + 1)); [done|done| |done|cbn; set_solver|].
  - cbn [tstep]. rewrite E1, E2. by destruct (ref_cas _ _ _ _ _).
  - intros s' HG. cbn. eapply (fresh_node_stable ∅ s P s' P); set_solver.
Qed.

Lemma enq_done_ok s P st o nd tail g : Rep s P st -> K s P o (EnqDone nd tail) g ->
  step_ok s P st o (EnqDone nd tail) g.
Proof.
  intros HR (-> & b & E1 & Hp & _).
  apply (swing_step s P st o _ _ (inr 1) b nd (getStamp tail) (getStamp tail + 1)); [done|done| |done|cbn; set_solver|done].
  cbn [tstep]. rewrite E1. by destruct (ref_cas _ _ _ _ _).
Qed.

Lemma deq_swing_ok s P st o tail next g : Rep s P st -> K s P o (DeqSwing tail next) g ->
  step_ok s P st o (DeqSwing tail next) g.
Proof.
  intros HR (Hpe & b & c & E1 & E2 & Hp & _).
  apply (swing_step s P st o _ g (inl DeqHead) b c (getStamp tail) (getStamp tail + 1)); [done|done| |done|cbn; set_solver|done].
  cbn [tstep]. rewrite E1, E2. by destruct (ref_cas _ _ _ _ _).
Qed.

(** The tail is read: it is not behind a node that was the head before. *)
Lemma deq_tail_ok s P st o head g : Rep s P st -> K s P o (DeqTail head) g ->
  step_ok s P st o (DeqTail head) g.
Proof.
  intros HR (Hpe & Hb). apply (queue_quiet s P st _ _ (DeqNext head (_tail s))); [done|done|cbn; set_solver|done|].
  destruct HR as (h & t & q & Hc). cbn. split; [done|]. split; [done|].
  destruct Hb as (b & h' & E & Hpub & Hh & Hp). rewrite (ch_head _ _ _ _ _ _ Hc) in Hh.
  injection Hh as <-. exists b, t. split_and!; [done|apply Hc| |by eapply chain_tail].
  eapply path_trans; [exact Hp|by eapply chain_order].
Qed.

(** A head without successor is the current one, and the queue is empty. *)
Lemma empty_now s P st head tail b n : Rep s P st -> read_both s P head tail ->
  getReference head = Some b -> nodes s !! b = Some n -> nx n = None ->
  st = [] /\ getReference tail = getReference head.
Proof.
  intros (h & t & q & Hc) ((b' & h' & E & _ & Hh & Hp) & b2 & c & E2 & Ec & Hpc & _) Hb Hn Hx.
  assert (b' = b) as -> by congruence. assert (b2 = b) as -> by congruence.
  pose proof (path_last _ _ _ _ _ Hp Hn Hx) as ->. pose proof (path_last _ _ _ _ _ Hpc Hn Hx) as ->.
  split; [|congruence]. rewrite (ch_head _ _ _ _ _ _ Hc) in Hh. injection Hh as ->.
  destruct (ch_seg _ _ _ _ _ _ Hc) as (_ & n' & Hn' & Hs). rewrite Hn in Hn'. injection Hn' as <-.
  rewrite Hx in Hs. destruct q; [|by destruct Hs]. pose proof (ch_vals _ _ _ _ _ _ Hc) as Hv.
  by inversion Hv.
Qed.

(** The successor of a node on the way to the chain is public. *)
Lemma path_public s P b c : path s P b c -> public s P c -> public s P b.
Proof.
  intros ([|a l] & Hs & HP) Hc; [by injection Hs as ->|].
  destruct Hs as ([= <-] & n & Hn & _). split; [by eexists|]. apply HP. left.
Qed.

Lemma succ_public s P h t q st b e c : chain s P h t q st -> path s P b e -> e ∈ h :: q ->
  points s P b c -> public s P c.
Proof.
  intros Hc Hp He Hbc. destruct (decide (b = e)) as [->|Hne].
  - eapply chain_public; [exact Hc|]. right. by eapply chain_next.
  - destruct (path_first s P b e Hp Hne) as (d & Hbd & Hde).
    rewrite (points_det s P b c d Hbc Hbd). eapply path_public; [exact Hde|].
    by eapply chain_public.
Qed.

Lemma deq_next_ok s P st o head tail g : Rep s P st -> K s P o (DeqNext head tail) g ->
  step_ok s P st o (DeqNext head tail) g.
Proof.
  intros HR (Hpe & Hb). pose proof Hb as ((b & h & E & [[n Hn] HbP] & _) & _).
  assert (tstep s o (DeqNext head tail) = Ok (s, inl (DeqCheck head tail (_next n)))) as Hs.
  { cbn [tstep]. unfold at_ref. rewrite E. cbn. by rewrite Hn. }
  destruct (getReference (_next n)) as [c|] eqn:Ex.
  - apply (queue_quiet s P st _ _ _ g Hs); [done|cbn; set_solver|done|]. cbn. split; [done|]. split; [done|].
    rewrite Ex. exists b. assert (points s P b c) as Hp by (split; [by exists n|done]).
    split_and!; [done|done|].
    destruct HR as (h' & t' & q & Hc). destruct Hb as ((b1 & h1 & E1 & _ & Hh1 & Hp1) & _).
    assert (b1 = b) as -> by congruence. assert (h1 = h') as -> by (destruct Hc; congruence).
    eapply succ_public; [exact Hc|exact Hp1|left|exact Hp].
  - destruct (empty_now s P st head tail b n HR Hb E Hn Ex) as [-> Et].
    destruct Hpe as [-> Hg].
    exists s, (inl (DeqCheck head tail (_next n))), [], (inl (Some 0)). cbn [owned mine].
    rewrite none_private. split_and!; [done| |done|by apply queue_G_refl|set_solver|].
    + destruct Hg as [->| ->]; [by apply trans_witness|constructor].
    + cbn. rewrite Ex. split; [split; [done|by right]|]. done.
Qed.

Lemma enq_next_ok s P st o nd tail g : Rep s P st -> K s P o (EnqNext nd tail) g ->
  nd ∈ P -> step_ok s P st o (EnqNext nd tail) g.
Proof.
  intros HR (Hf & b & E & Hbt) HP. pose proof Hbt as ([[n Hn] HbP] & t' & Ht & Hp).
  assert (tstep s o (EnqNext nd tail) = Ok (s, inl (EnqCheck nd tail (_next n)))) as Hs.
  { cbn [tstep]. unfold at_ref. rewrite E. cbn. by rewrite Hn. }
  apply (queue_quiet s P st _ _ _ g Hs); [done|cbn; set_solver|done|]. cbn. split; [done|].
  exists b. split_and!; [done|done|]. destruct (getReference (_next n)) as [c|] eqn:Ex; [|done].
  assert (points s P b c) as Hbc by (split; [by exists n|done]). split; [done|].
  destruct HR as (h & t & q & Hc). assert (t' = t) as -> by (destruct Hc; congruence).
  eapply succ_public; [exact Hc|exact Hp|apply Hc|exact Hbc].
Qed.

Lemma enq_check_ok s P st o nd tail next g : Rep s P st -> K s P o (EnqCheck nd tail next) g ->
  nd ∈ P -> step_ok s P st o (EnqCheck nd tail next) g.
Proof.
  intros HR (Hf & b & E & Hbt & Hn) HP.
  destruct (decide (tail = _tail s)) as [Et|Et];
    [destruct (getReference next) as [c|] eqn:Ex|].
  - apply (queue_quiet s P st _ _ (EnqSwing nd tail next)); [|done|cbn; set_solver|done|].
    + cbn [tstep]. by rewrite decide_True, Ex.
    + cbn. destruct Hn. split; [done|]. by exists b, c.
  - apply (queue_quiet s P st _ _ (EnqLink nd tail next)); [|done|cbn; set_solver|done|].
    + cbn [tstep]. by rewrite decide_True, Ex.
    + cbn. split_and!; [done|done|by exists b].
  - apply (queue_quiet s P st _ _ (EnqTail nd)); [|done|cbn; set_solver|done|done].
    cbn [tstep]. by rewrite decide_False.
Qed.

Lemma deq_check_ok s P st o head tail next g : Rep s P st -> K s P o (DeqCheck head tail next) g ->
  step_ok s P st o (DeqCheck head tail next) g.
Proof.
  intros HR (Hpe & Hb & Hn).
  assert (mine (DeqCheck head tail next) ⊆ P) as Hm by (cbn; set_solver).
  destruct (decide (head = _head s)) as [Eh|Eh].
  2: { apply (queue_quiet s P st _ _ DeqHead); [|done..]. cbn [tstep]. by rewrite decide_False. }
  destruct Hb as (Hb & b & c' & E1 & E2 & Hp & Hbt).
  destruct (getReference next) as [c|] eqn:Ex.
  - destruct Hn as (b' & Eb & Hbc & Hc). assert (b' = b) as -> by congruence.
    destruct (decide (getReference head = getReference tail)) as [Eht|Eht].
    + apply (queue_quiet s P st _ _ (DeqSwing tail next)); [|done|done|done|].
      * cbn [tstep]. by rewrite !decide_True, Ex by done.
      * cbn. split; [done|]. exists b, c. split_and!; [congruence|done..].
    + apply (queue_quiet s P st _ _ (DeqValue head next)); [|done|done|done|].
      * cbn [tstep]. by rewrite decide_True, decide_False by done.
      * cbn. split; [done|]. exists c, b. split_and!; [done..|]. split; [done|].
        destruct (path_first s P b c' Hp) as (d & Hbd & Hd); [congruence|].
        rewrite <- (points_det s P b c d Hbc Hbd) in Hd.
        destruct Hbt as (_ & t & Ht & Hct). exists t. split; [done|]. by eapply path_trans.
  - destruct Hn as (Et & ->). exists s, (inr 0), st, (inr 0). cbn [owned mine].
    rewrite none_private. split_and!; [|apply trans_settle|done|by apply queue_G_refl|set_solver|done].
    cbn [tstep]. by rewrite !decide_True, Ex by done.
Qed.

(** Moving the head to its successor dequeues its value. *)
Lemma unlink_ok s P h t q st c n r : chain s P h t q st -> points s P h c -> before_tail s P c ->
  nodes s !! c = Some n -> getReference r = Some c ->
  exists q' st', st = _value n :: st' /\ chain (s <| _head := r |>) P c t q' st'.
Proof.
  intros Hc Hhc (_ & t' & Ht' & Hp) Hn Hr.
  assert (t' = t) as -> by (destruct Hc; congruence).
  assert (is_Some (nodes s !! t)) as Ht by (eapply chain_public; [exact Hc|apply Hc]).
  destruct Hc as [H1 H2 (_ & nh & Hnh & Hs) H4 H5 H6 H7].
  destruct Hhc as ((nh' & Hnh' & Hx) & _). rewrite Hnh in Hnh'. injection Hnh' as <-.
  rewrite Hx in Hs. destruct q as [|d q]; [done|]. pose proof Hs as ([= <-] & _).
  inversion H4 as [|? x ? st' Hv Hvs]; subst. rewrite Hn in Hv. injection Hv as <-.
  exists q, st'. split; [done|]. constructor; cbn [nodes _head _tail field_upd]; try done.
  - by eapply path_chain_in.
  - intros b Hb. apply H6. by right.
Qed.

Lemma deq_cas_ok s P st o head next v g : Rep s P st -> K s P o (DeqCas head next v) g ->
  step_ok s P st o (DeqCas head next v) g.
Proof.
  intros HR (Hpe & c & n & (b & E1 & E2 & Hbc & Hbt) & Hn & <-).
  assert (mine (DeqCas head next (_value n)) ⊆ P) as Hm by (cbn; set_solver).
  destruct (ref_cas (_head s) (getReference head) (getReference next)
              (getStamp head) (getStamp head + 1)) as [r|] eqn:Ec.
  2: { apply (queue_quiet s P st _ _ DeqHead); [|done..]. cbn [tstep]. by rewrite Ec. }
  destruct (cas_inv _ _ _ _ _ _ Ec) as [Er1 Er2]. destruct HR as (h & t & q & Hc).
  assert (h = b) as -> by (destruct Hc; congruence). rewrite E2 in Er2.
  destruct (unlink_ok s P b t q st c n r Hc Hbc Hbt Hn Er2) as (q' & st' & -> & Hc').
  destruct Hpe as [-> Hg].
  exists (s <| _head := r |>), (inr (_value n)), st', (inr (_value n)). cbn [owned mine tstep].
  rewrite none_private, Ec.
  split_and!; [done| |by exists c, t, q'| |set_solver|done].
  - destruct Hg as [->| ->]; by eapply trans_effect.
  - split; cbn.
    + intros x nx' Hx _. exists nx'. by split_and!.
    + done.
    + intros h Hh. assert (h = b) as -> by (destruct Hc; congruence). exists c. split; [done|].
      by apply path_points.
    + intros t' Ht. exists t'. split; [done|]. apply path_refl.
Qed.

#[export] Instance queue_linearizable : Linearizable entry tstep apply mine Rep K G.
Proof.
  constructor; [| |apply queue_K_stable].
  { intros sh P []; cbn; unfold pending; eauto. }
  intros s P st o k g HR HK Hm. destruct k.
  - cbn in HK. destruct HK as ((v & ->) & ->). by apply enq_new_ok.
  - apply (queue_quiet s P st _ _ (EnqNext nd (_tail s))); try done. split; [done|].
    destruct HR as (h & t & q & Hc). exists t. split; [apply Hc|by eapply chain_tail].
  - apply enq_next_ok; [done..|cbn in Hm; set_solver].
  - apply enq_check_ok; [done..|cbn in Hm; set_solver].
  - apply enq_link_ok; [done..|cbn in Hm; set_solver].
  - apply enq_swing_ok; [done..|cbn in Hm; set_solver].
  - by apply enq_done_ok.
  - apply (queue_quiet s P st _ _ (DeqTail (_head s))); try done. split; [done|].
    destruct HR as (h & t & q & Hc). by eapply chain_head.
  - by apply deq_tail_ok.
  - by apply deq_next_ok.
  - by apply deq_check_ok.
  - by apply deq_swing_ok.
  - destruct HK as (Hpe & c & Hn). pose proof Hn as (b & E1 & E2 & Hbc & ([n Hcn] & _) & _).
    apply (queue_quiet s P st _ _ (DeqCas head next (_value n))); [|done|done|done|].
    + cbn [tstep]. unfold at_ref. rewrite E2. cbn. by rewrite Hcn.
    + split; [done|]. by exists c, n.
  - by apply deq_cas_ok.
Qed.

(** ** Theorems *)
Definition start (T : gset tid) : @sys queue pc op := mkSys new_MSQueue (gset_to_gmap Idle T).

Lemma new_MSQueue_rep : Rep new_MSQueue ∅ [].
Proof.
  exists 1%positive, 1%positive, []. constructor; try done.
  - split; [done|]. eexists. by split.
  - constructor.
  - left.
Qed.

(** C3. The lock-free queue is linearizable and memory safe: in every
    interleaving of any number of threads, the calls and answers are those of a
    first-in first-out queue on which every call takes effect at one moment
    between its invocation and its response (a dequeue that answers "empty" has
    seen it empty at such a moment), no thread follows a null pointer or one to
    a node that is not there, and the nodes from the head on hold exactly the
    values of the queue, the tail among them. *)
Theorem msqueue_linearizable T tr s : star entry tstep (start T) tr s ->
  (exists st m, sstar apply ([], gset_to_gmap SIdle T) tr (st, m) /\
     exists h t q, getReference (_head (shared s)) = Some h /\
       getReference (_tail (shared s)) = Some t /\ t ∈ h :: q /\
       seg nx (nodes (shared s)) (Some h) (h :: q) None /\
       vals_of _value (nodes (shared s)) q st) /\
  (forall t o k, thr s !! t = Some (Run o k) -> exists r, tstep (shared s) o k = Ok r).
Proof.
  intros Hs.
  destruct (lin_refines entry tstep apply _ tr s [] _ ∅ (inv_start _ _ T new_MSQueue_rep) Hs)
    as (st & m & P & Hi & Hsp). split.
  - exists st, m. split; [done|]. destruct (inv_rep _ _ _ _ Hi) as (h & t & q & []). by exists h, t, q.
  - intros t o k Ht. exact (lin_safe entry tstep apply s st m P t o k Hi Ht).
Qed.

(** *** Witness: thread 2 links its node while the tail lags behind thread 1's *)
Definition demo_acts : list act :=
  [Call 1 (Add 5); Call 2 (Add 7); Go 1; Go 1; Go 1; Go 1; Go 1;
   Go 2; Go 2; Go 2; Go 2; Go 2; Go 2; Go 2; Go 2; Go 2; Go 2; Ret 2;
   Go 1; Ret 1; Call 1 Remove; Go 1; Go 1; Go 1; Go 1; Go 1; Go 1; Ret 1]%positive.
Definition demo : list label * @sys queue pc op :=
  default ([], start ∅) (play entry tstep demo_acts (start {[1; 2]}%positive)).

Example queue_demo_trace : demo.1 =
  [Invoke 1 (Add 5); Invoke 2 (Add 7); Respond 2 1; Respond 1 1; Invoke 1 Remove; Respond 1 5]%positive.
Proof. vm_compute. reflexivity. Qed.

Lemma queue_demo_star : star entry tstep (start {[1; 2]}%positive) demo.1 demo.2.
Proof. apply (play_star entry tstep demo_acts). vm_compute. reflexivity. Qed.

Lemma msqueue_linearizable_witness :
  (exists st m, sstar apply ([], gset_to_gmap SIdle {[1; 2]}%positive) demo.1 (st, m) /\
     exists h t q, getReference (_head (shared demo.2)) = Some h /\
       getReference (_tail (shared demo.2)) = Some t /\ t ∈ h :: q /\
       seg nx (nodes (shared demo.2)) (Some h) (h :: q) None /\
       vals_of _value (nodes (shared demo.2)) q st).
Proof. exact (proj1 (msqueue_linearizable _ _ _ queue_demo_star)). Defined.

End MSQ.
