(* ===== verification/WordMem.v ===== *)
(** * The memory of the PIM processor, in words

    The programs of the PIM processor ([SMC_original/SW/PIM]) read and write
    words ([ulong_t], 4 bytes on ARMv7 and 8 on ARMv8) at byte addresses of its
    scratch-pad memory, and single bytes.  [WordMem] is that interface and [WordMemLaws] what the
    proofs of the programs rely on; an array of bytes implements both.  In C no
    object is at the null address, so an access there is undefined.

    The second part is about structures in such a memory: sets of words that
    lie apart, and linked lists. *)

From S2P Require Import Prelude.

Class WordMem (M : Type) := {
  wsz : Z;
  ld : Z -> M -> res Z;
  st : Z -> Z -> M -> res M;
  ld8 : Z -> M -> res Z;
  st8 : Z -> Z -> M -> res M
}.

Class WordMemLaws (M : Type) `{WordMem M} := {
  wsz_ok : wsz = 4 \/ wsz = 8;
  ld_word a m v : ld a m = Ok v -> 0 < a /\ inw (8 * wsz) v;
  st_ok a v m v0 : ld a m = Ok v0 -> exists m', st a v m = Ok m' /\ ld a m' = Ok (wrap (8 * wsz) v) /\
    (forall b, b + wsz <= a \/ a + wsz <= b -> ld b m' = ld b m) /\ (forall b, b < a \/ a + wsz <= b -> ld8 b m' = ld8 b m);
  ld8_byte a m v : ld8 a m = Ok v -> inw 8 v;
  st8_ok a v m v0 : ld8 a m = Ok v0 -> exists m', st8 a v m = Ok m' /\ ld8 a m' = Ok (u8 v) /\
    (forall b, b <> a -> ld8 b m' = ld8 b m) /\ (forall b, b + wsz <= a \/ a < b -> ld b m' = ld b m) /\
    forall b w, ld b m = Ok w -> exists w', ld b m' = Ok w'
}.

(** ** Arrays of bytes *)
Record SPM (n : nat) := mkSPM { spm_bytes : list Z }.
Arguments mkSPM {n} _.
Arguments spm_bytes {n} _.

Definition spm_ld {n : nat} (a : Z) (m : SPM n) : res Z :=
  if a <=? 0 then undefined else
  bs ← arr_read (spm_bytes m) a (Z.of_nat n); Ok (wrap (8 * Z.of_nat n) (le_val bs)).
Definition spm_st {n : nat} (a v : Z) (m : SPM n) : res (SPM n) :=
  if a <=? 0 then undefined else
  bs ← arr_write (spm_bytes m) a (le_bytes n v); Ok (mkSPM bs).

Definition spm_ld8 {n : nat} (a : Z) (m : SPM n) : res Z :=
  if a <=? 0 then undefined else b ← deref (spm_bytes m !! Z.to_nat a); Ok (u8 b).
Definition spm_st8 {n : nat} (a v : Z) (m : SPM n) : res (SPM n) :=
  if a <=? 0 then undefined else bs ← arr_write (spm_bytes m) a [u8 v]; Ok (mkSPM bs).

#[global] Instance spm_mem (n : nat) : WordMem (SPM n) :=
  { wsz := Z.of_nat n; ld := spm_ld; st := spm_st; ld8 := spm_ld8; st8 := spm_st8 }.

Lemma pow256 n : 256 ^ Z.of_nat n = 2 ^ (8 * Z.of_nat n).
Proof. change 256 with (2 ^ 8). rewrite <- Z.pow_mul_r by lia. done. Qed.

Lemma spm_ld_word n a (m : SPM n) v : spm_ld a m = Ok v -> 0 < a /\ inw (8 * Z.of_nat n) v.
Proof.
  unfold spm_ld. case_if; [done|]. bool_prop. intros H. res_inv. split; [done|]. apply wrap_range. lia.
Qed.

Lemma spm_st_ok n a v (m : SPM n) v0 : spm_ld a m = Ok v0 -> exists m', spm_st a v m = Ok m' /\
  spm_ld a m' = Ok (wrap (8 * Z.of_nat n) v) /\
  (forall b, b + Z.of_nat n <= a \/ a + Z.of_nat n <= b -> spm_ld b m' = spm_ld b m) /\
  forall b, b < a \/ a + Z.of_nat n <= b -> spm_ld8 b m' = spm_ld8 b m.
Proof.
  unfold spm_ld, spm_st. case_if; [done|]. intros H. res_inv.
  assert (exists bs, arr_write (spm_bytes m) a (le_bytes n v) = Ok bs) as [bs' E].
  { apply arr_write_defined; rewrite ?length_le_bytes; unfold arr_read in Hm; case_if_in Hm; (done || bool_prop; lia). }
  rewrite E. cbn [mbind res_bind spm_bytes]. eexists. split; [done|]. split_and!.
  - pose proof (arr_read_write_same _ _ _ _ E) as Er. rewrite length_le_bytes in Er. cbn [spm_bytes]. rewrite Er.
    cbn [mbind res_bind]. rewrite le_val_bytes, pow256. f_equal. apply wrap_wrap.
  - intros b Hb. case_if; [done|]. cbn [spm_bytes].
    rewrite (arr_read_write_other _ _ _ _ b (Z.of_nat n) E) by (rewrite length_le_bytes; lia). done.
  - intros b Hb. unfold spm_ld8. case_if; [done|]. bool_prop. cbn [spm_bytes].
    rewrite (lookup_arr_write _ _ _ _ (Z.to_nat b) E), length_le_bytes, Z2Nat.id by lia. case_if; [|done]. bool_prop. lia.
Qed.

Lemma spm_ld8_byte n a (m : SPM n) v : spm_ld8 a m = Ok v -> inw 8 v.
Proof. unfold spm_ld8. case_if; [done|]. intros H. res_inv. apply wrap_range. lia. Qed.

Lemma spm_st8_ok n a v (m : SPM n) v0 : spm_ld8 a m = Ok v0 -> exists m', spm_st8 a v m = Ok m' /\ spm_ld8 a m' = Ok (u8 v) /\
  (forall b, b <> a -> spm_ld8 b m' = spm_ld8 b m) /\
  (forall b, b + Z.of_nat n <= a \/ a < b -> spm_ld b m' = spm_ld b m) /\
  forall b w, spm_ld b m = Ok w -> exists w', spm_ld b m' = Ok w'.
Proof.
  unfold spm_ld8, spm_st8. case_if; [done|]. intros H. res_inv. bool_prop.
  destruct (spm_bytes m !! Z.to_nat a) as [x|] eqn:Ex; [|done]. pose proof (lookup_lt_Some _ _ _ Ex) as Hl.
  destruct (arr_write_defined (spm_bytes m) a [u8 v]) as [bs E]; [lia|cbn; lia|].
  rewrite E. cbn [mbind res_bind spm_bytes]. eexists. split; [done|]. split_and!.
  - cbn [spm_bytes]. rewrite (lookup_arr_write _ _ _ _ (Z.to_nat a) E), Z2Nat.id by lia. cbn [length].
    rewrite (proj2 (Z.leb_le a a)), (proj2 (Z.ltb_lt a _)), Z.sub_diag by lia.
    change (Ok (u8 (u8 v)) = Ok (u8 v)). f_equal. apply wrap_wrap.
  - intros b Hb. case_if; [done|]. bool_prop. cbn [spm_bytes].
    rewrite (lookup_arr_write _ _ _ _ (Z.to_nat b) E), Z2Nat.id by lia. cbn [length]. case_if; [|done]. bool_prop. lia.
  - intros b Hb. unfold spm_ld. case_if; [done|]. cbn [spm_bytes].
    rewrite (arr_read_write_other _ _ _ _ b (Z.of_nat n) E) by (cbn; lia). done.
  - intros b w. unfold spm_ld. case_if; [done|]. cbn [spm_bytes]. intros Hb. res_inv.
    pose proof (arr_write_length _ _ _ _ E) as Hlen. unfold arr_read in Hm0 |- *. rewrite Hlen.
    case_if_in Hm0; [|done]. cbn [mbind res_bind]. eauto.
Qed.

#[global] Program Instance spm_laws4 : WordMemLaws (SPM 4).
Next Obligation. by left. Qed.
Next Obligation. intros a m v H. by apply spm_ld_word in H. Qed.
Next Obligation. intros a v m v0 H. by eapply spm_st_ok. Qed.
Next Obligation. intros a m v H. by apply spm_ld8_byte in H. Qed.
Next Obligation. intros a v m v0 H. by eapply spm_st8_ok. Qed.

#[global] Program Instance spm_laws8 : WordMemLaws (SPM 8).
Next Obligation. by right. Qed.
Next Obligation. intros a m v H. by apply spm_ld_word in H. Qed.
Next Obligation. intros a v m v0 H. by eapply spm_st_ok. Qed.
Next Obligation. intros a m v H. by apply spm_ld8_byte in H. Qed.
Next Obligation. intros a v m v0 H. by eapply spm_st8_ok. Qed.

(** ** Words that lie apart *)
Section Cells.

Context {M : Type} {WM : WordMem M} {WL : WordMemLaws M}.

(** The words of a structure. *)
Context (cell : Z -> Prop).
Context (cells_apart : forall a b, cell a -> cell b -> a <> b -> b + wsz <= a \/ a + wsz <= b).

Definition mapped (m : M) : Prop := forall a, cell a -> exists v, ld a m = Ok v.

(** A store to one of them leaves the others alone. *)
Lemma st_cell a v m : mapped m -> cell a -> exists m', st a v m = Ok m' /\ mapped m' /\
  ld a m' = Ok (wrap (8 * wsz) v) /\ forall b, cell b -> b <> a -> ld b m' = ld b m.
Proof.
  intros Hm Ha. destruct (Hm a Ha) as [v0 E0]. destruct (st_ok a v m v0 E0) as (m' & E & Es & Eo & _).
  assert (forall b, cell b -> b <> a -> ld b m' = ld b m) as Hf.
  { intros b Hb Hne. apply Eo. destruct (cells_apart a b Ha Hb); [congruence|by left|by right]. }
  exists m'. split_and!; try done. intros b Hb. destruct (decide (b = a)) as [->|Hne]; [eauto|].
  rewrite Hf by done. by apply Hm.
Qed.

End Cells.

(** ** Linked lists: the pointer of a node is at offset [off] *)
Section Chain.

Context {M : Type} {WM : WordMem M} (off : Z).

Fixpoint chain (m : M) (p : Z) (l : list Z) (q : Z) : Prop :=
  match l with
  | [] => p = q
  | a :: l => p = a /\ exists n, ld (a + off) m = Ok n /\ chain m n l q
  end.

Lemma chain_app m p l1 l2 q : chain m p (l1 ++ l2) q <-> exists r, chain m p l1 r /\ chain m r l2 q.
Proof.
  revert p. induction l1 as [|a l1 IH]; intros p; cbn.
  - split; [eauto|]. by intros (r & -> & H).
  - split.
    + intros (-> & n & E & (r & H1 & H2)%IH). exists r. split; [|done]. split; [done|]. eauto.
    + intros (r & (-> & n & E & H1) & H2). split; [done|]. exists n. split; [done|]. apply IH. eauto.
Qed.

Lemma chain_ext m m' p l q : (forall a, a ∈ l -> ld (a + off) m' = ld (a + off) m) ->
  chain m p l q -> chain m' p l q.
Proof.
  revert p. induction l as [|a l IH]; intros p He; cbn; [done|]. intros (-> & n & E & H). split; [done|].
  exists n. rewrite He by left. split; [done|]. apply IH; [|done]. intros b Hb. apply He. by right.
Qed.

(** The list that ends with [a], after a store of [q'] to its pointer. *)
Lemma chain_relink m m' p l a q q' : (forall b, b ∈ l -> ld (b + off) m' = ld (b + off) m) ->
  ld (a + off) m' = Ok q' -> chain m p (l ++ [a]) q -> chain m' p (l ++ [a]) q'.
Proof.
  intros He Ha (r & H1 & -> & _)%chain_app. apply chain_app. exists a. split; [by eapply chain_ext|].
  split; [done|]. by exists q'.
Qed.

End Chain.

(** The values of the nodes: the word at offset 0. *)
Section Values.

Context {M : Type} {WM : WordMem M}.

Definition values (m : M) (l xs : list Z) : Prop := Forall2 (fun a x => ld a m = Ok x) l xs.

Lemma values_ext m m' l xs : (forall a, a ∈ l -> ld a m' = ld a m) -> values m l xs -> values m' l xs.
Proof.
  unfold values. intros He H. induction H as [|a x l xs E _ IH]; constructor.
  - by rewrite He by left.
  - apply IH. intros b Hb. apply He. by right.
Qed.

End Values.
