(* ===== verification/PimList.v ===== *)
(** * The linked list on the PIM processor

    Models [SMC_original/SW/PIM/kernels/linked_list.c]: a sorted list whose
    nodes are blocks of the vector registers, with a list of free blocks.  The
    head of the free list is a scalar register, and so are the two sentinels
    (two registers each).  The host puts a command and a key into two scalar
    registers, runs [execute_kernel], and finds the answer in a third.

    Pointers and keys are words of the PIM's memory ([WordMem]).  With
    [DEBUG_RESIDENT] the kernel prints what it does; of the printing only the
    evaluation of its arguments is kept, which may read through a pointer. *)

From S2P Require Import Prelude.
From S2P Require Import SortedList.
From S2P Require Import WordMem.

Record KernelParams := mkKernelParams {
  PIM_VREG : Z;
  PIM_VREG_SIZE : Z;
  PIM_SREG : Z;
  DEBUG_RESIDENT : bool
}.

Definition UINT32_MAX : Z := 0xffffffff.

Module KL.

Section Kernel.

Context {M : Type} {WM : WordMem M} (P : KernelParams).

(** A value of type [ulong_t]. *)
Definition ul (z : Z) : Z := wrap (8 * wsz) z.

Definition BLOCK_SIZE : Z := 2 * wsz.
Definition NUM_MEM_BLOCKS : Z := PIM_VREG_SIZE P / BLOCK_SIZE.
Definition sreg (i : Z) : Z := PIM_SREG P + i * wsz.
Definition FREE_BLOCKS_HEAD : Z := sreg 3.
Definition LINKED_LIST_HEAD : Z := sreg 4.
Definition LINKED_LIST_TAIL : Z := sreg 6.

(** The fields of a node; a free block has its pointer where a node has its
    key. *)
Definition key (p : Z) : Z := p.
Definition next (p : Z) : Z := p + wsz.
Definition free_next (p : Z) : Z := p.

(** [pim_print_hex] of the successor of the first free block *)
Definition print_free (m : M) : res unit :=
  if DEBUG_RESIDENT P then p ← ld FREE_BLOCKS_HEAD m; _ ← ld (free_next p) m; Ok tt else Ok tt.

Definition alloc_memory_block (m : M) : res (M * Z) :=
  mem_block ← ld FREE_BLOCKS_HEAD m;
  m ← (if negb (mem_block =? 0) then n ← ld (free_next mem_block) m; st FREE_BLOCKS_HEAD n m else Ok m);
  _ ← print_free m;
  Ok (m, mem_block).

Definition free_memory_block (nodeptr : Z) (m : M) : res M :=
  f ← ld FREE_BLOCKS_HEAD m;
  m ← st (free_next nodeptr) f m;
  m ← st FREE_BLOCKS_HEAD nodeptr m;
  _ ← print_free m;
  Ok m.

(** The loop of [list_init] over the blocks [i, i + n). *)
Fixpoint init_blocks (n : nat) (i : Z) (m : M) : res M :=
  match n with
  | O => Ok m
  | S n =>
      let free_block := ul (PIM_VREG P + i * BLOCK_SIZE) in
      f ← ld FREE_BLOCKS_HEAD m;
      m ← st (free_next free_block) f m;
      m ← st FREE_BLOCKS_HEAD free_block m;
      init_blocks n (i + 1) m
  end.

Definition list_init (m : M) : res M :=
  m ← st FREE_BLOCKS_HEAD 0 m;
  m ← init_blocks (Z.to_nat NUM_MEM_BLOCKS) 0 m;
  m ← st (key LINKED_LIST_HEAD) 0 m;
  m ← st (next LINKED_LIST_HEAD) LINKED_LIST_TAIL m;
  m ← st (key LINKED_LIST_TAIL) UINT32_MAX m;
  st (next LINKED_LIST_TAIL) 0 m.

(** [while (curr->key < k)], with the node before. *)
Fixpoint search (fuel : nat) (k pred curr : Z) (m : M) : res (Z * Z) :=
  match fuel with
  | O => Err Diverged
  | S fuel =>
      c ← ld (key curr) m;
      if c <? k then n ← ld (next curr) m; search fuel k curr n m else Ok (pred, curr)
  end.

(** More turns than there are nodes. *)
Definition fuel : nat := S (S (S (Z.to_nat NUM_MEM_BLOCKS))).

Definition list_add (add_key : Z) (m : M) : res (M * Z) :=
  let pred := LINKED_LIST_HEAD in
  curr ← ld (next pred) m;
  '(pred, curr) ← search fuel add_key pred curr m;
  c ← ld (key curr) m;
  if c =? add_key then Ok (m, 0)
  else
    '(m, new_node) ← alloc_memory_block m;
    if new_node =? 0 then Ok (m, 0)
    else
      m ← st (key new_node) add_key m;
      m ← st (next new_node) curr m;
      m ← st (next pred) new_node m;
      Ok (m, 1).

Definition list_remove (remove_key : Z) (m : M) : res (M * Z) :=
  let pred := LINKED_LIST_HEAD in
  curr ← ld (next pred) m;
  '(pred, curr) ← search fuel remove_key pred curr m;
  c ← ld (key curr) m;
  if negb (c =? remove_key) then Ok (m, 0)
  else
    n ← ld (next curr) m;
    m ← st (next pred) n m;
    m ← free_memory_block curr m;
    Ok (m, 1).

Definition list_contains (contains_key : Z) (m : M) : res Z :=
  '(_, curr) ← search fuel contains_key 0 LINKED_LIST_HEAD m;
  c ← ld (key curr) m;
  Ok (if c =? contains_key then 1 else 0).

Definition execute_kernel (m : M) : res M :=
  command ← ld (sreg 0) m;
  param_key ← ld (sreg 1) m;
  if command =? 0 then list_init m
  else if command =? 1 then '(m, r) ← list_add param_key m; st (sreg 2) r m
  else if command =? 2 then '(m, r) ← list_remove param_key m; st (sreg 2) r m
  else if command =? 3 then r ← list_contains param_key m; st (sreg 2) r m
  else Ok m.

(** ** The words of the list *)
Context {WL : WordMemLaws M}.

(** The registers lie apart and do not wrap. *)
Record params_ok : Prop := {
  po_sreg : 0 < PIM_SREG P;
  po_vreg : 0 < PIM_VREG P;
  po_size : 0 <= PIM_VREG_SIZE P < 2 ^ 32;
  po_apart : PIM_SREG P + 8 * wsz <= PIM_VREG P \/ PIM_VREG P + PIM_VREG_SIZE P <= PIM_SREG P;
  po_top : PIM_SREG P + 8 * wsz < 2 ^ 32 /\ PIM_VREG P + PIM_VREG_SIZE P < 2 ^ 32
}.

Definition cell (a : Z) : Prop :=
  (exists i, 0 <= i < 8 /\ a = PIM_SREG P + i * wsz) \/
  (exists i, 0 <= i < 2 * NUM_MEM_BLOCKS /\ a = PIM_VREG P + i * wsz).

Definition block (i : nat) : Z := PIM_VREG P + Z.of_nat i * BLOCK_SIZE.
Definition blocks : list Z := block <$> seq 0 (Z.to_nat NUM_MEM_BLOCKS).

Ltac word_cases :=
  pose proof wsz_ok as W; unfold next, free_next, key, FREE_BLOCKS_HEAD, LINKED_LIST_HEAD, LINKED_LIST_TAIL, sreg,
    block, BLOCK_SIZE in *; set (w := wsz) in *; clearbody w; destruct W; subst w.

Lemma blocks_fit : params_ok -> 0 <= NUM_MEM_BLOCKS /\ NUM_MEM_BLOCKS * BLOCK_SIZE <= PIM_VREG_SIZE P.
Proof.
  intros O. pose proof (po_size O). unfold NUM_MEM_BLOCKS. assert (0 < BLOCK_SIZE) by (word_cases; lia). split.
  - apply Z.div_pos; lia.
  - rewrite Z.mul_comm. by apply Z.mul_div_le.
Qed.

Lemma cells_apart : params_ok -> forall a b, cell a -> cell b -> a <> b -> b + wsz <= a \/ a + wsz <= b.
Proof.
  intros O a b Ha Hb Hne. destruct (blocks_fit O) as [N0 Nf]. destruct O as [O1 O2 O3 O4 O5]. unfold cell in *.
  set (N := NUM_MEM_BLOCKS) in *. clearbody N.
  word_cases; destruct Ha as [(i & Hi & ->)|(i & Hi & ->)], Hb as [(j & Hj & ->)|(j & Hj & ->)]; lia.
Qed.

Lemma sreg_cell i : 0 <= i < 8 -> cell (sreg i).
Proof. intros Hi. left. exists i. by split. Qed.

Lemma elem_of_blocks a : a ∈ blocks <-> exists i, (i < Z.to_nat NUM_MEM_BLOCKS)%nat /\ a = block i.
Proof.
  unfold blocks. rewrite list_elem_of_fmap. split.
  - intros (i & -> & Hi%elem_of_seq). exists i. split; [lia|done].
  - intros (i & Hi & ->). exists i. split; [done|]. apply elem_of_seq. lia.
Qed.

Lemma block_cell a : a ∈ blocks -> cell (key a) /\ cell (next a).
Proof.
  intros (i & Hi & ->)%elem_of_blocks. unfold key, next, block, BLOCK_SIZE.
  split; right; [exists (2 * Z.of_nat i)|exists (2 * Z.of_nat i + 1)]; split; try lia; ring.
Qed.

Lemma blocks_facts : params_ok -> forall a b, a ∈ blocks -> b ∈ blocks ->
  0 < a < 2 ^ 32 /\ key a <> next b /\ (forall i, 0 <= i < 8 -> key a <> sreg i /\ next a <> sreg i).
Proof.
  intros O a b (i & Hi & ->)%elem_of_blocks (j & Hj & ->)%elem_of_blocks. destruct (blocks_fit O) as [N0 Nf].
  destruct O as [O1 O2 O3 O4 O5]. set (N := NUM_MEM_BLOCKS) in *. clearbody N.
  word_cases; (split; [lia|]; split; [lia|]; intros k Hk; lia).
Qed.

Lemma ul_small z : 0 <= z < 2 ^ 32 -> ul z = z.
Proof.
  intros H. apply wrap_id. unfold inw. pose proof wsz_ok as [E|E]; rewrite E; cbn; lia.
Qed.

Lemma sreg_small i : params_ok -> 0 <= i < 8 -> 0 < sreg i < 2 ^ 32.
Proof. intros [O1 O2 O3 O4 O5] Hi. word_cases; lia. Qed.

(** ** The list in memory

    [ns] are the nodes with the keys [xs], [ls] blocks in neither list (while
    one moves from one to the other), [fs] the free blocks. *)
Record klist (xs ns ls fs : list Z) (m : M) : Prop := {
  kl_mapped : mapped cell m;
  kl_head : ld (sreg 4) m = Ok 0;
  kl_tail : ld (sreg 6) m = Ok UINT32_MAX;
  kl_end : ld (sreg 7) m = Ok 0;
  kl_chain : chain wsz m LINKED_LIST_HEAD (LINKED_LIST_HEAD :: ns) LINKED_LIST_TAIL;
  kl_values : values m ns xs;
  kl_sorted : increasing xs;
  kl_keys : Forall (fun x => 0 <= x < UINT32_MAX) xs;
  kl_free : exists f, ld FREE_BLOCKS_HEAD m = Ok f /\ chain 0 m f fs 0;
  kl_blocks : ns ++ ls ++ fs ≡ₚ blocks
}.

Context (O : params_ok).

Lemma length_blocks : length blocks = Z.to_nat NUM_MEM_BLOCKS.
Proof. unfold blocks. by rewrite length_fmap, length_seq. Qed.

Lemma blocks_NoDup : NoDup blocks.
Proof.
  unfold blocks. apply NoDup_fmap_2_strong; [|apply NoDup_seq]. intros i j _ _. unfold block, BLOCK_SIZE.
  pose proof wsz_ok. nia.
Qed.

Lemma next_sreg i : next (sreg i) = sreg (i + 1).
Proof. unfold next, sreg. ring. Qed.

(** The words of a node and the registers are different words. *)
Lemma ne_regs i j : i <> j -> sreg i <> sreg j.
Proof. unfold sreg. pose proof wsz_ok. nia. Qed.
Lemma ne_reg_key i b : 0 <= i < 8 -> b ∈ blocks -> sreg i <> key b.
Proof. intros Hi Hb. destruct (blocks_facts O b b Hb Hb) as (_ & _ & H). intros E. by apply (proj1 (H i Hi)). Qed.
Lemma ne_reg_next i b : 0 <= i < 8 -> b ∈ blocks -> sreg i <> next b.
Proof. intros Hi Hb. destruct (blocks_facts O b b Hb Hb) as (_ & _ & H). intros E. by apply (proj2 (H i Hi)). Qed.
Lemma ne_key_next a b : a ∈ blocks -> b ∈ blocks -> key a <> next b.
Proof. intros Ha Hb. by apply blocks_facts. Qed.
Lemma ne_next_next a b : a <> b -> next a <> next b.
Proof. unfold next. lia. Qed.

Section Lists.

Context (xs ns ls fs : list Z) (m : M) (K : klist xs ns ls fs m).

Lemma node_block a : a ∈ ns \/ a ∈ ls \/ a ∈ fs -> a ∈ blocks.
Proof. intros H. rewrite <- (kl_blocks _ _ _ _ _ K). rewrite !elem_of_app. tauto. Qed.

Lemma klist_NoDup : NoDup ns /\ NoDup fs /\ (forall a, a ∈ ns -> (a ∉ ls) /\ (a ∉ fs)) /\ (forall a, a ∈ ls -> a ∉ fs).
Proof.
  pose proof (kl_blocks _ _ _ _ _ K) as H. assert (NoDup (ns ++ ls ++ fs)) as Hd by (rewrite H; apply blocks_NoDup).
  apply NoDup_app in Hd as (? & Hd & H2). apply NoDup_app in H2 as (? & H3 & ?). split_and!; try done.
  intros a Ha. specialize (Hd a Ha). rewrite elem_of_app in Hd. tauto.
Qed.

Lemma klist_length : length ns = length xs /\ (length ns + length ls + length fs = Z.to_nat NUM_MEM_BLOCKS)%nat.
Proof.
  split; [pose proof (kl_values _ _ _ _ _ K) as V; by apply Forall2_length in V|].
  rewrite <- length_blocks, <- (kl_blocks _ _ _ _ _ K), !length_app. lia.
Qed.

(** The list with its sentinel at the end, as the loops see it. *)
Lemma klist_from_head : exists n, ld (next LINKED_LIST_HEAD) m = Ok n /\
  chain wsz m n (ns ++ [LINKED_LIST_TAIL]) 0.
Proof.
  destruct (kl_chain _ _ _ _ _ K) as (_ & n & E & H). exists n. split; [done|]. apply chain_app.
  exists LINKED_LIST_TAIL. split; [done|]. split; [done|]. exists 0. split; [|done].
  change (ld (next (sreg 6)) m = Ok 0). rewrite next_sreg. apply K.
Qed.

Lemma klist_values : values m (ns ++ [LINKED_LIST_TAIL]) (xs ++ [UINT32_MAX]).
Proof. apply Forall2_app; [apply K|]. constructor; [apply K|constructor]. Qed.

End Lists.

(** The loop stops at the first key that is not less. *)
Lemma search_ok k m L Y : values m L Y -> (exists y, y ∈ Y /\ k <= y) -> forall fuel pred curr,
  chain wsz m curr L 0 -> (length L <= fuel)%nat ->
  exists l1 a l2 y1 y y2 pre p, L = l1 ++ a :: l2 /\ Y = y1 ++ y :: y2 /\ values m l1 y1 /\
    ld (key a) m = Ok y /\ (forall z, z ∈ y1 -> z < k) /\ k <= y /\ pred :: l1 = pre ++ [p] /\
    search fuel k pred curr m = Ok (p, a).
Proof.
  unfold values. induction 1 as [|a y L Y E V IH]; intros (y0 & Hy0 & Hk) fuel pred curr Hc Hf.
  { by apply elem_of_nil in Hy0. }
  destruct Hc as (-> & n & En & Hc). destruct fuel as [|fuel]; [cbn in Hf; lia|]. cbn [search].
  unfold key at 2. rewrite E. cbn [mbind res_bind]. destruct (Z.ltb_spec y k) as [Hlt|Hge].
  - assert (exists y, y ∈ Y /\ k <= y) as Hy by (apply elem_of_cons in Hy0 as [->|Hy0]; [lia|eauto]).
    unfold next. rewrite En. cbn [mbind res_bind].
    destruct (IH Hy fuel a n Hc) as (l1 & b & l2 & y1 & y' & y2 & pre & p & -> & -> & V1 & Eb & Hl & Hge & Ep & Es); [cbn in Hf; lia|].
    exists (a :: l1), b, l2, (y :: y1), y', y2, (pred :: pre), p. split_and!; try done.
    + by constructor.
    + intros z [->|Hz]%elem_of_cons; [done|by apply Hl].
    + by rewrite Ep.
  - exists [], a, L, [], y, Y, [], pred. split_and!; try done.
    + intros z Hz. by apply elem_of_nil in Hz.
Qed.

(** ** Single stores *)
Definition only (c : Z) (m m' : M) : Prop :=
  mapped cell m' /\ forall b, cell b -> b <> c -> ld b m' = ld b m.

Lemma store_cell c v m : mapped cell m -> cell c -> exists m', st c v m = Ok m' /\ ld c m' = Ok (ul v) /\ only c m m'.
Proof.
  intros Hm Hc. destruct (st_cell cell (cells_apart O) c v m Hm Hc) as (m' & E & Hm' & Ec & Ho).
  exists m'. by split_and!.
Qed.

Ltac cells := first [by apply sreg_cell; lia | by apply block_cell].
Ltac apart := first
  [ by apply ne_regs; lia | by apply ne_reg_key; (lia || done) | by apply ne_reg_next; (lia || done)
  | by apply not_eq_sym, ne_reg_key; (lia || done) | by apply not_eq_sym, ne_reg_next; (lia || done)
  | by apply ne_key_next | by apply not_eq_sym, ne_key_next ].

Lemma only_ld c m m' b v : only c m m' -> cell b -> b <> c -> ld b m = Ok v -> ld b m' = Ok v.
Proof. intros [_ H] Hb Hne E. by rewrite H. Qed.

Lemma only_values c m m' l xs : only c m m' -> (forall a, a ∈ l -> a ∈ blocks /\ key a <> c) ->
  values m l xs -> values m' l xs.
Proof.
  intros [_ H] Hl. apply values_ext. intros a Ha. destruct (Hl a Ha) as [Hb Hne]. apply H; [|done].
  by apply (block_cell a).
Qed.

Lemma only_chain c m m' p l q : only c m m' -> (forall a, a ∈ l -> a ∈ blocks /\ next a <> c) ->
  chain wsz m p l q -> chain wsz m' p l q.
Proof.
  intros [_ H] Hl. apply chain_ext. intros a Ha. destruct (Hl a Ha) as [Hb Hne]. apply H; [|done].
  by apply (block_cell a).
Qed.

Lemma only_free c m m' p l q : only c m m' -> (forall a, a ∈ l -> a ∈ blocks /\ key a <> c) ->
  chain 0 m p l q -> chain 0 m' p l q.
Proof.
  intros [_ H] Hl. apply chain_ext. intros a Ha. destruct (Hl a Ha) as [Hb Hne]. rewrite Z.add_0_r. apply H; [|done].
  by apply (block_cell a).
Qed.

Lemma head_chain c m m' ns q : only c m m' -> c <> sreg 5 -> (forall a, a ∈ ns -> a ∈ blocks /\ next a <> c) ->
  chain wsz m LINKED_LIST_HEAD (LINKED_LIST_HEAD :: ns) q -> chain wsz m' LINKED_LIST_HEAD (LINKED_LIST_HEAD :: ns) q.
Proof.
  intros Ho Hc Hl (_ & n & E & H). split; [done|]. exists n.
  change (ld (next (sreg 4)) m = Ok n) in E. change (ld (next (sreg 4)) m' = Ok n /\ chain wsz m' n ns q).
  rewrite next_sreg in *. split; [|by eapply only_chain]. eapply only_ld; [done|cells|done|done].
Qed.

(** A store to the head of the free list. *)
Lemma set_free xs ns ls fs m v ls' fs' : klist xs ns ls fs m -> 0 <= v < 2 ^ 32 -> chain 0 m v fs' 0 ->
  ns ++ ls' ++ fs' ≡ₚ blocks -> exists m', st FREE_BLOCKS_HEAD v m = Ok m' /\ klist xs ns ls' fs' m'.
Proof.
  intros K Hv Hc Hp. destruct (store_cell FREE_BLOCKS_HEAD v m) as (m' & E & Ef & Ho); [apply K|cells|].
  exists m'. split; [done|]. unfold FREE_BLOCKS_HEAD in *.
  assert (forall a, a ∈ ns -> a ∈ blocks) as Hn by (intros a Ha; eapply node_block; [exact K|tauto]).
  assert (forall a, a ∈ fs' -> a ∈ blocks) as Hf by (intros a Ha; rewrite <- Hp, !elem_of_app; tauto).
  split; try apply K; try (eapply only_ld; [exact Ho|cells|apart|apply K]); try done.
  - apply Ho.
  - eapply head_chain; [exact Ho|apart| |apply K]. intros a Ha. split; [by apply Hn|]. pose proof (Hn a Ha). apart.
  - eapply only_values; [exact Ho| |apply K]. intros a Ha. split; [by apply Hn|]. pose proof (Hn a Ha). apart.
  - exists v. unfold FREE_BLOCKS_HEAD. split; [by rewrite Ef, ul_small|]. eapply only_free; [exact Ho| |done]. intros a Ha.
    split; [by apply Hf|]. pose proof (Hf a Ha). apart.
Qed.

(** A store to a block of neither list. *)
Lemma set_loose xs ns ls fs m b c v : klist xs ns ls fs m -> b ∈ ls -> c = key b \/ c = next b ->
  exists m', st c v m = Ok m' /\ ld c m' = Ok (ul v) /\ only c m m' /\ klist xs ns ls fs m'.
Proof.
  intros K Hb Hc. assert (b ∈ blocks) as Hbb by (eapply node_block; [exact K|tauto]).
  assert (cell c) as Hcc by (destruct Hc as [->| ->]; cells).
  destruct (store_cell c v m) as (m' & E & Ec & Ho); [apply K|done|]. exists m'. split_and!; try done.
  assert (forall a, a ∈ ns \/ a ∈ fs -> a ∈ blocks) as Hn by (intros a Ha; eapply node_block; [exact K|tauto]).
  destruct (klist_NoDup _ _ _ _ _ K) as (_ & _ & D1 & D2).
  assert (forall i, 0 <= i < 8 -> sreg i <> c) as Hr by (intros i Hi; destruct Hc as [->| ->]; apart).
  assert (forall a, a ∈ ns \/ a ∈ fs -> a <> b) as Hne.
  { intros a [Ha|Ha] ->; [by destruct (D1 b Ha)|by apply (D2 b)]. }
  assert (forall a, a ∈ ns \/ a ∈ fs -> key a <> c /\ next a <> c) as Hk.
  { intros a Ha. pose proof (Hne a Ha). pose proof (Hn a Ha). destruct Hc as [->| ->]; split; try apart; [done|].
    by apply ne_next_next. }
  split; try apply K; try (eapply only_ld; [exact Ho|cells|by apply Hr; lia|apply K]).
  - apply Ho.
  - eapply head_chain; [exact Ho| | |apply K].
    + apply not_eq_sym, Hr. lia.
    + intros a Ha. split; [apply Hn; tauto|apply Hk; tauto].
  - eapply only_values; [exact Ho| |apply K]. intros a Ha. split; [apply Hn; tauto|apply Hk; tauto].
  - destruct (kl_free _ _ _ _ _ K) as (f & Ef & Hf). exists f. split.
    + eapply only_ld; [exact Ho|cells|by apply Hr; lia|done].
    + eapply only_free; [exact Ho| |done]. intros a Ha. split; [apply Hn; tauto|apply Hk; tauto].
Qed.

(** The pointer of a node or of the head. *)
Lemma next_cell l1 p : (forall a, a ∈ l1 -> a ∈ blocks) -> p ∈ LINKED_LIST_HEAD :: l1 ->
  cell (next p) /\ (forall i, 0 <= i < 8 -> i <> 5 -> sreg i <> next p) /\ (forall a, a ∈ blocks -> key a <> next p).
Proof.
  intros Hn [->|Hp]%elem_of_cons.
  - unfold LINKED_LIST_HEAD. rewrite next_sreg. split_and!; [cells|intros i Hi H5; apart|intros a Ha; apart].
  - pose proof (Hn p Hp). split_and!; [cells|intros i Hi H5; apart|intros a Ha; apart].
Qed.

(** The list up to [p] after a store to the pointer of [p]. *)
Lemma relink_to m m' l1 pre p r v : (forall a, a ∈ l1 -> a ∈ blocks) -> NoDup l1 -> LINKED_LIST_HEAD :: l1 = pre ++ [p] ->
  only (next p) m m' -> ld (next p) m' = Ok v -> chain wsz m LINKED_LIST_HEAD (LINKED_LIST_HEAD :: l1) r ->
  chain wsz m' LINKED_LIST_HEAD (LINKED_LIST_HEAD :: l1) v.
Proof.
  intros Hn Hd Ep Ho Ev C. rewrite Ep in *. eapply chain_relink; [|exact Ev|exact C]. intros a Ha. apply (proj2 Ho).
  - change (cell (next a)). apply (next_cell l1); [done|]. rewrite Ep. apply elem_of_app. by left.
  - apply ne_next_next. intros ->. assert (NoDup (LINKED_LIST_HEAD :: l1)) as Hnd.
    { constructor; [|done]. intros H. apply Hn in H. by apply (ne_reg_key 4 _ ltac:(lia) H). }
    rewrite Ep in Hnd. apply NoDup_app in Hnd as (_ & Hnd & _). apply (Hnd p Ha). by left.
Qed.

(** A store to the pointer of a node (or of the head): the list goes on
    elsewhere. *)
Lemma set_next xs l1 l2 ls fs m pre p v xs' ns2 ls' : klist xs (l1 ++ l2) ls fs m ->
  LINKED_LIST_HEAD :: l1 = pre ++ [p] -> 0 <= v < 2 ^ 32 -> chain wsz m v ns2 LINKED_LIST_TAIL ->
  (l1 ++ ns2) ++ ls' ++ fs ≡ₚ blocks -> values m (l1 ++ ns2) xs' -> increasing xs' ->
  Forall (fun x => 0 <= x < UINT32_MAX) xs' ->
  exists m', st (next p) v m = Ok m' /\ klist xs' (l1 ++ ns2) ls' fs m'.
Proof.
  intros K Ep Hv Hc Hp V Hs Hk.
  assert (NoDup ((l1 ++ ns2) ++ ls' ++ fs)) as Hd by (rewrite Hp; apply blocks_NoDup).
  apply NoDup_app in Hd as (Hd & _ & _). apply NoDup_app in Hd as (Hd1 & Hd12 & _).
  assert (forall a, a ∈ l1 \/ a ∈ ns2 \/ a ∈ fs -> a ∈ blocks) as Hn.
  { intros a Ha. rewrite <- Hp, !elem_of_app. tauto. }
  assert (p ∈ LINKED_LIST_HEAD :: l1) as Hpl by (rewrite Ep; apply elem_of_app; right; left).
  destruct (next_cell l1 p) as (Hcc & Hr & Hka); [intros a Ha; apply Hn; tauto|done|].
  destruct (store_cell (next p) v m) as (m' & E & Ev & Ho); [apply K|done|]. exists m'. split; [done|].
  rewrite ul_small in Ev by done.
  split; try done; try (eapply only_ld; [exact Ho|cells|by apply Hr; lia|apply K]).
  - apply Ho.
  - rewrite app_comm_cons. apply chain_app. exists v. split.
    + pose proof (kl_chain _ _ _ _ _ K) as C. rewrite app_comm_cons in C. apply chain_app in C as (r & C & _).
      eapply relink_to; [|done|exact Ep|exact Ho|exact Ev|exact C]. intros a Ha. apply Hn. tauto.
    + eapply only_chain; [exact Ho| |done]. intros a Ha. split; [apply Hn; tauto|]. apply ne_next_next.
      intros ->. apply elem_of_cons in Hpl as [->|Hpl].
      * by apply (ne_reg_key 4 LINKED_LIST_HEAD ltac:(lia)); [apply Hn; tauto|].
      * by apply (Hd12 p Hpl).
  - eapply only_values; [exact Ho| |done]. intros a Ha%elem_of_app. split; [apply Hn; tauto|]. apply Hka, Hn. tauto.
  - destruct (kl_free _ _ _ _ _ K) as (f & Ef & Hf). exists f. split.
    + eapply only_ld; [exact Ho|cells|by apply Hr; lia|done].
    + eapply only_free; [exact Ho| |done]. intros a Ha. split; [apply Hn; tauto|]. apply Hka, Hn. tauto.
Qed.

(** ** Where a key belongs *)
Record located (k : Z) (xs ns : list Z) (m : M) (l1 l2 y1 y2 pre : list Z) (p a : Z) : Prop := {
  lo_nodes : ns = l1 ++ l2;
  lo_keys : xs = y1 ++ y2;
  lo_pred : LINKED_LIST_HEAD :: l1 = pre ++ [p];
  lo_left : values m l1 y1;
  lo_right : values m l2 y2;
  lo_chain : chain wsz m a l2 LINKED_LIST_TAIL;
  lo_less : forall z, z ∈ y1 -> z < k;
  lo_curr : ld (key a) m = Ok (hd UINT32_MAX y2) /\ k <= hd UINT32_MAX y2
}.

Lemma locate k xs ns ls fs m : klist xs ns ls fs m -> k <= UINT32_MAX ->
  exists n l1 l2 y1 y2 pre p a, ld (next LINKED_LIST_HEAD) m = Ok n /\
    search fuel k LINKED_LIST_HEAD n m = Ok (p, a) /\ located k xs ns m l1 l2 y1 y2 pre p a.
Proof.
  intros K Hk. destruct (klist_from_head _ _ _ _ _ K) as (n & En & Hc).
  destruct (klist_length _ _ _ _ _ K) as [Hl1 Hl2].
  destruct (search_ok k m _ _ (klist_values _ _ _ _ _ K) ltac:(exists UINT32_MAX; split; [apply elem_of_app; right; left|done])
    fuel LINKED_LIST_HEAD n Hc) as (l1 & a & l2 & y1 & y & y2 & pre & p & El & Ey & V1 & Ea & Hlt & Hge & Ep & Es).
  { rewrite length_app. unfold fuel. cbn. lia. }
  pose proof (Forall2_length _ _ _ V1) as Hlen.
  assert (length l2 = length y2) as Hlen2.
  { apply (f_equal length) in El, Ey. rewrite !length_app in El, Ey. cbn in El, Ey. lia. }
  destruct (kl_chain _ _ _ _ _ K) as (_ & n' & En' & C). change (ld (next LINKED_LIST_HEAD) m = Ok n') in En'.
  rewrite En in En'. injection En' as <-. pose proof (kl_values _ _ _ _ _ K) as V.
  destruct l2 as [|b l2 _] using rev_ind; destruct y2 as [|z y2 _] using rev_ind;
    rewrite ?length_app in Hlen2; cbn in Hlen2; try lia.
  - apply app_inj_tail in El as [<- <-]. apply app_inj_tail in Ey as [<- <-].
    exists n, ns, [], xs, [], pre, p, LINKED_LIST_TAIL. split_and!; [done..|].
    split; rewrite ?app_nil_r; try done. constructor.
  - rewrite app_comm_cons, app_assoc in El, Ey. apply app_inj_tail in El as [-> <-]. apply app_inj_tail in Ey as [-> <-].
    exists n, l1, (a :: l2), y1, (y :: y2), pre, p, a. split_and!; [done..|].
    apply Forall2_app_inv in V as [V1' V2']; [|done].
    split; try done. apply chain_app in C as (r & _ & C). pose proof C as (-> & _). exact C.
Qed.

(** The key is in the list exactly when the loop stops at it. *)
Lemma located_key k xs ns m l1 l2 y1 y2 pre p a : located k xs ns m l1 l2 y1 y2 pre p a -> increasing xs ->
  Forall (fun x => 0 <= x < UINT32_MAX) xs -> k < UINT32_MAX -> hd UINT32_MAX y2 = k <-> k ∈ xs.
Proof.
  intros [-> -> _ _ _ _ Hlt [_ Hge]] Hs Hk Hm. destruct y2 as [|y y2]; cbn in Hge |- *.
  - rewrite app_nil_r. split; [lia|]. intros Hin. specialize (Hlt k Hin). lia.
  - split; [intros <-; apply elem_of_app; right; left|]. intros [Hin|[->|Hin]%elem_of_cons]%elem_of_app; [|done|].
    + specialize (Hlt k Hin). lia.
    + apply increasing_app_inv in Hs as (_ & Hs & _). unfold increasing in Hs. apply StronglySorted_inv in Hs as [_ Hf].
      apply (proj1 (Forall_forall _ _) Hf) in Hin. lia.
Qed.

(** ** The operations *)
Definition answer (b : bool) : Z := if b then 1 else 0.

Lemma list_contains_ok k xs ns ls fs m : klist xs ns ls fs m -> 0 < k < UINT32_MAX ->
  list_contains k m = Ok (answer (bool_decide (k ∈ xs))).
Proof.
  intros K Hk. destruct (locate k xs ns ls fs m K) as (n & l1 & l2 & y1 & y2 & pre & p & a & En & Es & L); [lia|].
  unfold list_contains. destruct (klist_from_head _ _ _ _ _ K) as (n' & En' & Hc).
  rewrite En in En'. injection En' as <-.
  destruct (search_ok k m (LINKED_LIST_HEAD :: ns ++ [LINKED_LIST_TAIL]) (0 :: xs ++ [UINT32_MAX]))
    with (fuel := fuel) (pred := 0) (curr := LINKED_LIST_HEAD)
    as (l1' & a' & l2' & y1' & y' & y2' & pre' & p' & El & Ey & V1 & Ea & Hlt & Hge & Ep & Es').
  - constructor; [apply K|]. by eapply klist_values.
  - exists UINT32_MAX. split; [|lia]. apply elem_of_cons. right. apply elem_of_app. right. left.
  - split; [done|]. by exists n.
  - destruct (klist_length _ _ _ _ _ K). unfold fuel. cbn. rewrite length_app. cbn. lia.
  - rewrite Es'. cbn [mbind res_bind]. rewrite Ea. cbn [mbind res_bind]. unfold answer.
    assert (y' = k <-> k ∈ xs) as Hiff.
    { destruct y1' as [|z y1']; [injection Ey as <- _; lia|]. injection Ey as <- Ey.
      assert (increasing (xs ++ [UINT32_MAX])) as Hs.
      { unfold increasing. apply StronglySorted_app. split_and!; [|apply K|by repeat constructor].
        intros x1 x2 H1 ->%list_elem_of_singleton. pose proof (kl_keys _ _ _ _ _ K) as Hf.
        apply (proj1 (Forall_forall _ _) Hf) in H1. lia. }
      rewrite Ey in Hs. assert (k ∈ xs <-> k ∈ y1' ++ y' :: y2') as ->.
      { rewrite <- Ey, elem_of_app, list_elem_of_singleton. split; [by left|]. intros [H| ->]; [done|lia]. }
      split; [intros <-; apply elem_of_app; right; left|].
      intros [Hin|[->|Hin]%elem_of_cons]%elem_of_app; [|done|].
      - specialize (Hlt k ltac:(by right)). lia.
      - apply increasing_app_inv in Hs as (_ & Hs & _). unfold increasing in Hs. apply StronglySorted_inv in Hs as [_ Hf].
        apply (proj1 (Forall_forall _ _) Hf) in Hin. lia. }
    destruct (Z.eqb_spec y' k) as [E|E].
    + by rewrite bool_decide_eq_true_2 by tauto.
    + by rewrite bool_decide_eq_false_2 by tauto.
Qed.

(** What a debug build prints is there as long as a block is free. *)
Lemma print_free_ok xs ns ls fs m : klist xs ns ls fs m -> (DEBUG_RESIDENT P = true -> fs <> []) -> print_free m = Ok tt.
Proof.
  intros K Hd. unfold print_free. destruct (DEBUG_RESIDENT P); [|done].
  destruct (kl_free _ _ _ _ _ K) as (f & Ef & Hc). destruct fs as [|b fs]; [by destruct (Hd eq_refl)|].
  destruct Hc as (-> & n & En & _). rewrite Z.add_0_r in En. rewrite Ef. cbn [mbind res_bind]. unfold free_next. by rewrite En.
Qed.

(** The first free block is taken; 0 when there is none. *)
Lemma alloc_ok xs ns f fs m : (DEBUG_RESIDENT P = true -> fs <> []) -> klist xs ns [] (f :: fs) m ->
  exists m', alloc_memory_block m = Ok (m', f) /\ f <> 0 /\ klist xs ns [f] fs m' /\
    (forall a, cell a -> a <> FREE_BLOCKS_HEAD -> ld a m' = ld a m).
Proof.
  intros Hd K. destruct (kl_free _ _ _ _ _ K) as (f' & Ef & -> & n & En & Hc). rewrite Z.add_0_r in En.
  assert (f ∈ blocks) as Hf by (eapply node_block; [exact K|right; right; left]).
  destruct (blocks_facts O f f Hf Hf) as (Hr & _).
  assert (0 <= n < 2 ^ 32) as Hn.
  { destruct fs as [|b fs]; [cbn in Hc; lia|]. destruct Hc as (-> & _).
    assert (b ∈ blocks) as Hb by (eapply node_block; [exact K|right; right; right; left]).
    destruct (blocks_facts O b b Hb Hb) as (? & _). lia. }
  destruct (store_cell FREE_BLOCKS_HEAD n m) as (m1 & E1 & _ & Ho); [apply K|cells|].
  destruct (set_free xs ns [] (f :: fs) m n [f] fs K Hn Hc (kl_blocks _ _ _ _ _ K)) as (m' & E & K').
  rewrite E in E1. injection E1 as <-. exists m'. unfold alloc_memory_block. rewrite Ef. cbn [mbind res_bind].
  rewrite (proj2 (Z.eqb_neq f 0)) by lia. cbn [negb]. unfold free_next. rewrite En. cbn [mbind res_bind].
  rewrite E. cbn [mbind res_bind]. rewrite (print_free_ok _ _ _ _ _ K' Hd). cbn [mbind res_bind].
  split_and!; [done|lia|done|]. apply Ho.
Qed.

Lemma alloc_none xs ns ls m : DEBUG_RESIDENT P = false -> klist xs ns ls [] m -> alloc_memory_block m = Ok (m, 0).
Proof.
  intros Hd K. destruct (kl_free _ _ _ _ _ K) as (f' & Ef & ->). unfold alloc_memory_block, print_free.
  rewrite Ef. cbn [mbind res_bind Z.eqb negb]. by rewrite Hd.
Qed.

Lemma ld_null m : exists e, ld 0 m = Err e.
Proof. destruct (ld 0 m) as [v|e] eqn:E; [|by exists e]. apply ld_word in E as [? _]. lia. Qed.

(** In a debug build the allocation of the last block prints the successor of
    a block that does not exist. *)
Lemma last_block_debug xs ns f m : DEBUG_RESIDENT P = true -> klist xs ns [] [f] m ->
  exists m' e, st FREE_BLOCKS_HEAD 0 m = Ok m' /\ ld 0 m' = Err e /\ alloc_memory_block m = Err e.
Proof.
  intros Hd K. destruct (kl_free _ _ _ _ _ K) as (f' & Ef & -> & n & En & ->). rewrite Z.add_0_r in En.
  assert (f ∈ blocks) as Hf by (eapply node_block; [exact K|right; right; left]).
  destruct (blocks_facts O f f Hf Hf) as (Hr & _).
  destruct (store_cell FREE_BLOCKS_HEAD 0 m) as (m1 & E1 & Ev & _); [apply K|cells|].
  destruct (ld_null m1) as [e He]. exists m1, e. split_and!; try done. unfold alloc_memory_block, print_free, free_next.
  rewrite Ef. cbn [mbind res_bind]. rewrite (proj2 (Z.eqb_neq f 0)) by lia. cbn [negb]. rewrite En. cbn [mbind res_bind].
  rewrite E1. cbn [mbind res_bind]. rewrite Hd, Ev, ul_small by lia. cbn [mbind res_bind]. by rewrite He.
Qed.

(** A block that is free for it is filled and linked in front of [a]. *)
Lemma insert_block k a l1 l2 y1 y2 f fs m pre p : klist (y1 ++ y2) (l1 ++ l2) [f] fs m ->
  LINKED_LIST_HEAD :: l1 = pre ++ [p] -> length l1 = length y1 -> chain wsz m a l2 LINKED_LIST_TAIL ->
  0 <= k < UINT32_MAX -> (forall z, z ∈ y1 -> z < k) -> k < hd UINT32_MAX y2 ->
  exists m', (m ← st (key f) k m; m ← st (next f) a m; st (next p) f m) = Ok m' /\
    klist (ins k (y1 ++ y2)) (l1 ++ f :: l2) [] fs m'.
Proof.
  intros K Lp Hlen Lc Hk Llt Lge.
  assert (ins k (y1 ++ y2) = y1 ++ k :: y2) as Hins.
  { rewrite ins_app by done. rewrite ins_gap; [done|]. intros y ys ->. exact Lge. }
  destruct (set_loose _ _ _ _ _ f (key f) k K) as (m2 & -> & E2 & Ho2 & K2); [left|by left|]. cbn [mbind res_bind].
  destruct (set_loose _ _ _ _ _ f (next f) a K2) as (m3 & -> & E3 & Ho3 & K3); [left|by right|]. cbn [mbind res_bind].
  assert (f ∈ blocks) as Hf by (eapply node_block; [exact K|right; left; left]).
  destruct (blocks_facts O f f Hf Hf) as (Hfr & _).
  assert (forall b, b ∈ l1 ++ l2 -> b ∈ blocks /\ b <> f) as Hb.
  { intros b Hb. split; [eapply node_block; [exact K|tauto]|]. intros ->.
    destruct (klist_NoDup _ _ _ _ _ K) as (_ & _ & D & _). apply (proj1 (D f Hb)). left. }
  assert (0 <= a < 2 ^ 32) as Har.
  { destruct l2 as [|b l2]; [cbn in Lc; rewrite Lc; pose proof (sreg_small 6 O ltac:(lia)); unfold LINKED_LIST_TAIL; lia|].
    destruct Lc as (-> & _). destruct (Hb b) as [Hbb _]; [apply elem_of_app; right; left|].
    destruct (blocks_facts O b b Hbb Hbb) as (? & _). lia. }
  assert (chain wsz m3 a l2 LINKED_LIST_TAIL) as C3.
  { eapply only_chain, only_chain, Lc; [exact Ho3| |exact Ho2|]; intros b Hbl;
      (destruct (Hb b) as [Hbb Hne]; [apply elem_of_app; by right|]); (split; [done|]); [by apply ne_next_next|apart]. }
  pose proof (kl_values _ _ _ _ _ K3) as V. apply Forall2_app_inv in V as [V1 V2]; [|done].
  assert (ld (key f) m3 = Ok k) as Ek.
  { rewrite (proj2 Ho3) by (cells || apart). rewrite E2. f_equal. apply ul_small. unfold UINT32_MAX in *. lia. }
  pose proof (kl_keys _ _ _ _ _ K) as Hf'. apply Forall_app in Hf' as [F1 F2].
  apply (set_next (y1 ++ y2) l1 l2 [f] fs m3 pre p f _ (f :: l2) []); try done; rewrite ?Hins.
  - lia.
  - split; [done|]. exists a. split; [by rewrite <- (ul_small a)|done].
  - rewrite <- (kl_blocks _ _ _ _ _ K). rewrite <- !app_assoc. apply Permutation_app_head.
    by rewrite <- app_comm_cons, Permutation_middle.
  - apply Forall2_app; [done|]. by constructor.
  - rewrite <- Hins. apply ins_increasing, K.
  - apply Forall_app. split; [done|]. by constructor.
Qed.

(** How many keys can be added: the blocks, but in a debug build the last of them,
    whose allocation prints through a null pointer ([last_block_debug]). *)
Definition room : nat := if DEBUG_RESIDENT P then pred (Z.to_nat NUM_MEM_BLOCKS) else Z.to_nat NUM_MEM_BLOCKS.

Lemma list_add_ok k xs ns fs m : (DEBUG_RESIDENT P = true -> k ∈ xs \/ (length xs < room)%nat) -> klist xs ns [] fs m -> 0 <= k < UINT32_MAX ->
  exists m' r xs' ns' fs', list_add k m = Ok (m', r) /\ klist xs' ns' [] fs' m' /\
    (r, xs') = if bool_decide (k ∈ xs) then (0, xs)
               else if bool_decide (length xs = Z.to_nat NUM_MEM_BLOCKS) then (0, xs) else (1, ins k xs).
Proof.
  intros Hd K Hk. destruct (locate k xs ns [] fs m K) as (n & l1 & l2 & y1 & y2 & pre & p & a & En & Es & L); [lia|].
  pose proof (located_key _ _ _ _ _ _ _ _ _ _ _ L (kl_sorted _ _ _ _ _ K) (kl_keys _ _ _ _ _ K) (proj2 Hk)) as Hiff.
  destruct (klist_length _ _ _ _ _ K) as [Hl1 Hl2]. cbn [length] in Hl2.
  unfold list_add. rewrite En. cbn [mbind res_bind]. rewrite Es. cbn [mbind res_bind].
  rewrite (proj1 (lo_curr _ _ _ _ _ _ _ _ _ _ _ L)). cbn [mbind res_bind].
  destruct (Z.eqb_spec (hd UINT32_MAX y2) k) as [E|E].
  { exists m, 0, xs, ns, fs. by rewrite bool_decide_eq_true_2 by tauto. }
  assert (k ∉ xs) as Hno by tauto. rewrite (bool_decide_eq_false_2 (k ∈ xs)) by done.
  assert (DEBUG_RESIDENT P = true -> (2 <= length fs)%nat) as Hfs.
  { intros D. destruct (Hd D) as [?|Hlt]; [done|]. unfold room in Hlt. rewrite D in Hlt. lia. }
  destruct fs as [|f fs].
  { assert (DEBUG_RESIDENT P = false) as D by (apply not_true_is_false; intros D; specialize (Hfs D); cbn in Hfs; lia).
    rewrite (alloc_none _ _ _ _ D K). cbn [mbind res_bind]. exists m, 0, xs, ns, []. split; [done|]. split; [done|].
    rewrite bool_decide_eq_true_2; [done|]. cbn in Hl2. lia. }
  assert (DEBUG_RESIDENT P = true -> fs <> []) as Hd' by (intros D ->; specialize (Hfs D); cbn in Hfs; lia).
  destruct (alloc_ok _ _ _ _ _ Hd' K) as (m1 & -> & Hf0 & K1 & Ho1). cbn [mbind res_bind].
  rewrite (proj2 (Z.eqb_neq f 0)) by done. rewrite bool_decide_eq_false_2 by (cbn in Hl2; lia).
  destruct L as [-> -> Lp L1 L2 Lc Llt [_ Lge]].
  destruct (insert_block k a l1 l2 y1 y2 f fs m1 pre p) as (m4 & E4 & K4); try done.
  - by apply Forall2_length in L1.
  - eapply chain_ext; [|exact Lc]. intros b Hbl.
    assert (b ∈ blocks) as Hb by (eapply node_block; [exact K|left; apply elem_of_app; by right]).
    change (ld (next b) m1 = ld (next b) m). apply Ho1; [cells|]. unfold FREE_BLOCKS_HEAD. apart.
  - lia.
  - exists m4, 1, (ins k (y1 ++ y2)), (l1 ++ f :: l2), fs. split; [|by split].
    destruct (st (key f) k m1) as [m2|]; [|done]. cbn [mbind res_bind] in E4 |- *.
    destruct (st (next f) a m2) as [m3|]; [|done]. cbn [mbind res_bind] in E4 |- *. by rewrite E4.
Qed.

(** Where a debug build has no room left, an addition reads through a null
    pointer. *)
Lemma list_add_debug k xs ns fs m : DEBUG_RESIDENT P = true -> klist xs ns [] fs m -> 0 <= k < UINT32_MAX ->
  k ∉ xs -> length xs = room -> exists e, list_add k m = Err e.
Proof.
  intros D K Hk Hno Hl. destruct (locate k xs ns [] fs m K) as (n & l1 & l2 & y1 & y2 & pre & p & a & En & Es & L); [lia|].
  pose proof (located_key _ _ _ _ _ _ _ _ _ _ _ L (kl_sorted _ _ _ _ _ K) (kl_keys _ _ _ _ _ K) (proj2 Hk)) as Hiff.
  destruct (klist_length _ _ _ _ _ K) as [Hl1 Hl2]. cbn [length] in Hl2. unfold room in Hl. rewrite D in Hl.
  unfold list_add. rewrite En. cbn [mbind res_bind]. rewrite Es. cbn [mbind res_bind].
  rewrite (proj1 (lo_curr _ _ _ _ _ _ _ _ _ _ _ L)). cbn [mbind res_bind].
  rewrite (proj2 (Z.eqb_neq (hd UINT32_MAX y2) k)) by tauto.
  destruct fs as [|f [|f' fs]]; [| |cbn in Hl2; lia].
  - destruct (kl_free _ _ _ _ _ K) as (f' & Ef & ->). destruct (ld_null m) as [e He]. exists e.
    unfold alloc_memory_block, print_free. rewrite Ef. cbn [mbind res_bind Z.eqb negb]. rewrite D, Ef. cbn [mbind res_bind].
    unfold free_next. by rewrite He.
  - destruct (last_block_debug _ _ _ _ D K) as (m' & e & _ & _ & ->). by exists e.
Qed.

(** The node is unlinked and its block becomes the first free one. *)
Lemma remove_block x a l1 l2 y1 y2 fs m pre p :
  klist (y1 ++ x :: y2) (l1 ++ a :: l2) [] fs m -> LINKED_LIST_HEAD :: l1 = pre ++ [p] -> length l1 = length y1 ->
  exists n m', ld (next a) m = Ok n /\ (m ← st (next p) n m; free_memory_block a m) = Ok m' /\
    klist (y1 ++ y2) (l1 ++ l2) [] (a :: fs) m'.
Proof.
  intros K Lp Hlen. pose proof (kl_chain _ _ _ _ _ K) as C. rewrite app_comm_cons in C.
  apply chain_app in C as (r & _ & -> & n & En & Lc). exists n.
  pose proof (kl_blocks _ _ _ _ _ K) as Hp.
  assert (a ∈ blocks) as Ha by (eapply node_block; [exact K|left; apply elem_of_app; right; left]).
  destruct (blocks_facts O a a Ha Ha) as (Har & _).
  assert (0 <= n < 2 ^ 32) as Hn.
  { destruct l2 as [|b l2]; [cbn in Lc; rewrite Lc; pose proof (sreg_small 6 O ltac:(lia)); unfold LINKED_LIST_TAIL; lia|].
    destruct Lc as (-> & _). assert (b ∈ blocks) as Hb by (eapply node_block; [exact K|left; apply elem_of_app; right; right; left]).
    destruct (blocks_facts O b b Hb Hb) as (? & _). lia. }
  pose proof (kl_values _ _ _ _ _ K) as V. apply Forall2_app_inv in V as [V1 V2]; [|done]. apply Forall2_cons_1 in V2 as [_ V2].
  pose proof (kl_keys _ _ _ _ _ K) as F. apply Forall_app in F as [F1 F2]. apply Forall_cons in F2 as [_ F2].
  destruct (set_next (y1 ++ x :: y2) l1 (a :: l2) [] fs m pre p n (y1 ++ y2) l2 [a]) as (m1 & E1 & K1); try done.
  - rewrite <- Hp, <- !app_assoc. apply Permutation_app_head. cbn [app]. by rewrite Permutation_middle.
  - by apply Forall2_app.
  - rewrite <- (del_middle x) by apply K. apply del_increasing, K.
  - by apply Forall_app.
  - rewrite E1. cbn [mbind res_bind]. unfold free_memory_block.
    destruct (kl_free _ _ _ _ _ K1) as (f & Ef & Hf). rewrite Ef. cbn [mbind res_bind].
    destruct (set_loose _ _ _ _ _ a (key a) f K1) as (m2 & E2 & Ea & Ho2 & K2); [left|by left|].
    unfold free_next. unfold key in E2. rewrite E2. cbn [mbind res_bind].
    assert (0 <= f < 2 ^ 32) as Hfr.
    { destruct fs as [|b fs]; [cbn in Hf; lia|]. destruct Hf as (-> & _).
      assert (b ∈ blocks) as Hb by (eapply node_block; [exact K|right; right; left]).
      destruct (blocks_facts O b b Hb Hb) as (? & _). lia. }
    destruct (set_free _ _ _ _ _ a [] (a :: fs) K2) as (m3 & E3 & K3); try done.
    + lia.
    + split; [done|]. exists f. rewrite Z.add_0_r. split; [by rewrite <- (ul_small f)|].
      destruct (kl_free _ _ _ _ _ K2) as (f' & Ef' & Hf'). rewrite (proj2 Ho2) in Ef'; [|cells|unfold FREE_BLOCKS_HEAD; apart].
      rewrite Ef in Ef'. by injection Ef' as <-.
    + rewrite <- (kl_blocks _ _ _ _ _ K1). done.
    + rewrite E3. cbn [mbind res_bind]. rewrite (print_free_ok _ _ _ _ _ K3) by done. by exists m3.
Qed.

Lemma list_remove_ok k xs ns fs m : klist xs ns [] fs m -> 0 <= k < UINT32_MAX ->
  exists m' ns' fs', list_remove k m = Ok (m', answer (bool_decide (k ∈ xs))) /\ klist (del k xs) ns' [] fs' m'.
Proof.
  intros K Hk. destruct (locate k xs ns [] fs m K) as (n & l1 & l2 & y1 & y2 & pre & p & a & En & Es & L); [lia|].
  pose proof (located_key _ _ _ _ _ _ _ _ _ _ _ L (kl_sorted _ _ _ _ _ K) (kl_keys _ _ _ _ _ K) (proj2 Hk)) as Hiff.
  unfold list_remove. rewrite En. cbn [mbind res_bind]. rewrite Es. cbn [mbind res_bind].
  rewrite (proj1 (lo_curr _ _ _ _ _ _ _ _ _ _ _ L)). cbn [mbind res_bind].
  destruct (Z.eqb_spec (hd UINT32_MAX y2) k) as [E|E]; cbn [negb].
  - rewrite bool_decide_eq_true_2 by tauto. destruct L as [-> -> Lp L1 L2 Lc Llt [Lk Lge]].
    destruct y2 as [|y y2]; [cbn in E; lia|]. cbn in E. subst y.
    destruct l2 as [|b l2]; [by inversion L2|]. pose proof Lc as (-> & _).
    destruct (remove_block k b l1 l2 y1 y2 fs m pre p K Lp) as (n' & m' & -> & E & K').
    { by apply Forall2_length in L1. }
    cbn [mbind res_bind]. exists m', (l1 ++ l2), (b :: fs). rewrite (del_middle k) by apply K. split; [|done].
    destruct (st (next p) n' m) as [m1|]; [|done]. cbn [mbind res_bind] in E |- *. by rewrite E.
  - rewrite bool_decide_eq_false_2 by tauto. exists m, ns, fs. split; [done|]. by rewrite del_notin by tauto.
Qed.

(** ** The free list of [list_init] *)
Lemma init_blocks_ok n : forall i fs f m, (i + n)%nat = Z.to_nat NUM_MEM_BLOCKS -> mapped cell m ->
  ld FREE_BLOCKS_HEAD m = Ok f -> 0 <= f < 2 ^ 32 -> chain 0 m f fs 0 -> (forall a, a ∈ fs -> exists j, (j < i)%nat /\ a = block j) ->
  exists m' f', init_blocks n (Z.of_nat i) m = Ok m' /\ mapped cell m' /\ ld FREE_BLOCKS_HEAD m' = Ok f' /\
    chain 0 m' f' (rev (block <$> seq i n) ++ fs) 0.
Proof.
  induction n as [|n IH]; intros i fs f m Hi Hm Ef Hf Hc Hfs; cbn [init_blocks]; [by exists m, f|].
  assert (block i ∈ blocks) as Hb by (apply elem_of_blocks; exists i; split; [lia|done]).
  destruct (blocks_facts O _ _ Hb Hb) as (Hbr & _).
  change (PIM_VREG P + Z.of_nat i * BLOCK_SIZE) with (block i). rewrite (ul_small (block i)) by lia.
  rewrite Ef. cbn [mbind res_bind].
  destruct (store_cell (free_next (block i)) f m Hm) as (m1 & E1 & Ev1 & Ho1); [by apply (block_cell (block i))|].
  rewrite E1. cbn [mbind res_bind].
  destruct (store_cell FREE_BLOCKS_HEAD (block i) m1) as (m2 & E2 & Ev2 & Ho2); [apply Ho1|cells|].
  rewrite E2. cbn [mbind res_bind]. rewrite (ul_small (block i)) in Ev2 by lia.
  assert (forall a, a ∈ fs -> a ∈ blocks /\ a <> block i) as Hfb.
  { intros a (j & Hj & ->)%Hfs. split; [apply elem_of_blocks; exists j; split; [lia|done]|].
    unfold block, BLOCK_SIZE. pose proof wsz_ok. nia. }
  destruct (IH (S i) (block i :: fs) (block i) m2) as (m' & f' & E & Hm' & Ef' & Hc'); try done.
  - lia.
  - apply Ho2.
  - lia.
  - split; [done|]. exists f. rewrite Z.add_0_r. split.
    + change (ld (key (block i)) m2 = Ok f). rewrite (proj2 Ho2); [|cells|unfold FREE_BLOCKS_HEAD; apart].
      change (ld (free_next (block i)) m1 = Ok f). by rewrite Ev1, ul_small.
    + eapply only_free, only_free, Hc; [exact Ho2| |exact Ho1|]; intros a Ha; destruct (Hfb a Ha) as [Hab Hne]; (split; [done|]).
      * unfold FREE_BLOCKS_HEAD. apart.
      * done.
  - intros a [->|Ha]%elem_of_cons; [exists i; split; [lia|done]|]. destruct (Hfs a Ha) as (j & Hj & ->). exists j. split; [lia|done].
  - exists m', f'. replace (Z.of_nat i + 1) with (Z.of_nat (S i)) by lia. split_and!; try done.
    cbn [seq fmap list_fmap rev]. by rewrite <- app_assoc.
Qed.

Lemma list_init_ok m : mapped cell m -> exists m', list_init m = Ok m' /\ klist [] [] [] (rev blocks) m'.
Proof.
  intros Hm. unfold list_init.
  destruct (store_cell FREE_BLOCKS_HEAD 0 m Hm) as (m0 & -> & E0 & Ho0); [cells|]. cbn [mbind res_bind].
  rewrite (ul_small 0) in E0 by lia.
  destruct (init_blocks_ok (Z.to_nat NUM_MEM_BLOCKS) 0 [] 0 m0) as (m1 & f & Ei & Hm1 & Ef & Hc);
    [done|apply Ho0|done|lia|done|intros a Ha; by apply elem_of_nil in Ha|].
  change (Z.of_nat 0) with 0 in Ei. rewrite Ei. cbn [mbind res_bind]. rewrite app_nil_r in Hc. fold blocks in Hc. unfold FREE_BLOCKS_HEAD in Ef.
  unfold key, LINKED_LIST_HEAD, LINKED_LIST_TAIL. rewrite !next_sreg. change (4 + 1) with 5. change (6 + 1) with 7.
  destruct (store_cell (sreg 4) 0 m1 Hm1) as (m2 & -> & E2 & Ho2); [cells|]. cbn [mbind res_bind].
  destruct (store_cell (sreg 5) (sreg 6) m2) as (m3 & -> & E3 & Ho3); [apply Ho2|cells|]. cbn [mbind res_bind].
  destruct (store_cell (sreg 6) UINT32_MAX m3) as (m4 & -> & E4 & Ho4); [apply Ho3|cells|]. cbn [mbind res_bind].
  destruct (store_cell (sreg 7) 0 m4) as (m5 & -> & E5 & Ho5); [apply Ho4|cells|]. exists m5. split; [done|].
  pose proof (sreg_small 6 O ltac:(lia)) as H6.
  rewrite ul_small in E2, E3, E4, E5 by (unfold UINT32_MAX; lia).
  assert (forall i v mA mB c, only c mA mB -> 0 <= i < 8 -> sreg i <> c -> ld (sreg i) mA = Ok v -> ld (sreg i) mB = Ok v) as R.
  { intros i v mA mB c Ho Hi Hne E. eapply only_ld; [exact Ho|cells|done|done]. }
  assert (forall mA mB c f, only c mA mB -> (exists i, 0 <= i < 8 /\ c = sreg i) -> chain 0 mA f (rev blocks) 0 ->
    chain 0 mB f (rev blocks) 0) as F.
  { intros mA mB c f' Ho (i & Hi & ->) H. eapply only_free; [exact Ho| |exact H]. intros a Ha.
    assert (a ∈ blocks) as Hb by (by rewrite (Permutation_rev blocks)). split; [done|]. apart. }
  split; try done.
  - apply Ho5.
  - by do 3 (eapply R; [eassumption|lia|apart|]).
  - by do 1 (eapply R; [eassumption|lia|apart|]).
  - split; [done|]. exists (sreg 6). split; [|done]. change (ld (next (sreg 4)) m5 = Ok (sreg 6)). rewrite next_sreg.
    by do 2 (eapply R; [eassumption|lia|apart|]).
  - constructor.
  - constructor.
  - exists f. split.
    + by do 4 (eapply R; [eassumption|lia|apart|]).
    + by do 4 (eapply F; [eassumption|eexists; split; [|reflexivity]; lia|]).
  - cbn. symmetry. apply Permutation_rev.
Qed.

(** ** The kernel is a bounded set *)

(** What a command does to the set, and its answer; [cap] keys fit. *)
Definition list_spec (cap : nat) (command k : Z) (xs : list Z) : list Z * option Z :=
  if command =? 0 then ([], None)
  else if command =? 1 then
    if bool_decide (k ∈ xs) then (xs, Some 0) else if bool_decide (length xs = cap) then (xs, Some 0) else (ins k xs, Some 1)
  else if command =? 2 then (del k xs, Some (answer (bool_decide (k ∈ xs))))
  else if command =? 3 then (xs, Some (answer (bool_decide (k ∈ xs))))
  else (xs, None).

(** Between commands. *)
Definition Rep (xs : list Z) (m : M) : Prop := exists ns fs, klist xs ns [] fs m.

(** A store to an argument or to the answer. *)
Lemma set_arg xs m i v : Rep xs m -> 0 <= i < 3 ->
  exists m', st (sreg i) v m = Ok m' /\ ld (sreg i) m' = Ok (ul v) /\ only (sreg i) m m' /\ Rep xs m'.
Proof.
  intros (ns & fs & K) Hi. destruct (store_cell (sreg i) v m) as (m' & E & Ev & Ho); [apply K|cells|].
  exists m'. split_and!; try done. exists ns, fs.
  assert (forall a, a ∈ ns \/ a ∈ fs -> a ∈ blocks) as Hn by (intros a Ha; eapply node_block; [exact K|tauto]).
  split; try apply K; try (eapply only_ld; [exact Ho|cells|apart|apply K]).
  - apply Ho.
  - eapply head_chain; [exact Ho|apart| |apply K]. intros a Ha. pose proof (Hn a (or_introl Ha)). split; [done|]. apart.
  - eapply only_values; [exact Ho| |apply K]. intros a Ha. pose proof (Hn a (or_introl Ha)). split; [done|]. apart.
  - destruct (kl_free _ _ _ _ _ K) as (f & Ef & Hf). exists f. unfold FREE_BLOCKS_HEAD in *. split.
    + eapply only_ld; [exact Ho|cells|apart|done].
    + eapply only_free; [exact Ho| |done]. intros a Ha. pose proof (Hn a (or_intror Ha)). split; [done|]. apart.
Qed.

(** The kernel ends on every command and does what the set does: the first
    command makes the set empty whatever the memory held, an addition fails
    when every block is in use, and the answer is in its register. *)
Lemma list_kernel_ok (m : M) (command k : Z) (xs : list Z) :
  (DEBUG_RESIDENT P = true -> command = 1 -> k ∈ xs \/ (length xs < room)%nat) ->
  ld (sreg 0) m = Ok command -> ld (sreg 1) m = Ok k ->
  (command = 0 /\ mapped cell m \/ Rep xs m /\ (1 <= command <= 3 -> 0 < k < UINT32_MAX)) ->
  exists m', execute_kernel m = Ok m' /\ Rep (fst (list_spec (Z.to_nat NUM_MEM_BLOCKS) command k xs)) m' /\
    forall r, snd (list_spec (Z.to_nat NUM_MEM_BLOCKS) command k xs) = Some r -> ld (sreg 2) m' = Ok r.
Proof.
  intros Hd E0 E1 H. unfold execute_kernel, list_spec. rewrite E0, E1. cbn [mbind res_bind].
  destruct H as [[-> Hm]|[R Hk]].
  { destruct (list_init_ok m Hm) as (m' & -> & K). exists m'. split; [done|]. split; [by exists [], (rev blocks)|done]. }
  destruct (Z.eqb_spec command 0) as [->|N0].
  { destruct R as (ns & fs & K). destruct (list_init_ok m (kl_mapped _ _ _ _ _ K)) as (m' & -> & K').
    exists m'. split; [done|]. split; [by exists [], (rev blocks)|done]. }
  assert (forall x b (m0 : M) ys, Rep ys m0 -> x = answer b ->
    exists m', st (sreg 2) x m0 = Ok m' /\ Rep ys m' /\ forall r, Some x = Some r -> ld (sreg 2) m' = Ok r) as Store.
  { intros x b m0 ys R0 ->. destruct (set_arg ys m0 2 (answer b) R0) as (m' & E & Ev & _ & R'); [lia|]. exists m'.
    split_and!; [done..|]. intros r [= <-]. by rewrite Ev, ul_small by (destruct b; cbn; lia). }
  destruct R as (ns & fs & K).
  destruct (Z.eqb_spec command 1) as [->|N1].
  { destruct (list_add_ok k xs ns fs m (fun D => Hd D eq_refl) K) as (m' & r & xs' & ns' & fs' & -> & K' & Hr); [lia|]. cbn [mbind res_bind].
    assert (Rep xs' m') as R' by (by exists ns', fs').
    destruct (Store r (negb (r =? 0)) m' xs' R') as (m2 & -> & R2 & A2);
      [repeat case_decide; by injection Hr as -> _|]. exists m2. split; [done|].
    repeat case_decide; injection Hr as <- <-; by split. }
  destruct (Z.eqb_spec command 2) as [->|N2].
  { destruct (list_remove_ok k xs ns fs m K) as (m' & ns' & fs' & -> & K'); [lia|]. cbn [mbind res_bind].
    by apply (Store _ (bool_decide (k ∈ xs))); [exists ns', fs'|]. }
  destruct (Z.eqb_spec command 3) as [->|N3].
  { rewrite (list_contains_ok k xs ns [] fs m K) by lia. cbn [mbind res_bind].
    by apply (Store _ (bool_decide (k ∈ xs))); [exists ns, fs|]. }
  exists m. split; [done|]. by split; [exists ns, fs|].
Qed.

(** A session of the host: every command with its argument, and the answers. *)
Fixpoint session (commands : list (Z * Z)) (m : M) : res (M * list Z) :=
  match commands with
  | [] => Ok (m, [])
  | (command, k) :: commands =>
      m ← st (sreg 0) command m;
      m ← st (sreg 1) k m;
      m ← execute_kernel m;
      r ← ld (sreg 2) m;
      '(m, rs) ← session commands m;
      Ok (m, r :: rs)
  end.

Fixpoint spec_session (cap : nat) (commands : list (Z * Z)) (xs : list Z) : list Z * list Z :=
  match commands with
  | [] => (xs, [])
  | (command, k) :: commands =>
      let '(xs, r) := list_spec cap command k xs in
      let '(xs, rs) := spec_session cap commands xs in
      (xs, default 0 r :: rs)
  end.

Definition operation (c : Z * Z) : Prop := 1 <= fst c <= 3 /\ 0 < snd c < UINT32_MAX.

Lemma operation_answer cap command k xs : 1 <= command <= 3 -> exists ys r, list_spec cap command k xs = (ys, Some r).
Proof.
  intros H. assert (command = 1 \/ command = 2 \/ command = 3) as [->|[->| ->]] by lia; cbn [list_spec Z.eqb Pos.eqb];
    repeat case_bool_decide; do 2 eexists; reflexivity.
Qed.

(** In a debug build the keys never fill the last block. *)
Definition fits (commands : list (Z * Z)) (xs : list Z) : Prop := DEBUG_RESIDENT P = true ->
  0 < NUM_MEM_BLOCKS /\ forall l1 l2, commands = l1 ++ l2 ->
  (length (fst (spec_session (Z.to_nat NUM_MEM_BLOCKS) l1 xs)) <= room)%nat.

Lemma spec_session_cons cap command k l xs :
  fst (spec_session cap ((command, k) :: l) xs) = fst (spec_session cap l (fst (list_spec cap command k xs))).
Proof. cbn [spec_session]. destruct (list_spec cap command k xs) as [ys r]. cbn [fst]. by destruct (spec_session cap l ys). Qed.

Lemma fits_cons command k l xs : fits ((command, k) :: l) xs ->
  fits l (fst (list_spec (Z.to_nat NUM_MEM_BLOCKS) command k xs)) /\
  (increasing xs -> DEBUG_RESIDENT P = true -> command = 1 -> k ∈ xs \/ (length xs < room)%nat).
Proof.
  intros F. split.
  - intros D. destruct (F D) as [HN Hf]. split; [done|]. intros l1 l2 ->.
    rewrite <- (spec_session_cons _ command k l1 xs). by apply (Hf _ l2).
  - intros Hi D ->. destruct (decide (k ∈ xs)) as [|Hk]; [by left|right].
    destruct (F D) as [HN Hf]. pose proof (Hf [] _ eq_refl) as F0. pose proof (Hf [(1, k)] l eq_refl) as F1. rewrite spec_session_cons in F1.
    cbn [spec_session fst list_spec Z.eqb Pos.eqb] in F0, F1. rewrite bool_decide_eq_false_2 in F1 by done.
    unfold room in *. rewrite D in *.
    case_bool_decide; cbn [fst] in F1; [lia|]. rewrite (Permutation_length (ins_perm k xs Hi Hk)) in F1. cbn in F1. lia.
Qed.

(** A session on a list. *)
Lemma session_ok commands : Forall operation commands -> forall xs m, Rep xs m -> fits commands xs ->
  exists m', session commands m = Ok (m', snd (spec_session (Z.to_nat NUM_MEM_BLOCKS) commands xs)) /\
    Rep (fst (spec_session (Z.to_nat NUM_MEM_BLOCKS) commands xs)) m'.
Proof.
  induction 1 as [|[command k] commands [Hcmd Hkey] _ IH]; intros xs m R F; [by exists m|].
  cbn [fst snd] in Hcmd, Hkey. apply fits_cons in F as [F Fd]. cbn [session spec_session].
  destruct (set_arg xs m 0 command R) as (m1 & -> & A1 & _ & R1); [lia|]. cbn [mbind res_bind].
  destruct (set_arg xs m1 1 k R1) as (m2 & -> & A2 & Ho2 & R2); [lia|]. cbn [mbind res_bind].
  unfold UINT32_MAX in Hkey. rewrite ul_small in A1, A2 by lia.
  assert (increasing xs) as Hi by (destruct R as (ns & fs & K); apply K).
  destruct (list_kernel_ok m2 command k xs (Fd Hi)) as (m3 & -> & R3 & A3);
    [eapply only_ld; [exact Ho2|cells|apart|done]|done|by right|].
  destruct (operation_answer (Z.to_nat NUM_MEM_BLOCKS) command k xs Hcmd) as (ys & r & El). rewrite El in R3, A3, F |- *.
  cbn [mbind res_bind]. rewrite (A3 r eq_refl). cbn [mbind res_bind fst] in R3, F |- *. destruct (IH ys m3 R3 F) as (m4 & E4 & R4).
  rewrite E4. destruct (spec_session _ commands ys) as [zs rs]. cbn [mbind res_bind]. by exists m4.
Qed.

(** One more key than a debug build has room for. *)
Lemma session_overfull k xs m : DEBUG_RESIDENT P = true -> Rep xs m -> length xs = room -> 0 < k < UINT32_MAX -> k ∉ xs ->
  exists e, session [(1, k)] m = Err e.
Proof.
  intros D R Hl Hk Hno. cbn [session].
  destruct (set_arg xs m 0 1 R) as (m1 & -> & A1 & _ & R1); [lia|]. cbn [mbind res_bind].
  destruct (set_arg xs m1 1 k R1) as (m2 & -> & A2 & Ho2 & ns & fs & K); [lia|]. cbn [mbind res_bind].
  rewrite ul_small in A1, A2 by (unfold UINT32_MAX in *; lia).
  destruct (list_add_debug k xs ns fs m2 D K) as [e E]; [lia|done|done|]. exists e.
  assert (ld (sreg 0) m2 = Ok 1) as A0 by (eapply only_ld; [exact Ho2|cells|apart|done]).
  unfold execute_kernel. rewrite A0, A2. cbn [mbind res_bind Z.eqb Pos.eqb]. by rewrite E.
Qed.

(** C8. Whatever the memory of the processor holds, the first command makes the
    list empty; then every sequence of operations on keys between those of the
    sentinels ends, with the answers and the keys of a set that holds as many
    keys as there are blocks, and with every block either in the list or free.  A
    debug build does the same as long as one block stays free, and reads through a
    null pointer when a new key needs the last one. *)
Theorem linked_list_kernel (m : M) (commands : list (Z * Z)) : mapped cell m -> Forall operation commands ->
  fits commands [] ->
  exists m0 m1 m2, st (sreg 0) 0 m = Ok m0 /\ execute_kernel m0 = Ok m1 /\
    let xs := fst (spec_session (Z.to_nat NUM_MEM_BLOCKS) commands []) in
    session commands m1 = Ok (m2, snd (spec_session (Z.to_nat NUM_MEM_BLOCKS) commands [])) /\ Rep xs m2 /\
    (DEBUG_RESIDENT P = true -> length xs = room -> forall k, 0 < k < UINT32_MAX -> k ∉ xs ->
       exists e, session [(1, k)] m2 = Err e).
Proof.
  intros Hm Hc F. destruct (store_cell (sreg 0) 0 m) as (m0 & E0 & A0 & Ho); [done|cells|].
  destruct (Hm (sreg 1)) as [k Ek]; [cells|].
  destruct (list_kernel_ok m0 0 k []) as (m1 & E1 & R1 & _); [done|by rewrite ul_small in A0 by lia|..].
  { eapply only_ld; [exact Ho|cells|apart|done]. } { left. split; [done|apply Ho]. }
  destruct (session_ok commands Hc [] m1 R1 F) as (m2 & E2 & R2). exists m0, m1, m2. do 2 (split; [done|]).
  cbv zeta. do 2 (split; [done|]). intros D Hl k' Hk Hno. by eapply session_overfull.
Qed.

(** ** Keys of the sentinels *)

(** Past its last key the loop follows the null pointer. *)
Lemma search_off k m e L Y : ld 0 m = Err e -> values m L Y -> (forall y, y ∈ Y -> y < k) -> forall fuel pred curr,
  chain wsz m curr L 0 -> (length L < fuel)%nat -> search fuel k pred curr m = Err e.
Proof.
  intros He. unfold values. induction 1 as [|a y L Y E V IH]; intros Hy fuel pred curr Hc Hf; destruct fuel as [|fuel]; try (cbn in Hf; lia).
  - cbn in Hc. subst curr. cbn [search]. unfold key. by rewrite He.
  - destruct Hc as (-> & n & En & Hc). cbn [search]. unfold key. rewrite E. cbn [mbind res_bind].
    rewrite (proj2 (Z.ltb_lt y k)) by (apply Hy; left). unfold next. rewrite En. cbn [mbind res_bind].
    apply IH; [|done|cbn in Hf; lia]. intros z Hz. apply Hy. by right.
Qed.

Lemma contains_off k m e L Y : ld 0 m = Err e -> values m L Y -> (forall y, y ∈ Y -> y < k) -> 0 < k ->
  ld (sreg 4) m = Ok 0 -> chain wsz m LINKED_LIST_HEAD (LINKED_LIST_HEAD :: L) 0 -> (length L <= Z.to_nat NUM_MEM_BLOCKS + 1)%nat ->
  list_contains k m = Err e.
Proof.
  intros He V Hy Hk E4 Hc Hl. unfold list_contains.
  rewrite (search_off k m e (LINKED_LIST_HEAD :: L) (0 :: Y)); try done.
  - by constructor.
  - intros y [->|Hin]%elem_of_cons; [done|by apply Hy].
  - unfold fuel. cbn [length]. lia.
Qed.

(** Removing the greatest key unlinks the tail sentinel. *)
Lemma remove_tail xs ns fs m : DEBUG_RESIDENT P = false -> klist xs ns [] fs m ->
  exists m', list_remove UINT32_MAX m = Ok (m', 1) /\ values m' ns xs /\ ld (sreg 4) m' = Ok 0 /\
    chain wsz m' LINKED_LIST_HEAD (LINKED_LIST_HEAD :: ns) 0.
Proof.
  intros Hd K. destruct (locate UINT32_MAX xs ns [] fs m K) as (n & l1 & l2 & y1 & y2 & pre & p & a & En & Es & L); [lia|].
  destruct L as [-> -> Lp L1 L2 Lc Llt [Lk Lge]].
  assert (y2 = []) as ->.
  { destruct y2 as [|y y2]; [done|]. cbn in Lge. pose proof (kl_keys _ _ _ _ _ K) as F. apply Forall_app in F as [_ F].
    apply Forall_cons in F as [? _]. lia. }
  assert (l2 = []) as -> by by inversion L2. cbn in Lc. subst a. rewrite !app_nil_r in *.
  assert (forall b, b ∈ l1 -> b ∈ blocks) as Hn by (intros b Hb; eapply node_block; [exact K|tauto]).
  destruct (next_cell l1 p Hn) as (Hcc & Hr & Hka); [rewrite Lp; apply elem_of_app; right; left|].
  destruct (store_cell (next p) 0 m) as (m1 & E1 & Ev1 & Ho1); [apply K|done|]. rewrite ul_small in Ev1 by lia.
  pose proof (relink_to m m1 l1 pre p _ 0 Hn (proj1 (klist_NoDup _ _ _ _ _ K)) Lp Ho1 Ev1 (kl_chain _ _ _ _ _ K)) as C1.
  destruct (proj1 Ho1 FREE_BLOCKS_HEAD) as [f Ef]; [cells|].
  destruct (store_cell (sreg 6) f m1) as (m2 & E2 & _ & Ho2); [apply Ho1|cells|].
  destruct (store_cell FREE_BLOCKS_HEAD (sreg 6) m2) as (m3 & E3 & _ & Ho3); [apply Ho2|cells|].
  exists m3. split_and!.
  - unfold list_remove. rewrite En. cbn [mbind res_bind]. rewrite Es. cbn [mbind res_bind]. rewrite Lk. cbn [mbind res_bind hd].
    rewrite Z.eqb_refl. cbn [negb]. change (next LINKED_LIST_TAIL) with (next (sreg 6)). rewrite next_sreg. change (6 + 1) with 7.
    rewrite (kl_end _ _ _ _ _ K). cbn [mbind res_bind]. rewrite E1. cbn [mbind res_bind]. unfold free_memory_block.
    rewrite Ef. cbn [mbind res_bind]. change (free_next LINKED_LIST_TAIL) with (sreg 6). rewrite E2. cbn [mbind res_bind].
    change LINKED_LIST_TAIL with (sreg 6). rewrite E3. cbn [mbind res_bind]. unfold print_free. by rewrite Hd.
  - eapply only_values, only_values, only_values, K; [exact Ho3| |exact Ho2| |exact Ho1|]; intros b Hb;
      (split; [by apply Hn|]); pose proof (Hn b Hb); [unfold FREE_BLOCKS_HEAD; apart|apart|by apply Hka].
  - unfold FREE_BLOCKS_HEAD in *. eapply only_ld; [exact Ho3|cells|apart|]. eapply only_ld; [exact Ho2|cells|apart|].
    eapply only_ld; [exact Ho1|cells|by apply Hr|apply K].
  - unfold FREE_BLOCKS_HEAD in *.
    eapply head_chain, head_chain, C1; [exact Ho3|apart| |exact Ho2|apart|]; intros b Hb; (split; [by apply Hn|]);
      pose proof (Hn b Hb); apart.
Qed.

(** C39. The keys of the sentinels are no ordinary keys: 0 is always found;
    [UINT32_MAX] is found too, and removing it takes the tail out of the list,
    so that the search for a key beyond all others follows the null pointer;
    where words are wider than 32 bits, so does every search for a greater
    key. *)
Theorem sentinel_keys (m : M) (xs : list Z) : DEBUG_RESIDENT P = false -> Rep xs m ->
  list_contains 0 m = Ok 1 /\
  (exists m', list_remove UINT32_MAX m = Ok (m', 1) /\
     forall k, 0 < k -> (forall x, x ∈ xs -> x < k) -> exists e, ld 0 m' = Err e /\ list_contains k m' = Err e) /\
  forall k, UINT32_MAX < k -> exists e, ld 0 m = Err e /\ list_contains k m = Err e.
Proof.
  intros Hd (ns & fs & K). destruct (klist_length _ _ _ _ _ K) as [Hl1 Hl2]. split_and!.
  - unfold list_contains, fuel. cbn [search]. change (key LINKED_LIST_HEAD) with (sreg 4). rewrite (kl_head _ _ _ _ _ K).
    cbn [mbind res_bind Z.ltb Z.compare]. change (key LINKED_LIST_HEAD) with (sreg 4). by rewrite (kl_head _ _ _ _ _ K).
  - destruct (remove_tail xs ns fs m Hd K) as (m' & E & V & E4 & C). exists m'. split; [done|]. intros k Hk Hx.
    destruct (ld_null m') as [e He]. exists e. split; [done|]. eapply contains_off; [exact He|exact V|done..|]. lia.
  - intros k Hk. destruct (ld_null m) as [e He]. exists e. split; [done|].
    destruct (klist_from_head _ _ _ _ _ K) as (n & En & C).
    eapply (contains_off k m e (ns ++ [LINKED_LIST_TAIL]) (xs ++ [UINT32_MAX])); try done.
    + by eapply klist_values.
    + intros y [Hy| ->%list_elem_of_singleton]%elem_of_app; [|done].
      pose proof (kl_keys _ _ _ _ _ K) as F. apply (proj1 (Forall_forall _ _) F) in Hy. lia.
    + unfold UINT32_MAX in Hk. lia.
    + apply K.
    + split; [done|]. by exists n.
    + rewrite length_app. cbn. lia.
Qed.

End Kernel.

(** ** Witnesses: four blocks of two 4-byte words *)
Definition ex_params : KernelParams := mkKernelParams 64 32 16 false.
Definition ex_mem (command k : Z) : SPM 4 := mkSPM (replicate 16 0 ++ le_bytes 4 command ++ le_bytes 4 k ++ replicate 72 0).

Lemma ex_params_ok : params_ok (M := SPM 4) ex_params.
Proof. split; cbn; lia. Qed.

Lemma ex_mapped command k : mapped (cell (M := SPM 4) ex_params) (ex_mem command k).
Proof.
  intros a Ha. assert (16 <= a /\ a + 4 <= 96) as H.
  { destruct Ha as [(i & Hi & ->)|(i & Hi & ->)]; cbn in Hi |- *; [lia|].
    change (NUM_MEM_BLOCKS (M := SPM 4) ex_params) with 4 in Hi. lia. }
  cbn [ld spm_mem]. unfold spm_ld. rewrite (proj2 (Z.leb_gt a 0)) by lia.
  rewrite arr_read_ok; [by eexists|lia|lia|]. unfold ex_mem. cbn [spm_bytes].
  rewrite !length_app, !length_le_bytes, !length_replicate. lia.
Qed.

Definition ex_session : list (Z * Z) := [(1, 7); (1, 3); (1, 7); (3, 3); (2, 7); (3, 7); (1, 1); (1, 2); (1, 9); (1, 8)].

Lemma fits_release commands : fits (M := SPM 4) ex_params commands [].
Proof. done. Qed.

(** The same in a debug build, where a fourth key is one too many. *)
Definition ex_debug : KernelParams := ex_params <| DEBUG_RESIDENT := true |>.
Definition ex_debug_session : list (Z * Z) := [(1, 7); (1, 3); (1, 7); (2, 7); (1, 9); (1, 8)].

Lemma ex_debug_ok : params_ok (M := SPM 4) ex_debug.
Proof. split; cbn; lia. Qed.

Lemma fits_debug : fits (M := SPM 4) ex_debug ex_debug_session [].
Proof.
  intros _. split; [done|]. intros l1 l2 E. unfold ex_debug_session in E. change (Z.to_nat _) with 4%nat. change (room ex_debug) with 3%nat.
  do 6 (destruct l1 as [|? l1]; [vm_compute; lia|injection E as <- E]). destruct l1; [vm_compute; lia|done].
Qed.

Lemma linked_list_kernel_witness : (exists m1 m2, execute_kernel ex_params (ex_mem 0 7) = Ok m1 /\
  session ex_params ex_session m1 = Ok (m2, [1; 1; 0; 1; 1; 0; 1; 1; 1; 0]) /\ Rep ex_params [1; 2; 3; 9] m2) /\
  exists m1 m2 e, session ex_debug ex_debug_session m1 = Ok (m2, [1; 1; 0; 1; 1; 1]) /\ Rep ex_debug [3; 8; 9] (m2 : SPM 4) /\
    session ex_debug [(1, 5)] m2 = Err e.
Proof.
  split.
  - destruct (linked_list_kernel ex_params ex_params_ok (ex_mem 0 7) ex_session (ex_mapped 0 7)) as (m0 & m1 & m2 & E0 & E1 & E2 & R & _).
    { repeat constructor; discriminate || reflexivity. } { apply fits_release. }
    exists m1, m2. split; [vm_compute in E0; injection E0 as <-; exact E1|]. split; [exact E2|exact R].
  - destruct (linked_list_kernel ex_debug ex_debug_ok (ex_mem 0 7) ex_debug_session (ex_mapped 0 7)) as (m0 & m1 & m2 & _ & _ & E2 & R & H).
    { repeat constructor; discriminate || reflexivity. } { apply fits_debug. }
    destruct (H eq_refl eq_refl 5) as [e E3]; [done|intros Hin; apply list_elem_of_In in Hin; vm_compute in Hin; lia|].
    exists m1, m2, e. split; [exact E2|]. split; [exact R|exact E3].
Defined.

Lemma sentinel_keys_witness : exists m m', list_init ex_params (ex_mem 0 7) = Ok m /\
  list_remove ex_params UINT32_MAX m = Ok (m', 1) /\ list_contains ex_params 7 m' = Err Undefined.
Proof.
  destruct (list_init_ok ex_params ex_params_ok (ex_mem 0 7) (ex_mapped 0 7)) as (m & E & K).
  destruct (sentinel_keys ex_params ex_params_ok m [] eq_refl (ex_intro _ _ (ex_intro _ _ K))) as (_ & (m' & E' & H) & _).
  destruct (H 7 eq_refl) as (e & He & Hc); [intros x Hx; destruct (not_elem_of_nil x Hx)|].
  cbn in He. injection He as <-. exists m, m'. split; [exact E|]. split; [exact E'|exact Hc].
Defined.

End KL.
