(* ===== verification/HostList.v ===== *)
(** * The reference list of the host

    Models [SMC_original/SW/HOST/app/linked_list/LinkedList.h], the list the
    host compares the answers of the PIM processor with: an unsorted list that
    counts its nodes, whose loops run as often as the count says.  Nodes live
    in a store; a null pointer is [None].  Printing is left out but for the
    pointers it follows. *)

From S2P Require Import Prelude.
From S2P Require Import PtrList.
From S2P Require Import SortedList.

Module HL.

Record Node := mkNode { data : Z; next : option loc }.
Record LinkedList := mkList { head : option loc; listSize : Z }.
Abbreviation heap := (gmap loc Node).

(** [p->data], [p->next]: undefined at null and at a deleted node. *)
Definition at_ (h : heap) (p : option loc) : res Node := a ← deref p; deref (h !! a).

Definition new_LinkedList : LinkedList := mkList None 0.

Definition size (l : LinkedList) : Z := listSize l.

(** The loop of [contains], [n] turns of it. *)
Fixpoint contains_loop (n : nat) (h : heap) (temp : option loc) (x : Z) : res bool :=
  match n with
  | O => Ok false
  | S n => c ← at_ h temp; if data c =? x then Ok true else contains_loop n h (next c) x
  end.
Definition contains (x : Z) (h : heap) (l : LinkedList) : res bool :=
  if listSize l =? 0 then Ok false else contains_loop (Z.to_nat (listSize l)) h (head l) x.

(** [temp = temp->next], [n] times *)
Fixpoint advance (n : nat) (h : heap) (temp : option loc) : res (option loc) :=
  match n with
  | O => Ok temp
  | S n => c ← at_ h temp; advance n h (next c)
  end.

Definition add (x : Z) (h : heap) (l : LinkedList) : res (heap * LinkedList * bool) :=
  if listSize l =? 0 then
    let node1 := new_loc h in
    Ok (<[node1 := mkNode x None]> h, mkList (Some node1) 1, true)
  else
    found ← contains x h l;
    if found : bool then Ok (h, l, false)
    else
      let node_more := new_loc h in
      let h := <[node_more := mkNode x None]> h in
      temp ← advance (Z.to_nat (listSize l - 1)) h (head l);
      a ← deref temp;
      c ← deref (h !! a);
      Ok (<[a := c <| next := Some node_more |>]> h, l <| listSize := listSize l + 1 |>, true).

(** The loop of [remove], [n] turns of it. *)
Fixpoint remove_loop (n : nat) (x : Z) (h : heap) (temp : option loc) : res (heap * bool) :=
  match n with
  | O => Ok (h, false)
  | S n =>
      a ← deref temp; c ← deref (h !! a);
      b ← deref (next c); d ← deref (h !! b);
      if x =? data d then Ok (delete b (<[a := c <| next := next d |>]> h), true)
      else remove_loop n x h (next c)
  end.
Definition remove (x : Z) (h : heap) (l : LinkedList) : res (heap * LinkedList * bool) :=
  if listSize l =? 0 then Ok (h, l, false)
  else
    a ← deref (head l); c ← deref (h !! a);
    if data c =? x then Ok (delete a h, mkList (next c) (listSize l - 1), true)
    else
      '(h, found) ← remove_loop (Z.to_nat (listSize l - 1)) x h (head l);
      Ok (h, if found : bool then l <| listSize := listSize l - 1 |> else l, found).

(** The destructor. *)
Fixpoint destroy_loop (n : nat) (h : heap) (head : option loc) : res heap :=
  match n with
  | O => Ok h
  | S n => a ← deref head; c ← deref (h !! a); destroy_loop n (delete a h) (next c)
  end.
Definition destroy (h : heap) (l : LinkedList) : res heap := destroy_loop (Z.to_nat (listSize l)) h (head l).

(** ** The list as a set in order of insertion *)
Abbreviation seg_ := (seg next).
Abbreviation vals_ := (vals_of data).

Record rep (xs : list Z) (ns : list loc) (h : heap) (l : LinkedList) : Prop := {
  rep_seg : seg_ h (head l) ns None;
  rep_vals : vals_ h ns xs;
  rep_size : listSize l = Z.of_nat (length xs);
  rep_NoDup : NoDup xs
}.

(** The walks of the loops: [ns1] behind, [ns2] before them. *)
Lemma contains_loop_ok h x ns xs p : seg_ h p ns None -> vals_ h ns xs ->
  contains_loop (length xs) h p x = Ok (bool_decide (x ∈ xs)).
Proof.
  intros Hs V. revert p Hs. induction V as [|a y ns xs Ha _ IH]; intros p Hs; [done|].
  destruct Hs as (-> & c & Hc & Hs). cbn [length contains_loop]. unfold at_. cbn [deref mbind res_bind]. rewrite Hc in Ha |- *.
  cbn [deref mbind res_bind]. cbn in Ha. injection Ha as ->. destruct (Z.eqb_spec y x) as [->|Hne].
  - rewrite bool_decide_eq_true_2; [done|left].
  - rewrite IH by done. f_equal. apply bool_decide_ext. rewrite elem_of_cons. split; [by right|]. intros [->|H]; done.
Qed.

Lemma contains_ok x xs ns h l : rep xs ns h l -> contains x h l = Ok (bool_decide (x ∈ xs)).
Proof.
  intros [Hs V Hn _]. unfold contains. rewrite Hn. destruct xs as [|y xs]; [done|].
  rewrite (proj2 (Z.eqb_neq _ _)) by (cbn; lia). rewrite Nat2Z.id. by eapply contains_loop_ok.
Qed.

Lemma advance_walks h p ns a q : seg_ h p (ns ++ [a]) q -> advance (length ns) h p = Ok (Some a).
Proof.
  revert p. induction ns as [|b ns IH]; intros p; cbn [app seg length advance]; [by intros (-> & _)|].
  intros (-> & c & Hc & H). unfold at_. cbn [deref mbind res_bind]. rewrite Hc. cbn [deref mbind res_bind]. by apply IH.
Qed.

Lemma add_ok x xs ns h l : rep xs ns h l -> exists h' l' ns',
  add x h l = Ok (h', l', bool_decide (x ∉ xs)) /\ rep (if bool_decide (x ∈ xs) then xs else xs ++ [x]) ns' h' l'.
Proof.
  intros R. pose proof R as [Hs V Hn Hd]. unfold add.
  pose proof (new_loc_fresh h) as Hf. set (n := new_loc h) in *.
  destruct (Z.eqb_spec (listSize l) 0) as [E|E].
  - destruct xs as [|y xs]; [|cbn in Hn; lia]. do 2 eexists. exists [n]. split; [done|]. cbn. split; cbn; try done.
    + split; [done|]. exists (mkNode x None). by rewrite lookup_insert_eq.
    + constructor; [by rewrite lookup_insert_eq|constructor].
    + apply NoDup_singleton.
  - rewrite (contains_ok x xs ns h l R). cbn [mbind res_bind]. destruct (decide (x ∈ xs)) as [Hx|Hx].
    { rewrite !bool_decide_eq_true_2, bool_decide_eq_false_2 by (done || tauto). by exists h, l, ns. }
    rewrite !(bool_decide_eq_false_2 (x ∈ xs)), bool_decide_eq_true_2 by done.
    assert (n ∉ ns) as Hnn by (intros Hin; destruct (seg_dom _ _ _ _ _ _ Hs Hin) as [c Hc]; congruence).
    pose proof (Forall2_length _ _ _ V) as Hl.
    destruct ns as [|a ns _] using rev_ind; [cbn in Hl; destruct xs; [cbn in Hn; lia|done]|].
    assert (seg_ (<[n := mkNode x None]> h) (head l) (ns ++ [a]) None) as Hs1 by (by apply seg_insert_ne).
    rewrite length_app in Hl. cbn in Hl.
    replace (Z.to_nat (listSize l - 1)) with (length ns) by lia. rewrite (advance_walks _ _ _ _ _ Hs1). cbn [deref mbind res_bind].
    assert (a ∈ ns ++ [a]) as Ha by (apply elem_of_app; right; left).
    destruct (seg_dom _ _ _ _ _ _ Hs1 Ha) as [c Hc]. rewrite Hc. cbn [deref mbind res_bind].
    do 2 eexists. exists ((ns ++ [a]) ++ [n]). split; [done|]. pose proof (seg_NoDup _ _ _ _ Hs) as Hnd.
    assert (a <> n) as Han by (intros ->; done).
    split; cbn [head listSize field_upd].
    + apply seg_app. exists (Some n). split.
      * eapply seg_relink; [exact Hs1| |exact Hc|done]. apply NoDup_app in Hnd as (_ & Hnd & _). intros Hin. apply (Hnd a Hin). left.
      * split; [done|]. exists (mkNode x None). by rewrite lookup_insert_ne, lookup_insert_eq by done.
    + apply Forall2_app.
      * eapply vals_insert_same; [exact Hc|done|]. by apply vals_insert_ne.
      * constructor; [by rewrite lookup_insert_ne, lookup_insert_eq by done|constructor].
    + rewrite length_app. cbn. lia.
    + apply NoDup_app. split_and!; [done| |apply NoDup_singleton]. intros y Hy ->%list_elem_of_singleton. done.
Qed.

Lemma del_fresh x xs : x ∉ xs -> del x xs = xs.
Proof. apply del_notin. Qed.

Lemma del_cons_ne x y xs : y <> x -> del x (y :: xs) = y :: del x xs.
Proof. intros H. unfold del. by rewrite filter_cons_True. Qed.

Lemma del_cons_eq x xs : x ∉ xs -> del x (x :: xs) = xs.
Proof. intros H. unfold del. rewrite filter_cons_False by tauto. by apply del_fresh. Qed.

Lemma length_del x xs : NoDup xs -> length (del x xs) = if bool_decide (x ∈ xs) then (length xs - 1)%nat else length xs.
Proof.
  intros H. case_bool_decide as Hx; [|by rewrite del_fresh].
  apply list_elem_of_split in Hx as (u & v & ->). apply NoDup_app in H as (Hu & Huv & Hv). apply NoDup_cons in Hv as [Hxv _].
  unfold del. rewrite filter_app, filter_cons_False by tauto. fold (del x u) (del x v).
  rewrite !del_fresh; [rewrite !length_app; cbn; lia|done|]. intros Hin. apply (Huv x Hin). left.
Qed.

(** From a node whose value is another one; the nodes of other lists are left
    alone. *)
Lemma remove_loop_ok x xs : forall a ns y h, seg_ h (Some a) (a :: ns) None -> vals_ h (a :: ns) (y :: xs) ->
  NoDup (y :: xs) -> y <> x -> exists h' ns', remove_loop (length xs) x h (Some a) = Ok (h', bool_decide (x ∈ xs)) /\
    seg_ h' (Some a) (a :: ns') None /\ vals_ h' (a :: ns') (y :: del x xs) /\
    forall b, b ∉ a :: ns -> h' !! b = h !! b.
Proof.
  induction xs as [|z xs IH]; intros a ns y h Hs V Hd Hy.
  { exists h, ns. apply Forall2_length in V as Hl. destruct ns; [|done]. split; [done|]. by split_and!. }
  pose proof (seg_NoDup _ _ _ _ Hs) as Hnd. destruct Hs as (_ & c & Hc & Hs).
  apply Forall2_cons_1 in V as [Va V]. destruct ns as [|b ns]; [by inversion V|].
  pose proof Hs as (Hcb & d & Hdb & Hs'). pose proof V as V'. apply Forall2_cons_1 in V as [Vb V].
  cbn [length remove_loop deref mbind res_bind]. rewrite Hc. cbn [deref mbind res_bind]. rewrite Hcb. cbn [deref mbind res_bind].
  rewrite Hdb. cbn [deref mbind res_bind]. rewrite Hdb in Vb. cbn in Vb. injection Vb as ->.
  apply NoDup_cons in Hnd as [Ha Hnd]. apply NoDup_cons in Hd as [Hyx Hd].
  destruct (Z.eqb_spec x z) as [->|Hne].
  - apply NoDup_cons in Hd as [Hz Hd]. apply NoDup_cons in Hnd as [Hb Hnd].
    assert (b <> a) as Hba by (intros ->; apply Ha; left).
    assert (a ∉ ns) as Hans by (intros H; apply Ha; by right).
    exists (delete b (<[a := c <| next := next d |>]> h)), ns.
    rewrite bool_decide_eq_true_2 by left. rewrite del_cons_eq by done. split_and!; [done|..].
    + split; [done|]. exists (c <| next := next d |>). rewrite lookup_delete_ne, lookup_insert_eq by done. split; [done|].
      cbn [next field_upd]. apply seg_delete; [done|]. by apply seg_insert_ne.
    + constructor.
      * rewrite lookup_delete_ne, lookup_insert_eq by done. by rewrite Hc in Va.
      * apply vals_delete; [done|]. by apply vals_insert_ne.
    + intros e He. rewrite lookup_delete_ne, lookup_insert_ne by (intros ->; apply He; (by left) || (right; left)). done.
  - destruct (IH b ns z h) as (h' & ns' & E & Hs2 & V2 & Ho); [by rewrite <- Hcb|exact V'|done|done|].
    exists h', (b :: ns'). rewrite Hcb in Hs. rewrite E. rewrite del_cons_ne by done. split_and!.
    + do 2 f_equal. apply bool_decide_ext. rewrite elem_of_cons. split; [by right|]. by intros [->|?].
    + split; [done|]. exists c. rewrite Ho by done. split; [done|]. by rewrite Hcb.
    + constructor; [by rewrite Ho by done|done].
    + intros e He. apply Ho. intros H. apply He. by right.
Qed.

Lemma remove_ok x xs ns h l : rep xs ns h l -> exists h' l' ns',
  remove x h l = Ok (h', l', bool_decide (x ∈ xs)) /\ rep (del x xs) ns' h' l'.
Proof.
  intros R. pose proof R as [Hs V Hn Hd]. unfold remove.
  destruct (Z.eqb_spec (listSize l) 0) as [E|E].
  { destruct xs as [|y xs]; [|cbn in Hn; lia]. exists h, l, ns. by split. }
  destruct xs as [|y xs]; [done|]. destruct ns as [|a ns]; [by inversion V|].
  pose proof (seg_NoDup _ _ _ _ Hs) as Hnd. pose proof Hs as (Hh & c & Hc & Hs'). rewrite Hh. cbn [deref mbind res_bind].
  rewrite Hc. cbn [deref mbind res_bind]. pose proof V as V0. apply Forall2_cons_1 in V as [Va V].
  rewrite Hc in Va. cbn in Va. injection Va as Va. rewrite Va.
  apply NoDup_cons in Hd as Hd'. destruct Hd' as [Hy Hd']. apply NoDup_cons in Hnd as [Ha Hnd].
  destruct (Z.eqb_spec y x) as [->|Hne].
  - do 2 eexists. exists ns. rewrite bool_decide_eq_true_2 by left. split; [done|]. rewrite del_cons_eq by done.
    split; cbn [head listSize].
    + by apply seg_delete.
    + by apply vals_delete.
    + rewrite Hn. cbn. lia.
    + done.
  - rewrite Hh in Hs. rewrite Hn. replace (Z.to_nat (Z.of_nat (length (y :: xs)) - 1)) with (length xs) by (cbn; lia).
    destruct (remove_loop_ok x xs a ns y h Hs V0 Hd Hne) as (h' & ns' & -> & Hs2 & V2 & _). cbn [mbind res_bind].
    do 2 eexists. exists (a :: ns'). split.
    + do 2 f_equal. apply bool_decide_ext. rewrite elem_of_cons. split; [by right|]. intros [->|?]; done.
    + rewrite del_cons_ne by done. pose proof (Forall2_length _ _ _ V) as L1. apply Forall2_cons_1 in V2 as V2'. destruct V2' as [_ V2'].
      pose proof (length_del x xs Hd') as Hlen.
      split.
      * destruct (bool_decide _); cbn [head field_upd]; by rewrite Hh.
      * done.
      * cbn [length]. rewrite Hlen. destruct (bool_decide_reflect (x ∈ xs)) as [Hx|Hx]; cbn [listSize field_upd]; [|rewrite Hn; cbn; lia].
        destruct xs; [by apply elem_of_nil in Hx|]. cbn. lia.
      * constructor; [rewrite elem_of_del; tauto|]. by apply NoDup_filter.
Qed.

(** The destructor frees every node of the list, and no other. *)
Lemma destroy_ok xs ns h l : rep xs ns h l -> exists h', destroy h l = Ok h' /\
  forall a, h' !! a = if bool_decide (a ∈ ns) then None else h !! a.
Proof.
  intros [Hs V Hn _]. unfold destroy. rewrite Hn, Nat2Z.id. clear Hn. revert h V Hs. generalize (head l) as p. clear l.
  intros p h V Hs. pose proof (Forall2_length _ _ _ V) as Hl. rewrite <- Hl. clear V xs Hl. revert p h Hs.
  induction ns as [|a ns IH]; intros p h Hs; [by exists h|]. pose proof (seg_NoDup _ _ _ _ Hs) as Hnd.
  apply NoDup_cons in Hnd as [Ha Hnd]. destruct Hs as (-> & c & Hc & Hs). cbn [length destroy_loop deref mbind res_bind].
  rewrite Hc. cbn [deref mbind res_bind]. destruct (IH (next c) (delete a h)) as (h' & E & H); [by apply seg_delete|].
  exists h'. split; [done|]. intros b. rewrite H. destruct (decide (b = a)) as [->|Hne].
  - rewrite (bool_decide_eq_false_2 (a ∈ ns)), bool_decide_eq_true_2 by (done || left). apply lookup_delete_eq.
  - rewrite lookup_delete_ne by done. assert (b ∈ a :: ns <-> b ∈ ns) as Hi by (rewrite elem_of_cons; tauto).
    by rewrite (bool_decide_ext _ _ Hi).
Qed.

End HL.
