(* ===== verification/Resident.v ===== *)
(** * The resident program of the PIM processor, and the host on the other side

    Models [SMC_original/SW/PIM/resident]: [resident.c], the loop that sleeps,
    executes a command of the host and reports, and the functions of [utils.h]
    it calls.  The program runs beside the host, so it is a state machine that
    makes one access to a shared register per step; the offloaded kernel is one
    step, during which the host only polls the status ([d_pc]).

    The device is then a world of the host API ([ApiWorld]): before every access
    of the host the resident program makes some steps, as many as a schedule
    says.  The theorems are about any schedule.

    A write to the interrupt register posts and clears an interrupt at once
    ([mem/ethz_pim_memory.cc]): it wakes a sleeping processor, and leaves no
    trace on one that is awake.  [wait] loops between two looks at a register,
    and messages, are left out. *)

From S2P Require Import Prelude.
From S2P Require Import SortedList.
From S2P Require Import WordMem.
From S2P Require Import PimTask.
From S2P Require Import PimApi.
From S2P Require Import PimList.

Definition PIM_COMMAND_HALT : Z := 72.
Definition PIM_COMMAND_DEMO : Z := 68.
Definition PIM_COMMAND_RUN_KERNEL : Z := 75.
Definition PIM_STATUS_SLEEP : Z := 83.
Definition PIM_STATUS_BUSY : Z := 66.
Definition PIM_ERROR_FAIL : Z := 1.
Definition M5_EXIT : Z := 88.

(** Where the resident program is: in [wfi], or about to make an access. *)
Inductive FwPc :=
| Wfi            (** asleep *)
| NewCommand     (** [new_command_received]: look at the command *)
| SetBusy
| Execute        (** [execute_command] *)
| Stamp          (** [PIM_M5_REG = PIM_TIME_STAMP+6] *)
| SetDone        (** [command_done] *)
| WaitNop
| SetSleep
| ClearInterrupt. (** [PIM_DMA_CLI = 0xFF] *)

#[global] Instance FwPc_eq_dec : EqDecision FwPc.
Proof. solve_decision. Defined.

Record Dev (M : Type) := mkDev {
  d_mem : M;
  d_status : Z;
  d_command : Z;
  d_pc : FwPc;
  d_fault : option fault
}.
Arguments mkDev {M} _ _ _ _ _.
Arguments d_mem {M} _.
Arguments d_status {M} _.
Arguments d_command {M} _.
Arguments d_pc {M} _.
Arguments d_fault {M} _.

Section Resident.

Context {M : Type} {WM : WordMem M} (KP : KernelParams).

(** The kernel that is offloaded. *)
Context (execute_kernel : M -> res M).

(** ** [utils.h] *)

(** [pim_exit], [pim_error]: a write to the error register ends the
    simulation. *)
Definition pim_exit {A} : res A := Err (Exit PIM_ERROR_FAIL).

Definition pim_assert (b : bool) : res unit := if DEBUG_RESIDENT KP && negb b then pim_exit else Ok tt.

Fixpoint zero_vreg (n : nat) (i : Z) (m : M) : res M :=
  match n with O => Ok m | S n => m ← st8 (PimList.PIM_VREG KP + i) 0 m; zero_vreg n (i + 1) m end.
Fixpoint zero_sreg (n : nat) (i : Z) (m : M) : res M :=
  match n with O => Ok m | S n => m ← st (KL.sreg KP i) 0 m; zero_sreg n (i + 1) m end.

(** Of the registers that are set, those the program reads again. *)
Definition initialize_registers (sregs : nat) (m : M) : res (Dev M) :=
  m ← zero_vreg (Z.to_nat (PIM_VREG_SIZE KP)) 0 m;
  m ← zero_sreg sregs 0 m;
  Ok (mkDev m PIM_STATUS_SLEEP PIM_COMMAND_NOP Wfi None).

Fixpoint demo_loop (n : nat) (i : Z) (m : M) : res M :=
  match n with
  | O => Ok m
  | S n => b ← ld8 (PimList.PIM_VREG KP + i) m; m ← st8 (PimList.PIM_VREG KP + i) (b + 1) m; demo_loop n (i + 1) m
  end.
Definition execute_demo (m : M) : res M := demo_loop (Z.to_nat (PIM_VREG_SIZE KP)) 0 m.

Definition execute_command (command : Z) (m : M) : res M :=
  if command =? PIM_COMMAND_NOP then pim_exit
  else if command =? PIM_COMMAND_DEMO then execute_demo m
  else if command =? PIM_COMMAND_RUN_KERNEL then execute_kernel m
  else pim_exit.

(** ** The loop of [c_entry], one access per step *)
Definition fw_next (d : Dev M) : res (Dev M) :=
  match d_pc d with
  | Wfi => Ok d
  | NewCommand =>
      if d_command d =? PIM_COMMAND_NOP then pim_exit
      else _ ← pim_assert (d_status d =? PIM_STATUS_SLEEP); Ok (d <| d_pc := SetBusy |>)
  | SetBusy => Ok (d <| d_status := PIM_STATUS_BUSY |> <| d_pc := Execute |>)
  | Execute => m ← execute_command (d_command d) (d_mem d); Ok (d <| d_mem := m |> <| d_pc := Stamp |>)
  | Stamp =>
      _ ← pim_assert (d_status d =? PIM_STATUS_BUSY);
      _ ← pim_assert (negb (d_command d =? PIM_COMMAND_NOP)); Ok (d <| d_pc := SetDone |>)
  | SetDone => Ok (d <| d_status := PIM_STATUS_DONE |> <| d_pc := WaitNop |>)
  | WaitNop => Ok (if negb (d_command d =? PIM_COMMAND_NOP) then d else d <| d_pc := SetSleep |>)
  | SetSleep => Ok (d <| d_status := PIM_STATUS_SLEEP |> <| d_pc := ClearInterrupt |>)
  | ClearInterrupt => Ok (d <| d_pc := Wfi |>)
  end.

(** A fault ends the simulation. *)
Definition fw_step (d : Dev M) : Dev M :=
  match d_fault d with
  | Some _ => d
  | None => match fw_next d with Ok d => d | Err e => d <| d_fault := Some e |> end
  end.

(** ** The device as the host sees it *)
Context (P : ApiParams).

Definition wake (d : Dev M) : Dev M := if bool_decide (d_pc d = Wfi) then d <| d_pc := NewCommand |> else d.

Definition host_write_byte (off v : Z) (d : Dev M) : Dev M :=
  if off =? PIM_COMMAND_REG P then d <| d_command := u8 v |>
  else if off =? PIM_INTR_REG P then if u8 v =? 0 then d else wake d
  else if (off =? ap_M5_REG P) && (u8 v =? M5_EXIT) then d <| d_fault := Some (Exit 0) |>
  else d.
Definition host_read_byte (off : Z) (d : Dev M) : Z :=
  if off =? PIM_STATUS_REG P then d_status d else if off =? PIM_COMMAND_REG P then d_command d else 0.

Definition host_write_word (off v : Z) (d : Dev M) : Dev M :=
  match st off v (d_mem d) with Ok m => d <| d_mem := m |> | Err e => d <| d_fault := Some e |> end.
Definition host_read_word (off : Z) (d : Dev M) : Z := match ld off (d_mem d) with Ok v => v | Err _ => 0 end.

(** The device, the schedule and the accesses so far. *)
Record Sys := mkSys { s_dev : Dev M; s_sched : nat -> nat; s_time : nat }.

(** The resident program runs until the next access of the host. *)
Definition let_run (s : Sys) : Sys :=
  mkSys (Nat.iter (s_sched s (s_time s)) fw_step (s_dev s)) (s_sched s) (S (s_time s)).

Definition host_access (f : Dev M -> Dev M) (s : Sys) : Sys :=
  let s := let_run s in
  match d_fault (s_dev s) with Some _ => s | None => s <| s_dev := f (s_dev s) |> end.

#[global] Instance sys_world : ApiWorld Sys := {
  dev_write_byte off v := host_access (host_write_byte off v);
  dev_read_byte off s := let s := let_run s in (s, host_read_byte off (s_dev s));
  dev_write_word off v := host_access (host_write_word off v);
  dev_read_word off s := let s := let_run s in (s, host_read_word off (s_dev s));
  os_ioctl _ _ s := Ok (s, -1);
  os_nanosleep := let_run
}.

(** ** One call of the offloaded kernel

    What the application does to run the kernel: the command between two time
    stamps; and for an operation of the kernel, with two arguments and an
    answer. *)
Definition run_kernel (fuel : nat) (a : PIMAPI) (s : Sys) : res (PIMAPI * Sys) :=
  '(a, s) ← record_time_stamp P 5 a s;
  s ← start_computation P PIM_COMMAND_RUN_KERNEL a s;
  s ← wait_for_completion P fuel a s;
  Ok (a, s).

Definition kernel_call (fuel : nat) (command k : Z) (a : PIMAPI) (s : Sys) : res (PIMAPI * Sys * Z) :=
  '(a, s) ← record_time_stamp P 3 a s;
  s ← write_sreg P 0 command a s;
  s ← write_sreg P 1 k a s;
  '(a, s) ← run_kernel fuel a s;
  let '(s, r) := read_sreg P 2 s in
  Ok (a, s, r).

(** ** A device at rest and a device at work

    [rest m n] needs [n] more steps to fall asleep, [work m m' n] as many to
    report the result [m'] of the kernel on [m]. *)
Definition rest (m : M) (n : nat) : Dev M :=
  mkDev m (if (2 <=? n)%nat then PIM_STATUS_DONE else PIM_STATUS_SLEEP) PIM_COMMAND_NOP
    match n with 0 => Wfi | 1 => ClearInterrupt | 2 => SetSleep | _ => WaitNop end%nat None.
Definition work (m m' : M) (n : nat) : Dev M :=
  mkDev (if (3 <=? n)%nat then m else m')
    (if (4 <=? n)%nat then PIM_STATUS_SLEEP else if (1 <=? n)%nat then PIM_STATUS_BUSY else PIM_STATUS_DONE)
    PIM_COMMAND_RUN_KERNEL
    match n with 0 => WaitNop | 1 => SetDone | 2 => Stamp | 3 => Execute | 4 => SetBusy | _ => NewCommand end%nat None.

Lemma iter_down {A} (f : A -> A) (g : nat -> A) b : (forall k, (k <= b)%nat -> f (g k) = g (k - 1)%nat) ->
  forall n k, (k <= b)%nat -> Nat.iter n f (g k) = g (k - n)%nat.
Proof.
  intros H. induction n as [|n IH]; intros k Hk; [by rewrite Nat.sub_0_r|].
  rewrite Nat.iter_succ, IH, H by lia. f_equal. lia.
Qed.

Lemma rest_steps n k m : (k <= 3)%nat -> Nat.iter n fw_step (rest m k) = rest m (k - n).
Proof.
  apply (iter_down fw_step (rest m) 3). intros j Hj. do 4 (destruct j as [|j]; [done|]). lia.
Qed.

Lemma work_steps n k m m' : execute_kernel m = Ok m' -> (k <= 5)%nat ->
  Nat.iter n fw_step (work m m' k) = work m m' (k - n).
Proof.
  intros E. apply (iter_down fw_step (work m m') 5). intros j Hj. unfold fw_step, fw_next, pim_assert, work.
  do 6 (destruct j as [|j]; [cbn; try rewrite E; by destruct (DEBUG_RESIDENT KP)|]). lia.
Qed.

(** A sleeping processor does not see a command. *)
Lemma asleep_steps n m st c : Nat.iter n fw_step (mkDev m st c Wfi None) = mkDev m st c Wfi None.
Proof. induction n as [|n IH]; [done|]. by rewrite Nat.iter_succ, IH. Qed.

(** ** A call of the host *)

(** The registers of the library are those of the resident program. *)
Record regs_ok : Prop := {
  ro_word : ap_w P = 8 * wsz;
  ro_sreg : PimApi.PIM_SREG P = PimList.PIM_SREG KP;
  ro_distinct : NoDup [PIM_COMMAND_REG P; PIM_INTR_REG P; PIM_STATUS_REG P; ap_M5_REG P];
  ro_inside : Forall (fun r => r < ap_PHY_SIZE P) [PIM_COMMAND_REG P; PIM_INTR_REG P; PIM_STATUS_REG P; ap_M5_REG P]
}.

Context (O : regs_ok).

(** In a debug build the library checks the time stamp. *)
Definition stamped (id : Z) (a : PIMAPI) : PIMAPI := if DEBUG_API P then a <| current_time_stamp := Some id |> else a.

Lemma stamped_ok id a : at_stamp P id (stamped id a) = Ok tt.
Proof. unfold at_stamp, ASSERT, stamped. destruct (DEBUG_API P); [|done]. cbn. by rewrite Z.eqb_refl. Qed.

Lemma inside_ok r : r ∈ [PIM_COMMAND_REG P; PIM_INTR_REG P; PIM_STATUS_REG P; ap_M5_REG P] ->
  ASSERT P (Ok (r <? ap_PHY_SIZE P)) = Ok tt.
Proof.
  intros H. pose proof (proj1 (Forall_forall _ _) (ro_inside O) r H) as Hr. cbn in Hr. unfold ASSERT. cbn [mbind res_bind].
  rewrite (proj2 (Z.ltb_lt _ _) Hr). by destruct DEBUG_API.
Qed.

Lemma regs_ne : PIM_INTR_REG P <> PIM_COMMAND_REG P /\ PIM_STATUS_REG P <> PIM_COMMAND_REG P /\
  ap_M5_REG P <> PIM_COMMAND_REG P /\ ap_M5_REG P <> PIM_INTR_REG P.
Proof.
  pose proof (ro_distinct O) as H. rewrite !NoDup_cons, !not_elem_of_cons in H. destruct H as ((?&?&?&_) & (?&?&_) & _).
  split_and!; congruence.
Qed.

Lemma sreg_addr i : PimApi.PIM_SREG P + i * (ap_w P / 8) = KL.sreg KP i.
Proof.
  unfold KL.sreg. rewrite (ro_sreg O), (ro_word O). do 2 f_equal. rewrite Z.mul_comm. apply Z.div_mul. lia.
Qed.

(** An access of the host, from what the processor has become by then. *)
Lemma access_ok f d d' sched t : Nat.iter (sched t) fw_step d = d' -> d_fault d' = None ->
  host_access f (mkSys d sched t) = mkSys (f d') sched (S t).
Proof. intros E H. unfold host_access, let_run. cbn [s_sched s_time s_dev]. rewrite E, H. done. Qed.

Lemma stamp_write id a d d' sched t : 0 <= id < 7 -> Nat.iter (sched t) fw_step d = d' -> d_fault d' = None ->
  record_time_stamp P id a (mkSys d sched t) = Ok (stamped id a, mkSys d' sched (S t)).
Proof.
  intros Hid E H. unfold record_time_stamp, give_m5_command, write_byte. rewrite inside_ok by (do 3 right; left).
  cbn [mbind res_bind dev_write_byte sys_world]. rewrite (access_ok _ _ _ _ _ E H). unfold host_write_byte.
  destruct regs_ne as (_ & _ & H1 & H2). rewrite (proj2 (Z.eqb_neq _ _) H1), (proj2 (Z.eqb_neq _ _) H2), Z.eqb_refl.
  assert ((u8 (u8 (M5_TIME_STAMP + id)) =? M5_EXIT) = false) as ->; [|done].
  assert (id = 0 \/ id = 1 \/ id = 2 \/ id = 3 \/ id = 4 \/ id = 5 \/ id = 6) as Hi by lia.
  repeat destruct Hi as [->|Hi]; [..|subst id]; reflexivity.
Qed.

Lemma exit_write d d' sched t : Nat.iter (sched t) fw_step d = d' -> d_fault d' = None ->
  give_m5_command P M5_EXIT (mkSys d sched t) = Ok (mkSys (d' <| d_fault := Some (Exit 0) |>) sched (S t)).
Proof.
  intros E H. unfold give_m5_command, write_byte. rewrite inside_ok by (do 3 right; left).
  cbn [mbind res_bind dev_write_byte sys_world]. rewrite (access_ok _ _ _ _ _ E H). unfold host_write_byte.
  destruct regs_ne as (_ & _ & H1 & H2). by rewrite (proj2 (Z.eqb_neq _ _) H1), (proj2 (Z.eqb_neq _ _) H2), Z.eqb_refl.
Qed.

Lemma sreg_write i v d d' m m' a sched t : Nat.iter (sched t) fw_step d = d' -> d_fault d' = None -> d_mem d' = m ->
  st (KL.sreg KP i) v m = Ok m' ->
  write_sreg P i v (stamped 3 a) (mkSys d sched t) = Ok (mkSys (d' <| d_mem := m' |>) sched (S t)).
Proof.
  intros E H Hm Hs. unfold write_sreg. rewrite stamped_ok. cbn [mbind res_bind dev_write_word sys_world].
  rewrite (access_ok _ _ _ _ _ E H), sreg_addr. unfold host_write_word. by rewrite Hm, Hs.
Qed.

Lemma command_write v d d' sched t : Nat.iter (sched t) fw_step d = d' -> d_fault d' = None ->
  give_command P v (mkSys d sched t) = Ok (mkSys (d' <| d_command := u8 v |>) sched (S t)).
Proof.
  intros E H. unfold give_command, write_byte. rewrite inside_ok by left. cbn [mbind res_bind dev_write_byte sys_world].
  rewrite (access_ok _ _ _ _ _ E H). unfold host_write_byte. by rewrite Z.eqb_refl.
Qed.

Lemma wake_write d d' sched t : Nat.iter (sched t) fw_step d = d' -> d_fault d' = None ->
  wake_up P (mkSys d sched t) = Ok (mkSys (wake d') sched (S t)).
Proof.
  intros E H. unfold wake_up, write_byte. rewrite inside_ok by (right; left). cbn [mbind res_bind dev_write_byte sys_world].
  rewrite (access_ok _ _ _ _ _ E H). unfold host_write_byte. destruct regs_ne as (H1 & _).
  by rewrite (proj2 (Z.eqb_neq _ _) H1), Z.eqb_refl.
Qed.

(** One turn of the polling loop. *)
Lemma poll_turn fuel d d' sched t : Nat.iter (sched (S t)) fw_step (Nat.iter (sched t) fw_step d) = d' ->
  poll P (S fuel) (mkSys d sched t) = (
    if d_status d' =? PIM_STATUS_DONE then Ok (mkSys d' sched (S (S t))) else poll P fuel (mkSys d' sched (S (S t)))).
Proof.
  intros E. cbn [poll]. unfold check_status, read_byte. rewrite inside_ok by (right; right; left).
  cbn [mbind res_bind os_nanosleep dev_read_byte sys_world]. unfold let_run. cbn [s_sched s_time s_dev]. rewrite E.
  unfold host_read_byte. rewrite Z.eqb_refl. by destruct (_ =? _).
Qed.

(** The loop runs until the kernel has reported. *)
Lemma poll_work m m' sched : execute_kernel m = Ok m' -> (forall i, 1 <= sched i)%nat -> forall n k t fuel,
  (k <= 5)%nat -> (k <= 2 * n)%nat -> (n < fuel)%nat -> exists t', poll P fuel (mkSys (work m m' k) sched t) = Ok (mkSys (work m m' 0) sched t').
Proof.
  intros E Hs. induction n as [|n IH]; intros k t fuel Hk Hn Hf; (destruct fuel as [|fuel]; [lia|]);
    erewrite poll_turn by (rewrite !(work_steps _ _ _ _ E) by lia; done); pose proof (Hs t); pose proof (Hs (S t)).
  - replace (k - sched t - sched (S t))%nat with 0%nat by lia. by eexists.
  - destruct (Z.eqb_spec (d_status (work m m' (k - sched t - sched (S t)))) PIM_STATUS_DONE) as [Hd|Hd].
    + assert (k - sched t - sched (S t) = 0)%nat as ->; [|by eexists].
      destruct (k - sched t - sched (S t))%nat as [|[|[|[|j]]]]; cbn in Hd; discriminate || done.
    + apply IH; lia.
Qed.

(** ** The handshake *)

Lemma run_kernel_ok (m m' : M) (n : nat) (sched : nat -> nat) (t fuel : nat) (a : PIMAPI) :
  (forall i, 1 <= sched i)%nat -> (n <= 2)%nat -> (4 <= fuel)%nat -> execute_kernel m = Ok m' ->
  exists t', run_kernel fuel a (mkSys (rest m n) sched t) = Ok (stamped 5 a, mkSys (rest m' 3) sched t').
Proof.
  intros Hs Hn Hf Ek. unfold run_kernel. pose proof (Hs t); pose proof (Hs (S t)).
  rewrite (stamp_write 5 _ _ (rest m (n - sched t))) by (done || lia || by rewrite rest_steps by lia). cbn [mbind res_bind].
  unfold start_computation. rewrite stamped_ok. cbn [mbind res_bind].
  rewrite (command_write _ _ (rest m 0)) by (done || (rewrite rest_steps by lia; f_equal; lia)). cbn [mbind res_bind].
  erewrite wake_write by (apply asleep_steps || done). cbn [mbind res_bind].
  change (wake _) with (work m m' 5). unfold wait_for_completion. rewrite stamped_ok. cbn [mbind res_bind].
  destruct (poll_work m m' sched Ek Hs 3 5 (S (S (S t))) fuel) as [t' ->]; [lia..|]. cbn [mbind res_bind].
  rewrite (command_write _ _ (work m m' 0)) by (done || by rewrite (work_steps _ _ _ _ Ek) by lia). cbn [mbind res_bind].
  by exists (S t').
Qed.

(** When the processor makes a step between any two accesses of the host, a call
    runs the kernel once, on the arguments, and returns its answer; at most
    three looks at the status are needed. *)
Theorem kernel_call_ok (m m1 m2 m3 : M) (n : nat) (sched : nat -> nat) (t fuel : nat) (command k r : Z) (a : PIMAPI) :
  (forall i, 1 <= sched i)%nat -> (n <= 3)%nat -> (4 <= fuel)%nat ->
  st (KL.sreg KP 0) command m = Ok m1 -> st (KL.sreg KP 1) k m1 = Ok m2 -> execute_kernel m2 = Ok m3 ->
  ld (KL.sreg KP 2) m3 = Ok r ->
  exists n' t', (n' <= 2)%nat /\
    kernel_call fuel command k a (mkSys (rest m n) sched t) = Ok (stamped 5 (stamped 3 a), mkSys (rest m3 n') sched t', r).
Proof.
  intros Hs Hn Hf E0 E1 Ek Er. unfold kernel_call. pose proof (Hs t).
  rewrite (stamp_write 3 a _ (rest m (n - sched t))) by (done || lia || by rewrite rest_steps). cbn [mbind res_bind].
  erewrite (sreg_write 0) by ((by rewrite rest_steps by lia) || done). cbn [mbind res_bind].
  change ((rest m ?x) <| d_mem := m1 |>) with (rest m1 x).
  erewrite (sreg_write 1) by ((by rewrite rest_steps by lia) || done). cbn [mbind res_bind].
  change ((rest m1 ?x) <| d_mem := m2 |>) with (rest m2 x).
  edestruct (run_kernel_ok m2 m3) as [t' ->]; [exact Hs|lia|done|done|]. cbn [mbind res_bind].
  unfold read_sreg. cbn [dev_read_word sys_world].
  unfold let_run. cbn [s_sched s_time s_dev]. rewrite sreg_addr, rest_steps by lia. unfold host_read_word.
  change (d_mem (rest m3 ?x)) with m3. rewrite Er. exists (3 - sched t')%nat, (S t'). pose proof (Hs t'). split; [lia|done].
Qed.

(** C38. The host gives NOP and does not wait until the processor has seen it: when
    the next call comes first, it finds the status of the last one, and returns
    without the kernel having run. *)
Theorem stale_answer (m m1 m2 : M) (sched : nat -> nat) (t fuel : nat) (command k r : Z) (a : PIMAPI) :
  (forall i, t <= i < t + 10 -> sched i = 0)%nat -> (1 <= fuel)%nat ->
  st (KL.sreg KP 0) command m = Ok m1 -> st (KL.sreg KP 1) k m1 = Ok m2 -> ld (KL.sreg KP 2) m2 = Ok r ->
  kernel_call fuel command k a (mkSys (rest m 3) sched t) = Ok (stamped 5 (stamped 3 a), mkSys (rest m2 3) sched (t + 10)%nat, r).
Proof.
  intros Hs Hf E0 E1 Er. destruct fuel as [|fuel]; [lia|]. unfold kernel_call, run_kernel.
  assert (forall i d, (i < 10)%nat -> Nat.iter (sched (t + i)%nat) fw_step d = d) as Hi by (intros i d Hi; rewrite Hs by lia; done).
  pose proof (Hi 0%nat) as H0. rewrite Nat.add_0_r in H0.
  pose proof (Hi 1%nat) as H1. pose proof (Hi 2%nat) as H2. pose proof (Hi 3%nat) as H3. pose proof (Hi 4%nat) as H4.
  pose proof (Hi 5%nat) as H5. pose proof (Hi 6%nat) as H6. pose proof (Hi 7%nat) as H7. pose proof (Hi 8%nat) as H8.
  pose proof (Hi 9%nat) as H9. rewrite Nat.add_comm in H1, H2, H3, H4, H5, H6, H7, H8, H9. cbn [Nat.add] in *.
  rewrite (stamp_write 3 a _ (rest m 3)) by (lia || done || apply H0; lia). cbn [mbind res_bind].
  erewrite (sreg_write 0) by ((apply H1; lia) || done). cbn [mbind res_bind].
  erewrite (sreg_write 1) by ((apply H2; lia) || done). cbn [mbind res_bind].
  change ((rest m 3) <| d_mem := m1 |> <| d_mem := m2 |>) with (rest m2 3).
  rewrite (stamp_write 5 _ _ (rest m2 3)) by (lia || done || apply H3; lia). cbn [mbind res_bind].
  unfold start_computation. rewrite stamped_ok. cbn [mbind res_bind].
  erewrite command_write by ((apply H4; lia) || done). cbn [mbind res_bind].
  erewrite wake_write by ((apply H5; lia) || done). cbn [mbind res_bind].
  change (wake _) with (work m2 m2 0). unfold wait_for_completion. rewrite stamped_ok. cbn [mbind res_bind].
  erewrite poll_turn by (rewrite H6, H7 by lia; done). change (d_status _ =? _) with true. cbn iota. cbn [mbind res_bind].
  erewrite command_write by ((apply H8; lia) || done). cbn [mbind res_bind].
  change ((work m2 m2 0) <| d_command := _ |>) with (rest m2 3). unfold read_sreg. cbn [dev_read_word sys_world].
  unfold let_run. cbn [s_sched s_time s_dev]. rewrite sreg_addr, H9 by lia. unfold host_read_word.
  change (d_mem (rest m2 3)) with m2. rewrite Er. do 4 f_equal. lia.
Qed.

(** Asleep with a command it was not woken for, the processor does not answer. *)
Lemma poll_asleep m fuel t sched : poll P fuel (mkSys (mkDev m PIM_STATUS_SLEEP PIM_COMMAND_RUN_KERNEL Wfi None) sched t) = Err Diverged.
Proof. revert t. induction fuel as [|fuel IH]; intros t; [done|]. erewrite poll_turn by (by rewrite !asleep_steps). apply IH. Qed.

Lemma poll_dozing m fuel t sched :
  poll P fuel (mkSys (mkDev m PIM_STATUS_SLEEP PIM_COMMAND_RUN_KERNEL ClearInterrupt None) sched t) = Err Diverged.
Proof.
  revert t. induction fuel as [|fuel IH]; intros t; [done|]. rewrite (poll_turn _ _ _ _ _ eq_refl), <- Nat.iter_add.
  destruct (sched (S t) + sched t)%nat as [|j]; [apply IH|].
  rewrite Nat.iter_succ_r. change (fw_step _) with (mkDev m PIM_STATUS_SLEEP PIM_COMMAND_RUN_KERNEL Wfi None).
  rewrite asleep_steps. apply poll_asleep.
Qed.

(** C9. The interrupt is a pulse: when it comes between the last access of the
    resident program and its [wfi], the processor falls asleep with the command
    in its register, and the host polls for ever. *)
Theorem lost_wakeup (m m1 m2 : M) (sched : nat -> nat) (t fuel : nat) (command k : Z) (a : PIMAPI) :
  (forall i, t <= i < t + 6 -> sched i = 0)%nat ->
  st (KL.sreg KP 0) command m = Ok m1 -> st (KL.sreg KP 1) k m1 = Ok m2 ->
  kernel_call fuel command k a (mkSys (rest m 1) sched t) = Err Diverged.
Proof.
  intros Hs E0 E1. unfold kernel_call, run_kernel.
  assert (forall i d, (t <= i < t + 6)%nat -> Nat.iter (sched i) fw_step d = d) as Hi by (intros i d Hi; by rewrite Hs).
  rewrite (stamp_write 3 a _ (rest m 1)) by (lia || done || apply Hi; lia). cbn [mbind res_bind].
  erewrite (sreg_write 0) by ((apply Hi; lia) || done). cbn [mbind res_bind].
  erewrite (sreg_write 1) by ((apply Hi; lia) || done). cbn [mbind res_bind].
  change ((rest m 1) <| d_mem := m1 |> <| d_mem := m2 |>) with (rest m2 1).
  rewrite (stamp_write 5 _ _ (rest m2 1)) by (lia || done || apply Hi; lia). cbn [mbind res_bind].
  unfold start_computation. rewrite stamped_ok. cbn [mbind res_bind].
  erewrite command_write by ((apply Hi; lia) || done). cbn [mbind res_bind].
  erewrite wake_write by ((apply Hi; lia) || done). cbn [mbind res_bind].
  unfold wait_for_completion. rewrite stamped_ok. cbn [mbind res_bind].
  change (wake _) with (mkDev m2 PIM_STATUS_SLEEP PIM_COMMAND_RUN_KERNEL ClearInterrupt None). by rewrite poll_dozing.
Qed.

(** ** Start and demo *)
Context {WL : WordMemLaws M}.

(** The bytes of the vector register, from the [i]-th. *)
Definition vbyte (i : Z) (m : M) : res Z := ld8 (PimList.PIM_VREG KP + i) m.

Lemma zero_vreg_ok n : forall i m, (forall j, i <= j < i + Z.of_nat n -> exists b, vbyte j m = Ok b) ->
  exists m', zero_vreg n i m = Ok m' /\ (forall j, i <= j < i + Z.of_nat n -> vbyte j m' = Ok 0) /\
    (forall j, j < i -> vbyte j m' = vbyte j m) /\ forall a w, ld a m = Ok w -> exists w', ld a m' = Ok w'.
Proof.
  induction n as [|n IH]; intros i m Hb; cbn [zero_vreg].
  { exists m. split_and!; try done; [intros j Hj; lia|eauto]. }
  destruct (Hb i) as [b Eb]; [lia|]. destruct (st8_ok _ 0 m b Eb) as (m1 & -> & E1 & O1 & _ & W1). cbn [mbind res_bind].
  assert (forall j, j <> i -> vbyte j m1 = vbyte j m) as Of by (intros j Hj; apply O1; lia).
  destruct (IH (i + 1) m1) as (m' & -> & E' & O' & W'); [intros j Hj; rewrite Of by lia; apply Hb; lia|].
  exists m'. split_and!; [done| | |].
  - intros j Hj. destruct (decide (j = i)) as [->|Hne]; [rewrite O' by lia; exact E1|apply E'; lia].
  - intros j Hj. rewrite O' by lia. apply Of. lia.
  - intros a w Hw. destruct (W1 _ _ Hw) as [w1 Hw1]. by apply (W' _ w1).
Qed.

Lemma zero_sreg_ok n : forall i m, KL.params_ok (M := M) KP -> 0 <= i -> i + Z.of_nat n <= 8 -> mapped (KL.cell (M := M) KP) m ->
  exists m', zero_sreg n i m = Ok m' /\ mapped (KL.cell (M := M) KP) m' /\
    (forall j, i <= j < i + Z.of_nat n -> ld (KL.sreg KP j) m' = Ok 0) /\
    (forall j, 0 <= j < i -> ld (KL.sreg KP j) m' = ld (KL.sreg KP j) m) /\
    forall j, 0 <= j < PIM_VREG_SIZE KP -> vbyte j m' = vbyte j m.
Proof.
  induction n as [|n IH]; intros i m K Hi Hn Hm; cbn [zero_sreg].
  { exists m. split_and!; try done. intros j Hj. lia. }
  assert (KL.cell (M := M) KP (KL.sreg KP i)) as Hc by (apply KL.sreg_cell; lia).
  destruct (st_cell _ (KL.cells_apart KP K) _ 0 m Hm Hc) as (m1 & E & Hm1 & E1 & O1).
  destruct (Hm _ Hc) as [v Ev]. destruct (st_ok _ 0 m v Ev) as (m1' & E' & _ & _ & B1). rewrite E in E'. injection E' as <-.
  rewrite E. cbn [mbind res_bind]. destruct (IH (i + 1) m1 K) as (m' & -> & Hm' & Z' & O' & B'); [lia..|done|].
  exists m'. split_and!; [done|done| | |].
  - intros j Hj. destruct (decide (j = i)) as [->|Hne]; [|apply Z'; lia]. rewrite O', E1 by lia.
    done.
  - intros j Hj. rewrite O' by lia. apply O1; [apply KL.sreg_cell; lia|]. apply KL.ne_regs; [done|lia].
  - intros j Hj. rewrite B' by done. apply B1. pose proof (KL.po_apart _ K). unfold KL.sreg. pose proof wsz_ok as W.
    set (w := wsz) in *. clearbody w. destruct W; subst w; lia.
Qed.

(** The registers are cleared, and the processor waits for its first command. *)
Lemma initialize_registers_ok m : KL.params_ok (M := M) KP -> mapped (KL.cell (M := M) KP) m ->
  (forall j, 0 <= j < PIM_VREG_SIZE KP -> exists b, vbyte j m = Ok b) ->
  exists m', initialize_registers 8 m = Ok (rest m' 0) /\ mapped (KL.cell (M := M) KP) m' /\
    (forall i, 0 <= i < 8 -> ld (KL.sreg KP i) m' = Ok 0) /\ forall j, 0 <= j < PIM_VREG_SIZE KP -> vbyte j m' = Ok 0.
Proof.
  intros K Hm Hb. pose proof (KL.po_size _ K) as Hz. unfold initialize_registers.
  destruct (zero_vreg_ok (Z.to_nat (PIM_VREG_SIZE KP)) 0 m) as (m1 & -> & Z1 & _ & W1).
  { intros j Hj. apply Hb. lia. }
  cbn [mbind res_bind]. destruct (zero_sreg_ok 8 0 m1 K) as (m' & -> & Hm' & Z' & _ & B').
  { lia. } { lia. } { intros a Ha. destruct (Hm a Ha) as [w Hw]. by apply (W1 _ w). }
  cbn [mbind res_bind]. exists m'. split_and!; [done|done| |].
  - intros i Hi. apply Z'. lia.
  - intros j Hj. rewrite B' by done. apply Z1. lia.
Qed.

(** The demo adds one to every byte. *)
Lemma demo_loop_ok n : forall i m, (forall j, i <= j < i + Z.of_nat n -> exists b, vbyte j m = Ok b) ->
  exists m', demo_loop n i m = Ok m' /\
    (forall j, i <= j < i + Z.of_nat n -> exists b, vbyte j m = Ok b /\ vbyte j m' = Ok (u8 (b + 1))) /\
    forall j, j < i \/ i + Z.of_nat n <= j -> vbyte j m' = vbyte j m.
Proof.
  induction n as [|n IH]; intros i m Hb; cbn [demo_loop].
  { exists m. split_and!; try done. intros j Hj. lia. }
  destruct (Hb i) as [b Eb]; [lia|]. unfold vbyte in Eb. rewrite Eb. cbn [mbind res_bind].
  destruct (st8_ok _ (b + 1) m b Eb) as (m1 & -> & E1 & O1 & _). cbn [mbind res_bind].
  assert (forall j, j <> i -> vbyte j m1 = vbyte j m) as Of by (intros j Hj; apply O1; lia).
  destruct (IH (i + 1) m1) as (m' & -> & E' & O'); [intros j Hj; rewrite Of by lia; apply Hb; lia|].
  exists m'. split_and!; [done| |].
  - intros j Hj. destruct (decide (j = i)) as [->|Hne].
    + exists b. split; [done|]. rewrite O' by lia. exact E1.
    + destruct (E' j) as (x & Ex & Ex'); [lia|]. exists x. split; [|done]. by rewrite <- Of.
  - intros j Hj. rewrite O' by lia. apply Of. lia.
Qed.

Lemma execute_demo_ok m : 0 <= PIM_VREG_SIZE KP -> (forall j, 0 <= j < PIM_VREG_SIZE KP -> exists b, vbyte j m = Ok b) ->
  exists m', execute_command PIM_COMMAND_DEMO m = Ok m' /\
    forall j, 0 <= j < PIM_VREG_SIZE KP -> exists b, vbyte j m = Ok b /\ vbyte j m' = Ok (u8 (b + 1)).
Proof.
  intros Hz Hb. change (execute_command PIM_COMMAND_DEMO m) with (execute_demo m). unfold execute_demo.
  destruct (demo_loop_ok (Z.to_nat (PIM_VREG_SIZE KP)) 0 m) as (m' & E & H & _); [intros j Hj; apply Hb; lia|].
  exists m'. split; [done|]. intros j Hj. apply H. lia.
Qed.

End Resident.

(** ** Witnesses: the memory of [PimList]'s, a debug build of the library *)
Definition ex_api : ApiParams := mkApiParams 32 128 64 32 16 100 101 102 103 0 0 true.
Definition ex_api_state : PIMAPI := mkAPI [] 0 (replicate MAX_ARGS None) None 12.

Lemma ex_regs_ok : regs_ok (M := SPM 4) KL.ex_params ex_api.
Proof.
  split; [done|done| |repeat constructor; done].
  apply (bool_decide_unpack _). by vm_compute.
Qed.

(** The processor does not run between the accesses of the host: the second
    addition of a key is answered with the answer of the first. *)
Lemma stale_answer_witness : exists m1 m m2 m', KL.execute_kernel KL.ex_params (KL.ex_mem 0 7) = Ok m1 /\
  KL.session KL.ex_params [(1, 7)] m1 = Ok (m, [1]) /\ KL.session KL.ex_params [(1, 7)] m = Ok (m', [0]) /\
  kernel_call KL.ex_params (KL.execute_kernel KL.ex_params) ex_api 1 1 7 ex_api_state (mkSys (rest m 3) (fun _ => 0%nat) 0) =
    Ok (stamped ex_api 5 (stamped ex_api 3 ex_api_state), mkSys (rest m2 3) (fun _ => 0%nat) 10, 1).
Proof.
  do 4 eexists. split; [vm_compute; reflexivity|]. split; [vm_compute; reflexivity|]. split; [vm_compute; reflexivity|].
  eapply (stale_answer KL.ex_params (KL.execute_kernel KL.ex_params) ex_api ex_regs_ok);
    [intros; reflexivity|lia|vm_compute; reflexivity|vm_compute; reflexivity|vm_compute; reflexivity].
Defined.

Lemma lost_wakeup_witness :
  kernel_call KL.ex_params (KL.execute_kernel KL.ex_params) ex_api 1000 0 7 ex_api_state
    (mkSys (rest (KL.ex_mem 0 7) 1) (fun i => if (i <? 6)%nat then 0 else 9)%nat 0) = Err Diverged.
Proof.
  eapply (lost_wakeup KL.ex_params (KL.execute_kernel KL.ex_params) ex_api ex_regs_ok);
    [intros i Hi; destruct (Nat.ltb_spec i 6); [reflexivity|lia]|vm_compute; reflexivity|vm_compute; reflexivity].
Defined.
