(* ===== verification/ListApp.v ===== *)
(** * The linked-list application

    Models the main function of [SMC_original/SW/HOST/app/linked_list/main.cc]:
    a random test of the list of the PIM processor ([PimList], which the
    resident program runs) against a list of the host ([HostList]), through the
    library of the host ([PimApi]).  The numbers [rand] returns are a stream.
    Loading the kernel, the clock of the seed and messages are left out. *)

From S2P Require Import Prelude.
From S2P Require Import PtrList.
From S2P Require Import SortedList.
From S2P Require Import WordMem.
From S2P Require Import PimTask.
From S2P Require Import PimApi.
From S2P Require Import PimList.
From S2P Require Import HostList.
From S2P Require Import Resident.

(** The macros of [_app_params.h]. *)
Record AppParams := mkAppParams {
  KEY_LOWER_BOUND : Z;
  KEY_UPPER_BOUND : Z;
  MAX_LIST_SIZE : Z;
  INITIAL_LIST_SIZE : Z;
  TOTAL_NUM_OPS : Z;
  READ_ONLY_PERCENTAGE : Z
}.

(** Every return of the function. *)
Inductive Outcome := SizeError | RangeError | Disagreement | Done.

Definition M5_EXIT_CMD : Z := M5_EXIT.

Section App.

Context {M : Type} {WM : WordMem M} (KP : KernelParams) (P : ApiParams) (Q : AppParams).

(** The turns of the polling loop, and the numbers of [rand]. *)
Context (turns : nat) (rand : nat -> Z).

#[local] Instance list_world : ApiWorld (Sys (M := M)) := sys_world KP (KL.execute_kernel KP) P.

(** The local variables, with the processor and the heap. *)
Record App := mkApp {
  pim : PIMAPI;
  dev : Sys (M := M);
  heap_ : gmap loc HL.Node;
  int_list : HL.LinkedList;
  size : Z;
  rand_pos : nat
}.

Definition range : Z := KEY_UPPER_BOUND Q - KEY_LOWER_BOUND Q.

Definition next_rand (s : App) : App * Z := (s <| rand_pos := S (rand_pos s) |>, rand (rand_pos s)).

(** [rand()%range + KEY_LOWER_BOUND] *)
Definition next_key (s : App) : res (App * Z) :=
  let '(s, x) := next_rand s in
  if range =? 0 then undefined else Ok (s, Z.rem x range + KEY_LOWER_BOUND Q).

Definition call (command key : Z) (s : App) : res (App * Z) :=
  '(a, d, r) ← kernel_call KP (KL.execute_kernel KP) P turns command (uL P key) (pim s) (dev s);
  Ok (s <| pim := a |> <| dev := d |>, r).

(** [cmp_res == pim_res] *)
Definition same (torf : bool) (pim_res : Z) : bool := (if torf then 1 else 0) =? pim_res.

(** The three kinds of operation; whether the two lists agree. *)
Definition do_add (key_value : Z) (s : App) : res (App * bool) :=
  '(s, pim_res) ← call 1 key_value s;
  '(h, l, torf) ← HL.add key_value (heap_ s) (int_list s);
  let s := s <| heap_ := h |> <| int_list := l |> in
  Ok (if torf : bool then s <| size := size s + 1 |> else s, same torf pim_res).
Definition do_remove (key_value : Z) (s : App) : res (App * bool) :=
  '(s, pim_res) ← call 2 key_value s;
  '(h, l, torf) ← HL.remove key_value (heap_ s) (int_list s);
  let s := s <| heap_ := h |> <| int_list := l |> in
  Ok (if torf : bool then s <| size := size s - 1 |> else s, same torf pim_res).
Definition do_contains (key_value : Z) (s : App) : res (App * bool) :=
  '(s, pim_res) ← call 3 key_value s;
  torf ← HL.contains key_value (heap_ s) (int_list s);
  Ok (s, same torf pim_res).

(** [while (size < INITIAL_LIST_SIZE)] *)
Fixpoint populate (fuel : nat) (s : App) : res (App * Outcome) :=
  match fuel with
  | O => Err Diverged
  | S fuel =>
      if size s <? INITIAL_LIST_SIZE Q then
        '(s, key_value) ← next_key s;
        '(s, ok) ← do_add key_value s;
        if ok : bool then populate fuel s else Ok (s, Disagreement)
      else Ok (s, Done)
  end.

(** What the three percentages choose. *)
Definition random_op (key_value rand_temp : Z) (s : App) : res (App * bool) :=
  if rand_temp <=? READ_ONLY_PERCENTAGE Q then do_contains key_value s
  else if READ_ONLY_PERCENTAGE Q + Z.quot (100 - READ_ONLY_PERCENTAGE Q) 2 <? rand_temp then
    if 0 <? size s then do_remove key_value s else do_add key_value s
  else
    if size s <? MAX_LIST_SIZE Q then do_add key_value s else do_remove key_value s.

(** [while (op_count < TOTAL_NUM_OPS)] *)
Fixpoint run_ops (n : nat) (s : App) : res (App * Outcome) :=
  match n with
  | O => Ok (s, Done)
  | S n =>
      '(s, key_value) ← next_key s;
      let '(s, x) := next_rand s in
      '(s, ok) ← random_op key_value (Z.rem x 100 + 1) s;
      if ok : bool then run_ops n s else Ok (s, Disagreement)
  end.

(** [main], from the construction of the list; [fuel] turns of [populate]. *)
Definition main (fuel : nat) (a : PIMAPI) (d : Sys) (h : gmap loc HL.Node) : res (App * Outcome) :=
  let s := mkApp a d h HL.new_LinkedList 0 0 in
  if MAX_LIST_SIZE Q <? INITIAL_LIST_SIZE Q then Ok (s, SizeError)
  else if range <? INITIAL_LIST_SIZE Q then Ok (s, RangeError)
  else
    '(a, d) ← record_time_stamp P 3 a d;
    d ← write_sreg P 0 0 a d;
    '(a, d) ← run_kernel KP (KL.execute_kernel KP) P turns a d;
    '(s, o) ← populate fuel (s <| pim := a |> <| dev := d |>);
    match o with
    | Done =>
        '(s, o) ← run_ops (Z.to_nat (TOTAL_NUM_OPS Q)) s;
        match o with
        | Done => d ← give_m5_command P M5_EXIT (dev s); Ok (s <| dev := d |>, Done)
        | _ => Ok (s, o)
        end
    | _ => Ok (s, o)
    end.

(** ** The two lists hold the same keys *)
Context {WL : WordMemLaws M}.
Context (K : KL.params_ok (M := M) KP) (O : regs_ok (M := M) KP P).
Context (Hturns : (4 <= turns)%nat).

(** The keys fit, and none is a sentinel's. *)
Record keys_ok : Prop := {
  ko_lower : 0 < KEY_LOWER_BOUND Q;
  ko_upper : KEY_UPPER_BOUND Q <= 2 ^ 31;
  ko_range : 0 < range;
  ko_rand : forall i, 0 <= rand i
}.
Context (Hkeys : keys_ok).

Abbreviation cap := (Z.to_nat (KL.NUM_MEM_BLOCKS (M := M) KP)).
Abbreviation room := (KL.room (M := M) KP).

Lemma room_cap : (room <= cap)%nat.
Proof. unfold KL.room. destruct (DEBUG_RESIDENT KP); lia. Qed.

(** [xs] on the PIM processor, [ys] on the host. *)
Record agreed (xs ys : list Z) (s : App) : Prop := {
  ag_dev : exists m n t sched, dev s = mkSys (rest m n) sched t /\ (n <= 3)%nat /\ (forall i, 1 <= sched i)%nat /\
    KL.Rep KP xs m;
  ag_host : exists ns, HL.rep ys ns (heap_ s) (int_list s);
  ag_size : size s = Z.of_nat (length xs);
  ag_perm : xs ≡ₚ ys;
  ag_inc : increasing xs
}.

Lemma uL_key k : 0 <= k < 2 ^ 32 -> uL P k = k.
Proof.
  intros H. unfold uL. rewrite (ro_word _ _ O). by apply KL.ul_small.
Qed.

(** One call, on a set the processor holds. *)
Lemma call_ok command k xs ys s : agreed xs ys s -> 1 <= command <= 3 -> 0 < k < UINT32_MAX ->
  (DEBUG_RESIDENT KP = true -> command = 1 -> k ∈ xs \/ (length xs < room)%nat) ->
  exists s' r, call command k s = Ok (s', r) /\ snd (KL.list_spec cap command k xs) = Some r /\
    (exists m n t sched, dev s' = mkSys (rest m n) sched t /\ (n <= 3)%nat /\ (forall i, 1 <= sched i)%nat /\
       KL.Rep KP (fst (KL.list_spec cap command k xs)) m) /\
    heap_ s' = heap_ s /\ int_list s' = int_list s /\ size s' = size s /\ rand_pos s' = rand_pos s.
Proof.
  intros [(m & n & t & sched & Ed & Hn & Hs & R) _ _ _ _] Hc Hk Hd. unfold call. rewrite Ed, uL_key by (unfold UINT32_MAX in Hk; lia).
  destruct (KL.set_arg KP K xs m 0 command R) as (m1 & E0 & A0 & _ & R1); [lia|].
  destruct (KL.set_arg KP K xs m1 1 k R1) as (m2 & E1 & A1 & Ho & R2); [lia|].
  rewrite KL.ul_small in A0, A1 by (unfold UINT32_MAX in Hk; lia).
  destruct (KL.list_kernel_ok KP K m2 command k xs Hd) as (m3 & Ek & R3 & A3).
  { rewrite (proj2 Ho); [done|apply KL.sreg_cell; lia|]. apply KL.ne_regs; [done|lia]. }
  { done. }
  { by right. }
  assert (exists r, snd (KL.list_spec cap command k xs) = Some r) as [r Er].
  { assert (command = 1 \/ command = 2 \/ command = 3) as [->|[->| ->]] by lia; cbn [KL.list_spec Z.eqb Pos.eqb];
      repeat case_bool_decide; eexists; reflexivity. }
  destruct (kernel_call_ok KP (KL.execute_kernel KP) P O m m1 m2 m3 n sched t turns command k r (pim s)) as (n' & t' & Hn' & ->);
    [done|done|done|done|done|done|by apply A3|].
  cbn [mbind res_bind]. do 2 eexists. split; [done|]. split; [done|]. split; [|done].
  exists m3, n', t', sched. split_and!; [done|lia|done|done].
Qed.

(** What an operation may leave behind: the same place in the stream. *)
Definition step_to (s s' : App) (xs' : list Z) : Prop := rand_pos s' = rand_pos s /\ exists ys', agreed xs' ys' s'.

Lemma do_contains_ok k xs ys s : agreed xs ys s -> 0 < k < UINT32_MAX ->
  exists s', do_contains k s = Ok (s', true) /\ step_to s s' xs.
Proof.
  intros A Hk. destruct (call_ok 3 k xs ys s A) as (s' & r & E & Er & D & Hh & Hl & Hz & Hp); [lia|done|done|].
  destruct A as [_ [ns Hr] Hsz Hpm Hin]. cbn in Er. injection Er as <-. cbn [KL.list_spec fst Z.eqb Pos.eqb] in D.
  unfold do_contains. rewrite E. cbn [mbind res_bind]. rewrite Hh, Hl, (HL.contains_ok _ _ _ _ _ Hr). cbn [mbind res_bind].
  exists s'. split.
  - unfold same, KL.answer. do 3 f_equal. rewrite (bool_decide_ext (k ∈ ys) (k ∈ xs)) by (by rewrite Hpm). apply Z.eqb_refl.
  - split; [done|]. exists ys. split; [done|rewrite Hh, Hl; by exists ns|by rewrite Hz|done|done].
Qed.

Lemma do_remove_ok k xs ys s : agreed xs ys s -> 0 < k < UINT32_MAX ->
  exists s', do_remove k s = Ok (s', true) /\ step_to s s' (del k xs).
Proof.
  intros A Hk. destruct (call_ok 2 k xs ys s A) as (s' & r & E & Er & D & Hh & Hl & Hz & Hp); [lia|done|done|].
  destruct A as [_ [ns Hr] Hsz Hpm Hin]. cbn in Er. injection Er as <-. cbn [KL.list_spec fst Z.eqb Pos.eqb] in D.
  unfold do_remove. rewrite E. cbn [mbind res_bind]. rewrite Hh, Hl.
  destruct (HL.remove_ok k _ _ _ _ Hr) as (h' & l' & ns' & -> & Hr'). cbn [mbind res_bind].
  rewrite (bool_decide_ext (k ∈ ys) (k ∈ xs)) by (by rewrite Hpm). eexists. split.
  - unfold same, KL.answer. do 2 f_equal. apply Z.eqb_refl.
  - assert (del k xs ≡ₚ del k ys) as Hd by (unfold del; by rewrite Hpm).
    pose proof (HL.length_del k xs (increasing_NoDup _ Hin)) as Hlen.
    split; [by destruct (bool_decide _)|]. exists (del k ys).
    split; [by destruct (bool_decide _)|exists ns'; by destruct (bool_decide _)| |done|by apply del_increasing].
    rewrite Hlen. destruct (bool_decide_reflect (k ∈ xs)) as [Hx|Hx]; cbn [size field_upd]; rewrite Hz, Hsz; [|done].
    destruct xs; [by apply elem_of_nil in Hx|]. cbn. lia.
Qed.

Lemma do_add_ok k xs ys s : agreed xs ys s -> 0 < k < UINT32_MAX -> (k ∈ xs \/ length xs < room)%nat ->
  exists s', do_add k s = Ok (s', true) /\ step_to s s' (if bool_decide (k ∈ xs) then xs else ins k xs).
Proof.
  intros A Hk Hc. destruct (call_ok 1 k xs ys s A) as (s' & r & E & Er & D & Hh & Hl & Hz & Hp); [lia|done|done|].
  destruct A as [_ [ns Hr] Hsz Hpm Hin]. unfold do_add. rewrite E. cbn [mbind res_bind]. rewrite Hh, Hl.
  destruct (HL.add_ok k _ _ _ _ Hr) as (h' & l' & ns' & -> & Hr'). cbn [mbind res_bind].
  rewrite (bool_decide_ext (k ∉ ys) (k ∉ xs)) by (by rewrite Hpm). rewrite (bool_decide_ext (k ∈ ys) (k ∈ xs)) in Hr' by (by rewrite Hpm).
  cbn [KL.list_spec fst snd Z.eqb Pos.eqb] in Er, D. rewrite bool_decide_not. destruct (bool_decide_reflect (k ∈ xs)) as [Hx|Hx]; cbn [negb].
  - injection Er as <-. eexists. split; [done|]. split; [done|]. exists ys. split; [done|by exists ns'|cbn; by rewrite Hz|done|done].
  - rewrite bool_decide_eq_false_2 in Er, D by (pose proof room_cap; destruct Hc; [done|lia]). injection Er as <-. eexists. split; [done|].
    split; [done|]. exists (ys ++ [k]). pose proof (ins_perm k xs Hin Hx) as Hp'.
    split; [done|by exists ns'| | |by apply ins_increasing].
    + cbn [size field_upd]. rewrite Hz, Hsz, (Permutation_length Hp'). cbn. lia.
    + rewrite Hp', Hpm. by rewrite Permutation_app_comm.
Qed.

(** The list of the host has no bound. *)
Lemma do_add_full k xs ys s : DEBUG_RESIDENT KP = false -> agreed xs ys s -> 0 < k < UINT32_MAX -> k ∉ xs -> length xs = cap ->
  exists s', do_add k s = Ok (s', false).
Proof.
  intros Hrel A Hk Hx Hc. destruct (call_ok 1 k xs ys s A) as (s' & r & E & Er & D & Hh & Hl & Hz & Hp); [lia|done|congruence|].
  destruct A as [_ [ns Hr] Hsz Hpm Hin]. unfold do_add. rewrite E. cbn [mbind res_bind]. rewrite Hh, Hl.
  destruct (HL.add_ok k _ _ _ _ Hr) as (h' & l' & ns' & -> & _). cbn [mbind res_bind].
  rewrite (bool_decide_ext (k ∉ ys) (k ∉ xs)), bool_decide_eq_true_2 by (done || by rewrite Hpm).
  cbn [KL.list_spec snd Z.eqb Pos.eqb] in Er. rewrite bool_decide_eq_false_2, bool_decide_eq_true_2 in Er by done.
  injection Er as <-. by eexists.
Qed.

(** ** The keys of the stream *)
Definition key_at (i : nat) : Z := Z.rem (rand i) range + KEY_LOWER_BOUND Q.
Definition drawn (n : nat) : gset Z := list_to_set (key_at <$> seq 0 n).

Lemma key_at_range i : 0 < key_at i < UINT32_MAX.
Proof.
  destruct Hkeys as [H1 H2 H3 H4]. unfold key_at. pose proof (Z.rem_bound_pos (rand i) range (H4 i) H3). unfold range, UINT32_MAX in *. lia.
Qed.

Lemma next_key_ok s : next_key s = Ok (s <| rand_pos := S (rand_pos s) |>, key_at (rand_pos s)).
Proof. unfold next_key, next_rand. by rewrite (proj2 (Z.eqb_neq range 0)) by (pose proof (ko_range Hkeys); lia). Qed.

Lemma drawn_S n : drawn (S n) = {[key_at n]} ∪ drawn n.
Proof.
  unfold drawn. rewrite seq_S, fmap_app, list_to_set_app_L. rewrite (union_comm_L (list_to_set _)). f_equal. apply (right_id_L ∅ (∪)).
Qed.

Lemma drawn_length xs n : increasing xs -> list_to_set xs = drawn n -> length xs = base.size (drawn n).
Proof. intros Hi <-. symmetry. apply size_list_to_set. by apply increasing_NoDup. Qed.

Lemma lset_in k xs : k ∈ xs -> {[k]} ∪ list_to_set xs = (list_to_set xs : gset Z).
Proof. intros H. by apply subseteq_union_1_L, singleton_subseteq_l, elem_of_list_to_set. Qed.

Lemma agreed_rand xs ys s n : agreed xs ys s -> agreed xs ys (s <| rand_pos := n |>).
Proof. intros [? ? ? ? ?]. by split. Qed.

(** ** The loops *)

Lemma populate_ok n : forall fuel xs ys s, agreed xs ys s -> list_to_set xs = drawn (rand_pos s) ->
  INITIAL_LIST_SIZE Q <= Z.of_nat (base.size (drawn (rand_pos s + n))) -> (length xs <= room)%nat ->
  INITIAL_LIST_SIZE Q <= Z.of_nat room -> (n < fuel)%nat ->
  exists s' xs' ys', populate fuel s = Ok (s', Done) /\ agreed xs' ys' s' /\ (length xs' <= room)%nat.
Proof.
  induction n as [|n IH]; intros fuel xs ys s A Hd Hn Hl Hc Hf; (destruct fuel as [|fuel]; [lia|]); cbn [populate];
    rewrite (ag_size _ _ _ A).
  - rewrite Nat.add_0_r in Hn. pose proof (drawn_length xs (rand_pos s) (ag_inc _ _ _ A) Hd).
    rewrite (proj2 (Z.ltb_ge _ _)) by lia. by exists s, xs, ys.
  - destruct (Z.ltb_spec (Z.of_nat (length xs)) (INITIAL_LIST_SIZE Q)) as [Hlt|]; [|by exists s, xs, ys].
    rewrite next_key_ok. cbn [mbind res_bind].
    destruct (do_add_ok (key_at (rand_pos s)) xs ys _ (agreed_rand xs ys s (S (rand_pos s)) A) (key_at_range _)) as (s' & -> & Hp & ys' & A');
      [right; lia|]. cbn [mbind res_bind]. cbn [rand_pos field_upd] in Hp. eapply IH; [exact A'| | | |done|lia].
    + rewrite Hp, drawn_S, <- Hd. destruct (bool_decide_reflect (key_at (rand_pos s) ∈ xs)) as [Hx|Hx]; [|apply LL.lset_ins].
      symmetry. by apply lset_in.
    + rewrite Hp. by rewrite <- plus_n_Sm in Hn.
    + destruct (bool_decide_reflect (key_at (rand_pos s) ∈ xs)) as [Hx|Hx]; [done|].
      rewrite (Permutation_length (ins_perm _ _ (ag_inc _ _ _ A) Hx)). cbn. lia.
Qed.

(** Too few different numbers: the loop does not end. *)
Lemma drawn_mono n k : (n <= k)%nat -> (base.size (drawn n) <= base.size (drawn k))%nat.
Proof. intros H. induction H as [|k _ IH]; [done|]. rewrite drawn_S. etrans; [exact IH|]. apply subseteq_size. set_solver. Qed.

Lemma populate_diverges fuel : forall xs ys s, agreed xs ys s -> list_to_set xs = drawn (rand_pos s) ->
  Z.of_nat (base.size (drawn (rand_pos s + pred fuel))) < INITIAL_LIST_SIZE Q -> INITIAL_LIST_SIZE Q <= Z.of_nat room ->
  populate fuel s = Err Diverged.
Proof.
  induction fuel as [|fuel IH]; intros xs ys s A Hd Hn Hc; [done|]. cbn [populate pred] in *. rewrite (ag_size _ _ _ A).
  pose proof (drawn_mono (rand_pos s) (rand_pos s + fuel) ltac:(lia)).
  rewrite (drawn_length xs (rand_pos s) (ag_inc _ _ _ A) Hd), (proj2 (Z.ltb_lt _ _)) by lia. rewrite next_key_ok. cbn [mbind res_bind].
  pose proof (drawn_length xs (rand_pos s) (ag_inc _ _ _ A) Hd) as Hl.
  destruct (do_add_ok (key_at (rand_pos s)) xs ys _ (agreed_rand xs ys s (S (rand_pos s)) A) (key_at_range _)) as (s' & -> & Hp & ys' & A');
    [right; lia|]. cbn [mbind res_bind]. cbn [rand_pos field_upd] in Hp.
  destruct fuel as [|fuel]; [done|]. eapply IH; [exact A'| | |done].
  - rewrite Hp, drawn_S, <- Hd. destruct (bool_decide_reflect (key_at (rand_pos s) ∈ xs)) as [Hx|Hx]; [|apply LL.lset_ins].
    symmetry. by apply lset_in.
  - rewrite Hp. cbn [pred]. by rewrite <- plus_n_Sm in Hn.
Qed.

Lemma populate_full n : DEBUG_RESIDENT KP = false -> forall fuel xs ys s, agreed xs ys s -> list_to_set xs = drawn (rand_pos s) ->
  INITIAL_LIST_SIZE Q <= Z.of_nat (base.size (drawn (rand_pos s + n))) -> (length xs <= cap)%nat ->
  Z.of_nat cap < INITIAL_LIST_SIZE Q -> (n < fuel)%nat ->
  exists s', populate fuel s = Ok (s', Disagreement).
Proof.
  intros Hrel. assert (room = cap) as Erc by (unfold KL.room; by rewrite Hrel). induction n as [|n IH]; intros fuel xs ys s A Hd Hn Hl Hc Hf; (destruct fuel as [|fuel]; [lia|]); cbn [populate];
    rewrite (ag_size _ _ _ A).
  - rewrite Nat.add_0_r in Hn. rewrite (drawn_length xs (rand_pos s) (ag_inc _ _ _ A) Hd) in Hl. lia.
  - rewrite (proj2 (Z.ltb_lt _ _)) by lia. rewrite next_key_ok. cbn [mbind res_bind].
    destruct (decide ((key_at (rand_pos s) ∉ xs) /\ length xs = cap)) as [[Hx Hcap]|Hno].
    { destruct (do_add_full (key_at (rand_pos s)) xs ys _ Hrel (agreed_rand xs ys s (S (rand_pos s)) A) (key_at_range _) Hx Hcap) as (s' & ->).
      by exists s'. }
    destruct (do_add_ok (key_at (rand_pos s)) xs ys _ (agreed_rand xs ys s (S (rand_pos s)) A) (key_at_range _)) as (s' & -> & Hp & ys' & A').
    { destruct (decide (key_at (rand_pos s) ∈ xs)); [by left|right]. apply not_and_l in Hno as [?|?]; [done|]. rewrite Erc. lia. }
    cbn [mbind res_bind]. cbn [rand_pos field_upd] in Hp. eapply IH; [exact A'| | | |done|lia].
    + rewrite Hp, drawn_S, <- Hd. destruct (bool_decide_reflect (key_at (rand_pos s) ∈ xs)) as [Hx|Hx]; [|apply LL.lset_ins].
      symmetry. by apply lset_in.
    + rewrite Hp. by rewrite <- plus_n_Sm in Hn.
    + destruct (bool_decide_reflect (key_at (rand_pos s) ∈ xs)) as [Hx|Hx]; [done|].
      rewrite (Permutation_length (ins_perm _ _ (ag_inc _ _ _ A) Hx)). cbn. apply not_and_l in Hno as [?|?]; [done|lia].
Qed.

Context (Hmax : MAX_LIST_SIZE Q <= Z.of_nat room) (Hcap : (1 <= room)%nat).

Lemma random_op_ok k x xs ys s : agreed xs ys s -> (length xs <= room)%nat -> 0 < k < UINT32_MAX ->
  exists s' xs', random_op k x s = Ok (s', true) /\ step_to s s' xs' /\ (length xs' <= room)%nat.
Proof.
  intros A Hl Hk. unfold random_op. pose proof (ag_size _ _ _ A) as Hz.
  assert ((length xs < room)%nat -> exists s' xs', do_add k s = Ok (s', true) /\ step_to s s' xs' /\ (length xs' <= room)%nat) as Ha.
  { intros Hlt. destruct (do_add_ok k xs ys s A Hk (or_intror Hlt)) as (s' & E & H). eexists s', _. split; [done|]. split; [done|].
    destruct (bool_decide_reflect (k ∈ xs)) as [Hx|Hx]; [lia|].
    rewrite (Permutation_length (ins_perm _ _ (ag_inc _ _ _ A) Hx)). cbn. lia. }
  assert (exists s' xs', do_remove k s = Ok (s', true) /\ step_to s s' xs' /\ (length xs' <= room)%nat) as Hr.
  { destruct (do_remove_ok k xs ys s A Hk) as (s' & E & H). eexists s', _. split; [done|]. split; [done|].
    rewrite HL.length_del by apply increasing_NoDup, A. case_bool_decide; lia. }
  destruct (_ <=? _).
  { destruct (do_contains_ok k xs ys s A Hk) as (s' & E & H). by exists s', xs. }
  destruct (_ <? x).
  - destruct (Z.ltb_spec 0 (size s)); [done|]. apply Ha. lia.
  - destruct (Z.ltb_spec (size s) (MAX_LIST_SIZE Q)); [|done]. apply Ha. lia.
Qed.

Lemma run_ops_ok n : forall xs ys s, agreed xs ys s -> (length xs <= room)%nat ->
  exists s' xs' ys', run_ops n s = Ok (s', Done) /\ agreed xs' ys' s'.
Proof.
  induction n as [|n IH]; intros xs ys s A Hl; cbn [run_ops]; [by exists s, xs, ys|].
  rewrite next_key_ok. cbn [mbind res_bind next_rand].
  edestruct (random_op_ok (key_at (rand_pos s))) as (s' & xs' & -> & (_ & ys' & A') & Hl');
    [apply agreed_rand, agreed_rand; exact A|done|apply key_at_range|]. cbn [mbind res_bind]. by apply (IH xs' ys').
Qed.

End App.

(** ** The whole program *)
Section Main.

Context {M : Type} {WM : WordMem M} {WL : WordMemLaws M} (KP : KernelParams) (P : ApiParams) (Q : AppParams).
Context (turns : nat) (rand : nat -> Z).
Context (K : KL.params_ok (M := M) KP) (O : regs_ok (M := M) KP P).
Context (Hturns : (4 <= turns)%nat) (Hkeys : keys_ok Q rand).

Abbreviation cap := (KL.NUM_MEM_BLOCKS (M := M) KP).
Abbreviation room := (Z.of_nat (KL.room (M := M) KP)).

(** The state in which [populate] starts. *)
Lemma list_app_start (m : M) n sched t a h : mapped (KL.cell (M := M) KP) m -> (n <= 3)%nat -> (forall i, 1 <= sched i)%nat ->
  exists a1 d1 d2 a' d', record_time_stamp (AW := list_world KP P) P 3 a (mkSys (rest m n) sched t) = Ok (a1, d1) /\
    write_sreg (AW := list_world KP P) P 0 0 a1 d1 = Ok d2 /\ run_kernel KP (KL.execute_kernel KP) P turns a1 d2 = Ok (a', d') /\
    agreed KP [] [] (mkApp a' d' h HL.new_LinkedList 0 0).
Proof.
  intros Hm Hn Hs. assert (KL.cell (M := M) KP (KL.sreg KP 0)) as Hc by (apply KL.sreg_cell; lia).
  destruct (KL.store_cell KP K (KL.sreg KP 0) 0 m Hm Hc) as (m0 & E0 & A0 & Ho). rewrite KL.ul_small in A0 by lia.
  destruct (Hm (KL.sreg KP 1)) as [k Ek]; [apply KL.sreg_cell; lia|].
  destruct (KL.list_kernel_ok KP K m0 0 k [] ltac:(done) A0) as (m1 & E1 & R1 & _).
  { rewrite (proj2 Ho); [done|apply KL.sreg_cell; lia|]. apply KL.ne_regs; [done|lia]. }
  { left. split; [done|apply Ho]. }
  pose proof (Hs t). pose proof (Hs (S t)).
  edestruct (run_kernel_ok KP (KL.execute_kernel KP) P O m0 m1 (n - sched t - sched (S t))) as [t' E]; [exact Hs|lia|done|done|].
  do 5 eexists. split.
  { apply (stamp_write KP (KL.execute_kernel KP) P O 3 a _ (rest m (n - sched t))); [done|by apply rest_steps|done]. }
  split.
  { apply (sreg_write KP (KL.execute_kernel KP) P O 0 0 _ (rest m (n - sched t - sched (S t))) m m0); [apply rest_steps; lia|done..]. }
  split; [exact E|]. split; cbn [dev heap_ int_list size length]; try done.
  - exists m1, 3%nat, t', sched. by split_and!.
  - exists []. split; try done; constructor.
  - constructor.
Qed.

(** C7. The random test finds no difference.  For keys between those of the
    sentinels, and sizes the blocks have room for (in a debug build of the
    resident program, one less), whatever the schedule in which the processor makes
    a step between two accesses of the host: when the numbers [rand] returns hold
    as many different keys as the list is to start with, the program ends, and ends
    the simulation; as long as they do not, it fills the list for ever. *)
Theorem list_app_agrees (m : M) (n fuel t : nat) (sched : nat -> nat) (a : PIMAPI) (h : gmap loc HL.Node) :
  mapped (KL.cell (M := M) KP) m -> (n <= 3)%nat -> (forall i, 1 <= sched i)%nat ->
  1 <= room -> MAX_LIST_SIZE Q <= room -> INITIAL_LIST_SIZE Q <= MAX_LIST_SIZE Q -> INITIAL_LIST_SIZE Q <= range Q ->
  let run := main KP P Q turns rand (S fuel) a (mkSys (rest m n) sched t) h in
  if decide (INITIAL_LIST_SIZE Q <= Z.of_nat (base.size (drawn Q rand fuel)))
  then exists s, run = Ok (s, Done) /\ d_fault (s_dev (dev s)) = Some (Exit 0)
  else run = Err Diverged.
Proof.
  intros Hm Hn Hs Hc Hmax Hi Hr run. destruct (list_app_start m n sched t a h Hm Hn Hs) as (a1 & d1 & d2 & a' & d' & E1 & E2 & E3 & A).
  subst run. unfold main. rewrite !(proj2 (Z.ltb_ge _ _)) by lia.
  fold (list_world KP P). rewrite E1. cbn [mbind res_bind]. rewrite E2. cbn [mbind res_bind]. rewrite E3. cbn [mbind res_bind].
  change (_ <| dev := d' |>) with (mkApp a' d' h HL.new_LinkedList 0 0). case_decide as Hd.
  2: { rewrite (populate_diverges KP P Q turns rand K O Hturns Hkeys (S fuel) [] [] _ A); (done || (cbn [rand_pos pred Nat.add]; lia)). }
  destruct (populate_ok KP P Q turns rand K O Hturns Hkeys fuel (S fuel) [] [] _ A) as (s1 & xs & ys & -> & A1 & Hl);
    [done|done|cbn [length]; lia|lia|lia|]. cbn [mbind res_bind].
  destruct (run_ops_ok KP P Q turns rand K O Hturns Hkeys ltac:(lia) ltac:(lia) (Z.to_nat (TOTAL_NUM_OPS Q)) xs ys s1 A1 Hl)
    as (s2 & xs2 & ys2 & -> & A2). cbn [mbind res_bind].
  destruct (ag_dev _ _ _ _ A2) as (m2 & n2 & t2 & sched2 & E4 & Hn2 & _). rewrite E4. unfold list_world.
  rewrite (exit_write KP (KL.execute_kernel KP) P O _ (rest m2 (n2 - sched2 t2))) by (done || by apply rest_steps).
  cbn [mbind res_bind]. eexists. split; [done|]. done.
Qed.

(** The list of the host has no bound: when the program is to start with more
    keys than the processor has blocks, it reports a difference. *)
Theorem list_app_too_big (m : M) (n N fuel t : nat) (sched : nat -> nat) (a : PIMAPI) (h : gmap loc HL.Node) :
  DEBUG_RESIDENT KP = false -> mapped (KL.cell (M := M) KP) m -> (n <= 3)%nat -> (forall i, 1 <= sched i)%nat ->
  cap < INITIAL_LIST_SIZE Q -> INITIAL_LIST_SIZE Q <= MAX_LIST_SIZE Q -> INITIAL_LIST_SIZE Q <= range Q ->
  INITIAL_LIST_SIZE Q <= Z.of_nat (base.size (drawn Q rand N)) -> (N < fuel)%nat ->
  exists s, main KP P Q turns rand fuel a (mkSys (rest m n) sched t) h = Ok (s, Disagreement).
Proof.
  intros Hrel Hm Hn Hs Hc Hi Hr Hd Hf. destruct (list_app_start m n sched t a h Hm Hn Hs) as (a1 & d1 & d2 & a' & d' & E1 & E2 & E3 & A).
  unfold main. rewrite !(proj2 (Z.ltb_ge _ _)) by lia.
  fold (list_world KP P). rewrite E1. cbn [mbind res_bind]. rewrite E2. cbn [mbind res_bind]. rewrite E3. cbn [mbind res_bind].
  change (_ <| dev := d' |>) with (mkApp a' d' h HL.new_LinkedList 0 0).
  pose proof (proj1 (KL.blocks_fit KP K)). destruct (populate_full KP P Q turns rand K O Hturns Hkeys N Hrel fuel [] [] _ A) as (s1 & ->);
    [done|done|cbn; lia|lia|done|]. by exists s1.
Qed.

End Main.

(** ** Witnesses: four blocks, keys 1 to 8, a debug build of the library *)
Definition ex_app (initial : Z) : AppParams := mkAppParams 1 9 (Z.max 4 initial) initial 12 34.
Definition ex_rand (i : nat) : Z := Z.of_nat (11 * i + 5).

Lemma ex_keys_ok initial : keys_ok (ex_app initial) ex_rand.
Proof. split; [done|done|done|]. intros i. unfold ex_rand. lia. Qed.

Lemma ex_same_ok initial : keys_ok (ex_app initial) (fun _ => 5).
Proof. by split. Qed.

(** The resident program in a release build with four blocks, and in a debug build
    with five; the eighth number drawn is the third different key. *)
Definition ex_app_debug : KernelParams := mkKernelParams 64 40 16 true.

Lemma ex_app_debug_ok : KL.params_ok (M := SPM 4) ex_app_debug.
Proof. split; cbn; lia. Qed.

Lemma ex_app_debug_mapped : mapped (KL.cell (M := SPM 4) ex_app_debug) (mkSPM (replicate 112 0) : SPM 4).
Proof.
  intros b Hb. assert (16 <= b /\ b + 4 <= 112) as H.
  { destruct Hb as [(i & Hi & ->)|(i & Hi & ->)]; cbn in Hi |- *; [lia|].
    change (KL.NUM_MEM_BLOCKS (M := SPM 4) ex_app_debug) with 5 in Hi. lia. }
  cbn [ld spm_mem]. unfold spm_ld. rewrite (proj2 (Z.leb_gt b 0)) by lia.
  rewrite arr_read_ok; [by eexists|lia|lia|]. cbn [spm_bytes]. rewrite length_replicate. lia.
Qed.

Lemma ex_app_debug_regs : regs_ok (M := SPM 4) ex_app_debug ex_api.
Proof.
  split; [done|done| |repeat constructor; done]. apply (bool_decide_unpack _). by vm_compute.
Qed.

Lemma list_app_agrees_witness : (exists s,
  main KL.ex_params ex_api (ex_app 3) 4 ex_rand 9 ex_api_state (mkSys (rest (KL.ex_mem 0 7) 0) (fun i => S (i mod 3)) 0) ∅ = Ok (s, Done) /\
  d_fault (s_dev (dev s)) = Some (Exit 0)) /\
  (exists s,
  main ex_app_debug ex_api (ex_app 3) 4 ex_rand 9 ex_api_state (mkSys (rest (mkSPM (replicate 112 0) : SPM 4) 0) (fun i => S (i mod 3)) 0) ∅ = Ok (s, Done) /\
  d_fault (s_dev (dev s)) = Some (Exit 0)) /\
  main KL.ex_params ex_api (ex_app 3) 4 (fun _ => 5) 100 ex_api_state (mkSys (rest (KL.ex_mem 0 7) 0) (fun i => S (i mod 3)) 0) ∅ = Err Diverged.
Proof.
  split; [|split].
  - apply (list_app_agrees KL.ex_params ex_api (ex_app 3) 4 ex_rand KL.ex_params_ok ex_regs_ok (le_n 4) (ex_keys_ok 3) _ _ 8);
      [apply KL.ex_mapped|lia|intros i; lia|(lia || (vm_compute; discriminate))..].
  - apply (list_app_agrees ex_app_debug ex_api (ex_app 3) 4 ex_rand ex_app_debug_ok ex_app_debug_regs (le_n 4) (ex_keys_ok 3) _ _ 8);
      [apply ex_app_debug_mapped|lia|intros i; lia|(lia || (vm_compute; discriminate))..].
  - apply (list_app_agrees KL.ex_params ex_api (ex_app 3) 4 (fun _ => 5) KL.ex_params_ok ex_regs_ok (le_n 4) (ex_same_ok 3) _ _ 99);
      [apply KL.ex_mapped|lia|intros i; lia|(lia || (vm_compute; discriminate))..].
Defined.

Lemma list_app_too_big_witness : exists s,
  main KL.ex_params ex_api (ex_app 5) 4 ex_rand 17 ex_api_state (mkSys (rest (KL.ex_mem 0 7) 0) (fun i => 1)%nat 0) ∅ = Ok (s, Disagreement).
Proof.
  apply (list_app_too_big KL.ex_params ex_api (ex_app 5) 4 ex_rand KL.ex_params_ok ex_regs_ok (le_n 4) (ex_keys_ok 5) _ _ 16);
    [reflexivity|apply KL.ex_mapped|lia|intros i; lia|(lia || (vm_compute; (reflexivity || discriminate)))..].
Defined.
