(* ===== verification/DramBank.v ===== *)
(** * The banks of a DRAM controller

    Models the part of [mem/dram_ctrl.cc] and [mem/dram_ctrl.hh] that issues
    commands to the banks of a vault: activation, precharge, and the access of a
    burst with its row, bus and bank-group constraints.  The controller plans
    ahead: a command is issued for a moment that may lie in the future, and the
    times from which the next ones are allowed are kept with the banks.

    The commands given to the power model are recorded with their moments, which
    the code rounds to cycles.  The events of the controller are kept as the
    event queue serves them: in the order of their moments, and the one scheduled
    last in front of its equals ([EventQueue]). *)

From S2P Require Import Prelude.
From S2P Require Import Packet.

(** ** Parameters *)
Inductive MemSched := fcfs | frfcfs.
Inductive AddrMap := RoRaBaChCo | RoRaBaCoCh | RoCoRaBaCh.
Inductive PageManage := open_page | open_adaptive | close_page | close_adaptive.

#[global] Instance MemSched_eq_dec : EqDecision MemSched.
Proof. solve_decision. Defined.
#[global] Instance AddrMap_eq_dec : EqDecision AddrMap.
Proof. solve_decision. Defined.
#[global] Instance PageManage_eq_dec : EqDecision PageManage.
Proof. solve_decision. Defined.

Record DramParams := mkDramParams {
  burstSize : Z;
  columnsPerRowBuffer : Z;
  columnsPerStripe : Z;
  ranksPerChannel : Z;
  bankGroupsPerRank : Z;
  banksPerRank : Z;
  channels : Z;
  rowsPerBank : Z;
  readBufferSize : Z;
  writeBufferSize : Z;
  writeHighThreshold : Z;
  writeLowThreshold : Z;
  minWritesPerSwitch : Z;
  tWTR : Z;
  tRTW : Z;
  tCS : Z;
  tBURST : Z;
  tCCD_L : Z;
  tRCD : Z;
  tCL : Z;
  tRP : Z;
  tRAS : Z;
  tWR : Z;
  tRTP : Z;
  tRFC : Z;
  tREFI : Z;
  tRRD : Z;
  tRRD_L : Z;
  tXAW : Z;
  activationLimit : Z;
  memSchedPolicy : MemSched;
  addrMapping : AddrMap;
  pageMgmt : PageManage;
  maxAccessesPerRow : Z;
  frontendLatency : Z;
  backendLatency : Z
}.

(** ** State *)
Record Bank := mkBank {
  openRow : Z;
  bankgr : Z;
  colAllowedAt : Z;
  preAllowedAt : Z;
  actAllowedAt : Z;
  rowAccesses : Z;
  bytesAccessed : Z
}.

Definition NO_ROW : Z := 2 ^ 32 - 1.

Definition Bank_new (gr : Z) : Bank := mkBank NO_ROW gr 0 0 0 0 0.

(** The commands of [MemCommand] that are used, with the row concerned, which the
    power model is not told. *)
Inductive CmdKind := ACT (row : Z) | PRE | PREA | RD (row : Z) | WR (row : Z) | REF.

Record Cmd := mkCmd { c_kind : CmdKind; c_rank : nat; c_bank : nat; c_tick : Z }.

(** The events of the controller. *)
Inductive Ev := NextReq | Respond | Activate | Precharge | Refresh | Power.

#[global] Instance Ev_eq_dec : EqDecision Ev.
Proof. solve_decision. Defined.

Record Dram := mkDram {
  banks : list (list Bank);
  actTicks : list (list Z);
  busBusyUntil : Z;
  nextReqTime : Z;
  numBanksActive : Z;
  activeRank : nat;
  readsThisTime : Z;
  writesThisTime : Z;
  cmdList : list Cmd;
  events : list (Ev * Z)
}.

(** A burst in a queue; [bankRef] is the bank at [rank] and [bank]. *)
Record DRAMPacket := mkDRAMPacket {
  entryTime : Z;
  readyTime : Z;
  dp_pkt : Packet;
  dp_isRead : bool;
  rank : nat;
  bank : nat;
  row : Z;
  bankId : Z;
  dp_addr : Z;
  dp_size : Z;
  burstHelper : option positive
}.

(** ** Events *)
Fixpoint ev_when (e : Ev) (l : list (Ev * Z)) : option Z :=
  match l with
  | [] => None
  | (e', t) :: l => if decide (e' = e) then Some t else ev_when e l
  end.
Definition ev_remove (e : Ev) (l : list (Ev * Z)) : list (Ev * Z) := filter (fun x => fst x <> e) l.

(** In front of the events that are not earlier. *)
Fixpoint ev_insert (e : Ev) (t : Z) (l : list (Ev * Z)) : list (Ev * Z) :=
  match l with
  | [] => [(e, t)]
  | (e', t') :: l' => if t <=? t' then (e, t) :: l else (e', t') :: ev_insert e t l'
  end.

Definition when_ (e : Ev) (d : Dram) : option Z := ev_when e (events d).

Definition sched (e : Ev) (now t : Z) (d : Dram) : res Dram :=
  _ ← assert_ (now <=? t);
  _ ← assert_ (bool_decide (when_ e d = None));
  Ok (d <| events := ev_insert e t (events d) |>).
Definition resched (e : Ev) (now t : Z) (d : Dram) : res Dram :=
  _ ← assert_ (now <=? t);
  _ ← assert_ (negb (bool_decide (when_ e d = None)));
  Ok (d <| events := ev_insert e t (ev_remove e (events d)) |>).

(** ** Banks *)
Definition get_bank (r b : nat) (d : Dram) : res Bank := l ← deref (banks d !! r); deref (l !! b).
Definition set_bank (r b : nat) (f : Bank -> Bank) (d : Dram) : Dram := d <| banks := alter (alter f b) r (banks d) |>.
Definition set_rank (r : nat) (f : Bank -> Bank) (d : Dram) : Dram := d <| banks := alter (fmap f) r (banks d) |>.
(** Every bank, with its rank. *)
Definition set_all (f : nat -> Bank -> Bank) (d : Dram) : Dram := d <| banks := imap (fun r l => f r <$> l) (banks d) |>.

Definition issue (k : CmdKind) (r b : nat) (t : Z) (d : Dram) : Dram := d <| cmdList := mkCmd k r b t :: cmdList d |>.

Definition tadd (a b : Z) : Z := u64 (a + b).

Section Banks.

Context (P : DramParams).

Definition bankGroupArch : bool := 0 <? bankGroupsPerRank P.

(** Bank [x] is in the group of [y], in the bank group architecture. *)
Definition same_group (x y : Bank) : bool := bankGroupArch && (bankgr x =? bankgr y).

(** [actTicks]: the activation window of a rank. *)
Definition window (act_tick : Z) (r : nat) (d : Dram) : res Dram :=
  ticks ← deref (actTicks d !! r);
  match ticks with
  | [] => Ok d
  | _ =>
      oldest ← deref (last ticks);
      if negb (oldest =? 0) && (u64 (act_tick - oldest) <? tXAW P) then panic
      else
        let ticks := act_tick :: removelast ticks in
        let d := d <| actTicks := <[r := ticks]> (actTicks d) |> in
        oldest ← deref (last ticks);
        if negb (oldest =? 0) && (u64 (act_tick - oldest) <? tXAW P)
        then Ok (set_rank r (fun x => x <| actAllowedAt := Z.max (tadd oldest (tXAW P)) (actAllowedAt x) |>) d)
        else Ok d
  end.

Definition activateBank (now : Z) (r b : nat) (act_tick row : Z) (d : Dram) : res Dram :=
  ticks ← deref (actTicks d !! r);
  _ ← assert_ (Z.of_nat (length ticks) =? activationLimit P);
  x ← get_bank r b d;
  _ ← assert_ (openRow x =? NO_ROW);
  let n := u32 (numBanksActive d + 1) in
  _ ← assert_ (n <=? u32 (banksPerRank P * ranksPerChannel P));
  let x := x <| openRow := row |> <| bytesAccessed := 0 |> <| rowAccesses := 0 |>
             <| preAllowedAt := tadd act_tick (tRAS P) |> <| colAllowedAt := Z.max (tadd act_tick (tRCD P)) (colAllowedAt x) |> in
  let d := issue (ACT row) r b act_tick (set_bank r b (fun _ => x) (d <| numBanksActive := n |>)) in
  let d := set_rank r (fun y =>
             y <| actAllowedAt := Z.max (tadd act_tick (if same_group x y then tRRD_L P else tRRD P)) (actAllowedAt y) |>) d in
  d ← window act_tick r d;
  match when_ Activate d with
  | None => sched Activate now act_tick d
  | Some t => if act_tick <? t then resched Activate now act_tick d else Ok d
  end.

Definition prechargeBank (now : Z) (r b : nat) (pre_at : Z) (trace : bool) (d : Dram) : res Dram :=
  x ← get_bank r b d;
  _ ← assert_ (negb (openRow x =? NO_ROW));
  let pre_done_at := tadd pre_at (tRP P) in
  let d := set_bank r b (fun _ => x <| openRow := NO_ROW |> <| preAllowedAt := pre_at |>
                                    <| actAllowedAt := Z.max (actAllowedAt x) pre_done_at |>) d in
  _ ← assert_ (negb (numBanksActive d =? 0));
  let d := d <| numBanksActive := u32 (numBanksActive d - 1) |> in
  let d := if trace then issue PRE r b pre_at d else d in
  match when_ Precharge d with
  | None => sched Precharge now pre_done_at d
  | Some t => if t <? pre_done_at then resched Precharge now pre_done_at d else Ok d
  end.

(** What the adaptive policies look for behind the burst at the head of its
    queue. *)
Fixpoint look_ahead (p : DRAMPacket) (queue : list DRAMPacket) (got_more_hits got_bank_conflict : bool) : bool * bool :=
  match queue with
  | [] => (got_more_hits, got_bank_conflict)
  | q :: queue =>
      if got_more_hits && (got_bank_conflict || bool_decide (pageMgmt P = close_adaptive))
      then (got_more_hits, got_bank_conflict)
      else
        let same_rank_bank := bool_decide (rank p = rank q) && bool_decide (bank p = bank q) in
        let same_row := row p =? row q in
        look_ahead p queue (got_more_hits || (same_rank_bank && same_row)) (got_bank_conflict || (same_rank_bank && negb same_row))
  end.

Definition auto_precharge (p : DRAMPacket) (queue : list DRAMPacket) (x : Bank) : bool :=
  let auto := bool_decide (pageMgmt P = close_page) || (rowAccesses x =? maxAccessesPerRow P) in
  if negb auto && (bool_decide (pageMgmt P = open_adaptive) || bool_decide (pageMgmt P = close_adaptive)) then
    let '(got_more_hits, got_bank_conflict) := look_ahead p (tail queue) false false in
    negb got_more_hits && (got_bank_conflict || bool_decide (pageMgmt P = close_adaptive))
  else auto.

(** The row of the burst is opened; the moment its command may be given. *)
Definition open_row (now : Z) (p : DRAMPacket) (d : Dram) : res (Dram * Z) :=
  x ← get_bank (rank p) (bank p) d;
  if openRow x =? row p then Ok (d, Z.max (colAllowedAt x) now)
  else
    d ← (if negb (openRow x =? NO_ROW) then prechargeBank now (rank p) (bank p) (Z.max (preAllowedAt x) now) true d else Ok d);
    x ← get_bank (rank p) (bank p) d;
    d ← activateBank now (rank p) (bank p) (Z.max (actAllowedAt x) now) (row p) d;
    x ← get_bank (rank p) (bank p) d;
    Ok (d, colAllowedAt x).

(** The delay between two bursts. *)
Definition cmd_dly (p : DRAMPacket) (x : Bank) (r : nat) (y : Bank) : Z :=
  if bool_decide (rank p = r) then if same_group x y then tCCD_L P else tBURST P else tBURST P + tCS P.

Definition doDRAMAccess (now : Z) (p : DRAMPacket) (queue : list DRAMPacket) (d : Dram) : res (Dram * DRAMPacket) :=
  '(d, cmd_at) ← open_row now p d;
  let cmd_at := Z.max cmd_at (u64 (busBusyUntil d - tCL P)) in
  let ready := u64 (cmd_at + tCL P + tBURST P) in
  _ ← assert_ (tBURST P <=? u64 (ready - busBusyUntil d));
  x ← get_bank (rank p) (bank p) d;
  let d := set_all (fun r y => y <| colAllowedAt := Z.max (u64 (cmd_at + cmd_dly p x r y)) (colAllowedAt y) |>) d in
  let d := d <| activeRank := rank p |> in
  let d := set_bank (rank p) (bank p) (fun x =>
    x <| preAllowedAt := Z.max (preAllowedAt x) (if dp_isRead p then tadd cmd_at (tRTP P) else tadd ready (tWR P)) |>
      <| bytesAccessed := u32 (bytesAccessed x + burstSize P) |> <| rowAccesses := u32 (rowAccesses x + 1) |>) d in
  x ← get_bank (rank p) (bank p) d;
  d ← (if auto_precharge p queue x then prechargeBank now (rank p) (bank p) (Z.max now (preAllowedAt x)) true d else Ok d);
  let d := d <| busBusyUntil := ready |> in
  let d := issue (if dp_isRead p then RD (row p) else WR (row p)) (rank p) (bank p) cmd_at d in
  let d := d <| nextReqTime := u64 (ready - (tRP P + tRCD P + tCL P)) |> in
  let d := if dp_isRead p then d <| readsThisTime := u32 (readsThisTime d + 1) |> else d <| writesThisTime := u32 (writesThisTime d + 1) |> in
  Ok (d, p <| readyTime := ready |>).

(** ** Precharge of all banks, and the refresh *)

(** The moment from which every bank may be precharged. *)
Definition pre_all_at (now : Z) (d : Dram) : Z :=
  foldl (fun t l => foldl (fun t x => Z.max (preAllowedAt x) t) t l) now (banks d).

Fixpoint precharge_rank (now pre_at : Z) (r b : nat) (n : nat) (d : Dram) : res Dram :=
  match n with
  | O => Ok d
  | S n =>
      x ← get_bank r b d;
      d ← (if negb (openRow x =? NO_ROW) then prechargeBank now r b pre_at false d
           else Ok (set_bank r b (fun x => x <| actAllowedAt := Z.max (actAllowedAt x) (tadd pre_at (tRP P)) |>
                                             <| preAllowedAt := Z.max (preAllowedAt x) pre_at |>) d));
      precharge_rank now pre_at r (S b) n d
  end.
Fixpoint precharge_ranks (now pre_at : Z) (r : nat) (n : nat) (d : Dram) : res Dram :=
  match n with
  | O => Ok d
  | S n =>
      d ← precharge_rank now pre_at r 0 (Z.to_nat (banksPerRank P)) d;
      precharge_ranks now pre_at (S r) n (issue PREA r 0 pre_at d)
  end.
Definition precharge_all (now : Z) (d : Dram) : res Dram :=
  precharge_ranks now (pre_all_at now d) 0 (Z.to_nat (ranksPerChannel P)) d.

(** Every bank is busy until the refresh is done. *)
Definition refresh_all (now : Z) (d : Dram) : Dram :=
  let ref_done_at := tadd now (tRFC P) in
  foldl (fun d r => issue REF r 0 now d) (set_all (fun _ x => x <| actAllowedAt := ref_done_at |>) d)
    (seq 0 (Z.to_nat (ranksPerChannel P))).

End Banks.
