(* ===== verification/DramAddr.v ===== *)
(** * Address decoding of a DRAM controller

    Models [decodeAddr] of [mem/dram_ctrl.cc]: the three mappings of an address
    to a rank, a bank and a row.  With the numbers of a burst inside its row, its
    stripe and its channel, which the function drops, the mapping is invertible
    ([decode_roundtrip]). *)

From S2P Require Import Prelude.
From S2P Require Import DramBank.

(** Division of unsigned numbers: undefined by zero. *)
Definition udiv (a b : Z) : res Z := if b =? 0 then undefined else Ok (a / b).
Definition umod (a b : Z) : res Z := if b =? 0 then undefined else Ok (a mod b).

Section Decode.

Context (P : DramParams).

(** Rank, bank and row of an address; the first two are bytes. *)
Definition decode (dramPktAddr : Z) : res (Z * Z * Z) :=
  addr ← udiv dramPktAddr (burstSize P);
  match addrMapping P with
  | RoRaBaChCo =>
      addr ← udiv addr (columnsPerRowBuffer P);
      addr ← udiv addr (channels P);
      bank ← umod addr (banksPerRank P);
      addr ← udiv addr (banksPerRank P);
      rank ← umod addr (ranksPerChannel P);
      addr ← udiv addr (ranksPerChannel P);
      row ← umod addr (rowsPerBank P);
      Ok (u8 rank, u8 bank, row)
  | RoRaBaCoCh =>
      addr ← udiv addr (columnsPerStripe P);
      addr ← udiv addr (channels P);
      cols ← udiv (columnsPerRowBuffer P) (columnsPerStripe P);
      addr ← udiv addr cols;
      bank ← umod addr (banksPerRank P);
      addr ← udiv addr (banksPerRank P);
      rank ← umod addr (ranksPerChannel P);
      addr ← udiv addr (ranksPerChannel P);
      row ← umod addr (rowsPerBank P);
      Ok (u8 rank, u8 bank, row)
  | RoCoRaBaCh =>
      addr ← udiv addr (columnsPerStripe P);
      addr ← udiv addr (channels P);
      bank ← umod addr (banksPerRank P);
      addr ← udiv addr (banksPerRank P);
      rank ← umod addr (ranksPerChannel P);
      addr ← udiv addr (ranksPerChannel P);
      cols ← udiv (columnsPerRowBuffer P) (columnsPerStripe P);
      addr ← udiv addr cols;
      row ← umod addr (rowsPerBank P);
      Ok (u8 rank, u8 bank, row)
  end.

Definition decodeAddr (now : Z) (pkt : Packet.Packet) (dramPktAddr size : Z) (isRead : bool) : res DRAMPacket :=
  '(rank, bank, row) ← decode dramPktAddr;
  _ ← assert_ (rank <? ranksPerChannel P);
  _ ← assert_ (bank <? banksPerRank P);
  _ ← assert_ (row <? rowsPerBank P);
  _ ← assert_ (row <? NO_ROW);
  Ok (mkDRAMPacket now now pkt isRead (Z.to_nat rank) (Z.to_nat bank) row (u16 (banksPerRank P * rank + bank)) dramPktAddr size None).

(** ** The inverse *)

(** A byte of the memory: its place in a burst, a stripe and a row, and the
    channel beside what the decoder finds. *)
Record Place := mkPlace {
  pl_rank : Z; pl_bank : Z; pl_row : Z; pl_channel : Z; pl_column : Z; pl_stripe : Z; pl_byte : Z
}.

Definition cols : Z := columnsPerRowBuffer P / columnsPerStripe P.

(** The parts of an address from the lowest, and how many values each has. *)
Definition radices : list Z :=
  match addrMapping P with
  | RoRaBaChCo => [burstSize P; columnsPerRowBuffer P; channels P; banksPerRank P; ranksPerChannel P]
  | RoRaBaCoCh => [burstSize P; columnsPerStripe P; channels P; cols; banksPerRank P; ranksPerChannel P]
  | RoCoRaBaCh => [burstSize P; columnsPerStripe P; channels P; banksPerRank P; ranksPerChannel P; cols]
  end.
Definition digits (p : Place) : list Z :=
  match addrMapping P with
  | RoRaBaChCo => [pl_byte p; pl_column p; pl_channel p; pl_bank p; pl_rank p]
  | RoRaBaCoCh => [pl_byte p; pl_column p; pl_channel p; pl_stripe p; pl_bank p; pl_rank p]
  | RoCoRaBaCh => [pl_byte p; pl_column p; pl_channel p; pl_bank p; pl_rank p; pl_stripe p]
  end.

Fixpoint join (ds ms : list Z) (r : Z) : Z :=
  match ds, ms with d :: ds, m :: ms => join ds ms r * m + d | _, _ => r end.
Fixpoint split_ (n : Z) (ms : list Z) : list Z * Z :=
  match ms with
  | [] => ([], n)
  | m :: ms => let '(ds, r) := split_ (n / m) ms in (n mod m :: ds, r)
  end.

Definition encode (p : Place) : Z := join (digits p) radices (pl_row p).

Definition place_ok (p : Place) : Prop :=
  Forall2 (fun d m => 0 <= d < m) (digits p) radices /\ 0 <= pl_row p < rowsPerBank P /\
  (addrMapping P = RoRaBaChCo -> pl_stripe p = 0).

Definition capacity : Z := foldr Z.mul (rowsPerBank P) radices.

(** The dimensions are not empty, and fit the bytes of the decoder. *)
Record dims_ok : Prop := {
  do_burst : 0 < burstSize P;
  do_stripe : 0 < columnsPerStripe P <= columnsPerRowBuffer P;
  do_ranks : 0 < ranksPerChannel P <= 2 ^ 8;
  do_banks : 0 < banksPerRank P <= 2 ^ 8;
  do_rows : 0 < rowsPerBank P < 2 ^ 32;
  do_channels : 0 < channels P
}.

(** ** Numbers in a mixed radix *)
Lemma split_join ds ms r : Forall2 (fun d m => 0 <= d < m) ds ms -> split_ (join ds ms r) ms = (ds, r).
Proof.
  induction 1 as [|d m ds ms Hd _ IH]; [done|]. cbn [join split_].
  rewrite Z.add_comm, Z.div_add, Z.mod_add, Z.div_small, Z.mod_small, Z.add_0_l, IH by lia. done.
Qed.

Lemma join_split ms : Forall (fun m => 0 < m) ms -> forall n, let '(ds, r) := split_ n ms in
  join ds ms r = n /\ Forall2 (fun d m => 0 <= d < m) ds ms.
Proof.
  induction 1 as [|m ms Hm _ IH]; intros n; cbn [split_]; [done|]. specialize (IH (n / m)).
  destruct (split_ (n / m) ms) as [ds r]. destruct IH as [IH F]. cbn [join]. rewrite IH. split.
  - rewrite (Z.div_mod n m) at 3 by lia. lia.
  - constructor; [by apply Z.mod_pos_bound|done].
Qed.

Lemma split_bound ms k : Forall (fun m => 0 < m) ms -> forall n, 0 <= n < foldr Z.mul k ms -> 0 <= snd (split_ n ms) < k.
Proof.
  induction 1 as [|m ms Hm _ IH]; intros n Hn; cbn [split_]; [done|]. cbn in Hn.
  specialize (IH (n / m)). destruct (split_ (n / m) ms) as [ds r]. apply IH. split; [apply Z.div_pos; lia|].
  apply Z.div_lt_upper_bound; lia.
Qed.

Lemma udiv_ok a b : 0 < b -> udiv a b = Ok (a / b).
Proof. intros H. unfold udiv. by rewrite (proj2 (Z.eqb_neq _ _)) by lia. Qed.
Lemma umod_ok a b : 0 < b -> umod a b = Ok (a mod b).
Proof. intros H. unfold umod. by rewrite (proj2 (Z.eqb_neq _ _)) by lia. Qed.

Context (D : dims_ok).

Lemma cols_pos : 0 < cols.
Proof. destruct D. unfold cols. apply Z.div_str_pos. lia. Qed.

Lemma radices_pos : Forall (fun m => 0 < m) radices.
Proof. pose proof cols_pos. destruct D. unfold radices. destruct (addrMapping P); repeat (constructor; try lia). Qed.

(** The place of an address. *)
Definition place_of (a : Z) : Place :=
  let '(ds, r) := split_ a radices in
  match addrMapping P, ds with
  | RoRaBaChCo, [o; co; ch; ba; ra] => mkPlace ra ba r ch co 0 o
  | RoRaBaCoCh, [o; co; ch; st; ba; ra] => mkPlace ra ba r ch co st o
  | RoCoRaBaCh, [o; co; ch; ba; ra; st] => mkPlace ra ba r ch co st o
  | _, _ => mkPlace 0 0 0 0 0 0 0
  end.

(** The decoder reads the rank and the bank among the digits. *)
Lemma decode_digits a : decode a = Ok (pl_rank (place_of a), pl_bank (place_of a), pl_row (place_of a) mod rowsPerBank P).
Proof.
  pose proof cols_pos. destruct D as [D1 D2 D3 D4 D5 D6]. unfold decode, place_of, radices.
  assert (forall z m, 0 < m <= 2 ^ 8 -> u8 (z mod m) = z mod m) as U.
  { intros z m Hm. apply wrap_id. pose proof (Z.mod_pos_bound z m ltac:(lia)). unfold inw. lia. }
  destruct (addrMapping P); cbn [split_ pl_rank pl_bank pl_row]; fold cols;
    repeat (first [rewrite udiv_ok by lia | rewrite umod_ok by lia]; cbn [mbind res_bind]; fold cols);
    by rewrite !U by lia.
Qed.

Lemma place_of_encode p : place_ok p -> place_of (encode p) = p.
Proof.
  intros (F & Hr & Hs). unfold place_of, encode. rewrite split_join by done. unfold digits.
  destruct p as [ra ba ro ch co st o], (addrMapping P); cbn in Hs |- *; [|done..]. by rewrite Hs.
Qed.

Lemma encode_place_of a : 0 <= a < capacity -> place_ok (place_of a) /\ encode (place_of a) = a.
Proof.
  intros Ha. pose proof (join_split radices radices_pos a) as J. pose proof (split_bound radices _ radices_pos a Ha) as B.
  unfold place_ok, encode, place_of. destruct (split_ a radices) as [ds r]. destruct J as [J F]. cbn in B.
  pose proof (Forall2_length _ _ _ F) as Hl. unfold digits, radices in *. destruct (addrMapping P);
    (repeat (destruct ds as [|? ds]; try done)); cbn in *; done.
Qed.

Lemma join_bound ds ms r k : Forall2 (fun d m => 0 <= d < m) ds ms -> 0 <= r < k -> 0 <= join ds ms r < foldr Z.mul k ms.
Proof. intros F Hr. induction F as [|d m ds ms Hd _ IH]; cbn [join foldr]; [done|nia]. Qed.

Lemma encode_bound p : place_ok p -> 0 <= encode p < capacity.
Proof. intros (F & Hr & _). by apply join_bound. Qed.

Definition place_dims (p : Place) : Prop := 0 <= pl_rank p < ranksPerChannel P /\ 0 <= pl_bank p < banksPerRank P.

Lemma place_ok_dims p : place_ok p -> place_dims p.
Proof.
  intros (F & _). unfold place_dims, digits, radices in *. destruct (addrMapping P); repeat (apply Forall2_cons in F as [? F]); lia.
Qed.

Lemma place_of_dims a : place_dims (place_of a).
Proof.
  pose proof (join_split radices radices_pos a) as J. unfold place_of, place_dims. destruct (split_ a radices) as [ds r].
  destruct J as [_ F]. pose proof (Forall2_length _ _ _ F) as Hl. unfold radices in *. destruct (addrMapping P);
    (repeat (destruct ds as [|? ds]; try done)); repeat (apply Forall2_cons in F as [? F]); cbn; lia.
Qed.

(** A row has fewer than 32 bits, so that it is below [NO_ROW]. *)
Lemma decodeAddr_at now pkt a size isRead : place_dims (place_of a) ->
  decodeAddr now pkt a size isRead =
  Ok (mkDRAMPacket now now pkt isRead (Z.to_nat (pl_rank (place_of a))) (Z.to_nat (pl_bank (place_of a)))
        (pl_row (place_of a) mod rowsPerBank P) (u16 (banksPerRank P * pl_rank (place_of a) + pl_bank (place_of a))) a size None).
Proof.
  intros ([Hr1 Hr2] & [Hb1 Hb2]). unfold decodeAddr. rewrite decode_digits. cbn [mbind res_bind]. destruct D.
  pose proof (Z.mod_pos_bound (pl_row (place_of a)) (rowsPerBank P) ltac:(lia)). unfold NO_ROW, assert_.
  rewrite !(proj2 (Z.ltb_lt _ _)) by lia. done.
Qed.

Lemma decodeAddr_ok now pkt size isRead p : place_ok p ->
  decodeAddr now pkt (encode p) size isRead =
  Ok (mkDRAMPacket now now pkt isRead (Z.to_nat (pl_rank p)) (Z.to_nat (pl_bank p)) (pl_row p)
        (u16 (banksPerRank P * pl_rank p + pl_bank p)) (encode p) size None).
Proof.
  intros Hp. rewrite decodeAddr_at, !place_of_encode by (rewrite ?place_of_encode by done; by apply place_ok_dims || done).
  destruct Hp as (_ & Hr & _). by rewrite Z.mod_small.
Qed.

(** An address beyond the memory is decoded as well. *)
Lemma decodeAddr_total now pkt a size isRead : exists d, decodeAddr now pkt a size isRead = Ok d /\
  (rank d < Z.to_nat (ranksPerChannel P))%nat /\ (bank d < Z.to_nat (banksPerRank P))%nat /\ 0 <= row d < NO_ROW /\
  bankId d = u16 (banksPerRank P * Z.of_nat (rank d) + Z.of_nat (bank d)) /\
  dp_addr d = a /\ dp_size d = size /\ dp_isRead d = isRead /\ dp_pkt d = pkt /\ burstHelper d = None.
Proof.
  pose proof (place_of_dims a) as H. rewrite decodeAddr_at by done. destruct H as ([Hr1 Hr2] & [Hb1 Hb2]). destruct D.
  pose proof (Z.mod_pos_bound (pl_row (place_of a)) (rowsPerBank P) ltac:(lia)).
  eexists. split; [done|]. cbn. unfold NO_ROW. rewrite !Z2Nat.id by lia. repeat (split; [lia || done|]). done.
Qed.

End Decode.

(** C31. Under each of the three mappings every byte of the memory is at one place and
    every place holds one byte; the decoder finds the rank, the bank and the row
    of the place, with the bank numbered among those of all ranks, and its
    assertions hold. *)
Theorem decode_roundtrip (P : DramParams) : dims_ok P ->
  (forall p, place_ok P p -> 0 <= encode P p < capacity P /\ place_of P (encode P p) = p) /\
  (forall a, 0 <= a < capacity P -> place_ok P (place_of P a) /\ encode P (place_of P a) = a) /\
  (forall now pkt p size isRead, place_ok P p ->
     exists d, decodeAddr P now pkt (encode P p) size isRead = Ok d /\
       Z.of_nat (rank d) = pl_rank p /\ Z.of_nat (bank d) = pl_bank p /\ row d = pl_row p /\
       bankId d = u16 (banksPerRank P * pl_rank p + pl_bank p) /\ dp_addr d = encode P p /\ dp_size d = size).
Proof.
  intros D. split; [|split].
  - intros p Hp. split; [by apply encode_bound|by apply place_of_encode].
  - intros a. by apply encode_place_of.
  - intros now pkt p size isRead Hp. eexists. split; [by apply decodeAddr_ok|]. cbn.
    destruct (place_ok_dims P p Hp). rewrite !Z2Nat.id by lia. done.
Qed.

(** A vault of the HMC of the default configuration: 32 MiB in four layers of two
    banks. *)
Definition ex_vault : DramParams :=
  mkDramParams 256 1 1 4 0 2 16 16384 32 64 54 32 16 7500 2500 2500 25600 0 13750 13750 13750 27500 15000 7500 84600 3900000
    2800 0 30000 0 frfcfs RoCoRaBaCh close_page 16 10000 10000.

Lemma decode_roundtrip_witness :
  dims_ok ex_vault /\ place_ok ex_vault (mkPlace 3 1 5 7 0 0 17) /\
  encode ex_vault (mkPlace 3 1 5 7 0 0 17) = 194321 /\ capacity ex_vault = 2 ^ 29 /\
  place_of ex_vault (encode ex_vault (mkPlace 3 1 5 7 0 0 17)) = mkPlace 3 1 5 7 0 0 17.
Proof.
  assert (dims_ok ex_vault) as D by (constructor; cbn; lia).
  assert (place_ok ex_vault (mkPlace 3 1 5 7 0 0 17)) as Hp.
  { split; [|split]; [|cbn; lia|done]. repeat (apply Forall2_cons; split; [first [cbn; lia | by vm_compute]|]). by apply Forall2_nil. }
  split; [done|]. split; [done|]. split; [vm_compute; reflexivity|]. split; [vm_compute; reflexivity|].
  exact (proj2 (proj1 (decode_roundtrip ex_vault D) _ Hp)).
Defined.
