(* ===== verification/DramQueue.v ===== *)
(** * The queues of a DRAM controller

    Models the part of [mem/dram_ctrl.cc] that fills and orders the queues of
    bursts: a request is split at the burst boundaries; the bursts of a write are
    merged with those that wait, the bursts of a read are looked up among them;
    and the next burst is moved to the head of its queue.  A burst keeps the rank,
    bank and row of the address it was decoded from. *)

From S2P Require Import Prelude.
From S2P Require Import BitMath.
From S2P Require Import Packet.
From S2P Require Import DramBank.
From S2P Require Import DramAddr.

Section Queue.

Context (P : DramParams).

(** ** Bursts of a request *)

(** [(addr | (burstSize - 1)) + 1] *)
Definition next_burst (addr : Z) : Z := u64 (Z.lor addr (u32 (burstSize P - 1)) + 1).

(** The bytes of the burst that begins at [addr], of a request of [size] bytes at
    [start]. *)
Definition burst_bytes (start size addr : Z) : Z := u32 (Z.min (next_burst addr) (u64 (start + size)) - addr).

(** [dram_pkt_count] *)
Definition dram_pkt_count (start size : Z) : res Z :=
  let offset := u32 (Z.land start (u32 (burstSize P - 1))) in
  udiv (u32 (u32 (u32 (offset + size) + burstSize P) - 1)) (burstSize P).

Definition readQueueFull (readQueue respQueue : list DRAMPacket) (neededEntries : Z) : bool :=
  readBufferSize P <? u64 (Z.of_nat (length readQueue) + Z.of_nat (length respQueue) + neededEntries).
Definition writeQueueFull (writeQueue : list DRAMPacket) (neededEntries : Z) : bool :=
  writeBufferSize P <? u64 (Z.of_nat (length writeQueue) + neededEntries).

(** ** Writes *)

(** The first burst that can take the write at [addr]. *)
Fixpoint merge_write (addr size : Z) (queue : list DRAMPacket) : option (list DRAMPacket) :=
  match queue with
  | [] => None
  | w :: queue =>
      let new_end := u64 (addr + size) in
      let old_end := u64 (dp_addr w + dp_size w) in
      if addr <=? dp_addr w then
        if old_end <=? new_end then Some (w <| dp_addr := addr |> <| dp_size := size |> :: queue)
        else if (dp_addr w <=? new_end) && (u64 (old_end - addr) <=? burstSize P)
        then Some (w <| dp_size := u32 (old_end - addr) |> <| dp_addr := addr |> :: queue)
        else cons w <$> merge_write addr size queue
      else
        if new_end <=? old_end then Some (w :: queue)
        else if (addr <=? old_end) && (u64 (new_end - dp_addr w) <=? burstSize P)
        then Some (w <| dp_size := u32 (new_end - dp_addr w) |> :: queue)
        else cons w <$> merge_write addr size queue
  end.

Definition add_write (now : Z) (pkt : Packet) (addr size : Z) (writeQueue : list DRAMPacket) : res (list DRAMPacket) :=
  match merge_write addr size writeQueue with
  | Some queue => Ok queue
  | None =>
      dram_pkt ← decodeAddr P now pkt addr size false;
      _ ← assert_ (Z.of_nat (length writeQueue) <? writeBufferSize P);
      Ok (writeQueue ++ [dram_pkt])
  end.

Fixpoint add_writes (now : Z) (pkt : Packet) (start psize : Z) (cnt : nat) (addr : Z) (writeQueue : list DRAMPacket)
    : res (list DRAMPacket) :=
  match cnt with
  | O => Ok writeQueue
  | S cnt =>
      writeQueue ← add_write now pkt addr (burst_bytes start psize addr) writeQueue;
      add_writes now pkt start psize cnt (next_burst addr) writeQueue
  end.

(** ** Reads *)

(** A burst that waits to be written holds every byte of the read. *)
Definition foundInWrQ (addr size : Z) (writeQueue : list DRAMPacket) : bool :=
  existsb (fun i => (dp_addr i <=? addr) && (u64 (addr + size) <=? u64 (dp_addr i + dp_size i))) writeQueue.

(** The read queue and the number of bursts served by the write queue. *)
Fixpoint add_reads (now : Z) (pkt : Packet) (start psize : Z) (helper : option positive) (nresp : nat)
    (writeQueue : list DRAMPacket) (cnt : nat) (addr : Z) (readQueue : list DRAMPacket) (serviced : Z)
    : res (list DRAMPacket * Z) :=
  match cnt with
  | O => Ok (readQueue, serviced)
  | S cnt =>
      let size := burst_bytes start psize addr in
      if foundInWrQ addr size writeQueue
      then add_reads now pkt start psize helper nresp writeQueue cnt (next_burst addr) readQueue (u32 (serviced + 1))
      else
        dram_pkt ← decodeAddr P now pkt addr size true;
        _ ← assert_ (Z.of_nat (length readQueue) + Z.of_nat nresp + 1 <=? readBufferSize P);
        add_reads now pkt start psize helper nresp writeQueue cnt (next_burst addr)
          (readQueue ++ [dram_pkt <| burstHelper := helper |>]) serviced
  end.

(** ** The next burst *)

(** When the bank can be activated, for [minBankPrep]. *)
Definition act_at (now : Z) (x : Bank) : Z :=
  if openRow x =? NO_ROW then actAllowedAt x else u64 (Z.max (preAllowedAt x) now + tRP P).

(** The masks of [minBankPrep], of the other ranks and of the active one. *)
Record Prep := mkPrep {
  bank_mask : Z; min_act_at : Z; bank_mask_same_rank : Z; min_act_at_same_rank : Z; same_rank_match : bool
}.

Definition set_bit (mask i : Z) : res Z := if i <? 64 then Ok (replaceBits mask i i 1) else undefined.

(** One bank for which bursts wait. *)
Definition prep_bank (now : Z) (d : Dram) (i j : nat) (s : Prep) : res Prep :=
  x ← get_bank i j d;
  let t := act_at now x in
  let bank_id := u8 (Z.of_nat i * banksPerRank P + Z.of_nat j) in
  if bool_decide (i = activeRank d) && (1 <? ranksPerChannel P) then
    if t <=? min_act_at_same_rank s then
      let mask := if (t <? min_act_at_same_rank s) && (now <? min_act_at_same_rank s) then 0 else bank_mask_same_rank s in
      mask ← set_bit mask bank_id;
      Ok (s <| bank_mask_same_rank := mask |> <| min_act_at_same_rank := t |> <| same_rank_match := true |>)
    else Ok s
  else if t <=? min_act_at s then
    let mask := if (t <? min_act_at s) && (now <? min_act_at s) then 0 else bank_mask s in
    mask ← set_bit mask bank_id;
    Ok (s <| bank_mask := mask |> <| min_act_at := t |>)
  else Ok s.

Definition got_waiting (queue : list DRAMPacket) (bank_id : Z) : bool := existsb (fun p => bankId p =? bank_id) queue.

Fixpoint prep_banks (now : Z) (d : Dram) (queue : list DRAMPacket) (l : list (nat * nat)) (s : Prep) : res Prep :=
  match l with
  | [] => Ok s
  | (i, j) :: l =>
      s ← (if got_waiting queue (u8 (Z.of_nat i * banksPerRank P + Z.of_nat j)) then prep_bank now d i j s else Ok s);
      prep_banks now d queue l s
  end.

Definition all_banks : list (nat * nat) :=
  i ← seq 0 (Z.to_nat (ranksPerChannel P)); pair i <$> seq 0 (Z.to_nat (banksPerRank P)).

(** The vector of the waiting banks has one entry per bank. *)
Definition minBankPrep (now : Z) (d : Dram) (queue : list DRAMPacket) (switched_cmd_type : bool) : res Z :=
  _ ← (if forallb (fun p => bankId p <? u32 (ranksPerChannel P * banksPerRank P)) queue then Ok tt else undefined);
  s ← prep_banks now d queue all_banks (mkPrep 0 u64_max 0 u64_max false);
  let min_cmd_at := u64 (busBusyUntil d - tCL P - tRCD P) in
  if negb switched_cmd_type && same_rank_match s && (min_act_at_same_rank s <=? min_cmd_at)
  then Ok (bank_mask_same_rank s) else Ok (bank_mask s).

(** What the scan of [reorderQueue] has found so far. *)
Record Scan := mkScan {
  earliest_banks : Z; found_earliest_pkt : bool; found_prepped_diff_rank_pkt : bool; selected : nat
}.

Fixpoint scan_queue (now : Z) (d : Dram) (queue : list DRAMPacket) (switched_cmd_type : bool)
    (l : list DRAMPacket) (i : nat) (s : Scan) : res nat :=
  match l with
  | [] => Ok (selected s)
  | dram_pkt :: l =>
      x ← get_bank (rank dram_pkt) (bank dram_pkt) d;
      if openRow x =? row dram_pkt then
        if bool_decide (rank dram_pkt = activeRank d) || switched_cmd_type then Ok i
        else scan_queue now d queue switched_cmd_type l (S i)
               (if negb (found_prepped_diff_rank_pkt s) then s <| selected := i |> <| found_prepped_diff_rank_pkt := true |> else s)
      else if negb (found_earliest_pkt s) && negb (found_prepped_diff_rank_pkt s) then
        earliest ← (if earliest_banks s =? 0 then minBankPrep now d queue switched_cmd_type else Ok (earliest_banks s));
        let s := s <| earliest_banks := earliest |> in
        _ ← (if bankId dram_pkt <? 64 then Ok tt else undefined);
        scan_queue now d queue switched_cmd_type l (S i)
          (if negb (bits earliest (bankId dram_pkt) (bankId dram_pkt) =? 0) then s <| selected := i |> <| found_earliest_pkt := true |> else s)
      else scan_queue now d queue switched_cmd_type l (S i) s
  end.

Definition to_front (i : nat) (queue : list DRAMPacket) : res (list DRAMPacket) :=
  p ← deref (queue !! i); Ok (p :: delete i queue).

Definition reorderQueue (now : Z) (d : Dram) (queue : list DRAMPacket) (switched_cmd_type : bool) : res (list DRAMPacket) :=
  i ← scan_queue now d queue switched_cmd_type queue 0 (mkScan 0 false false 0);
  to_front i queue.

Definition chooseNext (now : Z) (d : Dram) (queue : list DRAMPacket) (switched_cmd_type : bool) : res (list DRAMPacket) :=
  match queue with
  | [] => Err AssertFailed
  | [_] => Ok queue
  | _ =>
      match memSchedPolicy P with
      | fcfs => Ok queue
      | frfcfs => reorderQueue now d queue switched_cmd_type
      end
  end.

Lemma filter_both {A} (f : A -> bool) l :
  (length (filter (fun x => f x = true) l) + length (filter (fun x => f x = false) l) = length l)%nat.
Proof.
  induction l as [|x l IH]; [done|]. rewrite !filter_cons. destruct (f x); [rewrite decide_True, decide_False by done|rewrite decide_False, decide_True by done];
    cbn; lia.
Qed.

(** ** Splitting *)

(** The parts of a request that the loops treat. *)
Fixpoint bursts (start size : Z) (cnt : nat) (addr : Z) : list (Z * Z) :=
  match cnt with
  | O => []
  | S cnt => (addr, burst_bytes start size addr) :: bursts start size cnt (next_burst addr)
  end.

Lemma bursts_length start size cnt a : length (bursts start size cnt a) = cnt.
Proof. revert a. induction cnt; intros a; cbn; [done|]. by rewrite IHcnt. Qed.

Context (k : Z) (Hk : 0 <= k < 30) (HB : burstSize P = 2 ^ k).

Lemma burst_pos : 0 < burstSize P < 2 ^ 30.
Proof. rewrite HB. split; [apply Z.pow_pos_nonneg; lia|apply Z.pow_lt_mono_r; lia]. Qed.

Lemma next_burst_eq a : 0 <= a < 2 ^ 62 -> next_burst a = (a / burstSize P + 1) * burstSize P.
Proof.
  intros Ha. pose proof burst_pos. unfold next_burst. unfold u32. rewrite wrap_id by (unfold inw; lia). rewrite HB in *.
  replace (2 ^ k - 1) with (Z.ones k) by (rewrite Z.ones_equiv; lia).
  assert (Z.lor a (Z.ones k) = a / 2 ^ k * 2 ^ k + Z.ones k) as ->.
  { rewrite <- Z.shiftr_div_pow2, <- Z.shiftl_mul_pow2 by lia.
    assert (Z.land ((a ≫ k) ≪ k) (Z.ones k) = 0) as E0.
    { apply Z.bits_inj'; intros i Hi. rewrite Z.land_spec, Z.shiftl_spec, ones_spec, Z.testbit_0_l by lia.
      destruct (Z.ltb_spec i k); [rewrite Z.testbit_neg_r by lia; done|by rewrite andb_false_r]. }
    rewrite Z.add_nocarry_lxor, Z.lxor_lor by done.
    apply Z.bits_inj'; intros i Hi. rewrite !Z.lor_spec, Z.shiftl_spec, ones_spec by lia.
    destruct (Z.ltb_spec i k); [by rewrite !orb_true_r|]. rewrite Z.shiftr_spec by lia. do 2 f_equal. lia. }
  pose proof (Z.div_mod a (2 ^ k) ltac:(lia)). pose proof (Z.mod_pos_bound a (2 ^ k) ltac:(lia)).
  rewrite Z.ones_equiv, u64_small by nia. lia.
Qed.

Lemma offset_mod a : 0 <= a -> u32 (Z.land a (u32 (burstSize P - 1))) = a mod burstSize P.
Proof.
  intros Ha. pose proof burst_pos. pose proof (Z.mod_pos_bound a (burstSize P) ltac:(lia)). unfold u32.
  rewrite (wrap_id 32 (burstSize P - 1)) by (unfold inw; lia). rewrite HB in *.
  replace (2 ^ k - 1) with (Z.ones k) by (rewrite Z.ones_equiv; lia).
  rewrite Z.land_ones by lia. apply wrap_id. unfold inw. lia.
Qed.

(** ** Merging *)

Definition entry_ok (w : DRAMPacket) : Prop :=
  0 <= dp_addr w /\ 0 < dp_size w <= burstSize P /\ dp_addr w + dp_size w <= 2 ^ 62.
Definition holds (x : Z) (w : DRAMPacket) : Prop := dp_addr w <= x < dp_addr w + dp_size w.
Definition covered (queue : list DRAMPacket) (x : Z) : Prop := Exists (holds x) queue.

(** One burst of the queue holds the [n] bytes at [a]. *)
Definition contains (a n : Z) (w : DRAMPacket) : Prop := dp_addr w <= a /\ a + n <= dp_addr w + dp_size w.
Definition within (queue : list DRAMPacket) (a n : Z) : Prop := Exists (contains a n) queue.

(** The bytes of the queue with those of a write, and what one burst held it still
    does. *)
Record written (addr size : Z) (queue queue' : list DRAMPacket) : Prop := {
  wr_ok : Forall entry_ok queue';
  wr_covered : forall x, covered queue' x <-> covered queue x \/ addr <= x < addr + size;
  wr_within : forall a n, within queue a n -> within queue' a n;
  wr_new : within queue' addr size
}.

(** Where a burst goes. *)
Definition target (w : DRAMPacket) : nat * nat * Z := (rank w, bank w, row w).

Lemma merge_write_ok addr size : 0 <= addr -> 0 < size <= burstSize P -> addr + size <= 2 ^ 62 -> forall queue,
  Forall entry_ok queue -> forall queue', merge_write addr size queue = Some queue' ->
  written addr size queue queue' /\ target <$> queue' = target <$> queue.
Proof.
  intros Ha Hn He. pose proof burst_pos as HP. induction 1 as [|w queue Hw F IH]; [done|]. intros queue'. cbn [merge_write].
  destruct Hw as (W1 & W2 & W3). rewrite !(u64_small (_ + _)) by lia.
  assert (forall v, dp_addr v = Z.min addr (dp_addr w) -> dp_addr v + dp_size v = Z.max (addr + size) (dp_addr w + dp_size w) ->
    dp_size v <= burstSize P -> target v = target w -> Some (v :: queue) = Some queue' ->
    addr <= dp_addr w + dp_size w -> dp_addr w <= addr + size ->
    written addr size (w :: queue) queue' /\ target <$> queue' = target <$> w :: queue) as G.
  { intros v V1 V2 V3 V4 [= <-] O1 O2. split; [constructor|cbn; by rewrite V4].
    - constructor; [unfold entry_ok; lia|done].
    - intros x. unfold covered. rewrite !Exists_cons. unfold holds at 1 3. rewrite V2, V1. intuition lia.
    - intros a n. unfold within. rewrite !Exists_cons. unfold contains at 1 3. intuition lia.
    - unfold within. rewrite Exists_cons. left. unfold contains. lia. }
  assert (forall r, merge_write addr size queue = Some r -> Some (w :: r) = Some queue' ->
    written addr size (w :: queue) queue' /\ target <$> queue' = target <$> w :: queue) as R.
  { intros r Er [= <-]. destruct (IH r Er) as ([I1 I2 I3 I4] & I5). split; [constructor|cbn; by rewrite <- I5].
    - by constructor.
    - intros x. specialize (I2 x). unfold covered in *. rewrite !Exists_cons. tauto.
    - intros a n. specialize (I3 a n). unfold within in *. rewrite !Exists_cons. tauto.
    - unfold within in *. rewrite Exists_cons. tauto. }
  repeat case_if; intros E; try (apply fmap_Some in E as (r & Er & ->); by eapply R); revert E; bool_prop;
    rewrite ?(u64_small (_ - _)) in * by lia;
    intros E; (eapply G; [| | | |exact E|lia..]); cbn; unfold u32; rewrite ?wrap_id by (unfold inw; lia); (lia || done).
Qed.

Context (D : dims_ok P).

(** An entry that decodes where its first bytes belong. *)
Lemma add_write_ok now pkt addr size queue : 0 <= addr -> 0 < size <= burstSize P -> addr + size <= 2 ^ 62 ->
  Forall entry_ok queue -> Z.of_nat (length queue) < writeBufferSize P ->
  exists queue', add_write now pkt addr size queue = Ok queue' /\ written addr size queue queue' /\
    (length queue <= length queue' <= S (length queue))%nat /\ take (length queue) (target <$> queue') = target <$> queue.
Proof.
  intros Ha Hn He F Hl. unfold add_write. destruct (merge_write addr size queue) as [queue'|] eqn:E.
  - destruct (merge_write_ok addr size Ha Hn He queue F queue' E) as [W T]. exists queue'.
    assert (length queue' = length queue) as L. { apply (f_equal length) in T. by rewrite !length_fmap in T. }
    split; [done|]. split; [done|]. split; [lia|]. rewrite T. by rewrite <- (length_fmap target queue), firstn_all.
  - destruct (decodeAddr_total P D now pkt addr size false) as (p & -> & _ & _ & _ & _ & Pa & Ps & _). cbn [mbind res_bind].
    unfold assert_. rewrite (proj2 (Z.ltb_lt _ _)) by lia. cbn [mbind res_bind]. eexists. split; [done|]. split; [|split].
    + constructor.
      * apply Forall_app_2; [done|]. apply Forall_singleton. unfold entry_ok. lia.
      * intros x. unfold covered. rewrite Exists_app, Exists_cons, Exists_nil. unfold holds at 2. rewrite Pa, Ps. tauto.
      * intros a n. unfold within. rewrite Exists_app. tauto.
      * unfold within. rewrite Exists_app, Exists_cons. right. left. unfold contains. lia.
    + rewrite length_app. cbn. lia.
    + rewrite fmap_app. by rewrite <- (length_fmap target queue), take_app_length.
Qed.

(** A request of [size] bytes at [start]. *)
Context (start size : Z) (Hs : 0 <= start) (Hn : 0 < size < 2 ^ 30) (He : start + size <= 2 ^ 62).

(** How many bursts are left from [a] on. *)
Definition left_from (a : Z) : Z := (start + size - 1) / burstSize P - a / burstSize P + 1.

Lemma dram_pkt_count_ok : dram_pkt_count start size = Ok (left_from start) /\ 0 < left_from start <= size.
Proof.
  pose proof burst_pos. unfold dram_pkt_count, left_from. rewrite offset_mod by lia.
  pose proof (Z.mod_pos_bound start (burstSize P) ltac:(lia)). pose proof (Z.div_mod start (burstSize P) ltac:(lia)) as E.
  set (B := burstSize P) in *. set (q := start / B) in *. set (o := start mod B) in *.
  unfold u32. rewrite (wrap_id 32 (o + size)) by (unfold inw; lia). rewrite (wrap_id 32 (o + size + B)) by (unfold inw; lia).
  rewrite wrap_id by (unfold inw; lia). rewrite udiv_ok by lia.
  replace (start + size - 1) with (o + size - 1 + q * B) by lia. rewrite Z.div_add by lia.
  replace (o + size + B - 1) with (o + size - 1 + 1 * B) by lia. rewrite Z.div_add by lia.
  assert (0 <= (o + size - 1) / B) by (apply Z.div_pos; lia).
  assert ((o + size - 1) / B < size) by (apply Z.div_lt_upper_bound; nia).
  split; [f_equal; lia|lia].
Qed.

(** The burst that begins at [a]. *)
Lemma burst_bytes_ok a : start <= a < start + size -> let n := burst_bytes start size a in
  0 < n <= burstSize P /\ a + n <= start + size /\ (a + n - 1) / burstSize P = a / burstSize P /\
  ((next_burst a = a + n /\ next_burst a / burstSize P = a / burstSize P + 1) \/ a + n = start + size).
Proof.
  intros Ha n. pose proof burst_pos. unfold n, burst_bytes. rewrite next_burst_eq, (u64_small (start + size)) by lia.
  set (B := burstSize P) in *. pose proof (Z.mod_pos_bound a B ltac:(lia)). pose proof (Z.div_mod a B ltac:(lia)).
  unfold u32. rewrite wrap_id by (unfold inw; lia). rewrite Z.div_mul by lia.
  split; [lia|]. split; [lia|]. split; [symmetry; apply Z.div_unique with (r := a mod B + (Z.min ((a / B + 1) * B) (start + size) - a) - 1); lia|].
  destruct (Z.min_spec ((a / B + 1) * B) (start + size)) as [[? ->]|[? ->]]; lia.
Qed.

(** The bursts are parts of the request, each within one aligned burst, and
    every byte of the request is in one. *)
Definition part (c : Z * Z) : Prop :=
  start <= fst c /\ 0 < snd c <= burstSize P /\ fst c + snd c <= start + size /\
  (fst c + snd c - 1) / burstSize P = fst c / burstSize P.

Definition in_part (x : Z) (c : Z * Z) : Prop := fst c <= x < fst c + snd c.

Lemma bursts_ok cnt : forall a, start <= a < start + size -> Z.of_nat cnt = left_from a ->
  Forall part (bursts start size cnt a) /\
  forall x, Exists (in_part x) (bursts start size cnt a) <-> a <= x < start + size.
Proof.
  pose proof burst_pos as HP. induction cnt as [|cnt IH]; intros a Ha Hc; unfold left_from in *.
  { pose proof (Z.div_le_mono a (start + size - 1) (burstSize P) ltac:(lia) ltac:(lia)). lia. }
  cbn [bursts]. destruct (burst_bytes_ok a Ha) as (H1 & H2 & H3 & H4). set (n := burst_bytes start size a) in *.
  destruct (Z.eq_dec (a + n) (start + size)) as [E|E].
  - assert (cnt = O) as ->. { rewrite <- E in Hc. rewrite H3 in Hc. lia. }
    cbn [bursts]. split; [apply Forall_singleton; unfold part; cbn; lia|]. intros x. rewrite Exists_cons, Exists_nil.
    unfold in_part. cbn. lia.
  - destruct H4 as [[H4 H5]|]; [|done]. destruct (IH (next_burst a)) as [F C]; [lia|lia|].
    split; [constructor; [unfold part; cbn; lia|done]|]. intros x. rewrite Exists_cons, C. unfold in_part. cbn. lia.
Qed.

(** ** Writes *)
Lemma add_writes_ok now pkt cnt : forall a queue, start <= a < start + size -> Z.of_nat cnt = left_from a ->
  Forall entry_ok queue -> Z.of_nat (length queue) + Z.of_nat cnt <= writeBufferSize P ->
  exists queue', add_writes now pkt start size cnt a queue = Ok queue' /\ Forall entry_ok queue' /\
    (forall x, covered queue' x <-> covered queue x \/ a <= x < start + size) /\
    (forall b n, within queue b n -> within queue' b n) /\
    Forall (fun c => within queue' (fst c) (snd c)) (bursts start size cnt a) /\
    (length queue <= length queue' <= length queue + cnt)%nat /\ take (length queue) (target <$> queue') = target <$> queue.
Proof.
  pose proof burst_pos as HP. induction cnt as [|cnt IH]; intros a queue Ha Hc F Hl; unfold left_from in *.
  { pose proof (Z.div_le_mono a (start + size - 1) (burstSize P) ltac:(lia) ltac:(lia)). lia. }
  cbn [bursts add_writes]. destruct (burst_bytes_ok a Ha) as (H1 & H2 & H3 & H4). set (n := burst_bytes start size a) in *.
  destruct (add_write_ok now pkt a n queue) as (q & Eq & [W1 W2 W3 W4] & L & T); [lia..|done|lia|].
  rewrite Eq. cbn [mbind res_bind]. destruct (Z.eq_dec (a + n) (start + size)) as [E|E].
  - assert (cnt = O) as ->. { rewrite <- E in Hc. rewrite H3 in Hc. lia. }
    exists q. cbn. rewrite <- E. by split_and!; [| | | |apply Forall_singleton|lia..|].
  - destruct H4 as [[H4 H5]|]; [|done]. destruct (IH (next_burst a) q) as (q' & Eq' & I1 & I2 & I3 & I4 & I5 & I6); [lia..|done|lia|].
    exists q'. split; [done|]. split; [done|]. split; [|split; [eauto|split; [|split; [lia|]]]].
    + intros x. rewrite I2, W2. rewrite H4. intuition lia.
    + constructor; [cbn; eauto|done].
    + rewrite <- T, <- I6. rewrite take_take. f_equal. lia.
Qed.

(** ** Reads *)
Definition found (writeQueue : list DRAMPacket) (c : Z * Z) : bool := foundInWrQ (fst c) (snd c) writeQueue.

Lemma found_within queue c : Forall entry_ok queue -> 0 <= fst c -> 0 < snd c <= burstSize P -> fst c + snd c <= 2 ^ 62 ->
  found queue c = true <-> within queue (fst c) (snd c).
Proof.
  intros F Hc1 Hc2 Hc3. unfold found, foundInWrQ, within. rewrite <- Is_true_true, existb_True.
  pose proof burst_pos. induction F as [|w queue (W1 & W2 & W3) F IH]; [by rewrite !Exists_nil|].
  rewrite !Exists_cons, IH. unfold contains at 2. rewrite !u64_small by lia. rewrite Is_true_true, andb_true_iff, !Z.leb_le. done.
Qed.

Definition read_burst (pkt : Packet) (helper : option positive) (p : DRAMPacket) : Prop :=
  dp_isRead p = true /\ dp_pkt p = pkt /\ burstHelper p = helper /\
  (rank p < Z.to_nat (ranksPerChannel P))%nat /\ (bank p < Z.to_nat (banksPerRank P))%nat /\ 0 <= row p < NO_ROW.

Lemma add_reads_ok now pkt helper nresp wq cnt : forall a rq serviced,
  Z.of_nat (length rq) + Z.of_nat nresp + Z.of_nat cnt <= readBufferSize P -> 0 <= serviced -> serviced + Z.of_nat cnt < 2 ^ 32 ->
  exists new, add_reads now pkt start size helper nresp wq cnt a rq serviced =
      Ok (rq ++ new, serviced + Z.of_nat (length (filter (fun c => found wq c = true) (bursts start size cnt a)))) /\
    (fun p => (dp_addr p, dp_size p)) <$> new = filter (fun c => found wq c = false) (bursts start size cnt a) /\
    Forall (read_burst pkt helper) new.
Proof.
  induction cnt as [|cnt IH]; intros a rq serviced Hl Hs0 Hs1; cbn [add_reads bursts].
  { exists []. rewrite app_nil_r. cbn. rewrite Z.add_0_r. done. }
  rewrite !filter_cons. change (found wq (a, burst_bytes start size a)) with (foundInWrQ a (burst_bytes start size a) wq).
  destruct (foundInWrQ a (burst_bytes start size a) wq) eqn:E.
  - rewrite decide_True, decide_False by done. unfold u32 at 1. rewrite wrap_id by (unfold inw; lia).
    destruct (IH (next_burst a) rq (serviced + 1)) as (new & -> & E1 & F); [lia..|].
    exists new. split; [do 2 f_equal; cbn [length]; lia|done].
  - rewrite decide_False, decide_True by done.
    destruct (decodeAddr_total P D now pkt a (burst_bytes start size a) true) as (p & -> & P1 & P2 & P3 & _ & Pa & Ps & Pr & Pp & _).
    cbn [mbind res_bind]. unfold assert_. rewrite (proj2 (Z.leb_le _ _)) by lia. cbn [mbind res_bind].
    destruct (IH (next_burst a) (rq ++ [p <| burstHelper := helper |>]) serviced) as (new & -> & E1 & F);
      [rewrite length_app; cbn [length]; lia|lia..|].
    exists (p <| burstHelper := helper |> :: new). rewrite <- app_assoc. split; [done|].
    split; [cbn; rewrite E1, Pa, Ps; done|constructor; [|done]]. unfold read_burst. cbn. tauto.
Qed.

End Queue.

(** ** Scheduling *)
Section Schedule.

Context (P : DramParams) (now : Z) (d : Dram).

(** The banks are there, and few enough for a mask. *)
Context (Hdim : 0 < ranksPerChannel P /\ 0 < banksPerRank P /\ ranksPerChannel P * banksPerRank P <= 64).
Context (Hbank : forall i j, (i < Z.to_nat (ranksPerChannel P))%nat -> (j < Z.to_nat (banksPerRank P))%nat ->
  exists x, get_bank i j d = Ok x /\ 0 <= actAllowedAt x < 2 ^ 64).

Definition bank_index (i j : nat) : Z := Z.of_nat i * banksPerRank P + Z.of_nat j.

(** When a bank can be activated. *)
Definition bank_act (i j : nat) : Z := match get_bank i j d with Ok x => act_at P now x | Err _ => 0 end.

(** The bank is in the rank of the last burst, when there are others. *)
Definition same_rank (i : nat) : bool := bool_decide (i = activeRank d) && (1 <? ranksPerChannel P).

(** A burst at a bank of the controller. *)
Definition at_bank (p : DRAMPacket) : Prop :=
  (rank p < Z.to_nat (ranksPerChannel P))%nat /\ (bank p < Z.to_nat (banksPerRank P))%nat /\
  bankId p = bank_index (rank p) (bank p).

Lemma bank_index_range i j : (i < Z.to_nat (ranksPerChannel P))%nat -> (j < Z.to_nat (banksPerRank P))%nat -> 0 <= bank_index i j < 64.
Proof. unfold bank_index. nia. Qed.

Lemma bank_index_inj i j i' j' : (j < Z.to_nat (banksPerRank P))%nat -> (j' < Z.to_nat (banksPerRank P))%nat ->
  bank_index i j = bank_index i' j' -> i = i' /\ j = j'.
Proof. unfold bank_index. intros Hj Hj' E. assert (Z.of_nat i = Z.of_nat i') by nia. nia. Qed.

Lemma bank_act_range i j : (i < Z.to_nat (ranksPerChannel P))%nat -> (j < Z.to_nat (banksPerRank P))%nat -> 0 <= bank_act i j <= u64_max.
Proof.
  intros Hi Hj. unfold bank_act, act_at, u64_max. destruct (Hbank i j Hi Hj) as (x & -> & Hx). case_if; [lia|].
  pose proof (u64_range (Z.max (preAllowedAt x) now + tRP P)). lia.
Qed.

Lemma inw_bits w v : 0 <= w -> (forall i, w <= i -> Z.testbit v i = false) -> inw w v.
Proof.
  intros Hw H. replace v with (v mod 2 ^ w); [apply wrap_range; lia|]. apply Z.bits_inj'. intros i Hi.
  rewrite Z.testbit_mod_pow2 by lia. destruct (Z.ltb_spec i w); [done|]. by rewrite H.
Qed.

Lemma set_bit_ok m b : inw 64 m -> 0 <= b < 64 -> exists m', set_bit m b = Ok m' /\ inw 64 m' /\
  forall i, 0 <= i -> Z.testbit m' i = (i =? b) || Z.testbit m i.
Proof.
  intros Hm Hb. unfold set_bit. rewrite (proj2 (Z.ltb_lt _ _)) by lia. eexists. split; [done|].
  assert (forall i, 0 <= i -> Z.testbit (replaceBits m b b 1) i = (i =? b) || Z.testbit m i) as T.
  { intros i Hi. unfold replaceBits, insertBits. rewrite Z.lor_spec, !Z.land_spec, not64_spec, !u64_spec by lia.
    rewrite !Z.shiftl_spec, mask_ones by lia. replace (b - b + 1) with 1 by lia.
    destruct (Z.ltb_spec i 64); [|rewrite (testbit_above 64 m i Hm) by lia; cbn; rewrite ?andb_false_r; symmetry; apply orb_false_iff; split; [apply Z.eqb_neq; lia|done]].
    destruct (Z.eqb_spec i b) as [->|Hne]; [by rewrite Z.sub_diag|]. cbn [andb orb].
    assert (Z.testbit (Z.ones 1) (i - b) = false) as ->.
    { destruct (Z.lt_ge_cases i b); [apply Z.testbit_neg_r; lia|rewrite ones_spec by lia; apply Z.ltb_ge; lia]. }
    by rewrite !andb_false_r, andb_true_r. }
  split; [|done]. apply inw_bits; [lia|]. intros i Hi. rewrite T, (testbit_above 64 m i Hm) by lia.
  rewrite orb_false_r. apply Z.eqb_neq. lia.
Qed.

(** A mask after the banks [l]: waiting banks of a class that can be activated at
    once, or before the others; every one that can be activated at the earliest
    time [t] is there; [f] tells whether one waits. *)
Record mask_of (class : nat -> bool) (queue : list DRAMPacket) (l : list (nat * nat)) (m t : Z) (f : bool) : Prop := {
  mo_width : inw 64 m;
  mo_bit : forall b, 0 <= b -> Z.testbit m b = true -> exists i j, (i, j) ∈ l /\ class i = true /\ b = bank_index i j /\
    bank_act i j <= Z.max now t;
  mo_min : forall i j, (i, j) ∈ l -> class i = true -> got_waiting queue (bank_index i j) = true -> t <= bank_act i j;
  mo_all : forall i j, (i, j) ∈ l -> class i = true -> got_waiting queue (bank_index i j) = true -> bank_act i j = t ->
    Z.testbit m (bank_index i j) = true;
  mo_found : if f then exists i j, (i, j) ∈ l /\ class i = true /\ got_waiting queue (bank_index i j) = true /\ bank_act i j = t
    else t = u64_max /\ forall i j, (i, j) ∈ l -> class i = true -> got_waiting queue (bank_index i j) = false
}.

Lemma elem_snoc {A} (x y : A) l : x ∈ l ++ [y] <-> x ∈ l \/ x = y.
Proof. by rewrite elem_of_app, list_elem_of_singleton. Qed.

Lemma mask_skip class queue l m t f i j : mask_of class queue l m t f ->
  (i < Z.to_nat (ranksPerChannel P))%nat -> (j < Z.to_nat (banksPerRank P))%nat ->
  (class i = true -> got_waiting queue (bank_index i j) = true -> t < bank_act i j) -> mask_of class queue (l ++ [(i, j)]) m t f.
Proof.
  intros [M1 M2 M3 M4 M5] Hi Hj H. pose proof (bank_act_range i j Hi Hj). constructor; [done| | | |].
  - intros b Hb Hm. destruct (M2 b Hb Hm) as (i' & j' & Hl & E). exists i', j'. split; [by apply elem_snoc; left|done].
  - intros i' j' [Hl|[= -> ->]]%elem_snoc; [by apply M3|]. intros Hc Hq. specialize (H Hc Hq). lia.
  - intros i' j' [Hl|[= -> ->]]%elem_snoc; [by apply M4|]. intros Hc Hq. specialize (H Hc Hq). lia.
  - destruct f.
    + destruct M5 as (i' & j' & Hl & E). exists i', j'. split; [by apply elem_snoc; left|done].
    + destruct M5 as [E M5]. split; [done|]. intros i' j' [Hl|[= -> ->]]%elem_snoc; [by apply M5|]. intros Hc.
      destruct (got_waiting queue (bank_index i j)); [|done]. specialize (H Hc eq_refl). lia.
Qed.

Lemma mask_take class queue l m t f i j : mask_of class queue l m t f ->
  (i < Z.to_nat (ranksPerChannel P))%nat -> (j < Z.to_nat (banksPerRank P))%nat -> class i = true ->
  got_waiting queue (bank_index i j) = true -> bank_act i j <= t ->
  exists m', set_bit (if (bank_act i j <? t) && (now <? t) then 0 else m) (bank_index i j) = Ok m' /\
    mask_of class queue (l ++ [(i, j)]) m' (bank_act i j) true.
Proof.
  intros [M1 M2 M3 M4 M5] Hi Hj Hc Hgw Ht. set (m0 := if (bank_act i j <? t) && (now <? t) then 0 else m).
  assert (inw 64 m0) as Hw by (unfold m0; case_if; [unfold inw; lia|done]).
  destruct (set_bit_ok m0 _ Hw (bank_index_range i j Hi Hj)) as (m' & -> & Hw' & T). exists m'. split; [done|]. constructor; [done| | | |].
  - intros b Hb. rewrite T by done. destruct (Z.eqb_spec b (bank_index i j)) as [->|Hne]; cbn [orb]; intros Hm.
    { exists i, j. split; [by apply elem_snoc; right|]. split_and!; [done..|lia]. }
    unfold m0 in Hm. destruct (_ && _) eqn:E; [by rewrite Z.testbit_0_l in Hm|]. destruct (M2 b Hb Hm) as (i' & j' & Hl & Hc' & Eb & A).
    exists i', j'. split; [by apply elem_snoc; left|]. split; [done|]. split; [done|]. apply andb_false_iff in E. rewrite !Z.ltb_ge in E. lia.
  - intros i' j' [Hl|[= -> ->]]%elem_snoc; [|lia]. intros Hk Hq. specialize (M3 i' j' Hl Hk Hq). lia.
  - intros i' j' Hl Hk Hq E. destruct (Z.eqb_spec (bank_index i' j') (bank_index i j)) as [Eb|Hne].
    { rewrite Eb, T by apply (bank_index_range i j Hi Hj). by rewrite Z.eqb_refl. }
    apply elem_snoc in Hl as [Hl|[= -> ->]]; [|done]. pose proof (M3 i' j' Hl Hk Hq).
    assert (m0 = m) as E0 by (unfold m0; by rewrite (proj2 (Z.ltb_ge _ _)) by lia).
    pose proof (M4 i' j' Hl Hk Hq ltac:(lia)) as Hm. rewrite T, E0, Hm; [apply orb_true_r|].
    destruct (Z.le_gt_cases 0 (bank_index i' j')); [done|]. by rewrite Z.testbit_neg_r in Hm by done.
  - exists i, j. split; [by apply elem_snoc; right|]. by split_and!.
Qed.

Definition other_rank (i : nat) : bool := negb (same_rank i).

Definition prep_ok (queue : list DRAMPacket) (l : list (nat * nat)) (s : Prep) : Prop :=
  mask_of same_rank queue l (bank_mask_same_rank s) (min_act_at_same_rank s) (same_rank_match s) /\
  exists f, mask_of other_rank queue l (bank_mask s) (min_act_at s) f.

Lemma prep_banks_ok queue : forall l done s, Forall (fun '(i, j) => (i < Z.to_nat (ranksPerChannel P))%nat /\ (j < Z.to_nat (banksPerRank P))%nat) l ->
  prep_ok queue done s -> exists s', prep_banks P now d queue l s = Ok s' /\ prep_ok queue (done ++ l) s'.
Proof.
  induction l as [|[i j] l IH]; intros dn s F [S1 [f S2]]; cbn [prep_banks].
  { exists s. rewrite app_nil_r. split; [done|]. split; [done|by exists f]. }
  apply Forall_cons in F as [[Hi Hj] F]. rewrite cons_middle, app_assoc.
  pose proof (bank_index_range i j Hi Hj) as Hr. unfold u8. rewrite wrap_id by (unfold inw, bank_index in *; lia).
  change (Z.of_nat i * banksPerRank P + Z.of_nat j) with (bank_index i j).
  assert (exists s', (if got_waiting queue (bank_index i j) then prep_bank P now d i j s else Ok s) = Ok s' /\ prep_ok queue (dn ++ [(i, j)]) s')
    as (s' & -> & S'); [|cbn [mbind res_bind]; by apply IH].
  destruct (got_waiting queue (bank_index i j)) eqn:Eq.
  2: { exists s. split; [done|]. split; [|exists f]; apply mask_skip; rewrite ?Eq; done. }
  unfold prep_bank. destruct (Hbank i j Hi Hj) as (x & Ex & Hx).
  assert (act_at P now x = bank_act i j) as Ea by (unfold bank_act; by rewrite Ex). rewrite Ex. cbn [mbind res_bind]. rewrite Ea.
  unfold u8. rewrite wrap_id by (unfold inw, bank_index in *; lia). fold (bank_index i j). fold (same_rank i).
  destruct (same_rank i) eqn:Ec; case_if; bool_prop.
  - destruct (mask_take _ queue _ _ _ _ i j S1 Hi Hj Ec Eq Hif) as (m & -> & M). eexists. split; [done|].
    split; cbn; [done|]. exists f. apply mask_skip; [done..|]. unfold other_rank. by rewrite Ec.
  - eexists. split; [done|]. split; [|exists f]; apply mask_skip; unfold other_rank; rewrite ?Ec; (done || lia).
  - destruct (mask_take _ queue _ _ _ _ i j S2 Hi Hj (f_equal negb Ec) Eq Hif) as (m & -> & M). eexists. split; [done|].
    split; cbn; [|by exists true]. apply mask_skip; [done..|]. by rewrite Ec.
  - eexists. split; [done|]. split; [|exists f]; apply mask_skip; unfold other_rank; rewrite ?Ec; (done || lia).
Qed.

Lemma elem_all_banks i j : (i, j) ∈ all_banks P <-> (i < Z.to_nat (ranksPerChannel P))%nat /\ (j < Z.to_nat (banksPerRank P))%nat.
Proof.
  unfold all_banks. rewrite list_elem_of_bind. split.
  - intros (a & Hp & Ha). apply list_elem_of_fmap in Hp as (b & [= -> ->] & Hb). apply elem_of_seq in Ha, Hb. lia.
  - intros [Hi Hj]. exists i. split; [apply list_elem_of_fmap; exists j; split; [done|]|]; apply elem_of_seq; lia.
Qed.

Lemma got_waiting_in queue p : p ∈ queue -> got_waiting queue (bankId p) = true.
Proof. intros Hp. apply existsb_exists. exists p. split; [by apply list_elem_of_In|]. apply Z.eqb_refl. Qed.

Lemma got_waiting_at queue i j : Forall at_bank queue -> (j < Z.to_nat (banksPerRank P))%nat -> got_waiting queue (bank_index i j) = true ->
  exists p, p ∈ queue /\ rank p = i /\ bank p = j.
Proof.
  intros F Hj H. apply existsb_exists in H as (p & Hp%list_elem_of_In & E). apply Z.eqb_eq in E. exists p. split; [done|].
  rewrite Forall_forall in F. destruct (F p Hp) as (_ & Hb & Ei). rewrite Ei in E. by apply bank_index_inj in E.
Qed.

(** When the bank of a burst can be activated. *)
Definition burst_act (p : DRAMPacket) : Z := bank_act (rank p) (bank p).

(** A burst of the rank used last waits, whose bank can be activated in time for
    its data to follow those on the bus, and the direction stays. *)
Definition seamless (sw : bool) (queue : list DRAMPacket) : bool :=
  negb sw && existsb (fun p => same_rank (rank p) && (burst_act p <=? u64 (busBusyUntil d - tCL P - tRCD P))) queue.

(** The ranks a mask is for. *)
Definition wanted_rank (sw : bool) (queue : list DRAMPacket) : nat -> bool := if seamless sw queue then same_rank else other_rank.

(** The bursts a mask is for: every one of the wanted ranks whose bank is the first
    that can be activated, and no other but of those ranks and one that can be
    activated at once, or as early. *)
Definition soonest (class : nat -> bool) (queue : list DRAMPacket) (mask : Z) : Prop :=
  forall p, p ∈ queue ->
    (Z.testbit mask (bankId p) = true -> class (rank p) = true /\
       forall q, q ∈ queue -> class (rank q) = true -> burst_act p <= Z.max now (burst_act q)) /\
    (class (rank p) = true -> (forall q, q ∈ queue -> class (rank q) = true -> burst_act p <= burst_act q) ->
       Z.testbit mask (bankId p) = true).

Lemma mask_soonest class queue m t f : Forall at_bank queue -> mask_of class queue (all_banks P) m t f -> soonest class queue m.
Proof.
  intros F [_ M2 M3 M4 M5] p Hp. pose proof F as F'. rewrite Forall_forall in F'. destruct (F' p Hp) as (Hr & Hb & Ei).
  pose proof (bank_index_range _ _ Hr Hb). pose proof (got_waiting_in _ _ Hp) as Hg. rewrite Ei in *. split.
  - intros Hm. destruct (M2 (bank_index (rank p) (bank p))) as (i & j & Hl & Hi & E & A); [lia|done|].
    apply elem_all_banks in Hl. apply bank_index_inj in E as [<- <-]; [|lia..]. split; [done|]. intros q Hq Hc.
    destruct (F' q Hq) as (Hr' & Hb' & Ei'). specialize (M3 (rank q) (bank q)). rewrite <- Ei', elem_all_banks in M3.
    specialize (M3 (conj Hr' Hb') Hc (got_waiting_in _ _ Hq)). unfold burst_act. lia.
  - intros Hc Hmin. assert ((rank p, bank p) ∈ all_banks P) as Hin by by apply elem_all_banks.
    apply M4; [done..|]. destruct f; [|destruct M5 as [_ M5]; by rewrite M5 in Hg].
    destruct M5 as (i & j & Hl & Hi & Hw & <-). apply elem_all_banks in Hl as [_ Hj].
    destruct (got_waiting_at queue i j F Hj Hw) as (q & Hq & <- & <-). specialize (Hmin q Hq Hi).
    specialize (M3 _ _ Hin Hc Hg). unfold burst_act in Hmin. lia.
Qed.

Lemma seamless_ok queue m t f sw : Forall at_bank queue -> mask_of same_rank queue (all_banks P) m t f ->
  negb sw && f && (t <=? u64 (busBusyUntil d - tCL P - tRCD P)) = seamless sw queue.
Proof.
  intros F [_ _ M3 _ M5]. unfold seamless. rewrite <- andb_assoc. f_equal. pose proof F as F'. rewrite Forall_forall in F'.
  apply eq_true_iff_eq. rewrite existsb_exists, andb_true_iff, Z.leb_le. split.
  - intros [-> Ht]. destruct M5 as (i & j & Hl & Hi & Hw & E). apply elem_all_banks in Hl as [_ Hj].
    destruct (got_waiting_at queue i j F Hj Hw) as (p & Hp%list_elem_of_In & <- & <-). exists p. split; [done|].
    rewrite Hi. apply Z.leb_le. unfold burst_act. lia.
  - intros (p & Hp%list_elem_of_In & [Hc Ht%Z.leb_le]%andb_true_iff). destruct (F' p Hp) as (Hr & Hb & Ei).
    assert ((rank p, bank p) ∈ all_banks P) as Hin by by apply elem_all_banks.
    pose proof (got_waiting_in _ _ Hp) as Hg. rewrite Ei in Hg. specialize (M3 _ _ Hin Hc Hg). unfold burst_act in Ht.
    split; [|lia]. destruct f; [done|]. destruct M5 as [_ M5]. by rewrite M5 in Hg.
Qed.

Lemma minBankPrep_ok queue sw : Forall at_bank queue ->
  exists mask, minBankPrep P now d queue sw = Ok mask /\ soonest (wanted_rank sw queue) queue mask.
Proof.
  intros F. unfold minBankPrep.
  assert (forallb (fun p => bankId p <? u32 (ranksPerChannel P * banksPerRank P)) queue = true) as ->.
  { apply forallb_forall. intros p Hp. rewrite Forall_forall in F. destruct (F p) as (Hr & Hb & ->); [by apply list_elem_of_In|].
    unfold u32. rewrite wrap_id by (unfold inw; lia). apply Z.ltb_lt. unfold bank_index. nia. }
  cbn [mbind res_bind].
  assert (forall class, mask_of class queue [] 0 u64_max false) as S0.
  { intros class. constructor; [unfold inw; lia|intros b _; by rewrite Z.testbit_0_l|..]; (try split; try done; intros i j Hl; by apply elem_of_nil in Hl). }
  destruct (prep_banks_ok queue (all_banks P) [] (mkPrep 0 u64_max 0 u64_max false)) as (s & -> & [S1 [f S2]]);
    [|split; [apply S0|exists false; apply S0]|].
  { apply Forall_forall. intros [i j]. by rewrite elem_all_banks. }
  cbn [mbind res_bind app] in *. rewrite (seamless_ok queue _ _ _ sw F S1). unfold wanted_rank.
  destruct (seamless sw queue); eexists; (split; [done|]); by eapply mask_soonest.
Qed.

(** ** First ready, first come *)
Fixpoint find_index {A} (f : A -> bool) (l : list A) : option nat :=
  match l with [] => None | x :: l => if f x then Some O else S <$> find_index f l end.

Definition row_hit (p : DRAMPacket) : bool :=
  match get_bank (rank p) (bank p) d with Ok x => openRow x =? row p | Err _ => false end.

(** The first hit in the rank of the last burst, or in any rank when the direction
    changes; else the first hit; else the first burst of a bank in the mask; else
    the first burst. *)
Definition first_ready (sw : bool) (mask : Z) (queue : list DRAMPacket) : nat :=
  match find_index (fun p => row_hit p && (bool_decide (rank p = activeRank d) || sw)) queue with
  | Some i => i
  | None =>
      match find_index row_hit queue with
      | Some i => i
      | None => default O (find_index (fun p => Z.testbit mask (bankId p)) queue)
      end
  end.

Lemma find_index_lt {A} (f : A -> bool) l i : find_index f l = Some i -> (i < length l)%nat.
Proof.
  revert i. induction l as [|x l IH]; intros i; cbn; [done|]. case_if; [intros [= <-]; lia|].
  intros E. apply fmap_Some in E as (j & E & ->). specialize (IH j E). lia.
Qed.

Lemma first_ready_lt sw mask queue : queue <> [] -> (first_ready sw mask queue < length queue)%nat.
Proof.
  intros H. assert (0 < length queue)%nat by (destruct queue; cbn; [done|lia]). unfold first_ready.
  repeat (match goal with |- context [find_index ?f queue] => destruct (find_index f queue) eqn:? end; try by eapply find_index_lt).
  done.
Qed.

Lemma bit_test m b : 0 <= b < 64 -> negb (bits m b b =? 0) = Z.testbit m b.
Proof.
  intros Hb. rewrite bits_arith by lia. replace (b - b + 1) with 1 by lia. rewrite <- Z.shiftr_div_pow2 by lia.
  change (2 ^ 1) with 2. rewrite <- Z.bit0_mod, Z.shiftr_spec by lia. change (0 + b) with b.
  destruct (Z.testbit m b); reflexivity.
Qed.

(** What is selected when the bursts [l] from position [i] on are left. *)
Definition rest_choice (sw : bool) (mask : Z) (l : list DRAMPacket) (i : nat) (s : Scan) : nat :=
  match find_index (fun p => row_hit p && (bool_decide (rank p = activeRank d) || sw)) l with
  | Some j => i + j
  | None =>
      if found_prepped_diff_rank_pkt s then selected s
      else match find_index row_hit l with
      | Some j => i + j
      | None =>
          if found_earliest_pkt s then selected s
          else match find_index (fun p => Z.testbit mask (bankId p)) l with Some j => i + j | None => selected s end
      end
  end.

Lemma scan_queue_ok queue sw mask : minBankPrep P now d queue sw = Ok mask -> forall l i s, Forall at_bank l ->
  earliest_banks s = 0 \/ earliest_banks s = mask ->
  scan_queue P now d queue sw l i s = Ok (rest_choice sw mask l i s).
Proof.
  intros Hm. induction l as [|p l IH]; intros i s F He; cbn [scan_queue].
  { unfold rest_choice. cbn. by destruct (found_prepped_diff_rank_pkt s), (found_earliest_pkt s). }
  apply Forall_cons in F as [(Hr & Hb & Ei) F]. pose proof (bank_index_range _ _ Hr Hb) as Hi.
  destruct (Hbank _ _ Hr Hb) as (x & Ex & _). rewrite Ex. cbn [mbind res_bind].
  assert (row_hit p = (openRow x =? row p)) as Hh by (unfold row_hit; by rewrite Ex).
  unfold rest_choice. cbn [find_index]. rewrite <- Hh. destruct (row_hit p); cbn [andb negb].
  - destruct (bool_decide (rank p = activeRank d) || sw); [by rewrite Nat.add_0_r|].
    rewrite IH by (try done; by destruct (found_prepped_diff_rank_pkt s)). unfold rest_choice.
    destruct (find_index _ l); cbn; [f_equal; lia|]. destruct (found_prepped_diff_rank_pkt s) eqn:Ef; cbn; rewrite ?Ef; [done|].
    f_equal. lia.
  - destruct (found_earliest_pkt s || found_prepped_diff_rank_pkt s) eqn:Ef.
    + rewrite <- negb_orb, Ef. cbn. rewrite IH by done. unfold rest_choice.
      destruct (found_earliest_pkt s), (found_prepped_diff_rank_pkt s); try done;
        repeat (destruct (find_index _ l); cbn; try (f_equal; lia)); done.
    + rewrite <- negb_orb, Ef. cbn [negb]. apply orb_false_iff in Ef as [Ee Ep]. rewrite Ee, Ep.
      assert ((if earliest_banks s =? 0 then minBankPrep P now d queue sw else Ok (earliest_banks s)) = Ok mask) as ->.
      { case_if; bool_prop; [done|]. by destruct He as [ | -> ]. }
      cbn [mbind res_bind]. rewrite (proj2 (Z.ltb_lt _ _)) by lia. cbn [mbind res_bind]. rewrite bit_test by lia.
      rewrite IH by (try done; destruct (Z.testbit _ _); cbn; by right). unfold rest_choice.
      destruct (Z.testbit mask (bankId p)); cbn; rewrite ?Ee, ?Ep;
        repeat (destruct (find_index _ l); cbn; try (f_equal; lia)); done || (f_equal; lia).
Qed.

Lemma chooseNext_ok queue sw : Forall at_bank queue -> queue <> [] ->
  exists mask p, minBankPrep P now d queue sw = Ok mask /\ soonest (wanted_rank sw queue) queue mask /\
    let i := if decide (memSchedPolicy P = fcfs) then O else first_ready sw mask queue in
    queue !! i = Some p /\ chooseNext P now d queue sw = Ok (p :: delete i queue).
Proof.
  intros F Hq. destruct (minBankPrep_ok queue sw F) as (mask & Em & So).
  pose proof (first_ready_lt sw mask queue Hq) as Hlt. exists mask.
  destruct (lookup_lt_is_Some_2 queue (if decide (memSchedPolicy P = fcfs) then O else first_ready sw mask queue)) as [p Hp].
  { case_decide; [|done]. destruct queue; [done|cbn; lia]. }
  exists p. cbv zeta. split; [done|]. split; [done|]. split; [done|]. unfold chooseNext.
  destruct queue as [|p1 [|p2 queue]]; [done| |].
  - assert (first_ready sw mask [p1] = O) as E0 by (cbn [length] in Hlt; lia). rewrite E0 in *.
    destruct (decide (memSchedPolicy P = fcfs)); by injection Hp as ->.
  - destruct (memSchedPolicy P); [rewrite decide_True in * by done; by injection Hp as ->|rewrite decide_False in * by done].
    unfold reorderQueue. rewrite (scan_queue_ok _ sw mask Em) by (done || by left). cbn [mbind res_bind].
    unfold to_front. change (rest_choice _ _ _ _ _) with (first_ready sw mask (p1 :: p2 :: queue)). by rewrite Hp.
Qed.

End Schedule.

Section Claims.

Context (P : DramParams).

(** A burst is a power of two, and the numbers of the code do not wrap. *)
Record geometry : Prop := {
  ge_burst : exists k, 0 <= k < 30 /\ burstSize P = 2 ^ k;
  ge_dims : dims_ok P;
  ge_reads : 0 <= readBufferSize P < 2 ^ 32;
  ge_writes : 0 <= writeBufferSize P < 2 ^ 32
}.

Record request_ok (start size : Z) : Prop := {
  rq_start : 0 <= start;
  rq_size : 0 < size < 2 ^ 30;
  rq_end : start + size <= 2 ^ 62
}.

(** C29. A write that finds room: each byte of it, and no other, joins those of the
    queue; bursts of the queue grow, to at most one burst, and stay at their
    places; and each burst of the write lies within one of the queue, as does
    what lay within one before. *)
Theorem write_queue_merges (now : Z) (pkt : Packet) (start size : Z) (queue : list DRAMPacket) :
  geometry -> request_ok start size -> Forall (entry_ok P) queue -> Z.of_nat (length queue) <= writeBufferSize P ->
  exists n, dram_pkt_count P start size = Ok n /\
    (writeQueueFull P queue n = false ->
     exists queue', add_writes P now pkt start size (Z.to_nat n) start queue = Ok queue' /\
       Forall (entry_ok P) queue' /\
       (forall x, covered queue' x <-> covered queue x \/ start <= x < start + size) /\
       (forall a m, within queue a m -> within queue' a m) /\
       Forall (fun c => part P start size c /\ within queue' (fst c) (snd c)) (bursts P start size (Z.to_nat n) start) /\
       (length queue <= length queue')%nat /\ Z.of_nat (length queue') <= writeBufferSize P /\
       take (length queue) (target <$> queue') = target <$> queue).
Proof.
  intros [(k & Hk & HB) D R W] [S1 S2 S3] F HL. destruct (dram_pkt_count_ok P k Hk HB start size S1 S2 S3) as [E Hn].
  eexists. split; [exact E|]. intros Hf. unfold writeQueueFull in Hf. apply Z.ltb_ge in Hf.
  assert (Z.of_nat (length queue) + left_from P start size start <= writeBufferSize P) as Hl.
  { rewrite u64_small in Hf by lia. lia. }
  destruct (add_writes_ok P k Hk HB D start size S1 S2 S3 now pkt (Z.to_nat (left_from P start size start)) start queue)
    as (q & Eq & F' & C & Wn & B & L & T); [lia|lia|done|lia|].
  exists q. split; [done|]. split; [done|]. split; [done|]. split; [done|]. split; [|split; [lia|split; [lia|done]]].
  apply Forall_and. split; [|done]. apply (bursts_ok P k Hk HB start size S1 S2 S3); lia.
Qed.

(** A read that finds room: it is split into bursts, within one burst of the
    memory each, that cover it; a burst is served by the write queue when one
    entry there holds it, and is otherwise added, in order, behind the reads. *)
Theorem reads_split (now : Z) (pkt : Packet) (helper : option positive) (start size : Z)
    (readQueue writeQueue respQueue : list DRAMPacket) :
  geometry -> request_ok start size -> Forall (entry_ok P) writeQueue ->
  Z.of_nat (length readQueue) + Z.of_nat (length respQueue) <= readBufferSize P ->
  exists n, dram_pkt_count P start size = Ok n /\ let parts := bursts P start size (Z.to_nat n) start in
    Forall (fun c => part P start size c /\ (found writeQueue c = true <-> within writeQueue (fst c) (snd c))) parts /\
    (forall x, Exists (in_part x) parts <-> start <= x < start + size) /\
    (readQueueFull P readQueue respQueue n = false ->
     exists new, add_reads P now pkt start size helper (length respQueue) writeQueue (Z.to_nat n) start readQueue 0 =
         Ok (readQueue ++ new, n - Z.of_nat (length new)) /\
       Forall (read_burst P pkt helper) new /\
       (fun p => (dp_addr p, dp_size p)) <$> new = filter (fun c => found writeQueue c = false) parts).
Proof.
  intros [(k & Hk & HB) D R W] [S1 S2 S3] F HL. destruct (dram_pkt_count_ok P k Hk HB start size S1 S2 S3) as [E Hn].
  eexists. split; [exact E|]. intros parts.
  destruct (bursts_ok P k Hk HB start size S1 S2 S3 (Z.to_nat (left_from P start size start)) start) as [Fp Cp]; [lia..|].
  fold parts in Fp, Cp. split; [|split; [done|]].
  { eapply Forall_impl; [exact Fp|]. intros c Hc. split; [done|]. destruct Hc as (C1 & C2 & C3 & _).
    apply (found_within P k Hk HB); [done|lia..]. }
  intros Hf. unfold readQueueFull in Hf. apply Z.ltb_ge in Hf. rewrite u64_small in Hf by lia.
  destruct (add_reads_ok P k Hk D start size S2 now pkt helper (length respQueue) writeQueue
    (Z.to_nat (left_from P start size start)) start readQueue 0) as (new & Eq & T & Fn); [lia..|].
  exists new. fold parts in Eq, T. split; [|done]. rewrite Eq. do 2 f_equal.
  pose proof (filter_both (found writeQueue) parts) as L. apply (f_equal length) in T. rewrite length_fmap in T.
  unfold parts in L. rewrite bursts_length in L. fold parts in L. lia.
Qed.

(** C30. The next burst: under [frfcfs] the first that hits an open row in the rank
    used last (in any rank when the direction changes), else the first that hits
    one in another rank, else the first of a bank of the mask, else the one that
    came first; it moves to the head of the queue and the others keep their order.
    The mask is for the rank used last, among several, when a burst waits there
    that can follow on the bus without a gap, and for the other ranks else: it
    holds each bank with a waiting burst there that can be activated first, and no
    other but those that can be activated at once, or as early. *)
Theorem choose_next (now : Z) (d : Dram) (queue : list DRAMPacket) (sw : bool) :
  0 < ranksPerChannel P -> 0 < banksPerRank P -> ranksPerChannel P * banksPerRank P <= 64 ->
  (forall i j, (i < Z.to_nat (ranksPerChannel P))%nat -> (j < Z.to_nat (banksPerRank P))%nat ->
     exists x, get_bank i j d = Ok x /\ 0 <= actAllowedAt x < 2 ^ 64) ->
  Forall (at_bank P) queue -> queue <> [] ->
  exists mask p, minBankPrep P now d queue sw = Ok mask /\ soonest P now d (wanted_rank P now d sw queue) queue mask /\
    let i := if decide (memSchedPolicy P = fcfs) then O else first_ready d sw mask queue in
    queue !! i = Some p /\ chooseNext P now d queue sw = Ok (p :: delete i queue).
Proof. intros H1 H2 H3 Hb. by apply chooseNext_ok. Qed.

End Claims.

(** Without a stripe as large as a burst the mappings with the channel in the low
    bits divide by zero. *)
Lemma decode_no_stripe (P : DramParams) (a : Z) : burstSize P <> 0 -> columnsPerStripe P = 0 -> addrMapping P <> RoRaBaChCo ->
  decode P a = undefined.
Proof.
  intros Hb Hs Ha. unfold decode.
  assert (udiv a (burstSize P) = Ok (a / burstSize P)) as -> by (unfold udiv; by rewrite (proj2 (Z.eqb_neq _ _))). cbn [mbind res_bind].
  rewrite Hs. destruct (addrMapping P); [done|reflexivity..].
Qed.

(** ** Examples *)
Definition ex_small : DramParams :=
  ex_vault <| burstSize := 64 |> <| columnsPerRowBuffer := 4 |> <| columnsPerStripe := 4 |> <| channels := 1 |>.

Definition ex_write (a n : Z) : DRAMPacket := mkDRAMPacket 0 0 (ex_packet WriteReq a [1]) false 0 0 0 0 a n None.

(** Writes on both sides of a row are merged: the entry is served at the bank of
    its first bytes, though the last ones belong to another. *)
Lemma merged_straddles :
  merge_write ex_small 256 32 [ex_write 224 32] = Some [ex_write 224 64] /\
  decode ex_small 224 = Ok (0, 0, 0) /\ decode ex_small 287 = Ok (0, 1, 0).
Proof. split_and!; vm_compute; reflexivity. Qed.

Definition ex_dram (x y : Bank) : Dram :=
  mkDram [[x; y]; [Bank_new 0; Bank_new 1]; [Bank_new 0; Bank_new 1]; [Bank_new 0; Bank_new 1]] [[]; []; []; []] 0 0 0 0 0 0 [] [].
Definition ex_read (b r : nat) : DRAMPacket := mkDRAMPacket 0 0 (ex_packet ReadReq 0 [1]) true 0 b (Z.of_nat r) (Z.of_nat b) 0 64 None.

(** When bursts wait for the rank of the last access only, and none can be
    prepared in time for the bus, no bank is in the mask: the burst that came first
    is next, even if the bank of another is ready much earlier. *)
Lemma one_rank_in_order :
  let d := (ex_dram ((Bank_new 0) <| actAllowedAt := 90000 |>) ((Bank_new 1) <| actAllowedAt := 60000 |>)) <| busBusyUntil := 80000 |> in
  minBankPrep ex_vault 50000 d [ex_read 0 3; ex_read 1 4] false = Ok 0 /\
  chooseNext ex_vault 50000 d [ex_read 0 3; ex_read 1 4] false = Ok [ex_read 0 3; ex_read 1 4].
Proof. split; vm_compute; reflexivity. Qed.

(** With the bus busy for longer, the second burst can follow without a gap, and its
    bank is ready before the first one's. *)
Example soonest_first :
  let d := (ex_dram ((Bank_new 0) <| actAllowedAt := 90000 |>) ((Bank_new 1) <| actAllowedAt := 60000 |>)) <| busBusyUntil := 180000 |> in
  minBankPrep ex_vault 50000 d [ex_read 0 3; ex_read 1 4] false = Ok 2 /\
  chooseNext ex_vault 50000 d [ex_read 0 3; ex_read 1 4] false = Ok [ex_read 1 4; ex_read 0 3].
Proof. split; vm_compute; reflexivity. Qed.

Lemma ex_geometry : geometry ex_small.
Proof. constructor; [by exists 6| |by cbn..]. constructor; cbn; lia. Qed.

Lemma write_queue_merges_witness :
  exists queue', add_writes ex_small 0 (ex_packet WriteReq 40 [1]) 40 100 3 40 [ex_write 128 16] = Ok queue' /\
    covered queue' 40 /\ covered queue' 143 /\ ~ covered queue' 144.
Proof.
  destruct (write_queue_merges ex_small 0 (ex_packet WriteReq 40 [1]) 40 100 [ex_write 128 16] ex_geometry) as (n & E & H).
  - constructor; lia.
  - apply Forall_singleton. unfold entry_ok. cbn. lia.
  - cbn. lia.
  - vm_compute in E. injection E as <-. destruct H as (q & Eq & _ & C & _); [done|].
    exists q. split; [exact Eq|]. rewrite !C. unfold covered. rewrite !Exists_cons, !Exists_nil. unfold holds. cbn. lia.
Defined.

Lemma reads_split_witness :
  exists new, add_reads ex_small 0 (ex_packet ReadReq 40 [1]) 40 100 (Some 1%positive) 0 [ex_write 120 24] 3 40 [] 0 = Ok (new, 3 - Z.of_nat (length new)) /\
    (fun p => (dp_addr p, dp_size p)) <$> new = [(40, 24); (64, 64)].
Proof.
  destruct (reads_split ex_small 0 (ex_packet ReadReq 40 [1]) (Some 1%positive) 40 100 [] [ex_write 120 24] [] ex_geometry) as (n & E & _ & _ & H).
  - constructor; lia.
  - apply Forall_singleton. unfold entry_ok. cbn. lia.
  - cbn. lia.
  - vm_compute in E. injection E as <-. destruct H as (new & Eq & _ & T); [done|]. exists new. split; [exact Eq|exact T].
Defined.

Lemma choose_next_witness :
  let d := ex_dram (Bank_new 0) ((Bank_new 1) <| openRow := 4 |>) in
  chooseNext ex_vault 0 d [ex_read 0 3; ex_read 1 4] false = Ok [ex_read 1 4; ex_read 0 3].
Proof.
  intros d. destruct (choose_next ex_vault 0 d [ex_read 0 3; ex_read 1 4] false) as (mask & p & _ & _ & Hp & E).
  - by cbn.
  - by cbn.
  - by cbn.
  - intros i j Hi Hj. cbn in Hi, Hj. do 4 (destruct i as [|i]; [do 2 (destruct j as [|j]; [eexists; split; [done|cbn; lia]|]); lia|]). lia.
  - repeat constructor.
  - done.
  - cbn in Hp. injection Hp as <-. exact E.
Defined.
