(* ===== verification/DramSpec.v ===== *)
(** * What a DRAM device demands of its commands

    The abstract specification of the controller's command stream: a device whose
    banks are activated, read, written, precharged and refreshed no sooner than
    its timing parameters allow.  A step takes the commands in the order in which
    the controller gives them, with their moments, which lie in the future for
    some: the access that closes its row by itself is given after its precharge,
    and must be early enough for it. *)

From S2P Require Import Prelude.
From S2P Require Import DramBank.

(** What a bank remembers: whether a row is open, the row opened last, the moments
    of the last activation, precharge, access and refresh, and the moment from
    which it may be precharged. *)
Record DevBank := mkDevBank {
  dv_open : bool; dv_row : Z; dv_act : option Z; dv_pre : option Z; dv_cas : option Z; dv_ref : option Z; dv_lim : Z
}.

(** The banks, and the activations of each rank, the latest first. *)
Record Dev := mkDev { dv_bank : nat -> nat -> DevBank; dv_acts : nat -> list Z }.

Definition Dev_new : Dev := mkDev (fun _ _ => mkDevBank false 0 None None None None 0) (fun _ => []).

(** At least [d] after a moment, if there was one. *)
Definition since (o : option Z) (d t : Z) : Prop := match o with Some a => a + d <= t | None => True end.

Section Device.

Context (P : DramParams).

Definition group (b : nat) : Z := u8 (if bankGroupArch P then Z.of_nat b mod bankGroupsPerRank P else Z.of_nat b).
Definition grouped (b b' : nat) : bool := bankGroupArch P && (group b =? group b').

(** From an activation in bank [b] to one in bank [b'] of the rank, and from an
    access to the next. *)
Definition rrd (b b' : nat) : Z := if grouped b b' then tRRD_L P else tRRD P.
Definition ccd (r b r' b' : nat) : Z :=
  if decide (r = r') then if grouped b b' then tCCD_L P else tBURST P else tBURST P + tCS P.

(** At most [activationLimit] activations in any [tXAW]; the controller takes
    moment zero for none. *)
Definition window_ok (acts : list Z) (t : Z) : Prop :=
  match acts !! pred (Z.to_nat (activationLimit P)) with
  | Some a => activationLimit P = 0 \/ a = 0 \/ a + tXAW P <= t
  | None => True
  end.

Definition dev_set (r b : nat) (x : DevBank) (v : Dev) : Dev :=
  v <| dv_bank := fun r' b' => if decide (r' = r /\ b' = b) then x else dv_bank v r' b' |>.

(** From when the bank may be precharged, after an access at [t]. *)
Definition recovery (write : bool) (t : Z) : Z := if write then t + tCL P + tBURST P + tWR P else t + tRTP P.

Definition access_step (write : bool) (r b : nat) (row t : Z) (v : Dev) : option DevBank -> Prop := fun o =>
  let x := dv_bank v r b in
  dv_row x = row /\ since (dv_act x) (tRCD P) t /\ (forall r' b', since (dv_cas (dv_bank v r' b')) (ccd r' b' r b) t) /\
  (dv_open x = false -> exists p, dv_pre x = Some p /\ recovery write t <= p) /\
  o = Some (x <| dv_cas := Some t |> <| dv_lim := Z.max (dv_lim x) (recovery write t) |>).

Inductive dev_step (v : Dev) : Cmd -> Dev -> Prop :=
| dev_activate r b row t : let x := dv_bank v r b in
    dv_open x = false -> since (dv_pre x) (tRP P) t -> since (dv_ref x) (tRFC P) t ->
    (forall b', since (dv_act (dv_bank v r b')) (rrd b' b) t) -> window_ok (dv_acts v r) t ->
    dev_step v (mkCmd (ACT row) r b t)
      (dev_set r b (x <| dv_open := true |> <| dv_row := row |> <| dv_act := Some t |> <| dv_lim := t + tRAS P |>) v
         <| dv_acts := fun r' => if decide (r' = r) then t :: dv_acts v r else dv_acts v r' |>)
| dev_precharge r b t : let x := dv_bank v r b in
    dv_open x = true -> dv_lim x <= t ->
    dev_step v (mkCmd PRE r b t) (dev_set r b (x <| dv_open := false |> <| dv_pre := Some t |>) v)
| dev_read r b row t x : access_step false r b row t v (Some x) ->
    dev_step v (mkCmd (RD row) r b t) (dev_set r b x v)
| dev_write r b row t x : access_step true r b row t v (Some x) ->
    dev_step v (mkCmd (WR row) r b t) (dev_set r b x v)
| dev_precharge_all r b t :
    (forall b', dv_open (dv_bank v r b') = true -> dv_lim (dv_bank v r b') <= t) ->
    dev_step v (mkCmd PREA r b t)
      (v <| dv_bank := fun r' b' => let x := dv_bank v r' b' in
              if decide (r' = r) then if dv_open x then x <| dv_open := false |> <| dv_pre := Some t |> else x else x |>)
| dev_refresh r b t :
    (forall b', dv_open (dv_bank v r b') = false /\ since (dv_pre (dv_bank v r b')) (tRP P) t) ->
    dev_step v (mkCmd REF r b t)
      (v <| dv_bank := fun r' b' => let x := dv_bank v r' b' in if decide (r' = r) then x <| dv_ref := Some t |> else x |>).

(** A command log, the latest first, that a device accepts. *)
Inductive legal : list Cmd -> Dev -> Prop :=
| legal_nil : legal [] Dev_new
| legal_cons l v c v' : legal l v -> dev_step v c v' -> legal (c :: l) v'.

(** ** What is asked of the parameters *)

(** How long an access can be planned ahead of the present, and how long a refresh
    can be put off. *)
Definition S1 : Z := tRP P + tRCD P + tCL P.
Definition Cc : Z := tCCD_L P + tBURST P + tCS P.
Definition Cp : Z := tRAS P + tRTP P + tWR P.
Definition Ca : Z := Cp + tRP P + tRRD P + tRRD_L P + tXAW P + tRFC P.
Definition ahead_max : Z := S1 + tWTR P + tCL P + tRTW P + Ca + Cc + tRCD P + tCL P + tBURST P.
Definition delay_max : Z := ahead_max + S1 + Cp + tRP P + tRFC P + tRP P.

(** Sane timing: an activation constrains others no longer than the cycle of its
    row, and refreshes are far enough apart. *)
Record sane : Prop := {
  sa_ranks : 0 < ranksPerChannel P;
  sa_banks : 0 < banksPerRank P;
  sa_total : ranksPerChannel P * banksPerRank P <= 64;
  sa_limit : 0 <= activationLimit P < 2 ^ 32;
  sa_wtr : 0 <= tWTR P; sa_rtw : 0 <= tRTW P; sa_cs : 0 <= tCS P; sa_burst : 0 < tBURST P; sa_ccd : 0 <= tCCD_L P;
  sa_rcd : 0 <= tRCD P; sa_cl : 0 <= tCL P; sa_rp : 0 <= tRP P; sa_ras : 0 < tRAS P; sa_wr : 0 <= tWR P; sa_rtp : 0 <= tRTP P;
  sa_rrd : 0 <= tRRD P <= tRAS P + tRP P;
  sa_rrd_l : 0 <= tRRD_L P <= tRAS P + tRP P;
  sa_xaw : 0 <= tXAW P <= tRAS P + tRP P;
  sa_rfc : tRP P <= tRFC P;
  sa_refi : delay_max <= tREFI P;
  sa_small : tREFI P < 2 ^ 58
}.

Lemma delay_eq : delay_max = S1 + tWTR P + tCL P + tRTW P + Ca + Cc + tRCD P + tCL P + tBURST P + S1 + Cp + tRP P + tRFC P + tRP P.
Proof. reflexivity. Qed.

Lemma delay_ahead : delay_max = ahead_max + S1 + Cp + tRP P + tRFC P + tRP P.
Proof. reflexivity. Qed.

End Device.
