(* ===== verification/DramOps.v ===== *)
(** * The operations on the banks

    Each operation of [DramBank] on a state whose banks are as the specification
    of the device has them ([bank_rel]) succeeds, gives commands that the device
    accepts, and keeps the relation.  How far ahead of the present it plans is
    bounded ([bounded]), and what it plans is over by the moment at which the
    last bank is precharged ([settled]). *)

From S2P Require Import Prelude.
From S2P Require Import DramBank.
From S2P Require Import DramSpec.
Set Warnings "-clear-no-such-hyp".

(** ** Events *)
Record ev_ok (now : Z) (l : list (Ev * Z)) : Prop := {
  eo_sorted : StronglySorted (fun x y => snd x <= snd y) l;
  eo_once : NoDup (fst <$> l);
  eo_future : Forall (fun x => now <= snd x) l
}.

(** [a] comes before [e], or [e] does not come. *)
Fixpoint ahead (a e : Ev) (l : list (Ev * Z)) : Prop :=
  match l with [] => True | (x, _) :: l => x = a \/ (x <> e /\ ahead a e l) end.

Lemma ev_remove_cons e x t l : ev_remove e ((x, t) :: l) = if decide (x <> e) then (x, t) :: ev_remove e l else ev_remove e l.
Proof. unfold ev_remove. by rewrite filter_cons. Qed.

Lemma ev_when_remove_ne e e' l : e <> e' -> ev_when e (ev_remove e' l) = ev_when e l.
Proof.
  intros Hne. induction l as [|[x t] l IH]; [done|]. rewrite ev_remove_cons. cbn [ev_when]. case_decide as E.
  - cbn [ev_when]. case_decide; [done|exact IH].
  - subst x. rewrite decide_False by done. exact IH.
Qed.

Lemma ev_when_insert_ne e e' t l : e <> e' -> ev_when e (ev_insert e' t l) = ev_when e l.
Proof.
  intros Hne. induction l as [|[x t'] l IH]; cbn [ev_insert ev_when]; [by rewrite decide_False|].
  case_if; cbn [ev_when]; [by rewrite decide_False|]. by rewrite IH.
Qed.

Lemma ev_when_insert e t l : ev_when e l = None -> ev_when e (ev_insert e t l) = Some t.
Proof.
  induction l as [|[x t'] l IH]; cbn [ev_insert ev_when]; [by rewrite decide_True|].
  case_decide; [done|]. intros E. case_if; cbn [ev_when]; [by rewrite decide_True|]. rewrite decide_False by done. by apply IH.
Qed.

Lemma ev_when_none e l : ev_when e l = None <-> e ∉ fst <$> l.
Proof.
  induction l as [|[x t] l IH]; cbn; [split; [intros _; apply not_elem_of_nil|done]|]. rewrite not_elem_of_cons.
  split; [case_decide; [done|]; intros Hw; split; [congruence|by apply IH]|].
  intros [H1 H2]. rewrite decide_False by congruence. by apply IH.
Qed.

Lemma ev_when_in e t l : ev_when e l = Some t -> (e, t) ∈ l.
Proof.
  induction l as [|[x t'] l IH]; cbn; [done|]. case_decide as E; [intros [= ->]; subst; by left|]. intros H. right. by apply IH.
Qed.

Lemma ev_remove_none e l : ev_when e l = None -> ev_remove e l = l.
Proof.
  induction l as [|[x t] l IH]; cbn [ev_when]; [done|]. case_decide as E; [done|]. intros H. rewrite ev_remove_cons, decide_True by done.
  f_equal. by apply IH.
Qed.

Lemma ev_when_remove e l : ev_when e (ev_remove e l) = None.
Proof.
  apply ev_when_none. intros H. apply list_elem_of_fmap in H as ([x t] & Hx & Hi). apply list_elem_of_filter in Hi as [Hi _]. by cbn in *.
Qed.

Lemma ev_insert_perm e t l : ev_insert e t l ≡ₚ (e, t) :: l.
Proof.
  induction l as [|[x t'] l IH]; cbn [ev_insert]; [done|]. case_if; [done|]. rewrite IH. constructor.
Qed.

Lemma ev_ok_insert now e t l : ev_ok now l -> ev_when e l = None -> now <= t -> ev_ok now (ev_insert e t l).
Proof.
  intros [S N F] He Ht. apply ev_when_none in He. constructor.
  - clear N F He. induction S as [|[x t'] l S IH F]; cbn [ev_insert]; [repeat constructor|]. case_if; bool_prop.
    + constructor; [by constructor|]. constructor; [done|]. eapply Forall_impl; [exact F|]. cbn. lia.
    + constructor; [done|]. rewrite ev_insert_perm. constructor; [cbn; lia|done].
  - rewrite ev_insert_perm. cbn. by constructor.
  - rewrite ev_insert_perm. by constructor.
Qed.

Lemma ev_remove_Forall (Q : Ev * Z -> Prop) e l : Forall Q l -> Forall Q (ev_remove e l).
Proof. rewrite !Forall_forall. intros H x [_ Hx]%list_elem_of_filter. by apply H. Qed.

Lemma ev_ok_remove now e l : ev_ok now l -> ev_ok now (ev_remove e l).
Proof.
  intros [S N F]. constructor.
  - clear N F. induction S as [|[x t] l S IH F]; [constructor|]. rewrite ev_remove_cons. case_decide; [|done].
    constructor; [done|]. by apply ev_remove_Forall.
  - eapply sublist_NoDup; [exact N|]. apply fmap_sublist, sublist_filter.
  - by apply ev_remove_Forall.
Qed.

Lemma ahead_insert a e x t l : x <> e -> ahead a e l -> ahead a e (ev_insert x t l).
Proof.
  intros Hx. induction l as [|[y t'] l IH]; cbn [ev_insert ahead]; [tauto|]. intros H. case_if; cbn [ahead]; tauto.
Qed.

Lemma ahead_remove a e x l : x <> a -> ahead a e l -> ahead a e (ev_remove x l).
Proof.
  intros Hx. induction l as [|[y t'] l IH]; [done|]. rewrite ev_remove_cons. cbn [ahead]. intros H.
  case_decide as E; cbn [ahead]; [destruct H as [->|[H1 H2]]; [by left|right; split; [done|by apply IH]]|]. subst y. destruct H as [->|[_ H]]; [done|by apply IH].
Qed.

Lemma ev_insert_front now e l : ev_ok now l -> ev_insert e now l = (e, now) :: l.
Proof.
  intros [_ _ F]. destruct l as [|[x t] l]; [done|]. apply Forall_cons in F as [F _]. cbn [ev_insert snd] in *.
  by rewrite (proj2 (Z.leb_le _ _)).
Qed.

Lemma assert_ok b : b = true -> assert_ b = Ok tt.
Proof. by intros ->. Qed.

Lemma neqb a b : a <> b -> negb (a =? b) = true.
Proof. intros H. by rewrite (proj2 (Z.eqb_neq a b) H). Qed.

Lemma sched_ok e now t d : when_ e d = None -> now <= t -> sched e now t d = Ok (d <| events := ev_insert e t (events d) |>).
Proof.
  intros He Ht. unfold sched, assert_. rewrite (proj2 (Z.leb_le _ _)) by lia. cbn [mbind res_bind].
  by rewrite bool_decide_eq_true_2.
Qed.

Lemma resched_ok e now t t0 d : when_ e d = Some t0 -> now <= t ->
  resched e now t d = Ok (d <| events := ev_insert e t (ev_remove e (events d)) |>).
Proof.
  intros He Ht. unfold resched, assert_. rewrite (proj2 (Z.leb_le _ _)) by lia. cbn [mbind res_bind].
  by rewrite He, bool_decide_eq_false_2.
Qed.

(** The event [e] is now at [t]; the others are where they were. *)
Definition moved (e : Ev) (t : Z) (l l' : list (Ev * Z)) : Prop := l' = ev_insert e t (ev_remove e l).

Lemma moved_when e t l l' : moved e t l l' -> ev_when e l' = Some t.
Proof. intros ->. apply ev_when_insert, ev_when_remove. Qed.
Lemma moved_when_ne e e' t l l' : moved e' t l l' -> e <> e' -> ev_when e l' = ev_when e l.
Proof. intros -> Hne. by rewrite ev_when_insert_ne, ev_when_remove_ne. Qed.
Lemma moved_ok now e t l l' : moved e t l l' -> ev_ok now l -> now <= t -> ev_ok now l'.
Proof. intros -> H Ht. apply ev_ok_insert; [by apply ev_ok_remove|apply ev_when_remove|done]. Qed.

(** ** Banks *)
Definition bank_at (d : Dram) (r b : nat) : option Bank := l ← banks d !! r; l !! b.

Lemma get_bank_at d r b x : bank_at d r b = Some x -> get_bank r b d = Ok x.
Proof. unfold bank_at, get_bank. destruct (banks d !! r) as [l|]; cbn; [|done]. by intros ->. Qed.

Lemma bank_at_set d r b f r' b' :
  bank_at (set_bank r b f d) r' b' = if decide (r' = r /\ b' = b) then f <$> bank_at d r' b' else bank_at d r' b'.
Proof.
  unfold bank_at, set_bank. cbn. destruct (decide (r' = r)) as [->|Hr].
  - rewrite list_lookup_alter_eq. destruct (banks d !! r) as [l|]; cbn; [|by case_decide].
    destruct (decide (b' = b)) as [->|Hb]; [rewrite (decide_True (P := _ /\ _)) by done; by rewrite list_lookup_alter_eq|].
    rewrite decide_False by tauto. by rewrite list_lookup_alter_ne.
  - rewrite list_lookup_alter_ne by done. by rewrite decide_False by tauto.
Qed.

Lemma bank_at_rank d r f r' b' : bank_at (set_rank r f d) r' b' = if decide (r' = r) then f <$> bank_at d r' b' else bank_at d r' b'.
Proof.
  unfold bank_at, set_rank. cbn. case_decide as E; [subst r'|by rewrite list_lookup_alter_ne].
  rewrite list_lookup_alter_eq. destruct (banks d !! r) as [l|]; cbn; [apply list_lookup_fmap|done].
Qed.

Lemma bank_at_all d f r b : bank_at (set_all f d) r b = f r <$> bank_at d r b.
Proof.
  unfold bank_at, set_all. cbn. rewrite list_lookup_imap. destruct (banks d !! r) as [l|]; cbn; [apply list_lookup_fmap|done].
Qed.

Lemma bank_at_issue k r b t d r' b' : bank_at (issue k r b t d) r' b' = bank_at d r' b'.
Proof. done. Qed.
Lemma bank_at_num n d r' b' : bank_at (d <| numBanksActive := n |>) r' b' = bank_at d r' b'.
Proof. done. Qed.

(** The rest of the state, which the operations on banks leave alone. *)
Definition rest_of (d : Dram) := (busBusyUntil d, nextReqTime d, activeRank d, readsThisTime d, writesThisTime d).

Section Ops.

Context (P : DramParams) (Sa : sane P).

Record shape (d : Dram) : Prop := {
  sh_ranks : length (banks d) = Z.to_nat (ranksPerChannel P);
  sh_banks : Forall (fun l => length l = Z.to_nat (banksPerRank P)) (banks d);
  sh_ticks : length (actTicks d) = Z.to_nat (ranksPerChannel P)
}.

Definition in_range (r b : nat) : Prop := (r < Z.to_nat (ranksPerChannel P))%nat /\ (b < Z.to_nat (banksPerRank P))%nat.

Lemma bank_at_some d r b : shape d -> (exists x, bank_at d r b = Some x) <-> in_range r b.
Proof.
  intros [H1 H2 _]. unfold bank_at, in_range. rewrite Forall_forall in H2. split.
  - intros (x & H). destruct (banks d !! r) as [l|] eqn:E; [|done]. cbn in H. rewrite <- H1.
    rewrite <- (H2 l) by (by eapply list_elem_of_lookup_2). split; by eapply lookup_lt_Some.
  - intros [Hr Hb]. rewrite <- H1 in Hr. destruct (lookup_lt_is_Some_2 _ _ Hr) as [l E]. rewrite E. cbn.
    apply lookup_lt_is_Some_2. by rewrite (H2 l) by (by eapply list_elem_of_lookup_2).
Qed.

Lemma shape_set d r b f : shape d -> shape (set_bank r b f d).
Proof.
  intros [H1 H2 H3]. constructor; cbn; [by rewrite length_alter| |done]. apply Forall_alter; [done|]. intros l _ Hl. by rewrite length_alter.
Qed.
Lemma shape_rank d r f : shape d -> shape (set_rank r f d).
Proof.
  intros [H1 H2 H3]. constructor; cbn; [by rewrite length_alter| |done]. apply Forall_alter; [done|]. intros l _ Hl. by rewrite length_fmap.
Qed.
Lemma shape_all d f : shape d -> shape (set_all f d).
Proof.
  intros [H1 H2 H3]. constructor; cbn; [by rewrite length_imap| |done]. apply Forall_lookup. intros i l.
  rewrite list_lookup_imap_Some. intros (l' & E & ->). rewrite length_fmap. eapply Forall_lookup in H2; [|exact E]. done.
Qed.

(** The open banks are counted. *)
Definition is_open (d : Dram) (r b : nat) : Prop := exists x, bank_at d r b = Some x /\ openRow x <> NO_ROW.
Definition counted (d : Dram) : Prop :=
  exists X : gset (nat * nat), (forall r b, (r, b) ∈ X <-> is_open d r b) /\ numBanksActive d = Z.of_nat (size X).

Lemma counted_more d d' r b : counted d -> ~ is_open d r b -> numBanksActive d' = numBanksActive d + 1 ->
  (forall r' b', is_open d' r' b' <-> is_open d r' b' \/ (r' = r /\ b' = b)) -> counted d'.
Proof.
  intros (X & HX & Hn) Ho Hn' H. exists ({[(r, b)]} ∪ X). split.
  - intros r' b'. rewrite H, <- HX, elem_of_union, elem_of_singleton. naive_solver.
  - rewrite size_union by (rewrite <- HX in Ho; set_solver). rewrite size_singleton. lia.
Qed.

Lemma counted_less d d' r b : counted d -> is_open d r b -> numBanksActive d' = numBanksActive d - 1 ->
  (forall r' b', is_open d' r' b' <-> is_open d r' b' /\ ~ (r' = r /\ b' = b)) -> counted d'.
Proof.
  intros (X & HX & Hn) Ho Hn' H. exists (X ∖ {[(r, b)]}). split.
  - intros r' b'. rewrite H, <- HX, elem_of_difference, elem_of_singleton. naive_solver.
  - rewrite size_difference by (apply HX in Ho; set_solver). apply HX in Ho.
    assert (size ({[(r, b)]} : gset (nat * nat)) <= size X)%nat by (apply subseteq_size; set_solver). rewrite size_singleton in *. lia.
Qed.

Lemma counted_same d d' : counted d -> numBanksActive d' = numBanksActive d -> (forall r b, is_open d' r b <-> is_open d r b) -> counted d'.
Proof. intros (X & HX & Hn) Hn' H. exists X. split; [intros r b; by rewrite H|congruence]. Qed.

Lemma counted_zero d : counted d -> numBanksActive d = 0 <-> forall r b, ~ is_open d r b.
Proof.
  intros (X & HX & ->). split.
  - intros Hz r b Ho. apply HX in Ho. assert (X ≡ ∅) as E by (apply size_empty_inv; lia). set_solver.
  - intros H. assert (X ≡ ∅) as ->%size_empty_iff; [|done]. intros [r b]. rewrite HX. split; [intros Ho; by apply H in Ho|set_solver].
Qed.

Lemma counted_bound d : shape d -> counted d -> 0 <= numBanksActive d <= ranksPerChannel P * banksPerRank P.
Proof.
  intros Hs (X & HX & ->). destruct Sa as [R1 R2 _].
  set (l := list_prod (seq 0 (Z.to_nat (ranksPerChannel P))) (seq 0 (Z.to_nat (banksPerRank P)))).
  assert (size X <= length l)%nat as H.
  { apply submseteq_length, NoDup_submseteq; [apply NoDup_elements|]. intros [r b] (x & Ex & _)%elem_of_elements%HX.
    destruct (proj1 (bank_at_some d r b Hs) (ex_intro _ x Ex)) as [Hr Hb].
    apply list_elem_of_In, in_prod; apply in_seq; lia. }
  unfold l in H. rewrite length_prod, !length_seq in H. nia.
Qed.

Lemma counted_room d r b : shape d -> counted d -> in_range r b -> ~ is_open d r b ->
  0 <= numBanksActive d /\ numBanksActive d + 1 <= banksPerRank P * ranksPerChannel P.
Proof.
  intros Hs (X & HX & ->) Hrb Ho. destruct Sa as [R1 R2 _].
  set (l := list_prod (seq 0 (Z.to_nat (ranksPerChannel P))) (seq 0 (Z.to_nat (banksPerRank P)))).
  assert (forall r b, in_range r b -> (r, b) ∈ l) as Hl.
  { intros r' b' [Hr Hb]. apply list_elem_of_In, in_prod; apply in_seq; lia. }
  assert (length ((r, b) :: elements X) <= length l)%nat as H.
  { apply submseteq_length, NoDup_submseteq.
    - constructor; [|apply NoDup_elements]. intros Hi%elem_of_elements%HX. done.
    - intros [r' b'] [[= -> ->]|(x & Ex & _)%elem_of_elements%HX]%elem_of_cons; apply Hl; [done|].
      apply (bank_at_some d); [done|by exists x]. }
  unfold l in H. rewrite length_prod, !length_seq in H. cbn [length] in H. unfold size, set_size. cbn. nia.
Qed.

(** ** The relation with the device *)

(** Over by the present, by the moment of the precharge event, or by the end of the
    precharge that some open row still has to have. *)
Definition settled (now : Z) (d : Dram) (z : Z) : Prop :=
  z <= now \/ (exists T, when_ Precharge d = Some T /\ z <= T) \/
  (exists r b x, bank_at d r b = Some x /\ openRow x <> NO_ROW /\ z <= preAllowedAt x + tRP P).

Lemma dev_set_at r b x v r' b' : dv_bank (dev_set r b x v) r' b' = if decide (r' = r /\ b' = b) then x else dv_bank v r' b'.
Proof. done. Qed.

(** What is planned in [d] is in [d'], or later. *)
Record later (now : Z) (d : Dram) (now' : Z) (d' : Dram) : Prop := {
  la_now : now <= now';
  la_event : forall T, when_ Precharge d = Some T -> settled now' d' T;
  la_open : forall r b x, bank_at d r b = Some x -> openRow x <> NO_ROW -> settled now' d' (preAllowedAt x + tRP P)
}.

Lemma later_refl now d : later now d now d.
Proof.
  constructor; [lia|intros T HT; right; left; exists T; split; [done|lia]|].
  intros r b x Ex Ho. right; right. exists r, b, x. split; [done|]. split; [done|lia].
Qed.

Lemma settled_le now d z z' : settled now d z -> z' <= z -> settled now d z'.
Proof.
  intros [H|[(T & E & H)|(r & b & x & E & O & H)]] Hz; [left; lia|right; left; exists T; split; [done|lia]|].
  right; right. exists r, b, x. split; [done|]. split; [done|lia].
Qed.

Lemma settled_later now d now' d' z : later now d now' d' -> settled now d z -> settled now' d' z.
Proof.
  intros [L1 L2 L3] [H|[(T & E & H)|(r & b & x & E & O & H)]]; [left; lia| |].
  - eapply settled_le; [by apply L2|done].
  - eapply settled_le; [by eapply L3|done].
Qed.

(** How far ahead the plans go, from [U] on. *)
Record bounded (U : Z) (d : Dram) : Prop := {
  bo_bank : forall r b x, bank_at d r b = Some x ->
    colAllowedAt x <= U + Cc P /\ preAllowedAt x <= U + Cp P /\ actAllowedAt x <= U + Ca P;
  bo_event : forall T, when_ Precharge d = Some T -> T <= U + Cp P + tRP P
}.

Record bank_rel (v : Dev) (r b : nat) (x : Bank) : Prop := {
  br_nonneg : 0 <= colAllowedAt x /\ 0 <= preAllowedAt x /\ 0 <= actAllowedAt x;
  br_group : bankgr x = group P b;
  br_open : dv_open (dv_bank v r b) = negb (openRow x =? NO_ROW);
  br_row : openRow x <> NO_ROW -> dv_row (dv_bank v r b) = openRow x /\ dv_lim (dv_bank v r b) <= preAllowedAt x;
  br_rcd : since (dv_act (dv_bank v r b)) (tRCD P) (colAllowedAt x);
  br_cas : forall r' b', since (dv_cas (dv_bank v r' b')) (ccd P r' b' r b) (colAllowedAt x);
  br_pre : since (dv_pre (dv_bank v r b)) (tRP P) (actAllowedAt x);
  br_ref : since (dv_ref (dv_bank v r b)) (tRFC P) (actAllowedAt x);
  br_rrd : forall b', since (dv_act (dv_bank v r b')) (rrd P b' b) (actAllowedAt x);
  br_acts : forall a, a ∈ dv_acts v r -> a <= actAllowedAt x;
  br_win : window_ok P (dv_acts v r) (actAllowedAt x)
}.

(** The times of the last activations of a rank. *)
Definition ticks_of (v : Dev) (r : nat) : list Z :=
  let n := Z.to_nat (activationLimit P) in take n (dv_acts v r ++ replicate n 0).

Record banks_inv (now : Z) (d : Dram) (v : Dev) : Prop := {
  bi_shape : shape d;
  bi_count : counted d;
  bi_rel : forall r b x, bank_at d r b = Some x -> bank_rel v r b x;
  bi_out : forall r b, bank_at d r b = None -> dv_open (dv_bank v r b) = false;
  bi_ticks : forall r ticks, actTicks d !! r = Some ticks -> ticks = ticks_of v r;
  bi_acts : forall r b a, dv_act (dv_bank v r b) = Some a -> a ∈ dv_acts v r;
  bi_act_over : forall r a, a ∈ dv_acts v r -> 0 <= a /\ settled now d (a + tRAS P + tRP P);
  bi_pre_over : forall r b p, dv_pre (dv_bank v r b) = Some p -> settled now d (p + tRP P);
  bi_activate : forall A, when_ Activate d = Some A -> settled now d (A + tRAS P + tRP P);
  bi_events : ev_ok now (events d)
}.

(** Every bank can be activated when what is planned is over. *)
Definition acts_over (now : Z) (d : Dram) : Prop := forall r b x, bank_at d r b = Some x -> settled now d (actAllowedAt x).

(** The parameters are small: their sums do not wrap. *)
Lemma parts_nonneg : 0 <= S1 P /\ 0 <= Cc P /\ 0 <= Cp P /\ 0 <= Ca P.
Proof. destruct Sa. clear sa_total sa_limit sa_refi sa_small. unfold Ca, S1, Cc, Cp. lia. Qed.

Lemma delay_small : S1 P + Cc P + Cp P + Ca P < 2 ^ 58 /\
  S1 P + Cc P + Cp P + Ca P + tWTR P + tRTW P + tCL P + tRCD P + tBURST P + tRP P + tRFC P < 2 ^ 58.
Proof.
  pose proof parts_nonneg. pose proof (sa_refi P Sa) as HD. pose proof (sa_small P Sa) as HS. rewrite delay_eq in HD.
  pose proof (sa_wtr P Sa). pose proof (sa_rtw P Sa). pose proof (sa_cl P Sa). pose proof (sa_rcd P Sa).
  pose proof (sa_burst P Sa). pose proof (sa_rp P Sa). pose proof (sa_rfc P Sa). lia.
Qed.

Lemma params_small : tRAS P <= Cp P /\ tRTP P <= Cp P /\ tWR P <= Cp P /\ Cp P + tRP P <= Ca P /\ tRRD P <= Ca P /\ tRRD_L P <= Ca P /\
  tXAW P <= Ca P /\ tRFC P <= Ca P /\ tCCD_L P <= Cc P /\ tBURST P + tCS P <= Cc P /\ tBURST P <= Cc P /\ tRCD P <= S1 P /\ tRP P <= S1 P /\ tCL P <= S1 P.
Proof. destruct Sa. clear sa_total sa_limit sa_refi sa_small. unfold Ca, Cc, Cp, S1. lia. Qed.

(** ** The activation window *)
Lemma last_padded n (l : list Z) : (0 < n)%nat -> last (take n (l ++ replicate n 0)) = Some (default 0 (l !! pred n)).
Proof.
  intros Hn. rewrite last_lookup, length_take, length_app, length_replicate, Nat.min_l by lia.
  rewrite lookup_take, decide_True by lia. destruct (l !! pred n) as [a|] eqn:E.
  - by rewrite lookup_app_l by (by eapply lookup_lt_Some).
  - apply lookup_ge_None in E. rewrite lookup_app_r by done. cbn. apply lookup_replicate. split; [done|lia].
Qed.

Lemma push_padded n t (l : list Z) : (0 < n)%nat -> t :: removelast (take n (l ++ replicate n 0)) = take n ((t :: l) ++ replicate n 0).
Proof.
  intros Hn. destruct n as [|n]; [lia|]. rewrite removelast_firstn by (rewrite length_app, length_replicate; lia). done.
Qed.

Lemma max_act w x : w <= actAllowedAt x -> x <| actAllowedAt := Z.max w (actAllowedAt x) |> = x.
Proof. intros H. destruct x. cbn in *. by rewrite Z.max_r. Qed.

Lemma window_run t r d v : actTicks d !! r = Some (ticks_of v r) -> 0 <= t < 2 ^ 62 ->
  (forall a, a ∈ dv_acts v r -> 0 <= a <= t) -> window_ok P (dv_acts v r) t ->
  (forall b x, bank_at d r b = Some x -> 0 <= actAllowedAt x) ->
  exists d' w, window P t r d = Ok d' /\ 0 <= w <= t + tXAW P /\
    (forall r' b, bank_at d' r' b =
       if decide (r' = r) then (fun x => x <| actAllowedAt := Z.max w (actAllowedAt x) |>) <$> bank_at d r b else bank_at d r' b) /\
    actTicks d' = <[r := take (Z.to_nat (activationLimit P)) ((t :: dv_acts v r) ++ replicate (Z.to_nat (activationLimit P)) 0)]> (actTicks d) /\
    (forall z, w <= z -> t <= z -> window_ok P (t :: dv_acts v r) z) /\ (shape d -> shape d') /\
    numBanksActive d' = numBanksActive d /\ cmdList d' = cmdList d /\ events d' = events d /\ rest_of d' = rest_of d.
Proof.
  intros Et Ht Ha Hw Hn. pose proof (sa_limit P Sa) as HL. pose proof (sa_xaw P Sa) as HX.
  pose proof params_small as HP. pose proof delay_small as HD. pose proof parts_nonneg as HN. unfold window. rewrite Et. cbn [deref mbind res_bind].
  assert (forall b, (fun x => x <| actAllowedAt := Z.max 0 (actAllowedAt x) |>) <$> bank_at d r b = bank_at d r b) as Hid.
  { intros b. destruct (bank_at d r b) as [x|] eqn:E; [|done]. cbn. f_equal. pose proof (Hn b x E). by apply max_act. }
  set (n := Z.to_nat (activationLimit P)) in *. unfold ticks_of. fold n. destruct (decide (n = O)) as [E0|Hpos].
  { rewrite E0. cbn [take]. exists d, 0. split; [done|]. split; [lia|]. split; [intros r' b; case_decide; [subst; by rewrite Hid|done]|].
    unfold ticks_of in Et. fold n in Et. rewrite E0 in Et. split; [symmetry; by apply list_insert_id|]. split; [|done].
    intros z _ _. unfold window_ok. case_match; [left; unfold n in E0; lia|done]. }
  assert (0 < n)%nat as Hn0 by lia. assert (activationLimit P <> 0) as HL0 by lia. pose proof (last_padded n (dv_acts v r) Hn0) as El.
  destruct (take n (dv_acts v r ++ replicate n 0)) as [|t0 ticks] eqn:Etk; [done|]. rewrite <- Etk in *. rewrite El. cbn [deref mbind res_bind].
  rewrite push_padded by done. rewrite (last_padded n (t :: dv_acts v r) Hn0). cbn [deref mbind res_bind].
  assert (forall l : list Z, (forall a, a ∈ l -> 0 <= a <= t) -> 0 <= default 0 (l !! pred n) <= t) as Hr.
  { intros l H. destruct (l !! pred n) as [a|] eqn:E; cbn; [|lia]. by eapply H, list_elem_of_lookup_2. }
  pose proof (Hr _ Ha) as R1. assert (0 <= default 0 ((t :: dv_acts v r) !! pred n) <= t) as R2.
  { apply Hr. intros a [->|H]%elem_of_cons; [lia|by apply Ha]. }
  set (o1 := default 0 (dv_acts v r !! pred n)) in *. set (o2 := default 0 ((t :: dv_acts v r) !! pred n)) in *.
  rewrite !u64_small by lia. unfold tadd. rewrite u64_small by lia.
  assert (negb (o1 =? 0) && (t - o1 <? tXAW P) = false) as ->.
  { unfold window_ok in Hw. fold n in Hw. unfold o1. destruct (dv_acts v r !! pred n); cbn; [|done].
    destruct (Z.eqb_spec z 0); cbn; [done|]. apply Z.ltb_ge. lia. }
  assert (forall w z, (negb (o2 =? 0) && (t - o2 <? tXAW P) = true -> o2 + tXAW P <= w) -> w <= z -> t <= z -> window_ok P (t :: dv_acts v r) z) as Hwin.
  { intros w z H Hz1 Hz2. unfold window_ok. fold n. unfold o2 in H. destruct ((t :: dv_acts v r) !! pred n) as [a|]; cbn in H; [|done]. right.
    destruct (Z.eqb_spec a 0); [by left|right]. destruct (Z.ltb_spec (t - a) (tXAW P)); [specialize (H eq_refl); lia|lia]. }
  case_if.
  - eexists _, (o2 + tXAW P). split; [done|]. split; [lia|]. split; [|split; [done|split; [|split; [|done]]]].
    + intros r' b. rewrite bank_at_rank. by case_decide; [subst|].
    + intros z. by apply Hwin.
    + intros [H1 H2 H3]. apply shape_rank. constructor; cbn; [done..|by rewrite length_insert].
  - eexists _, 0. split; [done|]. split; [lia|]. split; [|split; [done|split; [|split; [|done]]]].
    + intros r' b. case_decide; [subst; by rewrite Hid|done].
    + intros z. by apply Hwin.
    + intros [H1 H2 H3]. constructor; cbn; [done..|by rewrite length_insert].
Qed.


(** ** Activation *)

(** What becomes of a bank [b'] of the rank in which [b] is activated. *)
Definition act_bank (b : nat) (t row w : Z) (b' : nat) (y : Bank) : Bank :=
  (if decide (b' = b)
   then y <| openRow := row |> <| bytesAccessed := 0 |> <| rowAccesses := 0 |> <| preAllowedAt := t + tRAS P |>
          <| colAllowedAt := Z.max (t + tRCD P) (colAllowedAt y) |>
   else y) <| actAllowedAt := Z.max w (Z.max (t + rrd P b b') (actAllowedAt y)) |>.

Record act_eqs (d d' : Dram) (r b : nat) (t row w : Z) (acts : list Z) : Prop := {
  ae_bank : forall r' b', bank_at d' r' b' = if decide (r' = r) then act_bank b t row w b' <$> bank_at d r b' else bank_at d r' b';
  ae_ticks : actTicks d' = <[r := take (Z.to_nat (activationLimit P)) ((t :: acts) ++ replicate (Z.to_nat (activationLimit P)) 0)]> (actTicks d);
  ae_shape : shape d';
  ae_num : numBanksActive d' = numBanksActive d + 1;
  ae_cmd : cmdList d' = mkCmd (ACT row) r b t :: cmdList d;
  ae_rest : rest_of d' = rest_of d;
  ae_events : (exists A, when_ Activate d = Some A /\ A <= t /\ events d' = events d) \/
              ((forall A, when_ Activate d = Some A -> t < A) /\ moved Activate t (events d) (events d'))
}.

Lemma ticks_at d v r b x : banks_inv 0 d v \/ (exists now, banks_inv now d v) -> bank_at d r b = Some x -> actTicks d !! r = Some (ticks_of v r).
Proof.
  intros H Hx. assert (exists now, banks_inv now d v) as (now & B) by (destruct H; eauto).
  destruct (proj1 (bank_at_some d r b (bi_shape _ _ _ B)) (ex_intro _ x Hx)) as [Hr _].
  rewrite <- (sh_ticks d (bi_shape _ _ _ B)) in Hr. destruct (lookup_lt_is_Some_2 _ _ Hr) as [ticks E].
  rewrite E. f_equal. by eapply bi_ticks.
Qed.

Lemma window_mono acts t t' : window_ok P acts t -> t <= t' -> window_ok P acts t'.
Proof. unfold window_ok. intros H Ht. case_match; [|done]. lia. Qed.

Lemma activate_run now d v r b x row t : banks_inv now d v -> bank_at d r b = Some x -> openRow x = NO_ROW ->
  actAllowedAt x <= t -> now <= t -> 0 <= t < 2 ^ 62 ->
  exists d' w, activateBank P now r b t row d = Ok d' /\ act_eqs d d' r b t row w (dv_acts v r) /\ 0 <= w <= t + tXAW P /\
    (forall z, w <= z -> t <= z -> window_ok P (t :: dv_acts v r) z).
Proof.
  intros B Hx Ho Hat Hnow Ht. pose proof (ticks_at d v r b x (or_intror (ex_intro _ now B)) Hx) as Et.
  pose proof params_small as PS. pose proof delay_small as [DS _]. pose proof parts_nonneg as PN.
  pose proof (sa_ras P Sa) as H1. pose proof (sa_rcd P Sa) as H2. pose proof (sa_rrd P Sa) as H3. pose proof (sa_rrd_l P Sa) as H4.
  pose proof (bi_rel _ _ _ B r b x Hx) as R. unfold activateBank. rewrite Et. cbn [deref mbind res_bind]. unfold assert_ at 1.
  assert ((Z.of_nat (length (ticks_of v r)) =? activationLimit P) = true) as ->.
  { unfold ticks_of. rewrite length_take, length_app, length_replicate. pose proof (sa_limit P Sa). apply Z.eqb_eq. lia. }
  cbn [mbind res_bind]. rewrite (get_bank_at d r b x Hx). cbn [mbind res_bind]. unfold assert_ at 1. rewrite Ho, Z.eqb_refl. cbn [mbind res_bind].
  pose proof (sa_total P Sa) as Htot.
  assert (in_range r b) as Hrb by (apply (bank_at_some d); [apply B|by exists x]).
  assert (~ is_open d r b) as Hno by (intros (x' & Ex & Hx'); congruence).
  destruct (counted_room d r b (bi_shape _ _ _ B) (bi_count _ _ _ B) Hrb Hno) as [Hc0 Hc1].
  assert (u32 (numBanksActive d + 1) = numBanksActive d + 1) as -> by (apply wrap_id; unfold inw; nia).
  assert (u32 (banksPerRank P * ranksPerChannel P) = banksPerRank P * ranksPerChannel P) as -> by (apply wrap_id; unfold inw; nia).
  unfold assert_ at 1. rewrite (proj2 (Z.leb_le _ _)) by lia. cbn [mbind res_bind].
  set (xa := x <| openRow := row |> <| bytesAccessed := 0 |> <| rowAccesses := 0 |> <| preAllowedAt := tadd t (tRAS P) |>
               <| colAllowedAt := Z.max (tadd t (tRCD P)) (colAllowedAt x) |>).
  set (f := fun y : Bank => y <| actAllowedAt := _ |>). set (d1 := set_rank r f _).
  assert (forall r' b', bank_at d1 r' b' = if decide (r' = r)
    then (fun y => (if decide (b' = b) then xa else y) <| actAllowedAt := Z.max (t + rrd P b b') (actAllowedAt y) |>) <$> bank_at d r b'
    else bank_at d r' b') as E1.
  { intros r' b'. unfold d1. rewrite bank_at_rank, bank_at_issue, bank_at_set, bank_at_num. case_decide as Er; [subst r'|by rewrite decide_False by tauto].
    assert (forall y, bankgr y = group P b' -> f y = y <| actAllowedAt := Z.max (t + rrd P b b') (actAllowedAt y) |>) as Ef.
    { intros y Hy. unfold f, same_group, rrd, grouped, tadd. change (bankgr xa) with (bankgr x). rewrite Hy, (br_group _ _ _ _ R).
      by rewrite u64_small by (case_if; lia). }
    destruct (decide (b' = b)) as [->|Hb]; [rewrite decide_True by done|rewrite decide_False by tauto].
    - rewrite Hx. cbn [fmap option_fmap option_map]. f_equal. apply (Ef xa). change (bankgr x = group P b). apply R.
    - destruct (bank_at d r b') as [y|] eqn:Ey; [|done]. cbn [fmap option_fmap option_map]. f_equal. apply Ef.
      apply (br_group _ _ _ _ (bi_rel _ _ _ B r b' y Ey)). }
  destruct (window_run t r d1 v) as (d2 & w & -> & Hw & Eb & Etk & Hwin & Hsh & En & Ec & Ee & Er).
  { exact Et. } { done. }
  { intros a Ha. split; [by eapply bi_act_over|]. pose proof (br_acts _ _ _ _ R a Ha). lia. }
  { eapply window_mono; [apply R|done]. }
  { intros b' y Ey. rewrite E1, decide_True in Ey by done. apply fmap_Some in Ey as (y' & Ey' & ->).
    pose proof (br_nonneg _ _ _ _ (bi_rel _ _ _ B _ _ _ Ey')). cbn. lia. }
  cbn [mbind res_bind].
  assert (forall d', banks d' = banks d2 -> actTicks d' = actTicks d2 -> numBanksActive d' = numBanksActive d2 -> cmdList d' = cmdList d2 ->
    rest_of d' = rest_of d2 ->
    (exists A, when_ Activate d = Some A /\ A <= t /\ events d' = events d) \/
      ((forall A, when_ Activate d = Some A -> t < A) /\ moved Activate t (events d) (events d')) ->
    act_eqs d d' r b t row w (dv_acts v r)) as G.
  { intros d' G1 G2 G3 G4 G5 G6. constructor.
    - intros r' b'. transitivity (bank_at d2 r' b'); [unfold bank_at; by rewrite G1|]. rewrite Eb, !E1.
      case_decide as Er'; [|done]. rewrite decide_True by done. rewrite <- option_fmap_compose. destruct (bank_at d r b') as [y|] eqn:Ey; [|done].
      cbn. f_equal. unfold act_bank. case_decide as Eb'; [|done]. subst b'. rewrite Hx in Ey. injection Ey as <-.
      unfold xa, tadd. by rewrite !u64_small by lia.
    - by rewrite G2, Etk.
    - destruct (shape_rank _ r f (shape_set d r b (fun _ => xa) (bi_shape _ _ _ B))) as [T1 T2 T3].
      destruct (Hsh (Build_shape d1 T1 T2 T3)) as [S1' S2' S3']. constructor; congruence.
    - by rewrite G3, En.
    - by rewrite G4, Ec.
    - by rewrite G5, Er.
    - done. }
  assert (when_ Activate d2 = when_ Activate d) as Ew by (unfold when_; by rewrite Ee).
  destruct (when_ Activate d) as [A|] eqn:EA; rewrite Ew.
  - case_if; bool_prop.
    + erewrite resched_ok by done. eexists _, w. split; [done|]. split; [|done]. apply G; try done. right.
      split; [by intros A' [= <-]|]. unfold moved. cbn. by rewrite Ee.
    + exists d2, w. split; [done|]. split; [|done]. apply G; try done. left. exists A. split; [done|]. split; [lia|done].
  - rewrite sched_ok by done. eexists _, w. split; [done|]. split; [|done]. apply G; try done. right.
    split; [done|]. unfold moved. cbn. rewrite Ee. by rewrite ev_remove_none.
Qed.

Lemma since_mono o z t t' : since o z t -> t <= t' -> since o z t'.
Proof. destruct o; cbn; [lia|done]. Qed.

(** The device after the activation. *)
Definition dev_act (r b : nat) (row t : Z) (v : Dev) : Dev :=
  dev_set r b ((dv_bank v r b) <| dv_open := true |> <| dv_row := row |> <| dv_act := Some t |> <| dv_lim := t + tRAS P |>) v
    <| dv_acts := fun r' => if decide (r' = r) then t :: dv_acts v r else dv_acts v r' |>.

Lemma act_bank_rel v r b row t w x b' y : openRow x = NO_ROW -> row <> NO_ROW -> bank_rel v r b x -> bank_rel v r b' y -> (b' = b -> y = x) ->
  0 <= t -> actAllowedAt x <= t -> 0 <= w -> (forall z, w <= z -> t <= z -> window_ok P (t :: dv_acts v r) z) ->
  bank_rel (dev_act r b row t v) r b' (act_bank b t row w b' y).
Proof.
  intros Ho Hrow Rx Ry Hyx Ht Hat Hw Hwin. pose proof (sa_ras P Sa) as H1. pose proof (sa_rcd P Sa) as H2.
  pose proof (sa_rrd P Sa) as H3. pose proof (sa_rrd_l P Sa) as H4.
  assert (0 <= rrd P b b') as Hrr by (unfold rrd; case_if; lia).
  pose proof (br_nonneg _ _ _ _ Ry) as (N1 & N2 & N3).
  assert (actAllowedAt (act_bank b t row w b' y) = Z.max w (Z.max (t + rrd P b b') (actAllowedAt y))) as Ea by (unfold act_bank; by case_decide).
  assert (colAllowedAt y <= colAllowedAt (act_bank b t row w b' y)) as Ec by (unfold act_bank; case_decide; cbn; lia).
  assert (forall r' b'', dv_cas (dv_bank (dev_act r b row t v) r' b'') = dv_cas (dv_bank v r' b'')) as Ecas.
  { intros r' b''. cbn. case_decide as E; [destruct E as [-> ->]|]; done. }
  constructor.
  - rewrite Ea. unfold act_bank. case_decide; cbn; lia.
  - rewrite <- (br_group _ _ _ _ Ry). unfold act_bank. by case_decide.
  - unfold act_bank. cbn. destruct (decide (b' = b)) as [->|Hb].
    + rewrite decide_True by done. cbn. by rewrite (proj2 (Z.eqb_neq _ _)).
    + rewrite decide_False by tauto. apply Ry.
  - unfold act_bank. cbn. destruct (decide (b' = b)) as [->|Hb].
    + rewrite decide_True by done. cbn. intros _. split; [done|lia].
    + rewrite decide_False by tauto. apply Ry.
  - unfold act_bank. cbn. destruct (decide (b' = b)) as [->|Hb].
    + rewrite decide_True by done. cbn. lia.
    + rewrite decide_False by tauto. apply Ry.
  - intros r' b''. rewrite Ecas. eapply since_mono; [apply Ry|done].
  - rewrite Ea. cbn. assert (dv_pre (if decide (r = r /\ b' = b) then _ else dv_bank v r b') = dv_pre (dv_bank v r b')) as ->.
    { case_decide as E; [destruct E as [_ ->]|]; done. }
    eapply since_mono; [apply Ry|lia].
  - rewrite Ea. cbn. assert (dv_ref (if decide (r = r /\ b' = b) then _ else dv_bank v r b') = dv_ref (dv_bank v r b')) as ->.
    { case_decide as E; [destruct E as [_ ->]|]; done. }
    eapply since_mono; [apply Ry|lia].
  - intros b''. rewrite Ea. cbn. case_decide as E; [destruct E as [_ ->]; cbn; lia|]. eapply since_mono; [apply Ry|lia].
  - rewrite Ea. cbn. rewrite decide_True by done. intros a [->|Hin]%elem_of_cons; [lia|]. pose proof (br_acts _ _ _ _ Ry a Hin). lia.
  - rewrite Ea. cbn. rewrite decide_True by done. apply Hwin; lia.
Qed.

(** The events after an activation at [t]. *)
Definition act_events (t : Z) (d d' : Dram) : Prop :=
  (exists A, when_ Activate d = Some A /\ A <= t /\ events d' = events d) \/
  ((forall A, when_ Activate d = Some A -> t < A) /\ moved Activate t (events d) (events d')).

Lemma act_events_when t d d' : act_events t d d' -> (forall e, e <> Activate -> when_ e d' = when_ e d) /\
  exists A, when_ Activate d' = Some A /\ A <= t /\ (A = t \/ when_ Activate d = Some A).
Proof.
  intros [(A & EA & HA & Ee)|[HA M]].
  - unfold when_ in *. rewrite Ee. split; [done|]. exists A. auto.
  - split; [intros e He; unfold when_; by rewrite (moved_when_ne _ _ _ _ _ M)|]. exists t. split; [exact (moved_when _ _ _ _ M)|]. split; [lia|by left].
Qed.

Lemma act_bank_open b t row w b' y : row <> NO_ROW -> openRow (act_bank b t row w b' y) <> NO_ROW <-> openRow y <> NO_ROW \/ b' = b.
Proof. intros Hrow. unfold act_bank. case_decide; cbn; tauto. Qed.

Lemma act_eqs_open d d' r b t row w acts x : act_eqs d d' r b t row w acts -> bank_at d r b = Some x -> row <> NO_ROW ->
  forall r' b', is_open d' r' b' <-> is_open d r' b' \/ (r' = r /\ b' = b).
Proof.
  intros E Hx Hrow r' b'. unfold is_open. rewrite (ae_bank _ _ _ _ _ _ _ _ E). case_decide as Er; [subst r'|split; [by left|intros [H|[]]; done]].
  split.
  - intros (y' & (y & Ey & ->)%fmap_Some & Ho). apply act_bank_open in Ho as [Ho| ->]; [left; by exists y|by right|done].
  - intros [(y & Ey & Ho)|[_ ->]].
    + rewrite Ey. eexists. split; [done|]. apply act_bank_open; [done|by left].
    + rewrite Hx. eexists. split; [done|]. apply act_bank_open; [done|by right].
Qed.

(** What was planned before an activation still is. *)
Lemma act_later now d d' r b t row w acts x : act_eqs d d' r b t row w acts -> bank_at d r b = Some x -> openRow x = NO_ROW -> row <> NO_ROW ->
  later now d now d'.
Proof.
  intros E Hx Ho Hrow. destruct (act_events_when _ _ _ (ae_events _ _ _ _ _ _ _ _ E)) as [Ew _]. constructor; [done| |].
  - intros T HT. right; left. exists T. split; [by rewrite Ew|done].
  - intros r' b' y Ey Hy. right; right. exists r', b'. rewrite (ae_bank _ _ _ _ _ _ _ _ E). case_decide as Er; [subst r'|by exists y].
    rewrite Ey. eexists. split; [done|]. unfold act_bank. case_decide as Eb; [subst b'; congruence|]. cbn. done.
Qed.

Lemma activate_inv now d d' v r b x row t w : banks_inv now d v -> bank_at d r b = Some x -> openRow x = NO_ROW -> row <> NO_ROW ->
  actAllowedAt x <= t -> now <= t -> 0 <= t -> act_eqs d d' r b t row w (dv_acts v r) -> 0 <= w ->
  (forall z, w <= z -> t <= z -> window_ok P (t :: dv_acts v r) z) -> banks_inv now d' (dev_act r b row t v).
Proof.
  intros B Hx Ho Hrow Hat Hnow Ht E Hw Hwin. pose proof (bi_rel _ _ _ B _ _ _ Hx) as R. pose proof (sa_rp P Sa) as Hrp.
  pose proof (act_later now _ _ _ _ _ _ _ _ _ E Hx Ho Hrow) as L. destruct (act_events_when _ _ _ (ae_events _ _ _ _ _ _ _ _ E)) as [Ew (A & EA & HA1 & HA2)].
  assert (settled now d' (t + tRAS P + tRP P)) as St.
  { right; right. exists r, b. rewrite (ae_bank _ _ _ _ _ _ _ _ E), decide_True, Hx by done. eexists. split; [done|].
    split; [apply act_bank_open; [done|by right]|]. unfold act_bank. rewrite decide_True by done. cbn. lia. }
  constructor.
  - apply E.
  - eapply (counted_more d d' r b); [apply B| |apply E|by eapply act_eqs_open]. intros (x' & Ex & Hx'). congruence.
  - intros r' b' y' Ey. rewrite (ae_bank _ _ _ _ _ _ _ _ E) in Ey. case_decide as Er; [subst r'|].
    + apply fmap_Some in Ey as (y & Ey & ->). eapply (act_bank_rel v r b row t w x b' y); try done; [by apply B|]. intros ->. congruence.
    + pose proof (bi_rel _ _ _ B _ _ _ Ey) as [N1 N2 N3 N4 N5 N6 N7 N8 N9 N10 N11].
      assert (forall b0, dv_bank (dev_act r b row t v) r' b0 = dv_bank v r' b0) as Ed by (intros b0; cbn; by rewrite decide_False by tauto).
      assert (dv_acts (dev_act r b row t v) r' = dv_acts v r') as Ea by (cbn; by rewrite decide_False).
      constructor; rewrite ?Ed, ?Ea; try done; [|intros b0; by rewrite Ed]. intros r0 b0. cbn. case_decide as E0; [destruct E0 as [-> ->]; apply N6|apply N6].
  - intros r' b' Ey. rewrite (ae_bank _ _ _ _ _ _ _ _ E) in Ey. cbn. rewrite decide_False.
    + apply B. case_decide as Er; [subst r'; by apply fmap_None in Ey|done].
    + intros [-> ->]. rewrite decide_True, Hx in Ey by done. done.
  - intros r' ticks Et. rewrite (ae_ticks _ _ _ _ _ _ _ _ E) in Et. unfold ticks_of. cbn. case_decide as Er; [subst r'|].
    + rewrite list_lookup_insert_eq in Et; [congruence|]. rewrite (sh_ticks d (bi_shape _ _ _ B)).
      apply (bank_at_some d r b (bi_shape _ _ _ B)). by exists x.
    + rewrite list_lookup_insert_ne in Et by done. by eapply bi_ticks.
  - intros r' b' a. cbn. destruct (decide (r' = r /\ b' = b)) as [[-> ->]|Hne]; cbn.
    + intros [= <-]. rewrite decide_True by done. by left.
    + intros Ha. apply (bi_acts _ _ _ B) in Ha. case_decide; [subst r'; by right|done].
  - intros r' a Ha. assert (a ∈ dv_acts v r' \/ a = t) as [Hin| ->] by (cbn in Ha; case_decide; [subst; apply elem_of_cons in Ha; tauto|by left]).
    + destruct (bi_act_over _ _ _ B r' a Hin) as [Ha0 Hs]. split; [done|by eapply settled_later].
    + done.
  - intros r' b' p. cbn. intros Hp. eapply settled_later; [done|]. eapply (bi_pre_over _ _ _ B r' b').
    case_decide as E0; [destruct E0 as [-> ->]|]; done.
  - intros A' HA'. rewrite EA in HA'. injection HA' as <-. destruct HA2 as [-> |HA2]; [done|]. eapply settled_later; [done|by apply B].
  - destruct (ae_events _ _ _ _ _ _ _ _ E) as [(A' & _ & _ & ->)|[_ M]]; [apply B|eapply moved_ok; [done|apply B|done]].
Qed.

Lemma activate_step now d v r b x row t : banks_inv now d v -> bank_at d r b = Some x -> openRow x = NO_ROW -> actAllowedAt x <= t ->
  dev_step P v (mkCmd (ACT row) r b t) (dev_act r b row t v).
Proof.
  intros B Hx Ho Hat. pose proof (bi_rel _ _ _ B _ _ _ Hx) as R. constructor; cbv zeta.
  - rewrite (br_open _ _ _ _ R), Ho. by rewrite Z.eqb_refl.
  - eapply since_mono; [apply R|done].
  - eapply since_mono; [apply R|done].
  - intros b'. eapply since_mono; [apply R|done].
  - eapply window_mono; [apply R|done].
Qed.

Lemma later_trans now d d1 d' : later now d now d1 -> later now d1 now d' -> later now d now d'.
Proof.
  intros [L1 L2 L3] L. constructor; [done| |].
  - intros T HT. eapply settled_later; [exact L|by apply L2].
  - intros r b x Ex Ho. eapply settled_later; [exact L|by eapply L3].
Qed.

Lemma bounded_mono U U' d : bounded U d -> U <= U' -> bounded U' d.
Proof.
  intros [H1 H2] HU. constructor; [intros r b x Ex; pose proof (H1 r b x Ex); lia|intros T HT; pose proof (H2 T HT); lia].
Qed.

Lemma activate_bounded d d' v r b t row w U : act_eqs d d' r b t row w (dv_acts v r) -> bounded U d -> t <= U -> t + tRCD P <= U + Cc P ->
  w <= t + tXAW P -> bounded U d'.
Proof.
  intros E [H1 H2] Ht Hc Hw. pose proof params_small. destruct (act_events_when _ _ _ (ae_events _ _ _ _ _ _ _ _ E)) as [Ew _].
  constructor; [|intros T; rewrite Ew by done; apply H2]. intros r' b' y'. rewrite (ae_bank _ _ _ _ _ _ _ _ E).
  case_decide as Er; [subst r'|by apply H1]. intros (y & Ey & ->)%fmap_Some. pose proof (H1 _ _ _ Ey).
  assert (rrd P b b' <= Ca P) by (unfold rrd; case_if; lia). unfold act_bank. case_decide; cbn; lia.
Qed.

Lemma activate_over now d d' v r b t row w x : act_eqs d d' r b t row w (dv_acts v r) -> bank_at d r b = Some x -> openRow x = NO_ROW ->
  row <> NO_ROW -> w <= t + tXAW P -> acts_over now d -> acts_over now d'.
Proof.
  intros E Hx Ho Hrow Hw H r' b' y' Ey. rewrite (ae_bank _ _ _ _ _ _ _ _ E) in Ey. pose proof (sa_rrd P Sa). pose proof (sa_rrd_l P Sa).
  pose proof (sa_xaw P Sa). pose proof (act_later now _ _ _ _ _ _ _ _ _ E Hx Ho Hrow) as L.
  case_decide as Er; [subst r'|by eapply settled_later; [|eapply H]]. apply fmap_Some in Ey as (y & Ey & ->).
  assert (settled now d' (t + tRAS P + tRP P)) as St.
  { right; right. exists r, b. rewrite (ae_bank _ _ _ _ _ _ _ _ E), decide_True, Hx by done. eexists. split; [done|].
    split; [apply act_bank_open; [done|by right]|]. unfold act_bank. rewrite decide_True by done. cbn. lia. }
  assert (rrd P b b' <= tRAS P + tRP P) by (unfold rrd; case_if; lia).
  assert (actAllowedAt (act_bank b t row w b' y) = Z.max w (Z.max (t + rrd P b b') (actAllowedAt y))) as -> by (unfold act_bank; by case_decide).
  destruct (Z.le_ge_cases (actAllowedAt y) (t + tRAS P + tRP P)).
  - eapply settled_le; [exact St|lia].
  - eapply settled_le; [eapply settled_later; [exact L|by eapply H]|lia].
Qed.

(** ** Precharge *)

Record pre_eqs (d d' : Dram) (r b : nat) (t : Z) (trace : bool) : Prop := {
  pe_bank : forall r' b', bank_at d' r' b' = if decide (r' = r /\ b' = b)
    then (fun x => x <| openRow := NO_ROW |> <| preAllowedAt := t |> <| actAllowedAt := Z.max (actAllowedAt x) (t + tRP P) |>) <$> bank_at d r b
    else bank_at d r' b';
  pe_ticks : actTicks d' = actTicks d;
  pe_shape : shape d';
  pe_num : numBanksActive d' = numBanksActive d - 1;
  pe_cmd : cmdList d' = if trace then mkCmd PRE r b t :: cmdList d else cmdList d;
  pe_rest : rest_of d' = rest_of d;
  pe_events : (exists T, when_ Precharge d = Some T /\ t + tRP P <= T /\ events d' = events d) \/
              ((forall T, when_ Precharge d = Some T -> T < t + tRP P) /\ moved Precharge (t + tRP P) (events d) (events d'))
}.

Lemma precharge_run now d r b x t trace : shape d -> counted d -> bank_at d r b = Some x -> openRow x <> NO_ROW -> now <= t -> 0 <= t < 2 ^ 62 ->
  exists d', prechargeBank P now r b t trace d = Ok d' /\ pre_eqs d d' r b t trace.
Proof.
  intros Hsh Hc Hx Ho Hnow Ht. pose proof params_small as PS. pose proof delay_small as [DS _]. pose proof parts_nonneg as PN.
  pose proof (sa_rp P Sa) as Hrp. unfold prechargeBank. rewrite (get_bank_at d r b x Hx). cbn [mbind res_bind].
  rewrite (assert_ok (negb (openRow x =? NO_ROW))) by (by apply neqb). cbn [mbind res_bind].
  unfold tadd. rewrite u64_small by lia. set (d1 := set_bank r b _ d).
  assert (0 < numBanksActive d /\ numBanksActive d <= 64) as [Hn1 Hn2].
  { pose proof (counted_bound d Hsh Hc). pose proof (sa_total P Sa). split; [|lia].
    destruct (Z.eq_dec (numBanksActive d) 0) as [E|E]; [|lia]. exfalso. apply (proj1 (counted_zero d Hc) E r b). by exists x. }
  change (numBanksActive d1) with (numBanksActive d). rewrite (assert_ok (negb (numBanksActive d =? 0))) by (apply neqb; lia). cbn [mbind res_bind].
  unfold u32. rewrite wrap_id by (unfold inw; lia).
  set (d2 := if trace then _ else _).
  assert (banks d2 = banks d1 /\ actTicks d2 = actTicks d /\ numBanksActive d2 = numBanksActive d - 1 /\ rest_of d2 = rest_of d /\
    events d2 = events d /\ cmdList d2 = if trace then mkCmd PRE r b t :: cmdList d else cmdList d) as (D1 & D2 & D3 & D4 & D5 & D6)
    by (unfold d2; by destruct trace).
  assert (forall d', banks d' = banks d2 -> actTicks d' = actTicks d2 -> numBanksActive d' = numBanksActive d2 -> cmdList d' = cmdList d2 ->
    rest_of d' = rest_of d2 ->
    (exists T, when_ Precharge d = Some T /\ t + tRP P <= T /\ events d' = events d) \/
      ((forall T, when_ Precharge d = Some T -> T < t + tRP P) /\ moved Precharge (t + tRP P) (events d) (events d')) ->
    pre_eqs d d' r b t trace) as G.
  { intros d' G1 G2 G3 G4 G5 G6. constructor; try congruence.
    - intros r' b'. transitivity (bank_at d1 r' b'); [unfold bank_at; by rewrite G1, D1|]. unfold d1. rewrite bank_at_set.
      case_decide as E; [destruct E as [-> ->]|done]. by rewrite Hx.
    - destruct (shape_set d r b (fun _ => x <| openRow := NO_ROW |> <| preAllowedAt := t |> <| actAllowedAt := Z.max (actAllowedAt x) (t + tRP P) |>) Hsh) as [T1 T2 T3].
      constructor; [rewrite G1, D1; exact T1|rewrite G1, D1; exact T2|rewrite G2, D2; exact T3]. }
  assert (when_ Precharge d2 = when_ Precharge d) as Ew by (unfold when_; by rewrite D5).
  destruct (when_ Precharge d) as [T|] eqn:ET; rewrite Ew.
  - case_if; bool_prop.
    + erewrite resched_ok by (done || lia). eexists. split; [done|]. apply G; try done. right.
      split; [by intros T' [= <-]|]. unfold moved. cbn. by rewrite D5.
    + exists d2. split; [done|]. apply G; try done. left. exists T. split; [done|]. split; [lia|done].
  - rewrite sched_ok by (done || lia). eexists. split; [done|]. apply G; try done. right.
    split; [done|]. unfold moved. cbn. rewrite D5. by rewrite ev_remove_none.
Qed.

Definition dev_pre (r b : nat) (t : Z) (v : Dev) : Dev := dev_set r b ((dv_bank v r b) <| dv_open := false |> <| dv_pre := Some t |>) v.

Lemma pre_events_when d d' r b t trace : pre_eqs d d' r b t trace -> (forall e, e <> Precharge -> when_ e d' = when_ e d) /\
  exists T, when_ Precharge d' = Some T /\ t + tRP P <= T /\ (forall T', when_ Precharge d = Some T' -> T' <= T) /\
    (T = t + tRP P \/ when_ Precharge d = Some T).
Proof.
  intros E. destruct (pe_events _ _ _ _ _ _ E) as [(T & ET & HT & Ee)|[HT M]].
  - unfold when_ in *. rewrite Ee. split; [done|]. exists T. split; [done|]. split; [done|]. split; [intros T' [= <-]%(eq_trans (eq_sym ET)); lia|by right].
  - split; [intros e He; unfold when_; by rewrite (moved_when_ne _ _ _ _ _ M)|]. exists (t + tRP P).
    split; [exact (moved_when _ _ _ _ M)|]. split; [lia|]. split; [|by left]. intros T' ET'. pose proof (HT T' ET'). lia.
Qed.

Lemma pre_eqs_open d d' r b t trace : pre_eqs d d' r b t trace ->
  forall r' b', is_open d' r' b' <-> is_open d r' b' /\ ~ (r' = r /\ b' = b).
Proof.
  intros E r' b'. unfold is_open. rewrite (pe_bank _ _ _ _ _ _ E). case_decide as Er.
  - split; [|tauto]. destruct Er as [-> ->]. by intros (y & (y' & _ & ->)%fmap_Some & Ho).
  - tauto.
Qed.

Lemma pre_later now d d' r b t trace x : pre_eqs d d' r b t trace -> bank_at d r b = Some x -> preAllowedAt x <= t -> later now d now d'.
Proof.
  intros E Hx Hp. destruct (pre_events_when _ _ _ _ _ _ E) as [_ (T & ET & HT & HT' & _)]. constructor; [done| |].
  - intros T' HT0. right; left. exists T. split; [done|by apply HT'].
  - intros r' b' y Ey Hy. destruct (decide (r' = r /\ b' = b)) as [[-> ->]|Hne].
    + right; left. exists T. split; [done|]. rewrite Hx in Ey. injection Ey as <-. lia.
    + right; right. exists r', b', y. rewrite (pe_bank _ _ _ _ _ _ E), decide_False by done. done.
Qed.

Lemma precharge_inv now d d' v r b x t trace : banks_inv now d v -> bank_at d r b = Some x -> openRow x <> NO_ROW -> preAllowedAt x <= t ->
  now <= t -> 0 <= t -> pre_eqs d d' r b t trace -> banks_inv now d' (dev_pre r b t v).
Proof.
  intros B Hx Ho Hpt Hnow Ht E. pose proof (sa_rp P Sa) as Hrp. pose proof (pre_later now _ _ _ _ _ _ _ E Hx Hpt) as L.
  destruct (pre_events_when _ _ _ _ _ _ E) as [Ew (T & ET & HT & HT' & _)].
  assert (forall r' b', dv_act (dv_bank (dev_pre r b t v) r' b') = dv_act (dv_bank v r' b') /\ dv_cas (dv_bank (dev_pre r b t v) r' b') = dv_cas (dv_bank v r' b') /\
    dv_ref (dv_bank (dev_pre r b t v) r' b') = dv_ref (dv_bank v r' b')) as Ed.
  { intros r' b'. cbn. case_decide as E0; [destruct E0 as [-> ->]|]; done. }
  constructor.
  - apply E.
  - eapply (counted_less d d' r b); [apply B|by exists x|apply E|by eapply pre_eqs_open].
  - intros r' b' y' Ey. rewrite (pe_bank _ _ _ _ _ _ E) in Ey. destruct (Ed r' b') as (E1 & E2 & E3).
    destruct (decide (r' = r /\ b' = b)) as [[-> ->]|Hne].
    + rewrite Hx in Ey. injection Ey as <-. pose proof (bi_rel _ _ _ B _ _ _ Hx) as [N1 N2 N3 N4 N5 N6 N7 N8 N9 N10 N11].
      constructor; rewrite ?E1, ?E2, ?E3; try done.
      * cbn. lia.
      * cbn. by rewrite decide_True.
      * cbn. intros r0 b0. case_decide as E0; [destruct E0 as [-> ->]|]; apply N6.
      * cbn. rewrite decide_True by done. cbn. lia.
      * eapply since_mono; [exact N8|cbn; lia].
      * intros b0. rewrite (proj1 (Ed r b0)). eapply since_mono; [apply N9|cbn; lia].
      * intros a Ha. pose proof (N10 a Ha). cbn. lia.
      * eapply window_mono; [exact N11|cbn; lia].
    + pose proof (bi_rel _ _ _ B _ _ _ Ey) as [N1 N2 N3 N4 N5 N6 N7 N8 N9 N10 N11].
      assert (dv_bank (dev_pre r b t v) r' b' = dv_bank v r' b') as Eb by (cbn; by rewrite decide_False).
      constructor; rewrite ?Eb; try done.
      * intros r0 b0. rewrite (proj1 (proj2 (Ed r0 b0))). apply N6.
      * intros b0. rewrite (proj1 (Ed r' b0)). apply N9.
  - intros r' b' Ey. rewrite (pe_bank _ _ _ _ _ _ E) in Ey. cbn. case_decide as E0; [destruct E0 as [-> ->]; by rewrite Hx in Ey|].
    by apply B.
  - intros r' ticks Et. rewrite (pe_ticks _ _ _ _ _ _ E) in Et. exact (bi_ticks _ _ _ B _ _ Et).
  - intros r' b' a. rewrite (proj1 (Ed r' b')). apply B.
  - intros r' a Ha. destruct (bi_act_over _ _ _ B r' a Ha) as [Ha0 Hs]. split; [done|by eapply settled_later].
  - intros r' b' p. cbn. case_decide as E0; cbn.
    + intros [= <-]. right; left. by exists T.
    + intros Hp. eapply settled_later; [done|]. by eapply bi_pre_over.
  - intros A HA. rewrite Ew in HA by done. eapply settled_later; [done|by apply B].
  - destruct (pe_events _ _ _ _ _ _ E) as [(T' & _ & _ & ->)|[_ M]]; [apply B|eapply moved_ok; [done|apply B|lia]].
Qed.

Lemma precharge_step now d v r b x t : banks_inv now d v -> bank_at d r b = Some x -> openRow x <> NO_ROW -> preAllowedAt x <= t ->
  dev_step P v (mkCmd PRE r b t) (dev_pre r b t v).
Proof.
  intros B Hx Ho Ht. pose proof (bi_rel _ _ _ B _ _ _ Hx) as R. constructor; cbv zeta.
  - rewrite (br_open _ _ _ _ R). by apply neqb.
  - pose proof (proj2 (br_row _ _ _ _ R Ho)). lia.
Qed.

Lemma precharge_over now d d' r b t trace x : pre_eqs d d' r b t trace -> bank_at d r b = Some x -> preAllowedAt x <= t ->
  acts_over now d -> acts_over now d'.
Proof.
  intros E Hx Hp H r' b' y' Ey. pose proof (pre_later now _ _ _ _ _ _ _ E Hx Hp) as L. rewrite (pe_bank _ _ _ _ _ _ E) in Ey.
  destruct (pre_events_when _ _ _ _ _ _ E) as [_ (T & ET & HT & _ & _)].
  case_decide as E0; [destruct E0 as [-> ->]|by eapply settled_later; [|eapply H]]. rewrite Hx in Ey. injection Ey as <-. cbn.
  destruct (Z.max_spec (actAllowedAt x) (t + tRP P)) as [[_ ->]|[_ ->]]; [right; left; by exists T|].
  eapply settled_later; [exact L|by eapply H].
Qed.

Lemma precharge_bounded d d' r b t trace U : pre_eqs d d' r b t trace -> bounded U d -> t <= U + Cp P -> bounded U d'.
Proof.
  intros E [H1 H2] Ht. pose proof params_small. destruct (pre_events_when _ _ _ _ _ _ E) as [_ (T & ET & _ & _ & HT)]. constructor.
  - intros r' b' y'. rewrite (pe_bank _ _ _ _ _ _ E). case_decide as E0; [destruct E0 as [-> ->]|by apply H1].
    intros (y & Ey & ->)%fmap_Some. pose proof (H1 _ _ _ Ey). cbn. lia.
  - intros T' HT'. rewrite ET in HT'. injection HT' as <-. destruct HT as [-> |HT]; [lia|by apply H2].
Qed.

(** ** Access *)
Definition dev_cas (write : bool) (r b : nat) (t : Z) (v : Dev) : Dev :=
  dev_set r b ((dv_bank v r b) <| dv_cas := Some t |> <| dv_lim := Z.max (dv_lim (dv_bank v r b)) (recovery P write t) |>) v.

Record cas_eqs (write : bool) (d d' : Dram) (r b : nat) (t : Z) : Prop := {
  ce_none : forall r' b', bank_at d r' b' = None -> bank_at d' r' b' = None;
  ce_bank : forall r' b' y', bank_at d' r' b' = Some y' -> exists y, bank_at d r' b' = Some y /\
    openRow y' = openRow y /\ bankgr y' = bankgr y /\ actAllowedAt y' = actAllowedAt y /\
    colAllowedAt y' = Z.max (t + ccd P r b r' b') (colAllowedAt y) /\
    preAllowedAt y' = if decide (r' = r /\ b' = b) then Z.max (preAllowedAt y) (recovery P write t) else preAllowedAt y;
  ce_ticks : actTicks d' = actTicks d;
  ce_shape : shape d';
  ce_num : numBanksActive d' = numBanksActive d;
  ce_events : events d' = events d
}.

Lemma cas_some write d d' r b t r' b' y : cas_eqs write d d' r b t -> shape d -> bank_at d r' b' = Some y ->
  exists y', bank_at d' r' b' = Some y' /\ openRow y' = openRow y /\ actAllowedAt y' = actAllowedAt y /\ preAllowedAt y <= preAllowedAt y'.
Proof.
  intros E Hs Hy. destruct (proj2 (bank_at_some d' r' b' (ce_shape _ _ _ _ _ _ E))) as [y' Ey'].
  { apply (bank_at_some d r' b' Hs). by exists y. }
  exists y'. split; [done|]. destruct (ce_bank _ _ _ _ _ _ E r' b' y' Ey') as (y0 & Ey0 & E1 & E2 & E3 & E4 & E5).
  rewrite Hy in Ey0. injection Ey0 as <-. split; [done|]. split; [done|]. rewrite E5. case_decide; lia.
Qed.

Lemma cas_later now write d d' r b t : cas_eqs write d d' r b t -> shape d -> later now d now d'.
Proof.
  intros E Hs. assert (when_ Precharge d' = when_ Precharge d) as Ew by (unfold when_; by rewrite (ce_events _ _ _ _ _ _ E)). constructor; [done| |].
  - intros T HT. right; left. exists T. by rewrite Ew.
  - intros r' b' y Ey Hy. destruct (cas_some _ _ _ _ _ _ _ _ _ E Hs Ey) as (y' & Ey' & Eo & _ & Ep).
    right; right. exists r', b', y'. split; [done|]. split; [congruence|lia].
Qed.

Lemma cas_banks_inv now write d d' v r b x t : banks_inv now d v -> bank_at d r b = Some x -> 0 <= t -> colAllowedAt x <= t ->
  cas_eqs write d d' r b t -> banks_inv now d' (dev_cas write r b t v).
Proof.
  intros B Hx Ht Hct E. pose proof (cas_later now _ _ _ _ _ _ E (bi_shape _ _ _ B)) as L.
  pose proof (sa_burst P Sa) as P1. pose proof (sa_ccd P Sa) as P2. pose proof (sa_cs P Sa) as P3. pose proof (sa_rcd P Sa) as P4.
  assert (forall r' b', dv_act (dv_bank (dev_cas write r b t v) r' b') = dv_act (dv_bank v r' b') /\ dv_pre (dv_bank (dev_cas write r b t v) r' b') = dv_pre (dv_bank v r' b') /\
    dv_ref (dv_bank (dev_cas write r b t v) r' b') = dv_ref (dv_bank v r' b') /\ dv_open (dv_bank (dev_cas write r b t v) r' b') = dv_open (dv_bank v r' b') /\
    dv_row (dv_bank (dev_cas write r b t v) r' b') = dv_row (dv_bank v r' b')) as Ed.
  { intros r' b'. cbn. case_decide as E0; [destruct E0 as [-> ->]|]; done. }
  assert (forall r' b', 0 <= ccd P r b r' b') as Hccd by (intros; unfold ccd; case_decide; [case_if|]; lia).
  assert (when_ Activate d' = when_ Activate d) as Ew by (unfold when_; by rewrite (ce_events _ _ _ _ _ _ E)).
  constructor.
  - apply E.
  - eapply counted_same; [apply B|apply E|]. intros r' b'. split.
    + intros (y' & Ey & Ho). destruct (ce_bank _ _ _ _ _ _ E _ _ _ Ey) as (y & Ey0 & Eo & _). exists y. split; [done|congruence].
    + intros (y & Ey & Ho). destruct (cas_some _ _ _ _ _ _ _ _ _ E (bi_shape _ _ _ B) Ey) as (y' & Ey' & Eo & _). exists y'. split; [done|congruence].
  - intros r' b' y' Ey'. destruct (ce_bank _ _ _ _ _ _ E _ _ _ Ey') as (y & Ey & Eo & Eg & Ea & Ec & Ep). destruct (Ed r' b') as (E1 & E2 & E3 & E4 & E5).
    pose proof (bi_rel _ _ _ B _ _ _ Ey) as [N1 N2 N3 N4 N5 N6 N7 N8 N9 N10 N11]. specialize (Hccd r' b').
    assert (preAllowedAt y <= preAllowedAt y') as Hpp by (rewrite Ep; case_decide; lia).
    constructor; rewrite ?E1, ?E2, ?E3, ?E4, ?E5, ?Eg, ?Ea, ?Eo, ?Ec; try done.
    + lia.
    + intros Ho. destruct (N4 Ho) as [M1 M2]. split; [done|]. rewrite Ep. cbn. case_decide as E0; [destruct E0 as [-> ->]; cbn|]; lia.
    + eapply since_mono; [exact N5|lia].
    + intros r0 b0.
      assert (dv_cas (dv_bank (dev_cas write r b t v) r0 b0) = if decide (r0 = r /\ b0 = b) then Some t else dv_cas (dv_bank v r0 b0)) as ->
        by (unfold dev_cas; rewrite dev_set_at; by destruct (decide (r0 = r /\ b0 = b))).
      destruct (decide (r0 = r /\ b0 = b)) as [[-> ->]|Hne]; [unfold since; lia|]. eapply since_mono; [apply N6|lia].
    + intros b0. rewrite (proj1 (Ed r' b0)). apply N9.
  - intros r' b' Ey. cbn. case_decide as E0; [destruct E0 as [-> ->]|].
    + exfalso. destruct (cas_some _ _ _ _ _ _ _ _ _ E (bi_shape _ _ _ B) Hx) as (y' & Ey' & _). congruence.
    + apply B. destruct (bank_at d r' b') as [y|] eqn:Ey0; [|done]. destruct (cas_some _ _ _ _ _ _ _ _ _ E (bi_shape _ _ _ B) Ey0) as (y' & Ey' & _). congruence.
  - intros r' ticks Et. rewrite (ce_ticks _ _ _ _ _ _ E) in Et. exact (bi_ticks _ _ _ B _ _ Et).
  - intros r' b' a. rewrite (proj1 (Ed r' b')). apply B.
  - intros r' a Ha. destruct (bi_act_over _ _ _ B r' a Ha) as [Ha0 Hs]. split; [done|by eapply settled_later].
  - intros r' b' p. rewrite (proj1 (proj2 (Ed r' b'))). intros Hp. eapply settled_later; [done|]. by eapply bi_pre_over.
  - intros A HA. rewrite Ew in HA. eapply settled_later; [done|by apply B].
  - rewrite (ce_events _ _ _ _ _ _ E). apply B.
Qed.

Lemma recovery_bound write t : t <= recovery P write t <= t + tCL P + tBURST P + Cp P.
Proof.
  pose proof params_small. pose proof (sa_wr P Sa). pose proof (sa_rtp P Sa). pose proof (sa_cl P Sa). pose proof (sa_burst P Sa).
  unfold recovery. case_if; lia.
Qed.

Lemma cas_bounded write d d' r b t U : cas_eqs write d d' r b t -> bounded U d -> t + tCL P + tBURST P <= U -> bounded U d'.
Proof.
  intros E [H1 H2] Ht. pose proof params_small. pose proof (sa_cl P Sa). pose proof (sa_burst P Sa). constructor.
  - intros r' b' y' Ey'. destruct (ce_bank _ _ _ _ _ _ E _ _ _ Ey') as (y & Ey & _ & _ & -> & -> & ->). pose proof (H1 _ _ _ Ey).
    assert (ccd P r b r' b' <= Cc P) by (unfold ccd; case_decide; [case_if|]; lia).
    pose proof (recovery_bound write t). pose proof (sa_cs P Sa). split; [lia|]. split; [case_decide; lia|lia].
  - intros T HT. apply H2. unfold when_ in *. by rewrite (ce_events _ _ _ _ _ _ E) in HT.
Qed.

Lemma cas_over now write d d' r b t : cas_eqs write d d' r b t -> shape d -> acts_over now d -> acts_over now d'.
Proof.
  intros E Hs H r' b' y' Ey'. destruct (ce_bank _ _ _ _ _ _ E _ _ _ Ey') as (y & Ey & _ & _ & -> & _).
  eapply settled_later; [by eapply cas_later|by eapply H].
Qed.

(** Two states of the device that agree on every bank. *)
Definition dev_eq (v v' : Dev) : Prop := (forall r b, dv_bank v r b = dv_bank v' r b) /\ (forall r, dv_acts v r = dv_acts v' r).

Lemma banks_inv_eq now d v v' : dev_eq v v' -> banks_inv now d v -> banks_inv now d v'.
Proof.
  intros [E1 E2] [B1 B2 B3 B4 B5 B6 B7 B8 B9 B10]. constructor; try done.
  - intros r b x Ex. destruct (B3 r b x Ex) as [N1 N2 N3 N4 N5 N6 N7 N8 N9 N10 N11]. constructor; rewrite <- ?E1, <- ?E2; try done.
    + intros r' b'. rewrite <- E1. apply N6.
    + intros b'. rewrite <- E1. apply N9.
  - intros r b Eb. rewrite <- E1. by apply B4.
  - intros r ticks Et. unfold ticks_of. rewrite <- E2. by apply B5.
  - intros r b a. rewrite <- E1, <- E2. apply B6.
  - intros r a. rewrite <- E2. apply B7.
  - intros r b p. rewrite <- E1. apply B8.
Qed.

(** An access with its row open, and one that closes its row by itself. *)
Lemma cas_step now (write : bool) d v r b x t : banks_inv now d v -> bank_at d r b = Some x -> openRow x <> NO_ROW -> colAllowedAt x <= t ->
  dev_step P v (mkCmd (if write then WR (openRow x) else RD (openRow x)) r b t) (dev_cas write r b t v).
Proof.
  intros B Hx Ho Ht. pose proof (bi_rel _ _ _ B _ _ _ Hx) as R.
  assert (access_step P write r b (openRow x) t v (Some ((dv_bank v r b) <| dv_cas := Some t |> <| dv_lim := Z.max (dv_lim (dv_bank v r b)) (recovery P write t) |>))) as A.
  { split; [apply R; done|]. split; [eapply since_mono; [apply R|done]|]. split; [intros r' b'; eapply since_mono; [apply R|done]|]. split; [|done].
    rewrite (br_open _ _ _ _ R), neqb by done. done. }
  unfold dev_cas. destruct write; by constructor.
Qed.

Lemma cas_pre_step now (write : bool) d v r b x t p : banks_inv now d v -> bank_at d r b = Some x -> openRow x <> NO_ROW -> colAllowedAt x <= t ->
  recovery P write t <= p ->
  exists v', dev_step P (dev_pre r b p v) (mkCmd (if write then WR (openRow x) else RD (openRow x)) r b t) v' /\
    dev_eq (dev_pre r b p (dev_cas write r b t v)) v'.
Proof.
  intros B Hx Ho Ht Hp. pose proof (bi_rel _ _ _ B _ _ _ Hx) as R. set (v1 := dev_pre r b p v).
  assert (dv_bank v1 r b = (dv_bank v r b) <| dv_open := false |> <| dv_pre := Some p |>) as E1.
  { unfold v1, dev_pre. rewrite dev_set_at. by rewrite decide_True. }
  set (x1 := (dv_bank v1 r b) <| dv_cas := Some t |> <| dv_lim := Z.max (dv_lim (dv_bank v1 r b)) (recovery P write t) |>).
  assert (access_step P write r b (openRow x) t v1 (Some x1)) as A.
  { split; [rewrite E1; apply R; done|]. split; [rewrite E1; eapply since_mono; [apply R|done]|]. split.
    - intros r' b'. assert (dv_cas (dv_bank v1 r' b') = dv_cas (dv_bank v r' b')) as ->.
      { unfold v1, dev_pre. rewrite dev_set_at. destruct (decide _) as [[-> ->]|]; done. }
      eapply since_mono; [apply R|done].
    - split; [|done]. intros _. exists p. by rewrite E1. }
  exists (dev_set r b x1 v1). split; [destruct write; by constructor|]. split; [|done]. intros r' b'. unfold dev_pre at 1, dev_cas. rewrite !dev_set_at.
  destruct (decide (r' = r /\ b' = b)) as [[-> ->]|Hne].
  - rewrite decide_True by done. unfold x1. by rewrite E1.
  - unfold v1, dev_pre. rewrite dev_set_at. by rewrite decide_False.
Qed.

(** An activation that is planned no later than now stays where it is; one planned
    when every bank is closed and can be activated is planned for now, in front of
    the other events. *)
Record act_front (now : Z) (d d' : Dram) : Prop := {
  af_old : forall A, when_ Activate d = Some A -> A <= now ->
    when_ Activate d' = Some A /\ (ahead Activate Refresh (events d) -> ahead Activate Refresh (events d'));
  af_new : when_ Activate d = None -> numBanksActive d = 0 -> (forall r b x, bank_at d r b = Some x -> actAllowedAt x <= now) ->
    when_ Activate d' = Some now /\ ahead Activate Refresh (events d');
  af_other : forall e, e <> Activate -> e <> Precharge -> when_ e d' = when_ e d
}.

Lemma pre_ahead d d' r b t trace : pre_eqs d d' r b t trace -> ahead Activate Refresh (events d) -> ahead Activate Refresh (events d').
Proof.
  intros E H. destruct (pe_events _ _ _ _ _ _ E) as [(T & _ & _ & ->)|[_ ->]]; [done|]. apply ahead_insert; [done|]. by apply ahead_remove.
Qed.

Lemma act_front_pre now d d1 d' r b t trace : act_front now d d1 -> pre_eqs d1 d' r b t trace -> act_front now d d'.
Proof.
  intros [F1 F2 F3] E. destruct (pre_events_when _ _ _ _ _ _ E) as [Ew _]. constructor.
  - intros A HA HA'. destruct (F1 A HA HA') as [G1 G2]. rewrite Ew by done. split; [done|]. intros H. by eapply pre_ahead; [|apply G2].
  - intros HA Hn Hb. destruct (F2 HA Hn Hb) as [G1 G2]. rewrite Ew by done. split; [done|]. by eapply pre_ahead.
  - intros e He1 He2. rewrite Ew by done. by apply F3.
Qed.

Lemma open_row_ok now d v p U : banks_inv now d v -> legal P (cmdList d) v -> in_range (rank p) (bank p) -> 0 <= row p < NO_ROW ->
  bounded U d -> 0 <= now <= U -> U < 2 ^ 61 ->
  exists d' v' x' cmd_at, open_row P now p d = Ok (d', cmd_at) /\ banks_inv now d' v' /\ legal P (cmdList d') v' /\
    bank_at d' (rank p) (bank p) = Some x' /\ openRow x' = row p /\ colAllowedAt x' <= cmd_at /\ now <= cmd_at <= U + Ca P + Cc P + tRCD P /\
    later now d now d' /\ (acts_over now d -> acts_over now d') /\ (forall U', U <= U' -> cmd_at <= U' -> bounded U' d') /\
    rest_of d' = rest_of d /\ act_front now d d'.
Proof.
  intros B Lg Hr Hrow Bd Hnow HU. destruct (proj2 (bank_at_some d _ _ (bi_shape _ _ _ B)) Hr) as [x Hx].
  pose proof parts_nonneg as PN. pose proof delay_small as [DS _]. pose proof (sa_rcd P Sa) as P1. pose proof (sa_rp P Sa) as P2.
  pose proof params_small as PS. destruct (bo_bank _ _ Bd _ _ _ Hx) as (X1 & X2 & X3).
  destruct (br_nonneg _ _ _ _ (bi_rel _ _ _ B _ _ _ Hx)) as (Y1 & Y2 & Y3).
  unfold open_row. rewrite (get_bank_at _ _ _ _ Hx). cbn [mbind res_bind]. destruct (Z.eqb_spec (openRow x) (row p)) as [Eo|Eo].
  { exists d, v, x, (Z.max (colAllowedAt x) now). split; [done|]. split; [done|]. split; [done|]. split; [done|]. split; [done|].
    split; [lia|]. split; [lia|]. split; [apply later_refl|].
    split; [done|]. split; [intros; by eapply bounded_mono|]. split; [done|]. constructor; [done| |done].
    intros _ Hn _. exfalso. apply (proj1 (counted_zero d (bi_count _ _ _ B)) Hn (rank p) (bank p)). exists x. split; [done|]. lia. }
  (* the row that is open is closed *)
  assert (exists d1 v1 x1, (if negb (openRow x =? NO_ROW) then prechargeBank P now (rank p) (bank p) (Z.max (preAllowedAt x) now) true d else Ok d) = Ok d1 /\
    banks_inv now d1 v1 /\ legal P (cmdList d1) v1 /\ bank_at d1 (rank p) (bank p) = Some x1 /\ openRow x1 = NO_ROW /\ colAllowedAt x1 = colAllowedAt x /\
    later now d now d1 /\ (acts_over now d -> acts_over now d1) /\ bounded U d1 /\ rest_of d1 = rest_of d /\
    (forall e, e <> Precharge -> when_ e d1 = when_ e d) /\ (ahead Activate Refresh (events d) -> ahead Activate Refresh (events d1)) /\
    (numBanksActive d = 0 -> d1 = d)) as (d1 & v1 & x1 & -> & B1 & Lg1 & Hx1 & Ho1 & Hc1 & L1 & A1 & Bd1 & R1 & W1 & H1 & Z1).
  { destruct (Z.eqb_spec (openRow x) NO_ROW) as [En|En]; cbn [negb].
    - exists d, v, x. split_and!; try done. apply later_refl.
    - set (t := Z.max (preAllowedAt x) now).
      destruct (precharge_run now d (rank p) (bank p) x t true (bi_shape _ _ _ B) (bi_count _ _ _ B) Hx En) as (d1 & Ed1 & E1); [lia..|].
      exists d1, (dev_pre (rank p) (bank p) t v). eexists. split; [done|]. split; [eapply precharge_inv; try done; lia|].
      split; [rewrite (pe_cmd _ _ _ _ _ _ E1); econstructor; [done|]; eapply precharge_step; try done; lia|].
      split; [rewrite (pe_bank _ _ _ _ _ _ E1), decide_True, Hx by done; done|]. split; [done|]. split; [done|].
      split; [eapply pre_later; try done; lia|]. split; [eapply precharge_over; try done; lia|]. split; [eapply precharge_bounded; try done; lia|].
      split; [apply E1|]. split; [apply (pre_events_when _ _ _ _ _ _ E1)|]. split; [by eapply pre_ahead|].
      intros Hn. exfalso. apply (proj1 (counted_zero d (bi_count _ _ _ B)) Hn (rank p) (bank p)). by exists x. }
  cbn [mbind res_bind]. rewrite (get_bank_at _ _ _ _ Hx1). cbn [mbind res_bind]. set (t := Z.max (actAllowedAt x1) now).
  destruct (bo_bank _ _ Bd1 _ _ _ Hx1) as (Z1' & Z2' & Z3').
  destruct (activate_run now d1 v1 (rank p) (bank p) x1 (row p) t B1 Hx1 Ho1) as (d2 & w & -> & E2 & Hw & Hwin); [lia..|].
  cbn [mbind res_bind]. set (x2 := act_bank (bank p) t (row p) w (bank p) x1).
  assert (bank_at d2 (rank p) (bank p) = Some x2) as Hx2 by (rewrite (ae_bank _ _ _ _ _ _ _ _ E2), decide_True, Hx1 by done; done).
  assert (openRow x2 = row p /\ colAllowedAt x2 = Z.max (t + tRCD P) (colAllowedAt x1)) as [Ho2 Hc2] by (unfold x2, act_bank; by rewrite decide_True).
  rewrite (get_bank_at _ _ _ _ Hx2). cbn [mbind res_bind]. assert (row p <> NO_ROW) as Hrn by lia.
  exists d2, (dev_act (rank p) (bank p) (row p) t v1), x2, (colAllowedAt x2). split; [done|].
  split; [eapply activate_inv; try done; lia|].
  split; [rewrite (ae_cmd _ _ _ _ _ _ _ _ E2); econstructor; [done|]; eapply activate_step; try done; lia|].
  split; [done|]. split; [done|]. split; [done|]. split; [lia|].
  split; [eapply later_trans; [done|by eapply act_later]|]. split; [intros HA; eapply activate_over; try done; [lia|by apply A1]|].
  split; [intros U' HU1 HU2; eapply activate_bounded; [done|by eapply bounded_mono|lia..]|]. split; [by rewrite (ae_rest _ _ _ _ _ _ _ _ E2)|].
  destruct (act_events_when _ _ _ (ae_events _ _ _ _ _ _ _ _ E2)) as [Ew (A & EA & HA1 & HA2)]. constructor.
  - intros A0 HA0 Hle. rewrite <- W1 in HA0 by done. destruct (ae_events _ _ _ _ _ _ _ _ E2) as [(A' & EA' & _ & Ee)|[Hlt _]].
    + split; [unfold when_ in *; by rewrite Ee|]. intros H. rewrite Ee. by apply H1.
    + pose proof (Hlt A0 HA0). lia.
  - intros HA0 Hn Hb. rewrite (Z1 Hn) in *. rewrite Hx in Hx1. injection Hx1 as <-. pose proof (Hb _ _ _ Hx).
    assert (t = now) as Et by lia. destruct (ae_events _ _ _ _ _ _ _ _ E2) as [(A' & EA' & _ & Ee)|[_ M]]; [congruence|].
    rewrite Et in M. split; [exact (moved_when _ _ _ _ M)|]. rewrite M. rewrite ev_remove_none, ev_insert_front by (done || apply B). by left.
  - intros e He1 He2. by rewrite Ew, W1.
Qed.

(** ** States with the same banks and events *)
Definition same_banks (d d' : Dram) : Prop :=
  banks d' = banks d /\ actTicks d' = actTicks d /\ numBanksActive d' = numBanksActive d /\ events d' = events d.

Lemma same_bank_at d d' : same_banks d d' -> forall r b, bank_at d' r b = bank_at d r b.
Proof. intros (E & _) r b. unfold bank_at. by rewrite E. Qed.
Lemma same_when d d' : same_banks d d' -> forall e, when_ e d' = when_ e d.
Proof. intros (_ & _ & _ & E) e. unfold when_. by rewrite E. Qed.

Lemma same_settled now d d' z : same_banks d d' -> settled now d z -> settled now d' z.
Proof.
  intros E H. unfold settled in *. rewrite (same_when _ _ E). destruct H as [H|[H|(r & b & x & Ex & H)]]; [by left|by right; left|].
  right; right. exists r, b, x. by rewrite (same_bank_at _ _ E).
Qed.

Lemma same_inv now d d' v : same_banks d d' -> banks_inv now d v -> banks_inv now d' v.
Proof.
  intros E [B1 B2 B3 B4 B5 B6 B7 B8 B9 B10]. pose proof (same_bank_at _ _ E) as Eb. pose proof (same_when _ _ E) as Ew. pose proof E as (E1 & E2 & E3 & E4). constructor.
  - destruct B1 as [S1' S2' S3']. constructor; congruence.
  - eapply counted_same; [done|done|]. intros r b. unfold is_open. by rewrite Eb.
  - intros r b x. rewrite Eb. apply B3.
  - intros r b. rewrite Eb. apply B4.
  - intros r ticks. rewrite E2. apply B5.
  - done.
  - intros r a Ha. destruct (B7 r a Ha) as [H1 H2]. split; [done|by eapply same_settled].
  - intros r b p Hp. eapply same_settled; [done|by eapply B8].
  - intros A. rewrite Ew. intros HA. eapply same_settled; [done|by apply B9].
  - by rewrite E4.
Qed.

Lemma same_bounded U d d' : same_banks d d' -> bounded U d -> bounded U d'.
Proof.
  intros E [H1 H2]. constructor; [intros r b x; rewrite (same_bank_at _ _ E); apply H1|intros T; rewrite (same_when _ _ E); apply H2].
Qed.

Lemma same_over now d d' : same_banks d d' -> acts_over now d -> acts_over now d'.
Proof. intros E H r b x. rewrite (same_bank_at _ _ E). intros Hx. eapply same_settled; [done|by eapply H]. Qed.

Lemma same_later now d d' : same_banks d d' -> later now d now d'.
Proof.
  intros E. constructor; [lia| |].
  - intros T HT. right; left. exists T. rewrite (same_when _ _ E). split; [done|lia].
  - intros r b x Hx Ho. right; right. exists r, b, x. rewrite (same_bank_at _ _ E). split; [done|]. split; [done|lia].
Qed.

Lemma same_front now d d1 d' : events d' = events d1 -> act_front now d d1 -> act_front now d d'.
Proof.
  intros Ee [F1 F2 F3]. assert (forall e, when_ e d' = when_ e d1) as Ew by (intros e; unfold when_; by rewrite Ee). constructor; [intros A HA HA'|intros HA Hn Hb|intros e He1 He2]; rewrite ?Ew, ?Ee; eauto.
Qed.

(** The banks after the column command of the access. *)
Lemma cas_run now d v p x t : banks_inv now d v -> bank_at d (rank p) (bank p) = Some x -> 0 <= t < 2 ^ 62 ->
  let ready := t + tCL P + tBURST P in
  let d1 := set_all (fun r y => y <| colAllowedAt := Z.max (u64 (t + cmd_dly P p x r y)) (colAllowedAt y) |>) d in
  cas_eqs (negb (dp_isRead p)) d
    (set_bank (rank p) (bank p) (fun x =>
       x <| preAllowedAt := Z.max (preAllowedAt x) (if dp_isRead p then tadd t (tRTP P) else tadd ready (tWR P)) |>
         <| bytesAccessed := u32 (bytesAccessed x + burstSize P) |> <| rowAccesses := u32 (rowAccesses x + 1) |>)
       (d1 <| activeRank := rank p |>)) (rank p) (bank p) t.
Proof.
  intros B Hx Ht ready d1. pose proof (bi_rel _ _ _ B _ _ _ Hx) as R. pose proof (recovery_bound (negb (dp_isRead p)) t) as RB.
  pose proof params_small as PS. pose proof delay_small as [DS _]. pose proof parts_nonneg as PN. pose proof (sa_burst P Sa) as P1.
  pose proof (sa_ccd P Sa) as P2. pose proof (sa_cs P Sa) as P3. pose proof (sa_cl P Sa) as P4.
  assert (forall r b y, bank_at d r b = Some y -> u64 (t + cmd_dly P p x r y) = t + ccd P (rank p) (bank p) r b) as Ed.
  { intros r b y Hy. unfold cmd_dly, ccd, same_group, grouped. rewrite (br_group _ _ _ _ R), (br_group _ _ _ _ (bi_rel _ _ _ B _ _ _ Hy)).
    case_bool_decide as E; [rewrite decide_True by done|rewrite decide_False by done]; apply u64_small; [case_if|]; lia. }
  assert ((if dp_isRead p then tadd t (tRTP P) else tadd ready (tWR P)) = recovery P (negb (dp_isRead p)) t) as Er.
  { unfold recovery, tadd, ready in *. destruct (dp_isRead p); cbn [negb] in *; apply u64_small; lia. }
  assert (forall r b, bank_at (d1 <| activeRank := rank p |>) r b = (fun y => y <| colAllowedAt := Z.max (u64 (t + cmd_dly P p x r y)) (colAllowedAt y) |>) <$> bank_at d r b) as E1.
  { intros r b. exact (bank_at_all d _ r b). }
  constructor; try done.
  - intros r b Hn. rewrite bank_at_set, E1, Hn. by case_decide.
  - intros r b y' Hy'. rewrite bank_at_set, E1 in Hy'. destruct (bank_at d r b) as [y|] eqn:Hy; [|by case_decide].
    exists y. split; [done|]. cbn [fmap option_fmap option_map] in Hy'. rewrite (Ed r b y Hy) in Hy'. rewrite Er in Hy'.
    case_decide as E; injection Hy' as <-; done.
  - apply (shape_set (d1 <| activeRank := rank p |>)). destruct (shape_all d (fun r y => y <| colAllowedAt := Z.max (u64 (t + cmd_dly P p x r y)) (colAllowedAt y) |>) (bi_shape _ _ _ B)) as [T1 T2 T3].
    constructor; [exact T1|exact T2|exact T3].
Qed.

(** What an access leaves. *)
Record accessed (now U : Z) (d d' : Dram) (v' : Dev) (ready : Z) : Prop := {
  ac_inv : banks_inv now d' v';
  ac_legal : legal P (cmdList d') v';
  ac_later : later now d now d';
  ac_over : acts_over now d -> acts_over now d';
  ac_bus : busBusyUntil d' = ready /\ busBusyUntil d + tBURST P <= ready;
  ac_ready : now <= ready <= U + Ca P + Cc P + tRCD P + tCL P + tBURST P;
  ac_bounded : bounded (Z.max U ready) d';
  ac_next : nextReqTime d' = ready - S1 P;
  ac_front : act_front now d d';
  ac_active : 0 < numBanksActive d' \/ exists T, when_ Precharge d' = Some T
}.

(** The precharge that may come with the column command, which is recorded behind
    it. *)
Lemma auto_precharge_ok now d v r b x (write auto : bool) t d1 x1 U : banks_inv now d v -> legal P (cmdList d) v -> bank_at d r b = Some x -> openRow x <> NO_ROW ->
  colAllowedAt x <= t -> 0 <= now -> 0 <= t -> cas_eqs write d d1 r b t -> cmdList d1 = cmdList d -> rest_of d1 = rest_of d1 ->
  bank_at d1 r b = Some x1 -> bounded U d1 -> U < 2 ^ 61 -> now <= U ->
  exists d2 v', (if auto then prechargeBank P now r b (Z.max now (preAllowedAt x1)) true d1 else Ok d1) = Ok d2 /\ banks_inv now d2 v' /\
    legal P (mkCmd (if write then WR (openRow x) else RD (openRow x)) r b t :: cmdList d2) v' /\
    later now d1 now d2 /\ (acts_over now d1 -> acts_over now d2) /\ bounded U d2 /\ rest_of d2 = rest_of d1 /\
    (forall d0, act_front now d0 d1 -> act_front now d0 d2) /\ (0 < numBanksActive d2 \/ exists T, when_ Precharge d2 = Some T).
Proof.
  intros B Lg Hx Ho Hct Hnow Ht E Ecmd _ Hx1 Bd HU HnU. pose proof (cas_banks_inv now write d d1 v r b x t B Hx Ht Hct E) as B1.
  destruct (ce_bank _ _ _ _ _ _ E _ _ _ Hx1) as (x0 & Hx0 & Eo & _ & _ & _ & Ep). rewrite Hx in Hx0. injection Hx0 as <-. rewrite decide_True in Ep by done.
  assert (openRow x1 <> NO_ROW) as Ho1 by congruence. destruct (bo_bank _ _ Bd _ _ _ Hx1) as (_ & X2 & _).
  destruct (br_nonneg _ _ _ _ (bi_rel _ _ _ B1 _ _ _ Hx1)) as (_ & Y2 & _). pose proof delay_small as [DS _]. pose proof parts_nonneg as PN.
  destruct auto.
  - destruct (precharge_run now d1 r b x1 (Z.max now (preAllowedAt x1)) true (bi_shape _ _ _ B1) (bi_count _ _ _ B1) Hx1 Ho1) as (d2 & Ed2 & E2); [lia..|].
    destruct (cas_pre_step now write d v r b x t (Z.max now (preAllowedAt x1)) B Hx Ho Hct ltac:(lia)) as (v' & St & Eq).
    exists d2, v'. split; [done|]. split; [eapply banks_inv_eq; [exact Eq|]; eapply precharge_inv; try done; lia|].
    split; [rewrite (pe_cmd _ _ _ _ _ _ E2), Ecmd; econstructor; [|exact St]; econstructor; [done|]; eapply (precharge_step now d v r b x); try done; lia|].
    split; [eapply pre_later; try done; lia|]. split; [eapply precharge_over; try done; lia|]. split; [eapply precharge_bounded; try done; lia|].
    split; [apply E2|]. split; [intros d0 F; by eapply act_front_pre|]. right. destruct (pre_events_when _ _ _ _ _ _ E2) as [_ (T & ET & _)]. by exists T.
  - exists d1, (dev_cas write r b t v). split; [done|]. split; [done|]. split; [rewrite Ecmd; econstructor; [done|]; by eapply cas_step|].
    split; [apply later_refl|]. split; [done|]. split; [done|]. split; [done|]. split; [done|]. left.
    pose proof (counted_bound d1 (bi_shape _ _ _ B1) (bi_count _ _ _ B1)). destruct (Z.eq_dec (numBanksActive d1) 0) as [E0|]; [|lia].
    exfalso. apply (proj1 (counted_zero d1 (bi_count _ _ _ B1)) E0 r b). by exists x1.
Qed.

Lemma access_command_ok now d v p queue U : banks_inv now d v -> legal P (cmdList d) v -> in_range (rank p) (bank p) -> 0 <= row p < NO_ROW ->
  bounded U d -> 0 <= now <= U -> U < 2 ^ 60 -> S1 P <= busBusyUntil d <= U ->
  exists d' v' ready, doDRAMAccess P now p queue d = Ok (d', p <| readyTime := ready |>) /\ accessed now U d d' v' ready.
Proof.
  intros B Lg Hr Hrow Bd Hnow HU Hbus. pose proof delay_small as [DS DS']. pose proof parts_nonneg as PN. pose proof params_small as PS.
  pose proof (sa_burst P Sa) as P1. pose proof (sa_cl P Sa) as P4. pose proof (sa_rcd P Sa) as P5. pose proof (sa_rp P Sa) as P6.
  pose proof (sa_wtr P Sa) as P7. pose proof (sa_rtw P Sa) as P8. pose proof (sa_rfc P Sa) as P9.
  destruct (open_row_ok now d v p U B Lg Hr Hrow Bd Hnow ltac:(lia)) as (d1 & v1 & x & c0 & E0 & B1 & Lg1 & Hx & Ho & Hc0 & Hc1 & L1 & A1 & Bd1 & R1 & F1).
  assert (busBusyUntil d1 = busBusyUntil d) as Eb by (unfold rest_of in R1; congruence).
  unfold doDRAMAccess. rewrite E0. cbn [mbind res_bind]. rewrite Eb. rewrite (u64_small (busBusyUntil d - tCL P)) by lia.
  set (t := Z.max c0 (busBusyUntil d - tCL P)). rewrite (u64_small (t + tCL P + tBURST P)) by lia. set (ready := t + tCL P + tBURST P).
  rewrite (u64_small (ready - busBusyUntil d)) by lia. rewrite (assert_ok (tBURST P <=? ready - busBusyUntil d)) by (apply Z.leb_le; lia).
  cbn [mbind res_bind]. rewrite (get_bank_at _ _ _ _ Hx). cbn [mbind res_bind].
  set (d2 := set_bank (rank p) (bank p) _ _).
  assert (0 <= t < 2 ^ 62) as Ht by lia. pose proof (cas_run now d1 v1 p x t B1 Hx Ht) as E2. cbv zeta in E2. fold ready in E2. fold d2 in E2.
  destruct (cas_some _ _ _ _ _ _ _ _ _ E2 (bi_shape _ _ _ B1) Hx) as (x2 & Hx2 & Ho2 & _ & _).
  rewrite (get_bank_at _ _ _ _ Hx2). cbn [mbind res_bind].
  assert (bounded (Z.max U ready) d2) as Bd2 by (eapply cas_bounded; [done|apply Bd1; lia|lia]).
  assert (row p <> NO_ROW) as Hrn by lia.
  destruct (auto_precharge_ok now d1 v1 (rank p) (bank p) x (negb (dp_isRead p)) (auto_precharge P p queue x2) t d2 x2 (Z.max U ready) B1 Lg1 Hx)
    as (d3 & v' & E3 & B3 & Lg3 & L3 & A3 & Bd3 & R3 & F3 & N3); [congruence|lia|lia|lia|done|done|done|done|done|lia|lia|].
  rewrite E3. cbn [mbind res_bind]. rewrite (u64_small (ready - _)) by (unfold S1 in *; lia).
  set (k := if dp_isRead p then RD (row p) else WR (row p)).
  match goal with |- exists d' v' r, Ok (?d4, _) = _ /\ _ => set (d4' := d4) end.
  assert (same_banks d3 d4') as Sm by (unfold d4'; by destruct (dp_isRead p)).
  exists d4', v', ready. split; [done|]. constructor.
  - by eapply same_inv.
  - assert (cmdList d4' = mkCmd k (rank p) (bank p) t :: cmdList d3) as -> by (unfold d4', k; by destruct (dp_isRead p)).
    unfold k. rewrite <- Ho. destruct (dp_isRead p); exact Lg3.
  - eapply later_trans; [exact L1|]. eapply later_trans; [eapply cas_later; [done|apply B1]|]. eapply later_trans; [exact L3|by apply same_later].
  - intros HA. eapply same_over; [done|]. apply A3. eapply cas_over; [done|apply B1|by apply A1].
  - assert (busBusyUntil d4' = ready) as -> by (unfold d4'; by destruct (dp_isRead p)). lia.
  - lia.
  - by eapply same_bounded.
  - assert (nextReqTime d4' = ready - (tRP P + tRCD P + tCL P)) as -> by (unfold d4'; by destruct (dp_isRead p)). reflexivity.
  - eapply same_front; [apply Sm|]. apply F3. eapply same_front; [apply E2|exact F1].
  - destruct Sm as (_ & _ & -> & Ee). unfold when_ in *. by rewrite Ee.
Qed.

(** ** Precharge of all banks *)
Lemma pre_all_at_ok now d B : now <= B -> (forall r b x, bank_at d r b = Some x -> preAllowedAt x <= B) ->
  now <= pre_all_at now d <= B /\ (forall r b x, bank_at d r b = Some x -> preAllowedAt x <= pre_all_at now d).
Proof.
  intros HB HA. unfold pre_all_at.
  assert (forall (l : list Bank) t, let t' := foldl (fun t x => Z.max (preAllowedAt x) t) t l in
    t <= t' /\ (forall x, x ∈ l -> preAllowedAt x <= t') /\ (t <= B -> (forall x, x ∈ l -> preAllowedAt x <= B) -> t' <= B)) as In.
  { induction l as [|x l IH]; intros t; cbn [foldl]; [split; [lia|split; [by intros x Hx%elem_of_nil|done]]|].
    destruct (IH (Z.max (preAllowedAt x) t)) as (I1 & I2 & I3). split; [lia|]. split.
    - intros y [->|Hy]%elem_of_cons; [lia|by apply I2].
    - intros Ht H. apply I3; [pose proof (H x ltac:(by left)); lia|]. intros y Hy. apply H. by right. }
  assert (forall (L : list (list Bank)) t, let t' := foldl (fun t l => foldl (fun t x => Z.max (preAllowedAt x) t) t l) t L in
    t <= t' /\ (forall l x, l ∈ L -> x ∈ l -> preAllowedAt x <= t') /\ (t <= B -> (forall l x, l ∈ L -> x ∈ l -> preAllowedAt x <= B) -> t' <= B)) as Out.
  { induction L as [|l L IH]; intros t; cbn [foldl]; [split; [lia|split; [by intros l x Hl%elem_of_nil|done]]|].
    destruct (In l t) as (J1 & J2 & J3). destruct (IH (foldl (fun t x => Z.max (preAllowedAt x) t) t l)) as (I1 & I2 & I3). split; [lia|]. split.
    - intros l' y [->|Hl]%elem_of_cons Hy; [pose proof (J2 y Hy); lia|by eapply I2].
    - intros Ht H. apply I3; [apply J3; [done|]; intros y Hy; apply (H l); [by left|done]|]. intros l' y Hl Hy. apply (H l'); [by right|done]. }
  destruct (Out (banks d) now) as (O1 & O2 & O3). split; [split; [done|]|].
  - apply O3; [done|]. intros l x Hl Hx. apply list_elem_of_lookup in Hl as (r & Hr). apply list_elem_of_lookup in Hx as (b & Hb).
    apply (HA r b). unfold bank_at. rewrite Hr. exact Hb.
  - intros r b x Hx. unfold bank_at in Hx. destruct (banks d !! r) as [l|] eqn:El; [|done]. cbn in Hx.
    eapply O2; by eapply list_elem_of_lookup_2.
Qed.

(** A row is open, or the last precharge is still to be noticed. *)
Definition busy (d : Dram) : Prop := 0 < numBanksActive d \/ exists T, when_ Precharge d = Some T.

Definition shut (t : Z) (x : DevBank) : DevBank := if dv_open x then x <| dv_open := false |> <| dv_pre := Some t |> else x.

(** What is kept while banks are being precharged. *)
Record closing (now t U : Z) (d0 d : Dram) : Prop := {
  cl_pre : forall r b x, bank_at d r b = Some x -> preAllowedAt x <= t;
  cl_later : later now d0 now d;
  cl_bounded : bounded U d;
  cl_rest : rest_of d = rest_of d0;
  cl_when : forall e, e <> Precharge -> when_ e d = when_ e d0;
  cl_busy : busy d0 -> busy d
}.

Lemma closing_trans now t U d0 d1 d2 : closing now t U d0 d1 -> closing now t U d1 d2 -> closing now t U d0 d2.
Proof.
  intros [A1 A2 A3 A4 A5 A6] [B1 B2 B3 B4 B5 B6]. constructor; [done|by eapply later_trans|done|congruence|intros e He; by rewrite B5, A5|tauto].
Qed.

Lemma closing_same now t U d d1 d2 : same_banks d d1 -> rest_of d1 = rest_of d -> closing now t U d1 d2 -> closing now t U d d2.
Proof.
  intros E Er [A1 A2 A3 A4 A5 A6]. pose proof E as (_ & E2 & _ & E4). constructor; try done.
  - eapply later_trans; [by apply same_later|done].
  - by rewrite A4.
  - intros e He. rewrite A5 by done. by apply same_when.
  - intros H. apply A6. unfold busy in *. rewrite (same_when _ _ E). destruct E as (_ & _ & -> & _). done.
Qed.

(** A closed bank is kept from an activation until the others are closed too. *)
Lemma held_closing now t U d r b x : bank_at d r b = Some x -> openRow x = NO_ROW -> (forall r b x, bank_at d r b = Some x -> preAllowedAt x <= t) ->
  bounded U d -> t <= U + Cp P -> closing now t U d
    (set_bank r b (fun x => x <| actAllowedAt := Z.max (actAllowedAt x) (t + tRP P) |> <| preAllowedAt := Z.max (preAllowedAt x) t |>) d).
Proof.
  intros Hx Ho Hp [H1 H2] Ht. pose proof params_small. set (d1 := set_bank _ _ _ _).
  assert (forall e, when_ e d1 = when_ e d) as Ew by done. constructor; try done.
  - intros r' b' y. unfold d1. rewrite bank_at_set. case_decide as E; [destruct E as [-> ->]|by apply Hp].
    intros (y0 & Hy0 & ->)%fmap_Some. pose proof (Hp _ _ _ Hy0). cbn. lia.
  - constructor; [lia|intros T HT; right; left; exists T; split; [done|lia]|]. intros r' b' y Hy Hyo. right; right. exists r', b', y.
    unfold d1. rewrite bank_at_set, decide_False; [split; [done|split; [done|lia]]|]. intros [-> ->]. congruence.
  - constructor; [|done]. intros r' b' y. unfold d1. rewrite bank_at_set. case_decide as E; [destruct E as [-> ->]|by apply H1].
    intros (y0 & Hy0 & ->)%fmap_Some. pose proof (H1 _ _ _ Hy0). cbn. lia.
Qed.

Lemma held_inv now d v r b x t : banks_inv now d v -> bank_at d r b = Some x -> openRow x = NO_ROW ->
  banks_inv now (set_bank r b (fun x => x <| actAllowedAt := Z.max (actAllowedAt x) (t + tRP P) |> <| preAllowedAt := Z.max (preAllowedAt x) t |>) d) v.
Proof.
  intros B Hx Ho. set (d1 := set_bank _ _ _ _).
  assert (forall r' b', bank_at d1 r' b' = if decide (r' = r /\ b' = b) then Some (x <| actAllowedAt := Z.max (actAllowedAt x) (t + tRP P) |> <| preAllowedAt := Z.max (preAllowedAt x) t |>) else bank_at d r' b') as E1.
  { intros r' b'. unfold d1. rewrite bank_at_set. case_decide as E; [destruct E as [-> ->]; by rewrite Hx|done]. }
  assert (later now d now d1) as L.
  { constructor; [lia|intros T HT; right; left; exists T; split; [done|lia]|]. intros r' b' y Hy Hyo. right; right. exists r', b', y.
    rewrite E1, decide_False; [split; [done|split; [done|lia]]|]. intros [-> ->]. congruence. }
  pose proof B as [B1 B2 B3 B4 B5 B6 B7 B8 B9 B10]. constructor; try done.
  - by apply shape_set.
  - eapply counted_same; [exact B2|done|]. intros r' b'. unfold is_open. rewrite E1. case_decide as E; [destruct E as [-> ->]|done].
    rewrite Hx. split; intros (y & [= <-] & Hy); cbn in *; congruence.
  - intros r' b' y. rewrite E1. case_decide as E; [destruct E as [-> ->]|by apply B3]. intros [= <-].
    destruct (B3 _ _ _ Hx) as [N1 N2 N3 N4 N5 N6 N7 N8 N9 N10 N11]. constructor; try done.
    + cbn. lia.
    + eapply since_mono; [exact N7|cbn; lia].
    + eapply since_mono; [exact N8|cbn; lia].
    + intros b'. eapply since_mono; [apply N9|cbn; lia].
    + intros a Ha. pose proof (N10 a Ha). cbn. lia.
    + eapply window_mono; [exact N11|cbn; lia].
  - intros r' b' Hn. apply B4. rewrite E1 in Hn. by case_decide.
  - intros r' a Ha. destruct (B7 r' a Ha) as [G1 G2]. split; [done|by eapply settled_later].
  - intros r' b' p Hp. eapply settled_later; [exact L|by eapply B8].
  - intros A HA. eapply settled_later; [exact L|by apply B9].
Qed.

(** One bank, and then the banks of a rank from [b] on. *)
Lemma precharge_one now d v r b t U : banks_inv now d v -> in_range r b -> (forall r b x, bank_at d r b = Some x -> preAllowedAt x <= t) ->
  bounded U d -> 0 <= now <= t -> t <= U + Cp P -> U < 2 ^ 61 ->
  exists d' v', (x ← get_bank r b d;
      if negb (openRow x =? NO_ROW) then prechargeBank P now r b t false d
      else Ok (set_bank r b (fun x => x <| actAllowedAt := Z.max (actAllowedAt x) (tadd t (tRP P)) |> <| preAllowedAt := Z.max (preAllowedAt x) t |>) d)) = Ok d' /\
    banks_inv now d' v' /\ closing now t U d d' /\ cmdList d' = cmdList d /\
    (forall r' b', dv_bank v' r' b' = if decide (r' = r /\ b' = b) then shut t (dv_bank v r b) else dv_bank v r' b') /\ (forall r', dv_acts v' r' = dv_acts v r') /\
    (forall r' b', is_open d' r' b' <-> is_open d r' b' /\ ~ (r' = r /\ b' = b)).
Proof.
  intros B Hr Hp Bd Hnow Ht HU. destruct (proj2 (bank_at_some d _ _ (bi_shape _ _ _ B)) Hr) as [x Hx]. pose proof (bi_rel _ _ _ B _ _ _ Hx) as R.
  pose proof delay_small as [DS _]. pose proof parts_nonneg as PN. pose proof params_small as PS. pose proof (sa_rp P Sa) as P1.
  rewrite (get_bank_at _ _ _ _ Hx). cbn [mbind res_bind]. pose proof (Hp _ _ _ Hx) as Hpx. destruct (Z.eqb_spec (openRow x) NO_ROW) as [Ho|Ho]; cbn [negb].
  - unfold tadd. rewrite u64_small by lia. eexists _, v. split; [done|]. split; [by eapply held_inv|]. split; [by eapply held_closing|].
    split; [done|]. split; [|split; [done|]].
    + intros r' b'. case_decide as E; [destruct E as [-> ->]|done]. unfold shut. by rewrite (br_open _ _ _ _ R), Ho.
    + intros r' b'. unfold is_open. rewrite bank_at_set. case_decide as E; [destruct E as [-> ->]|tauto]. split; [|tauto].
      intros (y & (y0 & Hy0 & ->)%fmap_Some & Hy). cbn in Hy. congruence.
  - destruct (precharge_run now d r b x t false (bi_shape _ _ _ B) (bi_count _ _ _ B) Hx Ho) as (d' & -> & E); [lia..|].
    exists d', (dev_pre r b t v). split; [done|]. split; [eapply precharge_inv; try done; lia|]. split; [|split; [apply E|split; [|split; [done|by eapply pre_eqs_open]]]].
    + constructor.
      * intros r' b' y. rewrite (pe_bank _ _ _ _ _ _ E). case_decide as E0; [|by apply Hp]. intros (y0 & _ & ->)%fmap_Some. cbn. lia.
      * by eapply pre_later.
      * by eapply precharge_bounded.
      * apply E.
      * apply (pre_events_when _ _ _ _ _ _ E).
      * intros _. right. destruct (pre_events_when _ _ _ _ _ _ E) as [_ (T & ET & _)]. by exists T.
    + intros r' b'. unfold dev_pre. rewrite dev_set_at. case_decide as E0; [|done]. unfold shut. by rewrite (br_open _ _ _ _ R), neqb.
Qed.

Lemma precharge_rank_ok now r t U n : (r < Z.to_nat (ranksPerChannel P))%nat -> 0 <= now <= t -> t <= U + Cp P -> U < 2 ^ 61 -> forall b d v,
  (b + n = Z.to_nat (banksPerRank P))%nat -> banks_inv now d v -> (forall r b x, bank_at d r b = Some x -> preAllowedAt x <= t) -> bounded U d ->
  exists d' v', precharge_rank P now t r b n d = Ok d' /\ banks_inv now d' v' /\ closing now t U d d' /\ cmdList d' = cmdList d /\
    (forall r' b', dv_bank v' r' b' = if decide (r' = r /\ (b <= b')%nat) then shut t (dv_bank v r' b') else dv_bank v r' b') /\
    (forall r', dv_acts v' r' = dv_acts v r') /\ (forall r' b', is_open d' r' b' <-> is_open d r' b' /\ ~ (r' = r /\ (b <= b')%nat)).
Proof.
  intros Hr Hnow Ht HU. induction n as [|n IH]; intros b d v Hb B Hp Bd; cbn [precharge_rank].
  - assert (forall b', (b <= b')%nat -> bank_at d r b' = None) as Hout.
    { intros b' Hb'. destruct (bank_at d r b') as [x|] eqn:E; [|done]. destruct (proj1 (bank_at_some d r b' (bi_shape _ _ _ B)) (ex_intro _ x E)). lia. }
    exists d, v. split; [done|]. split; [done|]. split; [constructor; try done; apply later_refl|]. split; [done|]. split; [|split; [done|]].
    + intros r' b'. case_decide as E; [destruct E as [-> Hb']|done]. unfold shut. by rewrite (bi_out _ _ _ B r b' (Hout b' Hb')).
    + intros r' b'. split; [|tauto]. intros Ho. split; [done|]. intros [-> Hb']. destruct Ho as (x & Hx & _). by rewrite (Hout b' Hb') in Hx.
  - destruct (precharge_one now d v r b t U B ltac:(split; lia) Hp Bd Hnow Ht HU) as (d1 & v1 & E1 & B1 & C1 & L1 & V1 & W1 & O1).
    destruct (get_bank r b d) as [x|] eqn:Ex; [|done]. cbn [mbind res_bind] in *. rewrite E1. cbn [mbind res_bind].
    destruct (IH (S b) d1 v1) as (d2 & v2 & E2 & B2 & C2 & L2 & V2 & W2 & O2); [lia|done|apply C1|apply C1|].
    exists d2, v2. split; [done|]. split; [done|]. split; [by eapply closing_trans|]. split; [congruence|]. split; [|split; [intros r'; by rewrite W2|]].
    + intros r' b'. rewrite V2, V1. destruct (decide (r' = r)) as [->|]; [|by rewrite !decide_False by tauto].
      destruct (lt_eq_lt_dec b b') as [[Hlt| ->]|Hgt].
      * rewrite (decide_True (P := r = r /\ (S b <= b')%nat)), (decide_True (P := r = r /\ (b <= b')%nat)) by (split; [done|lia]).
        by rewrite decide_False by lia.
      * rewrite decide_False by lia. rewrite !decide_True by (split; [done|lia]). done.
      * by rewrite !decide_False by lia.
    + intros r' b'. rewrite O2, O1. assert ((r' = r /\ (b <= b')%nat) <-> (r' = r /\ b' = b) \/ (r' = r /\ (S b <= b')%nat)) by lia. tauto.
Qed.

Lemma precharge_ranks_ok now t U n : 0 <= now <= t -> t <= U + Cp P -> U < 2 ^ 61 -> forall r d v,
  (r + n = Z.to_nat (ranksPerChannel P))%nat -> banks_inv now d v -> legal P (cmdList d) v ->
  (forall r b x, bank_at d r b = Some x -> preAllowedAt x <= t) -> bounded U d ->
  exists d' v', precharge_ranks P now t r n d = Ok d' /\ banks_inv now d' v' /\ legal P (cmdList d') v' /\ closing now t U d d' /\
    (forall r' b', is_open d' r' b' <-> is_open d r' b' /\ (r' < r)%nat).
Proof.
  intros Hnow Ht HU. induction n as [|n IH]; intros r d v Hr B Lg Hp Bd; cbn [precharge_ranks].
  - exists d, v. split; [done|]. split; [done|]. split; [done|]. split; [constructor; try done; apply later_refl|].
    intros r' b'. split; [|tauto]. intros Ho. split; [done|]. destruct Ho as (x & Hx & _).
    destruct (proj1 (bank_at_some d r' b' (bi_shape _ _ _ B)) (ex_intro _ x Hx)). lia.
  - destruct (precharge_rank_ok now r t U (Z.to_nat (banksPerRank P)) ltac:(lia) Hnow Ht HU 0 d v ltac:(lia) B Hp Bd) as (d1 & v1 & -> & B1 & C1 & L1 & V1 & W1 & O1).
    cbn [mbind res_bind]. set (d1' := issue PREA r 0 t d1). assert (same_banks d1 d1') as Sm by done.
    set (v1' := v <| dv_bank := fun r' b' => let x := dv_bank v r' b' in if decide (r' = r) then if dv_open x then x <| dv_open := false |> <| dv_pre := Some t |> else x else x |>).
    assert (dev_eq v1 v1') as Eq.
    { split; [|done]. intros r' b'. rewrite V1. cbn. destruct (decide (r' = r)) as [->|]; [by rewrite decide_True by lia|by rewrite decide_False by tauto]. }
    assert (dev_step P v (mkCmd PREA r 0 t) v1') as St.
    { constructor. intros b' Ho. destruct (bank_at d r b') as [x|] eqn:Ex; [|by rewrite (bi_out _ _ _ B r b' Ex) in Ho].
      pose proof (bi_rel _ _ _ B _ _ _ Ex) as R. rewrite (br_open _ _ _ _ R) in Ho. apply negb_true_iff, Z.eqb_neq in Ho.
      destruct (br_row _ _ _ _ R Ho) as [_ Hl]. pose proof (Hp _ _ _ Ex). lia. }
    destruct (IH (S r) d1' v1') as (d2 & v2 & E2 & B2 & Lg2 & C2 & O2); [lia| | |apply C1|eapply same_bounded; [done|apply C1]|].
    { eapply same_inv; [done|]. by eapply banks_inv_eq. }
    { unfold d1'. cbn. rewrite L1. by econstructor. }
    exists d2, v2. split; [done|]. split; [done|]. split; [done|]. split; [eapply closing_trans; [exact C1|]; by eapply closing_same|].
    intros r' b'. rewrite O2. change (is_open d1' r' b') with (is_open d1 r' b'). rewrite O1.
    assert ((r' < r)%nat <-> ~ (r' = r /\ (0 <= b')%nat) /\ (r' < S r)%nat) by lia. tauto.
Qed.

(** Precharge of all banks. *)
Lemma precharge_all_ok now d v U : banks_inv now d v -> legal P (cmdList d) v -> bounded U d -> 0 <= now <= U -> U < 2 ^ 61 ->
  exists d' v', precharge_all P now d = Ok d' /\ banks_inv now d' v' /\ legal P (cmdList d') v' /\ numBanksActive d' = 0 /\
    later now d now d' /\ bounded U d' /\ rest_of d' = rest_of d /\ (forall e, e <> Precharge -> when_ e d' = when_ e d) /\ (busy d -> busy d').
Proof.
  intros B Lg Bd Hnow HU. pose proof parts_nonneg. destruct (pre_all_at_ok now d (U + Cp P)) as [Ht Hp]; [lia|intros r b x Hx; apply (bo_bank _ _ Bd _ _ _ Hx)|].
  destruct (precharge_ranks_ok now (pre_all_at now d) U (Z.to_nat (ranksPerChannel P)) ltac:(lia) ltac:(lia) HU 0 d v ltac:(lia) B Lg Hp Bd)
    as (d' & v' & E & B' & Lg' & [C1 C2 C3 C4 C5 C6] & O).
  exists d', v'. split; [done|]. split; [done|]. split; [done|]. split; [|done].
  apply (counted_zero d' (bi_count _ _ _ B')). intros r b Ho. apply O in Ho as [_ Hlt]. lia.
Qed.

(** ** Refresh *)
Definition dev_ref_at (now : Z) (l : list nat) (v : Dev) : Dev :=
  v <| dv_bank := fun r b => let x := dv_bank v r b in if decide (r ∈ l) then x <| dv_ref := Some now |> else x |>.

(** When no row is open and the last precharge was noticed, all is over. *)
Lemma quiet_settled now d z : counted d -> numBanksActive d = 0 -> when_ Precharge d = None -> settled now d z -> z <= now.
Proof.
  intros Hc Hn Hp [H|[(T & HT & _)|(r & b & x & Hx & Ho & _)]]; [done|congruence|].
  exfalso. apply (proj1 (counted_zero d Hc) Hn r b). by exists x.
Qed.

Lemma refresh_cmds now l d : let d' := foldl (fun d r => issue REF r 0 now d) d l in
  same_banks d d' /\ rest_of d' = rest_of d /\ cmdList d' = ((fun r => mkCmd REF r 0 now) <$> reverse l) ++ cmdList d.
Proof.
  revert d. induction l as [|r l IH]; intros d; [done|]. destruct (IH (issue REF r 0 now d)) as (I1 & I2 & I3). cbn [foldl].
  split; [exact I1|]. split; [exact I2|]. by rewrite I3, reverse_cons, fmap_app, <- app_assoc.
Qed.

Lemma refresh_legal now l cmds v : legal P cmds v ->
  (forall r b, dv_open (dv_bank v r b) = false /\ since (dv_pre (dv_bank v r b)) (tRP P) now) ->
  exists v', legal P (((fun r => mkCmd REF r 0 now) <$> reverse l) ++ cmds) v' /\ dev_eq (dev_ref_at now l v) v'.
Proof.
  revert cmds v. induction l as [|r l IH]; intros cmds v Lg H; cbn [foldl].
  - exists v. split; [done|]. split; [|done]. intros r b. cbn. by rewrite decide_False by apply not_elem_of_nil.
  - set (v1 := v <| dv_bank := fun r' b' => let x := dv_bank v r' b' in if decide (r' = r) then x <| dv_ref := Some now |> else x |>).
    destruct (IH (mkCmd REF r 0 now :: cmds) v1) as (v' & L' & E1 & E2).
    + econstructor; [done|]. constructor. intros b'. apply H.
    + intros r' b'. cbn. case_decide; apply H.
    + exists v'. split; [by rewrite reverse_cons, fmap_app, <- app_assoc|]. split; [|exact E2]. intros r' b'. rewrite <- E1. cbn.
      destruct (decide (r' = r)) as [->|]; [rewrite (decide_True (P := r ∈ r :: l)) by (by left); by case_decide|].
      destruct (decide (r' ∈ l)); [by rewrite decide_True by (by right)|by rewrite decide_False by (rewrite elem_of_cons; tauto)].
Qed.

Lemma refresh_all_ok now d v : banks_inv now d v -> legal P (cmdList d) v -> numBanksActive d = 0 -> when_ Precharge d = None ->
  when_ Activate d = None -> 0 <= now < 2 ^ 61 -> let d' := refresh_all P now d in
  (exists v', banks_inv now d' v' /\ legal P (cmdList d') v') /\ numBanksActive d' = 0 /\ events d' = events d /\ (rest_of d' = rest_of d) /\ (forall r b x, bank_at d' r b = Some x -> exists y, bank_at d r b = Some y /\ x = y <| actAllowedAt := now + tRFC P |>).
Proof.
  intros B Lg Hn Hp Ha Hnow d'. pose proof delay_small as [DS _]. pose proof parts_nonneg as PN. pose proof params_small as PS.
  pose proof (sa_rfc P Sa) as P1. pose proof (sa_rp P Sa) as P2. pose proof (sa_rrd P Sa) as P3. pose proof (sa_rrd_l P Sa) as P4. pose proof (sa_xaw P Sa) as P5. pose proof (sa_ras P Sa) as P6.
  assert (forall z, settled now d z -> z <= now) as Q by (intros z; by apply quiet_settled; [apply (bi_count _ _ _ B)| |]).
  pose proof (proj1 (counted_zero d (bi_count _ _ _ B)) Hn) as Hc.
  assert (forall r b, dv_open (dv_bank v r b) = false /\ since (dv_pre (dv_bank v r b)) (tRP P) now) as Hq.
  { intros r b. split.
    - destruct (bank_at d r b) as [x|] eqn:E; [|by apply (bi_out _ _ _ B)]. rewrite (br_open _ _ _ _ (bi_rel _ _ _ B _ _ _ E)).
      apply negb_false_iff, Z.eqb_eq. destruct (Z.eq_dec (openRow x) NO_ROW); [done|]. exfalso. apply (Hc r b). by exists x.
    - destruct (dv_pre (dv_bank v r b)) as [p|] eqn:E; [|done]. apply Q. by eapply (bi_pre_over _ _ _ B). }
  set (d1 := set_all (fun _ x => x <| actAllowedAt := now + tRFC P |>) d). set (l := seq 0 (Z.to_nat (ranksPerChannel P))).
  assert (d' = foldl (fun d r => issue REF r 0 now d) d1 l) as E0 by (unfold d', refresh_all, tadd; by rewrite u64_small by lia).
  destruct (refresh_cmds now l d1) as (Sm & Er & Ec). rewrite <- E0 in Sm, Er, Ec.
  destruct (refresh_legal now l (cmdList d) v Lg Hq) as (v' & Lg' & Ev).
  assert (forall r b, bank_at d1 r b = (fun x => x <| actAllowedAt := now + tRFC P |>) <$> bank_at d r b) as E1 by (intros r b; apply (bank_at_all d (fun _ x => x <| actAllowedAt := now + tRFC P |>))).
  assert (forall z, settled now d z -> settled now d1 z) as Sz by (intros z Hz; left; by apply Q).
  pose proof Sm as (_ & _ & S3 & S4). split; [|split; [rewrite S3; exact Hn|split; [exact S4|split; [exact Er|]]]].
  - exists v'. split; [|by rewrite Ec]. eapply same_inv; [exact Sm|]. eapply banks_inv_eq; [exact Ev|].
    pose proof B as [B1 B2 B3 B4 B5 B6 B7 B8 B9 B10]. constructor; try done.
    + by apply shape_all.
    + eapply counted_same; [exact B2|done|]. intros r b. unfold is_open. rewrite E1. split.
      * intros (x & (y & Hy & ->)%fmap_Some & Ho). by exists y.
      * intros (y & Hy & Ho). rewrite Hy. by eexists.
    + intros r b x. rewrite E1. intros (y & Hy & ->)%fmap_Some. destruct (B3 _ _ _ Hy) as [N1 N2 N3 N4 N5 N6 N7 N8 N9 N10 N11].
      assert (r ∈ l) as Hr by (apply list_elem_of_In, in_seq; destruct (proj1 (bank_at_some d r b B1) (ex_intro _ y Hy)); lia).
      assert (forall a, a ∈ dv_acts v r -> a + tRAS P + tRP P <= now) as Ht by (intros a Ha'; apply Q; apply (B7 r a Ha')).
      constructor; cbn; rewrite ?(decide_True (P := r ∈ l)) by done; cbn; try done.
      * lia.
      * intros r' b'. case_decide; apply N6.
      * eapply since_mono; [apply Hq|lia].
      * intros b'. rewrite (decide_True (P := r ∈ l)) by done. cbn. destruct (dv_act (dv_bank v r b')) as [a|] eqn:Ea; [|done]. cbn. pose proof (Ht a (B6 _ _ _ Ea)). unfold rrd. case_match; lia.
      * intros a Ha'. pose proof (Ht a Ha'). lia.
      * unfold window_ok. destruct (dv_acts v r !! _) as [a|] eqn:Ea; [|done]. pose proof (Ht a ltac:(by eapply list_elem_of_lookup_2)). lia.
    + intros r b. rewrite E1. intros Hb%fmap_None. cbn. case_decide; by apply B4.
    + intros r b a. cbn. case_decide; apply B6.
    + intros r a Ha'. destruct (B7 r a Ha'). split; [done|by apply Sz].
    + intros r b p. cbn. case_decide; intros Hp'; apply Sz; by eapply B8.
    + intros A HA. exfalso. change (when_ Activate d = Some A) in HA. congruence.
  - intros r b x. rewrite (same_bank_at _ _ Sm), E1. intros (y & Hy & ->)%fmap_Some. by exists y.
Qed.

End Ops.
