(* ===== verification/DramCtrl.v ===== *)
(** * The DRAM controller

    Models the class [DRAMCtrl] of [mem/dram_ctrl.cc]: the requests it takes, the
    events that serve them, refresh the banks and follow the power state, the
    drain, and the constructor.  A response goes to the packet queue of the port
    ([PacketQueue]): the calls of [schedTimingResp] are recorded with the tick they
    ask for.  A retry is the last action of the handler that sends it, so that
    what the peer does in answer is a request that follows; retries and signals of
    the end of a drain are counted.  Statistics and the power model, which only
    receives commands, are left out. *)

From S2P Require Import Prelude.
From S2P Require Import BitMath.
From S2P Require Import AddrRange.
From S2P Require Import Packet.
From S2P Require Import AbstractMem.
From S2P Require Import DramBank.
From S2P Require Import DramAddr.
From S2P Require Import DramQueue.

(** ** State *)
Inductive BusState := READ | READ_TO_WRITE | WRITE | WRITE_TO_READ.
Inductive RefreshState := REF_IDLE | REF_DRAIN | REF_PRE | REF_RUN.
Inductive PowerState := PWR_IDLE | PWR_REF | PWR_PRE_PDN | PWR_ACT | PWR_ACT_PDN.

#[global] Instance BusState_eq_dec : EqDecision BusState.
Proof. solve_decision. Defined.
#[global] Instance RefreshState_eq_dec : EqDecision RefreshState.
Proof. solve_decision. Defined.
#[global] Instance PowerState_eq_dec : EqDecision PowerState.
Proof. solve_decision. Defined.

(** A [BurstHelper] is [burstCount] and [burstsServiced], under the name of the
    object; the names that are free begin at [new_helper]. *)
Record DRAMCtrl := mkDRAMCtrl {
  dram : Dram;
  array : AbstractMemory;
  readQueue : list DRAMPacket;
  writeQueue : list DRAMPacket;
  respQueue : list DRAMPacket;
  helpers : gmap positive (Z * Z);
  new_helper : positive;
  retryRdReq : bool;
  retryWrReq : bool;
  busState : BusState;
  refreshState : RefreshState;
  refreshDueAt : Z;
  pwrState : PowerState;
  pwrStateTrans : PowerState;
  drainManager : bool;
  drainSignals : Z;
  retries : Z;
  responses : list (Packet * Z)
}.

Definition scheduled (e : Ev) (c : DRAMCtrl) : bool := negb (bool_decide (when_ e (dram c) = None)).
Definition schedule_ev (e : Ev) (now t : Z) (c : DRAMCtrl) : res DRAMCtrl :=
  d ← sched e now t (dram c); Ok (c <| dram := d |>).

Definition sendRetry (c : DRAMCtrl) : DRAMCtrl := c <| retries := retries c + 1 |>.
Definition signalDrainDone (c : DRAMCtrl) : DRAMCtrl := c <| drainSignals := drainSignals c + 1 |> <| drainManager := false |>.
Definition empty_ {A} (l : list A) : bool := match l with [] => true | _ => false end.

Section Controller.

Context (P : DramParams).

(** ** Requests *)
Definition accessAndRespond (now : Z) (pkt : Packet) (static_latency : Z) (c : DRAMCtrl) : res DRAMCtrl :=
  let needs := needsResponse pkt in
  '(m, pkt) ← access pkt (array c);
  let c := c <| array := m |> in
  if needs then
    _ ← assert_ (isResponse pkt);
    let pkt := pkt <| firstWordDelay := 0 |> <| lastWordDelay := 0 |> in
    Ok (c <| responses := responses c ++ [(pkt, u64 (now + static_latency))] |>)
  else Ok c.

Definition kick (now : Z) (c : DRAMCtrl) : res DRAMCtrl :=
  if negb (scheduled NextReq c) then schedule_ev NextReq now now c else Ok c.

Definition addToReadQueue (now : Z) (pkt : Packet) (pktCount : Z) (c : DRAMCtrl) : res DRAMCtrl :=
  _ ← assert_ (negb (isWrite pkt));
  _ ← assert_ (negb (pktCount =? 0));
  a ← getAddr pkt;
  size ← getSize pkt;
  let helper := if 1 <? pktCount then Some (new_helper c) else None in
  '(queue, pktsServicedByWrQ) ←
    add_reads P now pkt a size helper (length (respQueue c)) (writeQueue c) (Z.to_nat pktCount) a (readQueue c) 0;
  let c := c <| readQueue := queue |> in
  if pktsServicedByWrQ =? pktCount then accessAndRespond now pkt (frontendLatency P) c
  else
    let c := match helper with
             | Some h => c <| helpers := <[h := (pktCount, pktsServicedByWrQ)]> (helpers c) |> <| new_helper := Pos.succ h |>
             | None => c
             end in
    kick now c.

Definition addToWriteQueue (now : Z) (pkt : Packet) (pktCount : Z) (c : DRAMCtrl) : res DRAMCtrl :=
  _ ← assert_ (isWrite pkt);
  a ← getAddr pkt;
  size ← getSize pkt;
  queue ← add_writes P now pkt a size (Z.to_nat pktCount) a (writeQueue c);
  c ← accessAndRespond now pkt (frontendLatency P) (c <| writeQueue := queue |>);
  kick now c.

Definition recvTimingReq (now : Z) (pkt : Packet) (c : DRAMCtrl) : res (DRAMCtrl * bool) :=
  if memInhibitAsserted pkt then Ok (c, true)
  else
    size ← getSize pkt;
    a ← getAddr pkt;
    count ← dram_pkt_count P a size;
    if isRead pkt then
      _ ← assert_ (negb (size =? 0));
      if readQueueFull P (readQueue c) (respQueue c) count then Ok (c <| retryRdReq := true |>, false)
      else c ← addToReadQueue now pkt count c; Ok (c, true)
    else if isWrite pkt then
      _ ← assert_ (negb (size =? 0));
      if writeQueueFull P (writeQueue c) count then Ok (c <| retryWrReq := true |>, false)
      else c ← addToWriteQueue now pkt count c; Ok (c, true)
    else c ← accessAndRespond now pkt 1 c; Ok (c, true).

(** The latency does not reflect the state of the banks. *)
Definition recvAtomic (pkt : Packet) (c : DRAMCtrl) : res (DRAMCtrl * Packet * Z) :=
  '(m, pkt) ← access pkt (array c);
  let latency := if negb (memInhibitAsserted pkt) && hasData pkt then u64 (tRP P + tRCD P + tCL P) else 0 in
  Ok (c <| array := m |>, pkt, latency).

Definition recvFunctional (pkt : Packet) (c : DRAMCtrl) : res (DRAMCtrl * Packet) :=
  '(m, pkt) ← functionalAccess pkt (array c); Ok (c <| array := m |>, pkt).

(** ** Responses *)

(** A burst of the packet is served; the packet is answered with its last. *)
Definition burst_served (now : Z) (p : DRAMPacket) (c : DRAMCtrl) : res DRAMCtrl :=
  let latency := u64 (frontendLatency P + backendLatency P) in
  match burstHelper p with
  | Some h =>
      '(burstCount, burstsServiced) ← deref (helpers c !! h);
      let burstsServiced := u32 (burstsServiced + 1) in
      if burstsServiced =? burstCount then
        c ← accessAndRespond now (dp_pkt p) latency c;
        Ok (c <| helpers := delete h (helpers c) |>)
      else Ok (c <| helpers := <[h := (burstCount, burstsServiced)]> (helpers c) |>)
  | None => accessAndRespond now (dp_pkt p) latency c
  end.

Definition processRespondEvent (now : Z) (c : DRAMCtrl) : res DRAMCtrl :=
  match respQueue c with
  | [] => undefined
  | p :: queue =>
      c ← burst_served now p c;
      let c := c <| respQueue := queue |> in
      c ← match queue with
          | p :: _ => _ ← assert_ (now <=? readyTime p); schedule_ev Respond now (readyTime p) c
          | [] => if empty_ (writeQueue c) && empty_ (readQueue c) && drainManager c then Ok (signalDrainDone c) else Ok c
          end;
      if retryRdReq c then Ok (sendRetry (c <| retryRdReq := false |>)) else Ok c
  end.

(** ** The next request *)

(** The direction changes, and whether it has just done so. *)
Definition switch_bus (c : DRAMCtrl) : DRAMCtrl * bool :=
  match busState c with
  | READ_TO_WRITE => (c <| dram := (dram c) <| readsThisTime := 0 |> |> <| busState := WRITE |>, true)
  | WRITE_TO_READ => (c <| dram := (dram c) <| writesThisTime := 0 |> |> <| busState := READ |>, true)
  | _ => (c, false)
  end.

(** The bubble of a change of direction within a rank. *)
Definition turn_around (switched : bool) (p : DRAMPacket) (bubble : Z) (d : Dram) : Dram :=
  if switched && bool_decide (rank p = activeRank d) then d <| busBusyUntil := u64 (busBusyUntil d + bubble) |> else d.

(** Whether to go on with further requests. *)
Definition next_read (now : Z) (switched : bool) (c : DRAMCtrl) : res (DRAMCtrl * bool) :=
  match readQueue c with
  | [] =>
      if negb (empty_ (writeQueue c)) && (drainManager c || (writeLowThreshold P <? Z.of_nat (length (writeQueue c))))
      then Ok (c <| busState := READ_TO_WRITE |>, true)
      else Ok (if empty_ (respQueue c) && drainManager c then signalDrainDone c else c, false)
  | _ =>
      queue ← chooseNext P now (dram c) (readQueue c) switched;
      p ← deref (head queue);
      '(d, p) ← doDRAMAccess P now p queue (turn_around switched p (tWTR P + tCL P) (dram c));
      let c := c <| dram := d |> <| readQueue := tail queue |> in
      _ ← assert_ (dp_size p <=? burstSize P);
      _ ← assert_ (now <=? readyTime p);
      c ← match last (respQueue c) with
          | None => schedule_ev Respond now (readyTime p) c
          | Some q => _ ← assert_ (readyTime q <=? readyTime p); _ ← assert_ (scheduled Respond c); Ok c
          end;
      let c := c <| respQueue := respQueue c ++ [p] |> in
      Ok (if writeHighThreshold P <? Z.of_nat (length (writeQueue c)) then c <| busState := READ_TO_WRITE |> else c, true)
  end.

Definition next_write (now : Z) (switched : bool) (c : DRAMCtrl) : res (DRAMCtrl * bool) :=
  queue ← chooseNext P now (dram c) (writeQueue c) switched;
  p ← deref (head queue);
  _ ← assert_ (dp_size p <=? burstSize P);
  '(d, _) ← doDRAMAccess P now p queue (turn_around switched p (tRTW P) (dram c));
  let c := c <| dram := d |> <| writeQueue := tail queue |> in
  let size := Z.of_nat (length (writeQueue c)) in
  Ok (if (size =? 0) || ((u64 (size + minWritesPerSwitch P) <? writeLowThreshold P) && negb (drainManager c)) ||
         (negb (empty_ (readQueue c)) && (minWritesPerSwitch P <=? writesThisTime (dram c)))
      then c <| busState := WRITE_TO_READ |> else c, true).

Definition processNextReqEvent (now : Z) (c : DRAMCtrl) : res DRAMCtrl :=
  let '(c, switched) := switch_bus c in
  match refreshState c with
  | REF_DRAIN => schedule_ev Refresh now now (c <| refreshState := REF_PRE |>)
  | REF_PRE | REF_RUN => Ok c
  | REF_IDLE =>
      '(c, more) ← (if decide (busState c = READ) then next_read now switched c else next_write now switched c);
      if more : bool then
        c ← schedule_ev NextReq now (Z.max (nextReqTime (dram c)) now) c;
        if retryWrReq c && (Z.of_nat (length (writeQueue c)) <? writeBufferSize P)
        then Ok (sendRetry (c <| retryWrReq := false |>)) else Ok c
      else Ok c
  end.

(** ** The power state and the refresh *)
Definition schedulePowerEvent (s : PowerState) (now t : Z) (c : DRAMCtrl) : res DRAMCtrl :=
  _ ← assert_ (now <=? t);
  if negb (scheduled Power c) then schedule_ev Power now t (c <| pwrStateTrans := s |>) else panic.

Definition processActivateEvent (now : Z) (c : DRAMCtrl) : res DRAMCtrl :=
  if decide (pwrState c = PWR_ACT) then Ok c else schedulePowerEvent PWR_ACT now now c.

Definition processPrechargeEvent (now : Z) (c : DRAMCtrl) : res DRAMCtrl :=
  if numBanksActive (dram c) =? 0 then schedulePowerEvent PWR_IDLE now now c else Ok c.

Definition refresh_precharge (now : Z) (c : DRAMCtrl) : res DRAMCtrl :=
  c ← (if decide (pwrState c = PWR_IDLE) then schedulePowerEvent PWR_REF now now c
       else d ← precharge_all P now (dram c); Ok (c <| dram := d |>));
  let c := c <| refreshState := REF_RUN |> in
  _ ← assert_ (numBanksActive (dram c) =? 0);
  Ok c.

Definition refresh_run (now : Z) (c : DRAMCtrl) : res DRAMCtrl :=
  _ ← assert_ (numBanksActive (dram c) =? 0);
  _ ← assert_ (bool_decide (pwrState c = PWR_REF));
  let ref_done_at := tadd now (tRFC P) in
  let c := c <| dram := refresh_all P now (dram c) |> in
  if u64 (refreshDueAt c + tREFI P) <? ref_done_at then Err Fatal
  else
    c ← schedule_ev Refresh now (u64 (refreshDueAt c + tREFI P - tRP P)) c;
    _ ← assert_ (negb (scheduled Power c));
    schedulePowerEvent PWR_IDLE now ref_done_at c.

Definition processRefreshEvent (now : Z) (c : DRAMCtrl) : res DRAMCtrl :=
  let c := if decide (refreshState c = REF_IDLE) then c <| refreshDueAt := now |> <| refreshState := REF_DRAIN |> else c in
  match refreshState c with
  | REF_DRAIN => if scheduled NextReq c then Ok c else refresh_precharge now (c <| refreshState := REF_PRE |>)
  | REF_PRE => refresh_precharge now c
  | REF_RUN => refresh_run now c
  | REF_IDLE => Ok c
  end.

Definition processPowerEvent (now : Z) (c : DRAMCtrl) : res DRAMCtrl :=
  let prev_state := pwrState c in
  let c := c <| pwrState := pwrStateTrans c |> in
  c ← (if decide (pwrState c = PWR_IDLE) then
         if decide (prev_state = PWR_REF) then
           let c := c <| refreshState := REF_IDLE |> in
           _ ← assert_ (negb (scheduled NextReq c));
           schedule_ev NextReq now now c
         else
           _ ← assert_ (bool_decide (prev_state = PWR_ACT));
           if decide (refreshState c = REF_RUN) then
             _ ← assert_ (negb (scheduled Power c)); Ok (c <| pwrState := PWR_REF |>)
           else Ok c
       else Ok c);
  if decide (pwrState c = PWR_REF) then
    _ ← assert_ (bool_decide (refreshState c = REF_RUN));
    processRefreshEvent now c
  else Ok c.

(** ** Start and drain *)
Definition startup (now : Z) (c : DRAMCtrl) : res DRAMCtrl :=
  schedule_ev Refresh now (u64 (now + tREFI P - tRP P))
    (c <| dram := (dram c) <| busBusyUntil := u64 (now + tRP P + tRCD P + tCL P) |> |>).

(** [port_count] is the answer of the port's queue. *)
Definition drain (now port_count : Z) (c : DRAMCtrl) : res (DRAMCtrl * Z) :=
  if negb (empty_ (writeQueue c) && empty_ (readQueue c) && empty_ (respQueue c)) then
    let c := c <| drainManager := true |> in
    c ← (if negb (empty_ (writeQueue c)) && negb (scheduled NextReq c) then schedule_ev NextReq now now c else Ok c);
    Ok (c, u32 (port_count + 1))
  else Ok (c, port_count).

Definition process (e : Ev) (now : Z) (c : DRAMCtrl) : res DRAMCtrl :=
  match e with
  | NextReq => processNextReqEvent now c
  | Respond => processRespondEvent now c
  | Activate => processActivateEvent now c
  | Precharge => processPrechargeEvent now c
  | Refresh => processRefreshEvent now c
  | Power => processPowerEvent now c
  end.

End Controller.

(** ** The constructor *)

(** The parameters that are not copied; [copied] holds those that are. *)
Record DRAMCtrlParams := mkDRAMCtrlParams {
  copied : DramParams;
  device_bus_width : Z;
  burst_length : Z;
  device_rowbuffer_size : Z;
  devices_per_rank : Z;
  write_high_thresh_perc : Z;
  write_low_thresh_perc : Z
}.

Definition fatal_if (b : bool) : res unit := if b then Err Fatal else Ok tt.

Definition check_interleaving (P : DramParams) (rowBufferSize : Z) (r : AR.AddrRange) : res unit :=
  if AR.interleaved r then
    _ ← fatal_if (negb (channels P =? AR.stripes r));
    match addrMapping P with
    | RoRaBaChCo => fatal_if (negb (rowBufferSize =? AR.granularity r))
    | _ =>
        _ ← assert_ (1 <=? columnsPerStripe P);
        _ ← fatal_if (rowBufferSize <? AR.granularity r);
        assert_ (columnsPerStripe P <=? columnsPerRowBuffer P)
    end
  else Ok tt.

Definition check_groups (P : DramParams) : res unit :=
  if bankGroupArch P then
    _ ← fatal_if (banksPerRank P <? bankGroupsPerRank P);
    _ ← fatal_if (negb (banksPerRank P mod bankGroupsPerRank P =? 0));
    _ ← fatal_if (tCCD_L P <=? tBURST P);
    fatal_if (tRRD_L P <=? tRRD P)
  else Ok tt.

Definition banks_new (P : DramParams) : list (list Bank) :=
  replicate (Z.to_nat (ranksPerChannel P))
    ((fun b => Bank_new (u8 (if bankGroupArch P then Z.of_nat b mod bankGroupsPerRank P else Z.of_nat b))) <$>
       seq 0 (Z.to_nat (banksPerRank P))).

Definition Dram_new (P : DramParams) : Dram :=
  mkDram (banks_new P) (replicate (Z.to_nat (ranksPerChannel P)) (replicate (Z.to_nat (activationLimit P)) 0)) 0 0 0 0 0 0 [] [].

(** The parameters of the controller, and its state. *)
Definition DRAMCtrl_new (p : DRAMCtrlParams) (m : AbstractMemory) : res (DramParams * DRAMCtrl) :=
  let P := copied p in
  let burst := u32 (devices_per_rank p * burst_length p * device_bus_width p) / 8 in
  let rowBufferSize := u32 (devices_per_rank p * device_rowbuffer_size p) in
  columns ← udiv rowBufferSize burst;
  stripe ← udiv (AR.granularity (range m)) burst;
  let P := P <| burstSize := burst |> <| columnsPerRowBuffer := columns |> <| columnsPerStripe := u32 stripe |>
             <| writeHighThreshold := u32 (writeBufferSize P * write_high_thresh_perc p) / 100 |>
             <| writeLowThreshold := u32 (writeBufferSize P * write_low_thresh_perc p) / 100 |> in
  _ ← fatal_if (write_high_thresh_perc p <=? write_low_thresh_perc p);
  l ← ceilLog2 (AR.size (range m));
  rows ← udiv (u64 (Z.shiftl 1 l)) (u32 (rowBufferSize * banksPerRank P * ranksPerChannel P));
  let P := P <| rowsPerBank := u32 rows |> in
  _ ← check_interleaving P rowBufferSize (range m);
  _ ← fatal_if ((tREFI P <=? tRP P) || (tREFI P <=? tRFC P));
  _ ← check_groups P;
  _ ← assert_ (u64 (tRCD P + tCL P) <=? tRAS P);
  _ ← assert_ (tBURST P <=? tRTP P);
  Ok (P, mkDRAMCtrl (Dram_new P) m [] [] [] ∅ 1 false false READ REF_IDLE 0 PWR_IDLE PWR_IDLE false 0 0 []).
