(* ===== verification/DramInv.v ===== *)
(** * The DRAM controller as a machine

    The handlers of [DramCtrl] put together: the controller serves the first of
    its events, takes a request or is asked to drain.  What holds between two
    turns is [inv]: what the banks are and when they are free, what is in the
    queues, what the bus is planned for, and where the controller is in the
    refresh. *)

From S2P Require Import Prelude.
From S2P Require Import AddrRange.
From S2P Require Import Packet.
From S2P Require Import AbstractMem.
From S2P Require Import DramBank.
From S2P Require Import DramAddr.
From S2P Require Import DramQueue.
From S2P Require Import DramSpec.
From S2P Require Import DramOps.
From S2P Require Import DramCtrl.

(** ** Turns *)

(** The times are far from the end of the clock. *)
Definition LIMIT : Z := 2 ^ 59.

Inductive Input := Serve | Request (t : Z) (pkt : Packet) | Drain (t port_count : Z).

Definition pop (l : list (Ev * Z)) (c : DRAMCtrl) : DRAMCtrl := c <| dram := (dram c) <| events := l |> |>.

Section Machine.

Context (P : DramParams).

(** A power event for the present is the next to be served: it comes in front of
    its equals, and nothing else happens before. *)
Definition follow (now : Z) (c : DRAMCtrl) : res DRAMCtrl :=
  match events (dram c) with
  | (Power, t) :: l => if t =? now then process P Power now (pop l c) else Ok c
  | _ => Ok c
  end.

Definition serve (c : DRAMCtrl) : res (DRAMCtrl * Z) :=
  match events (dram c) with
  | [] => undefined
  | (e, t) :: l =>
      c ← process P e t (pop l c);
      c ← match e with Activate | Precharge | Refresh => follow t c | _ => Ok c end;
      Ok (c, t)
  end.

(** The state, the time, and how many answers have come to be owed. *)
Definition turn (i : Input) (c : DRAMCtrl) : res (DRAMCtrl * Z * Z) :=
  match i with
  | Serve => '(c, t) ← serve c; Ok (c, t, 0)
  | Request t pkt =>
      '(c, taken) ← recvTimingReq P t pkt c;
      Ok (c, t, if taken && negb (memInhibitAsserted pkt) && needsResponse pkt then 1 else 0)
  | Drain t port_count => '(c, _) ← drain t port_count c; Ok (c, t, 0)
  end.

(** [Mem] holds of the memory states that the requests can be made on. *)
Context (Mem : AbstractMemory -> Prop).

Definition served (pkt : Packet) : Prop := forall m, Mem m ->
  exists m' pkt', access pkt m = Ok (m', pkt') /\ Mem m' /\ (needsResponse pkt = true -> isResponse pkt' = true).

Record good_request (pkt : Packet) : Prop := {
  gr_served : served pkt;
  gr_one : isRead pkt = true -> isWrite pkt = false /\ needsResponse pkt = true;
  gr_place : exists a size, getAddr pkt = Ok a /\ getSize pkt = Ok size /\ request_ok a size
}.

(** Between the last turn and the next event. *)
Definition in_time (now t : Z) (c : DRAMCtrl) : Prop :=
  now <= t < LIMIT /\ forall e t' l, events (dram c) = (e, t') :: l -> t <= t'.

Definition admissible (now : Z) (c : DRAMCtrl) (i : Input) : Prop :=
  match i with
  | Serve => forall e t l, events (dram c) = (e, t) :: l -> t < LIMIT
  | Request t pkt => in_time now t c /\ good_request pkt
  | Drain t _ => in_time now t c
  end.

(** The states of a controller from its start on, the time, and the number of
    answers owed so far. *)
Inductive reach : Z -> DRAMCtrl -> Z -> Prop :=
| reach_start p m now c0 c : Mem m -> DRAMCtrl_new p m = Ok (P, c0) -> 0 <= now < LIMIT -> startup P now c0 = Ok c ->
    reach now c 0
| reach_turn now c n i c' now' k : reach now c n -> admissible now c i -> turn i c = Ok (c', now', k) -> reach now' c' (n + k).

(** Some events in a row, while there is time. *)
Fixpoint serves (k : nat) (now : Z) (c : DRAMCtrl) : res (DRAMCtrl * Z) :=
  match k with
  | O => Ok (c, now)
  | S k => '(c, t) ← serve c; _ ← assert_ (t <? LIMIT); serves k t c
  end.

(** ** The invariant *)

(** The bursts in the queues. *)
Definition spot (p : DRAMPacket) : Prop := at_bank P p /\ 0 <= row p < NO_ROW.
Definition read_entry (p : DRAMPacket) : Prop :=
  spot p /\ dp_size p <= burstSize P /\ served (dp_pkt p) /\ needsResponse (dp_pkt p) = true.
Definition write_entry (p : DRAMPacket) : Prop := spot p /\ entry_ok P p.

(** How many of the bursts [l] belong to a helper. *)
Definition parts_of (o : option positive) (l : list DRAMPacket) : Z := Z.of_nat (length (filter (fun p => burstHelper p = o) l)).

(** The requests that wait for an answer: those of one burst, and the helpers. *)
Definition owed (c : DRAMCtrl) : Z := parts_of None (readQueue c ++ respQueue c) + Z.of_nat (size (helpers c)).

Record queues (n : Z) (c : DRAMCtrl) : Prop := {
  q_mem : Mem (array c);
  q_reads : Forall read_entry (readQueue c);
  q_writes : Forall write_entry (writeQueue c);
  q_resp : Forall read_entry (respQueue c);
  q_read_room : Z.of_nat (length (readQueue c)) + Z.of_nat (length (respQueue c)) <= readBufferSize P;
  q_write_room : Z.of_nat (length (writeQueue c)) <= writeBufferSize P;
  q_helper : forall h, let k := parts_of (Some h) (readQueue c ++ respQueue c) in
    match helpers c !! h with
    | Some (count, serviced) => 0 <= serviced /\ serviced + k = count /\ 0 < k /\ count < 2 ^ 32
    | None => k = 0
    end;
  q_fresh : forall h, (new_helper c <= h)%positive -> helpers c !! h = None;
  q_owed : n = Z.of_nat (length (responses c)) + owed c;
  q_bus : busState c = WRITE \/ busState c = READ_TO_WRITE -> writeQueue c <> []
}.

(** What is planned for the bus, and the next request and response. *)
Record timing (now : Z) (c : DRAMCtrl) : Prop := {
  t_resp_sorted : StronglySorted (fun p q => readyTime p <= readyTime q) (respQueue c);
  t_resp_bus : Forall (fun p => readyTime p <= busBusyUntil (dram c)) (respQueue c);
  t_resp_event : when_ Respond (dram c) = readyTime <$> head (respQueue c);
  t_bus : S1 P <= busBusyUntil (dram c) <= default now (when_ NextReq (dram c)) + S1 P;
  t_last : nextReqTime (dram c) + S1 P <= busBusyUntil (dram c);
  t_next : refreshState c = REF_IDLE -> forall t, when_ NextReq (dram c) = Some t -> t <= now + ahead_max P;
  t_bounded : bounded P (Z.max now (busBusyUntil (dram c))) (dram c);
  t_work : refreshState c = REF_IDLE -> when_ NextReq (dram c) = None -> readQueue c = [] /\ busState c = READ
}.

(** The power state of the banks. *)
Record rows (now : Z) (c : DRAMCtrl) : Prop := {
  r_over : acts_over P now (dram c);
  r_power : when_ Power (dram c) = None;
  r_state : pwrState c = PWR_ACT /\ busy (dram c) \/
    pwrState c = PWR_IDLE /\
    (when_ Activate (dram c) = None -> numBanksActive (dram c) = 0 /\ when_ Precharge (dram c) = None) /\
    (forall A, when_ Activate (dram c) = Some A -> refreshState c = REF_IDLE /\ A <= now /\ ahead Activate Refresh (events (dram c)))
}.

(** If the next request is planned, it is the next event. *)
Definition next_first (c : DRAMCtrl) : Prop :=
  when_ NextReq (dram c) = None \/ exists t l, events (dram c) = (NextReq, t) :: l.

Inductive phase (now : Z) (c : DRAMCtrl) : Prop :=
| ph_idle : refreshState c = REF_IDLE -> rows now c -> (exists t, when_ Refresh (dram c) = Some t) -> phase now c
| ph_drain t : refreshState c = REF_DRAIN -> rows now c -> when_ Refresh (dram c) = None -> 0 <= refreshDueAt c <= now ->
    when_ NextReq (dram c) = Some t -> t <= refreshDueAt c + ahead_max P -> phase now c
| ph_pre t : refreshState c = REF_PRE -> rows now c -> when_ Refresh (dram c) = Some t -> 0 <= refreshDueAt c <= now ->
    t <= refreshDueAt c + ahead_max P -> next_first c -> phase now c
| ph_close t : refreshState c = REF_RUN -> pwrState c = PWR_ACT -> when_ Power (dram c) = None -> when_ Refresh (dram c) = None ->
    0 <= refreshDueAt c <= now -> numBanksActive (dram c) = 0 -> when_ Precharge (dram c) = Some t ->
    t <= refreshDueAt c + ahead_max P + S1 P + Cp P + tRP P -> next_first c -> phase now c
| ph_run t : refreshState c = REF_RUN -> pwrState c = PWR_REF -> pwrStateTrans c = PWR_IDLE -> when_ Power (dram c) = Some t ->
    (exists t', when_ Refresh (dram c) = Some t') -> ahead Power Refresh (events (dram c)) ->
    numBanksActive (dram c) = 0 -> when_ Activate (dram c) = None -> when_ Precharge (dram c) = None ->
    (forall r b x, bank_at (dram c) r b = Some x -> actAllowedAt x <= t) -> next_first c -> phase now c.

Definition banks_good (now : Z) (d : Dram) : Prop := exists v, banks_inv P now d v /\ legal P (cmdList d) v.

Record inv (n now : Z) (c : DRAMCtrl) : Prop := {
  i_now : 0 <= now < LIMIT;
  i_banks : banks_good now (dram c);
  i_queues : queues n c;
  i_timing : timing now c;
  i_phase : phase now c
}.

End Machine.
