(* ===== verification/DramSafe.v ===== *)
(** * The controller is safe

    From its start on, and whatever requests come, the DRAM controller of
    [DramInv] never fails, keeps the timing of the device, answers each request
    once, and always has an event that leads on. *)

From S2P Require Import Prelude.
From S2P Require Import AddrRange.
From S2P Require Import Packet.
From S2P Require Import AbstractMem.
From S2P Require Import DramBank.
From S2P Require Import DramAddr.
From S2P Require Import DramQueue.
From S2P Require Import DramSpec.
From S2P Require Import DramOps.
From S2P Require Import DramCtrl.
From S2P Require Import DramInv.
Set Warnings "-clear-no-such-hyp".

(** ** Events *)
Definition put (e : Ev) (t : Z) (d : Dram) : Dram := d <| events := ev_insert e t (events d) |>.
Definition pop_ (l : list (Ev * Z)) (d : Dram) : Dram := d <| events := l |>.

Lemma when_put e t d : when_ e d = None -> when_ e (put e t d) = Some t.
Proof. apply ev_when_insert. Qed.
Lemma when_put_ne e e' t d : e <> e' -> when_ e (put e' t d) = when_ e d.
Proof. apply ev_when_insert_ne. Qed.

Lemma when_head e t l d : events d = (e, t) :: l -> when_ e d = Some t.
Proof. unfold when_. intros ->. cbn. by rewrite decide_True. Qed.
Lemma when_pop_ne e e' t l d : events d = (e', t) :: l -> e <> e' -> when_ e (pop_ l d) = when_ e d.
Proof. unfold when_. intros -> H. cbn. by rewrite decide_False. Qed.
Lemma when_pop now e t l d : ev_ok now (events d) -> events d = (e, t) :: l -> when_ e (pop_ l d) = None.
Proof. intros [_ N _] E. rewrite E in N. cbn in N. apply NoDup_cons in N as [N _]. by apply ev_when_none. Qed.

Lemma ev_ok_pop now e t l : ev_ok now ((e, t) :: l) -> ev_ok t l.
Proof.
  intros [H1 H2 H3]. apply StronglySorted_inv in H1 as [H1 H4]. apply NoDup_cons in H2 as [_ H2]. constructor; [done|done|].
  eapply Forall_impl; [exact H4|]. intros x Hx. exact Hx.
Qed.

Lemma ev_ok_time now t l : ev_ok now l -> Forall (fun x => t <= snd x) l -> ev_ok t l.
Proof. intros [H1 H2 _] H. by constructor. Qed.

Lemma ev_head now e t l : ev_ok now ((e, t) :: l) -> now <= t /\ Forall (fun x => t <= snd x) ((e, t) :: l).
Proof.
  intros [H1 _ H3]. apply Forall_cons in H3 as [H3 _]. apply StronglySorted_inv in H1 as [_ H4]. split; [exact H3|]. constructor; [cbn; lia|].
  eapply Forall_impl; [exact H4|]. intros x Hx. exact Hx.
Qed.

Lemma ev_in now e t e' t' l : ev_ok now ((e, t) :: l) -> ev_when e' ((e, t) :: l) = Some t' -> t <= t'.
Proof.
  intros H Hw. destruct (ev_head _ _ _ _ H) as [_ F]. apply ev_when_in in Hw. rewrite Forall_forall in F. exact (F _ Hw).
Qed.

Lemma ev_ok_put now e t d : ev_ok now (events d) -> when_ e d = None -> now <= t -> ev_ok now (events (put e t d)).
Proof. apply ev_ok_insert. Qed.

Lemma ahead_pop a e x t l d : events d = (x, t) :: l -> x <> a -> ahead a e (events d) -> ahead a e (events (pop_ l d)).
Proof. intros -> Hx [H|[_ H]]; [done|exact H]. Qed.
Lemma ahead_put a e x t d : x <> e -> ahead a e (events d) -> ahead a e (events (put x t d)).
Proof. apply ahead_insert. Qed.

Lemma schedule_ev_ok e now t c : when_ e (dram c) = None -> now <= t -> schedule_ev e now t c = Ok (c <| dram := put e t (dram c) |>).
Proof. intros H1 H2. unfold schedule_ev. by rewrite sched_ok. Qed.

Lemma scheduled_when e c : scheduled e c = negb (bool_decide (when_ e (dram c) = None)).
Proof. done. Qed.

(** ** The state after the constructor *)
Lemma step_inv {A B} (m : res A) (f : A -> res B) y : mbind f m = Ok y -> exists a, m = Ok a /\ f a = Ok y.
Proof. destruct m as [a|]; [by exists a|done]. Qed.
Lemma start_state p m P c0 : DRAMCtrl_new p m = Ok (P, c0) ->
  0 <= writeHighThreshold P /\ c0 = mkDRAMCtrl (Dram_new P) m [] [] [] ∅ 1 false false READ REF_IDLE 0 PWR_IDLE PWR_IDLE false 0 0 [].
Proof.
  unfold DRAMCtrl_new. intros H.
  set (P0 := copied p) in H.
  set (burst := u32 (devices_per_rank p * burst_length p * device_bus_width p) / 8) in H.
  set (rowb := u32 (devices_per_rank p * device_rowbuffer_size p)) in H. clearbody burst rowb.
  apply step_inv in H as (columns & _ & H).
  apply step_inv in H as (stripe & _ & H).
  set (w := u32 (writeBufferSize P0 * write_high_thresh_perc p) / 100) in H.
  assert (0 <= w) as Hw. { apply Z.div_pos; [|done]. unfold u32. apply wrap_range. lia. }
  set (P1 := _ <| writeLowThreshold := _ |>) in H.
  assert (writeHighThreshold P1 = w) as Ew by reflexivity. clearbody P1.
  apply step_inv in H as (? & _ & H).
  apply step_inv in H as (l & _ & H).
  apply step_inv in H as (rows & _ & H).
  set (P2 := _ <| rowsPerBank := _ |>) in H. assert (writeHighThreshold P2 = w) as Ew2 by exact Ew. clearbody P2.
  do 5 (apply step_inv in H as (? & _ & H)). injection H as <- <-. split; [|done]. lia.
Qed.

Section Safe.

Context (P : DramParams) (Sa : sane P).

(** ** Changes of the plan *)

(** The banks stay as they are, time may go on, and of the events that concern them
    only the ones that are over are gone. *)
Record replan (now : Z) (d : Dram) (t : Z) (d' : Dram) : Prop := {
  rp_time : now <= t;
  rp_banks : banks d' = banks d /\ actTicks d' = actTicks d /\ numBanksActive d' = numBanksActive d /\ cmdList d' = cmdList d;
  rp_activate : forall A, when_ Activate d' = Some A -> when_ Activate d = Some A;
  rp_precharge : forall T, when_ Precharge d = Some T -> when_ Precharge d' = Some T \/ T <= t;
  rp_precharge' : forall T, when_ Precharge d' = Some T -> when_ Precharge d = Some T;
  rp_events : ev_ok t (events d')
}.

Lemma replan_bank_at now d t d' : replan now d t d' -> forall r b, bank_at d' r b = bank_at d r b.
Proof. intros [_ (E & _) _ _ _ _] r b. unfold bank_at. by rewrite E. Qed.

Lemma replan_later now d t d' : replan now d t d' -> later P now d t d'.
Proof.
  intros R. pose proof (replan_bank_at _ _ _ _ R) as Eb. destruct R as [R1 _ _ R4 _ _]. constructor; [done| |].
  - intros T HT. destruct (R4 T HT) as [H|H]; [right; left; exists T; split; [done|lia]|by left].
  - intros r b x Hx Ho. right; right. exists r, b, x. rewrite Eb. split; [done|]. split; [done|lia].
Qed.

Lemma replan_over now d t d' : replan now d t d' -> acts_over P now d -> acts_over P t d'.
Proof. intros R H r b x. rewrite (replan_bank_at _ _ _ _ R). intros Hx. eapply settled_later; [by apply replan_later|by eapply H]. Qed.

Lemma replan_bounded now d t d' U : replan now d t d' -> bounded P U d -> bounded P U d'.
Proof.
  intros R [H1 H2]. constructor; [intros r b x; rewrite (replan_bank_at _ _ _ _ R); apply H1|]. intros T HT. apply H2. by apply R.
Qed.

Lemma replan_good now d t d' : replan now d t d' -> banks_good P now d -> banks_good P t d'.
Proof.
  intros R (v & B & L). pose proof (replan_bank_at _ _ _ _ R) as Eb. pose proof (replan_later _ _ _ _ R) as La.
  destruct R as [R1 (E1 & E2 & E3 & E4) R3 _ _ R6]. destruct B as [B1 B2 B3 B4 B5 B6 B7 B8 B9 B10]. exists v. split; [|by rewrite E4].
  constructor; try done.
  - destruct B1 as [S1 S2 S3]. constructor; congruence.
  - destruct B2 as (X & HX & Hn). exists X. split; [|congruence]. intros r b. rewrite HX. unfold is_open. by rewrite Eb.
  - intros r b x. rewrite Eb. apply B3.
  - intros r b. rewrite Eb. apply B4.
  - by rewrite E2.
  - intros r a Ha. destruct (B7 r a Ha). split; [done|by eapply settled_later].
  - intros r b p Hp. eapply settled_later; [done|by eapply B8].
  - intros A HA. eapply settled_later; [done|]. by apply B9, R3.
Qed.

Lemma replan_time now d t : ev_ok now (events d) -> now <= t -> Forall (fun x => t <= snd x) (events d) -> replan now d t d.
Proof. intros He Ht F. constructor; try done; [by left|by eapply ev_ok_time]. Qed.

Lemma replan_pop now e t l d : ev_ok now (events d) -> events d = (e, t) :: l -> replan t d t (pop_ l d).
Proof.
  intros He E. pose proof (when_pop _ _ _ _ _ He E) as W0. pose proof (fun e' => when_pop_ne e' _ _ _ _ E) as W.
  pose proof (when_head _ _ _ _ E) as Wh. constructor; try done.
  - intros A. destruct (decide (Activate = e)) as [<-|]; [by rewrite W0|by rewrite W].
  - intros T HT. destruct (decide (Precharge = e)) as [<-|]; [right; rewrite Wh in HT; injection HT; lia|left; by rewrite W].
  - intros T. destruct (decide (Precharge = e)) as [<-|]; [by rewrite W0|by rewrite W].
  - rewrite E in He. by eapply ev_ok_pop.
Qed.

Lemma replan_put now e t d : ev_ok now (events d) -> when_ e d = None -> now <= t -> e <> Activate -> e <> Precharge -> replan now d now (put e t d).
Proof.
  intros He Hn Ht H1 H2. constructor; try done; [|intros T; rewrite when_put_ne by done; by left| |by apply ev_ok_put];
    intros T; by rewrite when_put_ne by done.
Qed.

Lemma replan_set now d d' : ev_ok now (events d) -> same_banks d d' -> cmdList d' = cmdList d -> replan now d now d'.
Proof.
  intros He S Ec. pose proof (same_when _ _ S) as W. destruct S as (E1 & E2 & E3 & E4). constructor; [lia|done| | | |by rewrite E4];
    intros T; rewrite W; auto.
Qed.

Lemma replan_trans now d d1 d' t t' : replan now d t d1 -> replan t d1 t' d' -> replan now d t' d'.
Proof.
  intros [A1 (A2 & A3 & A4 & A5) A6 A7 A8 A9] [B1 (B2 & B3 & B4 & B5) B6 B7 B8 B9]. constructor; [lia|split_and!; congruence|auto| |auto|done].
  intros T HT. destruct (A7 T HT) as [H|H]; [|right; lia]. destruct (B7 T H); auto.
Qed.

(** ** Phases *)

(** What the phase is made of, apart from the banks and the events. *)
Definition mode (c : DRAMCtrl) := (refreshState c, refreshDueAt c, pwrState c, pwrStateTrans c).

Definition refreshing (c : DRAMCtrl) : Prop := refreshState c = REF_PRE \/ refreshState c = REF_RUN.

(** Events of requests and responses come and go, and time goes on. *)
Record same_phase (now : Z) (c : DRAMCtrl) (t : Z) (c' : DRAMCtrl) : Prop := {
  sp_mode : mode c' = mode c;
  sp_plan : replan now (dram c) t (dram c');
  sp_when : forall e, e <> Respond -> e <> NextReq -> when_ e (dram c') = when_ e (dram c);
  sp_drain : refreshState c = REF_DRAIN -> when_ NextReq (dram c') = when_ NextReq (dram c);
  sp_first : refreshing c -> next_first c -> next_first c';
  sp_activate : ahead Activate Refresh (events (dram c)) -> ahead Activate Refresh (events (dram c'));
  sp_power : ahead Power Refresh (events (dram c)) -> ahead Power Refresh (events (dram c'))
}.

Lemma same_rows now c t c' : same_phase now c t c' -> rows P now c -> rows P t c'.
Proof.
  intros [M R W _ _ H1 _] [R1 R2 R3]. injection M as M1 M2 M3 M4. pose proof R as [T0 (_ & _ & En & _) _ _ _ _]. constructor.
  - by eapply replan_over.
  - by rewrite W.
  - rewrite M1, M3, En. unfold busy in *. rewrite En. rewrite !W by done. destruct R3 as [R3|(R3 & R4 & R5)]; [by left|right].
    split; [done|]. split; [done|]. intros A HA. destruct (R5 A HA) as (Q1 & Q2 & Q3). split; [done|]. split; [lia|by apply H1].
Qed.

Lemma phase_step now c t c' : same_phase now c t c' -> phase P now c -> phase P t c'.
Proof.
  intros S H. pose proof (same_rows now c t c' S) as Hr. pose proof S as [M R W D F _ H2]. injection M as M1 M2 M3 M4.
  pose proof R as [T0 (_ & _ & En & _) _ _ _ _]. pose proof (replan_bank_at _ _ _ _ R) as Eb.
  destruct H as [H1 H3 H4|t0 H1 H3 H4 H5 H6 H7|t0 H1 H3 H4 H5 H6 H7|t0 H1 H3 H4 H5 H6 H7 H8 H9 H10|t0 H1 H3 H4 H5 H6 H7 H8 H9 H10 H11 H12].
  - apply ph_idle; [congruence|auto|by rewrite W].
  - eapply (ph_drain _ _ _ t0); rewrite ?W, ?D, ?M2 by done; try done; [congruence|auto|lia].
  - eapply (ph_pre _ _ _ t0); rewrite ?W, ?M2 by done; try done; [congruence|auto|lia|apply F; [|done]; unfold refreshing; auto].
  - eapply (ph_close _ _ _ t0); rewrite ?W, ?M2 by done; try done; [congruence..|lia|congruence|apply F; [|done]; unfold refreshing; auto].
  - eapply (ph_run _ _ _ t0); rewrite ?W by done; try done; [congruence..|auto|congruence| |apply F; [|done]; unfold refreshing; auto].
    intros r b x. rewrite Eb. apply H11.
Qed.

Lemma phase_first now c : phase P now c -> refreshing c -> next_first c.
Proof. intros [] [?|?]; congruence || done. Qed.

Lemma next_first_none c : when_ NextReq (dram c) = None -> next_first c.
Proof. by left. Qed.

Lemma next_first_head now e t l c : ev_ok now (events (dram c)) -> next_first c -> events (dram c) = (e, t) :: l -> e <> NextReq ->
  when_ NextReq (dram c) = None.
Proof. intros He [H|(t' & l' & E)] E' Hne; [done|congruence]. Qed.

(** ** Time goes on *)
Lemma inv_time Mem n now c t : inv P Mem n now c -> now <= t < LIMIT -> Forall (fun x => t <= snd x) (events (dram c)) -> inv P Mem n t c.
Proof.
  intros [I1 (v & B & L) I3 I4 I5] Ht F. pose proof (bi_events _ _ _ _ B) as He.
  assert (replan now (dram c) t (dram c)) as R by (apply replan_time; [done|lia|done]). constructor; [lia|by eapply replan_good; [|exists v]|done| |].
  - destruct I4 as [T1 T2 T3 T4 T8 T5 T6 T7]. constructor; try done.
    + destruct (when_ NextReq (dram c)); cbn in *; lia.
    + intros Hs t' Ht'. specialize (T5 Hs t' Ht'). lia.
    + eapply bounded_mono; [done|lia].
  - eapply phase_step; [|done]. by constructor.
Qed.

(** ** Responses *)
Context (Mem : AbstractMemory -> Prop).

Lemma accessAndRespond_ok now pkt latency c : served Mem pkt -> Mem (array c) ->
  exists m rs, accessAndRespond now pkt latency c = Ok (c <| array := m |> <| responses := rs |>) /\ Mem m /\
    Z.of_nat (length rs) = Z.of_nat (length (responses c)) + if needsResponse pkt then 1 else 0.
Proof.
  intros Hs Hm. destruct (Hs _ Hm) as (m & pkt' & E & Hm' & Hr). unfold accessAndRespond. rewrite E. cbn [mbind res_bind].
  destruct (needsResponse pkt).
  - rewrite Hr by done. cbn [assert_ mbind res_bind]. eexists m, _. split; [done|]. split; [done|]. rewrite length_app. cbn. lia.
  - exists m, (responses c). split; [by destruct c|]. split; [done|lia].
Qed.

Lemma parts_of_perm o l l' : burstHelper <$> l ≡ₚ burstHelper <$> l' -> parts_of o l = parts_of o l'.
Proof.
  assert (forall l, parts_of o l = Z.of_nat (length (filter (fun h => h = o) (burstHelper <$> l)))) as H.
  { intros k. unfold parts_of. f_equal. induction k as [|p k IH]; [done|]. rewrite fmap_cons, !filter_cons. case_decide; cbn; lia. }
  intros E. rewrite !H, E. done.
Qed.

Lemma parts_of_cons o p l : parts_of o (p :: l) = (if decide (burstHelper p = o) then 1 else 0) + parts_of o l.
Proof. unfold parts_of. rewrite filter_cons. case_decide; cbn; lia. Qed.
Lemma parts_of_app o l l' : parts_of o (l ++ l') = parts_of o l + parts_of o l'.
Proof. unfold parts_of. rewrite filter_app, length_app. lia. Qed.
Lemma parts_of_nonneg o l : 0 <= parts_of o l.
Proof. unfold parts_of. lia. Qed.

(** The first burst of the responses is served. *)
Lemma burst_served_ok now p q n c : queues P Mem n c -> respQueue c = p :: q ->
  exists m hs rs, burst_served P now p c = Ok (c <| array := m |> <| responses := rs |> <| helpers := hs |>) /\
    queues P Mem n (c <| array := m |> <| responses := rs |> <| helpers := hs |> <| respQueue := q |>).
Proof.
  intros [Q1 Q2 Q3 Q4 Q5 Q6 Q7 Q8 Q9 Q10] E. rewrite E in *. apply Forall_cons in Q4 as [(_ & _ & Hs & Hn) Q4].
  assert (forall o, parts_of o (readQueue c ++ p :: q) = (if decide (burstHelper p = o) then 1 else 0) + parts_of o (readQueue c ++ q)) as Ep.
  { intros o. rewrite <- parts_of_cons. apply parts_of_perm. apply fmap_Permutation. by rewrite <- Permutation_middle. }
  unfold owed in Q9. rewrite E, Ep in Q9. unfold burst_served. destruct (burstHelper p) as [h|] eqn:Eh.
  - pose proof (Q7 h) as Q. cbv zeta in Q. rewrite Ep, decide_True in Q by done. pose proof (parts_of_nonneg (Some h) (readQueue c ++ q)) as Hp.
    destruct (helpers c !! h) as [[count serviced]|] eqn:Ehh; [|lia]. cbn [deref mbind res_bind].
    destruct Q as (G1 & G2 & G3 & G4). unfold u32. rewrite wrap_id by (unfold inw; lia). rewrite decide_False in Q9 by done.
    destruct (Z.eqb_spec (serviced + 1) count) as [El|El].
    + destruct (accessAndRespond_ok now (dp_pkt p) (u64 (frontendLatency P + backendLatency P)) c Hs Q1) as (m & rs & -> & Hm & Hl).
      rewrite Hn in Hl. cbn [mbind res_bind]. exists m, (delete h (helpers c)), rs. split; [by destruct c|]. constructor; cbn; try done.
      * cbn [length] in Q5. lia.
      * intros h'. destruct (decide (h' = h)) as [->|Hne]; [rewrite lookup_delete_eq; lia|]. rewrite lookup_delete_ne by done.
        specialize (Q7 h'). cbv zeta in Q7. rewrite Ep, decide_False, Z.add_0_l in Q7 by congruence. exact Q7.
      * intros h' Hh'. rewrite lookup_delete_None. right. by apply Q8.
      * unfold owed. cbn. rewrite map_size_delete_Some by (by rewrite Ehh). assert (size (helpers c) <> O) by (intros Hz%map_size_empty_inv; by rewrite Hz in Ehh). lia.
    + exists (array c), (<[h := (count, serviced + 1)]> (helpers c)), (responses c). split; [by destruct c|]. constructor; cbn; try done.
      * cbn [length] in Q5. lia.
      * intros h'. destruct (decide (h' = h)) as [->|Hne]; [rewrite lookup_insert_eq; lia|]. rewrite lookup_insert_ne by done.
        specialize (Q7 h'). cbv zeta in Q7. rewrite Ep, decide_False, Z.add_0_l in Q7 by congruence. exact Q7.
      * intros h' Hh'. rewrite lookup_insert_ne by (intros <-; by rewrite Q8 in Ehh). by apply Q8.
      * unfold owed. cbn. rewrite map_size_insert_Some by (by rewrite Ehh). lia.
  - destruct (accessAndRespond_ok now (dp_pkt p) (u64 (frontendLatency P + backendLatency P)) c Hs Q1) as (m & rs & -> & Hm & Hl).
    rewrite Hn in Hl. rewrite decide_True in Q9 by done. exists m, (helpers c), rs. split; [by destruct c|]. constructor; cbn; try done.
    + cbn [length] in Q5. lia.
    + intros h. specialize (Q7 h). cbv zeta in Q7. rewrite Ep, decide_False, Z.add_0_l in Q7 by done. exact Q7.
    + unfold owed. cbn. lia.
Qed.

(** What the invariant is about. *)
Definition contents (c : DRAMCtrl) :=
  (array c, readQueue c, writeQueue c, respQueue c, helpers c, new_helper c, busState c, length (responses c)).
Definition core (c : DRAMCtrl) := (dram c, contents c, mode c).

Lemma queues_same n c c' : queues P Mem n c -> contents c' = contents c -> queues P Mem n c'.
Proof.
  intros [Q1 Q2 Q3 Q4 Q5 Q6 Q7 Q8 Q9 Q10] E. unfold contents in E. injection E as E1 E2 E3 E4 E5 E6 E7 E8.
  unfold owed in Q9. constructor; unfold owed; rewrite ?E1, ?E2, ?E3, ?E4, ?E5, ?E6, ?E7, ?E8; done.
Qed.

Lemma timing_core now c c' : core c' = core c -> timing P now c -> timing P now c'.
Proof.
  intros E. unfold core, contents, mode in E. injection E as E1 E2 E3 E4 E5 E6 E7 E8 E9 E10 E11 E12 E13. intros [T1 T2 T3 T4 T8 T5 T6 T7].
  constructor; rewrite ?E1, ?E3, ?E5, ?E8, ?E10; done.
Qed.

Lemma inv_core n now c c' : core c' = core c -> inv P Mem n now c -> inv P Mem n now c'.
Proof.
  intros E [I1 I2 I3 I4 I5]. assert (dram c' = dram c /\ mode c' = mode c) as [Ed Em] by (unfold core in E; split; congruence).
  constructor; [done|by rewrite Ed|eapply queues_same; [done|unfold core in E; congruence]|by eapply timing_core|]. eapply phase_step; [|exact I5].
  destruct I2 as (v & B & _). constructor; try done; rewrite ?Ed; try done.
  - eapply replan_set; [apply B|done|done].
  - intros _ H. unfold next_first in *. by rewrite Ed.
Qed.

Lemma queues_dram n c d : queues P Mem n c -> queues P Mem n (c <| dram := d |>).
Proof. intros Q. by eapply queues_same. Qed.

Lemma queues_bus n c b : queues P Mem n c -> (b = WRITE \/ b = READ_TO_WRITE -> writeQueue c <> []) -> queues P Mem n (c <| busState := b |>).
Proof. by intros [Q1 Q2 Q3 Q4 Q5 Q6 Q7 Q8 Q9 Q10] H. Qed.

Lemma good_events now d : banks_good P now d -> ev_ok now (events d).
Proof. intros (v & B & _). apply B. Qed.

(** An event of the requests or responses is taken from the queue. *)
Lemma pop_phase e t l c : ev_ok t (events (dram c)) -> events (dram c) = (e, t) :: l -> e = Respond \/ e = NextReq ->
  (e = NextReq -> refreshState c <> REF_DRAIN) -> same_phase t c t (pop l c).
Proof.
  intros He E H0 H1. pose proof (fun e' => when_pop_ne e' _ _ _ _ E) as W. pose proof (when_pop _ _ _ _ _ He E) as W0.
  constructor; try done.
  - by eapply replan_pop.
  - intros e' H2 H3. apply W. naive_solver.
  - intros Hd. apply W. intros <-. by apply H1.
  - intros _ F. left. destruct (decide (NextReq = e)) as [<-|Hne]; [exact W0|]. change (when_ NextReq (pop_ l (dram c)) = None).
    rewrite W by done. by eapply next_first_head.
  - apply (ahead_pop _ _ _ _ _ _ E). naive_solver.
  - apply (ahead_pop _ _ _ _ _ _ E). naive_solver.
Qed.

(** A response is planned. *)
Lemma respond_phase now t c c' : ev_ok now (events (dram c)) -> when_ Respond (dram c) = None -> now <= t -> dram c' = put Respond t (dram c) -> mode c' = mode c ->
  (refreshing c -> when_ NextReq (dram c) = None) -> same_phase now c now c'.
Proof.
  intros He Hn Ht Ed Em H0. constructor; rewrite ?Ed; try done.
  - by apply replan_put.
  - intros e H1 H2. by apply when_put_ne.
  - intros _. by apply when_put_ne.
  - intros Hi _. left. rewrite Ed, when_put_ne by done. auto.
  - by apply ahead_put.
  - by apply ahead_put.
Qed.

Lemma respond_ok n t c l : inv P Mem n t c -> events (dram c) = (Respond, t) :: l ->
  exists c', processRespondEvent P t (pop l c) = Ok c' /\ inv P Mem n t c'.
Proof.
  intros [I1 I2 I3 I4 I5] E. pose proof (good_events _ _ I2) as He. pose proof I4 as [T1 T2 T3 T4 T8 T5 T6 T7]. rewrite (when_head _ _ _ _ E) in T3.
  destruct (respQueue c) as [|p q] eqn:Eq; [done|]. injection T3 as T3. unfold processRespondEvent. change (respQueue (pop l c)) with (respQueue c). rewrite Eq.
  destruct (burst_served_ok t p q n (pop l c) (queues_dram n c _ I3) Eq) as (m & hs & rs & -> & Q). cbn [mbind res_bind].
  set (c1 := (((pop l c) <| array := m |> <| responses := rs |> <| helpers := hs |>) <| respQueue := q |>)) in *.
  pose proof (pop_phase _ _ _ _ He E ltac:(by left) ltac:(done)) as Sp.
  pose proof (fun e' => when_pop_ne e' _ _ _ _ E) as W. pose proof (when_pop _ _ _ _ _ He E) as W0. fold (dram (pop l c)) in W, W0.
  change (pop_ l (dram c)) with (dram c1) in W, W0.
  assert (phase P t c1) as Ph by (eapply (phase_step t c t c1); [destruct Sp; by constructor|done]).
  assert (banks_good P t (dram c1)) as Bg by (eapply replan_good; [apply Sp|done]).
  assert (exists c2, match q with
      | p :: _ => _ ← assert_ (t <=? readyTime p); schedule_ev Respond t (readyTime p) c1
      | [] => if empty_ (writeQueue c1) && empty_ (readQueue c1) && drainManager c1 then Ok (signalDrainDone c1) else Ok c1
      end = Ok c2 /\ inv P Mem n t c2) as (c2 & Ec & I).
  { apply StronglySorted_inv in T1 as [T1 T1']. apply Forall_cons in T2 as [_ T2].
    assert (bounded P (Z.max t (busBusyUntil (dram c1))) (dram c1)) as Bd by (eapply replan_bounded; [apply Sp|done]).
    destruct q as [|p' q].
    - assert (inv P Mem n t c1) as I.
      { constructor; try done. constructor; try done; rewrite ?W by done; done. }
      case_if; eexists; (split; [done|]); [|done]. by eapply inv_core; [|exact I].
    - apply Forall_cons in T1' as [T1' _]. rewrite assert_ok by (apply Z.leb_le; lia). cbn [mbind res_bind].
      rewrite schedule_ev_ok by (done || lia). eexists. split; [done|]. set (c2 := c1 <| dram := _ |>).
      assert (same_phase t c1 t c2) as Sp2.
      { eapply (respond_phase t (readyTime p')); try done; [apply (good_events _ _ Bg)|lia|].
        intros Hr. rewrite W by done. eapply next_first_head; try done. by eapply phase_first. }
      constructor; try done.
      + eapply replan_good; [apply Sp2|done].
      + by apply queues_dram.
      + assert (forall e, e <> Respond -> when_ e (dram c2) = when_ e (dram c)) as W2.
        { intros e Hn. change (dram c2) with (put Respond (readyTime p') (dram c1)). by rewrite when_put_ne, W. }
        constructor; try done; rewrite ?W2 by done; try done.
        * by apply when_put.
        * eapply replan_bounded; [apply Sp2|done].
      + by eapply phase_step. }
  cbn [mbind res_bind] in Ec |- *. rewrite Ec. cbn [mbind res_bind]. case_if; eexists; (split; [done|]); [|done]. by eapply inv_core; [|exact I].
Qed.

(** ** The next request *)

(** What an access does to the plan. *)
Record planned (t : Z) (d d' : Dram) (ready : Z) : Prop := {
  pl_good : banks_good P t d';
  pl_over : acts_over P t d -> acts_over P t d';
  pl_bus : busBusyUntil d' = ready /\ busBusyUntil d <= ready;
  pl_ready : t <= ready <= t + ahead_max P;
  pl_bounded : bounded P (Z.max t ready) d';
  pl_next : nextReqTime d' = ready - S1 P;
  pl_front : act_front t d d';
  pl_busy : busy d'
}.

Definition bus_free (t : Z) (d : Dram) : Prop :=
  banks_good P t d /\ bounded P (Z.max t (busBusyUntil d)) d /\ S1 P <= busBusyUntil d <= t + S1 P /\ nextReqTime d + S1 P <= busBusyUntil d.

Lemma access_plan t d p queue switched bubble : 0 <= t < LIMIT -> bus_free t d -> spot P p -> 0 <= bubble <= tWTR P + tCL P + tRTW P ->
  exists d' ready, doDRAMAccess P t p queue (turn_around switched p bubble d) = Ok (d', p <| readyTime := ready |>) /\ planned t d d' ready.
Proof.
  unfold LIMIT. intros Ht ((v & B & L) & Bd & Hb & _) [(Hr & Hk & _) Hrow] Hbub. pose proof (delay_small P Sa) as [DS DS']. pose proof (parts_nonneg P Sa) as PN.
  pose proof (sa_burst P Sa). pose proof (sa_rcd P Sa). pose proof (sa_rp P Sa). pose proof (sa_rfc P Sa). pose proof (sa_wtr P Sa). pose proof (sa_rtw P Sa). pose proof (sa_cl P Sa).
  set (d1 := turn_around switched p bubble d).
  assert (busBusyUntil d <= busBusyUntil d1 <= busBusyUntil d + bubble) as Hbus.
  { unfold d1, turn_around. case_if; cbn; [rewrite u64_small by lia|]; lia. }
  assert (same_banks d d1 /\ cmdList d1 = cmdList d) as [Sm Ec] by (unfold d1, turn_around; by case_if).
  destruct (access_command_ok P Sa t d1 v p queue (Z.max t (busBusyUntil d1))) as (d' & v' & ready & E & A).
  - by eapply same_inv.
  - by rewrite Ec.
  - split; lia.
  - done.
  - eapply bounded_mono; [eapply same_bounded; [exact Sm|exact Bd]|lia].
  - lia.
  - lia.
  - lia.
  - exists d', ready. split; [exact E|]. destruct A as [A1 A2 A3 A4 [A5 A6] A7 A8 A9 A10 A11].
    assert (acts_over P t d -> acts_over P t d1) as Ho by (by apply same_over). constructor.
    + by exists v'.
    + auto.
    + lia.
    + unfold ahead_max. lia.
    + eapply bounded_mono; [exact A8|lia].
    + done.
    + destruct A10 as [F1 F2 F3]. pose proof (same_when _ _ Sm) as W. destruct Sm as (E1 & _ & E3 & E4). constructor.
      * intros A. rewrite <- E4, <- W. apply F1.
      * rewrite <- E3, <- W. intros G1 G2 G3. apply F2; [done|done|]. intros r b x. unfold bank_at. rewrite E1. apply G3.
      * intros e G1 G2. rewrite <- W. by apply F3.
    + exact A11.
Qed.

(** The power state follows. *)
Lemma rows_access t c c' ready : rows P t c -> banks_good P t (dram c) -> refreshState c = REF_IDLE -> mode c' = mode c ->
  planned t (dram c) (dram c') ready -> rows P t c'.
Proof.
  intros [R1 R2 R3] (v & B & _) Hi M [_ P2 _ _ _ _ [F1 F2 F3] P8]. injection M as M1 M2 M3 M4. constructor; [auto|by rewrite F3|].
  rewrite M1, M3. destruct R3 as [[R3 _]|(R3 & R4 & R5)]; [by left|]. right. split; [done|].
  assert (exists A, when_ Activate (dram c') = Some A /\ A <= t /\ ahead Activate Refresh (events (dram c'))) as (A & E & H1 & H2).
  { destruct (when_ Activate (dram c)) as [A|].
    - destruct (R5 A eq_refl) as (_ & Q2 & Q3). destruct (F1 A eq_refl Q2) as [G1 G2]. exists A. auto.
    - destruct (R4 eq_refl) as [Q1 Q2]. exists t. destruct (F2 eq_refl Q1) as [G1 G2]; [|split; [done|split; [lia|done]]].
      intros r b x Hx. eapply (quiet_settled P Sa t (dram c)); [apply B|done|done|]. by eapply R1. }
  rewrite E. split; [done|]. intros A' [= <-]. done.
Qed.

(** The responses are in order, and the first is planned. *)
Record in_order (c : DRAMCtrl) : Prop := {
  io_sorted : StronglySorted (fun p q => readyTime p <= readyTime q) (respQueue c);
  io_bus : Forall (fun p => readyTime p <= busBusyUntil (dram c)) (respQueue c);
  io_event : when_ Respond (dram c) = readyTime <$> head (respQueue c)
}.

(** While a request is chosen. *)
Record choosing (n t : Z) (c : DRAMCtrl) : Prop := {
  ch_now : 0 <= t < LIMIT;
  ch_free : bus_free t (dram c);
  ch_queues : queues P Mem n c;
  ch_order : in_order c;
  ch_rows : rows P t c;
  ch_state : refreshState c = REF_IDLE;
  ch_refresh : exists t', when_ Refresh (dram c) = Some t';
  ch_next : when_ NextReq (dram c) = None
}.

Lemma choosing_pop n t c l : inv P Mem n t c -> events (dram c) = (NextReq, t) :: l -> refreshState c = REF_IDLE -> choosing n t (pop l c).
Proof.
  intros [I1 I2 I3 I4 I5] E Hs. pose proof (good_events _ _ I2) as He. pose proof I4 as [T1 T2 T3 T4 T8 T5 T6 T7].
  pose proof (fun e' => when_pop_ne e' _ _ _ _ E) as W. pose proof (when_pop _ _ _ _ _ He E) as W0. rewrite (when_head _ _ _ _ E) in T4.
  pose proof (pop_phase _ _ _ _ He E ltac:(by right) ltac:(congruence)) as Sp. change (pop_ l (dram c)) with (dram (pop l c)) in W, W0.
  destruct I5; try congruence. constructor; try done.
  - split; [eapply replan_good; [apply Sp|done]|]. split; [eapply replan_bounded; [apply Sp|done]|split; [exact T4|exact T8]].
  - by apply queues_dram.
  - constructor; rewrite ?W by done; done.
  - by eapply same_rows.
  - by rewrite W.
Qed.

(** Changes that leave the banks, the events and the bus. *)
Lemma choosing_same n t c c' : choosing n t c -> same_banks (dram c) (dram c') -> cmdList (dram c') = cmdList (dram c) ->
  busBusyUntil (dram c') = busBusyUntil (dram c) -> nextReqTime (dram c') = nextReqTime (dram c) -> mode c' = mode c -> respQueue c' = respQueue c -> queues P Mem n c' -> choosing n t c'.
Proof.
  intros [C1 (B1 & B2 & B3 & B4) C3 [O1 O2 O3] C5 C6 C7 C8] Sm Ec Eb En M Er Q. pose proof (same_when _ _ Sm) as W.
  assert (replan t (dram c) t (dram c')) as R by (by apply replan_set; [apply good_events|..]).
  assert (events (dram c') = events (dram c)) as Ee by apply Sm.
  assert (same_phase t c t c') as Sp.
  { constructor; rewrite ?Ee; try done. intros _. unfold next_first. by rewrite W, Ee. }
  constructor; try done; rewrite ?W; try done.
  - split; [by eapply replan_good|]. rewrite Eb, En. split; [by eapply replan_bounded|done].
  - constructor; rewrite ?Er, ?Eb, ?W; done.
  - by eapply same_rows.
  - unfold mode in M. congruence.
Qed.

Lemma switch_dir c : busState (fst (switch_bus c)) = READ \/ busState (fst (switch_bus c)) = WRITE.
Proof. unfold switch_bus. destruct (busState c) eqn:E; cbn; auto. Qed.

Lemma choosing_switch n t c : choosing n t c -> choosing n t (fst (switch_bus c)).
Proof.
  intros C. pose proof (ch_queues _ _ _ C) as [Q1 Q2 Q3 Q4 Q5 Q6 Q7 Q8 Q9 Q10].
  unfold switch_bus. destruct (busState c) eqn:E; cbn [fst]; try done; (eapply choosing_same; [exact C|done..|]); constructor; try done; cbn.
  - intros _. apply Q10. by right.
  - intros [H|H]; done.
Qed.

(** With nothing more to do. *)
Lemma choosing_done n t c : choosing n t c -> readQueue c = [] -> busState c = READ -> inv P Mem n t c.
Proof.
  intros [C1 (B1 & B2 & B3 & B4) C3 [O1 O2 O3] C5 C6 C7 C8] Hr Hb. constructor; try done; [constructor; try done|by apply ph_idle].
  - by rewrite C8.
  - intros _ t'. by rewrite C8.
Qed.

Lemma request_phase now t c c' : ev_ok now (events (dram c)) -> when_ NextReq (dram c) = None -> now <= t -> dram c' = put NextReq t (dram c) -> mode c' = mode c ->
  refreshState c <> REF_DRAIN -> (refreshing c -> next_first c') -> same_phase now c now c'.
Proof.
  intros He Hn Ht Ed Em H0 H1. constructor; rewrite ?Ed; try done.
  - by apply replan_put.
  - intros e H2 H3. by apply when_put_ne.
  - auto.
  - by apply ahead_put.
  - by apply ahead_put.
Qed.

(** After the access the next request is planned. *)
Lemma planned_next n t c d c' ready : choosing n t c -> planned t (dram c) d ready -> dram c' = d \/ dram c' = put Respond ready d /\ when_ Respond d = None ->
  mode c' = mode c -> queues P Mem n c' -> in_order c' ->
  exists c'', schedule_ev NextReq t (Z.max (nextReqTime (dram c')) t) c' = Ok c'' /\ c'' = c' <| dram := dram c'' |> /\ inv P Mem n t c''.
Proof.
  intros C Pl Hd M Q [O1 O2 O3]. pose proof Pl as [P1 P2 P3 P4 P5 P6 P7 P8]. pose proof C as [C1 (B1 & B2 & B3 & B4) C3 _ C5 C6 [tr C7] C8].
  set (cd := c <| dram := d |>). assert (rows P t cd) as Rd by (by eapply rows_access).
  pose proof (good_events _ _ P1) as He. pose proof (af_other _ _ _ P7) as W.
  assert (same_phase t cd t c') as Sp.
  { destruct Hd as [Hd|[Hd Hn]].
    - constructor; rewrite ?Hd; try done; [by apply replan_set|]. intros _. unfold next_first. by rewrite Hd.
    - eapply (respond_phase t ready cd c'); try done; [lia|]. intros _. change (when_ NextReq d = None). by rewrite W. }
  pose proof (same_rows _ _ _ _ Sp Rd) as Rc. assert (banks_good P t (dram c')) as Bg by (eapply replan_good; [apply Sp|done]).
  assert (bounded P (Z.max t ready) (dram c')) as Bd by (eapply replan_bounded; [apply Sp|exact P5]).
  assert (when_ NextReq (dram c') = None /\ busBusyUntil (dram c') = ready /\ nextReqTime (dram c') = ready - S1 P) as (Wn & Eb & En).
  { destruct Hd as [->|[-> _]]; rewrite ?when_put_ne by done; rewrite W by done; split_and!; try done; apply P3. }
  rewrite En. rewrite schedule_ev_ok by (done || lia). eexists. split; [done|]. split; [by destruct c'|].
  set (t' := Z.max (ready - S1 P) t). set (c'' := c' <| dram := _ |>).
  assert (same_phase t c' t c'') as Sp'.
  { unfold mode in M. eapply (request_phase t t'); try done; [by apply good_events|lia|congruence|]. unfold refreshing. intros [?|?]; congruence. }
  assert (forall e, e <> NextReq -> when_ e (dram c'') = when_ e (dram c')) as W2 by (intros e Hne; by apply when_put_ne).
  assert (when_ NextReq (dram c'') = Some t') as W3 by (by apply when_put).
  pose proof (parts_nonneg P Sa) as PN. constructor.
  - done.
  - eapply replan_good; [apply Sp'|done].
  - by apply queues_dram.
  - constructor; rewrite ?W3; try done.
    + rewrite W2 by done. done.
    + change (busBusyUntil (dram c'')) with (busBusyUntil (dram c')). rewrite Eb. cbn. lia.
    + change (busBusyUntil (dram c'')) with (busBusyUntil (dram c')). change (nextReqTime (dram c'')) with (nextReqTime (dram c')). lia.
    + intros _ t0 [= <-]. lia.
    + change (busBusyUntil (dram c'')) with (busBusyUntil (dram c')). rewrite Eb. eapply replan_bounded; [apply Sp'|done].
  - eapply phase_step; [exact Sp'|]. apply ph_idle; [unfold mode in M; congruence|done|].
    exists tr. rewrite (sp_when _ _ _ _ Sp) by done. change (when_ Refresh d = Some tr). by rewrite W.
Qed.

(** The chosen burst is one of the queue. *)
Lemma choose_one n t c queue sw : choosing n t c -> Forall (spot P) queue -> queue <> [] ->
  exists p rest, chooseNext P t (dram c) queue sw = Ok (p :: rest) /\ p :: rest ≡ₚ queue.
Proof.
  intros [Ht ((v & B & _) & Bd & Hb & _) _ _ _ _ _ _] F Hq. pose proof (delay_small P Sa) as [DS _]. pose proof (parts_nonneg P Sa) as PN. unfold LIMIT in Ht.
  destruct (chooseNext_ok P t (dram c)) with (queue := queue) (sw := sw) as (mask & p & _ & _ & Hp & E).
  - split; [apply Sa|split; [apply Sa|apply (sa_total P Sa)]].
  - intros i j Hi Hj. destruct (proj2 (bank_at_some P (dram c) i j (bi_shape _ _ _ _ B)) (conj Hi Hj)) as [x Hx].
    exists x. split; [by apply get_bank_at|]. destruct (br_nonneg _ _ _ _ _ (bi_rel _ _ _ _ B _ _ _ Hx)) as (_ & _ & H1).
    destruct (bo_bank _ _ _ Bd _ _ _ Hx) as (_ & _ & H2). lia.
  - eapply Forall_impl; [exact F|]. intros q [H _]. exact H.
  - done.
  - eexists p, _. split; [exact E|]. by apply delete_Permutation in Hp.
Qed.

(** A burst is moved from the reads to the responses. *)
Lemma read_moved n c p rest ready : queues P Mem n c -> p :: rest ≡ₚ readQueue c ->
  queues P Mem n (c <| readQueue := rest |> <| respQueue := respQueue c ++ [p <| readyTime := ready |>] |>) /\ read_entry P Mem p.
Proof.
  intros [Q1 Q2 Q3 Q4 Q5 Q6 Q7 Q8 Q9 Q10] Hp. rewrite <- Hp in Q2. apply Forall_cons in Q2 as [Hr Q2]. split; [|done].
  pose proof (Permutation_length Hp) as Hl. cbn [length] in Hl.
  assert (forall o, parts_of o (rest ++ respQueue c ++ [p <| readyTime := ready |>]) = parts_of o (readQueue c ++ respQueue c)) as Ep.
  { intros o. apply parts_of_perm. rewrite !fmap_app. cbn. rewrite <- (fmap_Permutation burstHelper _ _ Hp). cbn.
    by rewrite app_assoc, Permutation_app_comm. }
  constructor; cbn; try done.
  - apply Forall_app_2; [done|]. by apply Forall_singleton.
  - rewrite length_app. cbn. lia.
  - intros h. rewrite Ep. apply Q7.
  - unfold owed in *. cbn. rewrite Ep. done.
Qed.

Lemma ahead_nonneg : 0 <= ahead_max P.
Proof.
  pose proof (parts_nonneg P Sa). pose proof (sa_wtr P Sa). pose proof (sa_rtw P Sa). pose proof (sa_cl P Sa). pose proof (sa_rcd P Sa).
  pose proof (sa_burst P Sa). unfold ahead_max. lia.
Qed.

(** The next request is planned without an access. *)
Lemma choosing_next n t c : choosing n t c ->
  exists c', schedule_ev NextReq t (Z.max (nextReqTime (dram c)) t) c = Ok c' /\ c' = c <| dram := dram c' |> /\ inv P Mem n t c'.
Proof.
  intros [C1 (B1 & B2 & B3 & B4) C3 [O1 O2 O3] C5 C6 [tr C7] C8]. pose proof (good_events _ _ B1) as He. pose proof (parts_nonneg P Sa) as PN.
  rewrite Z.max_r by lia. rewrite schedule_ev_ok by (done || lia). eexists. split; [done|]. split; [by destruct c|]. set (c' := c <| dram := _ |>).
  assert (same_phase t c t c') as Sp by (eapply (request_phase t t); try done; [congruence|]; unfold refreshing; intros [?|?]; congruence).
  assert (forall e, e <> NextReq -> when_ e (dram c') = when_ e (dram c)) as W by (intros e Hne; by apply when_put_ne).
  assert (when_ NextReq (dram c') = Some t) as Wn by (by apply when_put). constructor.
  - done.
  - eapply replan_good; [apply Sp|done].
  - by apply queues_dram.
  - constructor; rewrite ?Wn; try done.
    + by rewrite W.
    + intros _ t' [= <-]. pose proof ahead_nonneg. lia.
    + eapply replan_bounded; [apply Sp|done].
  - eapply phase_step; [exact Sp|]. apply ph_idle; [done|done|by exists tr].
Qed.

Lemma in_order_add c c' p ready : in_order c -> busBusyUntil (dram c) <= ready -> busBusyUntil (dram c') = ready ->
  respQueue c' = respQueue c ++ [p <| readyTime := ready |>] ->
  when_ Respond (dram c') = (if respQueue c is [] then Some ready else when_ Respond (dram c)) -> in_order c'.
Proof.
  intros [O1 O2 O3] H1 H2 Er Ew. constructor; rewrite ?Er, ?H2.
  - apply StronglySorted_app_2; [|done|repeat constructor]. intros x y Hx ->%list_elem_of_singleton. rewrite Forall_forall in O2. specialize (O2 x Hx). cbn. lia.
  - apply Forall_app. split; [|by apply Forall_singleton]. eapply Forall_impl; [exact O2|]. cbn. lia.
  - rewrite Ew. destruct (respQueue c); [done|]. by rewrite O3.
Qed.

Lemma next_read_ok n t c sw : 0 <= writeHighThreshold P -> choosing n t c -> busState c = READ ->
  exists c' more, next_read P t sw c = Ok (c', more) /\
    if more : bool then exists c'', schedule_ev NextReq t (Z.max (nextReqTime (dram c')) t) c' = Ok c'' /\ c'' = c' <| dram := dram c'' |> /\ inv P Mem n t c''
    else inv P Mem n t c'.
Proof.
  intros HT C Hb. pose proof C as [C1 C2 C3 C4 C5 C6 C7 C8]. pose proof (q_reads _ _ _ _ C3) as Q2.
  unfold next_read. destruct (readQueue c) as [|q0 queue] eqn:Eq.
  { case_if.
    - eexists _, true. split; [done|]. cbn beta iota. apply choosing_next. eapply choosing_same; [exact C|done..|].
      apply queues_bus; [done|]. intros _. bool_prop. by destruct (writeQueue c).
    - eexists _, false. split; [done|]. pose proof (choosing_done n t c C Eq Hb) as I. case_if; [|done]. by eapply inv_core; [|exact I]. }
  destruct (choose_one n t c (q0 :: queue) sw C) as (p & rest & -> & Hp); [eapply Forall_impl; [exact Q2|]; by intros x [H _]|done|].
  rewrite <- Eq in Hp. cbn [mbind res_bind head deref tail].
  destruct (access_plan t (dram c) p (p :: rest) sw (tWTR P + tCL P) C1 C2) as (d & ready & -> & Pl).
  { by destruct (read_moved n c p rest 0 C3 Hp) as [_ [H _]]. }
  { pose proof (sa_wtr P Sa). pose proof (sa_cl P Sa). pose proof (sa_rtw P Sa). lia. }
  cbn [mbind res_bind]. destruct (read_moved n c p rest ready C3 Hp) as [Qm (Hsp & Hsz & _)]. pose proof Pl as [P1 P2 [P3 P3'] P4 P5 P6 P7 P8].
  change (dp_size (p <| readyTime := ready |>)) with (dp_size p). change (readyTime (p <| readyTime := ready |>)) with ready.
  rewrite (assert_ok (dp_size p <=? burstSize P)) by (by apply Z.leb_le). cbn [mbind res_bind].
  rewrite (assert_ok (t <=? ready)) by (apply Z.leb_le; lia). cbn [mbind res_bind].
  set (c1 := (c <| dram := d |>) <| readQueue := rest |>). pose proof (af_other _ _ _ P7) as W. pose proof C4 as [O1 O2 O3].
  assert (exists c2, match last (respQueue c1) with
      | None => schedule_ev Respond t ready c1
      | Some q => _ ← assert_ (readyTime q <=? ready); _ ← assert_ (scheduled Respond c1); Ok c1
      end = Ok c2 /\ c2 = c1 <| dram := dram c2 |> /\ (dram c2 = d \/ dram c2 = put Respond ready d /\ when_ Respond d = None) /\
      when_ Respond (dram c2) = (if respQueue c is [] then Some ready else when_ Respond (dram c))) as (c2 & Ec & E2 & Hd & Ew).
  { change (respQueue c1) with (respQueue c). change (dram c1) with d. destruct (last (respQueue c)) as [q|] eqn:El.
    - assert (readyTime q <= ready) as Hq.
      { apply last_Some in El as (k & El). rewrite Forall_forall in O2. specialize (O2 q ltac:(rewrite El; apply elem_of_app; right; by left)). lia. }
      rewrite (assert_ok (readyTime q <=? ready)) by (by apply Z.leb_le). cbn [mbind res_bind]. rewrite (assert_ok (scheduled Respond c1)).
      2: { unfold scheduled. change (dram c1) with d. rewrite W, O3 by done. by destruct (respQueue c). }
      cbn [mbind res_bind]. exists c1. split; [done|]. split; [by destruct c|]. split; [by left|]. change (when_ Respond d = if respQueue c is [] then Some ready else when_ Respond (dram c)).
      rewrite W by done. by destruct (respQueue c).
    - apply last_None in El. rewrite El in O3 |- *. assert (when_ Respond d = None) as Hn by (by rewrite W).
      rewrite schedule_ev_ok by (done || lia). eexists. split; [done|]. split; [by destruct c|]. split; [by right|]. by apply when_put. }
  cbn [mbind res_bind] in Ec |- *. rewrite Ec. cbn [mbind res_bind]. clear Ec. remember (dram c2) as d2 eqn:Ed2. subst c2. clear Ed2.
  set (c3 := (c1 <| dram := d2 |>) <| respQueue := _ |>).
  assert (queues P Mem n c3) as Qc by exact (queues_dram n _ d2 Qm).
  assert (busBusyUntil d2 = ready) as Eb by (destruct Hd as [->|[-> _]]; done).
  assert (in_order c3) as Oc by (by eapply (in_order_add c c3 p ready)).
  case_if; (eexists _, true; split; [done|]; cbn beta iota; eapply planned_next; try done).
  - apply queues_bus; [done|]. intros _ Hw. change (writeQueue c3 = []) in Hw. bool_prop. rewrite Hw in Hif. cbn in Hif. lia.
  - by destruct Oc.
Qed.

Lemma write_moved n c p rest : queues P Mem n c -> p :: rest ≡ₚ writeQueue c ->
  (busState c = WRITE \/ busState c = READ_TO_WRITE -> rest <> []) -> queues P Mem n (c <| writeQueue := rest |>).
Proof.
  intros [Q1 Q2 Q3 Q4 Q5 Q6 Q7 Q8 Q9 Q10] Hp Hb. rewrite <- Hp in Q3. apply Forall_cons in Q3 as [_ Q3]. apply Permutation_length in Hp.
  cbn [length] in Hp. constructor; try done. cbn. lia.
Qed.

Lemma next_write_ok n t c sw : choosing n t c -> busState c = WRITE ->
  exists c', next_write P t sw c = Ok (c', true) /\
    exists c'', schedule_ev NextReq t (Z.max (nextReqTime (dram c')) t) c' = Ok c'' /\ c'' = c' <| dram := dram c'' |> /\ inv P Mem n t c''.
Proof.
  intros C Hb. pose proof C as [C1 C2 C3 C4 C5 C6 C7 C8]. pose proof (q_writes _ _ _ _ C3) as Q3. pose proof (q_bus _ _ _ _ C3 ltac:(by left)) as Hw.
  unfold next_write. destruct (choose_one n t c (writeQueue c) sw C) as (p & rest & -> & Hp); [eapply Forall_impl; [exact Q3|]; by intros x [H _]|done|].
  cbn [mbind res_bind head deref tail]. pose proof Q3 as Q3'. rewrite <- Hp in Q3'. apply Forall_cons in Q3' as [[Hsp (_ & Hsz & _)] _].
  rewrite (assert_ok (dp_size p <=? burstSize P)) by (apply Z.leb_le; lia). cbn [mbind res_bind].
  destruct (access_plan t (dram c) p (p :: rest) sw (tRTW P) C1 C2 Hsp) as (d & ready & -> & Pl).
  { pose proof (sa_wtr P Sa). pose proof (sa_cl P Sa). pose proof (sa_rtw P Sa). lia. }
  cbn [mbind res_bind]. set (c1 := (c <| dram := d |>) <| writeQueue := rest |>). pose proof Pl as [P1 P2 [P3 P3'] P4 P5 P6 P7 P8]. pose proof C4 as [O1 O2 O3].
  assert (forall b, in_order (c1 <| busState := b |>)) as Oc.
  { intros b. constructor; [done| |].
    - change (Forall (fun p => readyTime p <= busBusyUntil d) (respQueue c)). eapply Forall_impl; [exact O2|]. cbn. lia.
    - change (when_ Respond d = readyTime <$> head (respQueue c)). by rewrite (af_other _ _ _ P7). }
  assert (forall b, (b = WRITE \/ b = READ_TO_WRITE -> rest <> []) -> queues P Mem n (c1 <| busState := b |>)) as Qc.
  { intros b Hr. refine (queues_dram n _ d (write_moved n (c <| busState := b |>) p rest _ Hp Hr)). by apply queues_bus. }
  eexists. split; [done|]. change (writeQueue c1) with rest. case_if.
  - eapply planned_next; try done; [by left|apply Qc; by intros [?|?]].
  - bool_prop. assert (c1 = c1 <| busState := WRITE |>) as E by (rewrite <- Hb; by destruct c). eapply planned_next; try done; [by left| |rewrite E; apply Oc].
    rewrite E. apply Qc. intros _ ->. discriminate Hif.
Qed.

(** In the other phases. *)
Lemma next_drain_ok n t c l : inv P Mem n t c -> events (dram c) = (NextReq, t) :: l -> refreshState c = REF_DRAIN ->
  exists c', schedule_ev Refresh t t ((pop l c) <| refreshState := REF_PRE |>) = Ok c' /\ inv P Mem n t c'.
Proof.
  intros [I1 I2 I3 I4 I5] E Hs. pose proof (good_events _ _ I2) as He. pose proof I4 as [T1 T2 T3 T4 T8 T5 T6 T7].
  pose proof (fun e' => when_pop_ne e' _ _ _ _ E) as W. pose proof (when_pop _ _ _ _ _ He E) as W0. pose proof (when_head _ _ _ _ E) as Wh. rewrite Wh in T4.
  pose proof (replan_pop _ _ _ _ _ He E) as R0. change (pop_ l (dram c)) with (dram (pop l c)) in W, W0, R0.
  destruct I5 as [H1|t0 H1 H3 H4 H5 H6 H7|t0 H1|t0 H1|t0 H1]; try congruence. rewrite Wh in H6. injection H6 as <-.
  rewrite schedule_ev_ok by (try lia; change (when_ Refresh (dram (pop l c)) = None); by rewrite W). eexists. split; [done|]. set (c' := _ <| dram := _ |>).
  assert (replan t (dram (pop l c)) t (dram c')) as R1 by (apply replan_put; try done; [by eapply rp_events|by rewrite W]).
  pose proof (replan_trans _ _ _ _ _ _ R0 R1) as R.
  assert (forall e, e <> NextReq -> e <> Refresh -> when_ e (dram c') = when_ e (dram c)) as W2.
  { intros e Hn Hn'. change (dram c') with (put Refresh t (dram (pop l c))). by rewrite when_put_ne, W. }
  assert (when_ NextReq (dram c') = None) as Wn by (change (dram c') with (put Refresh t (dram (pop l c))); by rewrite when_put_ne). constructor.
  - done.
  - by eapply replan_good.
  - destruct I3 as [Q1 Q2 Q3 Q4 Q5 Q6 Q7 Q8 Q9 Q10]. by constructor.
  - constructor; rewrite ?Wn, ?W2 by done; try done. by eapply replan_bounded.
  - eapply (ph_pre _ _ _ t); try done; [|change (dram c') with (put Refresh t (dram (pop l c))); apply when_put; by rewrite W|by left]. destruct H3 as [G1 G2 G3]. constructor; [by eapply replan_over|by rewrite W2|].
    unfold busy in *. change (numBanksActive (dram c')) with (numBanksActive (dram c)). rewrite !W2 by done.
    destruct G3 as [G3|(G3 & G4 & G5)]; [by left|right]. split; [done|]. split; [done|]. intros A HA. destruct (G5 A HA). congruence.
Qed.

Lemma next_wait_ok n t c l : inv P Mem n t c -> events (dram c) = (NextReq, t) :: l -> refreshing c -> inv P Mem n t (pop l c).
Proof.
  intros [I1 I2 I3 I4 I5] E Hs. pose proof (good_events _ _ I2) as He. pose proof I4 as [T1 T2 T3 T4 T8 T5 T6 T7].
  pose proof (fun e' => when_pop_ne e' _ _ _ _ E) as W. pose proof (when_pop _ _ _ _ _ He E) as W0. pose proof (when_head _ _ _ _ E) as Wh. rewrite Wh in T4.
  change (pop_ l (dram c)) with (dram (pop l c)) in W, W0. assert (refreshState c <> REF_DRAIN /\ refreshState c <> REF_IDLE) as [Hd Hi] by (destruct Hs; split; congruence).
  pose proof (pop_phase _ _ _ _ He E ltac:(by right) ltac:(done)) as Sp. constructor.
  - done.
  - eapply replan_good; [apply Sp|done].
  - by apply queues_dram.
  - constructor; rewrite ?W0, ?W by done; try done. eapply replan_bounded; [apply Sp|done].
  - by eapply phase_step.
Qed.

(** The direction changes even if the request has to wait. *)
Lemma inv_switch n t c l : inv P Mem n t c -> refreshState c <> REF_IDLE ->
  let c' := fst (switch_bus c) in
  inv P Mem n t c' /\ fst (switch_bus (pop l c)) = pop l c' /\ events (dram c') = events (dram c) /\ refreshState c' = refreshState c.
Proof.
  intros [I1 I2 I3 I4 I5] Hs c'. pose proof I4 as [T1 T2 T3 T4 T8 T5 T6 T7]. pose proof (q_bus _ _ _ _ I3) as Hb.
  assert (forall r w b, (b = WRITE \/ b = READ_TO_WRITE -> writeQueue c <> []) ->
    inv P Mem n t (c <| dram := (dram c) <| readsThisTime := r |> <| writesThisTime := w |> |> <| busState := b |>)) as H.
  { intros r w b Hw. set (c1 := _ <| busState := b |>). assert (replan t (dram c) t (dram c1)) as R by (apply replan_set; [by apply good_events|done..]).
    constructor; [done|by eapply replan_good|apply queues_bus; [by apply queues_dram|done]| |].
    - constructor; try done. by eapply replan_bounded.
    - eapply phase_step; [|exact I5]. by constructor. }
  unfold c'. unfold switch_bus. change (busState (pop l c)) with (busState c). destruct (busState c) eqn:E; cbn [fst].
  - split; [|done]. by constructor.
  - split; [|done]. refine (eq_rect _ (inv P Mem n t) (H 0 (writesThisTime (dram c)) WRITE _) _ _); [intros _; apply Hb; by right|]. by destruct c as [[]].
  - split; [|done]. by constructor.
  - split; [|done]. refine (eq_rect _ (inv P Mem n t) (H (readsThisTime (dram c)) 0 READ _) _ _); [by intros [?|?]|]. by destruct c as [[]].
Qed.

(** The handler, which sends a retry at its end. *)
Lemma next_ok n t c l : 0 <= writeHighThreshold P -> inv P Mem n t c -> events (dram c) = (NextReq, t) :: l ->
  exists c', processNextReqEvent P t (pop l c) = Ok c' /\ inv P Mem n t c'.
Proof.
  intros HT I E. unfold processNextReqEvent. assert (refreshState (fst (switch_bus (pop l c))) = refreshState c) as Es.
  { unfold switch_bus. by destruct (busState _). }
  assert (forall c', inv P Mem n t c' -> exists c'', (if retryWrReq c' && (Z.of_nat (length (writeQueue c')) <? writeBufferSize P)
    then Ok (sendRetry (c' <| retryWrReq := false |>)) else Ok c') = Ok c'' /\ inv P Mem n t c'') as Hr.
  { intros c' I'. case_if; eexists; (split; [done|]); [|done]. by eapply inv_core; [|exact I']. }
  destruct (refreshState c) eqn:Hs.
  - pose proof (choosing_switch n t _ (choosing_pop n t c l I E Hs)) as C. pose proof (switch_dir (pop l c)) as Hd.
    destruct (switch_bus (pop l c)) as [c1 sw]. cbn [fst] in *. rewrite Es.
    destruct (decide (busState c1 = READ)) as [Hb|Hb].
    + destruct (next_read_ok n t c1 sw HT C Hb) as (c2 & more & -> & H). cbn [mbind res_bind]. destruct more; [|by exists c2].
      destruct H as (c3 & -> & _ & I'). cbn [mbind res_bind]. by apply Hr.
    + destruct Hd as [Hd|Hd]; [done|]. destruct (next_write_ok n t c1 sw C Hd) as (c2 & -> & c3 & Ec & _ & I'). cbn [mbind res_bind].
      rewrite Ec. cbn [mbind res_bind]. by apply Hr.
  - destruct (inv_switch n t c l I) as (I' & Ep & Ee & Hs'); [congruence|]. rewrite <- Ee in E. destruct (switch_bus (pop l c)) as [c1 sw]. cbn [fst] in *. rewrite Es, Ep.
    apply next_drain_ok; [done|done|congruence].
  - destruct (inv_switch n t c l I) as (I' & Ep & Ee & Hs'); [congruence|]. rewrite <- Ee in E. destruct (switch_bus (pop l c)) as [c1 sw]. cbn [fst] in *. rewrite Es, Ep.
    eexists. split; [done|]. apply next_wait_ok; [done|done|]. left. congruence.
  - destruct (inv_switch n t c l I) as (I' & Ep & Ee & Hs'); [congruence|]. rewrite <- Ee in E. destruct (switch_bus (pop l c)) as [c1 sw]. cbn [fst] in *. rewrite Es, Ep.
    eexists. split; [done|]. apply next_wait_ok; [done|done|]. right. congruence.
Qed.

(** ** The power state and the refresh *)
Lemma follow_none t c : when_ Power (dram c) = None -> follow P t c = Ok c.
Proof.
  intros H. unfold follow. destruct (events (dram c)) as [|[e t'] l] eqn:E; [done|]. destruct e; try done. by rewrite (when_head _ _ _ _ E) in H.
Qed.

Lemma follow_power t c l : ev_ok t l -> events (dram c) = ev_insert Power t l -> follow P t c = processPowerEvent P t (pop l c).
Proof. intros Ho E. unfold follow. rewrite E, ev_insert_front by done. by rewrite Z.eqb_refl. Qed.

Lemma schedulePowerEvent_ok s now t c : when_ Power (dram c) = None -> now <= t ->
  schedulePowerEvent s now t c = Ok (c <| pwrStateTrans := s |> <| dram := put Power t (dram c) |>).
Proof.
  intros Hn Ht. unfold schedulePowerEvent. rewrite (assert_ok (now <=? t)) by (by apply Z.leb_le). cbn [mbind res_bind].
  unfold scheduled. rewrite Hn. cbn. by apply schedule_ev_ok.
Qed.

Lemma ahead_before a e t r l : StronglySorted (fun x y => snd x <= snd y) l -> ev_when e l = Some r -> t <= r -> a <> e -> ahead a e (ev_insert a t l).
Proof.
  intros Hs Hw Ht Hne. induction l as [|[x tx] l IH]; [done|]. apply StronglySorted_inv in Hs as [Hs Hf]. cbn [ev_insert]. case_if; [by left|].
  bool_prop. right. cbn [ev_when] in Hw. destruct (decide (x = e)) as [->|Hx]; [injection Hw; lia|]. split; [done|]. by apply IH.
Qed.

(** While no request is planned. *)
Record base (n t : Z) (c : DRAMCtrl) : Prop := {
  ba_now : 0 <= t < LIMIT;
  ba_free : bus_free t (dram c);
  ba_queues : queues P Mem n c;
  ba_order : in_order c;
  ba_next : when_ NextReq (dram c) = None
}.

Lemma base_inv n t c : base n t c -> refreshState c <> REF_IDLE -> phase P t c -> inv P Mem n t c.
Proof.
  intros [A1 (B1 & B2 & B3 & B4) A3 [O1 O2 O3] A5] Hs Ph. constructor; try done. constructor; try done. by rewrite A5.
Qed.

(** The banks are refreshed. *)
Lemma refresh_run_ok n t c : base n t c -> refreshState c = REF_RUN -> pwrState c = PWR_REF -> numBanksActive (dram c) = 0 ->
  when_ Activate (dram c) = None -> when_ Precharge (dram c) = None -> when_ Power (dram c) = None -> when_ Refresh (dram c) = None ->
  0 <= refreshDueAt c <= t -> t <= refreshDueAt c + ahead_max P + S1 P + Cp P + tRP P ->
  exists c', refresh_run P t c = Ok c' /\ inv P Mem n t c'.
Proof.
  intros [A1 ((v & B & L) & B2 & B3 & B4) A3 [O1 O2 O3] A5] Hs Hp Hn Wa Wp Ww Wr Hdue Ht. unfold LIMIT in A1. pose proof (parts_nonneg P Sa) as PN.
  pose proof (delay_small P Sa) as [DS _]. pose proof (params_small P Sa) as PS. pose proof (sa_refi P Sa) as SR. rewrite delay_ahead in SR. pose proof (sa_small P Sa) as SS.
  pose proof (sa_rfc P Sa) as S3. pose proof (sa_rp P Sa) as S4. pose proof ahead_nonneg as AN.
  destruct (refresh_all_ok P Sa t (dram c) v B L Hn Wp Wa) as ((v' & B' & L') & Hn' & Ee & Er & Eb); [lia|].
  set (d1 := refresh_all P t (dram c)) in *. assert (forall e, when_ e d1 = when_ e (dram c)) as W1 by (intros e; unfold when_; by rewrite Ee).
  unfold refresh_run. rewrite Hn, Hp. cbn [Z.eqb assert_ mbind res_bind]. rewrite (bool_decide_eq_true_2 (PWR_REF = PWR_REF)) by done. cbn [assert_ mbind res_bind].
  fold d1. unfold tadd. rewrite (u64_small (t + tRFC P)) by lia.
  change (refreshDueAt (c <| dram := d1 |>)) with (refreshDueAt c). rewrite (u64_small (refreshDueAt c + tREFI P)) by lia. rewrite (u64_small (refreshDueAt c + tREFI P - tRP P)) by lia.
  rewrite (proj2 (Z.ltb_ge _ _)) by lia. set (r := refreshDueAt c + tREFI P - tRP P).
  rewrite schedule_ev_ok by (try lia; change (when_ Refresh d1 = None); by rewrite W1). cbn [mbind res_bind]. set (d2 := put Refresh r d1).
  rewrite (assert_ok (negb (scheduled Power _))) by (unfold scheduled; change (negb (negb (bool_decide (when_ Power d2 = None))) = true); unfold d2; rewrite when_put_ne, W1 by done; by rewrite Ww).
  cbn [mbind res_bind]. rewrite schedulePowerEvent_ok by (try lia; change (when_ Power d2 = None); unfold d2; by rewrite when_put_ne, W1).
  eexists. split; [done|]. set (d3 := put Power (t + tRFC P) d2). match goal with |- inv _ _ _ _ ?x => set (c' := x) end.
  assert (ev_ok t (events d1)) as Ho1 by apply B'.
  assert (replan t d1 t d2) as R2 by (apply replan_put; try done; [by rewrite W1|lia]).
  assert (replan t d2 t d3) as R3 by (apply replan_put; try done; [apply R2|unfold d2; by rewrite when_put_ne, W1|lia]).
  pose proof (replan_trans _ _ _ _ _ _ R2 R3) as R. assert (forall e, e <> Refresh -> e <> Power -> when_ e d3 = when_ e (dram c)) as W3.
  { intros e H1 H2. unfold d3, d2. by rewrite !when_put_ne, W1. }
  assert (when_ Refresh d3 = Some r) as Wr3 by (unfold d3, d2; rewrite when_put_ne by done; apply when_put; by rewrite W1).
  assert (busBusyUntil d3 = busBusyUntil (dram c) /\ nextReqTime d3 = nextReqTime (dram c)) as [Ebus Enext] by (unfold rest_of in Er; injection Er as E1 E2; done).
  assert (bounded P (Z.max t (busBusyUntil d3)) d3) as Bd.
  { rewrite Ebus. eapply replan_bounded; [exact R|]. constructor.
    - intros rr b x Hx. destruct (Eb _ _ _ Hx) as (y & Hy & ->). destruct (bo_bank _ _ _ B2 _ _ _ Hy) as (X1 & X2 & X3). cbn. lia.
    - intros T. rewrite W1. intros HT. congruence. }
  apply base_inv; [|cbn; congruence|].
  - constructor; [done| | | |change (when_ NextReq d3 = None); by rewrite W3].
    + split; [eapply replan_good; [exact R|by exists v']|]. split; [exact Bd|]. change (dram c') with d3. rewrite Ebus, Enext. done.
    + by eapply queues_same.
    + constructor; [done|change (Forall (fun p => readyTime p <= busBusyUntil d3) (respQueue c)); by rewrite Ebus|change (when_ Respond d3 = readyTime <$> head (respQueue c)); by rewrite W3].
  - eapply (ph_run _ _ _ (t + tRFC P)); try done.
    + change (when_ Power (put Power (t + tRFC P) d2) = Some (t + tRFC P)). apply when_put. unfold d2. by rewrite when_put_ne, W1.
    + by exists r.
    + apply (ahead_before _ _ _ r); [apply R2|change (when_ Refresh d2 = Some r); apply when_put; by rewrite W1|lia|done].
    + change (when_ Activate d3 = None). by rewrite W3.
    + change (when_ Precharge d3 = None). by rewrite W3.
    + intros rr b x. change (bank_at (dram c') rr b) with (bank_at d3 rr b). rewrite (replan_bank_at _ _ _ _ R). intros Hx. destruct (Eb _ _ _ Hx) as (y & Hy & ->). cbn. lia.
    + left. change (when_ NextReq d3 = None). by rewrite W3.
Qed.

Lemma base_same n t c c' : base n t c -> dram c' = dram c -> contents c' = contents c -> base n t c'.
Proof.
  intros [A1 A2 A3 [O1 O2 O3] A5] E1 E2. assert (respQueue c' = respQueue c) as Er by (unfold contents in E2; congruence).
  constructor; rewrite ?E1; try done; [by eapply queues_same|]. constructor; rewrite ?Er, ?E1; done.
Qed.

(** The power event for the present is scheduled, and served next. *)
Lemma base_power n t c s : base n t c -> when_ Power (dram c) = None ->
  exists c1, schedulePowerEvent s t t c = Ok c1 /\ c1 = c <| pwrStateTrans := s |> <| dram := dram c1 |> /\ numBanksActive (dram c1) = numBanksActive (dram c) /\
    forall st, follow P t (c1 <| refreshState := st |>) = processPowerEvent P t (c <| pwrStateTrans := s |> <| refreshState := st |>).
Proof.
  intros [A1 (B & _) A3 A4 A5] Hn. rewrite schedulePowerEvent_ok by (done || lia). eexists. split; [done|]. split; [by destruct c|]. split; [done|].
  intros st. erewrite follow_power; [|by apply good_events|done]. unfold pop. f_equal. by destruct c as [[]].
Qed.

(** The banks are precharged, if need be, before they are refreshed. *)
Lemma refresh_precharge_ok n t c : base n t c -> refreshState c = REF_PRE -> rows P t c -> when_ Refresh (dram c) = None ->
  0 <= refreshDueAt c <= t -> t <= refreshDueAt c + ahead_max P ->
  exists c1 c2, refresh_precharge P t c = Ok c1 /\ follow P t c1 = Ok c2 /\ inv P Mem n t c2.
Proof.
  intros A Hs [R1 R2 R3] Wr Hdue Ht. unfold refresh_precharge. pose proof (parts_nonneg P Sa) as PN. pose proof (sa_rp P Sa) as S4.
  destruct R3 as [[Hp Hb]|(Hp & H1 & H2)].
  - rewrite decide_False by congruence. pose proof A as [A1 ((v & B & L) & B2 & B3 & B4) A3 [O1 O2 O3] A5]. unfold LIMIT in A1. pose proof (delay_small P Sa) as [DS _].
    destruct (precharge_all_ok P Sa t (dram c) v (Z.max t (busBusyUntil (dram c))) B L B2) as (d & v' & -> & B' & L' & Hn & La & Bd & Er & W & Hb'); [lia|lia|].
    cbn [mbind res_bind]. change (numBanksActive (dram _)) with (numBanksActive d). rewrite Hn. cbn [Z.eqb assert_ mbind res_bind].
    eexists. set (c1 := _ <| refreshState := REF_RUN |>). exists c1. split; [done|]. split; [apply follow_none; change (when_ Power d = None); by rewrite W|].
    assert (busBusyUntil d = busBusyUntil (dram c) /\ nextReqTime d = nextReqTime (dram c)) as [Ebus Enext] by (unfold rest_of in Er; injection Er as E1 E2; done).
    destruct (Hb' Hb) as [?|(T & HT)]; [lia|].
    apply base_inv; [|done|].
    + constructor; [done| | | |change (when_ NextReq d = None); by rewrite W].
      * split; [by exists v'|]. change (dram c1) with d. by rewrite Ebus, Enext.
      * by eapply queues_same.
      * constructor; [done|change (Forall (fun p => readyTime p <= busBusyUntil d) (respQueue c)); by rewrite Ebus|change (when_ Respond d = readyTime <$> head (respQueue c)); by rewrite W].
    + eapply (ph_close _ _ _ T); try done.
      * change (when_ Power d = None). by rewrite W.
      * change (when_ Refresh d = None). by rewrite W.
      * pose proof (bo_event _ _ _ Bd T HT). change (refreshDueAt c1) with (refreshDueAt c). lia.
      * left. change (when_ NextReq d = None). by rewrite W.
  - rewrite decide_True by done. assert (when_ Activate (dram c) = None) as Wa.
    { destruct (when_ Activate (dram c)) as [a|]; [|done]. destruct (H2 a eq_refl). congruence. }
    destruct (H1 Wa) as [Hn Wp]. destruct (base_power n t c PWR_REF A R2) as (c1 & -> & E1 & En & Hf). cbn [mbind res_bind].
    change (numBanksActive (dram (c1 <| refreshState := REF_RUN |>))) with (numBanksActive (dram c1)). rewrite En, Hn. cbn [Z.eqb assert_ mbind res_bind].
    eexists. rewrite (Hf REF_RUN). unfold processPowerEvent. cbn [pwrState pwrStateTrans].
    set (c2 := ((c <| pwrStateTrans := PWR_REF |> <| refreshState := REF_RUN |>) <| pwrState := PWR_REF |>)).
    change (pwrState (_ <| pwrState := _ |>)) with PWR_REF. rewrite decide_False by done. cbn [mbind res_bind].
    change (pwrState (_ <| pwrState := _ |>)) with PWR_REF. rewrite decide_True by done.
    change (refreshState (_ <| pwrState := _ |>)) with REF_RUN. rewrite (bool_decide_eq_true_2 (REF_RUN = REF_RUN)) by done. cbn [assert_ mbind res_bind].
    unfold processRefreshEvent. change (refreshState (_ <| pwrState := _ |>)) with REF_RUN. rewrite decide_False by done.
    change (refreshState (_ <| pwrState := _ |>)) with REF_RUN. cbv iota.
    destruct (refresh_run_ok n t c2) as (c3 & E3 & I); try done; [by eapply base_same|change (refreshDueAt c2) with (refreshDueAt c); lia|].
    exists c3. split; [done|]. split; [exact E3|done].
Qed.

(** An event of the banks is taken from the queue. *)
Lemma inv_pop n t e c l : inv P Mem n t c -> events (dram c) = (e, t) :: l -> e <> Respond -> e <> NextReq ->
  replan t (dram c) t (dram (pop l c)) /\ (forall e', e' <> e -> when_ e' (dram (pop l c)) = when_ e' (dram c)) /\ when_ e (dram (pop l c)) = None /\
  (when_ NextReq (dram c) = None -> base n t (pop l c)) /\ (refreshing c -> when_ NextReq (dram c) = None) /\ timing P t (pop l c) /\ queues P Mem n (pop l c).
Proof.
  intros [I1 I2 I3 I4 I5] E H1 H2. pose proof (good_events _ _ I2) as He. pose proof I4 as [T1 T2 T3 T4 T8 T5 T6 T7].
  pose proof (fun e' => when_pop_ne e' _ _ _ _ E) as W. pose proof (when_pop _ _ _ _ _ He E) as W0. pose proof (replan_pop _ _ _ _ _ He E) as R.
  change (pop_ l (dram c)) with (dram (pop l c)) in W, W0, R. assert (queues P Mem n (pop l c)) as Q by (by apply queues_dram).
  split; [done|]. split; [done|]. split; [done|]. split; [|split; [|split; [|done]]].
  - intros Hn. rewrite Hn in T4. constructor; [done| |done| |by rewrite W].
    + split; [by eapply replan_good|]. split; [by eapply replan_bounded|done].
    + constructor; [done|done|by rewrite W].
  - intros Hr. eapply next_first_head; [done| |done|done]. by eapply phase_first.
  - constructor; rewrite ?W by done; try done. by eapply replan_bounded.
Qed.

Lemma refresh_ok n t c l : inv P Mem n t c -> events (dram c) = (Refresh, t) :: l ->
  exists c1 c2, processRefreshEvent P t (pop l c) = Ok c1 /\ follow P t c1 = Ok c2 /\ inv P Mem n t c2.
Proof.
  intros I E. destruct (inv_pop n t Refresh c l I E ltac:(done) ltac:(done)) as (R & W & W0 & Hb & Hn & T & Q).
  pose proof (i_phase _ _ _ _ _ I) as Ph. pose proof (i_now _ _ _ _ _ I) as I1. pose proof (when_head _ _ _ _ E) as Wh.
  assert (forall st due, rows P t c -> rows P t ((pop l c) <| refreshDueAt := due |> <| refreshState := st |>)) as Hr.
  { intros st due [R1 R2 R3]. constructor; [by eapply replan_over|change (when_ Power (dram (pop l c)) = None); by rewrite W|].
    set (c' := _ <| refreshState := st |>). change (dram c') with (dram (pop l c)). unfold busy. change (numBanksActive (dram (pop l c))) with (numBanksActive (dram c)).
    rewrite !W by done. destruct R3 as [R3|(R3 & R4 & R5)]; [by left|right]. split; [done|]. split; [done|]. intros A HA.
    destruct (R5 A HA) as (_ & _ & Ha). rewrite E in Ha. by destruct Ha as [?|[? _]]. }
  unfold processRefreshEvent. destruct Ph as [Hs Hrows _|t0 Hs _ Hw|t0 Hs Hrows Hw Hdue Ht Hf|t0 Hs _ _ Hw|t0 Hs _ _ _ _ Ha]; try congruence.
  - change (refreshState (pop l c)) with (refreshState c). rewrite Hs. rewrite decide_True by done.
    change (refreshState (_ <| refreshState := REF_DRAIN |>)) with REF_DRAIN. cbv iota. unfold scheduled.
    change (dram (_ <| refreshState := _ |>)) with (dram (pop l c)). rewrite W by done. case_bool_decide as Hw; cbn [negb].
    + destruct (refresh_precharge_ok n t ((pop l c) <| refreshDueAt := t |> <| refreshState := REF_PRE |>)) as (c1 & c2 & E1 & E2 & I').
      * eapply base_same; [by apply Hb|done|done].
      * done.
      * by apply Hr.
      * done.
      * cbn. lia.
      * cbn. pose proof ahead_nonneg. lia.
      * exists c1, c2. split; [|done]. rewrite <- E1. f_equal.
    + destruct (when_ NextReq (dram c)) as [tn|] eqn:Hwn; [|done]. eexists. set (c1 := _ <| refreshState := REF_DRAIN |>). exists c1. split; [done|].
      pose proof (Hr REF_DRAIN t Hrows) as Rc. fold c1 in Rc. split; [apply follow_none; apply Rc|]. constructor; [done| | | |].
      * eapply replan_good; [exact R|apply I].
      * by eapply queues_same.
      * destruct T as [T1 T2 T3 T4 T8 T5 T6 T7]. by constructor.
      * eapply (ph_drain _ _ _ tn); try done; [cbn; lia|change (when_ NextReq (dram (pop l c)) = Some tn); by rewrite W|].
        pose proof (t_next _ _ _ (i_timing _ _ _ _ _ I) Hs tn Hwn). exact H.
  - change (refreshState (pop l c)) with (refreshState c). rewrite Hs. rewrite decide_False by done. change (refreshState (pop l c)) with (refreshState c). rewrite Hs.
    rewrite Wh in Hw. injection Hw as <-.
    apply (refresh_precharge_ok n t (pop l c)); try done; [apply Hb, Hn; by left|].
    assert (pop l c = (pop l c) <| refreshDueAt := refreshDueAt c |> <| refreshState := REF_PRE |>) as -> by (rewrite <- Hs; by destruct c). by apply Hr.
  - exfalso. rewrite E in Ha. by destruct Ha as [?|[? _]].
Qed.

(** When the last row has been closed, the activations are over. *)
Lemma last_precharge t c l : banks_good P t (dram c) -> events (dram c) = (Precharge, t) :: l -> numBanksActive (dram c) = 0 ->
  when_ Activate (dram c) = None.
Proof.
  intros (v & B & _) E Hn. destruct (when_ Activate (dram c)) as [a|] eqn:Ha; [|done]. exfalso.
  assert (t <= a) as H1. { unfold when_ in Ha. rewrite E in Ha. eapply ev_in; [|exact Ha]. pose proof (bi_events _ _ _ _ B) as He. by rewrite E in He. }
  pose proof (sa_ras P Sa). pose proof (sa_rp P Sa).
  destruct (bi_activate _ _ _ _ B a Ha) as [H3|[(T & HT & H3)|(r & b & x & Hx & Ho & _)]]; [lia| |].
  - rewrite (when_head _ _ _ _ E) in HT. injection HT as <-. lia.
  - apply (proj1 (counted_zero P Sa (dram c) (bi_count _ _ _ _ B)) Hn r b). by exists x.
Qed.

(** The phase after a change of the rows. *)
Lemma phase_rows now c c' : phase P now c -> refreshState c <> REF_RUN -> refreshState c' = refreshState c -> refreshDueAt c' = refreshDueAt c ->
  when_ NextReq (dram c') = when_ NextReq (dram c) -> when_ Refresh (dram c') = when_ Refresh (dram c) ->
  (next_first c -> refreshing c -> next_first c') -> rows P now c' -> phase P now c'.
Proof.
  intros Ph Hs E1 E2 W1 W2 Hf Hr. destruct Ph as [H1 H3 H4|t0 H1 H3 H4 H5 H6 H7|t0 H1 H3 H4 H5 H6 H7|t0 H1|t0 H1]; [| | |congruence..].
  - apply ph_idle; [congruence|done|by rewrite W2].
  - eapply (ph_drain _ _ _ t0); rewrite ?E2, ?W1, ?W2; try done. congruence.
  - eapply (ph_pre _ _ _ t0); rewrite ?E2, ?W1, ?W2; try done; [congruence|]. apply Hf; [done|by left].
Qed.

Lemma timing_same t c c' : timing P t c -> dram c' = dram c -> contents c' = contents c -> refreshState c' = refreshState c -> timing P t c'.
Proof.
  intros [T1 T2 T3 T4 T8 T5 T6 T7] E1 E2 E3. unfold contents in E2. injection E2 as F1 F2 F3 F4 F5 F6 F7 F8.
  constructor; rewrite ?E1, ?F2, ?F4, ?F7, ?E3; done.
Qed.

Lemma precharge_ok n t c l : inv P Mem n t c -> events (dram c) = (Precharge, t) :: l ->
  exists c1 c2, processPrechargeEvent t (pop l c) = Ok c1 /\ follow P t c1 = Ok c2 /\ inv P Mem n t c2.
Proof.
  intros I E. destruct (inv_pop n t Precharge c l I E ltac:(done) ltac:(done)) as (R & W & W0 & Hb & Hn & T & Q).
  pose proof I as [I1 I2 I3 I4 I5]. pose proof (when_head _ _ _ _ E) as Wh. pose proof I2 as (v & B & _).
  assert (next_first c -> refreshing c -> when_ NextReq (dram (pop l c)) = None) as Hf by (intros _ Hr; rewrite W by done; auto).
  unfold processPrechargeEvent. change (numBanksActive (dram (pop l c))) with (numBanksActive (dram c)).
  destruct (Z.eqb_spec (numBanksActive (dram c)) 0) as [Hz|Hz].
  - pose proof (last_precharge t c l I2 E Hz) as Wa.
    assert (pwrState c = PWR_ACT /\ when_ Power (dram c) = None) as [Hp Wp].
    { destruct I5 as [_ [_ Hw [[? _]|(Hp & H4 & _)]]|t0 _ [_ Hw [[? _]|(Hp & H4 & _)]]|t0 _ [_ Hw [[? _]|(Hp & H4 & _)]]|t0 _ H2 H3|t0]; try done;
        try (destruct (H4 Wa); congruence). congruence. }
    pose proof (replan_good _ _ _ _ R I2) as Bg. pose proof (good_events _ _ Bg) as He.
    rewrite schedulePowerEvent_ok by (try lia; by rewrite W). eexists. set (cp := _ <| dram := _ |>).
    assert (follow P t cp = processPowerEvent P t ((pop l c) <| pwrStateTrans := PWR_IDLE |>)) as ->.
    { erewrite follow_power; [|exact He|done]. by destruct c as [[]]. }
    unfold processPowerEvent. change (pwrState (_ <| pwrStateTrans := _ |>)) with (pwrState c). rewrite Hp.
    set (c1 := _ <| pwrState := _ |>). change (pwrState c1) with PWR_IDLE. rewrite (decide_True (P := PWR_IDLE = PWR_IDLE)), (decide_False (P := PWR_ACT = PWR_REF)) by done.
    rewrite (bool_decide_eq_true_2 (PWR_ACT = PWR_ACT)) by done. cbn [assert_ mbind res_bind]. change (refreshState c1) with (refreshState c).
    destruct (decide (refreshState c = REF_RUN)) as [Hs|Hs].
    + rewrite (assert_ok (negb (scheduled Power c1))) by (unfold scheduled; change (dram c1) with (dram (pop l c)); rewrite W by done; by rewrite Wp).
      cbn [mbind res_bind]. change (pwrState (_ <| pwrState := PWR_REF |>)) with PWR_REF. rewrite decide_True by done.
      change (refreshState (_ <| pwrState := PWR_REF |>)) with (refreshState c). rewrite Hs. rewrite (bool_decide_eq_true_2 (REF_RUN = REF_RUN)) by done. cbn [assert_ mbind res_bind].
      unfold processRefreshEvent. change (refreshState (_ <| pwrState := PWR_REF |>)) with (refreshState c). rewrite Hs. rewrite decide_False by done.
      change (refreshState (_ <| pwrState := PWR_REF |>)) with (refreshState c). rewrite Hs. cbv iota.
      destruct I5 as [H1|t0 H1|t0 H1|t0 H1 H2 H3 H4 H5 H6 H7 H8 H9|t0 H1 H2]; try congruence. rewrite Wh in H7. injection H7 as <-.
      destruct (refresh_run_ok n t (c1 <| pwrState := PWR_REF |>)) as (c3 & E3 & I'); try done; try (change (dram (_ <| pwrState := _ |>)) with (dram (pop l c)); by rewrite W).
      * eapply (base_same n t (pop l c)); [by apply Hb, Hn; right|done|done].
      * exists c3. done.
    + cbn [mbind res_bind]. change (pwrState c1) with PWR_IDLE. rewrite decide_False by done. exists c1. split; [done|]. split; [done|].
      constructor; [done|exact Bg|by eapply queues_same|by apply (timing_same t (pop l c))|].
      eapply (phase_rows t c); try done; [by apply W|by apply W|intros F1 F2; left; by apply Hf|].
      assert (rows P t c) as [R1 R2 R3] by (destruct I5; done || congruence). constructor; [by eapply replan_over|change (when_ Power (dram (pop l c)) = None); by rewrite W|].
      right. split; [done|]. change (dram c1) with (dram (pop l c)). rewrite W by done. rewrite Wa. split; [done|]. intros A HA. done.
  - assert (rows P t c) as Hr by (destruct I5; congruence). pose proof Hr as [R1 R2 R3].
    assert (refreshState c <> REF_RUN) as Hs by (destruct I5; congruence).
    eexists _, _. split; [done|]. split; [apply follow_none; by rewrite W|]. constructor; [done|by eapply replan_good|done|done|].
    eapply (phase_rows t c); try done; [by apply W|by apply W|intros F1 F2; left; by apply Hf|]. constructor; [by eapply replan_over|by rewrite W|].
    destruct R3 as [[Hp _]|(Hp & H4 & H5)].
    + left. split; [done|]. left. change (numBanksActive (dram (pop l c))) with (numBanksActive (dram c)).
      pose proof (counted_bound P Sa (dram c) (bi_shape _ _ _ _ B) (bi_count _ _ _ _ B)). lia.
    + right. split; [done|]. rewrite W by done. split; [intros Wa; destruct (H4 Wa); lia|]. intros A HA. destruct (H5 A HA) as (G1 & G2 & G3).
      split; [done|]. split; [done|]. rewrite E in G3. by destruct G3 as [?|[_ ?]].
Qed.

(** An activation keeps the banks busy until its row is closed. *)
Lemma activate_busy t c : banks_good P t (dram c) -> when_ Activate (dram c) = Some t -> busy (dram c).
Proof.
  intros (v & B & _) Ha. pose proof (sa_ras P Sa). pose proof (sa_rp P Sa).
  destruct (bi_activate _ _ _ _ B t Ha) as [H3|[(T & HT & H3)|(r & b & x & Hx & Ho & _)]]; [lia|right; by exists T|left].
  pose proof (counted_bound P Sa (dram c) (bi_shape _ _ _ _ B) (bi_count _ _ _ _ B)).
  destruct (Z.eq_dec (numBanksActive (dram c)) 0) as [Hz|]; [|lia]. exfalso.
  apply (proj1 (counted_zero P Sa (dram c) (bi_count _ _ _ _ B)) Hz r b). by exists x.
Qed.

Lemma activate_ok n t c l : inv P Mem n t c -> events (dram c) = (Activate, t) :: l ->
  exists c1 c2, processActivateEvent t (pop l c) = Ok c1 /\ follow P t c1 = Ok c2 /\ inv P Mem n t c2.
Proof.
  intros I E. destruct (inv_pop n t Activate c l I E ltac:(done) ltac:(done)) as (R & W & W0 & Hb & Hn & T & Q).
  pose proof I as [I1 I2 I3 I4 I5]. pose proof (when_head _ _ _ _ E) as Wh. pose proof (activate_busy t c I2 Wh) as Hbusy.
  assert (next_first c -> refreshing c -> next_first (pop l c)) as Hf by (intros _ Hr; left; rewrite W by done; auto).
  assert (busy (dram (pop l c))) as Hbusy' by (unfold busy in *; by rewrite W).
  assert (when_ Power (dram c) = None) as Wp by (destruct I5 as [? []|? ? []|? ? []| |]; done || congruence).
  pose proof (replan_good _ _ _ _ R I2) as Bg. unfold processActivateEvent. change (pwrState (pop l c)) with (pwrState c).
  assert (forall s, rows P t c -> rows P t ((pop l c) <| pwrStateTrans := s |> <| pwrState := PWR_ACT |>)) as Hrows.
  { intros s [R1 R2 R3]. constructor; [by eapply replan_over|change (when_ Power (dram (pop l c)) = None); by rewrite W|by left]. }
  destruct (decide (pwrState c = PWR_ACT)) as [Hp|Hp].
  - eexists _, _. split; [done|]. split; [apply follow_none; by rewrite W|]. constructor; [done|done|done|done|].
    assert (refreshState c <> REF_RUN -> rows P t (pop l c)) as Hr.
    { intros Hs. assert (rows P t c) as [R1 R2 R3] by (destruct I5; done || congruence). constructor; [by eapply replan_over|by rewrite W|by left]. }
    destruct (decide (refreshState c = REF_RUN)) as [Hs|Hs].
    + destruct I5 as [H1|t0 H1|t0 H1|t0 H1 H2 H3 H4 H5 H6 H7 H8 H9|t0 H1 H2]; try congruence.
      eapply (ph_close _ _ _ t0); try done; [by rewrite W..|]. apply Hf; [done|by right].
    + eapply (phase_rows t c); try done; [by apply W|by apply W|by apply Hr].
  - assert (refreshState c <> REF_RUN /\ rows P t c) as [Hs Hr] by (destruct I5; split; congruence || done).
    rewrite schedulePowerEvent_ok by (try lia; by rewrite W). eexists. set (cp := _ <| dram := _ |>).
    assert (follow P t cp = processPowerEvent P t ((pop l c) <| pwrStateTrans := PWR_ACT |>)) as ->.
    { erewrite follow_power; [|by apply (good_events t (dram (pop l c)))|done]. by destruct c as [[]]. }
    unfold processPowerEvent. set (c1 := _ <| pwrState := _ |>). change (pwrState c1) with PWR_ACT. rewrite decide_False by done. cbn [mbind res_bind].
    change (pwrState c1) with PWR_ACT. rewrite decide_False by done. exists c1. split; [done|]. split; [done|].
    constructor; [done|exact Bg|by eapply queues_same|by apply (timing_same t (pop l c))|].
    eapply (phase_rows t c); try done; [by apply W|by apply W|by apply Hrows].
Qed.

(** The refresh is done. *)
Lemma power_ok n t c l : inv P Mem n t c -> events (dram c) = (Power, t) :: l ->
  exists c1, processPowerEvent P t (pop l c) = Ok c1 /\ inv P Mem n t c1.
Proof.
  intros I E. destruct (inv_pop n t Power c l I E ltac:(done) ltac:(done)) as (R & W & W0 & Hb & Hn & T & Q).
  pose proof I as [I1 I2 I3 I4 I5]. pose proof (when_head _ _ _ _ E) as Wh.
  destruct I5 as [? []|? ? []|? ? []| |t0 H1 H2 H3 H4 [tr H5] H6 H7 H8 H9 H10 H11]; try congruence. rewrite Wh in H4. injection H4 as <-.
  pose proof (replan_good _ _ _ _ R I2) as Bg. unfold processPowerEvent. change (pwrState (pop l c)) with (pwrState c). change (pwrStateTrans (pop l c)) with (pwrStateTrans c).
  rewrite H2, H3. set (c1 := _ <| pwrState := _ |>). change (pwrState c1) with PWR_IDLE. rewrite (decide_True (P := PWR_IDLE = PWR_IDLE)), (decide_True (P := PWR_REF = PWR_REF)) by done.
  pose proof (Hn ltac:(by right)) as Wn. set (c2 := c1 <| refreshState := REF_IDLE |>).
  rewrite (assert_ok (negb (scheduled NextReq c2))) by (unfold scheduled; change (dram c2) with (dram (pop l c)); rewrite W by done; by rewrite Wn). cbn [mbind res_bind].
  rewrite schedule_ev_ok by (try lia; change (dram c2) with (dram (pop l c)); by rewrite W). cbn [mbind res_bind]. set (c3 := c2 <| dram := _ |>).
  change (pwrState c3) with PWR_IDLE. rewrite decide_False by done. exists c3. split; [done|].
  assert (replan t (dram (pop l c)) t (dram c3)) as R1 by (apply replan_put; try done; [apply R|by rewrite W]).
  assert (forall e, e <> NextReq -> when_ e (dram c3) = when_ e (dram (pop l c))) as W3 by (intros e He; by apply when_put_ne).
  assert (when_ NextReq (dram c3) = Some t) as W4 by (apply when_put; change (dram c2) with (dram (pop l c)); by rewrite W). constructor.
  - done.
  - by eapply replan_good.
  - by eapply queues_same.
  - destruct T as [T1 T2 T3 T4 T8 T5 T6 T7]. constructor; rewrite ?W4; try done.
    + by rewrite W3.
    + rewrite W, Wn in T4 by done. exact T4.
    + intros _ t' [= <-]. pose proof ahead_nonneg. lia.
    + eapply replan_bounded; [exact R1|exact T6].
  - apply ph_idle; [done| |exists tr; by rewrite W3, W]. constructor.
    + eapply replan_over; [exact R1|]. eapply replan_over; [exact R|]. intros r b x Hx. left. by eapply H10.
    + by rewrite W3.
    + right. split; [done|]. rewrite !W3, !W by done. rewrite H8. split; [done|]. intros A HA. done.
Qed.

(** ** Requests *)
Context (Ge : geometry P).

Lemma decode_spot now pkt a size isRead : exists p, decodeAddr P now pkt a size isRead = Ok p /\ spot P p.
Proof.
  destruct Ge as [_ D _ _]. destruct (decodeAddr_total P D now pkt a size isRead) as (p & E & P1 & P2 & P3 & P4 & _). exists p. split; [done|].
  split; [|done]. split; [done|]. split; [done|]. rewrite P4. pose proof (sa_total P Sa). pose proof (sa_ranks P Sa). pose proof (sa_banks P Sa). unfold u16.
  rewrite wrap_id by (unfold inw; nia). unfold bank_index. lia.
Qed.

Lemma merge_write_spot addr size queue : forall queue', merge_write P addr size queue = Some queue' -> Forall (spot P) queue -> Forall (spot P) queue'.
Proof.
  induction queue as [|w queue IH]; intros queue'; [done|]. cbn [merge_write].
  repeat case_if; intros H F; apply Forall_cons in F as [F1 F2]; try (apply fmap_Some in H as (r & Er & ->); constructor; [done|by apply IH]); injection H as <-; by constructor.
Qed.

Lemma add_writes_spot now pkt start psize cnt : forall a queue queue', add_writes P now pkt start psize cnt a queue = Ok queue' ->
  Forall (spot P) queue -> Forall (spot P) queue'.
Proof.
  induction cnt as [|cnt IH]; intros a queue queue' H F; cbn [add_writes] in H; [by injection H as <-|].
  destruct (add_write _ _ _ _ _ _) as [q|] eqn:E; [|done]. eapply IH; [exact H|]. unfold add_write in E.
  destruct (merge_write _ _ _ _) as [q1|] eqn:Em; [injection E as <-; by eapply merge_write_spot|].
  destruct (decode_spot now pkt a (burst_bytes P start psize a) false) as (p & Ep & Hp). rewrite Ep in E. cbn [mbind res_bind] in E.
  destruct (assert_ _); [|done]. injection E as <-. apply Forall_app_2; [done|]. by apply Forall_singleton.
Qed.

Lemma add_reads_spot now pkt start psize helper nresp wq cnt : forall a queue k queue' k',
  add_reads P now pkt start psize helper nresp wq cnt a queue k = Ok (queue', k') -> Forall (spot P) queue -> Forall (spot P) queue'.
Proof.
  induction cnt as [|cnt IH]; intros a queue k queue' k' H F; cbn [add_reads] in H; [by injection H as <- _|].
  destruct (foundInWrQ _ _ _); [by eapply IH|].
  destruct (decode_spot now pkt a (burst_bytes P start psize a) true) as (p & Ep & Hp). rewrite Ep in H. cbn [mbind res_bind] in H.
  destruct (assert_ _); [|done]. cbn [mbind res_bind] in H. eapply IH; [exact H|]. apply Forall_app_2; [done|]. by apply Forall_singleton.
Qed.

(** The next request is planned, if none is. *)
Lemma kick_ok n n' t c c1 : inv P Mem n t c -> dram c1 = dram c -> mode c1 = mode c -> respQueue c1 = respQueue c -> queues P Mem n' c1 ->
  exists c2, kick t c1 = Ok c2 /\ inv P Mem n' t c2.
Proof.
  intros [I1 I2 I3 I4 I5] Ed M Er Q. pose proof I4 as [T1 T2 T3 T4 T8 T5 T6 T7]. pose proof (good_events _ _ I2) as He.
  assert (refreshState c1 = refreshState c) as Es by (unfold mode in M; congruence).
  assert (same_phase t c t c1) as Sp.
  { constructor; rewrite ?Ed; try done; [by apply replan_set|]. intros _. unfold next_first. by rewrite Ed. }
  unfold kick, scheduled. rewrite Ed. case_bool_decide as Hn; cbn [negb].
  - rewrite schedule_ev_ok by (rewrite ?Ed; done || lia). eexists. split; [done|]. set (c2 := c1 <| dram := _ |>).
    assert (dram c2 = put NextReq t (dram c)) as E2 by (change (dram c2) with (put NextReq t (dram c1)); by rewrite Ed).
    assert (when_ NextReq (dram c2) = Some t) as Wn by (rewrite E2; by apply when_put).
    assert (forall e, e <> NextReq -> when_ e (dram c2) = when_ e (dram c)) as W by (intros e Hne; rewrite E2; by apply when_put_ne).
    assert (same_phase t c t c2) as Sp2.
    { eapply (request_phase t t); try done; [intros Hd|].
      - destruct I5; congruence.
      - intros _. right. exists t, (events (dram c)). rewrite E2. by apply ev_insert_front. }
    constructor; [done|by eapply replan_good; [apply Sp2|]|by apply (queues_dram n' c1 _ Q)| |by eapply phase_step].
    constructor; rewrite ?Wn; change (respQueue c2) with (respQueue c1); rewrite ?Er, ?E2; try done.
    + rewrite <- E2. by rewrite W.
    + rewrite Hn in T4. exact T4.
    + intros _ t' [= <-]. pose proof ahead_nonneg. lia.
    + rewrite <- E2. eapply replan_bounded; [apply Sp2|]. rewrite E2. exact T6.
  - exists c1. split; [done|]. constructor; [done|by rewrite Ed|done| |by eapply phase_step].
    constructor; rewrite ?Ed, ?Er, ?Es; try done.
Qed.

Lemma inv_answer n n' t c c1 : inv P Mem n t c -> dram c1 = dram c -> mode c1 = mode c -> respQueue c1 = respQueue c -> readQueue c1 = readQueue c ->
  busState c1 = busState c -> queues P Mem n' c1 -> inv P Mem n' t c1.
Proof.
  intros [I1 I2 I3 I4 I5] Ed M Er Eq Eb Q. pose proof I4 as [T1 T2 T3 T4 T8 T5 T6 T7]. pose proof (good_events _ _ I2) as He.
  assert (refreshState c1 = refreshState c) as Es by (unfold mode in M; congruence).
  constructor; [done|by rewrite Ed|done| |].
  - constructor; rewrite ?Ed, ?Er, ?Es, ?Eq, ?Eb; done.
  - eapply phase_step; [|exact I5]. constructor; rewrite ?Ed; try done; [by apply replan_set|]. intros _. unfold next_first. by rewrite Ed.
Qed.

Lemma parts_all o l : Forall (fun p => burstHelper p = o) l -> forall o', parts_of o' l = if decide (o = o') then Z.of_nat (length l) else 0.
Proof.
  induction 1 as [|p l Hp F IH]; intros o'; [by case_decide|]. rewrite parts_of_cons, Hp, IH. cbn [length]. case_decide; lia.
Qed.

(** The bursts of a read that are not among the writes join the reads. *)
Lemma queues_read n c pkt new serviced count : queues P Mem n c -> served Mem pkt -> needsResponse pkt = true ->
  Forall (fun p => spot P p /\ dp_size p <= burstSize P /\ dp_pkt p = pkt) new ->
  Forall (fun p => burstHelper p = if 1 <? count then Some (new_helper c) else None) new ->
  new <> [] -> 0 <= serviced -> serviced + Z.of_nat (length new) = count -> count < 2 ^ 32 ->
  Z.of_nat (length (readQueue c)) + Z.of_nat (length new) + Z.of_nat (length (respQueue c)) <= readBufferSize P ->
  queues P Mem (n + 1) (let c1 := c <| readQueue := readQueue c ++ new |> in
    match (if 1 <? count then Some (new_helper c) else None) with
    | Some h => c1 <| helpers := <[h := (count, serviced)]> (helpers c1) |> <| new_helper := Pos.succ h |>
    | None => c1
    end).
Proof.
  intros [Q1 Q2 Q3 Q4 Q5 Q6 Q7 Q8 Q9 Q10] Hs Hn F Fh Hne Hsv Hc Hc' Hl. pose proof (parts_all _ _ Fh) as Hp.
  assert (Forall (read_entry P Mem) (readQueue c ++ new)) as Fr.
  { apply Forall_app_2; [done|]. eapply Forall_impl; [exact F|]. intros p (H1 & H2 & H3). unfold read_entry. by rewrite H3. }
  assert (forall o, parts_of o ((readQueue c ++ new) ++ respQueue c) = parts_of o new + parts_of o (readQueue c ++ respQueue c)) as Ep.
  { intros o. rewrite !parts_of_app. lia. }
  assert (0 < Z.of_nat (length new)) as Hpos by (destruct new; [done|cbn; lia]). cbv zeta.
  destruct (Z.ltb_spec 1 count) as [H1|H1].
  - set (h := new_helper c) in *. assert (helpers c !! h = None) as Hh by (apply Q8; unfold h; lia). pose proof (Q7 h) as Qh. cbv zeta in Qh. rewrite Hh in Qh.
    constructor; cbn; try done.
    + rewrite length_app. lia.
    + intros h'. rewrite Ep, Hp. destruct (decide (h' = h)) as [->|Hne'].
      * rewrite lookup_insert_eq, decide_True by done. lia.
      * rewrite lookup_insert_ne, decide_False, Z.add_0_l by congruence. apply Q7.
    + intros h' Hh'. rewrite lookup_insert_ne by lia. apply Q8. unfold h in Hh'. lia.
    + unfold owed in *. cbn. rewrite Ep, Hp, decide_False by done. rewrite map_size_insert_None by done. lia.
  - constructor; cbn; try done.
    + rewrite length_app. lia.
    + intros h'. rewrite Ep, Hp, decide_False, Z.add_0_l by done. apply Q7.
    + unfold owed in *. cbn. rewrite Ep, Hp, decide_True by done. lia.
Qed.

Lemma getAddr_size pkt : good_request Mem pkt -> exists a size, getAddr pkt = Ok a /\ getSize pkt = Ok size /\ 0 <= a /\ 0 < size < 2 ^ 30 /\ a + size <= 2 ^ 62.
Proof. intros [_ _ (a & size & H1 & H2 & [H3 H4 H5])]. exists a, size. done. Qed.

Lemma read_request_ok n t c pkt a size : inv P Mem n t c -> good_request Mem pkt -> isRead pkt = true -> getAddr pkt = Ok a -> getSize pkt = Ok size ->
  0 <= a -> 0 < size < 2 ^ 30 -> a + size <= 2 ^ 62 ->
  readQueueFull P (readQueue c) (respQueue c) (left_from P a size a) = false ->
  exists c', addToReadQueue P t pkt (left_from P a size a) c = Ok c' /\ inv P Mem (n + 1) t c'.
Proof.
  intros I [Hs Ho _] Hrd Ea Es Ha Hsz He Hf. destruct (Ho Hrd) as [Hw Hn]. destruct Ge as [(k & Hk & HB) D R W]. pose proof I as [I1 I2 I3 I4 I5].
  destruct (dram_pkt_count_ok P k Hk HB a size Ha Hsz He) as [_ Hcount]. set (count := left_from P a size a) in *.
  unfold readQueueFull in Hf. apply Z.ltb_ge in Hf. pose proof I3 as [Q1 Q2 Q3 Q4 Q5 Q6 Q7 Q8 Q9 Q10]. rewrite u64_small in Hf by lia.
  unfold addToReadQueue. rewrite Hw. cbn [negb assert_ mbind res_bind].
  rewrite (assert_ok (negb (count =? 0))) by (apply neqb; lia). cbn [mbind res_bind]. rewrite Ea, Es. cbn [mbind res_bind].
  set (helper := if 1 <? count then Some (new_helper c) else None).
  destruct (add_reads_ok P k Hk D a size Hsz t pkt helper (length (respQueue c)) (writeQueue c) (Z.to_nat count) a (readQueue c) 0) as (new & Eq & Tq & Fq); [lia..|].
  pose proof (add_reads_spot _ _ _ _ _ _ _ _ _ _ _ _ _ Eq) as Sq. rewrite Eq. cbn [mbind res_bind].
  set (parts := bursts P a size (Z.to_nat count) a) in *.
  pose proof (filter_both (found (writeQueue c)) parts) as Lb. pose proof (f_equal length Tq) as Lt. rewrite length_fmap in Lt. unfold parts in Lb at 3. rewrite bursts_length in Lb.
  set (serviced := 0 + Z.of_nat (length (filter (fun c0 => found (writeQueue c) c0 = true) parts))) in *.
  assert (serviced + Z.of_nat (length new) = count) as Hsum by (unfold serviced; lia).
  destruct (Z.eqb_spec serviced count) as [E|E].
  - assert (new = []) as -> by (apply length_zero_iff_nil; lia). rewrite app_nil_r.
    assert (Mem (array (c <| readQueue := readQueue c |>))) as Q1' by exact Q1.
    destruct (accessAndRespond_ok t pkt (frontendLatency P) (c <| readQueue := readQueue c |>) Hs Q1') as (m & rs & -> & Hm & Hl). rewrite Hn in Hl. cbn in Hl.
    eexists. split; [done|]. eapply inv_answer; [exact I|done..|]. constructor; try done. unfold owed in *. cbn. lia.
  - pose proof (queues_read n c pkt new serviced count I3 Hs Hn) as Qn.
    match goal with |- exists c', kick t ?x = Ok c' /\ _ => set (c1 := x) end.
    apply (kick_ok n (n + 1) t c c1 I); try (unfold c1, helper; by case_if). apply Qn; try (lia || done).
    + assert (Forall (fun p => dp_size p <= burstSize P) new) as Fs.
      { apply Forall_forall. intros p Hp. assert ((dp_addr p, dp_size p) ∈ parts) as Hin.
        { assert ((dp_addr p, dp_size p) ∈ (fun p => (dp_addr p, dp_size p)) <$> new) as Hi by (apply list_elem_of_fmap; by exists p).
          rewrite Tq in Hi. by apply list_elem_of_filter in Hi as [_ Hi]. }
        destruct (bursts_ok P k Hk HB a size Ha Hsz He (Z.to_nat count) a) as [Fp _]; [lia|fold count; lia|]. rewrite Forall_forall in Fp.
        destruct (Fp _ Hin) as (_ & Hsz' & _). cbn in Hsz'. lia. }
      assert (Forall (spot P) new) as Fsp.
      { assert (Forall (spot P) (readQueue c ++ new)) as F2 by (apply Sq; eapply Forall_impl; [exact Q2|]; by intros p [H _]). by apply Forall_app in F2 as [_ F2]. }
      apply Forall_forall. intros p Hp. rewrite Forall_forall in Fs, Fsp, Fq. destruct (Fq p Hp) as (_ & Hpk & _). auto.
    + eapply Forall_impl; [exact Fq|]. by intros p (_ & _ & H & _).
    + intros ->. cbn in Hsum. lia.
Qed.

Lemma write_request_ok n t c pkt a size : inv P Mem n t c -> good_request Mem pkt -> isWrite pkt = true -> getAddr pkt = Ok a -> getSize pkt = Ok size ->
  0 <= a -> 0 < size < 2 ^ 30 -> a + size <= 2 ^ 62 ->
  writeQueueFull P (writeQueue c) (left_from P a size a) = false ->
  exists c', addToWriteQueue P t pkt (left_from P a size a) c = Ok c' /\ inv P Mem (n + if needsResponse pkt then 1 else 0) t c'.
Proof.
  intros I [Hs _ _] Hw Ea Es Ha Hsz He Hf. destruct Ge as [(k & Hk & HB) D R W]. pose proof I as [I1 I2 I3 I4 I5].
  destruct (dram_pkt_count_ok P k Hk HB a size Ha Hsz He) as [_ Hcount]. set (count := left_from P a size a) in *.
  unfold writeQueueFull in Hf. apply Z.ltb_ge in Hf. pose proof I3 as [Q1 Q2 Q3 Q4 Q5 Q6 Q7 Q8 Q9 Q10]. rewrite u64_small in Hf by lia.
  unfold addToWriteQueue. rewrite Hw. cbn [assert_ mbind res_bind]. rewrite Ea, Es. cbn [mbind res_bind].
  destruct (add_writes_ok P k Hk HB D a size Ha Hsz He t pkt (Z.to_nat count) a (writeQueue c)) as (q & Eq & Fq & _ & _ & _ & Lq & _);
    [lia|fold count; lia|eapply Forall_impl; [exact Q3|]; by intros p [_ H]|lia|].
  pose proof (add_writes_spot _ _ _ _ _ _ _ _ Eq ltac:(eapply Forall_impl; [exact Q3|]; by intros p [H _])) as Sq. rewrite Eq. cbn [mbind res_bind].
  assert (Mem (array (c <| writeQueue := q |>))) as Q1' by exact Q1.
  destruct (accessAndRespond_ok t pkt (frontendLatency P) (c <| writeQueue := q |>) Hs Q1') as (m & rs & -> & Hm & Hl). cbn [mbind res_bind].
  eapply kick_ok; [exact I|done..|]. constructor; cbn in Hl |- *; try done.
  - rewrite Forall_forall in *. intros p Hp. split; auto.
  - lia.
  - unfold owed in *. cbn. lia.
  - intros Hb ->. cbn in Lq. specialize (Q10 Hb). destruct (writeQueue c); [done|]. cbn in Lq. lia.
Qed.

Lemma request_ok_turn n now t pkt c : inv P Mem n now c -> in_time now t c -> good_request Mem pkt ->
  exists c' k, turn P (Request t pkt) c = Ok (c', t, k) /\ inv P Mem (n + k) t c'.
Proof.
  intros I0 [Ht Hev] G.
  assert (inv P Mem n t c) as I.
  { eapply inv_time; [exact I0|done|]. pose proof (good_events _ _ (i_banks _ _ _ _ _ I0)) as He. destruct (events (dram c)) as [|[e t'] l] eqn:E; [done|].
    destruct (ev_head _ _ _ _ He) as [_ F]. pose proof (Hev e t' l eq_refl). eapply Forall_impl; [exact F|]. cbn. lia. }
  clear I0 Hev. destruct (getAddr_size pkt G) as (a & size & Ea & Es & Ha & Hsz & He). pose proof Ge as [(k & Hk & HB) D R W].
  destruct (dram_pkt_count_ok P k Hk HB a size Ha Hsz He) as [Ec _]. cbn [turn]. unfold recvTimingReq. rewrite Ea, Es. cbn [mbind res_bind].
  destruct (memInhibitAsserted pkt).
  { eexists c, 0. cbn [mbind res_bind andb negb]. by rewrite Z.add_0_r. }
  rewrite Ec. cbn [mbind res_bind]. destruct (isRead pkt) eqn:Er; [|destruct (isWrite pkt) eqn:Ew].
  - rewrite (assert_ok (negb (size =? 0))) by (apply neqb; lia). cbn [mbind res_bind]. destruct (readQueueFull _ _ _ _) eqn:Ef.
    + eexists _, 0. cbn [mbind res_bind andb]. split; [done|]. rewrite Z.add_0_r. by eapply inv_core; [|exact I].
    + destruct (read_request_ok n t c pkt a size I G Er Ea Es Ha Hsz He Ef) as (c' & -> & I'). cbn [mbind res_bind].
      eexists c', 1. destruct (gr_one _ _ G Er) as [_ ->]. by split.
  - rewrite (assert_ok (negb (size =? 0))) by (apply neqb; lia). cbn [mbind res_bind]. destruct (writeQueueFull _ _ _) eqn:Ef.
    + eexists _, 0. cbn [mbind res_bind andb]. split; [done|]. rewrite Z.add_0_r. by eapply inv_core; [|exact I].
    + destruct (write_request_ok n t c pkt a size I G Ew Ea Es Ha Hsz He Ef) as (c' & -> & I'). cbn [mbind res_bind andb negb]. by eexists c', _.
  - destruct (accessAndRespond_ok t pkt 1 c (gr_served _ _ G) (q_mem _ _ _ _ (i_queues _ _ _ _ _ I))) as (m & rs & -> & Hm & Hl). cbn [mbind res_bind andb negb].
    exists (c <| array := m |> <| responses := rs |>), (if needsResponse pkt then 1 else 0). split; [done|]. eapply inv_answer; [exact I|done..|].
    destruct (i_queues _ _ _ _ _ I) as [Q1 Q2 Q3 Q4 Q5 Q6 Q7 Q8 Q9 Q10]. constructor; try done.
    change (n + (if needsResponse pkt then 1 else 0) = Z.of_nat (length rs) + owed c). lia.
Qed.

(** ** Turns *)
Lemma in_time_events now t c : ev_ok now (events (dram c)) -> in_time now t c -> Forall (fun x => t <= snd x) (events (dram c)).
Proof.
  intros He [_ Hev]. destruct (events (dram c)) as [|[e t'] l] eqn:E; [done|]. destruct (ev_head _ _ _ _ He) as [_ F].
  pose proof (Hev e t' l eq_refl). eapply Forall_impl; [exact F|]. cbn. lia.
Qed.

Lemma drain_ok n now t count c : inv P Mem n now c -> in_time now t c -> exists c', turn P (Drain t count) c = Ok (c', t, 0) /\ inv P Mem (n + 0) t c'.
Proof.
  intros I0 Ht. assert (inv P Mem n t c) as I by (eapply inv_time; [exact I0|apply Ht|]; eapply in_time_events; [eapply good_events; apply I0|done]).
  rewrite Z.add_0_r. cbn [turn]. unfold drain. destruct (empty_ (writeQueue c) && empty_ (readQueue c) && empty_ (respQueue c)); cbn [negb].
  - exists c. by split.
  - set (c1 := c <| drainManager := true |>). destruct (kick_ok n n t c c1 I) as (c2 & Ek & I2); try done; [by eapply queues_same; [apply I|]|].
    assert (inv P Mem n t c1) as I1 by (by eapply inv_core; [|exact I]).
    destruct (empty_ (writeQueue c1)); cbn [negb andb]; [by exists c1|]. unfold kick in Ek. destruct (scheduled NextReq c1); cbn [negb] in *; [by exists c1|].
    rewrite Ek. by exists c2.
Qed.

Lemma serve_ok n now e t c l : 0 <= writeHighThreshold P -> inv P Mem n now c -> events (dram c) = (e, t) :: l -> t < LIMIT ->
  exists c', turn P Serve c = Ok (c', t, 0) /\ inv P Mem (n + 0) t c'.
Proof.
  intros HT I0 E Ht. pose proof (good_events _ _ (i_banks _ _ _ _ _ I0)) as He. rewrite E in He. destruct (ev_head _ _ _ _ He) as [Hle F].
  assert (inv P Mem n t c) as I by (eapply inv_time; [exact I0|done|by rewrite E]). rewrite Z.add_0_r. cbn [turn]. unfold serve. rewrite E.
  destruct e; cbn [process].
  - destruct (next_ok n t c l HT I E) as (c1 & -> & I1). by exists c1.
  - destruct (respond_ok n t c l I E) as (c1 & -> & I1). by exists c1.
  - destruct (activate_ok n t c l I E) as (c1 & c2 & -> & Ef & I1). cbn [mbind res_bind]. rewrite Ef. by exists c2.
  - destruct (precharge_ok n t c l I E) as (c1 & c2 & -> & Ef & I1). cbn [mbind res_bind]. rewrite Ef. by exists c2.
  - destruct (refresh_ok n t c l I E) as (c1 & c2 & -> & Ef & I1). cbn [mbind res_bind]. rewrite Ef. by exists c2.
  - destruct (power_ok n t c l I E) as (c1 & -> & I1). by exists c1.
Qed.

(** An event leads on. *)
Lemma inv_events n now c : inv P Mem n now c -> events (dram c) <> [].
Proof.
  intros I E. assert (forall e, when_ e (dram c) = None) as W by (intros e; unfold when_; by rewrite E).
  destruct (i_phase _ _ _ _ _ I) as [_ _ [t H]|t _ _ _ _ H|t _ _ H|t _ _ _ _ _ _ H|t _ _ _ H]; by rewrite W in H.
Qed.

(** ** The start *)
Lemma banks_new_at r b x : bank_at (Dram_new P) r b = Some x -> in_range P r b /\ x = Bank_new (group P b).
Proof.
  unfold bank_at, Dram_new, banks_new. cbn [banks]. destruct (replicate _ _ !! r) as [l|] eqn:E; [|done].
  apply lookup_replicate in E as [-> Hr]. cbn [mbind option_bind]. rewrite list_lookup_fmap.
  intros (b' & Hb & ->)%fmap_Some. apply lookup_seq in Hb as [-> Hb]. done.
Qed.

Lemma start_banks now r : 0 <= now -> now <= r -> banks_good P now (put Refresh r ((Dram_new P) <| busBusyUntil := now + S1 P |>)).
Proof.
  intros Hnow Hr. exists Dev_new. split; [|constructor]. set (d := put _ _ _).
  assert (forall rr b, bank_at d rr b = bank_at (Dram_new P) rr b) as Eb by done. constructor; try done.
  - constructor; cbn; unfold banks_new; rewrite ?length_replicate; try done. apply Forall_replicate. by rewrite length_fmap, length_seq.
  - exists ∅. split; [|done]. intros rr b. split; [set_solver|]. intros (x & Hx & Ho). rewrite Eb in Hx. by apply banks_new_at in Hx as [_ ->].
  - intros rr b x. rewrite Eb. intros [_ ->]%banks_new_at. constructor; cbn; try done. intros a. by intros ?%elem_of_nil.
  - intros rr ticks Ht. apply lookup_replicate in Ht as [-> _]. unfold ticks_of. cbn [dv_acts Dev_new app]. by rewrite firstn_all2 by (rewrite length_replicate; lia).
  - intros rr a. by intros ?%elem_of_nil.
  - constructor; cbn.
    + repeat constructor.
    + apply NoDup_singleton.
    + by apply Forall_singleton.
Qed.

Lemma start_ok p m now c0 : Mem m -> DRAMCtrl_new p m = Ok (P, c0) -> 0 <= now < LIMIT ->
  exists c, startup P now c0 = Ok c /\ inv P Mem 0 now c.
Proof.
  intros Hm H Hnow. destruct (start_state _ _ _ _ H) as [HT ->]. unfold startup, LIMIT in *. pose proof (parts_nonneg P Sa) as PN. pose proof (delay_small P Sa) as [DS _].
  pose proof (params_small P Sa) as PS. pose proof (sa_refi P Sa) as SR. rewrite delay_ahead in SR. pose proof (sa_small P Sa) as SS. pose proof ahead_nonneg as AN.
  pose proof (sa_rfc P Sa) as S3. pose proof (sa_rp P Sa) as S4. pose proof (sa_rcd P Sa) as S5. pose proof (sa_cl P Sa) as S6.
  cbn [dram]. assert (now + tRP P + tRCD P + tCL P = now + S1 P) as E1 by (unfold S1; lia). rewrite E1. rewrite (u64_small (now + S1 P)) by lia.
  rewrite (u64_small (now + tREFI P - tRP P)) by lia. set (r := now + tREFI P - tRP P).
  rewrite schedule_ev_ok by (done || lia). eexists. split; [done|]. set (d := put Refresh r ((Dram_new P) <| busBusyUntil := now + S1 P |>)).
  match goal with |- inv _ _ _ _ ?x => set (c := x) end. assert (dram c = d) as Ed by done.
  assert (forall rr b x, bank_at d rr b = Some x -> x = Bank_new (group P b)) as Eb by (intros rr b x Hx; by apply (banks_new_at rr b x) in Hx as [_ ->]).
  destruct Ge as [_ _ Hrd Hwr]. constructor.
  - done.
  - rewrite Ed. apply start_banks; lia.
  - constructor; cbn; try done; try lia.
    + by intros [?|?].
  - constructor; try done.
    + constructor.
    + rewrite Ed. change (busBusyUntil d) with (now + S1 P). change (when_ NextReq d) with (None : option Z). cbn. lia.
    + rewrite Ed. change (busBusyUntil d) with (now + S1 P). change (nextReqTime d) with 0. lia.
    + rewrite Ed. constructor; [|done]. intros rr b x Hx. rewrite (Eb _ _ _ Hx). cbn. change (busBusyUntil d) with (now + S1 P). lia.
  - apply ph_idle; [done| |by exists r]. constructor; [|done|by right].
    intros rr b x Hx. rewrite (Eb _ _ _ Hx). left. cbn. lia.
Qed.

Lemma turn_ok n now c i : 0 <= writeHighThreshold P -> inv P Mem n now c -> admissible Mem now c i ->
  exists c' now' k, turn P i c = Ok (c', now', k) /\ inv P Mem (n + k) now' c'.
Proof.
  intros HT I A. destruct i as [|t pkt|t count].
  - pose proof (inv_events _ _ _ I) as He. destruct (events (dram c)) as [|[e t] l] eqn:E; [done|].
    destruct (serve_ok n now e t c l HT I E (A e t l E)) as (c' & E' & I'). by exists c', t, 0.
  - destruct A as [A G]. destruct (request_ok_turn n now t pkt c I A G) as (c' & k & E' & I'). by exists c', t, k.
  - destruct (drain_ok n now t count c I A) as (c' & E' & I'). by exists c', t, 0.
Qed.

Lemma dram_reach_inv now c n : reach P Mem now c n -> 0 <= writeHighThreshold P /\ inv P Mem n now c.
Proof.
  induction 1 as [p m now c0 c Hm E Ht Es|now c n i c' now' k R [HT I] A E].
  - destruct (start_state _ _ _ _ E) as [HT _]. split; [done|]. destruct (start_ok p m now c0 Hm E Ht) as (c' & E' & I). congruence.
  - split; [done|]. destruct (turn_ok n now c i HT I A) as (c1 & now1 & k1 & E1 & I1). congruence.
Qed.

Lemma serves_reach k : forall now c n c' now', reach P Mem now c n -> serves P k now c = Ok (c', now') -> reach P Mem now' c' n.
Proof.
  induction k as [|k IH]; intros now c n c' now' R E; cbn [serves] in E; [by injection E as <- <-|].
  destruct (serve P c) as [[c1 t]|] eqn:Es; [|done]. cbn [mbind res_bind] in E. destruct (Z.ltb_spec t LIMIT) as [Ht|]; [|done]. cbn [assert_ mbind res_bind] in E.
  eapply IH; [|exact E]. rewrite <- (Z.add_0_r n). eapply (reach_turn _ _ now c n Serve); [done| |cbn [turn]; by rewrite Es].
  intros e t' l Ee. unfold serve in Es. rewrite Ee in Es. destruct (process P e t' (pop l c)) as [c2|]; [|done]. cbn [mbind res_bind] in Es.
  destruct (match e with Activate | Precharge | Refresh => follow P t' c2 | _ => Ok c2 end) as [c3|]; [|done]. cbn in Es. by injection Es as _ <-.
Qed.

(** With no burst in a queue no answer is owed. *)
Lemma nothing_owed n c : queues P Mem n c -> readQueue c = [] -> respQueue c = [] -> owed c = 0.
Proof.
  intros Q E1 E2. unfold owed. rewrite E1, E2. change (parts_of None ([] ++ [])) with 0.
  assert (helpers c = ∅) as ->; [|by rewrite map_size_empty]. apply map_empty. intros h.
  pose proof (q_helper _ _ _ _ Q h) as H. cbv zeta in H. rewrite E1, E2 in H. destruct (helpers c !! h) as [[count serviced]|]; [|done].
  change (parts_of (Some h) ([] ++ [])) with 0 in H. lia.
Qed.

End Safe.

(** ** The claims *)
Section Claims.

Context (P : DramParams) (Mem : AbstractMemory -> Prop).

(** C15. Once started, the controller fails in nothing that can happen to it: no
    assertion, no panic, no division by zero and no access outside its queues and
    banks, whatever comes next, be it the next of its events, a request or a
    drain; it can be started; and an event is always pending, so that it never
    stops. *)
Theorem dram_ctrl_safe : sane P -> geometry P ->
  (forall p m now c0, Mem m -> DRAMCtrl_new p m = Ok (P, c0) -> 0 <= now < LIMIT -> exists c, startup P now c0 = Ok c) /\
  (forall now c n, reach P Mem now c n ->
     events (dram c) <> [] /\
     forall i, admissible Mem now c i -> exists c' now' k, turn P i c = Ok (c', now', k) /\ now' < LIMIT).
Proof.
  intros Sa Ge. split.
  - intros p m now c0 Hm E Ht. destruct (start_ok P Sa Mem Ge p m now c0 Hm E Ht) as (c & Es & _). by exists c.
  - intros now c n R. destruct (dram_reach_inv P Sa Mem Ge now c n R) as [HT I]. split; [by eapply inv_events|].
    intros i A. destruct (turn_ok P Sa Mem Ge n now c i HT I A) as (c' & now' & k & E & I'). exists c', now', k. split; [done|]. apply (i_now _ _ _ _ _ I').
Qed.

(** C14. In every state the controller reaches, a device accepts the commands given so
    far: every activation, access, precharge and refresh comes late enough after
    those before it for the timing of the device, and accesses the row that is
    open. *)
Theorem dram_ctrl_refines : sane P -> geometry P -> forall now c n, reach P Mem now c n -> exists v, legal P (cmdList (dram c)) v.
Proof.
  intros Sa Ge now c n R. destruct (dram_reach_inv P Sa Mem Ge now c n R) as [_ I]. destruct (i_banks _ _ _ _ _ I) as (v & _ & L). by exists v.
Qed.

(** C16. Each request that wants an answer gets one, once: the requests accepted are the
    responses sent and those with bursts that wait to be read or returned, and
    when none waits all are answered.  A read that waits has the next request
    planned, or a refresh under way. *)
Theorem dram_ctrl_answers : sane P -> geometry P -> forall now c n, reach P Mem now c n ->
  n = Z.of_nat (length (responses c)) + owed c /\
  (readQueue c = [] -> respQueue c = [] -> n = Z.of_nat (length (responses c))) /\
  Z.of_nat (length (readQueue c)) + Z.of_nat (length (respQueue c)) <= readBufferSize P /\
  Z.of_nat (length (writeQueue c)) <= writeBufferSize P /\
  (readQueue c <> [] -> refreshState c = REF_IDLE -> exists t, when_ NextReq (dram c) = Some t /\ now <= t <= now + ahead_max P).
Proof.
  intros Sa Ge now c n R. destruct (dram_reach_inv P Sa Mem Ge now c n R) as [_ I]. pose proof (i_queues _ _ _ _ _ I) as Q. pose proof (i_timing _ _ _ _ _ I) as T.
  split; [apply Q|]. split; [|split; [apply Q|split; [apply Q|]]].
  - intros H1 H2. rewrite (q_owed _ _ _ _ Q), (nothing_owed P Mem n c Q H1 H2). lia.
  - intros H1 H2. destruct (when_ NextReq (dram c)) as [t|] eqn:E; [|by destruct (t_work _ _ _ T H2 E)]. exists t. split; [done|]. split; [|by eapply t_next].
    pose proof (eo_future _ _ (good_events _ _ _ (i_banks _ _ _ _ _ I))) as F. rewrite Forall_forall in F. apply (F (NextReq, t)), ev_when_in, E.
Qed.

End Claims.

(** ** Examples *)

(** A small device: two banks of two rows of eight bytes, read in bursts of two. *)
Definition ex_device : DRAMCtrlParams :=
  mkDRAMCtrlParams
    (mkDramParams 0 0 0 1 0 2 1 0 32 64 0 0 16 7500 2500 2500 7500 0 13750 13750 13750 27500 15000 7500 84600 3900000
       2800 0 30000 4 frfcfs RoRaBaChCo close_page 16 10000 10000) 8 2 8 1 85 50.
Definition ex_timing : DramParams :=
  (copied ex_device) <| burstSize := 2 |> <| columnsPerRowBuffer := 4 |> <| columnsPerStripe := 1 |> <| rowsPerBank := 2 |>
    <| writeHighThreshold := 54 |> <| writeLowThreshold := 32 |>.
Definition ex_array (m : AbstractMemory) : Prop := mem_wf m /\ range m = ex_range /\ exists l, pmemAddr m = Some l.
Definition ex_request : Packet := ex_packet ReadReq 70 [1; 2; 3; 4].

Lemma ex_sane : sane ex_timing.
Proof. constructor; try (cbn; lia); vm_compute; done. Qed.

Lemma ex_geometry_small : geometry ex_timing.
Proof. constructor; [by exists 1| |by cbn..]. constructor; cbn; lia. Qed.

Lemma ex_good : good_request ex_array ex_request.
Proof.
  constructor.
  - intros m (Hm & Hr & l & Hl). assert (covers m 70 4) as Hc by (unfold covers; rewrite Hr; vm_compute; done).
    destruct (mem_bytes_covers m l 70 4 Hm Hl Hc) as (bs & Hb & _).
    destruct (access_read_ok m ex_request [1; 2; 3; 4] bs) as (m' & p' & E & _ & _ & _ & Hp & _ & M1 & M2 & _); try done.
    { split; [|done]. by apply ex_packet_wf; [unfold inw; lia|cbn; lia]. }
    exists m', p'. split; [exact E|]. split; [|done]. split; [|split; [congruence|exists l; congruence]]. unfold mem_wf in *. by rewrite M1, M2.
  - done.
  - exists 70, 4. split; [done|]. split; [done|]. constructor; lia.
Qed.

(** The read is served in two bursts, at the two banks, and answered. *)
Lemma ex_reach : exists c, reach ex_timing ex_array 56250 c 1 /\ length (responses c) = 1%nat /\ readQueue c = [] /\ respQueue c = [] /\
  events (dram c) = [(Refresh, 3886250)] /\
  (fun x => (c_kind x, c_bank x, c_tick x)) <$> cmdList (dram c) = [(RD 0, 1%nat, 35000); (PRE, 1%nat, 42500); (ACT 0, 1%nat, 7500); (RD 0, 0%nat, 27500); (PRE, 0%nat, 35000); (ACT 0, 0%nat, 10)].
Proof.
  eexists. split; [|split; [|split; [|split; [|split]]]].
  - eapply (serves_reach _ _ 8).
    + eapply (reach_turn _ _ 0 _ 0 (Request 10 ex_request) _ _ 1).
      * eapply (reach_start _ _ ex_device (ex_mem []) 0); [|vm_compute; reflexivity|done|vm_compute; reflexivity].
        split; [|split; [done|by eexists]]. split_and!; done.
      * split; [split; [done|]|exact ex_good]. intros e t l E. vm_compute in E. injection E as _ <- _. lia.
      * vm_compute. reflexivity.
    + vm_compute. reflexivity.
  - reflexivity.
  - reflexivity.
  - reflexivity.
  - reflexivity.
  - reflexivity.
Qed.

Lemma dram_ctrl_safe_witness : exists c, reach ex_timing ex_array 56250 c 1 /\ events (dram c) <> [] /\
  exists c' now' k, turn ex_timing Serve c = Ok (c', now', k) /\ now' < LIMIT.
Proof.
  destruct ex_reach as (c & R & _ & _ & _ & He & _). destruct (dram_ctrl_safe ex_timing ex_array ex_sane ex_geometry_small) as [_ H].
  destruct (H _ _ _ R) as [H1 H2]. exists c. split; [exact R|]. split; [exact H1|]. apply H2. intros e t l E. rewrite He in E. injection E as _ <- _. done.
Defined.

Lemma dram_ctrl_refines_witness : exists c v, legal ex_timing (cmdList (dram c)) v /\
  (fun x => (c_kind x, c_bank x, c_tick x)) <$> cmdList (dram c) = [(RD 0, 1%nat, 35000); (PRE, 1%nat, 42500); (ACT 0, 1%nat, 7500); (RD 0, 0%nat, 27500); (PRE, 0%nat, 35000); (ACT 0, 0%nat, 10)].
Proof.
  destruct ex_reach as (c & R & _ & _ & _ & _ & Hc). destruct (dram_ctrl_refines ex_timing ex_array ex_sane ex_geometry_small _ _ _ R) as [v L].
  exists c, v. split; [exact L|exact Hc].
Defined.

Lemma dram_ctrl_answers_witness : exists c, reach ex_timing ex_array 56250 c 1 /\ 1 = Z.of_nat (length (responses c)).
Proof.
  destruct ex_reach as (c & R & _ & Hr & Hp & _). exists c. split; [exact R|].
  exact (proj1 (proj2 (dram_ctrl_answers ex_timing ex_array ex_sane ex_geometry_small _ _ _ R)) Hr Hp).
Defined.
